(* ===== verification/_CoqProject ===== *)
-Q . S2P
Prelude.v
Float64.v
Ordering.v
Mempool.v
MempoolFacts.v
MempoolSpec.v
Storage.v
Database.v
Vlq.v
Utf8.v
Wire.v
Handshake.v
HandshakeSpec.v
Message.v
MessageSpec.v
ErgoTypes.v
Codec.v
Utxo.v
UtxoFacts.v
UtxoSpec.v
Emission.v
ChainParams.v
Autolykos.v
Difficulty.v
TxValidation.v
Validation.v
Block.v
BlockValidation.v
BlockSpec.v
Nipopow.v
Downloader.v
History.v
HistoryFacts.v
HistorySpec.v
HistoryPruning.v
HistoryBatch.v
HistoryProps.v
HistoryBodies.v
Manager.v
UtxoBatch.v
ManagerSpec.v
ManagerRoot.v
Peers.v
PeersSpec.v
SyncHeaders.v
SyncHeadersSpec.v
Synchronizer.v
SynchronizerSpec.v
SyncProtocol.v
HeaderSync.v
HeaderOrder.v
SyncRuns.v
SyncSpec.v
IndexCodec.v
Indexer.v
IndexerSpec.v
IndexerFlush.v
Wallet.v
WalletSpec.v
WalletTx.v
Mining.v
Miner.v
MiningSpec.v
MiningRounds.v
Scan.v
ScanSpec.v
Snapshots.v
SnapshotsSpec.v
NodePeers.v
NodeBlocks.v
Node.v
NodeBlocksSpec.v
NodeSpec.v
Service.v
ServiceSpec.v
Api.v
ApiQueries.v
ApiSpec.v
ApiUtils.v
Startup.v
