(* ===== verification/Prelude.v ===== *)
(** * A verification development for the Ergo Rust node

    The node (crates under src/crates) validates and stores the Ergo block
    chain.  A block arrives from the network as sections (ergo-consensus
    block.rs), after its download was scheduled by ergo-sync download.rs; it is
    validated against its parent and the unspent boxes (block_validation.rs,
    tx_validation.rs, cost.rs, chain_params.rs; the proof of work in
    autolykos.rs, its target by difficulty.rs), turned into a state change and
    applied to the UTXO state (ergo-state utxo.rs), which writes batches to a
    key-value store (ergo-storage).  Unconfirmed transactions wait in the
    memory pool (ergo-mempool); confirmed ones are removed from it.  Peers connect
    with a handshake and exchange framed messages (ergo-network); the
    synchronisation protocol (ergo-sync protocol.rs, sync.rs) asks them for
    headers and sections and hands what it parsed to the storage.  Light
    clients compare NiPoPoW proofs (ergo-consensus nipopow).  An optional
    indexer (ergo-storage indexer) answers queries by address, token and
    position; a wallet (ergo-wallet) keeps keys and builds payments; a miner
    (ergo-mining) makes candidates over the tip and searches their nonces.  The
    node (ergo-node node.rs) is the task that joins them: its event router takes
    the events of the network service (ergo-network service.rs), hands messages
    to the protocol, carries out the protocol's storage requests on the state
    and the pool, and sends the answers back.  An HTTP API (ergo-api) reads the
    same objects and submits transactions and solutions to them.  This library
    models those parts as executable definitions and proves what makes each
    of them correct.  Where the code does something its comments do not say,
    the theorem states what the code does.

    ** Conventions

    - Integers are [Z] with the wrap-around of the release profile written out
      ([u64], [i32], ... are [wrap] and [swrap] at a width); bytes are lists of
      integers; [f64] is the executable binary64 of [Float64].
    - [Result] is [result]; the [?] operator is [let?], an early error return
      is [guard?] or a conditional.  Messages of errors are abbreviated.  A
      panic the code can run into is an outcome (a constructor of the error
      type) where a theorem speaks about it.
    - [HashMap], [DashMap] and [HashSet] are stdpp's [gmap] and [gset].  Where
      the iteration order shows, it is an argument (any permutation), and so
      is the clock.  A structure behind locks is a record, and one locked
      operation is one function of it.
    - Code outside src/ (sigma-rust, BLAKE2b, num-bigint, lru, RocksDB, the
      Merkle tree) is a type class or an argument: operations in one class, the
      documented laws some theorems need in another, and a concrete instance
      ([ErgoTypes.Toy], [Storage.Mem]) to run the witnesses.  Nothing is
      assumed about functions of the repository itself.
    - Every theorem is followed, in a module [Example], by an application at a
      concrete input.

    ** Files

    - [Prelude]: widths, results, big-endian bytes, slices, bit fields, sums,
      duplicates; the hint database and tactics.  [Float64]: binary64.
    - [ErgoTypes]: ConsensusError; the interfaces of the libraries
      (boxes, transactions, headers, points, hashes) and their toy instances.
    - [Ordering], [Mempool] (ordering.rs, pool.rs), [MempoolFacts],
      [MempoolSpec]: the pool as one record of maps and an ordered list, each
      operation in full (eviction loops with one iteration of fuel per pooled
      transaction, family updates to the depth the code allows).  Theorems:
      consistency of all maps and the capacity bound in every reachable pool,
      no double spend, when [add] succeeds and with which error it fails,
      termination of eviction, what [remove_confirmed] leaves, the order of
      selection.
    - [Storage] (ergo-storage lib.rs, batch.rs): column families, batches, the
      [Storage] interface with its laws and an in-memory backend.
    - [Database] (database.rs): the backend of the node, over a class of the
      RocksDB calls it makes with their documented laws, a crash included.
      Theorems: runs of calls refine any store that meets the [Storage]
      interface, a flush survives a crash; without one a batch can be torn.
    - [Utxo], [UtxoFacts], [UtxoSpec] (ergo-state utxo.rs): box
      entries, undo data, indexes, block application (single and batched) and
      rollback against the [Storage] interface.  Theorems: undo data round
      trip, the effect of a change on the box set, rollback of any number of
      blocks restores it; a box created and spent in one block survives the
      batched application, and the script index loses boxes of one block.  The
      authenticated state of utxo.rs is a class for the prover; a change
      applied with its proof keeps the prover's tree equal to the box set.
    - [History], [HistoryFacts], [HistorySpec], [HistoryPruning],
      [HistoryBatch], [HistoryProps], [HistoryBodies] (ergo-state history.rs):
      header and block stores, the metadata a restart reads back, the choice of
      the best chain, pruning, locators.  [HistorySpec] has the invariant of
      reachable histories.  Theorems: the best header has the most cumulative
      work, a restart restores the state, a batch of headers equals one by one,
      every branch of appending a header, the reorganisation height it reports,
      the pruning window, full blocks read back, a short locator.
    - [Manager], [UtxoBatch], [ManagerSpec], [ManagerRoot]
      (ergo-state manager.rs): UTXO state and history over one store, which
      [share_utxo] and [share_history] keep common.  Theorems: one batch of
      blocks refines applying them one by one, every branch of applying a
      block, the double spend a batch accepts, no state root is ever verified.
    - [Emission] (reemission): the schedule and EIP-27; closed form against
      the sum, conservation, bounds.
    - [ChainParams] (chain_params.rs, cost.rs): voted parameters and their
      update, cost accumulation without overflow.
    - [Autolykos], [Difficulty] (autolykos.rs, difficulty.rs): compact targets
      (truncation bound, round trip, the short targets that do not survive),
      verification of a solution, the epoch rule of the difficulty.
    - [TxValidation], [Validation] (tx_validation.rs, validation.rs): storage
      rent, scripts, existence of inputs, conservation of tokens and coins
      (with the overflow the check lets through), stateless checks.
    - [Block] (block.rs): VLQ, extensions, block transactions; round trips,
      parameters, the allocation panic of the extension parser.
    - [BlockValidation], [BlockSpec] (block_validation.rs): the whole block
      check; lineage, no double spend, the state change, conservation and
      scripts of every transaction; what the first transaction and checkpoint
      mode skip.
    - [Nipopow] (nipopow/): interlinks, proofs, the verifier; round trip,
      soundness of validation, the proof the verifier keeps.
    - [Downloader] (download.rs): tasks, requests in flight, retries as a step
      relation; the invariant of every reachable state and the parallel bound.

    - [Vlq], [Utf8], [Wire]: variable-length integers and ZigZag, strings and
      [from_utf8_lossy], the errors and readers of ergo-network.
    - [Handshake], [HandshakeSpec] (ergo-network handshake.rs): handshakes,
      peer specifications and the loop that accumulates a handshake.  Theorems:
      round trip (an IPv6 local address comes back as an unknown feature), the
      loop returns; a handshake split between reads loses its features, a
      feature length that wraps panics, bytes read past a handshake by the
      service are lost.
    - [Message], [MessageSpec], [Codec] (message.rs, codec.rs, connection.rs): every
      message, its payload and frame, the connection type that sends and
      receives frames.  Theorems: a stream of frames decodes to its messages
      however it is split; empty payloads panic.
    - [Peers], [PeersSpec] (penalties.rs, scoring.rs, peer.rs, decline.rs):
      scores, the peer table, bans, declined modifiers.  Theorems: the
      invariant of reachable managers, how penalties decay, what an expired
      ban leaves behind, the size of the table of declined modifiers.

    - [SyncHeaders], [SyncHeadersSpec] (protocol.rs HeaderChain,
      PendingHeadersMap): known headers, blocks to fetch, headers waiting for
      their parent, with their limits.
    - [Synchronizer], [SynchronizerSpec] (sync.rs): the state machine of the
      synchronisation and the snapshot download.  Theorems: synchronised means
      no known peer is ahead, the choice of a manifest, the chunks to request.
    - [SyncProtocol] (protocol.rs): every handler, in a state and error monad
      whose state is what the locks hold and the commands sent so far.
      [HeaderSync] has the rules that show an operation preserves an invariant
      and their tactic, the recursion over waiting headers and what storing one
      guarantees, [HeaderOrder] what the other handlers leave
      alone.  [SyncRuns]: every handler returns; headers are handed to storage
      after their parents; a chain delivered in any order is handed over; what
      a refused batch forgets.  [SyncSpec]: the invariant of every run and the
      bounds on requests.
    - [IndexCodec], [Indexer], [IndexerSpec], [IndexerFlush] (ergo-storage
      indexer): the records with their byte formats, the indexer over the
      [Storage] interface, a ledger of outputs as its specification.  Theorems:
      the indexer refines the ledger until its first flush, a flush changes no
      lookup and survives a restart, indexing after a flush starts again or
      blocks.
    - [Wallet], [WalletTx], [WalletSpec] (ergo-wallet): boxes
      and balances, key store and wallet in a state and error monad, the
      transaction builder.  Theorems: no secret in a locked wallet but those
      handed to it since, and no key for another address while the tracker is
      not cleared, unlocking and restarting restore the addresses, the
      balance is exact.
    - [Mining] (ergo-mining coinbase.rs, candidate.rs, solver.rs),
      [Miner] (worker.rs, miner.rs): rewards, candidates, the
      search, the threads with their two channels; the miner, whose methods
      take one lock after another, as calls with one step per access; the loop
      of internal mining, a step per turn.
      [MiningSpec]: the solver finds what the verifier accepts, a candidate
      extends the tip, workers of different partitions never overlap, what the
      counters count and what every submission answers in every interleaving.
      [MiningRounds]: the same solution sent again; a shutdown that hangs; one
      candidate counted as two blocks, a stale candidate that stays.
    - [Scan], [ScanSpec] (ergo-storage scan): predicates, scans
      and the boxes they track.  Theorems: the storage refines two maps through
      every run and restart; identifiers are fresh, a deregistered scan leaves
      no boxes.
    - [Snapshots], [SnapshotsSpec] (ergo-state snapshots.rs): the list of
      snapshots and its encoding, download plans, the database of manifests and
      chunks.  Theorems: the database refines three maps, a pruning keeps the
      newest, when a plan is complete and what a failed chunk does to it.

    - [NodePeers], [NodeBlocks], [Node] (ergo-node node.rs): the peer tables of
      the router and its handlers; the block pipeline (the buffer of early
      blocks, boxes read ahead, validation, batches); one step per event of the
      [select!] loop.  [NodeBlocksSpec]: reading ahead changes no lookup, what
      reaches the state was validated against it and extends it, a failure
      drops the validated blocks before it.  [NodeSpec]: the invariant of every
      run of the loop, the schedule of reconnections, what admits a transaction
      to the pool.
    - [Service], [ServiceSpec] (ergo-network service.rs): the loop and the
      connection tasks as steps of one system.  Opening and closing a session
      is one step, and the event channel is unbounded in the model; a task may
      panic, which skips its cleanup.  Theorems: the events of every run are
      ordered and agree with the tables, a panicked session stays in them; a slow
      peer stalls the loop, a dropped peer keeps its connection, connections
      that arrive together pass the limit.
    - [Api], [ApiQueries], [ApiSpec] (ergo-api): the shared state, the errors,
      and one function per handler.  Theorems: the pages of an address show the
      ledger of [IndexerSpec], the pages of the pool are the pool, the target
      shown is the target of [Autolykos]; submitted bytes are pooled unchecked.
    - [ApiUtils] (ergo-api utils.rs, script.rs, routes.rs, openapi.rs,
      panel.rs): seeds, hashes, addresses and trees over a class for the encoder
      of sigma-rust; the table of routes over a class for axum's router; the
      status the panel shows.  Theorems: addresses made are read back; a test
      address comes back as one of the main network; fixed routes are served
      whatever the order of the table; the panel shows blocks of the tip.
    - [Startup] (ergo-node main.rs, config.rs, node.rs; ergo-network
      discovery.rs): socket addresses as the standard library parses them, peer
      discovery, the configuration and the arguments that override it, the
      objects of a node, what its services start with.  Theorems: discovery is
      never empty, what a saved configuration loads as, the settings without
      effect, the networks the services use.

    ** Bounds and fuel

    Parsing loops recurse on a count the data bounds ([Block.parse_fields_cap]
    shows the cap is immaterial); [vlq_loop] recurses on the bytes;
    [best_arg_loop] has the 256 levels after which the code stops itself;
    [pack_loop] consumes at least one link per step, so their number is
    enough; [locator_loop] and [fork_walk] descend by height;
    [read_handshake] reads a byte per iteration up to its limit, which
    [HandshakeSpec.read_handshake_returns] turns into a bound; [take_ids],
    [loop_count] and [drain] consume bytes, so the length is enough;
    [evict_while] removes a transaction per step, so their number is enough,
    which [MempoolSpec.eviction_terminates] proves; [NodeBlocks.drain] takes a
    buffered block per step, so the size of the buffer is enough
    ([NodeBlocksSpec.drain_maximal]);
    [store_header_and_descendants] descends once per waiting header, and
    [store_fuel], their number, is enough ([SyncRuns.handlers_return]);
    [trim_headers] and [trim_missing] recurse on the list they shorten;
    [decimal] has the ten digits of a 32-bit number; [batch_loop] and
    [solve_loop] make the attempts they are given.

    ** Not modelled

    What is not in the repository: RocksDB, the AVL+ tree and its prover,
    sigma-rust (scripts, addresses, builders), key derivation and encryption,
    the parser of configuration files.  They are classes or arguments with
    their documented laws, as above.  Of the repository: the schemas of the
    OpenAPI text and the assets of the panel, which are data for other
    libraries; sockets and name resolution; memory statistics of the database;
    logging, [Display] and the tests. *)

From Stdlib Require Export ZArith Lia Sorted Permutation.
From stdpp Require Export sorting numbers strings gmap sets.
From stdpp Require Export base tactics option list.

(** ** Byte strings

    [Vec<u8>], [[u8; 32]] and [&[u8]] are lists of integers; [byte_ok] says
    that an element is a [u8].  Indices of the modelled code are natural
    numbers, so [length] is [Vec::len]. *)
Abbreviation bytes := (list Z).

Local Open Scope Z_scope.

Definition byte_ok (b : Z) : Prop := 0 <= b < 256.
Definition bytes_ok (bs : bytes) : Prop := Forall byte_ok bs.

(** [slice a b l] is [&l[a..b]] for [a <= b <= l.len()]. *)
Definition slice {A} (a b : nat) (l : list A) : list A := take (b - a) (drop a l).

(** ** Machine integers

    The release profile of the workspace compiles integer arithmetic without
    overflow checks, so an operation at width [w] is the exact result reduced
    by [wrap] (unsigned) or [swrap] (two's complement).  The same functions
    model the [as] casts between integer types. *)
Definition wrap (w z : Z) : Z := z mod 2 ^ w.
Definition swrap (w z : Z) : Z := (z + 2 ^ (w - 1)) mod 2 ^ w - 2 ^ (w - 1).

Abbreviation u8 := (wrap 8).
Abbreviation u16 := (wrap 16).
Abbreviation u32 := (wrap 32).
Abbreviation u64 := (wrap 64).
Abbreviation i8 := (swrap 8).
Abbreviation i16 := (swrap 16).
Abbreviation i32 := (swrap 32).
Abbreviation i64 := (swrap 64).

(** [saturating_add] and [saturating_sub] of an unsigned type of width [w]. *)
Definition sat_add (w a b : Z) : Z := Z.min (a + b) (2 ^ w - 1).
Definition sat_sub (a b : Z) : Z := Z.max 0 (a - b).

Definition in_u (w z : Z) : Prop := 0 <= z < 2 ^ w.
Definition in_i (w z : Z) : Prop := - 2 ^ (w - 1) <= z < 2 ^ (w - 1).

(** ** Results

    [Result<A, E>]; the error type of each component is an inductive type of
    its own. *)
Inductive result (A E : Type) : Type :=
  | Ok (a : A)
  | Err (e : E).
Arguments Ok {A E} a.
Arguments Err {A E} e.

Definition rbind {A B E} (m : result A E) (f : A -> result B E) : result B E :=
  match m with Ok a => f a | Err e => Err e end.

Definition is_ok {A E} (m : result A E) : bool :=
  match m with Ok _ => true | Err _ => false end.

Definition from_ok {A E} (d : A) (m : result A E) : A :=
  match m with Ok a => a | Err _ => d end.

Definition ok_or {A E} (o : option A) (e : E) : result A E :=
  match o with Some a => Ok a | None => Err e end.

Declare Scope ergo_scope.
Delimit Scope ergo_scope with ergo.
Notation "'let?' x ':=' m 'in' k" := (rbind m (fun x => k))
  (at level 10, x pattern, m at level 100, k at level 200)
  : ergo_scope.
Notation "'guard?' b 'else' e 'in' k" := (if b then k else Err e)
  (at level 10, b at level 100, e at level 100, k at level 200)
  : ergo_scope.
Global Open Scope ergo_scope.

(** The [?] operator inside a loop: the loop stops at the first error. *)
Fixpoint rfold {A B E} (f : B -> A -> result B E) (acc : B) (l : list A) : result B E :=
  match l with
  | [] => Ok acc
  | x :: l' => let? acc' := f acc x in rfold f acc' l'
  end.

(** [iter().map(f).collect::<Result<Vec<_>, _>>()]. *)
Fixpoint rmap {A B E} (f : A -> result B E) (l : list A) : result (list B) E :=
  match l with
  | [] => Ok []
  | x :: l' => let? y := f x in let? ys := rmap f l' in Ok (y :: ys)
  end.

(** ** Big-endian integers *)

(** [z.to_be_bytes()] of an [n]-byte integer type. *)
Fixpoint be_bytes (n : nat) (z : Z) : bytes :=
  match n with
  | O => []
  | S n' => (z / 256 ^ Z.of_nat n') mod 256 :: be_bytes n' z
  end.

(** [from_be_bytes] of an unsigned type, whatever the number of bytes. *)
Fixpoint be_val (bs : bytes) : Z :=
  match bs with
  | [] => 0
  | b :: bs' => b * 256 ^ Z.of_nat (length bs') + be_val bs'
  end.

(** ** Lexicographic order: [Ord] for [Vec<u8>] *)
Fixpoint bytes_cmp (a b : bytes) : comparison :=
  match a, b with
  | [], [] => Eq
  | [], _ :: _ => Lt
  | _ :: _, [] => Gt
  | x :: a', y :: b' => match x ?= y with Eq => bytes_cmp a' b' | c => c end
  end.

(** ** Lists *)
Fixpoint sumZ (l : list Z) : Z :=
  match l with [] => 0 | x :: l' => x + sumZ l' end.

(** [HashSet::insert] over a list, failing at the first repeated element. *)
Fixpoint first_dup {A} `{EqDecision A} (seen l : list A) : option A :=
  match l with
  | [] => None
  | x :: l' => if decide (x ∈ seen) then Some x else first_dup (x :: seen) l'
  end.

(** * Lemmas *)

(** The hint database of the development: closing lemmas about bytes, widths
    and results, used by [ergo] below. *)
Create HintDb ergo.
Create Rewrite HintDb ergo.

(** [ergo_case] splits the conditionals and matches of a handler, keeping the
    equations; [ergo] adds the usual cleanup and arithmetic. *)
Ltac ergo_case :=
  repeat (first
    [ case_decide | case_match ]; simplify_eq/=).
Ltac ergo := repeat (simplify_eq/= || case_decide || case_match); eauto with ergo; try done; try lia.

(** Boolean comparisons of hypotheses and goal turned into propositions. *)
Ltac zify_bool :=
  repeat match goal with
  | H : (_ <? _) = true |- _ => apply Z.ltb_lt in H
  | H : (_ <? _) = false |- _ => apply Z.ltb_ge in H
  | H : (_ <=? _) = true |- _ => apply Z.leb_le in H
  | H : (_ <=? _) = false |- _ => apply Z.leb_gt in H
  | H : (_ =? _) = true |- _ => apply Z.eqb_eq in H
  | H : (_ =? _) = false |- _ => apply Z.eqb_neq in H
  | H : (_ >? _) = true |- _ => rewrite Z.gtb_ltb in H; apply Z.ltb_lt in H
  | H : (_ >? _) = false |- _ => rewrite Z.gtb_ltb in H; apply Z.ltb_ge in H
  | H : (_ >=? _) = true |- _ => rewrite Z.geb_leb in H; apply Z.leb_le in H
  | H : (_ >=? _) = false |- _ => rewrite Z.geb_leb in H; apply Z.leb_gt in H
  | H : (_ && _) = true |- _ => apply andb_true_iff in H; destruct H
  | H : (_ && _) = false |- _ => apply andb_false_iff in H
  | H : negb _ = true |- _ => apply negb_true_iff in H
  | H : negb _ = false |- _ => apply negb_false_iff in H
  end.

Section Width.
Context (w : Z) (Hw : 0 < w).

Lemma wrap_range z : in_u w (wrap w z).
Proof. unfold in_u, wrap. apply Z.mod_pos_bound. lia. Qed.

Lemma wrap_small z : in_u w z -> wrap w z = z.
Proof. intros H. apply Z.mod_small. exact H. Qed.

Lemma pow_split : 2 ^ w = 2 * 2 ^ (w - 1).
Proof. rewrite <- Z.pow_succ_r by lia. f_equal. lia. Qed.

Lemma swrap_range z : in_i w (swrap w z).
Proof.
  unfold in_i, swrap. pose proof pow_split.
  pose proof (Z.mod_pos_bound (z + 2 ^ (w - 1)) (2 ^ w)). lia.
Qed.

Lemma swrap_small z : in_i w z -> swrap w z = z.
Proof.
  unfold in_i, swrap. intros H. pose proof pow_split.
  rewrite Z.mod_small; lia.
Qed.

Lemma swrap_cong a b : a mod 2 ^ w = b mod 2 ^ w -> swrap w a = swrap w b.
Proof.
  unfold swrap. intros H.
  rewrite (Z.add_mod a), (Z.add_mod b), H by lia. reflexivity.
Qed.

Lemma swrap_mod z : swrap w z mod 2 ^ w = z mod 2 ^ w.
Proof.
  unfold swrap. rewrite Zminus_mod, Zmod_mod, <- Zminus_mod. f_equal. lia.
Qed.

Lemma swrap_add_l a b : swrap w (swrap w a + b) = swrap w (a + b).
Proof.
  apply swrap_cong. rewrite Z.add_mod, swrap_mod, <- Z.add_mod by lia. reflexivity.
Qed.

Lemma swrap_sub_l a b : swrap w (swrap w a - b) = swrap w (a - b).
Proof. apply (swrap_add_l a (- b)). Qed.

Lemma sat_add_range a b : in_u w a -> in_u w b -> in_u w (sat_add w a b).
Proof. unfold in_u, sat_add. lia. Qed.

Lemma sat_add_small a b : a + b < 2 ^ w -> sat_add w a b = a + b.
Proof. unfold sat_add. lia. Qed.
End Width.

Lemma u64_id z : 0 <= z < 18446744073709551616 -> u64 z = z.
Proof. intros. apply wrap_small; unfold in_u; lia. Qed.

Lemma u64_range z : 0 <= u64 z < 2 ^ 64.
Proof. apply wrap_range. lia. Qed.

Lemma sat_sub_range w a b : in_u w a -> 0 <= b -> in_u w (sat_sub a b).
Proof. unfold in_u, sat_sub. lia. Qed.

#[export] Hint Resolve wrap_range swrap_range : ergo.

(** ** Bits: disjoint fields of a machine word *)

Lemma lor_shiftl_add a b n :
  0 <= a -> 0 <= n -> 0 <= b < 2 ^ n -> Z.lor (Z.shiftl a n) b = a * 2 ^ n + b.
Proof.
  intros Ha Hn Hb. rewrite <- Z.shiftl_mul_pow2 by lia.
  assert (Z.land (Z.shiftl a n) b = 0) as H0.
  { apply Z.bits_inj'. intros m Hm. rewrite Z.land_spec, Z.bits_0.
    destruct (decide (m < n)) as [Hlt|Hge].
    - by rewrite Z.shiftl_spec_low.
    - rewrite <- (Z.mod_small b (2 ^ n)) by lia. rewrite Z.mod_pow2_bits_high by lia.
      apply andb_false_r. }
  rewrite Z.add_nocarry_lxor by done. by rewrite Z.lxor_lor.
Qed.

Lemma land_pow2_zero w n :
  0 <= n -> 0 <= w < 2 ^ (n + 1) -> (Z.land w (2 ^ n) =? 0) = (w <? 2 ^ n).
Proof.
  intros Hn Hw. rewrite Z.pow_add_r in Hw by lia.
  assert (Z.testbit w n = negb (w <? 2 ^ n)) as Ht.
  { destruct (Z.ltb_spec w (2 ^ n)).
    - apply Z.testbit_false; [lia|]. by rewrite Z.div_small by lia.
    - apply Z.testbit_true; [lia|].
      replace (w / 2 ^ n) with 1; [done|].
      apply (Z.div_unique_pos _ _ _ (w - 2 ^ n)); lia. }
  destruct (Z.ltb_spec w (2 ^ n)) as [Hlt|Hge].
  - apply Z.eqb_eq. apply Z.bits_inj'. intros m Hm.
    rewrite Z.land_spec, Z.bits_0, Z.pow2_bits_eqb by lia.
    destruct (Z.eqb_spec n m); [subst; by rewrite Ht|apply andb_false_r].
  - apply Z.eqb_neq. intros H0.
    assert (Z.testbit (Z.land w (2 ^ n)) n = false) as H1 by by rewrite H0, Z.bits_0.
    rewrite Z.land_spec, Ht, Z.pow2_bits_true in H1 by lia. done.
Qed.

(** ** Results *)

Lemma rbind_ok {A B E} (m : result A E) (f : A -> result B E) b :
  rbind m f = Ok b <-> exists a, m = Ok a /\ f a = Ok b.
Proof. destruct m; simpl; split; naive_solver. Qed.

Lemma rbind_err {A B E} (m : result A E) (f : A -> result B E) e :
  rbind m f = Err e <-> m = Err e \/ exists a, m = Ok a /\ f a = Err e.
Proof. destruct m; simpl; split; naive_solver. Qed.

Lemma Ok_inj {A E} (a b : A) : @Ok A E a = Ok b -> a = b.
Proof. congruence. Qed.

Lemma from_ok_spec {A E} (d : A) (m : result A E) : is_ok m = true -> m = Ok (from_ok d m).
Proof. by destruct m. Qed.

Lemma rfold_app {A B E} (f : B -> A -> result B E) l1 l2 acc :
  rfold f acc (l1 ++ l2) = let? acc' := rfold f acc l1 in rfold f acc' l2.
Proof.
  revert acc. induction l1 as [|x l1 IH]; intros acc; simpl; [done|].
  destruct (f acc x); simpl; auto.
Qed.

Lemma rfold_inv {A B E} (P : B -> Prop) (f : B -> A -> result B E) l acc b :
  P acc -> (forall acc x acc', x ∈ l -> P acc -> f acc x = Ok acc' -> P acc') ->
  rfold f acc l = Ok b -> P b.
Proof.
  revert acc. induction l as [|x l IH]; intros acc HP Hstep; simpl.
  - naive_solver.
  - intros (a & Ha & Hb)%rbind_ok. eapply (IH a); eauto.
    + eapply Hstep; eauto. set_solver.
    + intros. eapply Hstep; eauto. set_solver.
Qed.

Lemma rmap_length {A B E} (f : A -> result B E) l ys :
  rmap f l = Ok ys -> length ys = length l.
Proof.
  revert ys. induction l as [|x l IH]; simpl; intros ys; [naive_solver|].
  intros (y & Hy & (ys' & Hys & [= <-])%rbind_ok)%rbind_ok. simpl. f_equal. auto.
Qed.

Lemma rmap_ok {A B E} (f : A -> result B E) (g : A -> B) l :
  (forall x, x ∈ l -> f x = Ok (g x)) -> rmap f l = Ok (g <$> l).
Proof.
  induction l as [|x l IH]; simpl; intros H; [done|].
  rewrite H by set_solver. simpl. rewrite IH by set_solver. done.
Qed.

(** A loop that only checks succeeds when every check does. *)
Lemma rfold_unit {A E} (f : unit -> A -> result unit E) l :
  is_ok (rfold f tt l) = true <-> forall x, x ∈ l -> is_ok (f tt x) = true.
Proof.
  induction l as [|x l IH]; cbn [rfold].
  - split; [|done]. intros _ x Hx. by apply not_elem_of_nil in Hx.
  - destruct (f tt x) as [[]|e] eqn:Ef; cbn [rbind].
    + rewrite IH. split.
      * intros Hall y [->|Hy]%elem_of_cons; [by rewrite Ef|by apply Hall].
      * intros Hall y Hy. apply Hall. by apply elem_of_cons; right.
    + split; [done|]. intros Hall. specialize (Hall x). rewrite Ef in Hall. apply Hall.
      by apply elem_of_cons; left.
Qed.

(** A fallible map over the enumerated elements. *)
Lemma rmap_indexed {A B E} (f : nat -> A -> result B E) (l : list A) k ys :
  rmap (fun '(i, x) => f i x) (zip (seq k (length l)) l) = Ok ys ->
  Forall2 (fun x y => exists i, f i x = Ok y) l ys.
Proof.
  revert k ys. induction l as [|x l IH]; intros k ys; cbn [length seq zip zip_with rmap].
  - intros [= <-]. constructor.
  - intros (y & Hy & (ys' & Hys & [= <-])%rbind_ok)%rbind_ok. constructor; eauto.
Qed.

Lemma snd_zip_seq {A} k (l : list A) : (zip (seq k (length l)) l).*2 = l.
Proof. apply snd_zip. by rewrite length_seq. Qed.

Lemma zip_seq_split {A} (pre post : list A) x :
  zip (seq 0 (length (pre ++ x :: post))) (pre ++ x :: post) =
  zip (seq 0 (length pre)) pre ++ (length pre, x) :: zip (seq (S (length pre)) (length post)) post.
Proof.
  rewrite length_app, seq_app. cbn [length seq].
  rewrite zip_with_app by (by rewrite length_seq). done.
Qed.

(** A map over a zip that ignores the second components. *)
Lemma fmap_zip_fst {A B C} (f : A -> C) (g : A * B -> C) (l : list A) (k : list B) :
  length l = length k -> (forall a b, g (a, b) = f a) -> g <$> zip l k = f <$> l.
Proof.
  revert k. induction l as [|a l IH]; intros [|b k] Hl Hg; try done.
  change (zip (a :: l) (b :: k)) with ((a, b) :: zip l k). cbn [fmap list_fmap].
  rewrite Hg. f_equal. apply IH; [by injection Hl|done].
Qed.

(** ** Slices *)

Lemma slice_length {A} a b (l : list A) :
  (a <= b <= length l)%nat -> length (slice a b l) = (b - a)%nat.
Proof. intros. unfold slice. rewrite length_take, length_drop. lia. Qed.

Lemma slice_mid {A} a b (pre x post : list A) :
  length pre = a -> (a + length x)%nat = b -> slice a b (pre ++ x ++ post) = x.
Proof.
  intros <- <-. unfold slice. rewrite drop_app_length.
  replace (_ - _)%nat with (length x) by lia. apply take_app_length.
Qed.

Lemma slice_head {A} b (x post : list A) : length x = b -> slice 0 b (x ++ post) = x.
Proof. intros H. by apply (slice_mid 0 b []). Qed.

Lemma slice_split {A} a b (l : list A) :
  (a <= b <= length l)%nat -> l = take a l ++ slice a b l ++ drop b l.
Proof.
  intros H. unfold slice. rewrite <- (take_drop a l) at 1. f_equal.
  rewrite <- (take_drop (b - a) (drop a l)) at 1. f_equal.
  rewrite drop_drop. f_equal. lia.
Qed.

(** ** Big-endian integers *)

Lemma be_bytes_length n z : length (be_bytes n z) = n.
Proof. induction n; simpl; auto. Qed.

Lemma be_bytes_ok n z : bytes_ok (be_bytes n z).
Proof.
  induction n; simpl; constructor; auto. apply Z.mod_pos_bound. lia.
Qed.

Lemma be_val_bytes_mod n z : be_val (be_bytes n z) = z mod 256 ^ Z.of_nat n.
Proof.
  induction n as [|n IH]; [simpl; rewrite Z.mod_1_r; done|].
  cbn [be_bytes be_val]. rewrite be_bytes_length, IH, Nat2Z.inj_succ, Z.pow_succ_r by lia.
  rewrite (Z.mul_comm 256), Z.rem_mul_r by lia. lia.
Qed.

Lemma be_val_bytes n z : 0 <= z < 256 ^ Z.of_nat n -> be_val (be_bytes n z) = z.
Proof. intros H. rewrite be_val_bytes_mod. apply Z.mod_small. done. Qed.

Lemma be_val_range bs : bytes_ok bs -> 0 <= be_val bs < 256 ^ Z.of_nat (length bs).
Proof.
  induction 1 as [|b bs Hb _ IH]; [simpl; lia|].
  cbn [be_val length]. rewrite Nat2Z.inj_succ, Z.pow_succ_r by lia.
  unfold byte_ok in Hb. nia.
Qed.

Lemma be_bytes_high n hi z : be_bytes n (hi * 256 ^ Z.of_nat n + z) = be_bytes n z.
Proof.
  assert (forall m k, (k <= m)%nat ->
    be_bytes k (hi * 256 ^ Z.of_nat m + z) = be_bytes k z) as H; [|by apply H].
  intros m k. induction k as [|k IH]; intros Hk; [done|].
  simpl. f_equal; [|apply IH; lia].
  replace (256 ^ Z.of_nat m) with
    (256 ^ (Z.of_nat m - Z.of_nat k - 1) * 256 * 256 ^ Z.of_nat k).
  2:{ rewrite <- (Z.pow_1_r 256) at 2. rewrite <- !Z.pow_add_r by lia. f_equal. lia. }
  rewrite Z.mul_assoc, Z.add_comm, Z.div_add by lia.
  rewrite !Z.mul_assoc, Z.mod_add by lia. done.
Qed.

Lemma be_bytes_val n bs : length bs = n -> bytes_ok bs -> be_bytes n (be_val bs) = bs.
Proof.
  revert n. induction bs as [|b bs IH]; intros n <- Hok; [done|].
  inversion Hok as [|?? Hb Hbs]; subst. cbn [length be_bytes be_val].
  pose proof (be_val_range bs Hbs). f_equal.
  - rewrite Z.div_add_l, Z.div_small by lia. rewrite Z.add_0_r. apply Z.mod_small. exact Hb.
  - rewrite be_bytes_high. auto.
Qed.

Lemma be_bytes_inj n a b :
  0 <= a < 256 ^ Z.of_nat n -> 0 <= b < 256 ^ Z.of_nat n ->
  be_bytes n a = be_bytes n b -> a = b.
Proof.
  intros Ha Hb H. rewrite <- (be_val_bytes n a), <- (be_val_bytes n b) by done.
  by rewrite H.
Qed.

#[global] Arguments be_bytes : simpl never.
#[export] Hint Resolve be_bytes_ok : ergo.
#[export] Hint Rewrite be_bytes_length @length_app @length_map : ergo.

(** ** Maps built by insertions *)

Lemma fold_insert_lookup {K A V} `{Countable K} (f : A -> K) (g : A -> V) (l : list A) (m : gmap K V) k v :
  NoDup (f <$> l) ->
  foldl (fun m a => <[f a := g a]> m) m l !! k = Some v <->
  (exists a, a ∈ l /\ f a = k /\ g a = v) \/ (m !! k = Some v /\ k ∉ f <$> l).
Proof.
  revert m. induction l as [|a l IH]; intros m Hnd; cbn [foldl fmap list_fmap] in *.
  - split; [right; split; [done|apply not_elem_of_nil]|].
    intros [(a & Ha & _)|[Hm _]]; [by apply not_elem_of_nil in Ha|done].
  - apply NoDup_cons in Hnd as [Hni Hnd]. rewrite IH by done.
    rewrite lookup_insert_Some, not_elem_of_cons. split.
    + intros [(b & Hb & Hf)|[[[Hk Hv]|[Hne Hm]] Hni']].
      * left. exists b. by split; [right|].
      * left. exists a. by split; [left|].
      * right. by split; [|split; [intros ->|]].
    + intros [(b & Hb & Hf & Hg)|[Hm [Hne Hni']]].
      * apply elem_of_cons in Hb as [->|Hb]; [|by left; exists b].
        right. split; [by left|by rewrite <- Hf].
      * right. split; [right; split; [by intros <-|done]|done].
Qed.

(** Inserting the entries of a map, in any order, gives the map. *)
Lemma fold_insert_entries {K V} `{Countable K} (m : gmap K V) (l : list (K * V)) :
  l ≡ₚ map_to_list m -> foldl (fun acc e => <[e.1 := e.2]> acc) ∅ l = m.
Proof.
  intros Hl. apply map_eq. intros k. apply option_eq. intros v.
  rewrite (fold_insert_lookup fst snd) by (rewrite Hl; apply NoDup_fst_map_to_list). rewrite lookup_empty. split.
  - intros [([k' v'] & He & <- & <-)|[? _]]; [|done]. rewrite Hl in He. by apply elem_of_map_to_list in He.
  - intros Hk%elem_of_map_to_list. left. exists (k, v). by rewrite Hl.
Qed.

(** ** Lexicographic comparison *)

Lemma bytes_cmp_refl a : bytes_cmp a a = Eq.
Proof. induction a; simpl; [done|]. by rewrite Z.compare_refl. Qed.

Lemma bytes_cmp_eq a b : bytes_cmp a b = Eq <-> a = b.
Proof.
  split; [|intros ->; apply bytes_cmp_refl].
  revert b. induction a as [|x a IH]; intros [|y b]; simpl; try done.
  destruct (Z.compare_spec x y) as [->| |]; try done. intros ?. f_equal. auto.
Qed.

Lemma bytes_cmp_antisym a b : bytes_cmp b a = CompOpp (bytes_cmp a b).
Proof.
  revert b. induction a as [|x a IH]; intros [|y b]; simpl; try done.
  rewrite (Z.compare_antisym x y). destruct (x ?= y); simpl; auto.
Qed.

Lemma bytes_cmp_trans a b c :
  bytes_cmp a b = Lt -> bytes_cmp b c = Lt -> bytes_cmp a c = Lt.
Proof.
  revert b c. induction a as [|x a IH]; intros [|y b] [|z c]; simpl; try done.
  destruct (Z.compare_spec x y) as [->|Hxy|Hxy]; try done.
  - destruct (y ?= z); eauto.
  - intros _. destruct (Z.compare_spec y z) as [->|Hyz|Hyz]; try done; intros _;
      destruct (Z.compare_spec x z); try done; lia.
Qed.

(** ** Sums and duplicates *)

(** A 64-bit sum wraps once, at the end. *)
Lemma u64_fold_sum {A} (f : A -> Z) (l : list A) :
  foldl (fun acc x => u64 (acc + f x)) 0 l = u64 (sumZ (f <$> l)).
Proof.
  assert (forall acc s, acc = u64 s ->
    foldl (fun acc x => u64 (acc + f x)) acc l = u64 (s + sumZ (f <$> l))) as Hg; [|by apply (Hg _ 0)].
  induction l as [|x l IH]; intros acc s Hs; cbn [foldl fmap list_fmap sumZ].
  - by rewrite Z.add_0_r.
  - rewrite (IH _ (s + f x)); [f_equal; lia|].
    subst acc. unfold wrap. by rewrite Z.add_mod_idemp_l.
Qed.

Lemma sumZ_app l1 l2 : sumZ (l1 ++ l2) = sumZ l1 + sumZ l2.
Proof. induction l1; simpl; lia. Qed.

Lemma sumZ_perm l1 l2 : l1 ≡ₚ l2 -> sumZ l1 = sumZ l2.
Proof. induction 1; simpl; lia. Qed.

Lemma sumZ_nonneg l : Forall (fun z => 0 <= z) l -> 0 <= sumZ l.
Proof. induction 1; simpl; lia. Qed.

Lemma sumZ_elem_le x l : Forall (fun z => 0 <= z) l -> x ∈ l -> x <= sumZ l.
Proof.
  induction 1 as [|y l Hy Hl IH]; intros Hx; [by apply not_elem_of_nil in Hx|].
  pose proof (sumZ_nonneg l Hl). apply elem_of_cons in Hx as [->|Hx]; simpl; [lia|].
  specialize (IH Hx). lia.
Qed.

Lemma first_dup_None {A} `{EqDecision A} (seen l : list A) :
  first_dup seen l = None <-> NoDup l /\ (forall x, x ∈ l -> x ∉ seen).
Proof.
  revert seen. induction l as [|x l IH]; intros seen; simpl.
  - split; [intros _; split; [constructor|set_solver]|done].
  - rewrite NoDup_cons. case_decide as Hx.
    + split; [done|]. intros [_ H]. exfalso. apply (H x); set_solver.
    + rewrite IH. set_solver.
Qed.

Lemma first_dup_Some {A} `{EqDecision A} (seen l : list A) x :
  first_dup seen l = Some x -> x ∈ l /\ (x ∈ seen \/ ~ NoDup l).
Proof.
  revert seen. induction l as [|y l IH]; intros seen; simpl; [done|].
  case_decide as Hy.
  - intros [= ->]. set_solver.
  - intros [Hx Hor]%IH. split; [set_solver|]. rewrite NoDup_cons.
    destruct Hor as [[->|?]%elem_of_cons|?]; [right|left|right]; naive_solver.
Qed.

(** ** ASCII literals: [b"..."] *)
Fixpoint str_bytes (s : string) : bytes :=
  match s with
  | EmptyString => []
  | String a s' => Z.of_N (Ascii.N_of_ascii a) :: str_bytes s'
  end.

(** ** Hash maps: the iteration order of a map with byte-string keys *)
Class HashOrder := hash_iter : forall V : Type, gmap bytes V -> list (bytes * V).
Class HashOrderLaws `{HashOrder} : Prop :=
  hash_iter_perm V (m : gmap bytes V) : hash_iter V m ≡ₚ map_to_list m.

Section HashOrder.
Context `{HashOrderLaws}.

Lemma hash_iter_elem {V} (m : gmap bytes V) k v : (k, v) ∈ hash_iter V m <-> m !! k = Some v.
Proof. rewrite hash_iter_perm. apply elem_of_map_to_list. Qed.

Lemma hash_iter_keys {V} (m : gmap bytes V) : NoDup (hash_iter V m).*1.
Proof. rewrite hash_iter_perm. apply NoDup_fst_map_to_list. Qed.

Lemma hash_iter_size {V} (m : gmap bytes V) : length (hash_iter V m) = size m.
Proof. rewrite hash_iter_perm. apply length_map_to_list. Qed.

End HashOrder.
