(* ===== verification/Float64.v ===== *)
(** * IEEE 754 binary64

    The [f64] arithmetic of the node, on Corelib's executable specification
    floats: 53 bits of precision, maximal exponent 1024, rounding to nearest
    even.  Only the operations the modelled code uses are given. *)

From Corelib Require Import SpecFloat.
From S2P Require Export Prelude.

Local Open Scope Z_scope.

Abbreviation f64 := spec_float.

(** [z as f64] for an integer [z]. *)
Definition f64_of_Z (z : Z) : f64 := binary_normalize 53 1024 z 0 false.

Definition f64_add : f64 -> f64 -> f64 := SFadd 53 1024.
Definition f64_sub : f64 -> f64 -> f64 := SFsub 53 1024.
Definition f64_mul : f64 -> f64 -> f64 := SFmul 53 1024.
Definition f64_div : f64 -> f64 -> f64 := SFdiv 53 1024.
Definition f64_ltb : f64 -> f64 -> bool := SFltb.
Definition f64_abs : f64 -> f64 := SFabs.

Definition f64_zero : f64 := S754_zero false.
Definition f64_one : f64 := f64_of_Z 1.

(** [f64::clamp]: a NaN stays a NaN. *)
Definition f64_clamp (x lo hi : f64) : f64 :=
  if f64_ltb x lo then lo else if f64_ltb hi x then hi else x.

(** [x as u64]: truncation towards zero, saturating, and 0 for a NaN. *)
Definition f64_to_u64 (x : f64) : Z :=
  match x with
  | S754_zero _ | S754_nan => 0
  | S754_infinity s => if s then 0 else 2 ^ 64 - 1
  | S754_finite true _ _ => 0
  | S754_finite false m e => Z.min (2 ^ 64 - 1) (Z.shiftl (Zpos m) e)
  end.

Example f64_of_Z_3 : f64_of_Z 3 = S754_finite false 6755399441055744 (-51).
Proof. reflexivity. Qed.

Lemma f64_to_u64_range x : in_u 64 (f64_to_u64 x).
Proof.
  unfold in_u. destruct x as [s|s| |[] m e]; simpl f64_to_u64; try lia.
  - destruct s; lia.
  - assert (0 <= Z.shiftl (Zpos m) e) by (apply Z.shiftl_nonneg; lia). lia.
Qed.

(** A NaN compares to nothing, so a threshold test on it never fires. *)
Lemma f64_ltb_asym x y : f64_ltb x y = true -> f64_ltb y x = false.
Proof.
  unfold f64_ltb, SFltb, SFcompare.
  destruct x as [[]|[]| |[] m e], y as [[]|[]| |[] m' e']; cbn; try done.
  all: change (PosDef.Pos.compare_cont Eq m m') with (m ?= m')%positive;
    change (PosDef.Pos.compare_cont Eq m' m) with (m' ?= m)%positive;
    rewrite (Z.compare_antisym e e'), (Pos.compare_antisym m m'); by destruct (e ?= e')%Z, (m ?= m')%positive.
Qed.

Lemma f64_ltb_nan_l x : f64_ltb S754_nan x = false.
Proof. by destruct x. Qed.
