(* ===== verification/Ordering.v ===== *)
(** * Transaction ordering (crates/ergo-mempool/src/ordering.rs)

    [WeightedTxId] with its [Ord] instance, and the [BTreeSet<WeightedTxId>]
    of the pool as a list kept sorted by that order. *)

From Corelib Require Import SpecFloat.
From S2P Require Export Prelude Float64.

Local Open Scope Z_scope.

Record WeightedTxId := mkWeightedTxId {
  wtx_id : bytes;
  wtx_weight : Z;
  wtx_fee_per_factor : Z;
  wtx_size : Z;
  wtx_created : Z
}.

#[export] Instance WeightedTxId_eq_dec : EqDecision WeightedTxId.
Proof. solve_decision. Defined.

(** [WeightedTxId::new]; [fee] is a [u64], [size] a [usize]. *)
Definition WeightedTxId_new (tx_id : bytes) (fee size created : Z) : WeightedTxId :=
  let fee_per_factor :=
    if size =? 0 then 0 else i64 (Z.quot (i64 (i64 fee * 1024)) (i64 size)) in
  {| wtx_id := tx_id; wtx_weight := fee_per_factor;
     wtx_fee_per_factor := fee_per_factor; wtx_size := size; wtx_created := created |}.

Definition with_weight (tx_id : bytes) (weight fee_per_factor size created : Z) : WeightedTxId :=
  {| wtx_id := tx_id; wtx_weight := weight;
     wtx_fee_per_factor := fee_per_factor; wtx_size := size; wtx_created := created |}.

(** [WeightedTxId::fee_per_byte] (statistics only). *)
Definition wtx_fee_per_byte (w : WeightedTxId) : f64 :=
  if wtx_size w =? 0 then f64_zero
  else f64_div (f64_of_Z (wtx_fee_per_factor w)) (f64_of_Z 1024).

(** [WeightedTxId::fee]; the product is an [i128] and cannot overflow. *)
Definition wtx_fee (w : WeightedTxId) : Z :=
  u64 (Z.quot (wtx_fee_per_factor w * wtx_size w) 1024).

(** [Ord::cmp]: higher weight first, then the identifier. *)
Definition wtx_cmp (self other : WeightedTxId) : comparison :=
  match wtx_weight other ?= wtx_weight self with
  | Eq => bytes_cmp (wtx_id self) (wtx_id other)
  | ord => ord
  end.

Definition wtx_lt (a b : WeightedTxId) : Prop := wtx_cmp a b = Lt.

(** [FeeOrdering], the deprecated order by fee per byte. *)
Record FeeOrdering := mkFeeOrdering {
  fo_tx_id : bytes; fo_fee : Z; fo_size : Z; fo_arrival_time : Z }.

Definition fo_fee_per_byte (o : FeeOrdering) : f64 :=
  if fo_size o =? 0 then f64_zero else f64_div (f64_of_Z (fo_fee o)) (f64_of_Z (fo_size o)).

Definition fo_cmp (self other : FeeOrdering) : comparison :=
  match SFcompare (fo_fee_per_byte other) (fo_fee_per_byte self) with
  | Some Eq | None => fo_arrival_time self ?= fo_arrival_time other
  | Some ord => ord
  end.

(** [BTreeSet::insert] keeps the element already present when it compares
    equal; [BTreeSet::remove] deletes the element that compares equal. *)
Fixpoint btree_insert (x : WeightedTxId) (l : list WeightedTxId) : list WeightedTxId :=
  match l with
  | [] => [x]
  | y :: l' =>
      match wtx_cmp x y with
      | Lt => x :: y :: l'
      | Eq => y :: l'
      | Gt => y :: btree_insert x l'
      end
  end.

Fixpoint btree_remove (x : WeightedTxId) (l : list WeightedTxId) : list WeightedTxId :=
  match l with
  | [] => []
  | y :: l' =>
      match wtx_cmp x y with
      | Lt => y :: l'
      | Eq => l'
      | Gt => y :: btree_remove x l'
      end
  end.

(** ** The order is a strict total order on (weight, identifier) *)

Lemma wtx_cmp_eq a b :
  wtx_cmp a b = Eq <-> wtx_weight a = wtx_weight b /\ wtx_id a = wtx_id b.
Proof.
  unfold wtx_cmp. destruct (Z.compare_spec (wtx_weight b) (wtx_weight a)) as [H|H|H].
  - rewrite bytes_cmp_eq. naive_solver.
  - split; [done|]. intros [? _]. lia.
  - split; [done|]. intros [? _]. lia.
Qed.

Lemma wtx_cmp_refl a : wtx_cmp a a = Eq.
Proof. by apply wtx_cmp_eq. Qed.

Lemma wtx_cmp_antisym a b : wtx_cmp b a = CompOpp (wtx_cmp a b).
Proof.
  unfold wtx_cmp. rewrite (Z.compare_antisym (wtx_weight b) (wtx_weight a)).
  destruct (wtx_weight b ?= wtx_weight a); simpl; try done. apply bytes_cmp_antisym.
Qed.

Lemma wtx_lt_trans a b c : wtx_lt a b -> wtx_lt b c -> wtx_lt a c.
Proof.
  unfold wtx_lt, wtx_cmp.
  destruct (Z.compare_spec (wtx_weight b) (wtx_weight a)) as [H1|H1|H1]; try done;
  destruct (Z.compare_spec (wtx_weight c) (wtx_weight b)) as [H2|H2|H2]; try done;
  destruct (Z.compare_spec (wtx_weight c) (wtx_weight a)); try done; try lia.
  apply bytes_cmp_trans.
Qed.

#[export] Instance wtx_lt_transitive : Transitive wtx_lt := wtx_lt_trans.

Lemma wtx_lt_irrefl a : ~ wtx_lt a a.
Proof. unfold wtx_lt. by rewrite wtx_cmp_refl. Qed.

Lemma wtx_lt_gt a b : wtx_cmp a b = Gt -> wtx_lt b a.
Proof. unfold wtx_lt. rewrite (wtx_cmp_antisym a b). by intros ->. Qed.

(** ** The sorted list implements the set *)

Lemma btree_insert_elem_sub x l z : z ∈ btree_insert x l -> z = x \/ z ∈ l.
Proof.
  induction l as [|y l IH]; simpl; [set_solver|]. destruct (wtx_cmp x y); set_solver.
Qed.

Lemma btree_insert_sorted x l :
  StronglySorted wtx_lt l -> StronglySorted wtx_lt (btree_insert x l).
Proof.
  induction 1 as [|y l Hs IH Hy]; simpl; [repeat constructor|].
  destruct (wtx_cmp x y) eqn:E.
  - constructor; auto.
  - constructor; [by constructor|]. constructor; [done|].
    eapply Forall_impl; [exact Hy|]. intros z Hz. simpl in Hz. by etrans.
  - constructor; [done|]. rewrite Forall_forall in *.
    intros z [->|Hz]%btree_insert_elem_sub; [by apply wtx_lt_gt|auto].
Qed.

Lemma btree_insert_elem x l z :
  (forall y, y ∈ l -> wtx_cmp x y <> Eq) ->
  z ∈ btree_insert x l <-> z = x \/ z ∈ l.
Proof.
  induction l as [|y l IH]; simpl; intros Hne; [set_solver|].
  destruct (wtx_cmp x y) eqn:E.
  - destruct (Hne y); set_solver.
  - set_solver.
  - rewrite elem_of_cons, IH by set_solver. set_solver.
Qed.

Lemma btree_remove_elem x l z :
  StronglySorted wtx_lt l ->
  z ∈ btree_remove x l <-> z ∈ l /\ wtx_cmp x z <> Eq.
Proof.
  induction 1 as [|y l Hs IH Hy]; simpl; [set_solver|].
  rewrite Forall_forall in Hy. destruct (wtx_cmp x y) eqn:E.
  - rewrite elem_of_cons. split; [|naive_solver].
    intros Hz. split; [auto|]. intros Hxz.
    apply wtx_cmp_eq in E as [E1 E2], Hxz as [E3 E4].
    assert (wtx_cmp y z = Eq) as Hyz by (apply wtx_cmp_eq; split; congruence).
    specialize (Hy _ Hz). unfold wtx_lt in Hy. congruence.
  - split; [|tauto]. intros Hz. split; [done|].
    apply elem_of_cons in Hz as [->|Hz]; [congruence|].
    assert (wtx_lt x z) as Hxz by (etrans; [exact E|by apply Hy]).
    unfold wtx_lt in Hxz. congruence.
  - rewrite !elem_of_cons, IH. split; [|naive_solver].
    intros [->|[? ?]]; split; auto. congruence.
Qed.

Lemma btree_remove_sorted x l :
  StronglySorted wtx_lt l -> StronglySorted wtx_lt (btree_remove x l).
Proof.
  induction 1 as [|y l Hs IH Hy]; simpl; [constructor|].
  destruct (wtx_cmp x y) eqn:E; [done|by constructor|].
  constructor; [done|]. rewrite Forall_forall in *.
  intros z [Hz _]%btree_remove_elem; auto.
Qed.

(** Iterating a sorted list visits weights in non-increasing order. *)
Lemma sorted_weights l :
  StronglySorted wtx_lt l ->
  StronglySorted (fun a b => wtx_weight b <= wtx_weight a) l.
Proof.
  induction 1 as [|y l Hs IH Hy]; constructor; [done|].
  eapply Forall_impl; [exact Hy|]. intros z. unfold wtx_lt, wtx_cmp. simpl.
  destruct (Z.compare_spec (wtx_weight z) (wtx_weight y)); try done; lia.
Qed.
