(* ===== verification/Mempool.v ===== *)
(** * The transaction pool (crates/ergo-mempool/src/pool.rs)

    The pool is a record of maps, exactly the fields of [struct Mempool]; every
    public operation is a state transformer.  Two things the code leaves to its
    environment are arguments of the section: the order in which a hash set is
    iterated and the readings of the clock that bounds [update_family].  The
    theorems hold for every such environment. *)

From Corelib Require Import SpecFloat.
From S2P Require Export Prelude Float64 Ordering.

Local Open Scope Z_scope.

(** ** Data *)

Record MempoolConfig := mkMempoolConfig {
  max_size : Z;
  max_transactions : Z;
  tx_expiry_secs : Z;
  min_fee_per_byte : f64
}.

Definition MempoolConfig_default : MempoolConfig :=
  {| max_size := 100 * 1024 * 1024; max_transactions := 10000;
     tx_expiry_secs := 3600; min_fee_per_byte := f64_zero |}.

Record PooledTransaction := mkPooledTransaction {
  ptx_id : bytes;
  ptx_bytes : bytes;
  ptx_fee : Z;
  ptx_inputs : list bytes;
  ptx_outputs : list bytes;
  ptx_arrival_time : Z;
  ptx_estimated_cost : option Z
}.

(** [tx.bytes.len()]. *)
Definition ptx_size (tx : PooledTransaction) : Z := Z.of_nat (length (ptx_bytes tx)).

(** [cost + size_penalty] is [u64]. *)
Definition cost_adjusted_priority (tx : PooledTransaction) : f64 :=
  let cost := default 1000 (ptx_estimated_cost tx) in
  let size_penalty := ptx_size tx in
  if u64 (cost + size_penalty) =? 0 then f64_zero
  else f64_div (f64_of_Z (ptx_fee tx)) (f64_of_Z (u64 (cost + size_penalty))).
Definition ptx_fee_per_byte (tx : PooledTransaction) : f64 :=
  if ptx_size tx =? 0 then f64_zero
  else f64_div (f64_of_Z (ptx_fee tx)) (f64_of_Z (ptx_size tx)).

Record MempoolStats := mkMempoolStats {
  st_tx_count : Z;
  st_total_size : Z;
  st_min_fee_per_byte : f64;
  st_max_fee_per_byte : f64
}.

(** The errors this file can return; the identifiers are the hex strings of
    the code. *)
Inductive MempoolError :=
  | AlreadyExists (id : bytes)
  | DoubleSpend (input : bytes)
  | TooLarge (size max : Z)
  | FeeTooLow (fee min : Z)
  | NotFound (id : bytes).

(** [clock_reads] counts the readings of the clock made so far; it is what
    makes successive readings independent in the model. *)
Record Mempool := mkMempool {
  config : MempoolConfig;
  transactions : gmap bytes PooledTransaction;
  registry : gmap bytes WeightedTxId;
  weight_order : list WeightedTxId;
  output_to_tx : gmap bytes bytes;
  input_to_tx : gmap bytes bytes;
  total_size : Z;
  clock_reads : nat
}.

Definition MAX_PARENT_SCAN_DEPTH : nat := 500.
Definition MAX_PARENT_SCAN_TIME_MS : Z := 500.

Definition tick (m : Mempool) : Mempool :=
  mkMempool (config m) (transactions m) (registry m) (weight_order m)
    (output_to_tx m) (input_to_tx m) (total_size m) (S (clock_reads m)).

(** Replace the weight of a registered transaction: [registry.insert] followed
    by [order.remove(&old)] and [order.insert(new)]. *)
Definition reweigh (m : Mempool) (id : bytes) (old new : WeightedTxId) : Mempool :=
  mkMempool (config m) (transactions m) (<[id := new]> (registry m))
    (btree_insert new (btree_remove old (weight_order m)))
    (output_to_tx m) (input_to_tx m) (total_size m) (clock_reads m).

Definition Mempool_new (config : MempoolConfig) : Mempool :=
  mkMempool config ∅ ∅ [] ∅ ∅ 0 0.

(** ** Operations *)

Section Pool.

(** [elapsed_ms n] is the [n]-th reading of [start_time.elapsed()]; and
    [hash_order n s] the order in which the iteration begun after [n] readings
    visits the hash set [s]. *)
Context (elapsed_ms : nat -> Z) (hash_order : nat -> gset bytes -> list bytes).

(** The identifiers of the pooled transactions that created inputs of [tx]. *)
Definition parent_tx_ids (m : Mempool) (tx : PooledTransaction) : gset bytes :=
  list_to_set (omap (fun input => output_to_tx m !! input) (ptx_inputs tx)).

(** [update_family_recursive] at depth [d] is called with
    [remaining = MAX_PARENT_SCAN_DEPTH + 1 - d], so that the test
    [depth > MAX_PARENT_SCAN_DEPTH] is [remaining = 0]. *)
Fixpoint update_family_recursive (remaining : nat) (m : Mempool)
    (tx : PooledTransaction) (weight_delta : Z) : Mempool :=
  match remaining with
  | O => m
  | S remaining' =>
      let elapsed := elapsed_ms (clock_reads m) in
      let m := tick m in
      if elapsed >? MAX_PARENT_SCAN_TIME_MS then m
      else
        fold_left (fun m parent_id =>
          if decide (parent_id = ptx_id tx) then m
          else match registry m !! parent_id with
          | None => m
          | Some old_wtx =>
              match transactions m !! parent_id with
              | None => m
              | Some parent_tx =>
                  let new_weight := i64 (wtx_weight old_wtx + weight_delta) in
                  let new_wtx := with_weight (wtx_id old_wtx) new_weight
                    (wtx_fee_per_factor old_wtx) (wtx_size old_wtx) (wtx_created old_wtx) in
                  update_family_recursive remaining'
                    (reweigh m parent_id old_wtx new_wtx) parent_tx weight_delta
              end
          end) (hash_order (clock_reads m) (parent_tx_ids m tx)) m
  end.

Definition update_family (m : Mempool) (tx : PooledTransaction) (weight_delta : Z) : Mempool :=
  update_family_recursive (S MAX_PARENT_SCAN_DEPTH) m tx weight_delta.

(** [Mempool::remove]. *)
Definition remove (m : Mempool) (tx_id : bytes) : result PooledTransaction MempoolError * Mempool :=
  match transactions m !! tx_id with
  | None => (Err (NotFound tx_id), m)
  | Some tx =>
      let wtx := registry m !! tx_id in
      let m := mkMempool (config m) (delete tx_id (transactions m))
        (delete tx_id (registry m))
        (match wtx with Some w => btree_remove w (weight_order m) | None => weight_order m end)
        (foldr delete (output_to_tx m) (ptx_outputs tx))
        (foldr delete (input_to_tx m) (ptx_inputs tx))
        (u64 (total_size m - ptx_size tx)) (clock_reads m) in
      let m := match wtx with
        | Some w => update_family m tx (i64 (- wtx_weight w))
        | None => m
        end in
      (Ok tx, m)
  end.

(** [evict_lowest_weight]: nothing to do on an empty order, and no error. *)
Definition evict_lowest_weight (m : Mempool) : result unit MempoolError * Mempool :=
  match last (weight_order m) with
  | Some w =>
      match remove m (wtx_id w) with
      | (Ok _, m') => (Ok tt, m')
      | (Err e, m') => (Err e, m')
      end
  | None => (Ok tt, m)
  end.

(** A [while] loop of [maybe_evict]; [fuel] bounds the iterations. *)
Fixpoint evict_while (fuel : nat) (over : Mempool -> bool) (m : Mempool) : Mempool :=
  match fuel with
  | O => m
  | S fuel' =>
      if over m then
        match evict_lowest_weight m with
        | (Ok _, m') => evict_while fuel' over m'
        | (Err _, m') => m'
        end
      else m
  end.

Definition over_count (m : Mempool) : bool :=
  Z.of_nat (size (transactions m)) >? max_transactions (config m).
Definition over_size (m : Mempool) : bool := total_size m >? max_size (config m).

(** [maybe_evict]; each loop removes a transaction per iteration, so the
    number of pooled transactions is enough fuel. *)
Definition maybe_evict (m : Mempool) : Mempool :=
  let m := evict_while (S (size (transactions m))) over_count m in
  evict_while (S (size (transactions m))) over_size m.

(** The insertions of [Mempool::add], once its checks have passed. *)
Definition add_entries (m : Mempool) (tx : PooledTransaction) (wtx : WeightedTxId) : Mempool :=
  mkMempool (config m) (<[ptx_id tx := tx]> (transactions m))
    (<[ptx_id tx := wtx]> (registry m))
    (btree_insert wtx (weight_order m))
    (fold_left (fun mp output => <[output := ptx_id tx]> mp) (ptx_outputs tx) (output_to_tx m))
    (fold_left (fun mp input => <[input := ptx_id tx]> mp) (ptx_inputs tx) (input_to_tx m))
    (u64 (total_size m + ptx_size tx)) (clock_reads m).

(** [Mempool::add]. *)
Definition add (m : Mempool) (tx : PooledTransaction) : result unit MempoolError * Mempool :=
  if decide (is_Some (transactions m !! ptx_id tx)) then (Err (AlreadyExists (ptx_id tx)), m)
  else
  let tx_size := ptx_size tx in
  if tx_size >? max_size (config m) / 10 then
    (Err (TooLarge tx_size (max_size (config m) / 10)), m)
  else
  let fee_per_byte := f64_div (f64_of_Z (ptx_fee tx)) (f64_of_Z tx_size) in
  if f64_ltb fee_per_byte (min_fee_per_byte (config m)) then
    (Err (FeeTooLow (ptx_fee tx)
       (f64_to_u64 (f64_mul (min_fee_per_byte (config m)) (f64_of_Z tx_size)))), m)
  else
  match List.find (fun input => bool_decide (is_Some (input_to_tx m !! input))) (ptx_inputs tx) with
  | Some input => (Err (DoubleSpend input), m)
  | None =>
      let wtx := WeightedTxId_new (ptx_id tx) (ptx_fee tx) tx_size (ptx_arrival_time tx) in
      let m := add_entries m tx wtx in
      let m := update_family m tx (wtx_weight wtx) in
      (Ok tt, maybe_evict m)
  end.

(** ** Queries *)

Definition get (m : Mempool) (tx_id : bytes) : option PooledTransaction := transactions m !! tx_id.
Definition contains (m : Mempool) (tx_id : bytes) : bool :=
  bool_decide (is_Some (transactions m !! tx_id)).
Definition is_input_spent (m : Mempool) (input_id : bytes) : bool :=
  bool_decide (is_Some (input_to_tx m !! input_id)).
Definition get_spending_tx (m : Mempool) (input_id : bytes) : option bytes :=
  input_to_tx m !! input_id.
Definition get_creating_tx (m : Mempool) (output_id : bytes) : option bytes :=
  output_to_tx m !! output_id.
Definition get_by_output_id (m : Mempool) (box_id : bytes) : option PooledTransaction :=
  tx_id ← output_to_tx m !! box_id; transactions m !! tx_id.
Definition get_by_weight (m : Mempool) (limit : nat) : list PooledTransaction :=
  omap (fun wtx => get m (wtx_id wtx)) (take limit (weight_order m)).
Definition get_by_fee (m : Mempool) (limit : nat) : list PooledTransaction := get_by_weight m limit.
Definition get_weight (m : Mempool) (tx_id : bytes) : option Z := wtx_weight <$> registry m !! tx_id.
Definition pool_len (m : Mempool) : Z := Z.of_nat (size (transactions m)).
Definition pool_is_empty (m : Mempool) : bool := pool_len m =? 0.
(** In the order in which the map is iterated. *)
Definition get_all_ids (m : Mempool) : list bytes := hash_order (clock_reads m) (dom (transactions m)).
Definition stats (m : Mempool) : MempoolStats :=
  mkMempoolStats (pool_len m) (total_size m)
    (match last (weight_order m) with Some w => wtx_fee_per_byte w | None => f64_zero end)
    (match head (weight_order m) with Some w => wtx_fee_per_byte w | None => f64_zero end).

(** [Mempool::clear]. *)
Definition clear (m : Mempool) : Mempool :=
  mkMempool (config m) ∅ ∅ [] ∅ ∅ 0 (clock_reads m).

(** Remove the listed transactions, counting the successful removals. *)
Definition remove_all (m : Mempool) (ids : list bytes) : Z * Mempool :=
  fold_left (fun '(removed, m) tx_id =>
    match remove m tx_id with
    | (Ok _, m') => (removed + 1, m')
    | (Err _, m') => (removed, m')
    end) ids (0, m).

(** [Mempool::remove_confirmed]. *)
Definition remove_confirmed (m : Mempool) (tx_ids spent_inputs : list bytes) : Z * Mempool :=
  let '(removed, m) := remove_all m tx_ids in
  let to_remove := omap (fun input =>
    match get_spending_tx m input with
    | Some tx_id => if decide (tx_id ∈ tx_ids) then None else Some tx_id
    | None => None
    end) spent_inputs in
  let '(removed', m) := remove_all m to_remove in
  (removed + removed', m).

(** [Mempool::remove_expired] at time [now]; the differences are [u64]. *)
Definition expired (m : Mempool) (now : Z) (tx : PooledTransaction) : bool :=
  u64 (now - ptx_arrival_time tx) >? u64 (tx_expiry_secs (config m) * 1000).

Definition remove_expired (m : Mempool) (now : Z) : Mempool :=
  let ids : gset bytes :=
    dom (base.filter (fun p : bytes * PooledTransaction => expired m now p.2 = true)
      (transactions m)) in
  snd (remove_all m (hash_order (clock_reads m) ids)).

End Pool.
