(* ===== verification/MempoolFacts.v ===== *)
(** * Correctness of the transaction pool

    The representation invariant [wf] of the pool's six maps, its preservation
    by every operation, the capacity bounds that [maybe_evict] restores, and
    what the public operations promise to the rest of the node. *)

From S2P Require Export Mempool.

Local Open Scope Z_scope.

(** Total size of the pooled transactions. *)
Definition pool_bytes (txs : gmap bytes PooledTransaction) : Z :=
  map_fold (fun _ tx acc => ptx_size tx + acc) 0 txs.

(** The representation invariant. *)
Record wf (m : Mempool) : Prop := mk_wf {
  wf_tx_key : forall id tx, transactions m !! id = Some tx -> ptx_id tx = id;
  wf_reg_key : forall id w, registry m !! id = Some w -> wtx_id w = id;
  wf_reg_dom : dom (registry m) = dom (transactions m);
  wf_sorted : StronglySorted wtx_lt (weight_order m);
  wf_order : forall w, w ∈ weight_order m <-> registry m !! wtx_id w = Some w;
  wf_inputs : forall i id, input_to_tx m !! i = Some id <->
    exists tx, transactions m !! id = Some tx /\ i ∈ ptx_inputs tx;
  wf_outputs : forall o id, output_to_tx m !! o = Some id ->
    exists tx, transactions m !! id = Some tx /\ o ∈ ptx_outputs tx;
  wf_total : total_size m = u64 (pool_bytes (transactions m))
}.

(** The fields other than weights, which [update_family] leaves alone. *)
Definition same_entries (m m' : Mempool) : Prop :=
  config m' = config m /\ transactions m' = transactions m /\
  output_to_tx m' = output_to_tx m /\ input_to_tx m' = input_to_tx m /\
  total_size m' = total_size m.

(** A configuration whose sizes are [usize] values with head room for one
    more transaction. *)
Definition config_ok (c : MempoolConfig) : Prop :=
  0 <= max_size c /\ 0 <= max_transactions c /\ max_size c + max_size c / 10 < 2 ^ 64.

(** The bounds the configuration promises. *)
Definition within_capacity (m : Mempool) : Prop :=
  Z.of_nat (size (transactions m)) <= max_transactions (config m) /\
  pool_bytes (transactions m) <= max_size (config m).

(** ** Maps *)

Lemma lookup_foldr_delete {V} (m : gmap bytes V) ks i :
  foldr delete m ks !! i = if decide (i ∈ ks) then None else m !! i.
Proof.
  induction ks as [|k ks IH]; cbn [foldr]; [by case_decide; set_solver|].
  rewrite lookup_delete, IH. repeat case_decide; set_solver.
Qed.

Lemma lookup_fold_insert {V} (m : gmap bytes V) ks v i :
  fold_left (fun mp k => <[k := v]> mp) ks m !! i =
  if decide (i ∈ ks) then Some v else m !! i.
Proof.
  revert m. induction ks as [|k ks IH]; intros m; cbn [fold_left]; [by case_decide; set_solver|].
  rewrite IH, lookup_insert. repeat case_decide; set_solver.
Qed.

Lemma ptx_size_nonneg tx : 0 <= ptx_size tx.
Proof. unfold ptx_size. lia. Qed.

Lemma pool_bytes_insert txs id tx :
  txs !! id = None -> pool_bytes (<[id := tx]> txs) = ptx_size tx + pool_bytes txs.
Proof.
  intros H. unfold pool_bytes. rewrite map_fold_insert_L; [done| |done].
  intros. lia.
Qed.

Lemma pool_bytes_delete txs id tx :
  txs !! id = Some tx -> pool_bytes (delete id txs) = pool_bytes txs - ptx_size tx.
Proof.
  intros H. rewrite <- (insert_id txs id tx) at 2 by done.
  rewrite <- insert_delete_eq, pool_bytes_insert by apply lookup_delete_eq. lia.
Qed.

Lemma pool_bytes_nonneg txs : 0 <= pool_bytes txs.
Proof.
  induction txs as [|id tx txs H IH] using map_ind; [done|].
  rewrite pool_bytes_insert by done. pose proof (ptx_size_nonneg tx). lia.
Qed.

Lemma pool_bytes_mono txs1 txs2 : txs1 ⊆ txs2 -> pool_bytes txs1 <= pool_bytes txs2.
Proof.
  revert txs2. induction txs1 as [|id tx txs1 H IH] using map_ind; intros txs2 Hsub.
  - apply pool_bytes_nonneg.
  - assert (txs2 !! id = Some tx) as H2.
    { eapply lookup_weaken; [|exact Hsub]. apply lookup_insert_eq. }
    rewrite pool_bytes_insert by done.
    specialize (IH (delete id txs2)). rewrite (pool_bytes_delete _ _ tx) in IH by done.
    enough (txs1 ⊆ delete id txs2) by (specialize (IH ltac:(done)); lia).
    rewrite <- (delete_insert_id txs1 id tx) by done. by apply delete_mono.
Qed.

(** ** Reweighing *)

Section Facts.
Context (elapsed_ms : nat -> Z) (hash_order : nat -> gset bytes -> list bytes).

(** Everything true of the pool and stable under reweighing survives
    [update_family]. *)
Lemma update_family_ind (P : Mempool -> Prop) :
  (forall m, P m -> P (tick m)) ->
  (forall m id old w, P m -> registry m !! id = Some old -> is_Some (transactions m !! id) ->
    P (reweigh m id old (with_weight (wtx_id old) w (wtx_fee_per_factor old)
        (wtx_size old) (wtx_created old)))) ->
  forall remaining m tx d, P m -> P (update_family_recursive elapsed_ms hash_order remaining m tx d).
Proof.
  intros Htick Hrw. induction remaining as [|n IH]; intros m tx d Hm; [done|].
  cbn [update_family_recursive]. case_match; [by apply Htick|].
  generalize (hash_order (clock_reads (tick m)) (parent_tx_ids (tick m) tx)).
  intros ids. apply Htick in Hm. revert Hm. generalize (tick m).
  induction ids as [|id ids IHids]; intros m' Hm'; [done|]. cbn [fold_left]. apply IHids.
  case_decide; [done|]. destruct (registry m' !! id) eqn:Er; [|done].
  destruct (transactions m' !! id) eqn:Et; [|done]. apply IH, Hrw; eauto.
Qed.

Lemma update_family_same remaining m tx d :
  same_entries m (update_family_recursive elapsed_ms hash_order remaining m tx d).
Proof.
  apply (update_family_ind (same_entries m)); unfold same_entries; simpl; tauto.
Qed.

Lemma wf_tick m : wf m -> wf (tick m).
Proof. by intros []; constructor. Qed.

Lemma wf_reweigh m id old w :
  wf m -> registry m !! id = Some old ->
  wf (reweigh m id old (with_weight (wtx_id old) w (wtx_fee_per_factor old)
        (wtx_size old) (wtx_created old))).
Proof.
  intros [Hk Hr Hd Hs Ho Hi Hout Ht] Hold.
  pose proof (Hr _ _ Hold) as Hid. set (new := with_weight _ _ _ _ _).
  assert (Hfresh : forall y, y ∈ btree_remove old (weight_order m) -> wtx_id y <> id).
  { intros y [Hy Hne]%btree_remove_elem Hy'; [|done]. apply Ho in Hy.
    rewrite Hy', Hold in Hy. injection Hy as <-. by rewrite wtx_cmp_refl in Hne. }
  constructor; simpl; try done.
  - intros id' w' [[-> <-]|[? ?]]%lookup_insert_Some; [done|by eapply Hr].
  - rewrite dom_insert_L, Hd. assert (id ∈ dom (transactions m)); [|set_solver].
    rewrite <- Hd. by apply elem_of_dom_2 in Hold.
  - by apply btree_insert_sorted, btree_remove_sorted.
  - intros z. rewrite btree_insert_elem, btree_remove_elem by
      (try done; intros y Hy [_ Hc]%wtx_cmp_eq; apply (Hfresh y Hy); by rewrite <- Hc).
    rewrite Ho, lookup_insert_Some. split.
    + intros [->|[Hz Hne]]; [by left|]. right. split; [|done].
      intros Hz'. rewrite <- Hz', Hold in Hz. injection Hz as <-.
      by rewrite wtx_cmp_refl in Hne.
    + intros [[_ <-]|[Hne Hz]]; [by left|]. right. split; [done|].
      intros [_ Hc]%wtx_cmp_eq. apply Hne. congruence.
Qed.

Lemma update_family_wf remaining m tx d :
  wf m -> wf (update_family_recursive elapsed_ms hash_order remaining m tx d).
Proof.
  apply (update_family_ind wf); [apply wf_tick|]. intros. by apply wf_reweigh.
Qed.

Lemma update_family_txs m tx d :
  transactions (update_family elapsed_ms hash_order m tx d) = transactions m.
Proof. apply (update_family_same (S MAX_PARENT_SCAN_DEPTH) m tx d). Qed.

Lemma update_family_config m tx d :
  config (update_family elapsed_ms hash_order m tx d) = config m.
Proof. apply (update_family_same (S MAX_PARENT_SCAN_DEPTH) m tx d). Qed.

(** ** Removal *)

Lemma wf_registered m id :
  wf m -> is_Some (transactions m !! id) -> exists w, registry m !! id = Some w.
Proof.
  intros Hwf H. assert (id ∈ dom (registry m)) as Hd.
  { rewrite (wf_reg_dom m Hwf). by apply elem_of_dom. }
  apply elem_of_dom in Hd as [w Hw]. eauto.
Qed.

Lemma remove_wf m id : wf m -> wf (snd (remove elapsed_ms hash_order m id)).
Proof.
  intros Hwf. unfold remove. destruct (transactions m !! id) as [tx|] eqn:Etx; [|done].
  destruct (wf_registered m id Hwf) as [w Hw]; [eauto|]. rewrite Hw. cbn [snd].
  apply update_family_wf. destruct Hwf as [Hk Hr Hd Hs Ho Hi Hout Ht].
  pose proof (Hr _ _ Hw) as Hid.
  constructor; cbn [transactions registry weight_order output_to_tx input_to_tx total_size].
  - intros id' tx' [? ?]%lookup_delete_Some. eauto.
  - intros id' w' [? ?]%lookup_delete_Some. eauto.
  - rewrite !dom_delete_L, Hd. done.
  - by apply btree_remove_sorted.
  - intros z. rewrite btree_remove_elem, Ho, lookup_delete_Some by done. split.
    + intros [Hz Hne]. split; [|done]. intros Hz'. rewrite <- Hz', Hw in Hz.
      injection Hz as <-. by rewrite wtx_cmp_refl in Hne.
    + intros [Hne Hz]. split; [done|]. intros [_ Hc]%wtx_cmp_eq. congruence.
  - intros i id'. rewrite lookup_foldr_delete. case_decide as Hin.
    + split; [done|]. intros (tx' & [Hne Htx']%lookup_delete_Some & Hin'). exfalso.
      assert (input_to_tx m !! i = Some id) as H1 by (apply Hi; eauto).
      assert (input_to_tx m !! i = Some id') as H2 by (apply Hi; eauto). congruence.
    + rewrite Hi. split; intros (tx' & Htx' & Hin'); exists tx'; (split; [|done]).
      * rewrite lookup_delete_ne; [done|]. intros ->. congruence.
      * apply lookup_delete_Some in Htx'. tauto.
  - intros o id'. rewrite lookup_foldr_delete. case_decide as Hin; [done|].
    intros (tx' & Htx' & Ho')%Hout. exists tx'. split; [|done].
    rewrite lookup_delete_ne; [done|]. intros ->. congruence.
  - rewrite Ht, (pool_bytes_delete _ _ tx) by done. unfold wrap.
    by rewrite Zminus_mod_idemp_l.
Qed.

(** What [remove] returns, and what is left in the pool. *)
Lemma remove_spec m id :
  match transactions m !! id with
  | Some tx => fst (remove elapsed_ms hash_order m id) = Ok tx
  | None => remove elapsed_ms hash_order m id = (Err (NotFound id), m)
  end /\
  transactions (snd (remove elapsed_ms hash_order m id)) = delete id (transactions m) /\
  config (snd (remove elapsed_ms hash_order m id)) = config m.
Proof.
  unfold remove. destruct (transactions m !! id) as [tx|] eqn:E; cbn [fst snd].
  - split; [done|]. destruct (registry m !! id); [|done].
    by rewrite update_family_txs, update_family_config.
  - by rewrite delete_id.
Qed.

Lemma remove_ok m id tx :
  transactions m !! id = Some tx ->
  exists m', remove elapsed_ms hash_order m id = (Ok tx, m') /\
  transactions m' = delete id (transactions m) /\ config m' = config m.
Proof.
  intros H. destruct (remove_spec m id) as (H1 & H2 & H3). rewrite H in H1.
  destruct (remove elapsed_ms hash_order m id) as [r m'].
  simpl in *. subst r. eauto.
Qed.

(** ** Insertion *)

Lemma find_None_forall {A} (f : A -> bool) l :
  List.find f l = None <-> forall x, x ∈ l -> f x = false.
Proof.
  split.
  - intros H x Hx. eapply List.find_none; [exact H|]. by apply list_elem_of_In.
  - induction l as [|y l IH]; simpl; [done|]. intros H. rewrite H by set_solver. set_solver.
Qed.

Lemma add_entries_wf m tx wtx :
  wf m -> transactions m !! ptx_id tx = None -> wtx_id wtx = ptx_id tx ->
  (forall i, i ∈ ptx_inputs tx -> input_to_tx m !! i = None) ->
  wf (add_entries m tx wtx).
Proof.
  intros [Hk Hr Hd Hs Ho Hi Hout Ht] Hnew Hid Hfree.
  assert (registry m !! ptx_id tx = None) as Hnr.
  { apply not_elem_of_dom. rewrite Hd. by apply not_elem_of_dom. }
  constructor; cbn [add_entries transactions registry weight_order output_to_tx input_to_tx total_size].
  - intros id' tx' [[<- <-]|[? ?]]%lookup_insert_Some; eauto.
  - intros id' w' [[<- <-]|[? ?]]%lookup_insert_Some; eauto.
  - by rewrite !dom_insert_L, Hd.
  - by apply btree_insert_sorted.
  - intros z. rewrite btree_insert_elem.
    + rewrite Ho, lookup_insert_Some. split.
      * intros [->|Hz]; [by left|]. right. split; [|done]. intros Hz'. congruence.
      * intros [[_ <-]|[_ Hz]]; [by left|by right].
    + intros y Hy [_ Hc]%wtx_cmp_eq. apply Ho in Hy. congruence.
  - intros i id'. rewrite lookup_fold_insert. case_decide as Hin.
    + split.
      * intros [= <-]. exists tx. by rewrite lookup_insert_eq.
      * intros (tx' & [[? <-]|[? Htx']]%lookup_insert_Some & Hin'); [congruence|].
        assert (input_to_tx m !! i = Some id') as Hc by (apply Hi; eauto).
        rewrite Hfree in Hc; done.
    + rewrite Hi. split; intros (tx' & Htx' & Hin'); exists tx'; (split; [|done]).
      * rewrite lookup_insert_ne; [done|]. intros <-. congruence.
      * apply lookup_insert_Some in Htx' as [[? <-]|[? ?]]; [done|done].
  - intros o id'. rewrite lookup_fold_insert. case_decide as Hin.
    + intros [= <-]. exists tx. by rewrite lookup_insert_eq.
    + intros (tx' & Htx' & Hin')%Hout. exists tx'. split; [|done].
      rewrite lookup_insert_ne; [done|]. intros <-. congruence.
  - rewrite Ht, pool_bytes_insert by done. unfold wrap.
    rewrite Zplus_mod_idemp_l. f_equal. lia.
Qed.

(** ** Eviction *)

Lemma wf_last m :
  wf m -> transactions m <> ∅ ->
  exists w, last (weight_order m) = Some w /\ is_Some (transactions m !! wtx_id w).
Proof.
  intros Hwf Hne. destruct (last (weight_order m)) as [w|] eqn:E.
  - exists w. split; [done|]. assert (w ∈ weight_order m) as Hw.
    { apply last_Some in E as [l' ->]. set_solver. }
    apply (wf_order m Hwf) in Hw. apply elem_of_dom. rewrite <- (wf_reg_dom m Hwf).
    by apply elem_of_dom_2 in Hw.
  - exfalso. apply Hne, map_eq. intros id. rewrite lookup_empty.
    destruct (transactions m !! id) eqn:Etx; [|done].
    destruct (wf_registered m id Hwf) as [w Hw]; [eauto|].
    assert (w ∈ weight_order m) as Hin.
    { apply (wf_order m Hwf). by rewrite (wf_reg_key m Hwf _ _ Hw). }
    apply last_None in E. rewrite E in Hin. by apply not_elem_of_nil in Hin.
Qed.

Lemma evict_lowest_weight_spec m :
  wf m -> transactions m <> ∅ ->
  exists id m', is_Some (transactions m !! id) /\
  evict_lowest_weight elapsed_ms hash_order m = (Ok tt, m') /\ wf m' /\
  transactions m' = delete id (transactions m) /\ config m' = config m.
Proof.
  intros Hwf Hne. destruct (wf_last m Hwf Hne) as (w & Hw & [tx Htx]).
  destruct (remove_ok m _ _ Htx) as (m' & Hr & Ht & Hc).
  exists (wtx_id w), m'. unfold evict_lowest_weight. rewrite Hw, Hr.
  split; [eauto|]. split; [done|]. split; [|done].
  replace m' with (snd (remove elapsed_ms hash_order m (wtx_id w))) by (by rewrite Hr).
  by apply remove_wf.
Qed.

(** With more fuel than transactions the loop stops because its condition is
    false, whatever the fuel; every intermediate pool is well formed. *)
Lemma evict_while_spec over fuel m :
  (forall m', wf m' -> config m' = config m -> over m' = true -> transactions m' <> ∅) ->
  wf m -> (size (transactions m) < fuel)%nat ->
  let m' := evict_while elapsed_ms hash_order fuel over m in
  over m' = false /\ wf m' /\ config m' = config m /\
  transactions m' ⊆ transactions m /\
  forall fuel', (size (transactions m) < fuel')%nat ->
    evict_while elapsed_ms hash_order fuel' over m = m'.
Proof.
  revert m. induction fuel as [|fuel IH]; intros m Hover Hwf Hf; [lia|].
  cbn [evict_while]. destruct (over m) eqn:Eo.
  2:{ split; [done|]. split; [done|]. split; [done|]. split; [done|].
      intros [|f'] Hf'; [lia|]. simpl. by rewrite Eo. }
  destruct (evict_lowest_weight_spec m Hwf (Hover m Hwf eq_refl Eo))
    as (id & m1 & [tx Htx] & He & Hwf1 & Ht1 & Hc1).
  rewrite He.
  assert (size (transactions m) = S (size (transactions m1))) as Hsz.
  { rewrite Ht1, map_size_delete, Htx.
    assert (size (transactions m) <> 0%nat); [|lia].
    apply map_size_ne_0_lookup. eauto. }
  destruct (IH m1) as (H1 & H2 & H3 & H4 & H5); [rewrite Hc1; auto|done|lia|].
  split; [done|]. split; [done|]. split; [congruence|]. split.
  - etrans; [exact H4|]. rewrite Ht1. apply delete_subseteq.
  - intros [|f'] Hf'; [lia|]. simpl. rewrite Eo, He. apply H5. lia.
Qed.

(** ** The operations, seen from outside *)

Abbreviation add' := (add elapsed_ms hash_order).
Abbreviation remove' := (remove elapsed_ms hash_order).
Abbreviation remove_all' := (remove_all elapsed_ms hash_order).

Lemma over_count_nonempty m :
  config_ok (config m) -> over_count m = true -> transactions m <> ∅.
Proof.
  intros (_ & Hc & _) H He. unfold over_count in H. zify_bool.
  rewrite He, map_size_empty in H. lia.
Qed.

Lemma over_size_nonempty m :
  config_ok (config m) -> wf m -> over_size m = true -> transactions m <> ∅.
Proof.
  intros (Hc & _ & _) Hwf H He. unfold over_size in H. zify_bool.
  assert (u64 (pool_bytes ∅) = 0) as Hz by reflexivity.
  rewrite (wf_total m Hwf), He, Hz in H. lia.
Qed.

(** Both loops of [maybe_evict] reach the point where their condition fails,
    and the pool that remains respects the configuration. *)
Lemma maybe_evict_spec m :
  wf m -> config_ok (config m) -> pool_bytes (transactions m) < 2 ^ 64 ->
  let m' := maybe_evict elapsed_ms hash_order m in
  wf m' /\ config m' = config m /\ transactions m' ⊆ transactions m /\ within_capacity m'.
Proof.
  intros Hwf Hc Hb. unfold maybe_evict.

  destruct (evict_while_spec over_count (S (size (transactions m))) m)
    as (H1 & H2 & H3 & H4 & _); [|done|lia|].
  { intros m' _ Heq. apply over_count_nonempty. by rewrite Heq. }
  set (m1 := evict_while _ _ _ over_count m) in *.
  destruct (evict_while_spec over_size (S (size (transactions m1))) m1)
    as (G1 & G2 & G3 & G4 & _); [|done|lia|].
  { intros m' Hwf' Heq. apply over_size_nonempty; [|done]. by rewrite Heq, H3. }
  set (m2 := evict_while _ _ _ over_size m1) in *.
  assert (transactions m2 ⊆ transactions m) as Hsub by (by etrans).
  split; [done|]. split; [congruence|]. split; [done|]. split.
  - unfold over_count in H1. zify_bool. rewrite G3, H3 in *.
    pose proof (map_subseteq_size _ _ G4). lia.
  - unfold over_size in G1. zify_bool. rewrite (wf_total m2 G2), wrap_small in G1; [done|].
    split; [apply pool_bytes_nonneg|]. pose proof (pool_bytes_mono _ _ Hsub). lia.
Qed.

(** Why [add] refuses a transaction. *)
Inductive add_refused (m : Mempool) (tx : PooledTransaction) : MempoolError -> Prop :=
  | refused_known :
      is_Some (transactions m !! ptx_id tx) -> add_refused m tx (AlreadyExists (ptx_id tx))
  | refused_large :
      transactions m !! ptx_id tx = None -> max_size (config m) / 10 < ptx_size tx ->
      add_refused m tx (TooLarge (ptx_size tx) (max_size (config m) / 10))
  | refused_fee min :
      transactions m !! ptx_id tx = None -> ptx_size tx <= max_size (config m) / 10 ->
      f64_ltb (f64_div (f64_of_Z (ptx_fee tx)) (f64_of_Z (ptx_size tx)))
        (min_fee_per_byte (config m)) = true ->
      add_refused m tx (FeeTooLow (ptx_fee tx) min)
  | refused_spent i :
      transactions m !! ptx_id tx = None -> i ∈ ptx_inputs tx ->
      is_Some (input_to_tx m !! i) -> add_refused m tx (DoubleSpend i).

(** The conditions under which [add] accepts. *)
Definition add_accepted (m : Mempool) (tx : PooledTransaction) : Prop :=
  transactions m !! ptx_id tx = None /\ ptx_size tx <= max_size (config m) / 10 /\
  f64_ltb (f64_div (f64_of_Z (ptx_fee tx)) (f64_of_Z (ptx_size tx)))
    (min_fee_per_byte (config m)) = false /\
  forall i, i ∈ ptx_inputs tx -> input_to_tx m !! i = None.

Lemma add_cases m tx :
  (exists e, add' m tx = (Err e, m) /\ add_refused m tx e) \/
  (add_accepted m tx /\
   add' m tx = (Ok tt, maybe_evict elapsed_ms hash_order
     (let wtx := WeightedTxId_new (ptx_id tx) (ptx_fee tx) (ptx_size tx) (ptx_arrival_time tx) in
      update_family elapsed_ms hash_order (add_entries m tx wtx) tx (wtx_weight wtx)))).
Proof.
  unfold add. case_decide as Hex; [left; eauto using add_refused|].
  apply eq_None_not_Some in Hex.
  destruct (_ >? _) eqn:Hsz; zify_bool; [left; eauto using add_refused|].
  destruct (f64_ltb _ _) eqn:Hfee; [left; eauto using add_refused|].
  destruct (List.find _ _) as [i|] eqn:Hfind.
  - left. exists (DoubleSpend i). split; [done|].
    apply List.find_some in Hfind as [Hin Hi]. apply list_elem_of_In in Hin.
    apply bool_decide_eq_true in Hi. by constructor.
  - right. split; [|done]. split; [done|]. split; [done|]. split; [done|]. intros i Hi.
    eapply find_None_forall in Hfind; [|exact Hi].
    apply bool_decide_eq_false in Hfind. by apply eq_None_not_Some.
Qed.

Lemma add_wf m tx :
  wf m -> config_ok (config m) -> within_capacity m ->
  let m' := snd (add' m tx) in
  wf m' /\ config m' = config m /\ within_capacity m' /\
  (fst (add' m tx) = Ok tt -> transactions m' ⊆ <[ptx_id tx := tx]> (transactions m)).
Proof.
  intros Hwf Hc [Hcnt Hcap].
  destruct (add_cases m tx) as [(e & -> & _)|[(Hnew & Hsz & _ & Hfree) ->]]; [done|].
  cbn zeta. cbn [fst snd]. set (m1 := update_family _ _ _ _ _).
  assert (wf m1) as Hwf1 by (by apply update_family_wf, add_entries_wf).
  assert (config m1 = config m) as Hc1 by (unfold m1; by rewrite update_family_config).
  assert (transactions m1 = <[ptx_id tx := tx]> (transactions m)) as Ht1
    by (unfold m1; by rewrite update_family_txs).
  destruct (maybe_evict_spec m1 Hwf1) as (H1 & H2 & H3 & H4).
  - by rewrite Hc1.
  - rewrite Ht1, pool_bytes_insert by done. destruct Hc as (? & ? & ?). lia.
  - rewrite H2, Hc1, <- Ht1. done.
Qed.

(** A pool within its bounds evicts nothing. *)
Lemma maybe_evict_idle m :
  wf m -> pool_bytes (transactions m) < 2 ^ 64 -> within_capacity m ->
  maybe_evict elapsed_ms hash_order m = m.
Proof.
  intros Hwf Hlt [Hcnt Hcap].
  assert (over_count m = false) as Hc by (unfold over_count; lia).
  assert (over_size m = false) as Hs.
  { unfold over_size. rewrite (wf_total m Hwf), wrap_small; [lia|]. split; [apply pool_bytes_nonneg|done]. }
  unfold maybe_evict. cbn [evict_while]. by rewrite Hc, Hs.
Qed.

(** What an accepted transaction leaves: with room for it, it joins the pool
    and nothing leaves; without, the pool is cut to its bounds. *)
Lemma add_lands m tx :
  wf m -> config_ok (config m) -> within_capacity m -> add_accepted m tx ->
  let m' := snd (add' m tx) in
  let joined := <[ptx_id tx := tx]> (transactions m) in
  transactions m' ⊆ joined /\ within_capacity m' /\
  (Z.of_nat (size joined) <= max_transactions (config m) -> pool_bytes joined <= max_size (config m) ->
   transactions m' = joined).
Proof.
  intros Hwf Hc Hcap Hacc. cbv zeta. destruct (add_wf m tx Hwf Hc Hcap) as (_ & _ & Hcap' & Hsub).
  destruct (add_cases m tx) as [(e & _ & Href)|[(Hnew & Hsz & _ & Hfree) Hadd]].
  { exfalso. destruct Hacc as (H1 & H2 & H3 & H4). destruct Href as [[? ?]|?|?|? ? Hin [? Hs]]; try congruence; [lia|].
    by rewrite H4 in Hs. }
  split; [apply Hsub; by rewrite Hadd|]. split; [done|]. intros Hn Hb. rewrite Hadd. cbn zeta. cbn [fst snd].
  set (m1 := update_family _ _ _ _ _).
  assert (transactions m1 = <[ptx_id tx := tx]> (transactions m)) as Ht1
    by (unfold m1; by rewrite update_family_txs).
  assert (config m1 = config m) as Hc1 by (unfold m1; by rewrite update_family_config).
  rewrite maybe_evict_idle; [done| | |].
  - by apply update_family_wf, add_entries_wf.
  - rewrite Ht1. destruct Hc as (? & ? & ?). pose proof (Z.div_pos (max_size (config m)) 10). lia.
  - split; by rewrite Ht1, Hc1.
Qed.

Lemma remove_capacity m id :
  wf m -> within_capacity m -> within_capacity (snd (remove' m id)).
Proof.
  intros Hwf [H1 H2]. destruct (remove_spec m id) as (_ & Ht & Hc).
  pose proof (delete_subseteq (transactions m) id) as Hsub.
  unfold within_capacity. rewrite Hc, Ht.
  pose proof (map_subseteq_size _ _ Hsub). pose proof (pool_bytes_mono _ _ Hsub). lia.
Qed.

End Facts.
