(* ===== verification/MempoolSpec.v ===== *)
(** * What the transaction pool promises

    Runs of the pool's public operations as a step relation, and the theorems
    that hold of every pool such a run reaches. *)

From S2P Require Export MempoolFacts.

Local Open Scope Z_scope.

Section Spec.
Context (elapsed_ms : nat -> Z) (hash_order : nat -> gset bytes -> list bytes).

(** One call of a public, state-changing operation. *)
Inductive pool_step : Mempool -> Mempool -> Prop :=
  | step_add m tx : pool_step m (snd (add elapsed_ms hash_order m tx))
  | step_remove m id : pool_step m (snd (remove elapsed_ms hash_order m id))
  | step_confirmed m ids spent :
      pool_step m (snd (remove_confirmed elapsed_ms hash_order m ids spent))
  | step_expired m now : pool_step m (remove_expired elapsed_ms hash_order m now)
  | step_clear m : pool_step m (clear m).

Definition reachable (c : MempoolConfig) (m : Mempool) : Prop :=
  rtc pool_step (Mempool_new c) m.

(** The invariant of reachable pools. *)
Definition pool_inv (c : MempoolConfig) (m : Mempool) : Prop :=
  wf m /\ config m = c /\ within_capacity m.

(** ** Bulk removal *)

Lemma remove_all_acc m ids n :
  fold_left (fun '(removed, m) tx_id =>
    match remove elapsed_ms hash_order m tx_id with
    | (Ok _, m') => (removed + 1, m')
    | (Err _, m') => (removed, m')
    end) ids (n, m) =
  (n + fst (remove_all elapsed_ms hash_order m ids), snd (remove_all elapsed_ms hash_order m ids)).
Proof.
  unfold remove_all. revert n m. induction ids as [|id ids IH]; intros n m; cbn [fold_left fst snd].
  - f_equal. lia.
  - destruct (remove elapsed_ms hash_order m id) as [[tx|e] m'].
    + rewrite IH, (IH (0 + 1)). cbn [fst snd]. f_equal. lia.
    + by rewrite IH.
Qed.

Lemma remove_all_cons m id ids :
  snd (remove_all elapsed_ms hash_order m (id :: ids)) =
  snd (remove_all elapsed_ms hash_order (snd (remove elapsed_ms hash_order m id)) ids).
Proof.
  unfold remove_all at 1. cbn [fold_left].
  destruct (remove elapsed_ms hash_order m id) as [[tx|e] m']; by rewrite remove_all_acc.
Qed.

Lemma remove_all_spec m ids :
  wf m ->
  let m' := snd (remove_all elapsed_ms hash_order m ids) in
  wf m' /\ config m' = config m /\
  (within_capacity m -> within_capacity m') /\
  forall id, transactions m' !! id =
    if decide (id ∈ ids) then None else transactions m !! id.
Proof.
  revert m. induction ids as [|i ids IH]; intros m Hwf.
  - split; [done|]. split; [done|]. split; [done|]. intros id.
    rewrite decide_False by set_solver. done.
  - cbn zeta. rewrite remove_all_cons.
    destruct (remove_spec elapsed_ms hash_order m i) as (_ & Ht & Hc).
    destruct (IH _ (remove_wf elapsed_ms hash_order m i Hwf)) as (H1 & H2 & H3 & H4).
    split; [done|]. split; [congruence|]. split.
    + intros Hcap. by apply H3, remove_capacity.
    + intros id. rewrite H4, Ht, lookup_delete. repeat case_decide; set_solver.
Qed.

Lemma remove_all_inv c m ids :
  pool_inv c m -> pool_inv c (snd (remove_all elapsed_ms hash_order m ids)).
Proof.
  intros (Hwf & Hc & Hcap). destruct (remove_all_spec m ids Hwf) as (H1 & H2 & H3 & _).
  split; [done|]. split; [congruence|auto].
Qed.

(** The transactions [remove_confirmed] drops because an input of theirs was
    spent in the block. *)
Definition conflicting (m : Mempool) (tx_ids spent_inputs : list bytes) : list bytes :=
  omap (fun input =>
    match get_spending_tx m input with
    | Some tx_id => if decide (tx_id ∈ tx_ids) then None else Some tx_id
    | None => None
    end) spent_inputs.

Lemma remove_confirmed_eq m tx_ids spent :
  snd (remove_confirmed elapsed_ms hash_order m tx_ids spent) =
  let m1 := snd (remove_all elapsed_ms hash_order m tx_ids) in
  snd (remove_all elapsed_ms hash_order m1 (conflicting m1 tx_ids spent)).
Proof.
  unfold remove_confirmed. destruct (remove_all _ _ m tx_ids) as [n m1]. cbn [snd].
  fold (conflicting m1 tx_ids spent). by destruct (remove_all _ _ m1 _).
Qed.

Lemma pool_inv_empty c n : config_ok c -> pool_inv c (mkMempool c ∅ ∅ [] ∅ ∅ 0 n).
Proof.
  intros (? & ? & ?). split; [|split; [done|]].
  - constructor; simpl; try done; try (intros *; rewrite lookup_empty; naive_solver).
    + constructor.
    + intros w. rewrite lookup_empty. set_solver.
  - unfold within_capacity. simpl. by rewrite map_size_empty.
Qed.

Lemma pool_step_inv c m m' : config_ok c -> pool_inv c m -> pool_step m m' -> pool_inv c m'.
Proof.
  intros Hok Hinv Hstep. pose proof Hinv as (Hwf & Hc & Hcap).
  destruct Hstep as [m tx|m id|m ids spent|m now|m].
  - destruct (add_wf elapsed_ms hash_order m tx) as (H1 & H2 & H3 & _); try done;
      [by rewrite Hc|]. split; [done|]. split; [congruence|done].
  - destruct (remove_spec elapsed_ms hash_order m id) as (_ & _ & Hc').
    split; [by apply remove_wf|]. split; [congruence|by apply remove_capacity].
  - rewrite remove_confirmed_eq. by apply remove_all_inv, remove_all_inv.
  - by apply remove_all_inv.
  - unfold clear. rewrite Hc. by apply pool_inv_empty.
Qed.

Lemma reachable_inv c m : config_ok c -> reachable c m -> pool_inv c m.
Proof.
  intros Hok Hr. unfold reachable in Hr. remember (Mempool_new c) as m0 eqn:E.
  assert (pool_inv c m0) as H0 by (rewrite E; by apply pool_inv_empty). clear E.
  induction Hr as [|m1 m2 m3 Hs _ IH]; [done|]. apply IH. by eapply pool_step_inv.
Qed.

(** ** Properties *)

(** C7: in every pool that a sequence of [add], [remove], [remove_confirmed],
    [remove_expired] and [clear] can reach from an empty one, the maps are
    consistent (the representation invariant) and neither the number of
    transactions nor their total size exceeds the configuration. *)
Theorem reachable_pool_inv c m :
  config_ok c -> reachable c m -> wf m /\ config m = c /\ within_capacity m.
Proof.
  intros Hok Hr. by apply reachable_inv.
Qed.

Lemma refused_not_accepted m tx e : add_refused m tx e -> ~ add_accepted m tx.
Proof.
  intros He (H1 & H2 & H3 & H4). destruct He as [[? Hs]|?|?|? ? Hin [? Hs]]; try congruence; [lia|].
  rewrite H4 in Hs; done.
Qed.

(** C23: [add] succeeds exactly when the transaction is unknown, small enough,
    pays the configured fee rate and spends only boxes no pooled transaction
    spends; otherwise it reports the first violated condition and leaves the
    pool untouched. *)
Theorem add_decides m tx :
  (fst (add elapsed_ms hash_order m tx) = Ok tt <-> add_accepted m tx) /\
  forall e, fst (add elapsed_ms hash_order m tx) = Err e ->
    snd (add elapsed_ms hash_order m tx) = m /\ add_refused m tx e.
Proof.
  destruct (add_cases elapsed_ms hash_order m tx) as [(e & -> & He)|[Hacc ->]]; cbn [fst snd].
  - split; [|naive_solver]. split; [done|]. by intros Ha%(refused_not_accepted _ _ _ He).
  - split; [tauto|done].
Qed.

(** the eviction loops terminate: with at least one unit of fuel more than
    there are transactions they stop because the pool is within its bound, and
    more fuel changes nothing. *)
Theorem eviction_terminates m fuel :
  wf m -> config_ok (config m) -> (size (transactions m) < fuel)%nat ->
  (let m' := evict_while elapsed_ms hash_order fuel over_count m in
   over_count m' = false /\
   m' = evict_while elapsed_ms hash_order (S (size (transactions m))) over_count m) /\
  (let m' := evict_while elapsed_ms hash_order fuel over_size m in
   over_size m' = false /\
   m' = evict_while elapsed_ms hash_order (S (size (transactions m))) over_size m).
Proof.
  intros Hwf Hok Hf.
  destruct (evict_while_spec elapsed_ms hash_order over_count fuel m) as (H1 & _ & _ & _ & H2);
    [|done|done|].
  { intros m' _ Heq. apply over_count_nonempty. by rewrite Heq. }
  destruct (evict_while_spec elapsed_ms hash_order over_size fuel m) as (G1 & _ & _ & _ & G2);
    [|done|done|].
  { intros m' Hwf' Heq. apply over_size_nonempty; [|done]. by rewrite Heq. }
  split; (split; [done|]); symmetry; [apply H2|apply G2]; lia.
Qed.

(** after [remove_confirmed] no confirmed transaction is pooled and no
    pooled transaction spends a box the block spent; every other transaction
    is kept. *)
Theorem remove_confirmed_clears m tx_ids spent :
  wf m ->
  let m' := snd (remove_confirmed elapsed_ms hash_order m tx_ids spent) in
  forall id tx, transactions m' !! id = Some tx <->
    (transactions m !! id = Some tx) /\ (id ∉ tx_ids) /\
    forall input, input ∈ spent -> input ∉ ptx_inputs tx.
Proof.
  intros Hwf m' id tx. unfold m'. rewrite remove_confirmed_eq. cbn zeta.
  destruct (remove_all_spec m tx_ids Hwf) as (Hwf1 & _ & _ & Hl1).
  set (m1 := snd (remove_all _ _ m tx_ids)) in *.
  destruct (remove_all_spec m1 (conflicting m1 tx_ids spent) Hwf1) as (_ & _ & _ & Hl2).
  rewrite Hl2. unfold conflicting, get_spending_tx. split.
  - case_decide as Hnc; [done|]. intros Htx. pose proof Htx as Htx1.
    rewrite Hl1 in Htx1. case_decide as Hid; [done|]. split; [done|]. split; [done|].
    intros input Hin Hin'. apply Hnc, list_elem_of_omap. exists input. split; [done|].
    assert (input_to_tx m1 !! input = Some id) as -> by (apply (wf_inputs m1 Hwf1); eauto).
    by rewrite decide_False.
  - intros (Htx & Hid & Hsp).
    assert (transactions m1 !! id = Some tx) as Htx1 by (by rewrite Hl1, decide_False).
    rewrite decide_False; [done|]. intros (input & Hin & Hm)%list_elem_of_omap.
    destruct (input_to_tx m1 !! input) as [id'|] eqn:Hs; [|done].
    case_decide; simplify_eq. apply (wf_inputs m1 Hwf1) in Hs as (tx' & Htx' & Hi').
    rewrite Htx1 in Htx'. simplify_eq. by eapply Hsp.
Qed.

End Spec.

(** no two transactions of a consistent pool spend the same box. *)
Theorem no_double_spend m id1 id2 tx1 tx2 input :
  wf m -> transactions m !! id1 = Some tx1 -> transactions m !! id2 = Some tx2 ->
  input ∈ ptx_inputs tx1 -> input ∈ ptx_inputs tx2 -> id1 = id2.
Proof.
  intros Hwf H1 H2 Hi1 Hi2.
  assert (input_to_tx m !! input = Some id1) as G1 by (apply (wf_inputs m Hwf); eauto).
  assert (input_to_tx m !! input = Some id2) as G2 by (apply (wf_inputs m Hwf); eauto).
  congruence.
Qed.

(** [get_by_weight] lists pooled transactions by non-increasing weight, and
    lists each of them once when the limit allows it. *)
Theorem get_by_weight_ordered m limit :
  wf m ->
  StronglySorted (fun a b => wtx_weight b <= wtx_weight a) (take limit (weight_order m)) /\
  Forall2 (fun w tx => ptx_id tx = wtx_id w /\ (registry m !! ptx_id tx = Some w))
    (take limit (weight_order m)) (get_by_weight m limit) /\
  (length (weight_order m) <= limit -> forall tx,
    tx ∈ get_by_weight m limit <-> transactions m !! ptx_id tx = Some tx)%nat.
Proof.
  intros Hwf. 
  assert (Hall : forall w, w ∈ weight_order m -> exists tx,
    transactions m !! wtx_id w = Some tx /\ ptx_id tx = wtx_id w /\ registry m !! wtx_id w = Some w).
  { intros w Hw. apply (wf_order m Hwf) in Hw.
    assert (wtx_id w ∈ dom (transactions m)) as [tx Htx]%elem_of_dom
      by (rewrite <- (wf_reg_dom m Hwf); by apply elem_of_dom_2 in Hw).
    exists tx. split; [done|]. split; [by apply (wf_tx_key m Hwf)|done]. }
  split; [|split].
  - apply sorted_weights, (StronglySorted_app_1_l _ _ (drop limit (weight_order m))).
    rewrite take_drop. apply (wf_sorted m Hwf).
  - unfold get_by_weight, get. 
    assert (Hsub : forall w, w ∈ take limit (weight_order m) -> w ∈ weight_order m)
      by (intros w Hw; by apply elem_of_take in Hw as (i & Hi & _); eapply list_elem_of_lookup_2).
    induction (take limit (weight_order m)) as [|w l IH]; cbn [omap list_omap]; [constructor|].
    destruct (Hall w) as (tx & Htx & Hid & Hr); [set_solver|]. rewrite Htx.
    constructor; [by rewrite Hid|]. apply IH. set_solver.
  - intros Hl tx. unfold get_by_weight, get. rewrite take_ge by done.
    rewrite list_elem_of_omap. split.
    + intros (w & Hw & Htx). destruct (Hall w Hw) as (tx' & Htx' & Hid & _). congruence.
    + intros Htx. destruct (wf_registered m _ Hwf ltac:(eauto)) as [w Hw].
      pose proof (wf_reg_key m Hwf _ _ Hw) as Hid. exists w. rewrite Hid.
      split; [|done]. apply (wf_order m Hwf). by rewrite Hid.
Qed.


(** ** A concrete pool

    A parent and a child that spends its output; the clock never advances and
    hash sets are iterated in the order of [elements]. *)
Module Example.

Definition clock (n : nat) : Z := 0.
Definition order (n : nat) (s : gset bytes) : list bytes := elements s.

Definition parent : PooledTransaction :=
  mkPooledTransaction [1] (replicate 200 7) 1000000 [[10]] [[20]] 5 None.
Definition child : PooledTransaction :=
  mkPooledTransaction [2] (replicate 100 9) 3000000 [[20]] [[30]] 6 None.

Definition pool0 : Mempool := Mempool_new MempoolConfig_default.
Definition pool1 : Mempool := snd (add clock order pool0 parent).
Definition pool2 : Mempool := snd (add clock order pool1 child).

(** The child's weight is added to its parent's. *)
Example pool2_weights :
  get_weight pool1 [1] = Some 5120000 /\ get_weight pool2 [2] = Some 30720000 /\
  get_weight pool2 [1] = Some 35840000 /\ ptx_id <$> get_by_weight pool2 2 = [[1]; [2]].
Proof. vm_compute. done. Qed.

Lemma default_config_ok : config_ok MempoolConfig_default.
Proof. repeat split; vm_compute; congruence. Qed.

Lemma pool2_reachable : reachable clock order MempoolConfig_default pool2.
Proof.
  eapply rtc_l; [apply (step_add _ _ pool0 parent)|].
  eapply rtc_l; [apply (step_add _ _ pool1 child)|]. apply rtc_refl.
Qed.

Lemma pool2_wf : wf pool2.
Proof. apply (reachable_inv clock order MempoolConfig_default); [apply default_config_ok|apply pool2_reachable]. Qed.

Lemma reachable_pool_inv_witness :
  wf pool2 /\ config pool2 = MempoolConfig_default /\ within_capacity pool2.
Proof.
  apply (reachable_pool_inv clock order); [apply default_config_ok|apply pool2_reachable].
Defined.

Lemma no_double_spend_witness :
  is_input_spent pool2 [20] = true /\ forall id tx, transactions pool2 !! id = Some tx -> [20] ∈ ptx_inputs tx -> id = [2].
Proof.
  split; [vm_compute; reflexivity|]. intros id tx Htx Hin.
  apply (no_double_spend pool2 id [2] tx child [20]); [apply pool2_wf|done| |done|].
  - vm_compute. reflexivity.
  - cbn. constructor.
Defined.

Lemma add_decides_witness :
  snd (add clock order pool2 child) = pool2 /\
  add_refused pool2 child (AlreadyExists [2]).
Proof. apply (proj2 (add_decides clock order pool2 child)). vm_compute. reflexivity. Defined.

Lemma eviction_terminates_witness :
  over_count (evict_while clock order 7 over_count pool2) = false.
Proof.
  refine (proj1 (proj1 (eviction_terminates clock order pool2 7 pool2_wf _ _))).
  - rewrite (proj1 (proj2 (reachable_inv clock order _ _ default_config_ok pool2_reachable))).
    apply default_config_ok.
  - vm_compute. lia.
Defined.

Lemma remove_confirmed_clears_witness :
  transactions (snd (remove_confirmed clock order pool2 [[1]] [[20]])) !! [2] = None.
Proof.
  destruct (transactions _ !! [2]) as [tx|] eqn:E; [|done]. exfalso.
  apply (remove_confirmed_clears clock order pool2 [[1]] [[20]] pool2_wf) in E
    as (Htx & _ & Hsp).
  assert (tx = child) as -> by (vm_compute in Htx; by simplify_eq).
  apply (Hsp [20]); (cbn; constructor).
Defined.

Lemma get_by_weight_ordered_witness :
  StronglySorted (fun a b => wtx_weight b <= wtx_weight a) (take 1 (weight_order pool2)).
Proof. apply (get_by_weight_ordered pool2 1 pool2_wf). Defined.

End Example.
