(* ===== verification/Storage.v ===== *)
(** * Key-value storage (crates/ergo-storage/src/lib.rs, batch.rs, database.rs)

    The [Storage] trait as a type class: the operations every client uses, and
    the laws a correct backend satisfies.  The RocksDB backend is not under
    [src/]; it is an instance the clients do not see, and I/O failures are not
    modelled.  An in-memory instance is given so that clients can be run. *)

From S2P Require Export Prelude.

Local Open Scope Z_scope.

(** ** Column families *)

Inductive ColumnFamily :=
  | Headers | CFBlockTransactions | Extensions | AdProofs | Utxo | UtxoSnapshots
  | HeaderChain | TxIndex | CFUndoData | ErgoTreeIndex | TokenIndex
  | CumulativeDifficulty | Metadata | ExtraIndex | BoxIndex | TxNumericIndex
  | Scans | ScanBoxes | CFDefault.

#[export] Instance ColumnFamily_eq_dec : EqDecision ColumnFamily.
Proof. solve_decision. Defined.

(** [ColumnFamily::name]: the RocksDB name of a family. *)
Definition cf_name (cf : ColumnFamily) : string :=
  match cf with
  | Headers => "headers"
  | CFBlockTransactions => "block_transactions"
  | Extensions => "extensions"
  | AdProofs => "ad_proofs"
  | Utxo => "utxo"
  | UtxoSnapshots => "utxo_snapshots"
  | HeaderChain => "header_chain"
  | TxIndex => "tx_index"
  | CFUndoData => "undo_data"
  | ErgoTreeIndex => "ergotree_index"
  | TokenIndex => "token_index"
  | CumulativeDifficulty => "cumulative_difficulty"
  | Metadata => "metadata"
  | ExtraIndex => "extra_index"
  | BoxIndex => "box_index"
  | TxNumericIndex => "tx_numeric_index"
  | Scans => "scans"
  | ScanBoxes => "scan_boxes"
  | CFDefault => "default"
  end.

(** [ColumnFamily::all]. *)
Definition cf_all : list ColumnFamily :=
  [Headers; CFBlockTransactions; Extensions; AdProofs; Utxo; UtxoSnapshots;
   HeaderChain; TxIndex; CFUndoData; ErgoTreeIndex; TokenIndex;
   CumulativeDifficulty; Metadata; ExtraIndex; BoxIndex; TxNumericIndex;
   Scans; ScanBoxes; CFDefault].

(** ** Write batches *)

Inductive OperationKind :=
  | OpPut (value : bytes)
  | OpDelete.

Record BatchOperation := mkBatchOperation {
  op_cf : ColumnFamily; op_key : bytes; op_kind : OperationKind }.

Abbreviation WriteBatch := (list BatchOperation).

Definition batch_put (b : WriteBatch) (cf : ColumnFamily) (key value : bytes) : WriteBatch :=
  b ++ [mkBatchOperation cf key (OpPut value)].
Definition batch_delete (b : WriteBatch) (cf : ColumnFamily) (key : bytes) : WriteBatch :=
  b ++ [mkBatchOperation cf key OpDelete].
Definition batch_merge (b other : WriteBatch) : WriteBatch := b ++ other.

(** ** The interface *)

Class Storage (DB : Type) := {
  st_get : DB -> ColumnFamily -> bytes -> option bytes;
  st_put : DB -> ColumnFamily -> bytes -> bytes -> DB;
  st_delete : DB -> ColumnFamily -> bytes -> DB;
  st_write_batch : DB -> WriteBatch -> DB;
  st_iter : DB -> ColumnFamily -> list (bytes * bytes)
}.

(** [Storage::contains] and [Storage::multi_get], the provided methods. *)
Definition st_contains `{Storage DB} (s : DB) (cf : ColumnFamily) (key : bytes) : bool :=
  bool_decide (is_Some (st_get s cf key)).
Definition st_multi_get `{Storage DB} (s : DB) (cf : ColumnFamily) (keys : list bytes)
  : list (option bytes) := st_get s cf <$> keys.

(** Executing one operation of a batch. *)
Definition apply_op `{Storage DB} (s : DB) (o : BatchOperation) : DB :=
  match op_kind o with
  | OpPut v => st_put s (op_cf o) (op_key o) v
  | OpDelete => st_delete s (op_cf o) (op_key o)
  end.

(** What the clients rely on: reads see the last write, a batch has the effect
    of its operations in order, and iteration lists a family's content. *)
Class StorageLaws (DB : Type) `{Storage DB} : Prop := {
  st_get_put s cf k v cf' k' :
    st_get (st_put s cf k v) cf' k' =
    if decide (cf = cf' /\ k = k') then Some v else st_get s cf' k';
  st_get_delete s cf k cf' k' :
    st_get (st_delete s cf k) cf' k' =
    if decide (cf = cf' /\ k = k') then None else st_get s cf' k';
  st_get_batch s b cf k :
    st_get (st_write_batch s b) cf k = st_get (fold_left apply_op b s) cf k;
  st_iter_get s cf k v : (k, v) ∈ st_iter s cf <-> st_get s cf k = Some v;
  st_iter_keys s cf : NoDup (fst <$> st_iter s cf)
}.

(** The last operation of a batch on a key. *)
Fixpoint batch_last (b : WriteBatch) (cf : ColumnFamily) (k : bytes) : option OperationKind :=
  match b with
  | [] => None
  | o :: b' =>
      match batch_last b' cf k with
      | Some x => Some x
      | None => if decide (op_cf o = cf /\ op_key o = k) then Some (op_kind o) else None
      end
  end.

Definition op_result (o : option OperationKind) (old : option bytes) : option bytes :=
  match o with
  | Some (OpPut v) => Some v
  | Some OpDelete => None
  | None => old
  end.

(** ** Facts about batches *)

Lemma batch_last_untouched b cf k :
  Forall (fun o => ~ (op_cf o = cf /\ op_key o = k)) b -> batch_last b cf k = None.
Proof.
  induction 1 as [|o b Ho _ IH]; cbn [batch_last]; [done|]. rewrite IH. by rewrite decide_False.
Qed.

Lemma batch_last_app b1 b2 cf k :
  batch_last (b1 ++ b2) cf k =
  match batch_last b2 cf k with Some x => Some x | None => batch_last b1 cf k end.
Proof.
  induction b1 as [|o b1 IH]; cbn [app batch_last]; [by destruct (batch_last b2 cf k)|].
  rewrite IH. by destruct (batch_last b2 cf k).
Qed.

Lemma batch_last_delete b cf0 k0 cf k :
  batch_last (batch_delete b cf0 k0) cf k =
  if decide (cf = cf0 /\ k = k0) then Some OpDelete else batch_last b cf k.
Proof.
  unfold batch_delete. rewrite batch_last_app. cbn [batch_last op_cf op_key op_kind].
  repeat case_decide; naive_solver.
Qed.

Lemma batch_last_put b cf0 k0 v cf k :
  batch_last (batch_put b cf0 k0 v) cf k =
  if decide (cf = cf0 /\ k = k0) then Some (OpPut v) else batch_last b cf k.
Proof.
  unfold batch_put. rewrite batch_last_app. cbn [batch_last op_cf op_key op_kind].
  repeat case_decide; naive_solver.
Qed.

Lemma batch_last_other b cf k :
  Forall (fun o => op_cf o <> cf) b -> batch_last b cf k = None.
Proof.
  induction 1 as [|o b Ho _ IH]; cbn [batch_last]; [done|]. rewrite IH.
  rewrite decide_False; [done|]. naive_solver.
Qed.

Section Laws.
Context `{StorageLaws DB}.

(** Reading after a batch: the last operation on the key decides. *)
Lemma st_get_write_batch (s : DB) b cf k :
  st_get (st_write_batch s b) cf k = op_result (batch_last b cf k) (st_get s cf k).
Proof.
  rewrite st_get_batch. revert s. induction b as [|o b IH]; intros s; cbn [fold_left batch_last]; [done|].
  rewrite IH. destruct (batch_last b cf k) as [[v|]|]; [done|done|]. cbn [op_result].
  destruct o as [cf' k' []]; unfold apply_op; cbn [op_kind op_cf op_key];
    rewrite ?st_get_put, ?st_get_delete; by case_decide.
Qed.

Lemma st_get_put_other (s : DB) cf k v cf' k' :
  cf <> cf' \/ k <> k' -> st_get (st_put s cf k v) cf' k' = st_get s cf' k'.
Proof. intros. rewrite st_get_put. rewrite decide_False; [done|]. naive_solver. Qed.

(** Merging batches is executing them one after the other. *)
Lemma st_get_merge (s : DB) b1 b2 cf k :
  st_get (st_write_batch s (batch_merge b1 b2)) cf k =
  st_get (st_write_batch (st_write_batch s b1) b2) cf k.
Proof.
  unfold batch_merge. rewrite !st_get_write_batch, batch_last_app.
  by destruct (batch_last b2 cf k).
Qed.

(** ** Stores with the same content

    Two stores are equal for their clients when every read agrees. *)
Definition store_eq (s s' : DB) : Prop := forall cf k, st_get s cf k = st_get s' cf k.

#[export] Instance store_eq_equivalence : Equivalence store_eq.
Proof.
  split.
  - by intros s cf k.
  - intros s s' Hs cf k. by rewrite Hs.
  - intros s1 s2 s3 H1 H2 cf k. by rewrite H1, H2.
Qed.

#[export] Instance st_get_proper : Proper (store_eq ==> eq ==> eq ==> eq) (st_get (DB := DB)).
Proof. intros s s' Hs cf cf' <- k k' <-. apply Hs. Qed.

#[export] Instance st_put_proper :
  Proper (store_eq ==> eq ==> eq ==> eq ==> store_eq) (st_put (DB := DB)).
Proof.
  intros s s' Hs cf cf' <- k k' <- v v' <- cf2 k2. rewrite !st_get_put. by case_decide.
Qed.

#[export] Instance st_write_batch_proper :
  Proper (store_eq ==> eq ==> store_eq) (st_write_batch (DB := DB)).
Proof. intros s s' Hs b b' <- cf k. by rewrite !st_get_write_batch, Hs. Qed.

Lemma store_eq_merge (s : DB) b1 b2 :
  store_eq (st_write_batch s (b1 ++ b2)) (st_write_batch (st_write_batch s b1) b2).
Proof. intros cf k. apply st_get_merge. Qed.
End Laws.

(** Reads after puts and batches with known keys: [store_reads] evaluates them,
    deciding each comparison of keys. *)
Ltac decide_keys :=
  repeat first
    [ rewrite decide_True by done
    | rewrite decide_False by
        (let Hk := fresh "Hk" in
         intros [? Hk]; first [ congruence | vm_compute in Hk; discriminate Hk | naive_solver ]) ].
Ltac store_reads :=
  rewrite ?st_get_write_batch, ?batch_last_put, ?batch_last_delete, ?st_get_put, ?st_get_delete;
  decide_keys; cbn [batch_last op_result].

(** ** An in-memory backend *)

Module Mem.

Definition cf_code (cf : ColumnFamily) : nat :=
  match cf with
  | Headers => 0 | CFBlockTransactions => 1 | Extensions => 2 | AdProofs => 3
  | Utxo => 4 | UtxoSnapshots => 5 | HeaderChain => 6 | TxIndex => 7
  | CFUndoData => 8 | ErgoTreeIndex => 9 | TokenIndex => 10
  | CumulativeDifficulty => 11 | Metadata => 12 | ExtraIndex => 13
  | BoxIndex => 14 | TxNumericIndex => 15 | Scans => 16 | ScanBoxes => 17
  | CFDefault => 18
  end%nat.

#[export] Instance ColumnFamily_countable : Countable ColumnFamily.
Proof.
  refine (inj_countable cf_code (fun n => cf_all !! n) _). by intros [].
Defined.

Definition t : Type := gmap (ColumnFamily * bytes) bytes.

Definition mem_iter (s : t) (cf : ColumnFamily) : list (bytes * bytes) :=
  omap (fun '((cf', k), v) => if decide (cf' = cf) then Some (k, v) else None) (map_to_list s).

#[export] Instance mem_storage : Storage t := {
  st_get s cf k := (s : gmap _ _) !! (cf, k);
  st_put s cf k v := <[(cf, k) := v]> (s : gmap _ _);
  st_delete s cf k := delete (cf, k) (s : gmap _ _);
  st_write_batch s b := fold_left (fun s o =>
    match op_kind o with
    | OpPut v => <[(op_cf o, op_key o) := v]> s
    | OpDelete => delete (op_cf o, op_key o) s
    end) b (s : gmap _ _);
  st_iter := mem_iter
}.

Lemma mem_iter_elem (s : t) cf k v :
  (k, v) ∈ mem_iter s cf <-> (s : gmap _ _) !! (cf, k) = Some v.
Proof.
  unfold mem_iter. rewrite list_elem_of_omap. split.
  - intros ([[cf' k'] v'] & Hin & Heq). case_decide; simplify_eq.
    by apply elem_of_map_to_list in Hin.
  - intros Hs. exists ((cf, k), v). split; [by apply elem_of_map_to_list|].
    by rewrite decide_True.
Qed.

Lemma family_nodup (cf : ColumnFamily) (l : list (ColumnFamily * bytes * bytes)) :
  NoDup l.*1 ->
  NoDup (fst <$> omap (fun '((cf', k), v) => if decide (cf' = cf) then Some (k, v) else None) l).
Proof.
  induction l as [|[[cf' k'] v'] l IH]; cbn [fmap list_fmap omap list_omap fst]; [constructor|].
  intros [Hnin Hnd]%NoDup_cons. case_decide as Hc; [|by apply IH].
  cbn [fmap list_fmap fst]. apply NoDup_cons. split; [|by apply IH]. intros Hin. apply Hnin. subst cf'.
  apply list_elem_of_fmap in Hin as ([k2 v2] & -> & Hin).
  apply list_elem_of_omap in Hin as ([[cf3 k3] v3] & Hin & Heq). case_decide; simplify_eq.
  apply list_elem_of_fmap. by exists ((cf, k2), v2).
Qed.

Lemma mem_iter_nodup (s : t) cf : NoDup (fst <$> mem_iter s cf).
Proof. apply family_nodup, NoDup_fst_map_to_list. Qed.

#[export] Instance mem_laws : StorageLaws t.
Proof.
  constructor; cbn [st_get st_put st_delete st_write_batch st_iter mem_storage].
  - intros s cf k v cf' k'. rewrite lookup_insert. by repeat case_decide; naive_solver.
  - intros s cf k cf' k'. rewrite lookup_delete. by repeat case_decide; naive_solver.
  - intros s b cf k. f_equal.
  - intros. apply mem_iter_elem.
  - intros. apply mem_iter_nodup.
Qed.

Definition empty : t := (∅ : gmap _ _).

End Mem.
