(* ===== verification/Database.v ===== *)
(** * The database (crates/ergo-storage/src/database.rs)

    [Database] wraps a RocksDB handle behind the [Storage] trait.  RocksDB is
    not part of the repository: [RocksDb] has the calls the code makes and
    [RocksDbLaws] what its documentation says of them, a crash included.  A
    failed call leaves the handle as it was.  Logging, memory statistics and
    the block cache's accounting are left out. *)

From S2P Require Export Storage.

Local Open Scope Z_scope.

(** ** The options given to RocksDB *)

Record DbOptions := mkDbOptions {
  create_if_missing : bool; create_missing_column_families : bool;
  max_open_files : Z; keep_log_file_num : Z; max_total_wal_size : Z;
  write_buffer_size : Z; max_write_buffer_number : Z; min_write_buffer_number_to_merge : Z;
  level_zero_file_num_compaction_trigger : Z; max_background_jobs : Z;
  point_lookup_cache_mb : Z; max_bytes_for_level_multiplier : Z; manual_wal_flush : bool }.

Record CfOptions := mkCfOptions {
  cf_write_buffer_size : Z; cf_shared_cache : Z; cf_cache_index_and_filter_blocks : bool;
  cf_pin_l0_filter_and_index_blocks : bool; cf_bloom_bits_per_key : Z; cf_block_size : Z }.

Definition MIB : Z := 1024 * 1024.
Definition DEFAULT_BLOCK_CACHE_SIZE : Z := 512 * MIB.
Definition READONLY_BLOCK_CACHE_SIZE : Z := 16 * MIB.

Definition open_options : DbOptions :=
  mkDbOptions true true 256 1 (64 * MIB) (64 * MIB) 4 2 8 4 512 20 true.
Definition family_options : CfOptions :=
  mkCfOptions (32 * MIB) DEFAULT_BLOCK_CACHE_SIZE true true 10 (16 * 1024).

(** [rocksdb::WriteOptions]. *)
Record WriteOptions := mkWriteOptions { wo_sync : bool; wo_disable_wal : bool }.

(** An operation of [rocksdb::WriteBatch]: a family, a key, and a value to put
    or nothing to delete. *)
Definition RocksOp : Type := string * bytes * option bytes.

(** ** RocksDB *)

Class RocksDb (RDB E : Type) := {
  rk_open_cf_descriptors : DbOptions -> list (string * CfOptions) -> RDB -> result RDB E;
  rk_open_cf_for_read_only : list string -> RDB -> result RDB E;
  rk_cf_handle : RDB -> string -> bool;
  rk_get_cf : RDB -> string -> bytes -> result (option bytes) E;
  rk_put_cf_opt : RDB -> string -> bytes -> bytes -> WriteOptions -> result RDB E;
  rk_delete_cf_opt : RDB -> string -> bytes -> WriteOptions -> result RDB E;
  rk_write_opt : RDB -> list RocksOp -> WriteOptions -> result RDB E;
  rk_iterator_cf : RDB -> string -> list (result (bytes * bytes) E);
  rk_multi_get_cf : RDB -> list (string * bytes) -> list (result (option bytes) E);
  rk_flush_cf : RDB -> string -> result RDB E;
  rk_compact_range_cf : RDB -> string -> RDB
}.

Inductive StorageError (E : Type) :=
  | ColumnFamilyNotFound (name : string)
  | SE_RocksDb (e : E).
Arguments ColumnFamilyNotFound {E} name.
Arguments SE_RocksDb {E} e.

Section Database.
Context {RDB E : Type} `{RocksDb RDB E}.

Record Database := mkDatabase {
  db_handle : RDB; db_block_cache_capacity : Z; db_sync_mode : bool; db_batch_write_count : Z }.

Definition put_handle (db : Database) (h : RDB) : Database :=
  mkDatabase h (db_block_cache_capacity db) (db_sync_mode db) (db_batch_write_count db).

Definition rocks {A} (r : result A E) : result A (StorageError E) :=
  match r with Ok a => Ok a | Err e => Err (SE_RocksDb e) end.

(** [Database::open] and [open_read_only]. *)
Definition database_open (disk : RDB) : result Database (StorageError E) :=
  let cf_descriptors := (fun cf => (cf_name cf, family_options)) <$> cf_all in
  let? h := rocks (rk_open_cf_descriptors open_options cf_descriptors disk) in
  Ok (mkDatabase h DEFAULT_BLOCK_CACHE_SIZE false 0).

Definition open_read_only (disk : RDB) : result Database (StorageError E) :=
  let? h := rocks (rk_open_cf_for_read_only (cf_name <$> cf_all) disk) in
  Ok (mkDatabase h READONLY_BLOCK_CACHE_SIZE false 0).

(** [db.cf_handle(cf.name()).ok_or_else(..)]. *)
Definition cf_handle (db : Database) (cf : ColumnFamily) : result unit (StorageError E) :=
  if rk_cf_handle (db_handle db) (cf_name cf) then Ok tt else Err (ColumnFamilyNotFound (cf_name cf)).

Definition db_get (db : Database) (cf : ColumnFamily) (key : bytes) : result (option bytes) (StorageError E) :=
  let? _ := cf_handle db cf in rocks (rk_get_cf (db_handle db) (cf_name cf) key).

Definition write_options (db : Database) : WriteOptions := mkWriteOptions false (db_sync_mode db).

(** An operation that writes returns the database it leaves. *)
Definition written (db : Database) (r : result Database (StorageError E))
    : result unit (StorageError E) * Database :=
  match r with Ok db' => (Ok tt, db') | Err e => (Err e, db) end.

Definition db_put (db : Database) (cf : ColumnFamily) (key value : bytes) : result unit (StorageError E) * Database :=
  written db (let? _ := cf_handle db cf in
              let? h := rocks (rk_put_cf_opt (db_handle db) (cf_name cf) key value (write_options db)) in
              Ok (put_handle db h)).

Definition db_delete (db : Database) (cf : ColumnFamily) (key : bytes) : result unit (StorageError E) * Database :=
  written db (let? _ := cf_handle db cf in
              let? h := rocks (rk_delete_cf_opt (db_handle db) (cf_name cf) key (write_options db)) in
              Ok (put_handle db h)).

(** The loop that fills the RocksDB batch stops at the first family without a
    handle. *)
Definition rocks_batch (db : Database) (batch : WriteBatch) : result (list RocksOp) (StorageError E) :=
  rmap (fun op =>
    let? _ := cf_handle db (op_cf op) in
    Ok (cf_name (op_cf op), op_key op, match op_kind op with OpPut v => Some v | OpDelete => None end)) batch.

Definition db_write_batch (db : Database) (batch : WriteBatch) : result unit (StorageError E) * Database :=
  match rocks_batch db batch with
  | Err e => (Err e, db)
  | Ok ops =>
      let counted := mkDatabase (db_handle db) (db_block_cache_capacity db) (db_sync_mode db)
                       (u64 (db_batch_write_count db + 1)) in
      written counted (let? h := rocks (rk_write_opt (db_handle db) ops (write_options db)) in
                       Ok (put_handle counted h))
  end.

(** [filter_map(|r| r.ok())]: an entry that cannot be read is left out. *)
Definition db_iter (db : Database) (cf : ColumnFamily) : result (list (bytes * bytes)) (StorageError E) :=
  let? _ := cf_handle db cf in
  Ok (omap (fun r => match r with Ok kv => Some kv | Err _ => None end) (rk_iterator_cf (db_handle db) (cf_name cf))).

Definition db_multi_get (db : Database) (cf : ColumnFamily) (keys : list bytes)
    : result (list (option bytes)) (StorageError E) :=
  match keys with
  | [] => Ok []
  | _ =>
      let? _ := cf_handle db cf in
      rmap rocks (rk_multi_get_cf (db_handle db) ((fun k => (cf_name cf, k)) <$> keys))
  end.

(** [contains], the provided method of the trait. *)
Definition db_contains (db : Database) (cf : ColumnFamily) (key : bytes) : result bool (StorageError E) :=
  let? o := db_get db cf key in Ok (bool_decide (is_Some o)).

(** [flush] and [compact]: every family that has a handle, until one fails. *)
Fixpoint flush_families (cfs : list ColumnFamily) (db : Database) : result unit (StorageError E) * Database :=
  match cfs with
  | [] => (Ok tt, db)
  | cf :: rest =>
      if rk_cf_handle (db_handle db) (cf_name cf) then
        match rk_flush_cf (db_handle db) (cf_name cf) with
        | Ok h => flush_families rest (put_handle db h)
        | Err e => (Err (SE_RocksDb e), db)
        end
      else flush_families rest db
  end.

Definition database_flush : Database -> result unit (StorageError E) * Database := flush_families cf_all.

Definition compact_families (cfs : list ColumnFamily) (db : Database) : Database :=
  fold_left (fun db cf =>
    if rk_cf_handle (db_handle db) (cf_name cf)
    then put_handle db (rk_compact_range_cf (db_handle db) (cf_name cf)) else db) cfs db.

Definition database_compact : Database -> Database := compact_families cf_all.

Definition db_set_sync_mode (enabled : bool) (db : Database) : Database :=
  mkDatabase (db_handle db) (db_block_cache_capacity db) enabled (db_batch_write_count db).

End Database.
Arguments Database RDB : clear implicits.

(** ** What the documentation of RocksDB says

    A successful write changes what is read, a successful read shows it, and
    [rk_crash h h'] says that a reopening after a crash of [h] can find [h'].
    Only a flush promises that a family survives one: with
    [manual_wal_flush] the log, too, stays in memory until it is flushed. *)

Definition rocks_op (s : gmap (string * bytes) bytes) (op : RocksOp) : gmap (string * bytes) bytes :=
  let '(n, k, v) := op in partial_alter (fun _ => v) (n, k) s.

Class RocksDbLaws (RDB E : Type) `{RocksDb RDB E} := {
  rk_content : RDB -> gmap (string * bytes) bytes;
  rk_crash : RDB -> RDB -> Prop;
  rk_open_content o cfs disk h : rk_open_cf_descriptors o cfs disk = Ok h ->
    rk_content h = rk_content disk;
  rk_open_handles o cfs disk h n : rk_open_cf_descriptors o cfs disk = Ok h ->
    create_missing_column_families o = true -> n ∈ cfs.*1 -> rk_cf_handle h n = true;
  rk_get_content h n k o : rk_get_cf h n k = Ok o -> o = rk_content h !! (n, k);
  rk_put_content h n k v w h' : rk_put_cf_opt h n k v w = Ok h' ->
    rk_content h' = <[(n, k) := v]> (rk_content h) /\ rk_cf_handle h' = rk_cf_handle h;
  rk_delete_content h n k w h' : rk_delete_cf_opt h n k w = Ok h' ->
    rk_content h' = delete (n, k) (rk_content h) /\ rk_cf_handle h' = rk_cf_handle h;
  rk_write_content h ops w h' : rk_write_opt h ops w = Ok h' ->
    rk_content h' = fold_left rocks_op ops (rk_content h) /\ rk_cf_handle h' = rk_cf_handle h;
  rk_multi_get_content h nks : Forall2 (fun nk r => forall o, r = Ok o -> o = rk_content h !! nk)
    nks (rk_multi_get_cf h nks);
  rk_iterator_content h n k v : Ok (k, v) ∈ rk_iterator_cf h n -> rk_content h !! (n, k) = Some v;
  rk_iterator_keys h n :
    NoDup (omap (fun r => match r with Ok kv => Some kv.1 | Err _ => None end) (rk_iterator_cf h n));
  rk_iterator_complete h n k v : Forall (fun r => exists kv, r = Ok kv) (rk_iterator_cf h n) ->
    rk_content h !! (n, k) = Some v -> Ok (k, v) ∈ rk_iterator_cf h n;
  rk_flush_content h n h' : rk_flush_cf h n = Ok h' ->
    rk_content h' = rk_content h /\ rk_cf_handle h' = rk_cf_handle h;
  rk_flush_durable h n h' h'' k : rk_flush_cf h n = Ok h' -> rk_crash h' h'' ->
    rk_content h'' !! (n, k) = rk_content h' !! (n, k);
  rk_flush_keeps h n h' m : rk_flush_cf h n = Ok h' ->
    (forall h'' k, rk_crash h h'' -> rk_content h'' !! (m, k) = rk_content h !! (m, k)) ->
    forall h'' k, rk_crash h' h'' -> rk_content h'' !! (m, k) = rk_content h' !! (m, k);
  rk_compact_content h n : rk_content (rk_compact_range_cf h n) = rk_content h /\
    rk_cf_handle (rk_compact_range_cf h n) = rk_cf_handle h
}.

(** ** Calls of the trait, on the database and on a reference store *)

Inductive StorageCall :=
  | SC_Get (cf : ColumnFamily) (key : bytes)
  | SC_Contains (cf : ColumnFamily) (key : bytes)
  | SC_MultiGet (cf : ColumnFamily) (keys : list bytes)
  | SC_Iter (cf : ColumnFamily)
  | SC_Put (cf : ColumnFamily) (key value : bytes)
  | SC_Delete (cf : ColumnFamily) (key : bytes)
  | SC_WriteBatch (batch : WriteBatch)
  | SC_Flush
  | SC_Compact
  | SC_SetSyncMode (enabled : bool).

Inductive StorageReply :=
  | SR_Done
  | SR_Value (o : option bytes)
  | SR_Found (b : bool)
  | SR_Values (os : list (option bytes))
  | SR_Entries (l : list (bytes * bytes)).

Section Calls.
Context {RDB E : Type} `{RocksDb RDB E}.

Definition read_reply {A} (f : A -> StorageReply) (r : result A (StorageError E)) (db : Database RDB)
    : result StorageReply (StorageError E) * Database RDB :=
  (match r with Ok a => Ok (f a) | Err e => Err e end, db).

Definition write_reply (r : result unit (StorageError E) * Database RDB)
    : result StorageReply (StorageError E) * Database RDB := read_reply (fun _ => SR_Done) r.1 r.2.

Definition db_call (c : StorageCall) (db : Database RDB) : result StorageReply (StorageError E) * Database RDB :=
  match c with
  | SC_Get cf k => read_reply SR_Value (db_get db cf k) db
  | SC_Contains cf k => read_reply SR_Found (db_contains db cf k) db
  | SC_MultiGet cf ks => read_reply SR_Values (db_multi_get db cf ks) db
  | SC_Iter cf => read_reply SR_Entries (db_iter db cf) db
  | SC_Put cf k v => write_reply (db_put db cf k v)
  | SC_Delete cf k => write_reply (db_delete db cf k)
  | SC_WriteBatch b => write_reply (db_write_batch db b)
  | SC_Flush => write_reply (database_flush db)
  | SC_Compact => (Ok SR_Done, database_compact db)
  | SC_SetSyncMode b => (Ok SR_Done, db_set_sync_mode b db)
  end.

(** A run: the calls that succeeded, each with the database it was made on and
    its reply, and the database left. *)
Fixpoint db_run (calls : list StorageCall) (db : Database RDB)
    : list (Database RDB * StorageCall * StorageReply) * Database RDB :=
  match calls with
  | [] => ([], db)
  | c :: rest =>
      let '(r, db1) := db_call c db in
      let '(answered, db2) := db_run rest db1 in
      (match r with Ok v => (db, c, v) :: answered | Err _ => answered end, db2)
  end.
End Calls.

Section Reference.
Context {DB : Type} `{Storage DB}.

Definition st_call (c : StorageCall) (s : DB) : StorageReply * DB :=
  match c with
  | SC_Get cf k => (SR_Value (st_get s cf k), s)
  | SC_Contains cf k => (SR_Found (st_contains s cf k), s)
  | SC_MultiGet cf ks => (SR_Values (st_multi_get s cf ks), s)
  | SC_Iter cf => (SR_Entries (st_iter s cf), s)
  | SC_Put cf k v => (SR_Done, st_put s cf k v)
  | SC_Delete cf k => (SR_Done, st_delete s cf k)
  | SC_WriteBatch b => (SR_Done, st_write_batch s b)
  | SC_Flush | SC_Compact | SC_SetSyncMode _ => (SR_Done, s)
  end.

Fixpoint st_run (calls : list StorageCall) (s : DB) : list StorageReply * DB :=
  match calls with
  | [] => ([], s)
  | c :: rest => let '(v, s1) := st_call c s in let '(vs, s2) := st_run rest s1 in (v :: vs, s2)
  end.
End Reference.

#[global] Strategy 100 [cf_all flush_families compact_families].

(** ** Facts *)

Lemma cf_name_inj cf cf' : cf_name cf = cf_name cf' -> cf = cf'.
Proof. by destruct cf, cf'. Qed.

Lemma cf_all_elem cf : cf ∈ cf_all.
Proof. destruct cf; unfold cf_all; set_solver. Qed.

Section Facts.
Context {RDB E : Type} `{RocksDbLaws RDB E}.
Context {DB : Type} `{StorageLaws DB}.

Abbreviation database := (Database RDB).
Definition content (db : database) : gmap (string * bytes) bytes := rk_content (db_handle db).

(** The entries an iteration meets that RocksDB can read, and whether it can
    read all of them. *)
Definition readable (db : database) (cf : ColumnFamily) (kv : bytes * bytes) : Prop :=
  Ok kv ∈ rk_iterator_cf (db_handle db) (cf_name cf).
Definition all_readable (db : database) (cf : ColumnFamily) : Prop :=
  Forall (fun r => exists kv, r = Ok kv) (rk_iterator_cf (db_handle db) (cf_name cf)).

(** The reply of the database to a call and the reference store's.  An
    iteration gives the readable entries, each once: all the entries of the
    store when every one can be read. *)
Definition reply_agrees (db : database) (c : StorageCall) (r r' : StorageReply) : Prop :=
  match c, r, r' with
  | SC_Iter cf, SR_Entries l, SR_Entries l' =>
      (forall kv, kv ∈ l <-> readable db cf kv) /\ l ⊆+ l' /\ (all_readable db cf -> l ≡ₚ l')
  | _, _, _ => r = r'
  end.

(** The database holds what the reference store holds. *)
Definition represents (db : database) (s : DB) : Prop :=
  forall cf k, content db !! (cf_name cf, k) = st_get s cf k.

Lemma rocks_ok {A} (r : result A E) a : rocks r = Ok a -> r = Ok a.
Proof. destruct r; [|done]. by intros [= ->]. Qed.

Lemma written_cases (db db' : database) (r : result database (StorageError E)) o :
  written db r = (o, db') -> (o = Ok tt /\ r = Ok db') \/ (exists e, o = Err e /\ db' = db).
Proof. destruct r as [d|e]; intros [= <- <-]; [by left|right; by exists e]. Qed.

Lemma handle_first {A} (db : database) cf (f : result A (StorageError E)) a :
  (let? _ := cf_handle db cf in f) = Ok a -> f = Ok a.
Proof. destruct (cf_handle db cf); [done|discriminate]. Qed.

(** Writing one key. *)
Lemma represents_key (db db' : database) (s s' : DB) (cf : ColumnFamily) (k : bytes) (v : option bytes) :
  represents db s -> content db' = partial_alter (fun _ => v) (cf_name cf, k) (content db) ->
  (forall cf' k', st_get s' cf' k' = if decide (cf = cf' /\ k = k') then v else st_get s cf' k') ->
  represents db' s'.
Proof.
  intros Hr Hc Hs cf' k'. rewrite Hc, Hs. case_decide as Hk.
  - destruct Hk as [-> ->]. by rewrite lookup_partial_alter_eq.
  - rewrite lookup_partial_alter_ne; [apply Hr|]. intros [= Hn ->]. apply cf_name_inj in Hn. naive_solver.
Qed.

(** Writing a batch. *)
Lemma represents_ops (db : database) (batch : WriteBatch) (ops : list RocksOp) (c : gmap (string * bytes) bytes) (s : DB) :
  rocks_batch db batch = Ok ops -> (forall cf k, c !! (cf_name cf, k) = st_get s cf k) ->
  forall cf k, fold_left rocks_op ops c !! (cf_name cf, k) = st_get (st_write_batch s batch) cf k.
Proof.
  intros Hops Hr cf k. rewrite st_get_batch. revert ops c s Hops Hr.
  induction batch as [|op batch IH]; intros ops c s; cbn [rocks_batch rmap].
  { intros [= <-] Hr. apply Hr. }
  intros (o & Ho & (os & Hos & [= <-])%rbind_ok)%rbind_ok Hr. cbn [fold_left]. apply (IH os); [exact Hos|].
  apply handle_first in Ho. injection Ho as <-. intros cf' k'. unfold apply_op, rocks_op.
  destruct (op_kind op) as [v|]; rewrite ?st_get_put, ?st_get_delete; case_decide as Hk.
  1, 3: destruct Hk as [<- <-]; by rewrite lookup_partial_alter_eq.
  all: rewrite lookup_partial_alter_ne; [apply Hr|]; intros [= Hn Hkk]; apply cf_name_inj in Hn; naive_solver.
Qed.

Lemma flush_families_content cfs (db db' : database) r :
  flush_families cfs db = (r, db') -> content db' = content db.
Proof.
  revert db. induction cfs as [|cf cfs IH]; intros db; cbn [flush_families]; [by intros [= _ <-]|].
  destruct (rk_cf_handle _ _); [|apply IH]. destruct (rk_flush_cf _ _) as [h|e] eqn:Hf; [|by intros [= _ <-]].
  intros ->%IH. by apply rk_flush_content in Hf as [Hc _].
Qed.

Lemma compact_families_same cfs (db : database) :
  content (compact_families cfs db) = content db /\
  rk_cf_handle (db_handle (compact_families cfs db)) = rk_cf_handle (db_handle db).
Proof.
  unfold compact_families. revert db. induction cfs as [|cf l IH]; intros db; cbn [fold_left]; [done|].
  destruct (IH (if rk_cf_handle (db_handle db) (cf_name cf)
    then put_handle db (rk_compact_range_cf (db_handle db) (cf_name cf)) else db)) as [-> ->].
  case_match; [|done]. apply rk_compact_content.
Qed.

Lemma database_compact_same (db : database) :
  content (database_compact db) = content db /\
  rk_cf_handle (db_handle (database_compact db)) = rk_cf_handle (db_handle db).
Proof. unfold database_compact. apply compact_families_same. Qed.

Lemma db_iter_readable (db : database) cf l :
  db_iter db cf = Ok l -> NoDup l /\ forall kv, kv ∈ l <-> readable db cf kv.
Proof.
  intros Hl%handle_first. injection Hl as <-. split.
  - apply (NoDup_fmap_1 fst).
    pose proof (rk_iterator_keys (db_handle db) (cf_name cf)) as Hn.
    clear -Hn. induction (rk_iterator_cf _ _) as [|[kv|e] l IH]; cbn in *; [constructor| |by apply IH].
    apply NoDup_cons in Hn as [Hnin Hn]. apply NoDup_cons. split; [|by apply IH].
    intros ([k v] & Hk & Hin)%list_elem_of_fmap. apply Hnin.
    apply list_elem_of_omap in Hin as ([kv'|e] & Hin & Heq); [|done]. injection Heq as ->.
    apply list_elem_of_omap. exists (Ok (k, v)). by rewrite <- Hk.
  - intros kv. unfold readable. rewrite list_elem_of_omap. split.
    + intros ([kv'|e] & Hin & Heq); [|done]. by injection Heq as ->.
    + intros Hin. by exists (Ok kv).
Qed.

Lemma iter_agrees (db : database) (s : DB) cf l :
  represents db s -> db_iter db cf = Ok l ->
  (forall kv, kv ∈ l <-> readable db cf kv) /\ l ⊆+ st_iter s cf /\ (all_readable db cf -> l ≡ₚ st_iter s cf).
Proof.
  intros Hr Hl. destruct (db_iter_readable _ _ _ Hl) as [Hnd Hin]. split; [exact Hin|].
  assert (forall kv, kv ∈ l -> kv ∈ st_iter s cf) as Hsub.
  { intros [k v] Hk%Hin%rk_iterator_content. apply st_iter_get. by rewrite <- (Hr cf k). }
  split; [by apply NoDup_submseteq|]. intros Hall. apply NoDup_Permutation; [exact Hnd| |].
  - apply (NoDup_fmap_1 fst), st_iter_keys.
  - intros [k v]. split; [apply Hsub|]. intros Hk%st_iter_get. apply Hin. unfold readable.
    apply rk_iterator_complete; [exact Hall|]. by rewrite <- Hk, <- (Hr cf k).
Qed.

Lemma multi_get_exact (db : database) (s : DB) cf ks os :
  represents db s -> db_multi_get db cf ks = Ok os -> os = st_multi_get s cf ks.
Proof.
  intros Hr Hm. assert (ks = [] /\ os = [] \/
    rmap rocks (rk_multi_get_cf (db_handle db) ((fun k => (cf_name cf, k)) <$> ks)) = Ok os) as [[-> ->]|Hok].
  { destruct ks; [left; by injection Hm as <-|right; by apply handle_first in Hm]. }
  { done. }
  clear Hm. unfold st_multi_get. pose proof (rk_multi_get_content (db_handle db) ((fun k => (cf_name cf, k)) <$> ks)) as Hf.
  revert os Hok Hf. generalize (rk_multi_get_cf (db_handle db) ((fun k => (cf_name cf, k)) <$> ks)) as rs.
  induction ks as [|k ks IH]; intros rs os Hok Hf; cbn in *.
  - apply Forall2_nil_inv_l in Hf as ->. by injection Hok as <-.
  - apply Forall2_cons_inv_l in Hf as (r & rs' & Hr1 & Hf & ->). cbn in Hok.
    apply rbind_ok in Hok as (o & Ho%rocks_ok & (os' & Hos & [= <-])%rbind_ok).
    rewrite (Hr1 _ Ho), <- (IH rs' os' Hos Hf). f_equal. apply Hr.
Qed.

(** A call that succeeds does what it does to the reference store; a call that
    fails does nothing to the content. *)
Lemma call_simulated c (db db' : database) (s : DB) r :
  represents db s -> db_call c db = (r, db') ->
  match r with
  | Ok v => reply_agrees db c v (st_call c s).1 /\ represents db' (st_call c s).2
  | Err _ => represents db' s
  end.
Proof.
  intros Hr. destruct c as [cf k|cf k|cf ks|cf|cf k v|cf k|b| | |m];
    cbn [db_call st_call]; unfold write_reply, read_reply.
  - destruct (db_get db cf k) as [o|e] eqn:Ho; intros [= <- <-]; [|done]. split; [|done].
    apply handle_first, rocks_ok, rk_get_content in Ho. cbn. f_equal. by rewrite Ho, <- (Hr cf k).
  - unfold db_contains. destruct (db_get db cf k) as [o|e] eqn:Ho; intros [= <- <-]; [|done]. split; [|done].
    apply handle_first, rocks_ok, rk_get_content in Ho. cbn. unfold st_contains. by rewrite Ho, <- (Hr cf k).
  - destruct (db_multi_get db cf ks) as [os|e] eqn:Ho; intros [= <- <-]; [|done]. split; [|done].
    cbn. f_equal. by apply (multi_get_exact db).
  - destruct (db_iter db cf) as [l|e] eqn:Ho; intros [= <- <-]; [|done]. split; [|done].
    by apply (iter_agrees db).
  - destruct (db_put db cf k v) as [o d] eqn:Hw. cbn. intros [= <- <-]. unfold db_put in Hw.
    apply written_cases in Hw as [[-> Hw]|(e & -> & ->)]; [|done]. split; [done|].
    apply handle_first, rbind_ok in Hw as (h & Hh%rocks_ok & [= <-]). apply rk_put_content in Hh as [Hc _].
    eapply represents_key; [exact Hr|exact Hc|]. intros. apply st_get_put.
  - destruct (db_delete db cf k) as [o d] eqn:Hw. cbn. intros [= <- <-]. unfold db_delete in Hw.
    apply written_cases in Hw as [[-> Hw]|(e & -> & ->)]; [|done]. split; [done|].
    apply handle_first, rbind_ok in Hw as (h & Hh%rocks_ok & [= <-]). apply rk_delete_content in Hh as [Hc _].
    eapply represents_key; [exact Hr|exact Hc|]. intros. apply st_get_delete.
  - destruct (db_write_batch db b) as [o d] eqn:Hw. cbn. intros [= <- <-]. unfold db_write_batch in Hw.
    destruct (rocks_batch db b) as [ops|e] eqn:Hb; [|by injection Hw as <- <-].
    apply written_cases in Hw as [[-> Hw]|(e & -> & ->)]; [|done]. split; [done|].
    apply rbind_ok in Hw as (h & Hh%rocks_ok & [= <-]). apply rk_write_content in Hh as [Hc _].
    intros cf k. unfold content. cbn [db_handle put_handle]. rewrite Hc. by apply (represents_ops db).
  - destruct (database_flush db) as [o d] eqn:Hw. cbn. intros [= <- <-].
    unfold database_flush in Hw. apply flush_families_content in Hw. assert (represents d s) by (intros cf k; by rewrite Hw).
    by destruct o.
  - intros [= <- <-]. split; [done|]. intros cf k. by rewrite (proj1 (database_compact_same db)).
  - by intros [= <- <-].
Qed.

(** A write leaves every family its handle. *)
Lemma flush_families_handles cfs (db : database) :
  rk_cf_handle (db_handle (flush_families cfs db).2) = rk_cf_handle (db_handle db).
Proof.
  revert db. induction cfs as [|cf cfs IH]; intros db; cbn [flush_families]; [done|].
  destruct (rk_cf_handle _ _); [|apply IH]. destruct (rk_flush_cf _ _) as [h|e] eqn:Hf; [|done].
  rewrite IH. by apply rk_flush_content in Hf as [_ ?].
Qed.

Lemma database_flush_handles (db : database) :
  rk_cf_handle (db_handle (database_flush db).2) = rk_cf_handle (db_handle db).
Proof. unfold database_flush. apply flush_families_handles. Qed.

Lemma call_keeps_handles c (db db' : database) r :
  db_call c db = (r, db') -> rk_cf_handle (db_handle db') = rk_cf_handle (db_handle db).
Proof.
  destruct c as [cf k|cf k|cf ks|cf|cf k v|cf k|b| | |m]; cbn [db_call]; unfold write_reply, read_reply;
    try by intros [= _ <-].
  - destruct (db_put db cf k v) as [o d] eqn:Hw. cbn. intros [= _ <-]. unfold db_put in Hw.
    apply written_cases in Hw as [[-> Hw]|(e & -> & ->)]; [|done].
    apply handle_first, rbind_ok in Hw as (h & Hh%rocks_ok & [= <-]). by apply rk_put_content in Hh as [_ ?].
  - destruct (db_delete db cf k) as [o d] eqn:Hw. cbn. intros [= _ <-]. unfold db_delete in Hw.
    apply written_cases in Hw as [[-> Hw]|(e & -> & ->)]; [|done].
    apply handle_first, rbind_ok in Hw as (h & Hh%rocks_ok & [= <-]). by apply rk_delete_content in Hh as [_ ?].
  - destruct (db_write_batch db b) as [o d] eqn:Hw. cbn. intros [= _ <-]. unfold db_write_batch in Hw.
    destruct (rocks_batch db b) as [ops|e]; [|by injection Hw as <- <-].
    apply written_cases in Hw as [[-> Hw]|(e & -> & ->)]; [|done].
    apply rbind_ok in Hw as (h & Hh%rocks_ok & [= <-]). by apply rk_write_content in Hh as [_ ?].
  - destruct (database_flush db) as [o d] eqn:Hw. cbn. intros [= _ <-].
    pose proof (database_flush_handles db) as Hf. by rewrite Hw in Hf.
  - intros [= _ <-]. apply database_compact_same.
Qed.

Lemma flush_families_durable cfs (db db' : database) n :
  flush_families cfs db = (Ok tt, db') -> rk_cf_handle (db_handle db) n = true ->
  n ∈ cf_name <$> cfs \/ (forall h k, rk_crash (db_handle db) h -> rk_content h !! (n, k) = content db !! (n, k)) ->
  forall h k, rk_crash (db_handle db') h -> rk_content h !! (n, k) = content db' !! (n, k).
Proof.
  revert db. induction cfs as [|cf cfs IH]; intros db; cbn [flush_families fmap list_fmap].
  { intros [= <-] _ [Hin|Hd]; [by apply not_elem_of_nil in Hin|exact Hd]. }
  destruct (rk_cf_handle _ (cf_name cf)) eqn:Hh.
  - destruct (rk_flush_cf _ _) as [h|e] eqn:Hf; [|done]. intros Hok Hn Hd. eapply IH; [exact Hok| |].
    + apply rk_flush_content in Hf as [_ Hf]. cbn. by rewrite Hf.
    + destruct Hd as [[->|Hin]%elem_of_cons|Hd]; [right|by left|right]; intros h' k Hc.
      * by eapply rk_flush_durable.
      * by eapply rk_flush_keeps.
  - intros Hok Hn Hd. eapply IH; [exact Hok|exact Hn|].
    destruct Hd as [[->|Hin]%elem_of_cons|Hd]; [congruence|by left|by right].
Qed.

Lemma open_represents disk (db : database) (s : DB) :
  database_open disk = Ok db -> (forall cf k, rk_content disk !! (cf_name cf, k) = st_get s cf k) ->
  represents db s /\ forall cf, rk_cf_handle (db_handle db) (cf_name cf) = true.
Proof.
  unfold database_open. intros (h & Hh%rocks_ok & [= <-])%rbind_ok Hs. split.
  - intros cf k. unfold content. cbn. by rewrite (rk_open_content _ _ _ _ Hh).
  - intros cf. cbn. eapply rk_open_handles; [exact Hh|done|].
    rewrite <- list_fmap_compose. apply (list_elem_of_fmap_2 cf_name), cf_all_elem.
Qed.

(** ** What the database promises *)

(** C18: A run of calls on an opened database is a run of those that succeeded
    on any store that meets the interface: the replies are the same, a call
    that fails changes nothing, and no call fails for want of a family.  An
    iteration gives exactly the entries RocksDB can read, each once, which are
    the entries of the store when it can read all of them. *)
Theorem database_refines_store disk (db db' : database) (s : DB) calls answered :
  database_open disk = Ok db -> (forall cf k, rk_content disk !! (cf_name cf, k) = st_get s cf k) ->
  db_run calls db = (answered, db') ->
  Forall2 (fun '(d, c, v) v' => reply_agrees d c v v') answered (st_run answered.*1.*2 s).1 /\
  represents db' (st_run answered.*1.*2 s).2 /\
  (forall cf, cf_handle db' cf = Ok tt).
Proof.
  intros Ho Hs Hrun. destruct (open_represents _ _ _ Ho Hs) as [Hr Hh]. clear Ho Hs disk.
  revert db s answered Hr Hh Hrun. induction calls as [|c calls IH]; intros db s answered Hr Hh; cbn [db_run].
  { intros [= <- <-]. split; [constructor|]. split; [done|]. intros cf. unfold cf_handle. by rewrite Hh. }
  destruct (db_call c db) as [r d1] eqn:Hc. destruct (db_run calls d1) as [ans d2] eqn:Hd.
  pose proof (call_simulated _ _ _ _ _ Hr Hc) as Hsim. pose proof (call_keeps_handles _ _ _ _ Hc) as Hk.
  assert (forall cf, rk_cf_handle (db_handle d1) (cf_name cf) = true) as Hh1 by (intros cf; by rewrite Hk).
  destruct r as [v|e]; intros [= <- <-]; [|by apply (IH d1)].
  destruct Hsim as [Hv Hr1]. cbn [fmap list_fmap st_run fst snd].
  destruct (st_call c s) as [v' s1]. destruct (IH d1 s1 ans Hr1 Hh1 Hd) as (Ha & Hb & Hcf).
  destruct (st_run ans.*1.*2 s1) as [vs s2]. split; [by constructor|done].
Qed.

(** C19: After a flush that succeeds, whatever crash follows, opening what is
    left shows the store the database held. *)
Theorem flushed_survives_crash (db db' db'' : database) (s : DB) disk :
  represents db s -> (forall cf, cf_handle db cf = Ok tt) -> database_flush db = (Ok tt, db') ->
  rk_crash (db_handle db') disk -> database_open disk = Ok db'' ->
  represents db'' s.
Proof.
  unfold database_flush. intros Hr Hh Hf Hc Ho. eapply open_represents; [exact Ho|]. intros cf k.
  assert (rk_cf_handle (db_handle db) (cf_name cf) = true) as Hn.
  { specialize (Hh cf). unfold cf_handle in Hh. by destruct (rk_cf_handle _ _). }
  rewrite <- (Hr cf k), <- (flush_families_content _ _ _ _ Hf).
  eapply flush_families_durable; [exact Hf|exact Hn| |exact Hc].
  left. apply (list_elem_of_fmap_2 cf_name), cf_all_elem.
Qed.

(** A batch that names a family without a handle writes none of its
    operations, and its error names the first such family. *)
Theorem missing_family_writes_nothing (db : database) (before after : WriteBatch) op :
  Forall (fun o => cf_handle db (op_cf o) = Ok tt) before ->
  rk_cf_handle (db_handle db) (cf_name (op_cf op)) = false ->
  db_write_batch db (before ++ op :: after) = (Err (ColumnFamilyNotFound (cf_name (op_cf op))), db).
Proof.
  intros Hb Hop. unfold db_write_batch.
  replace (rocks_batch db (before ++ op :: after)) with
    (Err (A := list RocksOp) (ColumnFamilyNotFound (E := E) (cf_name (op_cf op)))); [done|].
  symmetry. induction Hb as [|o l Ho _ IH]; unfold rocks_batch in *; cbn [app rmap].
  - unfold cf_handle at 1. by rewrite Hop.
  - rewrite Ho. cbn. by rewrite IH.
Qed.
End Facts.

(** ** A small RocksDB

    Families, what is read, and what is on disk: a crash leaves what is on
    disk, and a flush writes one family there. *)

Module DatabaseExample.
Import Mem.

Record Rocks := mkRocks { rx_families : list string; rx_live : gmap (string * bytes) bytes;
                          rx_disk : gmap (string * bytes) bytes }.

Definition of_family (n : string) (s : gmap (string * bytes) bytes) : gmap (string * bytes) bytes :=
  base.filter (fun kv => kv.1.1 = n) s.
Definition not_family (n : string) (s : gmap (string * bytes) bytes) : gmap (string * bytes) bytes :=
  base.filter (fun kv => kv.1.1 <> n) s.

Definition with_live (h : Rocks) (s : gmap (string * bytes) bytes) : Rocks := mkRocks (rx_families h) s (rx_disk h).

Definition flush_one (h : Rocks) (n : string) : Rocks :=
  mkRocks (rx_families h) (rx_live h) (of_family n (rx_live h) ∪ not_family n (rx_disk h)).

#[export] Instance toy_rocks : RocksDb Rocks unit := {
  rk_open_cf_descriptors o cfs disk := Ok (mkRocks cfs.*1 (rx_live disk) (rx_live disk));
  rk_open_cf_for_read_only ns disk := Ok (mkRocks ns (rx_live disk) (rx_live disk));
  rk_cf_handle h n := bool_decide (n ∈ rx_families h);
  rk_get_cf h n k := Ok (rx_live h !! (n, k));
  rk_put_cf_opt h n k v _ := Ok (with_live h (<[(n, k) := v]> (rx_live h)));
  rk_delete_cf_opt h n k _ := Ok (with_live h (delete (n, k) (rx_live h)));
  rk_write_opt h ops _ := Ok (with_live h (fold_left rocks_op ops (rx_live h)));
  rk_iterator_cf h n := (fun kv => Ok (kv.1.2, kv.2)) <$> map_to_list (of_family n (rx_live h));
  rk_multi_get_cf h nks := (fun nk => Ok (rx_live h !! nk)) <$> nks;
  rk_flush_cf h n := Ok (flush_one h n);
  rk_compact_range_cf h n := h
}.

Lemma flush_one_disk h n m k :
  rx_disk (flush_one h n) !! (m, k) = if decide (m = n) then rx_live h !! (m, k) else rx_disk h !! (m, k).
Proof.
  cbn [flush_one rx_disk]. case_decide as Hm.
  - subst m. destruct (rx_live h !! (n, k)) as [v|] eqn:Hl.
    + apply lookup_union_Some_l, map_lookup_filter_Some. done.
    + apply lookup_union_None. split; [apply map_lookup_filter_None; by left|].
      apply map_lookup_filter_None. right. by intros v _ [].
  - rewrite lookup_union_r.
    + destruct (rx_disk h !! (m, k)) as [v|] eqn:Hl; [by apply map_lookup_filter_Some|].
      apply map_lookup_filter_None. by left.
    + apply map_lookup_filter_None. right. by intros v _ [=].
Qed.

Lemma family_entries (s : gmap (string * bytes) bytes) n k v :
  ((n, k), v) ∈ map_to_list (of_family n s) <-> s !! (n, k) = Some v.
Proof.
  rewrite elem_of_map_to_list. unfold of_family. rewrite map_lookup_filter_Some. naive_solver.
Qed.

Lemma toy_iterator_in h n k v : Ok (k, v) ∈ rk_iterator_cf (E := unit) h n <-> rx_live h !! (n, k) = Some v.
Proof.
  rewrite <- family_entries. cbn [rk_iterator_cf toy_rocks]. rewrite list_elem_of_fmap. split.
  - intros ([[n' k'] v'] & [= -> ->] & Hin). pose proof Hin as Hn.
    apply elem_of_map_to_list, map_lookup_filter_Some in Hn as [_ Hn]. cbn in Hn. by subst.
  - intros Hin. by exists ((n, k), v).
Qed.

Lemma toy_iterator_keys h n :
  NoDup (omap (fun r : result (bytes * bytes) unit => match r with Ok kv => Some kv.1 | Err _ => None end)
    (rk_iterator_cf h n)).
Proof.
  cbn [rk_iterator_cf toy_rocks].
  assert (forall l : list (string * bytes * bytes), NoDup l.*1 -> Forall (fun kv => kv.1.1 = n) l ->
    NoDup (omap (fun r : result (bytes * bytes) unit => match r with Ok kv => Some kv.1 | Err _ => None end)
      ((fun kv => Ok (kv.1.2, kv.2)) <$> l))) as Hl.
  { intros l. induction l as [|[[n' k] v] l IH]; [constructor|]. intros [Hnin Hnd]%NoDup_cons [Hn Hf]%Forall_cons.
    cbn in *. subst n'. apply NoDup_cons. split; [|by apply IH]. intros (r & Hin & Hr)%list_elem_of_omap.
    apply list_elem_of_fmap in Hin as ([[n' k'] v'] & -> & Hin). injection Hr as <-. apply Hnin.
    pose proof (proj1 (Forall_forall _ _) Hf _ Hin) as Hn. cbn in Hn. subst n'. apply list_elem_of_fmap.
    by exists ((n, k'), v'). }
  apply Hl; [apply NoDup_fst_map_to_list|]. apply Forall_forall. intros [[n' k] v] Hin.
  by apply elem_of_map_to_list, map_lookup_filter_Some in Hin as [_ ?].
Qed.

#[export] Instance toy_rocks_laws : RocksDbLaws Rocks unit.
Proof.
  refine {| rk_content := rx_live; rk_crash h h' := h' = mkRocks (rx_families h) (rx_disk h) (rx_disk h) |}.
  - intros o cfs disk h [= <-]. done.
  - intros o cfs disk h n [= <-] _ Hn. by apply bool_decide_eq_true.
  - by intros h n k o [= <-].
  - by intros h n k v w h' [= <-].
  - by intros h n k w h' [= <-].
  - by intros h ops w h' [= <-].
  - intros h nks. cbn. induction nks as [|nk nks IH]; constructor; [|exact IH]. by intros o [= <-].
  - intros h n k v. apply toy_iterator_in.
  - apply toy_iterator_keys.
  - intros h n k v _. apply toy_iterator_in.
  - by intros h n h' [= <-].
  - intros h n h' h'' k [= <-] ->. cbn [rx_live rx_disk]. rewrite flush_one_disk. by rewrite decide_True.
  - intros h n h' m [= <-] Hd h'' k ->. cbn [rx_live]. rewrite flush_one_disk. case_decide; [done|].
    by apply (Hd (mkRocks (rx_families h) (rx_disk h) (rx_disk h))).
  - done.
Defined.

Definition no_disk : Rocks := mkRocks [] ∅ ∅.
Definition opened : Database Rocks := mkDatabase (mkRocks (cf_name <$> cf_all) ∅ ∅) DEFAULT_BLOCK_CACHE_SIZE false 0.

Definition a_batch : WriteBatch :=
  [mkBatchOperation Utxo [1] (OpPut [10]); mkBatchOperation Metadata [2] (OpPut [20]);
   mkBatchOperation Utxo [3] (OpPut [30]); mkBatchOperation Utxo [1] OpDelete].
Definition a_run : list StorageCall :=
  [SC_SetSyncMode true; SC_WriteBatch a_batch; SC_Get Utxo [1]; SC_MultiGet Utxo [[3]; [4]];
   SC_Iter Utxo; SC_Put Headers [5] [50]; SC_Contains Headers [5]; SC_Flush; SC_Delete Headers [5]; SC_Get Headers [5]].

Lemma no_disk_empty cf k : rk_content no_disk !! (cf_name cf, k) = st_get Mem.empty cf k.
Proof. done. Qed.

Lemma database_refines_store_witness :
  exists answered db', db_run a_run opened = (answered, db') /\
    answered.*2 = [SR_Done; SR_Done; SR_Value None; SR_Values [Some [30]; None]; SR_Entries [([3], [30])];
                   SR_Done; SR_Found true; SR_Done; SR_Done; SR_Value None] /\
    Forall2 (fun '(d, c, v) v' => reply_agrees d c v v') answered (st_run answered.*1.*2 Mem.empty).1.
Proof.
  eexists _, _. split; [vm_compute; reflexivity|]. split; [reflexivity|].
  exact (proj1 (database_refines_store (DB := Mem.t) no_disk opened _ Mem.empty a_run _ eq_refl no_disk_empty eq_refl)).
Defined.

(** In the mode of the first synchronisation nothing but the families flushed
    so far survives: half of a batch does, when RocksDB wrote one family out. *)
Definition half_written : Database Rocks :=
  let db := (db_write_batch (db_set_sync_mode true opened) a_batch).2 in
  put_handle db (flush_one (db_handle db) (cf_name Utxo)).
Definition after_crash (db : Database Rocks) : Rocks :=
  mkRocks (rx_families (db_handle db)) (rx_disk (db_handle db)) (rx_disk (db_handle db)).

Theorem batch_torn_by_crash :
  rk_crash (db_handle half_written) (after_crash half_written) /\
  rk_content (after_crash half_written) !! (cf_name Utxo, [3]) = Some [30] /\
  rk_content (after_crash half_written) !! (cf_name Metadata, [2]) = None.
Proof. by vm_compute. Qed.

Definition flushed : Database Rocks := (database_flush (db_write_batch opened a_batch).2).2.

Lemma written_represents :
  represents (DB := Mem.t) (db_write_batch opened a_batch).2 (st_write_batch Mem.empty a_batch).
Proof.
  exact (proj2 (call_simulated (DB := Mem.t) (SC_WriteBatch a_batch) opened _ Mem.empty _ (fun _ _ => eq_refl) eq_refl)).
Qed.

Lemma flushed_survives_crash_witness :
  exists db'', database_open (after_crash flushed) = Ok db'' /\
    represents (DB := Mem.t) db'' (st_write_batch Mem.empty a_batch) /\
    db_get db'' Utxo [3] = Ok (Some [30]) /\ db_get db'' Metadata [2] = Ok (Some [20]).
Proof.
  eexists. split; [reflexivity|]. split; [|split; reflexivity].
  eapply (flushed_survives_crash (DB := Mem.t) (db_write_batch opened a_batch).2 flushed _ _ (after_crash flushed)).
  - exact written_represents.
  - by intros [].
  - vm_compute. reflexivity.
  - reflexivity.
  - reflexivity.
Defined.

End DatabaseExample.
