(* ===== verification/Vlq.v ===== *)
(** * Variable-length integers

    The decoding loop that ergo-consensus block.rs and ergo-network
    handshake.rs and message.rs share word for word, the encoder and the ZigZag
    code of handshake.rs, and the encoding as a function of the value. *)

From S2P Require Export Prelude.

Local Open Scope Z_scope.

(** The largest allocation, in bytes, that does not make [Vec] panic. *)
Definition ISIZE_MAX : Z := 2 ^ 63 - 1.
Fixpoint vlq_loop (data : bytes) (acc shift : Z) (pos : nat) : result (Z * nat) string :=
  match data with
  | [] => Err "Truncated VLQ"%string
  | byte :: rest =>
      let pos := S pos in
      let acc := Z.lor acc (u64 (Z.shiftl (Z.land byte 0x7F) shift)) in
      if Z.land byte 0x80 =? 0 then Ok (acc, pos)
      else
        let shift := shift + 7 in
        if shift >? 63 then Err "VLQ overflow"%string else vlq_loop rest acc shift pos
  end.

(** [vlq_decode]: the value and the number of bytes read. *)
Definition vlq_decode (data : bytes) : result (Z * nat) string := vlq_loop data 0 0 0.

(** ** The encoder *)

(** One iteration per seven bits: ten are enough for a [u64]. *)
Fixpoint vlq_encode_loop (fuel : nat) (value : Z) : bytes :=
  match fuel with
  | O => []
  | S fuel' =>
      let byte := Z.land value 0x7F in
      let value := Z.shiftr value 7 in
      let byte := if value =? 0 then byte else Z.lor byte 0x80 in
      byte :: (if value =? 0 then [] else vlq_encode_loop fuel' value)
  end.
Definition put_vlq (value : Z) : bytes := vlq_encode_loop 10 value.

(** [vlq_encode_signed] and [vlq_decode_signed]: ZigZag over [i64]. *)
Definition zigzag (value : Z) : Z := u64 (Z.lxor (i64 (Z.shiftl value 1)) (Z.shiftr value 63)).
Definition unzigzag (encoded : Z) : Z :=
  Z.lxor (i64 (Z.shiftr encoded 1)) (- Z.land encoded 1).
Definition put_vlq_signed (value : Z) : bytes := put_vlq (zigzag value).

(** [vlq_byte_len]. *)
Fixpoint vlq_len_loop (fuel : nat) (v : Z) : nat :=
  match fuel with
  | O => 0
  | S fuel' => if v >? 0 then S (vlq_len_loop fuel' (Z.shiftr v 7)) else 0
  end.
Definition vlq_byte_len (value : Z) : nat :=
  if value =? 0 then 1%nat else vlq_len_loop 10 value.

(** ** The encoding as a function of the value *)

(** The VLQ encoding: seven bits per byte, least significant first. *)
Fixpoint vlq_bytes (fuel : nat) (z : Z) : bytes :=
  match fuel with
  | O => []
  | S fuel' => if z <? 128 then [z] else (z mod 128 + 128) :: vlq_bytes fuel' (z / 128)
  end.
Definition vlq_encode (z : Z) : bytes := vlq_bytes 10 z.

(** ** Lemmas *)

Lemma land_7f_low z : 0 <= z < 128 -> Z.land z 0x7F = z.
Proof. intros H. change 0x7F with (Z.ones 7). rewrite Z.land_ones by lia. by apply Z.mod_small. Qed.

Lemma land_80 w : 0 <= w < 256 -> (Z.land w 0x80 =? 0) = (w <? 128).
Proof. intros H. apply (land_pow2_zero w 7); [lia|]. change (2 ^ (7 + 1)) with 256. lia. Qed.

Lemma land_7f_high x : 0 <= x < 128 -> Z.land (x + 128) 0x7F = x.
Proof.
  intros H. change 0x7F with (Z.ones 7). rewrite Z.land_ones by lia.
  change (2 ^ 7) with 128. rewrite <- (Z.mul_1_l 128) at 1. rewrite Z.mod_add by lia.
  by apply Z.mod_small.
Qed.

Lemma vlq_loop_spec fuel z rest acc shift pos :
  fuel <> 0%nat -> 0 <= z < 128 ^ Z.of_nat fuel -> 0 <= acc < 2 ^ shift -> 0 <= shift <= 63 ->
  z * 2 ^ shift + acc < 2 ^ 64 ->
  vlq_loop (vlq_bytes fuel z ++ rest) acc shift pos =
  Ok (z * 2 ^ shift + acc, (pos + length (vlq_bytes fuel z))%nat).
Proof.
  revert z acc shift pos. induction fuel as [|fuel IH]; intros z acc shift pos Hne Hz Hacc Hs Hb; [done|].
  cbn [vlq_bytes]. assert (0 < 2 ^ shift) by (apply Z.pow_pos_nonneg; lia).
  assert (forall x, 0 <= x <= z -> Z.lor acc (u64 (Z.shiftl x shift)) = x * 2 ^ shift + acc) as Hlor.
  { intros x Hx. rewrite Z.lor_comm, u64_id by (rewrite Z.shiftl_mul_pow2 by lia; nia).
    apply lor_shiftl_add; lia. }
  destruct (Z.ltb_spec z 128) as [Hlt|Hge]; cbn [app vlq_loop length].
  - rewrite land_7f_low, land_80 by lia.
    destruct (Z.ltb_spec z 128); [|lia]. rewrite Hlor by lia. f_equal. f_equal. lia.
  - pose proof (Z.mod_pos_bound z 128 ltac:(lia)). pose proof (Z.div_mod z 128 ltac:(lia)).
    rewrite land_7f_high, land_80 by lia.
    destruct (Z.ltb_spec (z mod 128 + 128) 128); [lia|].
    rewrite Hlor by lia.
    assert (2 ^ (shift + 7) = 2 ^ shift * 128) as Hp by (rewrite Z.pow_add_r by lia; done).
    assert (shift + 7 < 64) as Hs7.
    { apply (Z.pow_lt_mono_r_iff 2); [lia|lia|]. rewrite Hp. nia. }
    destruct (shift + 7 >? 63) eqn:E; zify_bool; [lia|].
    rewrite Nat2Z.inj_succ, Z.pow_succ_r in Hz by lia.
    rewrite IH.
    + f_equal. f_equal; [nia|lia].
    + intros ->. change (128 ^ Z.of_nat 0) with 1 in Hz. lia.
    + split; [apply Z.div_pos; lia|apply Z.div_lt_upper_bound; lia].
    + rewrite Hp. nia.
    + lia.
    + rewrite Hp. nia.
Qed.

Lemma vlq_decode_encode z rest :
  0 <= z < 2 ^ 64 -> vlq_decode (vlq_encode z ++ rest) = Ok (z, length (vlq_encode z)).
Proof.
  intros Hz. unfold vlq_decode, vlq_encode. rewrite vlq_loop_spec; [|done|lia|lia|lia|lia].
  f_equal. f_equal. lia.
Qed.

Lemma vlq_bytes_length fuel z : (length (vlq_bytes fuel z) <= fuel)%nat.
Proof.
  revert z. induction fuel as [|fuel IH]; intros z; cbn [vlq_bytes]; [done|].
  destruct (_ <? _); cbn [length]; [lia|]. specialize (IH (z / 128)). lia.
Qed.

Lemma vlq_encode_length z : (1 <= length (vlq_encode z))%nat.
Proof. unfold vlq_encode. cbn [vlq_bytes]. destruct (_ <? _); cbn; lia. Qed.

Lemma put_loop_bytes fuel z :
  0 <= z < 128 ^ Z.of_nat fuel -> vlq_encode_loop fuel z = vlq_bytes fuel z.
Proof.
  revert z. induction fuel as [|fuel IH]; intros z Hz; [done|]. cbn [vlq_encode_loop vlq_bytes].
  rewrite Nat2Z.inj_succ, Z.pow_succ_r in Hz by lia.
  change 0x7F with (Z.ones 7). rewrite Z.land_ones, Z.shiftr_div_pow2 by lia.
  change (2 ^ 7) with 128. pose proof (Z.mod_pos_bound z 128 ltac:(lia)) as Hm.
  pose proof (Z.div_mod z 128 ltac:(lia)) as Hd.
  destruct (Z.eqb_spec (z / 128) 0) as [E|E]; destruct (Z.ltb_spec z 128) as [Hlt|Hge].
  - f_equal. lia.
  - rewrite E in Hd. lia.
  - rewrite Z.div_small in E by lia. done.
  - pose proof (lor_shiftl_add 1 (z mod 128) 7 ltac:(lia) ltac:(lia) Hm) as Hl.
    change (Z.shiftl 1 7) with 0x80 in Hl. rewrite Z.lor_comm, Hl.
    f_equal; [lia|]. apply IH. split; [apply Z.div_pos; lia|apply Z.div_lt_upper_bound; lia].
Qed.

Lemma put_vlq_encode z : in_u 64 z -> put_vlq z = vlq_encode z.
Proof. intros Hz. unfold in_u in Hz. apply put_loop_bytes. lia. Qed.

Lemma len_loop_bytes fuel z :
  0 < z < 128 ^ Z.of_nat fuel -> vlq_len_loop fuel z = length (vlq_bytes fuel z).
Proof.
  revert z. induction fuel as [|fuel IH]; intros z Hz; [cbn in Hz; lia|]. cbn [vlq_len_loop vlq_bytes].
  rewrite Nat2Z.inj_succ, Z.pow_succ_r in Hz by lia.
  destruct (z >? 0) eqn:E; zify_bool; [|lia].
  rewrite Z.shiftr_div_pow2 by lia. change (2 ^ 7) with 128.
  destruct (Z.ltb_spec z 128) as [Hlt|Hge]; cbn [length]; f_equal.
  - rewrite Z.div_small by lia. by destruct fuel.
  - apply IH. split; [apply Z.div_str_pos; lia|apply Z.div_lt_upper_bound; lia].
Qed.

(** The length a decoder skips is that of the canonical encoding. *)
Lemma vlq_byte_len_spec z : in_u 64 z -> vlq_byte_len z = length (vlq_encode z).
Proof.
  unfold in_u, vlq_byte_len, vlq_encode. intros Hz. destruct (Z.eqb_spec z 0) as [->|Hne]; [done|].
  apply len_loop_bytes. lia.
Qed.

Lemma unzigzag_zigzag v : in_i 64 v -> unzigzag (zigzag v) = v.
Proof.
  unfold in_i. intros Hv. unfold zigzag, unzigzag.
  rewrite Z.shiftl_mul_pow2, (Z.shiftr_div_pow2 v 63) by lia. change (2 ^ 1) with 2.
  assert (forall e, Z.land e 1 = e mod 2) as Hland by (intros e; apply (Z.land_ones e 1); lia).
  assert (forall x, -1 - x = Z.lxor x (-1)) as Hnot by (intros x; rewrite Z.lxor_m1_r; unfold Z.lnot; lia).
  destruct (Z.le_gt_cases 0 v) as [Hpos|Hneg].
  - rewrite Z.div_small by lia. rewrite Z.lxor_0_r.
    assert (u64 (i64 (v * 2)) = v * 2) as ->.
    { unfold wrap. rewrite swrap_mod by lia. apply Z.mod_small. lia. }
    rewrite Hland, Z.shiftr_div_pow2 by lia. change (2 ^ 1) with 2. rewrite Z.div_mul, Z.mod_mul by lia.
    rewrite Z.lxor_0_r. apply swrap_small; unfold in_i; lia.
  - assert (v / 2 ^ 63 = -1) as -> by (symmetry; apply (Z.div_unique_pos _ _ _ (v + 2 ^ 63)); lia).
    rewrite <- Hnot.
    assert (u64 (-1 - i64 (v * 2)) = -1 - v * 2) as ->.
    { unfold wrap. rewrite Zminus_mod, swrap_mod, <- Zminus_mod by lia. apply Z.mod_small. lia. }
    rewrite Hland, Z.shiftr_div_pow2 by lia. change (2 ^ 1) with 2.
    assert ((-1 - v * 2) / 2 = -1 - v) as -> by (symmetry; apply (Z.div_unique_pos _ _ _ 1); lia).
    assert ((-1 - v * 2) mod 2 = 1) as -> by (symmetry; apply (Z.mod_unique_pos _ _ (-1 - v)); lia).
    change (- (1)) with (-1). rewrite <- Hnot. rewrite swrap_small by (unfold in_i; lia). lia.
Qed.

(** ** The decoded value is a [u64] *)

Lemma lor_in_u w a b : 0 <= w -> in_u w a -> in_u w b -> in_u w (Z.lor a b).
Proof.
  unfold in_u. intros Hw [Ha1 Ha2] [Hb1 Hb2]. split; [by apply Z.lor_nonneg|].
  destruct (Z.eq_dec a 0) as [->|Ha]; [by rewrite Z.lor_0_l|].
  destruct (Z.eq_dec b 0) as [->|Hb]; [by rewrite Z.lor_0_r|].
  pose proof (proj2 (Z.lor_nonneg a b) (conj Ha1 Hb1)).
  assert (Z.lor a b <> 0) as Hne by (intros H0; apply Z.lor_eq_0_iff in H0; lia).
  apply Z.log2_lt_pow2; [lia|]. rewrite Z.log2_lor by done.
  apply Z.max_lub_lt; apply Z.log2_lt_pow2; lia.
Qed.

Lemma vlq_loop_range data acc shift pos z pos' :
  in_u 64 acc -> vlq_loop data acc shift pos = Ok (z, pos') ->
  in_u 64 z /\ (pos < pos' <= pos + length data)%nat.
Proof.
  revert acc shift pos. induction data as [|byte data IH]; intros acc shift pos Hacc; cbn [vlq_loop]; [done|].
  assert (in_u 64 (Z.lor acc (u64 (Z.shiftl (Z.land byte 0x7F) shift)))) as Hr
    by (apply lor_in_u; [lia|done|apply wrap_range; lia]).
  destruct (_ =? 0); [intros [= <- <-]; cbn [length]; split; [done|lia]|].
  destruct (_ >? _); [done|]. intros H. apply IH in H as [? ?]; [|done]. cbn [length]. split; [done|lia].
Qed.
