(* ===== verification/Utf8.v ===== *)
(** * UTF-8 strings

    [String] is a list of bytes that is well-formed UTF-8, and
    [String::from_utf8_lossy] the function of the standard library that
    replaces each maximal ill-formed part by the replacement character. *)

From S2P Require Export Prelude.

Local Open Scope Z_scope.

(** [utf8_char_width] and the ranges of continuation bytes. *)
Definition in_range (lo hi b : Z) : bool := (lo <=? b) && (b <=? hi).
Definition continues (b : Z) : bool := in_range 0x80 0xBF b.

Definition second_of_three (byte b : Z) : bool :=
  ((byte =? 0xE0) && in_range 0xA0 0xBF b) || (in_range 0xE1 0xEC byte && in_range 0x80 0xBF b)
  || ((byte =? 0xED) && in_range 0x80 0x9F b) || (in_range 0xEE 0xEF byte && in_range 0x80 0xBF b).

Definition second_of_four (byte b : Z) : bool :=
  ((byte =? 0xF0) && in_range 0x90 0xBF b) || (in_range 0xF1 0xF3 byte && in_range 0x80 0xBF b)
  || ((byte =? 0xF4) && in_range 0x80 0x8F b).

(** How many bytes after the first belong to the next character, or to the
    ill-formed part, and whether it is well formed; missing bytes read as zero. *)
Definition utf8_next (byte : Z) (rest : bytes) : nat * bool :=
  let b i := nth i rest 0 in
  if byte <? 128 then (0%nat, true)
  else if in_range 0xC2 0xDF byte then
    if continues (b 0%nat) then (1%nat, true) else (0%nat, false)
  else if in_range 0xE0 0xEF byte then
    if negb (second_of_three byte (b 0%nat)) then (0%nat, false)
    else if continues (b 1%nat) then (2%nat, true) else (1%nat, false)
  else if in_range 0xF0 0xF4 byte then
    if negb (second_of_four byte (b 0%nat)) then (0%nat, false)
    else if negb (continues (b 1%nat)) then (1%nat, false)
    else if continues (b 2%nat) then (3%nat, true) else (2%nat, false)
  else (0%nat, false).

Definition REPLACEMENT : bytes := [0xEF; 0xBF; 0xBD].

(** A character per iteration: the number of bytes is enough. *)
Fixpoint lossy_loop (fuel : nat) (bs : bytes) : bytes :=
  match fuel, bs with
  | S fuel', byte :: rest =>
      let '(n, ok) := utf8_next byte rest in
      (if ok then byte :: take n rest else REPLACEMENT) ++ lossy_loop fuel' (drop n rest)
  | _, _ => []
  end.
Definition from_utf8_lossy (bs : bytes) : bytes := lossy_loop (length bs) bs.

Inductive utf8 : bytes -> Prop :=
  | utf8_nil : utf8 []
  | utf8_char byte cs rest :
      utf8_next byte (cs ++ rest) = (length cs, true) -> utf8 rest -> utf8 (byte :: cs ++ rest).

(** ** Lemmas *)

Lemma nth_take_app n i (l k : bytes) : (i < n <= length l)%nat -> nth i (take n l ++ k) 0 = nth i l 0.
Proof.
  intros Hi. rewrite app_nth1 by (rewrite length_take; lia).
  rewrite <- (take_drop n l) at 2. by rewrite app_nth1 by (rewrite length_take; lia).
Qed.

Lemma continues_present n (l : bytes) : continues (nth n l 0) = true -> (n < length l)%nat.
Proof.
  intros H. destruct (Nat.lt_ge_cases n (length l)); [done|]. by rewrite nth_overflow in H.
Qed.

(** A well-formed character lies within the bytes, and does not depend on
    what follows it. *)
Lemma utf8_next_ok byte rest n :
  utf8_next byte rest = (n, true) ->
  (n <= length rest)%nat /\ forall k, utf8_next byte (take n rest ++ k) = (n, true).
Proof.
  unfold utf8_next. cbv zeta. destruct (byte <? 128); [intros [= <-]; split; [lia|done]|].
  destruct (in_range 0xC2 0xDF byte).
  { destruct (continues (nth 0 rest 0)) eqn:E; [|done]. intros [= <-].
    pose proof (continues_present _ _ E). split; [lia|]. intros k. by rewrite nth_take_app, E by lia. }
  destruct (in_range 0xE0 0xEF byte).
  { destruct (second_of_three _ _) eqn:E1; [|done]. cbn [negb].
    destruct (continues (nth 1 rest 0)) eqn:E2; [|done]. intros [= <-].
    pose proof (continues_present _ _ E2). split; [lia|]. intros k.
    by rewrite !nth_take_app, E1, E2 by lia. }
  destruct (in_range 0xF0 0xF4 byte); [|done].
  destruct (second_of_four _ _) eqn:E1; [|done]. cbn [negb].
  destruct (continues (nth 1 rest 0)) eqn:E2; [|done]. cbn [negb].
  destruct (continues (nth 2 rest 0)) eqn:E3; [|done]. intros [= <-].
  pose proof (continues_present _ _ E3). split; [lia|]. intros k.
  by rewrite !nth_take_app, E1, E2, E3 by lia.
Qed.

Lemma lossy_loop_id bs fuel : utf8 bs -> (length bs <= fuel)%nat -> lossy_loop fuel bs = bs.
Proof.
  intros H. revert fuel. induction H as [|byte cs rest Hn _ IH]; intros fuel Hf.
  { by destruct fuel. }
  cbn [length] in Hf. rewrite length_app in Hf. destruct fuel as [|fuel]; [lia|].
  cbn [lossy_loop]. rewrite Hn, take_app_length, drop_app_length, IH by lia. done.
Qed.

Lemma from_utf8_lossy_id bs : utf8 bs -> from_utf8_lossy bs = bs.
Proof. intros H. by apply lossy_loop_id. Qed.

Lemma replacement_utf8 rest : utf8 rest -> utf8 (REPLACEMENT ++ rest).
Proof. intros H. by apply (utf8_char 0xEF [0xBF; 0xBD] rest). Qed.

Lemma lossy_loop_utf8 fuel bs : utf8 (lossy_loop fuel bs).
Proof.
  revert bs. induction fuel as [|fuel IH]; intros [|byte rest]; cbn [lossy_loop]; try constructor.
  destruct (utf8_next byte rest) as [n []] eqn:E; [|by apply replacement_utf8].
  apply utf8_next_ok in E as [Hn Hk]. cbn [app]. apply utf8_char; [|done].
  rewrite Hk. by rewrite length_take, Nat.min_l.
Qed.

(** Whatever the bytes, the result is a string. *)
Lemma from_utf8_lossy_utf8 bs : utf8 (from_utf8_lossy bs).
Proof. apply lossy_loop_utf8. Qed.

(** ASCII text is a string. *)
Lemma ascii_utf8 bs : Forall (fun b => 0 <= b < 128) bs -> utf8 bs.
Proof.
  induction 1 as [|b bs Hb _ IH]; [constructor|]. apply (utf8_char b [] bs); [|done].
  unfold utf8_next. cbn [app]. destruct (Z.ltb_spec b 128); [done|lia].
Qed.
