(* ===== verification/Wire.v ===== *)
(** * The wire: errors and primitive formats of ergo-network

    [NetworkError] (error.rs), the constants of lib.rs, the decoders of
    variable-length integers (handshake.rs, message.rs) at a position of a
    buffer.  A Rust panic of a reader is an outcome of its own, [NE_Panic]:
    a slice whose end lies before its start, a read beyond the buffer, or a
    capacity overflow. *)

From S2P Require Export Vlq Utf8.

Local Open Scope Z_scope.

Inductive NetworkError :=
  | NE_ConnectionFailed (msg : string)
  | NE_ConnectionClosed
  | NE_HandshakeFailed (msg : string)
  | NE_InvalidMessage (msg : string)
  | NE_MessageTooLarge (size max : Z)
  | NE_PeerNotFound (msg : string)
  | NE_PeerBanned (msg : string)
  | NE_TooManyConnections (count max : Z)
  | NE_VersionMismatch (got expected : Z * Z * Z)
  | NE_MagicMismatch
  | NE_Timeout (msg : string)
  | NE_Io (msg : string)
  | NE_Serialization (msg : string)
  | NE_Panic (msg : string).

Definition MAINNET_MAGIC : bytes := [1; 0; 2; 4].
Definition TESTNET_MAGIC : bytes := [2; 0; 2; 4].
Definition MAX_MESSAGE_SIZE : Z := 10 * 1024 * 1024.

(** [data[pos]] behind a check of the bounds. *)
Definition byte_at (data : bytes) (pos : nat) : Z := nth pos data 0.

(** [vlq_decode(data, pos)]: the value and the position after it. *)
Definition net_vlq_decode (data : bytes) (pos : nat) : result (Z * nat) NetworkError :=
  match vlq_loop (drop pos data) 0 0 pos with
  | Ok r => Ok r
  | Err msg => Err (NE_InvalidMessage msg)
  end.

Definition net_vlq_decode_signed (data : bytes) (pos : nat) : result (Z * nat) NetworkError :=
  let? (encoded, new_pos) := net_vlq_decode data pos in
  Ok (unzigzag encoded, new_pos).

(** [data[pos..pos + len]] behind [if pos + len > data.len()], for a length
    read from the data: the sum wraps. *)
Definition read_slice (data : bytes) (pos : nat) (len : Z) (truncated : string)
    : result (bytes * nat) NetworkError :=
  let end_ := u64 (Z.of_nat pos + len) in
  if end_ >? Z.of_nat (length data) then Err (NE_InvalidMessage truncated)
  else if end_ <? Z.of_nat pos then Err (NE_Panic "slice index starts after its end")
  else Ok (slice pos (Z.to_nat end_) data, Z.to_nat end_).

(** ** Lemmas *)

(** [lens] proves comparisons of lengths, [bounds] decides the bound checks of
    a reader with it. *)
Ltac lens := rewrite ?length_app in *; cbn [length] in *; rewrite ?length_app in *; cbn [length] in *; lia.
Ltac bounds := repeat match goal with
  | |- context [(?n <? ?k)%nat] =>
      first [rewrite (proj2 (Nat.ltb_ge n k)) by lens | rewrite (proj2 (Nat.ltb_lt n k)) by lens]
  | |- context [(?n <=? ?k)%nat] =>
      first [rewrite (proj2 (Nat.leb_gt n k)) by lens | rewrite (proj2 (Nat.leb_le n k)) by lens]
  | |- context [(?n =? ?k)%nat] =>
      first [rewrite (proj2 (Nat.eqb_neq n k)) by lens | rewrite (proj2 (Nat.eqb_eq n k)) by lens]
  end; cbn [andb negb].

Lemma byte_at_app pre b post pos : length pre = pos -> byte_at (pre ++ b :: post) pos = b.
Proof. intros <-. unfold byte_at. by rewrite app_nth2, Nat.sub_diag by lia. Qed.

Lemma byte_at_shift pre l i : byte_at (pre ++ l) (length pre + i) = byte_at l i.
Proof. unfold byte_at. rewrite app_nth2 by lia. f_equal. lia. Qed.

Lemma slice_tail {A} a b (pre x : list A) :
  length pre = a -> (a + length x)%nat = b -> slice a b (pre ++ x) = x.
Proof. intros. rewrite <- (app_nil_r x) at 1. by apply slice_mid. Qed.

Lemma net_vlq_decode_app pre z post pos :
  length pre = pos -> in_u 64 z ->
  net_vlq_decode (pre ++ put_vlq z ++ post) pos = Ok (z, (pos + length (put_vlq z))%nat).
Proof.
  intros <- Hz. unfold net_vlq_decode. rewrite drop_app_length, put_vlq_encode by done.
  unfold in_u in Hz. unfold vlq_encode. rewrite vlq_loop_spec by (done || lia). do 3 f_equal. lia.
Qed.

Lemma net_vlq_decode_signed_app pre v post pos :
  length pre = pos -> in_i 64 v ->
  net_vlq_decode_signed (pre ++ put_vlq_signed v ++ post) pos =
  Ok (v, (pos + length (put_vlq_signed v))%nat).
Proof.
  intros Hp Hv. unfold net_vlq_decode_signed, put_vlq_signed. rewrite net_vlq_decode_app.
  - cbn [rbind]. by rewrite unzigzag_zigzag.
  - done.
  - unfold zigzag. apply wrap_range. lia.
Qed.

Lemma put_vlq_length z : (1 <= length (put_vlq z) <= 10)%nat.
Proof.
  unfold put_vlq. split; [cbn [vlq_encode_loop length]; lia|].
  generalize 10%nat as n. intros n. revert z. induction n as [|n IH]; intros z; cbn [vlq_encode_loop length]; [lia|].
  destruct (_ =? 0); cbn [length]; [lia|]. specialize (IH (Z.shiftr z 7)). lia.
Qed.

Lemma read_slice_app pre x post pos msg :
  length pre = pos -> Z.of_nat (length (pre ++ x ++ post)) < 2 ^ 63 ->
  read_slice (pre ++ x ++ post) pos (Z.of_nat (length x)) msg = Ok (x, (pos + length x)%nat).
Proof.
  intros <- Hl. unfold read_slice. rewrite !length_app in *.
  rewrite u64_id by lia.
  destruct (_ >? _) eqn:E; zify_bool; [lia|]. destruct (_ <? _) eqn:E2; zify_bool; [lia|].
  replace (Z.to_nat (Z.of_nat (length pre) + Z.of_nat (length x))) with (length pre + length x)%nat by lia.
  by rewrite (slice_mid (length pre) (length pre + length x) pre x post).
Qed.

(** What a slice that was read says about the data. *)
Lemma read_slice_ok data pos len msg x pos' :
  read_slice data pos len msg = Ok (x, pos') ->
  (pos <= pos' <= length data)%nat /\ x = slice pos pos' data.
Proof.
  unfold read_slice. destruct (_ >? _) eqn:E; [done|]. destruct (_ <? _) eqn:E2; [done|].
  intros [= <- <-]. zify_bool. split; [lia|done].
Qed.

Lemma net_vlq_decode_range data pos z pos' :
  net_vlq_decode data pos = Ok (z, pos') -> in_u 64 z /\ (pos < pos' <= length data)%nat.
Proof.
  unfold net_vlq_decode. destruct (vlq_loop _ _ _ _) as [[v n]|e] eqn:E; [|done]. intros [= <- <-].
  apply vlq_loop_range in E as [Hz Hn]; [|unfold in_u; lia]. rewrite length_drop in Hn. split; [done|lia].
Qed.

Lemma byte_at_ok data pos : bytes_ok data -> in_u 8 (byte_at data pos).
Proof.
  intros Hd. unfold byte_at. destruct (nth_in_or_default pos data 0) as [Hin| ->]; [|by unfold in_u].
  rewrite <- list_elem_of_In in Hin. by eapply Forall_forall in Hd.
Qed.

Lemma slice_ok a b data : bytes_ok data -> bytes_ok (slice a b data).
Proof. intros Hd. by apply Forall_take, Forall_drop. Qed.
