(* ===== verification/Handshake.v ===== *)
(** * Handshakes and peer specifications (crates/ergo-network/src/handshake.rs)

    The features a peer announces, the formats of a handshake and of the peer
    specifications of a Peers message, and the loop that accumulates a
    handshake from the reads of a stream. *)

From S2P Require Export Wire.

Local Open Scope Z_scope.

Definition MAX_HANDSHAKE_SIZE : Z := 8096.

(** The octets of an [IpAddr]. *)
Inductive IpAddr :=
  | IP_V4 (octets : bytes)
  | IP_V6 (octets : bytes).

Record DeclaredAddress := mkDeclaredAddress { da_ip : IpAddr; da_port : Z }.

Inductive PeerFeature :=
  | PF_Mode (state_type : Z) (verifying : bool) (nipopow_suffix : option Z) (blocks_to_keep : Z)
  | PF_Session (magic : bytes) (session_id : Z)
  | PF_LocalAddress (ip : IpAddr) (port : Z)
  | PF_RestApiUrl (url : bytes)
  | PF_Unknown (id : Z) (data : bytes).

Record HandshakeData := mkHandshakeData {
  hs_time : Z;
  hs_agent_name : bytes;
  hs_version : Z * Z * Z;
  hs_peer_name : bytes;
  hs_declared_addr : option DeclaredAddress;
  hs_features : list PeerFeature
}.

Record PeerSpec := mkPeerSpec {
  ps_agent_name : bytes;
  ps_version : Z * Z * Z;
  ps_peer_name : bytes;
  ps_declared_addr : option DeclaredAddress;
  ps_features : list PeerFeature
}.

Definition HandshakeData_new (now : Z) (agent_name : bytes) (version : Z * Z * Z) (peer_name : bytes)
    : HandshakeData := mkHandshakeData (u64 now) agent_name version peer_name None [].

Definition with_mainnet_features (h : HandshakeData) (session_id : Z) : HandshakeData :=
  mkHandshakeData (hs_time h) (hs_agent_name h) (hs_version h) (hs_peer_name h) (hs_declared_addr h)
    (hs_features h ++ [PF_Mode 0 true None (-1); PF_Session [1; 0; 2; 4] session_id]).

Definition PeerSpec_new (agent_name : bytes) (version : Z * Z * Z) (peer_name : bytes)
    (declared_addr : option DeclaredAddress) : PeerSpec :=
  mkPeerSpec agent_name version peer_name declared_addr [].

Definition from_handshake (h : HandshakeData) : PeerSpec :=
  mkPeerSpec (hs_agent_name h) (hs_version h) (hs_peer_name h) (hs_declared_addr h) (hs_features h).

(** ** Writing *)

(** [buf.push(bytes.len() as u8)] and the bytes. *)
Definition put_name (name : bytes) : bytes := u8 (Z.of_nat (length name)) :: name.

Definition ip_octets (ip : IpAddr) : bytes :=
  match ip with IP_V4 octets => octets | IP_V6 octets => octets end.

Definition put_ip (ip : IpAddr) : bytes :=
  match ip with IP_V4 octets => 8 :: octets | IP_V6 octets => 20 :: octets end.

Definition put_declared_addr (addr : option DeclaredAddress) : bytes :=
  match addr with
  | Some addr =>
      1 :: put_ip (da_ip addr) ++ put_vlq (da_port addr)
  | None => [0]
  end.

(** The identifier of a feature and its data. *)
Definition feature_data (feature : PeerFeature) : Z * bytes :=
  match feature with
  | PF_Mode state_type verifying nipopow_suffix blocks_to_keep =>
      (16, [state_type; if verifying then 1 else 0]
           ++ match nipopow_suffix with
              | Some suffix => 1 :: be_bytes 4 (u32 suffix)
              | None => [0]
              end
           ++ put_vlq_signed blocks_to_keep)
  | PF_Session magic session_id => (3, magic ++ put_vlq session_id)
  | PF_LocalAddress ip port => (2, ip_octets ip ++ be_bytes 4 port)
  | PF_RestApiUrl url => (4, put_name url)
  | PF_Unknown id data => (id, data)
  end.

Definition put_feature (feature : PeerFeature) : bytes :=
  let '(id, data) := feature_data feature in
  id :: put_vlq (Z.of_nat (length data)) ++ data.

Definition put_features (features : list PeerFeature) : bytes :=
  u8 (Z.of_nat (length features)) :: concat (put_feature <$> features).

Definition put_version (version : Z * Z * Z) : bytes :=
  let '(major, minor, patch) := version in [major; minor; patch].

Definition PeerSpec_serialize (p : PeerSpec) : bytes :=
  put_name (ps_agent_name p) ++ put_version (ps_version p) ++ put_name (ps_peer_name p)
  ++ put_declared_addr (ps_declared_addr p) ++ put_features (ps_features p).

Definition HandshakeData_serialize (h : HandshakeData) : bytes :=
  put_vlq (hs_time h)
  ++ put_name (hs_agent_name h) ++ put_version (hs_version h) ++ put_name (hs_peer_name h)
  ++ put_declared_addr (hs_declared_addr h) ++ put_features (hs_features h).

(** ** Reading *)

(** A length byte and a string; [what] and [truncated] are the messages. *)
Definition read_name (what truncated : string) (data : bytes) (pos : nat)
    : result (bytes * nat) NetworkError :=
  if (length data <=? pos)%nat then Err (NE_InvalidMessage what)
  else
    let len := Z.to_nat (byte_at data pos) in
    let pos := S pos in
    if (length data <? pos + len)%nat then Err (NE_InvalidMessage truncated)
    else Ok (from_utf8_lossy (slice pos (pos + len) data), (pos + len)%nat).

Definition read_version (data : bytes) (pos : nat) : result (Z * Z * Z * nat) NetworkError :=
  if (length data <? pos + 3)%nat then Err (NE_InvalidMessage "Truncated version")
  else Ok (byte_at data pos, byte_at data (pos + 1), byte_at data (pos + 2), (pos + 3)%nat).

Definition read_ip (data : bytes) (pos : nat) : result (IpAddr * nat) NetworkError :=
  if (length data <=? pos)%nat then Err (NE_InvalidMessage "Truncated declared address")
  else
    let addr_type := byte_at data pos in
    let pos := S pos in
    if addr_type =? 8 then
      if (length data <? pos + 4)%nat then Err (NE_InvalidMessage "Truncated IPv4 address")
      else Ok (IP_V4 (slice pos (pos + 4) data), (pos + 4)%nat)
    else if addr_type =? 20 then
      if (length data <? pos + 16)%nat then Err (NE_InvalidMessage "Truncated IPv6 address")
      else Ok (IP_V6 (slice pos (pos + 16) data), (pos + 16)%nat)
    else Err (NE_InvalidMessage "Unknown address type").

(** Missing bytes, and any marker but 1, mean that no address is declared. *)
Definition read_declared_addr (data : bytes) (pos : nat)
    : result (option DeclaredAddress * nat) NetworkError :=
  if (pos <? length data)%nat && (byte_at data pos =? 1) then
    let? (ip, pos) := read_ip data (S pos) in
    let? (port, pos) := net_vlq_decode data pos in
    Ok (Some (mkDeclaredAddress ip (u16 port)), pos)
  else if (pos <? length data)%nat then Ok (None, S pos)
  else Ok (None, pos).

Definition parse_feature (id : Z) (fd : bytes) : PeerFeature :=
  if id =? 16 then
    if (length fd <? 3)%nat then PF_Unknown id fd
    else
      let '(nipopow_suffix, blocks_pos) :=
        if (byte_at fd 2 =? 1) && (7 <=? length fd)%nat
        then (Some (i32 (be_val (slice 3 7 fd))), 7%nat) else (None, 3%nat) in
      let blocks_to_keep :=
        match net_vlq_decode_signed fd blocks_pos with Ok (v, _) => v | Err _ => 1 end in
      PF_Mode (byte_at fd 0) (negb (byte_at fd 1 =? 0)) nipopow_suffix (i32 blocks_to_keep)
  else if id =? 3 then
    if (5 <=? length fd)%nat then
      PF_Session (slice 0 4 fd) (match net_vlq_decode fd 4 with Ok (v, _) => v | Err _ => 0 end)
    else PF_Unknown id fd
  else if id =? 2 then
    if (length fd =? 8)%nat then
      PF_LocalAddress (IP_V4 (slice 0 4 fd)) (u16 (be_val (slice 4 8 fd)))
    else PF_Unknown id fd
  else if id =? 4 then
    if negb (length fd =? 0)%nat && (1 + Z.to_nat (byte_at fd 0) <=? length fd)%nat then
      PF_RestApiUrl (from_utf8_lossy (slice 1 (1 + Z.to_nat (byte_at fd 0)) fd))
    else PF_Unknown id fd
  else PF_Unknown id fd.

(** The loop stops without an error where the data ends between features. *)
Fixpoint read_features_loop (count : nat) (data : bytes) (pos : nat)
    : result (list PeerFeature * nat) NetworkError :=
  match count with
  | O => Ok ([], pos)
  | S count' =>
      if (length data <=? pos)%nat then Ok ([], pos)
      else
        let id := byte_at data pos in
        let? (len, pos) := net_vlq_decode data (S pos) in
        let? (fd, pos) := read_slice data pos len "Truncated feature data" in
        let? (features, pos) := read_features_loop count' data pos in
        Ok (parse_feature id fd :: features, pos)
  end.

Definition read_features (data : bytes) (pos : nat) : result (list PeerFeature * nat) NetworkError :=
  if (pos <? length data)%nat
  then read_features_loop (Z.to_nat (byte_at data pos)) data (S pos)
  else Ok ([], pos).

(** What follows the timestamp; [what] is the message of a missing length. *)
Definition read_spec (what : string) (data : bytes) (pos : nat) : result (PeerSpec * nat) NetworkError :=
  let? (agent_name, pos) := read_name what "Truncated agent name" data pos in
  let? (version, pos) := read_version data pos in
  let? (peer_name, pos) := read_name what "Truncated peer name" data pos in
  let? (declared_addr, pos) := read_declared_addr data pos in
  let? (features, pos) := read_features data pos in
  Ok (mkPeerSpec agent_name version peer_name declared_addr features, pos).

Definition PeerSpec_parse (data : bytes) (pos : nat) : result (PeerSpec * nat) NetworkError :=
  read_spec "Truncated PeerSpec" data pos.

Definition HandshakeData_parse (data : bytes) : result HandshakeData NetworkError :=
  if Z.of_nat (length data) >? MAX_HANDSHAKE_SIZE
  then Err (NE_InvalidMessage "Handshake too large")
  else
    let? (time, pos) := net_vlq_decode data 0 in
    let? (spec, _) := read_spec "Truncated handshake" data pos in
    Ok (mkHandshakeData time (ps_agent_name spec) (ps_version spec) (ps_peer_name spec)
          (ps_declared_addr spec) (ps_features spec)).

Definition get_magic (h : HandshakeData) : option bytes :=
  head (omap (fun f => match f with PF_Session magic _ => Some magic | _ => None end) (hs_features h)).
Definition get_session_id (h : HandshakeData) : option Z :=
  head (omap (fun f => match f with PF_Session _ id => Some id | _ => None end) (hs_features h)).

(** ** Accumulating a handshake

    [reader k] is what the [k]-th read of the stream returns, at most 1024
    bytes, none when the peer has closed the connection.  The fuel counts
    iterations. *)
Fixpoint read_handshake (fuel : nat) (reader : nat -> bytes) (k : nat) (buffer : bytes)
    : option (result HandshakeData NetworkError * bytes) :=
  match fuel with
  | O => None
  | S fuel' =>
      match (if (length buffer =? 0)%nat then Err NE_ConnectionClosed else HandshakeData_parse buffer) with
      | Ok handshake => Some (Ok handshake, buffer)
      | Err (NE_Panic msg) => Some (Err (NE_Panic msg), buffer)
      | Err _ =>
          if Z.of_nat (length buffer) >? MAX_HANDSHAKE_SIZE
          then Some (Err (NE_InvalidMessage "Handshake too large"), buffer)
          else if (length (reader k) =? 0)%nat then Some (Err NE_ConnectionClosed, buffer)
          else
            let buffer := buffer ++ reader k in
            match HandshakeData_parse buffer with
            | Ok handshake => Some (Ok handshake, buffer)
            | Err (NE_Panic msg) => Some (Err (NE_Panic msg), buffer)
            | Err _ => read_handshake fuel' reader (S k) buffer
            end
      end
  end.

(** ** Reading a handshake in the network service (service.rs)

    The service keeps a buffer of its own, tries to parse it once it has more
    than ten bytes, and reads at most 256 bytes at a time.  The stream is the
    list of what its reads will return; what is left of it is returned, and
    the buffer is dropped.  [None]: the stream has not said enough. *)

Inductive StreamRead :=
  | SR_Bytes (bs : bytes)
  | SR_IoError (msg : string)
  | SR_TimedOut.

Definition try_parse (buffer : bytes) : option (result HandshakeData NetworkError) :=
  if (10 <? length buffer)%nat then
    match HandshakeData_parse buffer with
    | Ok handshake => Some (Ok handshake)
    | Err (NE_Panic msg) => Some (Err (NE_Panic msg))
    | Err _ => None
    end
  else None.

Fixpoint read_raw_handshake (buffer : bytes) (stream : list StreamRead)
    : option (result HandshakeData NetworkError * list StreamRead) :=
  if Z.of_nat (length buffer) >? 8096 then Some (Err (NE_InvalidMessage "Handshake too large"), stream)
  else
    match try_parse buffer with
    | Some r => Some (r, stream)
    | None =>
        match stream with
        | [] => None
        | SR_Bytes bs :: rest =>
            if (length bs =? 0)%nat then Some (Err NE_ConnectionClosed, rest)
            else read_raw_handshake (buffer ++ bs) rest
        | SR_IoError msg :: rest => Some (Err (NE_Io msg), rest)
        | SR_TimedOut :: rest => Some (Err (NE_HandshakeFailed "Handshake timeout"), rest)
        end
    end.
