(* ===== verification/HandshakeSpec.v ===== *)
(** * What the handshake formats promise

    A handshake that fits its length bytes is parsed back, but for an IPv6 local
    address; the accumulating loop returns; and where it does not
    do what it should: a handshake split between two reads, a feature length
    that wraps. *)

From S2P Require Export Handshake.

Local Open Scope Z_scope.

(** ** Well-typed values *)

Definition ip_typed (ip : IpAddr) : Prop :=
  match ip with
  | IP_V4 octets => length octets = 4%nat /\ bytes_ok octets
  | IP_V6 octets => length octets = 16%nat /\ bytes_ok octets
  end.

Definition addr_typed (a : DeclaredAddress) : Prop := ip_typed (da_ip a) /\ in_u 16 (da_port a).

Definition feature_typed (f : PeerFeature) : Prop :=
  match f with
  | PF_Mode st _ suffix keep => in_u 8 st /\ (forall x, suffix = Some x -> in_i 32 x) /\ in_i 32 keep
  | PF_Session magic id => length magic = 4%nat /\ bytes_ok magic /\ in_u 64 id
  | PF_LocalAddress ip port => ip_typed ip /\ in_u 16 port
  | PF_RestApiUrl url => utf8 url
  | PF_Unknown id data => in_u 8 id /\ bytes_ok data
  end.

Definition version_typed (v : Z * Z * Z) : Prop := let '(a, b, c) := v in in_u 8 a /\ in_u 8 b /\ in_u 8 c.

Record spec_typed (p : PeerSpec) : Prop := {
  st_agent : utf8 (ps_agent_name p);
  st_version : version_typed (ps_version p);
  st_peer : utf8 (ps_peer_name p);
  st_addr : forall a, ps_declared_addr p = Some a -> addr_typed a;
  st_features : Forall feature_typed (ps_features p)
}.

Definition handshake_typed (h : HandshakeData) : Prop := in_u 64 (hs_time h) /\ spec_typed (from_handshake h).

(** ** Values that fit their length bytes *)

(** Data of a known feature under its identifier. *)
Definition known_data (id : Z) (data : bytes) : Prop :=
  (id = 16 /\ (3 <= length data)%nat) \/ (id = 3 /\ (5 <= length data)%nat) \/ (id = 2 /\ length data = 8%nat) \/
  (id = 4 /\ data <> [] /\ (1 + Z.to_nat (byte_at data 0) <= length data)%nat).

Definition feature_fits (f : PeerFeature) : Prop :=
  match f with
  | PF_LocalAddress ip _ => match ip with IP_V4 _ => True | IP_V6 _ => False end
  | PF_RestApiUrl url => (length url < 256)%nat
  | PF_Unknown id data => ~ known_data id data
  | _ => True
  end.

Record spec_fits (p : PeerSpec) : Prop := {
  sf_agent : (length (ps_agent_name p) < 256)%nat;
  sf_peer : (length (ps_peer_name p) < 256)%nat;
  sf_count : (length (ps_features p) < 256)%nat;
  sf_features : Forall feature_fits (ps_features p)
}.

(** ** Reading back what was written *)

Lemma byte_u8 (n : nat) : (n < 256)%nat -> u8 (Z.of_nat n) = Z.of_nat n.
Proof. intros. apply wrap_small; unfold in_u; lia. Qed.

Lemma read_name_app what truncated pre name post pos :
  length pre = pos -> utf8 name -> (length name < 256)%nat ->
  read_name what truncated (pre ++ put_name name ++ post) pos = Ok (name, (pos + length (put_name name))%nat).
Proof.
  intros <- Hu Hn. unfold read_name, put_name. cbn [app]. rewrite byte_u8 by done.
  rewrite byte_at_app, Nat2Z.id by done. bounds. rewrite cons_middle, app_assoc.
  rewrite (slice_mid _ _ (pre ++ [Z.of_nat (length name)]) name post) by lens.
  rewrite from_utf8_lossy_id by done. do 2 f_equal. lens.
Qed.

Lemma read_version_app pre v post pos :
  length pre = pos -> read_version (pre ++ put_version v ++ post) pos = Ok (v, (pos + 3)%nat).
Proof.
  intros <-. destruct v as [[a b] c]. unfold read_version, put_version. bounds.
  rewrite !byte_at_shift. cbn [app]. by rewrite byte_at_app.
Qed.

Lemma read_ip_app pre ip post pos :
  length pre = pos -> ip_typed ip ->
  read_ip (pre ++ put_ip ip ++ post) pos = Ok (ip, (pos + length (put_ip ip))%nat).
Proof.
  intros <- Hip. unfold read_ip. destruct ip as [o|o]; destruct Hip as [Ho _]; cbn [put_ip app];
    bounds; rewrite byte_at_app by done; cbn [Z.eqb Pos.eqb]; bounds;
    rewrite cons_middle, app_assoc, (slice_mid _ _ _ o) by lens; do 2 f_equal; lens.
Qed.

Lemma read_declared_app pre a post pos :
  length pre = pos -> (forall x, a = Some x -> addr_typed x) ->
  read_declared_addr (pre ++ put_declared_addr a ++ post) pos =
  Ok (a, (pos + length (put_declared_addr a))%nat).
Proof.
  intros <- Ha. unfold read_declared_addr.
  destruct a as [[ip port]|]; cbn [put_declared_addr app].
  2:{ bounds. rewrite byte_at_app by done. cbn. do 2 f_equal. lens. }
  destruct (Ha _ eq_refl) as [Hip Hport]. cbn [da_ip da_port] in *.
  bounds. rewrite byte_at_app by done. cbn [andb Z.eqb Pos.eqb].
  assert (pre ++ 1 :: (put_ip ip ++ put_vlq port) ++ post =
    (pre ++ [1]) ++ put_ip ip ++ put_vlq port ++ post) as -> by (by rewrite <- !app_assoc).
  rewrite read_ip_app; [|lens|done]. cbn [rbind]. rewrite (app_assoc (pre ++ [1])).
  rewrite net_vlq_decode_app; [|lens|unfold in_u in *; lia]. cbn [rbind].
  rewrite wrap_small by done. do 2 f_equal. lens.
Qed.

(** ** Features *)

(** The data of a feature is read back as the feature. *)
Lemma parse_feature_data f :
  feature_typed f -> feature_fits f -> parse_feature (feature_data f).1 (feature_data f).2 = f.
Proof.
  destruct f as [st v suffix keep|magic id|ip port|url|id data]; cbn [feature_data fst snd]; unfold parse_feature.
  - intros (_ & Hsuf & Hkeep) _. cbn [Z.eqb Pos.eqb].
    assert (in_i 64 keep) as Hk by (unfold in_i in *; lia).
    destruct suffix as [x|].
    + pose proof (put_vlq_length (zigzag keep)) as Hl.
      assert (length (be_bytes 4 (u32 x)) = 4%nat) as Hb by apply be_bytes_length.
      unfold put_vlq_signed in *. bounds.
      replace (byte_at _ 2) with 1 by done. cbn [Z.eqb Pos.eqb andb]. bounds. cbn [andb].
      change ([st; if v then 1 else 0] ++ (1 :: be_bytes 4 (u32 x)) ++ put_vlq (zigzag keep))
        with ([st; if v then 1 else 0; 1] ++ be_bytes 4 (u32 x) ++ put_vlq (zigzag keep)).
      rewrite (slice_mid 3 7 [st; if v then 1 else 0; 1]) by lens.
      rewrite app_assoc, <- (app_nil_r (put_vlq (zigzag keep))).
      rewrite (net_vlq_decode_signed_app _ keep []) by (done || lens).
      pose proof (Hsuf x eq_refl) as Hx. rewrite be_val_bytes by (pose proof (wrap_range 32 ltac:(lia) x); done).
      f_equal; [by destruct v| |by apply swrap_small].
      f_equal. unfold i32, u32. rewrite <- (swrap_small 32 ltac:(lia) x) at 2 by done.
      apply swrap_cong; [lia|]. unfold wrap. by rewrite Zmod_mod.
    + unfold put_vlq_signed in *. pose proof (put_vlq_length (zigzag keep)) as Hl. bounds.
      replace (byte_at _ 2) with 0 by done. cbn [Z.eqb andb].
      change ([st; if v then 1 else 0] ++ [0] ++ put_vlq (zigzag keep))
        with ([st; if v then 1 else 0; 0] ++ put_vlq (zigzag keep)).
      rewrite <- (app_nil_r (put_vlq (zigzag keep))).
      rewrite (net_vlq_decode_signed_app _ keep []) by (done || lens).
      f_equal; [by destruct v|by apply swrap_small].
  - intros (Hm & _ & Hid) _. cbn [Z.eqb Pos.eqb]. pose proof (put_vlq_length id). bounds.
    rewrite (slice_head 4 magic) by done. rewrite <- (app_nil_r (put_vlq id)).
    by rewrite (net_vlq_decode_app magic id []).
  - intros [Hip Hport] Hv. destruct ip as [o|o]; [|done]. destruct Hip as [Ho _]. cbn [Z.eqb Pos.eqb ip_octets].
    assert (length (be_bytes 4 port) = 4%nat) as Hb by apply be_bytes_length. bounds.
    rewrite (slice_head 4 o) by done. rewrite <- (app_nil_r (be_bytes 4 port)).
    rewrite (slice_mid 4 8 o) by lens.
    rewrite be_val_bytes by (unfold in_u in Hport; change (256 ^ Z.of_nat 4) with (2 ^ 32); lia).
    by rewrite wrap_small.
  - intros Hu Hl. cbn [Z.eqb Pos.eqb]. unfold put_name. rewrite byte_u8 by done.
    replace (byte_at _ 0) with (Z.of_nat (length url)) by done. rewrite Nat2Z.id. bounds.
    pose proof (slice_tail 1 (1 + length url) [Z.of_nat (length url)] url eq_refl eq_refl) as Hs.
    cbn [app] in Hs. rewrite Hs. 
    by rewrite from_utf8_lossy_id.
  - intros _ Hn. unfold known_data in Hn.
    destruct (Z.eqb_spec id 16); [destruct (Nat.ltb_spec (length data) 3); [done|exfalso; apply Hn; by left]|].
    destruct (Z.eqb_spec id 3); [destruct (Nat.leb_spec 5 (length data)); [exfalso; apply Hn; right; by left|done]|].
    destruct (Z.eqb_spec id 2); [destruct (Nat.eqb_spec (length data) 8); [exfalso; apply Hn; right; right; by left|done]|].
    destruct (Z.eqb_spec id 4); [|done]. destruct (Nat.eqb_spec (length data) 0) as [|Hne]; [done|].
    destruct (Nat.leb_spec (1 + Z.to_nat (byte_at data 0)) (length data)) as [Hle|]; [|done].
    exfalso. apply Hn. do 3 right. split; [done|]. split; [by destruct data|done].
Qed.

Lemma features_loop_app fs pre post pos :
  length pre = pos -> Z.of_nat (length (pre ++ concat (put_feature <$> fs) ++ post)) < 2 ^ 63 ->
  Forall feature_typed fs -> Forall feature_fits fs ->
  read_features_loop (length fs) (pre ++ concat (put_feature <$> fs) ++ post) pos =
  Ok (fs, (pos + length (concat (put_feature <$> fs)))%nat).
Proof.
  intros Hpos Hl Ht Hf. revert pre pos Hpos Hl. induction fs as [|f fs IH]; intros pre pos Hpos Hl.
  { cbn. do 2 f_equal. lia. }
  inversion Ht; inversion Hf; subst. cbn [length read_features_loop fmap list_fmap concat] in *.
  pose proof (parse_feature_data f ltac:(done) ltac:(done)) as Hpf.
  destruct (feature_data f) as [id data] eqn:Hfd. cbn [fst snd] in Hpf.
  set (n := Z.of_nat (length data)) in *. set (tl := concat (put_feature <$> fs) ++ post).
  assert (put_feature f = id :: put_vlq n ++ data) as Hpe by (unfold put_feature; by rewrite Hfd).
  assert (pre ++ (put_feature f ++ concat (put_feature <$> fs)) ++ post =
    pre ++ id :: put_vlq n ++ data ++ tl) as He.
  { rewrite Hpe. unfold tl. cbn [app]. by rewrite <- !app_assoc. }
  rewrite He in Hl |- *. rewrite Hpe. pose proof (put_vlq_length n). bounds. rewrite byte_at_app by done.
  rewrite cons_middle, app_assoc in Hl |- *.
  rewrite net_vlq_decode_app; [|lens|unfold in_u, n; lens]. cbn [rbind].
  rewrite (app_assoc _ (put_vlq n)) in Hl |- *. subst n.
  rewrite read_slice_app by lens. cbn [rbind]. rewrite (app_assoc _ data) in Hl |- *.
  unfold tl in *. rewrite IH; [|done|done|lens|done]. cbn [rbind]. rewrite Hpf. do 2 f_equal. lens.
Qed.

Lemma read_features_app fs pre post pos :
  length pre = pos -> Z.of_nat (length (pre ++ put_features fs ++ post)) < 2 ^ 63 ->
  Forall feature_typed fs -> Forall feature_fits fs -> (length fs < 256)%nat ->
  read_features (pre ++ put_features fs ++ post) pos = Ok (fs, (pos + length (put_features fs))%nat).
Proof.
  intros <- Hl Ht Hf Hn. unfold read_features, put_features in *. cbn [app] in *. bounds.
  rewrite byte_u8 in * by done. rewrite byte_at_app, Nat2Z.id by done.
  rewrite cons_middle, app_assoc in Hl |- *. rewrite features_loop_app by (done || lens).
  do 2 f_equal. lens.
Qed.

Lemma read_spec_app what p pre post pos :
  length pre = pos -> Z.of_nat (length (pre ++ PeerSpec_serialize p ++ post)) < 2 ^ 63 ->
  spec_typed p -> spec_fits p ->
  read_spec what (pre ++ PeerSpec_serialize p ++ post) pos =
  Ok (p, (pos + length (PeerSpec_serialize p))%nat).
Proof.
  intros <- Hl [Hta Htv Htp Htd Htf] [Hfa Hfp Hfc Hff]. unfold read_spec, PeerSpec_serialize in *.
  destruct p as [agent version peer declared features].
  cbn [ps_agent_name ps_version ps_peer_name ps_declared_addr ps_features] in *.
  assert (length (put_version version) = 3%nat) as Hv by (by destruct version as [[a b] c]).
  rewrite <- !app_assoc in *.
  rewrite read_name_app by done. cbn [rbind].
  rewrite (app_assoc pre) in Hl |- *. rewrite read_version_app by lens. cbn [rbind].
  rewrite (app_assoc _ (put_version version)) in Hl |- *.
  rewrite read_name_app by (done || lens). cbn [rbind].
  rewrite (app_assoc _ (put_name peer)) in Hl |- *.
  rewrite read_declared_app by (done || lens). cbn [rbind].
  rewrite (app_assoc _ (put_declared_addr declared)) in Hl |- *.
  rewrite read_features_app by (done || lens). cbn [rbind].
  do 2 f_equal. lens.
Qed.

Lemma handshake_serialize_spec h :
  HandshakeData_serialize h = put_vlq (hs_time h) ++ PeerSpec_serialize (from_handshake h).
Proof. done. Qed.

Lemma handshake_parse_app h rest :
  handshake_typed h -> spec_fits (from_handshake h) ->
  Z.of_nat (length (HandshakeData_serialize h ++ rest)) <= MAX_HANDSHAKE_SIZE ->
  HandshakeData_parse (HandshakeData_serialize h ++ rest) = Ok h.
Proof.
  intros [Ht Hs] Hf Hl. unfold HandshakeData_parse. rewrite handshake_serialize_spec, <- app_assoc in *.
  destruct (_ >? _) eqn:E; zify_bool; [lia|]. clear E. unfold MAX_HANDSHAKE_SIZE in Hl.
  pose proof (net_vlq_decode_app [] (hs_time h) (PeerSpec_serialize (from_handshake h) ++ rest) 0 eq_refl Ht) as Hv.
  cbn [app] in Hv. rewrite Hv. cbn [rbind Nat.add].
  rewrite read_spec_app by (done || lia). by destruct h.
Qed.

(** *** Any handshake

    A local address that is not IPv4 comes back as an unknown feature: it is
    written with the octets it has, and read only when they are four. *)
Definition reread_feature (f : PeerFeature) : PeerFeature :=
  match f with
  | PF_LocalAddress (IP_V6 octets) port => PF_Unknown 2 (octets ++ be_bytes 4 port)
  | _ => f
  end.

Definition reread (h : HandshakeData) : HandshakeData :=
  mkHandshakeData (hs_time h) (hs_agent_name h) (hs_version h) (hs_peer_name h) (hs_declared_addr h)
    (reread_feature <$> hs_features h).

Definition no_v6_local (h : HandshakeData) : Prop :=
  Forall (fun f => forall octets port, f <> PF_LocalAddress (IP_V6 octets) port) (hs_features h).

(** Names, URLs and the number of features fit in a byte, and no feature kept
    as unknown has the data of a known one. *)
Record lengths_fit (h : HandshakeData) : Prop := {
  lf_agent : (length (hs_agent_name h) < 256)%nat;
  lf_peer : (length (hs_peer_name h) < 256)%nat;
  lf_count : (length (hs_features h) < 256)%nat;
  lf_features : Forall (fun f => match f with
    | PF_RestApiUrl url => (length url < 256)%nat
    | PF_Unknown id data => ~ known_data id data
    | _ => True
    end) (hs_features h)
}.

Lemma reread_feature_data f : feature_data (reread_feature f) = feature_data f.
Proof. by destruct f as [| |[]| |]. Qed.

Lemma reread_serialize h : HandshakeData_serialize (reread h) = HandshakeData_serialize h.
Proof.
  unfold HandshakeData_serialize, put_features. cbn [reread hs_time hs_agent_name hs_version hs_peer_name hs_declared_addr hs_features].
  rewrite length_fmap, <- list_fmap_compose. do 7 f_equal. apply list_fmap_ext. intros _ f _.
  unfold compose, put_feature. by rewrite reread_feature_data.
Qed.

Lemma reread_typed h : handshake_typed h -> handshake_typed (reread h).
Proof.
  intros [Ht [Ha Hv Hp Hd Hf]]. split; [done|]. constructor; cbn in *; try done.
  apply Forall_fmap. eapply Forall_impl; [exact Hf|]. intros [| |[o|o] port| |] Hx; cbn in *; try done.
  destruct Hx as [[Hl Ho] Hport]. split; [by unfold in_u|]. apply Forall_app. split; [done|]. apply be_bytes_ok.
Qed.

Lemma reread_fits h : handshake_typed h -> lengths_fit h -> spec_fits (from_handshake (reread h)).
Proof.
  intros [_ [_ _ _ _ Ht]] [Ha Hp Hc Hf]. constructor; cbn in *; rewrite ?length_fmap; try done.
  apply Forall_fmap. rewrite Forall_forall in Ht. rewrite Forall_forall in Hf. apply Forall_forall. intros f Hin.
  specialize (Ht f Hin). specialize (Hf f Hin). destruct f as [| |[o|o] port| |]; cbn in *; try done.
  destruct Ht as [[Hl _] _]. intros [[? _]|[[? _]|[[_ Hlen]|[? _]]]]; try done.
  rewrite length_app, be_bytes_length, Hl in Hlen. done.
Qed.

Lemma reread_id h : no_v6_local h -> reread h = h.
Proof.
  unfold no_v6_local. destruct h as [t a v p d fs]. unfold reread. cbn. intros Hn. f_equal.
  induction Hn as [|f fs Hne _ IH]; cbn; [done|]. rewrite IH. f_equal.
  destruct f as [| |[]| |]; try done. by edestruct Hne.
Qed.

(** C40: A handshake whose names, URLs and number of features fit their length
    bytes is parsed back, with whatever follows it in the buffer up to the 8096
    bytes the parser takes, except that an IPv6 local address comes back as an
    unknown feature with its octets and port; so it is parsed back unchanged
    when it has none. *)
Theorem handshake_roundtrip h rest :
  handshake_typed h -> lengths_fit h ->
  Z.of_nat (length (HandshakeData_serialize h ++ rest)) <= MAX_HANDSHAKE_SIZE ->
  HandshakeData_parse (HandshakeData_serialize h ++ rest) = Ok (reread h) /\
  (no_v6_local h -> HandshakeData_parse (HandshakeData_serialize h ++ rest) = Ok h).
Proof.
  intros Ht Hf Hl. assert (HandshakeData_parse (HandshakeData_serialize h ++ rest) = Ok (reread h)) as Hp.
  { rewrite <- reread_serialize in *. apply handshake_parse_app; [by apply reread_typed|by apply reread_fits|done]. }
  split; [exact Hp|]. intros Hn. by rewrite Hp, reread_id.
Qed.

(** ** The accumulating loop *)

(** The bytes of a handshake up to its declared address, and what they parse
    to. *)
Definition handshake_head (h : HandshakeData) : bytes :=
  put_vlq (hs_time h) ++ put_name (hs_agent_name h) ++ put_version (hs_version h) ++ put_name (hs_peer_name h).
Definition headless (h : HandshakeData) : HandshakeData :=
  mkHandshakeData (hs_time h) (hs_agent_name h) (hs_version h) (hs_peer_name h) None [].

(** Reading gets past the head whatever follows it. *)
Lemma parse_head_then h post :
  handshake_typed h -> spec_fits (from_handshake h) ->
  Z.of_nat (length (handshake_head h ++ post)) <= MAX_HANDSHAKE_SIZE ->
  HandshakeData_parse (handshake_head h ++ post) =
  (let? (declared_addr, pos) := read_declared_addr (handshake_head h ++ post) (length (handshake_head h)) in
   let? (features, _) := read_features (handshake_head h ++ post) pos in
   Ok (mkHandshakeData (hs_time h) (hs_agent_name h) (hs_version h) (hs_peer_name h) declared_addr features)).
Proof.
  intros [Ht [Hta Htv Htp _ _]] [Hfa Hfp _ _]. unfold HandshakeData_parse, handshake_head.
  destruct h as [time agent version peer declared features].
  cbn [from_handshake ps_agent_name ps_version ps_peer_name hs_time hs_agent_name hs_version hs_peer_name] in *.
  intros Hl. assert (length (put_version version) = 3%nat) as Hv by (by destruct version as [[a b] c]).
  destruct (_ >? _) eqn:E; zify_bool; [lia|]. clear E. rewrite <- !app_assoc.
  pose proof (net_vlq_decode_app [] time (put_name agent ++ put_version version ++ put_name peer ++ post) 0 eq_refl Ht) as Hd.
  cbn [app] in Hd. rewrite Hd. cbn [rbind Nat.add]. unfold read_spec.
  rewrite read_name_app by done. cbn [rbind]. rewrite app_assoc.
  rewrite read_version_app by lens. cbn [rbind]. rewrite (app_assoc _ (put_version version)).
  rewrite read_name_app by (done || lens). cbn [rbind]. rewrite <- !app_assoc.
  replace (length (put_vlq time) + length (put_name agent) + 3 + length (put_name peer))%nat
    with (length (put_vlq time ++ put_name agent ++ put_version version ++ put_name peer)) by lens.
  destruct (read_declared_addr _ _) as [[d p]|e]; [|done]. cbn [rbind].
  by destruct (read_features _ _) as [[fs p']|e].
Qed.

Lemma handshake_head_length h :
  spec_fits (from_handshake h) -> (3 <= length (handshake_head h) <= 600)%nat.
Proof.
  intros [Hfa Hfp _ _]. destruct h as [time agent version peer declared features]. unfold handshake_head, put_name.
  cbn [from_handshake ps_agent_name ps_peer_name hs_time hs_agent_name hs_version hs_peer_name] in *.
  pose proof (put_vlq_length time). assert (length (put_version version) = 3%nat) by (by destruct version as [[a b] c]).
  lens.
Qed.

Lemma parse_head h :
  handshake_typed h -> spec_fits (from_handshake h) -> HandshakeData_parse (handshake_head h) = Ok (headless h).
Proof.
  intros Ht Hf. pose proof (handshake_head_length h Hf) as Hl.
  rewrite <- (app_nil_r (handshake_head h)), parse_head_then by (done || (unfold MAX_HANDSHAKE_SIZE; lens)).
  rewrite app_nil_r. unfold read_declared_addr, read_features.
  rewrite Nat.ltb_irrefl. cbn [andb rbind]. by rewrite Nat.ltb_irrefl.
Qed.

(** A feature that announces [2^64 - 1] bytes of data, anything following it:
    the end of its slice wraps to just before its start, which passes the
    check for truncated data, and the parser panics. *)
Theorem feature_length_panics h id rest :
  handshake_typed h -> spec_fits (from_handshake h) -> Z.of_nat (length rest) <= 7000 ->
  exists msg, HandshakeData_parse (handshake_head h ++ [0; 1; id] ++ put_vlq (2 ^ 64 - 1) ++ rest) =
    Err (NE_Panic msg).
Proof.
  intros Ht Hf Hr. pose proof (handshake_head_length h Hf) as Hl.
  pose proof (put_vlq_length (2 ^ 64 - 1)) as Hv.
  rewrite parse_head_then by (done || (unfold MAX_HANDSHAKE_SIZE; lens)).
  pose proof (read_declared_app (handshake_head h) None ([1; id] ++ put_vlq (2 ^ 64 - 1) ++ rest) _ eq_refl
    ltac:(done)) as Hd. cbn [put_declared_addr app length] in Hd |- *. rewrite Hd. cbn [rbind].
  unfold read_features. bounds. rewrite (cons_middle 0), app_assoc, byte_at_app by lens.
  change (Z.to_nat 1) with 1%nat. cbn [read_features_loop]. bounds.
  rewrite (cons_middle 1), app_assoc, byte_at_app by lens.
  rewrite (cons_middle id), app_assoc, net_vlq_decode_app; [|lens|unfold in_u; lia]. cbn [rbind].
  set (data := _ ++ put_vlq _ ++ rest). set (pos := (_ + length (put_vlq _))%nat).
  assert (u64 (Z.of_nat pos + (2 ^ 64 - 1)) = Z.of_nat pos - 1) as Hw.
  { unfold wrap. rewrite <- (Z.mod_small (Z.of_nat pos - 1) (2 ^ 64)) by (unfold pos; lens).
    rewrite <- (Z.mod_add (Z.of_nat pos - 1) 1) by lia. f_equal. lia. }
  unfold read_slice. rewrite Hw.
  destruct (_ >? _) eqn:E; zify_bool; [unfold data, pos in E; lens|].
  destruct (_ <? _) eqn:E2; zify_bool; [|lia]. by eexists.
Qed.

Lemma handshake_head_prefix h : exists tl, HandshakeData_serialize h = handshake_head h ++ tl /\ tl <> [].
Proof.
  exists (put_declared_addr (hs_declared_addr h) ++ put_features (hs_features h)).
  split; [unfold HandshakeData_serialize, handshake_head; by rewrite <- !app_assoc|].
  unfold put_features. by destruct (put_declared_addr _).
Qed.

(** The result of reading a handshake depends on how its bytes are split
    between reads: all of them in one read give the handshake, but a first
    read that ends after the peer name gives one without an address and
    features, and leaves the rest of the bytes in the stream. *)
Theorem handshake_depends_on_reads h :
  handshake_typed h -> spec_fits (from_handshake h) ->
  Z.of_nat (length (HandshakeData_serialize h)) <= MAX_HANDSHAKE_SIZE ->
  (forall reader, reader 0%nat = HandshakeData_serialize h ->
     read_handshake 1 reader 0 [] = Some (Ok h, HandshakeData_serialize h)) /\
  exists n, (n < length (HandshakeData_serialize h))%nat /\
    forall reader, reader 0%nat = take n (HandshakeData_serialize h) ->
      read_handshake 1 reader 0 [] = Some (Ok (headless h), take n (HandshakeData_serialize h)).
Proof.
  intros Ht Hf Hl. pose proof (parse_head h Ht Hf) as Hh.
  destruct (handshake_head_prefix h) as (tl & Htl & Hne).
  assert (forall b reader r, reader 0%nat = b -> (0 < length b)%nat -> HandshakeData_parse b = Ok r ->
    read_handshake 1 reader 0 [] = Some (Ok r, b)) as Hread.
  { intros b reader r Hr Hb Hp. cbn [read_handshake length Nat.eqb]. unfold MAX_HANDSHAKE_SIZE. cbn.
    rewrite Hr, (proj2 (Nat.eqb_neq _ _)) by lia. by rewrite Hp. }
  pose proof (put_vlq_length (hs_time h)) as Hv.
  assert (0 < length (handshake_head h))%nat as Hlh by (unfold handshake_head; lens).
  split.
  - intros reader Hr. apply Hread; [done|rewrite Htl; lens|].
    pose proof (handshake_parse_app h [] Ht Hf) as Hrt. rewrite app_nil_r in Hrt. by apply Hrt.
  - exists (length (handshake_head h)). split.
    + rewrite Htl, length_app. destruct tl; [done|cbn; lia].
    + intros reader Hr. apply Hread; rewrite ?Htl, ?take_app_length in *; done.
Qed.

(** However a peer feeds the stream, the accumulating loop returns: each
    iteration reads a byte, closes, or ends.  The buffer never exceeds the
    limit by more than one read. *)
Theorem read_handshake_returns reader :
  (forall k, Z.of_nat (length (reader k)) <= 1024) ->
  exists r buffer, read_handshake (Z.to_nat (MAX_HANDSHAKE_SIZE + 2)) reader 0 [] = Some (r, buffer) /\
    Z.of_nat (length buffer) <= MAX_HANDSHAKE_SIZE + 1024 /\
    match r with Ok h => HandshakeData_parse buffer = Ok h | Err _ => True end.
Proof.
  intros Hr.
  assert (forall fuel k buffer, MAX_HANDSHAKE_SIZE + 2 <= Z.of_nat fuel + Z.of_nat (length buffer) ->
    (0 < fuel)%nat -> Z.of_nat (length buffer) <= MAX_HANDSHAKE_SIZE + 1024 ->
    exists r buffer', read_handshake fuel reader k buffer = Some (r, buffer') /\
      Z.of_nat (length buffer') <= MAX_HANDSHAKE_SIZE + 1024 /\
      match r with Ok h => HandshakeData_parse buffer' = Ok h | Err _ => True end) as Hgen.
  2:{ apply Hgen; unfold MAX_HANDSHAKE_SIZE; cbn [length]; lia. }
  induction fuel as [|fuel IH]; intros k buffer Hb Hf Hmax; [lia|]. cbn [read_handshake].
  destruct (if (length buffer =? 0)%nat then _ else _) as [h|e] eqn:E.
  { exists (Ok h), buffer. split; [done|]. split; [lia|]. by destruct (length buffer =? 0)%nat. }
  assert (exists r buffer',
    (if Z.of_nat (length buffer) >? MAX_HANDSHAKE_SIZE
     then Some (Err (NE_InvalidMessage "Handshake too large"), buffer)
     else if (length (reader k) =? 0)%nat then Some (Err NE_ConnectionClosed, buffer)
     else
       match HandshakeData_parse (buffer ++ reader k) with
       | Ok handshake => Some (Ok handshake, buffer ++ reader k)
       | Err (NE_Panic msg) => Some (Err (NE_Panic msg), buffer ++ reader k)
       | Err _ => read_handshake fuel reader (S k) (buffer ++ reader k)
       end) = Some (r, buffer') /\
    Z.of_nat (length buffer') <= MAX_HANDSHAKE_SIZE + 1024 /\
    match r with Ok h => HandshakeData_parse buffer' = Ok h | Err _ => True end) as Hnext.
  { destruct (_ >? _) eqn:E1; [by eexists _, _|]. zify_bool.
    destruct (Nat.eqb_spec (length (reader k)) 0) as [E2|E2]; [by eexists _, _|].
    specialize (Hr k).
    assert (Z.of_nat (length (buffer ++ reader k)) <= MAX_HANDSHAKE_SIZE + 1024) as Hn by lens.
    destruct (HandshakeData_parse (buffer ++ reader k)) as [h'|e'] eqn:E3; [by eexists _, _|].
    destruct e'; try (by eexists _, _); apply IH; unfold MAX_HANDSHAKE_SIZE in *; lens. }
  destruct e; try exact Hnext. by eexists _, _.
Qed.

(** ** The service's own reader *)

(** What arrives in the same read as the end of the handshake is dropped with
    the reader's buffer: the next frame is looked for in the reads after it. *)
Theorem handshake_read_ahead_lost h ahead rest :
  handshake_typed h -> spec_fits (from_handshake h) ->
  (10 < length (HandshakeData_serialize h))%nat ->
  Z.of_nat (length (HandshakeData_serialize h ++ ahead)) <= 8096 ->
  read_raw_handshake [] (SR_Bytes (HandshakeData_serialize h ++ ahead) :: rest) = Some (Ok h, rest).
Proof.
  intros Ht Hf Hl Hm. cbn [read_raw_handshake try_parse length Nat.ltb Nat.leb]. cbn [app].
  assert (length (HandshakeData_serialize h ++ ahead) =? 0 = false)%nat as -> by (apply Nat.eqb_neq; lens).
  assert (read_raw_handshake (HandshakeData_serialize h ++ ahead) rest = Some (Ok h, rest)) as Hr; [|exact Hr].
  assert (try_parse (HandshakeData_serialize h ++ ahead) = Some (Ok h)) as Hp.
  { unfold try_parse. rewrite (proj2 (Nat.ltb_lt _ _)) by lens.
    by rewrite (handshake_parse_app h ahead Ht Hf) by (unfold MAX_HANDSHAKE_SIZE; lia). }
  assert (Z.of_nat (length (HandshakeData_serialize h ++ ahead)) >? 8096 = false) as Hs by (zify_bool; lia).
  destruct rest; cbn [read_raw_handshake]; by rewrite Hs, Hp.
Qed.

(** The reader ends within 8098 reads. *)
Lemma read_raw_returns stream buffer :
  8098 <= Z.of_nat (length stream) + Z.of_nat (length buffer) ->
  exists r rest, read_raw_handshake buffer stream = Some (r, rest).
Proof.
  revert buffer. induction stream as [|e stream IH]; intros buffer Hl; cbn [read_raw_handshake].
  - cbn [length] in Hl. destruct (_ >? _) eqn:E; [by eexists _, _|]. zify_bool. lia.
  - destruct (_ >? _); [by eexists _, _|]. destruct (try_parse buffer) as [r|]; [by eexists _, _|].
    destruct e as [bs|msg|]; [|by eexists _, _|by eexists _, _].
    destruct (Nat.eqb_spec (length bs) 0); [by eexists _, _|]. apply IH. cbn [length] in Hl. lens.
Qed.

Module HandshakeExample.

(** "ergo" and "n1", an IPv4 address, and the features of the main network. *)
Definition h1 : HandshakeData :=
  let h := with_mainnet_features
    (HandshakeData_new 1767778037901 [101; 114; 103; 111] (5, 0, 0) [110; 49]) 12345 in
  mkHandshakeData (hs_time h) (hs_agent_name h) (hs_version h) (hs_peer_name h)
    (Some (mkDeclaredAddress (IP_V4 [159; 89; 116; 15]) 9030)) (hs_features h).

Lemma ascii_ok bs : forallb (fun b => (0 <=? b) && (b <? 128)) bs = true -> utf8 bs.
Proof.
  intros H. apply ascii_utf8, Forall_forall. intros b Hb. apply list_elem_of_In in Hb.
  pose proof (proj1 (forallb_forall _ _) H b Hb). cbn beta in *. zify_bool. lia.
Qed.

Lemma h1_typed : handshake_typed h1.
Proof.
  split; [by vm_compute|]. constructor; cbn.
  - by apply ascii_ok.
  - unfold in_u. lia.
  - by apply ascii_ok.
  - intros a [= <-]. split; [split; [done|repeat constructor; unfold byte_ok; lia]|unfold in_u; cbn; lia].
  - repeat constructor; unfold in_u, in_i, byte_ok; cbn; try lia; try done.
Qed.

Lemma h1_fits : spec_fits (from_handshake h1).
Proof. constructor; cbn; try lia. repeat constructor. Qed.

Lemma h1_lengths : lengths_fit h1.
Proof. constructor; cbn; try lia. repeat constructor. Qed.

(** The same with an IPv6 local address, and another peer's unknown feature. *)
Definition h2 : HandshakeData :=
  mkHandshakeData (hs_time h1) (hs_agent_name h1) (hs_version h1) (hs_peer_name h1) (hs_declared_addr h1)
    [PF_LocalAddress (IP_V6 (replicate 16 1)) 9030; PF_Unknown 77 [1; 2; 3]].

Lemma h2_typed : handshake_typed h2.
Proof.
  destruct h1_typed as [Ht [Ha Hv Hp Hd _]]. split; [done|]. constructor; try done.
  repeat constructor; unfold in_u, byte_ok; cbn; lia.
Qed.

Lemma h2_lengths : lengths_fit h2.
Proof.
  constructor; cbn; try lia. repeat constructor. intros [[? _]|[[? _]|[[? _]|[? _]]]]; done.
Qed.

Lemma handshake_roundtrip_witness :
  HandshakeData_parse (HandshakeData_serialize h1 ++ [7; 7]) = Ok h1 /\
  (exists h, HandshakeData_parse (HandshakeData_serialize h2) = Ok h /\
     hs_features h = [PF_Unknown 2 (replicate 16 1 ++ [0; 0; 35; 70]); PF_Unknown 77 [1; 2; 3]]).
Proof.
  split.
  - apply (handshake_roundtrip h1 [7; 7] h1_typed h1_lengths); [by vm_compute|].
    repeat constructor; intros o p; discriminate.
  - exists (reread h2). split; [|vm_compute; reflexivity].
    destruct (handshake_roundtrip h2 [] h2_typed h2_lengths ltac:(by vm_compute)) as [Hp _].
    rewrite app_nil_r in Hp. exact Hp.
Defined.

Lemma handshake_depends_on_reads_witness :
  exists n, (n < length (HandshakeData_serialize h1))%nat /\
    read_handshake 1 (fun _ => take n (HandshakeData_serialize h1)) 0 [] =
    Some (Ok (headless h1), take n (HandshakeData_serialize h1)).
Proof.
  destruct (handshake_depends_on_reads h1 h1_typed h1_fits ltac:(by vm_compute)) as (_ & n & Hn & H).
  exists n. split; [exact Hn|]. by apply H.
Defined.

(** The whole handshake arrives after one byte. *)
Lemma read_handshake_returns_witness :
  exists r buffer, read_handshake (Z.to_nat (MAX_HANDSHAKE_SIZE + 2))
    (fun k => match k with O => take 1 (HandshakeData_serialize h1) | _ => drop 1 (HandshakeData_serialize h1) end)
    0 [] = Some (r, buffer) /\ Z.of_nat (length buffer) <= MAX_HANDSHAKE_SIZE + 1024.
Proof.
  destruct (read_handshake_returns (fun k => match k with
    | O => take 1 (HandshakeData_serialize h1) | _ => drop 1 (HandshakeData_serialize h1) end))
    as (r & b & Hr & Hb & _).
  - intros [|k]; vm_compute; discriminate.
  - exists r, b. split; [exact Hr|exact Hb].
Defined.

Lemma feature_length_panics_witness :
  exists msg, HandshakeData_parse (handshake_head h1 ++ [0; 1; 9] ++ put_vlq (2 ^ 64 - 1) ++ []) =
    Err (NE_Panic msg).
Proof. apply feature_length_panics; [apply h1_typed|apply h1_fits|by vm_compute]. Defined.

(** A ping sent right after the handshake. *)
Lemma handshake_read_ahead_lost_witness :
  read_raw_handshake [] [SR_Bytes (HandshakeData_serialize h1 ++ MAINNET_MAGIC ++ [1; 0; 0; 0; 0])] = Some (Ok h1, []).
Proof. apply handshake_read_ahead_lost; [apply h1_typed|apply h1_fits|by apply Nat.ltb_lt; vm_compute|by vm_compute]. Defined.

End HandshakeExample.
