(* ===== verification/Message.v ===== *)
(** * P2P messages (crates/ergo-network/src/message.rs)

    The messages, their payload formats and the message types.  The JSON of the
    [Handshake] message is serde_json's, and the size the compiler gives a
    [PeerSpec] is a parameter.  Reads of the [bytes] crate beyond the buffer,
    slices and allocations that panic are outcomes. *)

From S2P Require Export HandshakeSpec.

Local Open Scope Z_scope.

Inductive MessageType :=
  | MT_GetPeers | MT_Peers | MT_Handshake | MT_SyncInfo | MT_Inv | MT_RequestModifier | MT_Modifier
  | MT_GetSnapshotsInfo | MT_SnapshotsInfo | MT_GetManifest | MT_Manifest
  | MT_GetUtxoSnapshotChunk | MT_UtxoSnapshotChunk.

(** [as u8]. *)
Definition type_byte (t : MessageType) : Z :=
  match t with
  | MT_GetPeers => 1 | MT_Peers => 2 | MT_Handshake => 75 | MT_SyncInfo => 65 | MT_Inv => 55
  | MT_RequestModifier => 22 | MT_Modifier => 33 | MT_GetSnapshotsInfo => 76 | MT_SnapshotsInfo => 77
  | MT_GetManifest => 78 | MT_Manifest => 79 | MT_GetUtxoSnapshotChunk => 80 | MT_UtxoSnapshotChunk => 81
  end.

Definition type_of_byte (value : Z) : result MessageType NetworkError :=
  match value with
  | 1 => Ok MT_GetPeers | 2 => Ok MT_Peers | 75 => Ok MT_Handshake | 65 => Ok MT_SyncInfo | 55 => Ok MT_Inv
  | 22 => Ok MT_RequestModifier | 33 => Ok MT_Modifier | 76 => Ok MT_GetSnapshotsInfo
  | 77 => Ok MT_SnapshotsInfo | 78 => Ok MT_GetManifest | 79 => Ok MT_Manifest
  | 80 => Ok MT_GetUtxoSnapshotChunk | 81 => Ok MT_UtxoSnapshotChunk
  | _ => Err (NE_InvalidMessage "Unknown message type")
  end.

(** The [Handshake] of message.rs, apart from the raw handshake of
    handshake.rs. *)
Record MHandshake := mkMHandshake {
  mh_agent_name : bytes;
  mh_version : Z * Z * Z;
  mh_node_name : bytes;
  mh_declared_addr : option bytes;
  mh_features : bytes
}.
Definition MHandshake_new (agent_name : bytes) (version : Z * Z * Z) (node_name : bytes) : MHandshake :=
  mkMHandshake agent_name version node_name None [].

Record SyncInfo := mkSyncInfo { last_header_ids : list bytes; last_headers : list bytes }.
Definition SyncInfo_empty : SyncInfo := mkSyncInfo [] [].
Definition SyncInfo_v1 (header_ids : list bytes) : SyncInfo := mkSyncInfo header_ids [].
Definition SyncInfo_v2 (headers : list bytes) : SyncInfo := mkSyncInfo [] headers.
Definition is_v2 (s : SyncInfo) : bool := negb (length (last_headers s) =? 0)%nat.

Record InvData := mkInvData { inv_type_id : Z; inv_ids : list bytes }.
Record ModifierRequest := mkModifierRequest { mr_type_id : Z; mr_ids : list bytes }.
Record ModifierItem := mkModifierItem { mi_id : bytes; mi_data : bytes }.
Record ModifierData := mkModifierData { md_type_id : Z; md_modifiers : list ModifierItem }.

Definition MAX_MANIFEST_SIZE : Z := 4 * 1024 * 1024.
Definition MAX_CHUNK_SIZE : Z := 4 * 1024 * 1024.
Definition MAX_SNAPSHOTS_INFO_ENTRIES : Z := 100.

Record SnapshotsInfo := mkSnapshotsInfo { available_manifests : list (Z * bytes) }.
Definition SnapshotsInfo_empty : SnapshotsInfo := mkSnapshotsInfo [].

Inductive Message :=
  | M_Handshake (h : MHandshake)
  | M_GetPeers
  | M_Peers (peers : list PeerSpec)
  | M_SyncInfo (info : SyncInfo)
  | M_Inv (inv : InvData)
  | M_RequestModifier (req : ModifierRequest)
  | M_Modifier (m : ModifierData)
  | M_GetSnapshotsInfo
  | M_SnapshotsInfo (info : SnapshotsInfo)
  | M_GetManifest (manifest_id : bytes)
  | M_Manifest (data : bytes)
  | M_GetUtxoSnapshotChunk (subtree_id : bytes)
  | M_UtxoSnapshotChunk (data : bytes).

Definition message_type (m : Message) : MessageType :=
  match m with
  | M_Handshake _ => MT_Handshake
  | M_GetPeers => MT_GetPeers
  | M_Peers _ => MT_Peers
  | M_SyncInfo _ => MT_SyncInfo
  | M_Inv _ => MT_Inv
  | M_RequestModifier _ => MT_RequestModifier
  | M_Modifier _ => MT_Modifier
  | M_GetSnapshotsInfo => MT_GetSnapshotsInfo
  | M_SnapshotsInfo _ => MT_SnapshotsInfo
  | M_GetManifest _ => MT_GetManifest
  | M_Manifest _ => MT_Manifest
  | M_GetUtxoSnapshotChunk _ => MT_GetUtxoSnapshotChunk
  | M_UtxoSnapshotChunk _ => MT_UtxoSnapshotChunk
  end.

(** serde_json and the layout of [PeerSpec]. *)
Class MessageLib := {
  handshake_to_json : MHandshake -> option bytes;
  handshake_of_json : bytes -> option MHandshake;
  size_of_peer_spec : Z
}.

(** What is documented of them: parsing undoes printing, and ten million
    elements are a legal allocation. *)
Class MessageLibLaws `{MessageLib} := {
  json_roundtrip h bs : handshake_to_json h = Some bs -> handshake_of_json bs = Some h;
  peer_spec_fits : 0 <= size_of_peer_spec /\ size_of_peer_spec * MAX_MESSAGE_SIZE <= ISIZE_MAX
}.

(** ** Readers that can panic *)

(** [Vec::with_capacity(count)] of elements of a size. *)
Definition with_capacity (count size : Z) : result unit NetworkError :=
  if count * size >? ISIZE_MAX then Err (NE_Panic "capacity overflow") else Ok tt.
Definition SIZE_OF_VEC : Z := 24.
Definition SIZE_OF_MODIFIER_ITEM : Z := 48.

Definition advance (bs : bytes) (n : nat) : result bytes NetworkError :=
  if (length bs <? n)%nat then Err (NE_Panic "cannot advance past the end") else Ok (drop n bs).

Definition get_u8 (bs : bytes) : result (Z * bytes) NetworkError :=
  match bs with [] => Err (NE_Panic "buffer exhausted") | b :: bs => Ok (b, bs) end.

Definition get_u32 (bs : bytes) : result (Z * bytes) NetworkError :=
  if (length bs <? 4)%nat then Err (NE_Panic "buffer exhausted")
  else Ok (be_val (take 4 bs), drop 4 bs).

(** ** Sync info *)

Definition put_v2_header (header : bytes) : bytes := put_vlq (Z.of_nat (length header)) ++ header.

Definition SyncInfo_serialize (s : SyncInfo) : bytes :=
  if is_v2 s then
    put_vlq 0 ++ [0xFF; u8 (Z.of_nat (length (last_headers s)))] ++ concat (put_v2_header <$> last_headers s)
  else put_vlq (Z.of_nat (length (last_header_ids s))) ++ concat (last_header_ids s).

Fixpoint parse_v2_headers (count : nat) (data : bytes) (pos : nat) : result (list bytes) NetworkError :=
  match count with
  | O => Ok []
  | S count' =>
      if (length data <=? pos)%nat then Ok []
      else
        let? (len, pos) := net_vlq_decode data pos in
        let end_ := u64 (Z.of_nat pos + len) in
        if end_ >? Z.of_nat (length data) then Ok []
        else if end_ <? Z.of_nat pos then Err (NE_Panic "slice index starts after its end")
        else
          let? headers := parse_v2_headers count' data (Z.to_nat end_) in
          Ok (slice pos (Z.to_nat end_) data :: headers)
  end.

(** At most [count] identifiers, while there are 32 bytes left; one iteration
    per identifier, so the length of the data is enough. *)
Fixpoint take_ids (fuel : nat) (count : Z) (bs : bytes) : list bytes :=
  match fuel with
  | O => []
  | S fuel' =>
      if (count >? 0) && (32 <=? length bs)%nat
      then take 32 bs :: take_ids fuel' (count - 1) (drop 32 bs)
      else []
  end.

Definition SyncInfo_parse (data : bytes) : result SyncInfo NetworkError :=
  if (length data =? 0)%nat then Ok SyncInfo_empty
  else
    let? (count, pos) := net_vlq_decode data 0 in
    if (count =? 0) && (pos <? length data)%nat && (byte_at data pos =? 0xFF) then
      let pos := S pos in
      if (length data <=? pos)%nat then Ok SyncInfo_empty
      else
        let header_count := byte_at data pos in
        let? headers := parse_v2_headers (Z.to_nat header_count) data (S pos) in
        Ok (SyncInfo_v2 headers)
    else
      let? _ := with_capacity count SIZE_OF_VEC in
      Ok (SyncInfo_v1 (take_ids (length data) count (drop pos data))).

(** ** Snapshots *)

Definition put_manifest (m : Z * bytes) : bytes := be_bytes 4 (m.1) ++ m.2.
Definition SnapshotsInfo_serialize (s : SnapshotsInfo) : bytes :=
  put_vlq (Z.of_nat (length (available_manifests s))) ++ concat (put_manifest <$> available_manifests s).

Fixpoint parse_manifests (count : nat) (data : bytes) (pos : nat)
    : result (list (Z * bytes)) NetworkError :=
  match count with
  | O => Ok []
  | S count' =>
      if (length data <? pos + 4 + 32)%nat then Err (NE_InvalidMessage "Truncated snapshots info")
      else
        let height := be_val (slice pos (pos + 4) data) in
        let pos := (pos + 4)%nat in
        let manifest_id := slice pos (pos + 32) data in
        let? rest := parse_manifests count' data (pos + 32) in
        Ok ((height, manifest_id) :: rest)
  end.

Definition SnapshotsInfo_parse (data : bytes) : result SnapshotsInfo NetworkError :=
  if (length data =? 0)%nat then Ok SnapshotsInfo_empty
  else
    let? (count, pos) := net_vlq_decode data 0 in
    if count >? MAX_SNAPSHOTS_INFO_ENTRIES then Err (NE_InvalidMessage "Too many snapshots info entries")
    else
      let? manifests := parse_manifests (Z.to_nat count) data pos in
      Ok (mkSnapshotsInfo manifests).

(** ** Messages *)

Section Message.
Context `{MessageLib}.

Definition put_ids (type_id : Z) (ids : list bytes) : bytes :=
  type_id :: put_vlq (Z.of_nat (length ids)) ++ concat ids.
Definition put_item (item : ModifierItem) : bytes :=
  mi_id item ++ put_vlq (Z.of_nat (length (mi_data item))) ++ mi_data item.
Definition put_data (data : bytes) : bytes := put_vlq (Z.of_nat (length data)) ++ data.

Definition encode_body (m : Message) : result bytes NetworkError :=
  match m with
  | M_Handshake h =>
      match handshake_to_json h with
      | None => Err (NE_Serialization "json")
      | Some json => Ok (be_bytes 4 (u32 (Z.of_nat (length json))) ++ json)
      end
  | M_GetPeers => Ok []
  | M_Peers peers => Ok (put_vlq (Z.of_nat (length peers)) ++ concat (PeerSpec_serialize <$> peers))
  | M_SyncInfo info => Ok (SyncInfo_serialize info)
  | M_Inv inv => Ok (put_ids (inv_type_id inv) (inv_ids inv))
  | M_RequestModifier req => Ok (put_ids (mr_type_id req) (mr_ids req))
  | M_Modifier m =>
      Ok (md_type_id m :: put_vlq (Z.of_nat (length (md_modifiers m))) ++ concat (put_item <$> md_modifiers m))
  | M_GetSnapshotsInfo => Ok []
  | M_SnapshotsInfo info => Ok (SnapshotsInfo_serialize info)
  | M_GetManifest manifest_id => Ok manifest_id
  | M_Manifest data => Ok (put_data data)
  | M_GetUtxoSnapshotChunk subtree_id => Ok subtree_id
  | M_UtxoSnapshotChunk data => Ok (put_data data)
  end.

Definition Message_encode (m : Message) : result bytes NetworkError :=
  let? body := encode_body m in Ok (type_byte (message_type m) :: body).

(** [PeerSpec::parse] [count] times. *)
Fixpoint parse_peers (count : nat) (data : bytes) (pos : nat) : result (list PeerSpec) NetworkError :=
  match count with
  | O => Ok []
  | S count' =>
      let? (spec, pos) := PeerSpec_parse data pos in
      let? peers := parse_peers count' data pos in
      Ok (spec :: peers)
  end.

(** The type and identifiers of an inventory or a request: the decoder skips
    the length of the canonical encoding of the count. *)
Definition decode_ids (bs : bytes) : result (Z * list bytes) NetworkError :=
  let? (type_id, bs) := get_u8 bs in
  let? (count, _) := net_vlq_decode bs 0 in
  let? bs := advance bs (vlq_byte_len count) in
  let? _ := with_capacity count SIZE_OF_VEC in
  Ok (type_id, take_ids (length bs) count bs).

Fixpoint decode_items (count : nat) (bs : bytes) : result (list ModifierItem) NetworkError :=
  match count with
  | O => Ok []
  | S count' =>
      if (length bs <? 32)%nat then Err (NE_InvalidMessage "Modifier ID truncated")
      else
        let id := take 32 bs in
        let bs := drop 32 bs in
        let? (len, vlq_len) := net_vlq_decode bs 0 in
        let? bs := advance bs vlq_len in
        if Z.of_nat (length bs) <? len then Err (NE_InvalidMessage "Modifier data truncated")
        else
          let data := take (Z.to_nat len) bs in
          let? items := decode_items count' (drop (Z.to_nat len) bs) in
          Ok (mkModifierItem id data :: items)
  end.

Definition decode_data (max : Z) (bs : bytes) : result bytes NetworkError :=
  let? (len, vlq_len) := net_vlq_decode bs 0 in
  let? bs := advance bs vlq_len in
  if len >? max then Err (NE_InvalidMessage "too large")
  else if Z.of_nat (length bs) <? len then Err (NE_InvalidMessage "data truncated")
  else Ok (take (Z.to_nat len) bs).

Definition decode_id (bs : bytes) : result bytes NetworkError :=
  if (length bs <? 32)%nat then Err (NE_InvalidMessage "ID truncated") else Ok (take 32 bs).

(** A loop that fails on missing data runs at most once per byte. *)
Definition loop_count (count : Z) (bs : bytes) : nat :=
  Z.to_nat (Z.min count (Z.of_nat (length bs) + 1)).

Definition decode_body (t : MessageType) (bs : bytes) : result Message NetworkError :=
  match t with
  | MT_Handshake =>
      let? (len, bs) := get_u32 bs in
      if Z.of_nat (length bs) <? len then Err (NE_InvalidMessage "Truncated handshake")
      else
        match handshake_of_json (take (Z.to_nat len) bs) with
        | Some h => Ok (M_Handshake h)
        | None => Err (NE_Serialization "json")
        end
  | MT_GetPeers => Ok M_GetPeers
  | MT_Peers =>
      let? (count, pos) := net_vlq_decode bs 0 in
      let? _ := with_capacity count size_of_peer_spec in
      let? peers := parse_peers (loop_count count bs) bs pos in
      Ok (M_Peers peers)
  | MT_SyncInfo => let? info := SyncInfo_parse bs in Ok (M_SyncInfo info)
  | MT_Inv => let? (type_id, ids) := decode_ids bs in Ok (M_Inv (mkInvData type_id ids))
  | MT_RequestModifier =>
      let? (type_id, ids) := decode_ids bs in Ok (M_RequestModifier (mkModifierRequest type_id ids))
  | MT_Modifier =>
      let? (type_id, bs) := get_u8 bs in
      let? (count, vlq_len) := net_vlq_decode bs 0 in
      let? bs := advance bs vlq_len in
      let? _ := with_capacity count SIZE_OF_MODIFIER_ITEM in
      let? modifiers := decode_items (loop_count count bs) bs in
      Ok (M_Modifier (mkModifierData type_id modifiers))
  | MT_GetSnapshotsInfo => Ok M_GetSnapshotsInfo
  | MT_SnapshotsInfo => let? info := SnapshotsInfo_parse bs in Ok (M_SnapshotsInfo info)
  | MT_GetManifest => let? id := decode_id bs in Ok (M_GetManifest id)
  | MT_Manifest => let? data := decode_data MAX_MANIFEST_SIZE bs in Ok (M_Manifest data)
  | MT_GetUtxoSnapshotChunk => let? id := decode_id bs in Ok (M_GetUtxoSnapshotChunk id)
  | MT_UtxoSnapshotChunk => let? data := decode_data MAX_CHUNK_SIZE bs in Ok (M_UtxoSnapshotChunk data)
  end.

Definition Message_decode (bs : bytes) : result Message NetworkError :=
  match bs with
  | [] => Err (NE_InvalidMessage "Empty message")
  | b :: bs => let? t := type_of_byte b in decode_body t bs
  end.

End Message.
