(* ===== verification/MessageSpec.v ===== *)
(** * Messages are read back

    Every well-formed message whose payload fits the message limit decodes from
    its encoding; short payloads that make the decoder panic. *)

From S2P Require Export Message.

Local Open Scope Z_scope.

(** ** Well-formed messages *)

Definition id_ok (id : bytes) : Prop := length id = 32%nat.

Definition sync_info_ok (s : SyncInfo) : Prop :=
  (last_headers s = [] /\ Forall id_ok (last_header_ids s)) \/
  (last_header_ids s = [] /\ last_headers s <> [] /\ (length (last_headers s) < 256)%nat).

Section Spec.
Context `{MessageLibLaws}.

Definition message_ok (m : Message) : Prop :=
  match m with
  | M_Handshake h => True
  | M_Peers peers => Forall spec_typed peers /\ Forall spec_fits peers
  | M_SyncInfo info => sync_info_ok info
  | M_Inv inv => Forall id_ok (inv_ids inv)
  | M_RequestModifier req => Forall id_ok (mr_ids req)
  | M_Modifier m => Forall (fun i => id_ok (mi_id i)) (md_modifiers m)
  | M_SnapshotsInfo info =>
      Z.of_nat (length (available_manifests info)) <= MAX_SNAPSHOTS_INFO_ENTRIES /\
      Forall (fun x => in_u 32 x.1 /\ id_ok x.2) (available_manifests info)
  | M_GetManifest id => id_ok id
  | M_Manifest data => Z.of_nat (length data) <= MAX_MANIFEST_SIZE
  | M_GetUtxoSnapshotChunk id => id_ok id
  | M_UtxoSnapshotChunk data => Z.of_nat (length data) <= MAX_CHUNK_SIZE
  | M_GetPeers | M_GetSnapshotsInfo => True
  end.

(** ** Loops over concatenated items *)

Lemma take_ids_app ids post fuel :
  Forall id_ok ids -> (length ids < fuel)%nat ->
  take_ids fuel (Z.of_nat (length ids)) (concat ids ++ post) = ids.
Proof.
  intros Hids. revert fuel. induction Hids as [|id ids Hid _ IH]; intros [|fuel] Hf; try lia; [done|].
  cbn [length take_ids concat] in *. unfold id_ok in Hid.
  destruct (_ >? _) eqn:E; zify_bool; [|lia]. cbn [andb]. bounds. rewrite <- app_assoc.
  rewrite take_app_length', drop_app_length' by done.
  replace (Z.of_nat (S (length ids)) - 1) with (Z.of_nat (length ids)) by lia. by rewrite IH by lia.
Qed.

Lemma ids_length ids : Forall id_ok ids -> length (concat ids) = (32 * length ids)%nat.
Proof. induction 1 as [|id ids Hid _ IH]; [done|]. cbn [concat length]. rewrite length_app, IH, Hid. lia. Qed.

Lemma concat_length_ge {A} (f : A -> bytes) (l : list A) n :
  Forall (fun x => (n <= length (f x))%nat) l -> (n * length l <= length (concat (f <$> l)))%nat.
Proof. induction 1 as [|x l Hx _ IH]; cbn [length fmap list_fmap concat]; rewrite ?length_app; lia. Qed.

Lemma parse_v2_headers_app hs pre post pos :
  length pre = pos -> Z.of_nat (length (pre ++ concat (put_v2_header <$> hs) ++ post)) < 2 ^ 63 ->
  parse_v2_headers (length hs) (pre ++ concat (put_v2_header <$> hs) ++ post) pos = Ok hs.
Proof.
  intros Hpos Hl. revert pre pos Hpos Hl. induction hs as [|hd hs IH]; intros pre pos Hpos Hl; [done|].
  cbn [length parse_v2_headers fmap list_fmap concat] in *. change (put_v2_header hd) with (put_vlq (Z.of_nat (length hd)) ++ hd) in *.
  rewrite <- !app_assoc in Hl |- *.
  pose proof (put_vlq_length (Z.of_nat (length hd))). bounds.
  rewrite net_vlq_decode_app; [|done|unfold in_u; lens]. cbn [rbind].
  rewrite (app_assoc pre) in Hl |- *. rewrite u64_id by lens.
  destruct (_ >? _) eqn:E; zify_bool; [lens|]. clear E.
  destruct (_ <? _) eqn:E; zify_bool; [lens|]. clear E.
  rewrite (slice_mid _ _ _ hd) by lens. rewrite (app_assoc _ hd) in Hl |- *.
  rewrite IH; [done|lens|done].
Qed.

Lemma parse_manifests_app ms pre post pos :
  length pre = pos -> Forall (fun x => in_u 32 x.1 /\ id_ok x.2) ms ->
  parse_manifests (length ms) (pre ++ concat (put_manifest <$> ms) ++ post) pos = Ok ms.
Proof.
  intros Hpos Hms. revert pre pos Hpos. induction Hms as [|[h id] ms [Hh Hid] _ IH]; intros pre pos Hpos; [done|].
  cbn [length parse_manifests fmap list_fmap concat put_manifest fst snd] in *. unfold id_ok in Hid.
  change (put_manifest (h, id)) with (be_bytes 4 h ++ id). pose proof (be_bytes_length 4 h) as Hb. rewrite <- !app_assoc. bounds.
  rewrite (slice_mid _ _ pre (be_bytes 4 h)) by lens.
  rewrite be_val_bytes by (unfold in_u in Hh; change (256 ^ Z.of_nat 4) with (2 ^ 32); lia).
  rewrite (app_assoc pre), (slice_mid _ _ _ id) by lens. rewrite (app_assoc _ id), IH by lens. done.
Qed.

Lemma decode_items_app items post :
  Forall (fun i => id_ok (mi_id i)) items -> Z.of_nat (length (concat (put_item <$> items))) < 2 ^ 63 ->
  decode_items (length items) (concat (put_item <$> items) ++ post) = Ok items.
Proof.
  intros Hids. induction Hids as [|[id data] items Hid _ IH]; intros Hl; [done|].
  cbn [length decode_items fmap list_fmap concat] in *. 
  change (put_item (mkModifierItem id data)) with (id ++ put_vlq (Z.of_nat (length data)) ++ data) in *.
  cbn [mi_id mi_data] in *. unfold id_ok in Hid. rewrite <- !app_assoc in Hl |- *. bounds.
  rewrite take_app_length', drop_app_length', <- !app_assoc by done.
  pose proof (net_vlq_decode_app [] (Z.of_nat (length data))
    (data ++ concat (put_item <$> items) ++ post) 0 eq_refl) as Hd. cbn [app] in Hd.
  rewrite Hd by (unfold in_u; lens). cbn [rbind Nat.add]. unfold advance. bounds. cbn [rbind].
  rewrite drop_app_length'. 2: done.
  destruct (_ <? _) eqn:E; zify_bool; [lens|]. clear E.
  rewrite Nat2Z.id, take_app_length, drop_app_length, IH by lens. done.
Qed.

Lemma parse_peers_app ps pre post pos :
  length pre = pos -> Z.of_nat (length (pre ++ concat (PeerSpec_serialize <$> ps) ++ post)) < 2 ^ 63 ->
  Forall spec_typed ps -> Forall spec_fits ps ->
  parse_peers (length ps) (pre ++ concat (PeerSpec_serialize <$> ps) ++ post) pos = Ok ps.
Proof.
  intros Hpos Hl Ht Hf. revert pre pos Hpos Hl. induction ps as [|p ps IH]; intros pre pos Hpos Hl; [done|].
  inversion Ht; inversion Hf; subst. cbn [length parse_peers fmap list_fmap concat] in *.
  rewrite <- app_assoc in Hl |- *. unfold PeerSpec_parse. rewrite read_spec_app by done. cbn [rbind].
  rewrite (app_assoc pre) in Hl |- *. rewrite IH; [done|done|done|lens|done].
Qed.

(** ** The payloads *)

Lemma decode_ids_put type_id ids :
  Forall id_ok ids -> Z.of_nat (length (put_ids type_id ids)) <= MAX_MESSAGE_SIZE ->
  decode_ids (put_ids type_id ids) = Ok (type_id, ids).
Proof.
  intros Hids Hl. unfold put_ids, decode_ids in *. cbn [get_u8 rbind].
  pose proof (ids_length ids Hids) as Hi. unfold MAX_MESSAGE_SIZE in Hl.
  assert (in_u 64 (Z.of_nat (length ids))) as Hu by (unfold in_u; lens).
  pose proof (net_vlq_decode_app [] _ (concat ids) 0 eq_refl Hu) as Hd.
  cbn [app] in Hd. rewrite Hd. cbn [rbind]. rewrite vlq_byte_len_spec, <- put_vlq_encode by done.
  unfold advance. bounds. cbn [rbind]. rewrite drop_app_length. unfold with_capacity, SIZE_OF_VEC, ISIZE_MAX.
  destruct (_ >? _) eqn:E; zify_bool; [lens|]. cbn [rbind].
  pose proof (take_ids_app ids [] (length (concat ids)) Hids) as Ht. rewrite app_nil_r in Ht.
  destruct ids as [|id ids]; [done|]. rewrite Ht by (rewrite Hi; cbn [length]; lia). done.
Qed.

Lemma decode_data_put max data :
  Z.of_nat (length data) <= max -> max <= MAX_MESSAGE_SIZE -> decode_data max (put_data data) = Ok data.
Proof.
  intros Hl Hm. unfold decode_data, put_data, MAX_MESSAGE_SIZE in *.
  pose proof (net_vlq_decode_app [] (Z.of_nat (length data)) data 0 eq_refl) as Hd. cbn [app] in Hd.
  rewrite Hd by (unfold in_u; lia). cbn [rbind Nat.add]. unfold advance. bounds. cbn [rbind].
  rewrite drop_app_length. destruct (_ >? _) eqn:E; zify_bool; [lia|].
  destruct (_ <? _) eqn:E2; zify_bool; [lia|]. by rewrite Nat2Z.id, firstn_all.
Qed.

Lemma sync_info_read_back s :
  sync_info_ok s -> Z.of_nat (length (SyncInfo_serialize s)) <= MAX_MESSAGE_SIZE ->
  SyncInfo_parse (SyncInfo_serialize s) = Ok s.
Proof.
  destruct s as [ids hs]. unfold sync_info_ok, SyncInfo_parse, SyncInfo_serialize, is_v2, MAX_MESSAGE_SIZE.
  cbn [last_headers last_header_ids]. intros [[-> Hids]|(-> & Hne & Hn)] Hl.
  - cbn [length Nat.eqb negb] in *. pose proof (put_vlq_length (Z.of_nat (length ids))).
    pose proof (ids_length ids Hids) as Hi. bounds.
    assert (in_u 64 (Z.of_nat (length ids))) as Hu by (unfold in_u; lens).
    pose proof (net_vlq_decode_app [] _ (concat ids) 0 eq_refl Hu) as Hd.
    cbn [app] in Hd. rewrite Hd. cbn [rbind Nat.add].
    replace ((Z.of_nat (length ids) =? 0) && _ && _) with false.
    2:{ destruct ids as [|id ids]; [|done]. cbn [length concat Nat.eqb]. rewrite app_nil_r, Nat.ltb_irrefl. done. }
    unfold with_capacity, SIZE_OF_VEC, ISIZE_MAX. destruct (_ >? _) eqn:E; zify_bool; [lens|]. cbn [rbind].
    rewrite drop_app_length. pose proof (take_ids_app ids [] (length (put_vlq (Z.of_nat (length ids)) ++ concat ids)) Hids) as Ht.
    rewrite app_nil_r in Ht. rewrite Ht by lens. done.
  - rewrite (proj2 (Nat.eqb_neq (length hs) 0)) in Hl |- * by (by destruct hs). cbn [negb] in *.
    bounds. change (put_vlq 0) with [0] in *. cbn [app] in *.
    replace (net_vlq_decode _ 0) with (@Ok (Z * nat) NetworkError (0, 1%nat)) by done. cbn [rbind].
    change (byte_at _ 1) with 255. change (byte_at _ 2) with (u8 (Z.of_nat (length hs))). cbn [Z.eqb Pos.eqb andb].
    bounds. rewrite byte_u8, Nat2Z.id by done.
    pose proof (parse_v2_headers_app hs [0; 255; Z.of_nat (length hs)] [] 3 eq_refl) as Hp.
    rewrite app_nil_r in Hp. cbn [app] in Hp. rewrite byte_u8 in Hl by done. rewrite Hp by lens. done.
Qed.

Lemma loop_count_small n (bs : bytes) : (n <= length bs)%nat -> loop_count (Z.of_nat n) bs = n.
Proof. unfold loop_count. lia. Qed.

Lemma serialize_nonempty p : (1 <= length (PeerSpec_serialize p))%nat.
Proof. unfold PeerSpec_serialize, put_name. lens. Qed.

(** Every well-formed message within the size limit is decoded from its
    encoding. *)
Theorem message_roundtrip m bs :
  message_ok m -> Message_encode m = Ok bs -> Z.of_nat (length bs) <= MAX_MESSAGE_SIZE + 1 ->
  Message_decode bs = Ok m.
Proof.
  unfold Message_encode. intros Hok (body & Hb & <-%Ok_inj)%rbind_ok Hl. unfold Message_decode.
  assert (type_of_byte (type_byte (message_type m)) = Ok (message_type m)) as -> by (by destruct m).
  cbn [rbind]. assert (Z.of_nat (length body) <= MAX_MESSAGE_SIZE) as Hlb by lens. clear Hl.
  destruct m; cbn [message_ok message_type encode_body decode_body] in *;
    try (apply Ok_inj in Hb; subst body).
  - destruct (handshake_to_json h) as [json|] eqn:Ej; [|done]. apply Ok_inj in Hb. subst body.
    unfold MAX_MESSAGE_SIZE in Hlb. pose proof (be_bytes_length 4 (u32 (Z.of_nat (length json)))) as Hbl.
    rewrite wrap_small in * by (unfold in_u; lens). unfold get_u32. bounds.
    rewrite take_app_length', drop_app_length' by done. rewrite be_val_bytes by lens. cbn [rbind].
    rewrite Z.ltb_irrefl, Nat2Z.id, firstn_all. by rewrite (json_roundtrip _ _ Ej).
  - reflexivity.
  - destruct Hok as [Ht Hf]. unfold MAX_MESSAGE_SIZE in Hlb. destruct peer_spec_fits as [Hs1 Hs2].
    pose proof (concat_length_ge PeerSpec_serialize peers 1 ltac:(apply Forall_forall; intros; apply serialize_nonempty)) as Hc.
    assert (in_u 64 (Z.of_nat (length peers))) as Hu by (unfold in_u; lens).
    pose proof (net_vlq_decode_app [] _ (concat (PeerSpec_serialize <$> peers)) 0 eq_refl Hu) as Hd.
    cbn [app] in Hd. rewrite Hd. cbn [rbind Nat.add]. unfold with_capacity. unfold MAX_MESSAGE_SIZE in Hs2.
    destruct (_ >? _) eqn:E; zify_bool; [exfalso; assert (Z.of_nat (length peers) <= 10 * 1024 * 1024) by lens; nia|]. cbn [rbind].
    rewrite loop_count_small by lens. pose proof (parse_peers_app peers (put_vlq (Z.of_nat (length peers))) [] _ eq_refl) as Hp.
    rewrite app_nil_r in Hp. by rewrite Hp by (done || lens).
  - rewrite sync_info_read_back by done. done.
  - rewrite decode_ids_put by done. by destruct inv.
  - rewrite decode_ids_put by done. by destruct req.
  - destruct m as [ty items]. cbn [md_type_id md_modifiers get_u8 rbind] in *. unfold MAX_MESSAGE_SIZE in Hlb.
    pose proof (concat_length_ge put_item items 1 ltac:(apply Forall_forall; intros; unfold put_item;
      pose proof (put_vlq_length (Z.of_nat (length (mi_data x)))); lens)) as Hc.
    assert (in_u 64 (Z.of_nat (length items))) as Hu by (unfold in_u; lens).
    pose proof (net_vlq_decode_app [] _ (concat (put_item <$> items)) 0 eq_refl Hu) as Hd.
    cbn [app] in Hd. rewrite Hd. cbn [rbind Nat.add]. unfold advance. bounds. cbn [rbind].
    rewrite drop_app_length. unfold with_capacity, SIZE_OF_MODIFIER_ITEM, ISIZE_MAX.
    destruct (_ >? _) eqn:E; zify_bool; [lens|]. cbn [rbind]. rewrite loop_count_small by lens.
    pose proof (decode_items_app items [] Hok) as Hp. rewrite app_nil_r in Hp. by rewrite Hp by lens.
  - reflexivity.
  - destruct info as [ms]. destruct Hok as [Hn Hms]. unfold SnapshotsInfo_parse, SnapshotsInfo_serialize in *.
    cbn [available_manifests] in *. unfold MAX_SNAPSHOTS_INFO_ENTRIES in *.
    pose proof (put_vlq_length (Z.of_nat (length ms))). bounds.
    assert (in_u 64 (Z.of_nat (length ms))) as Hu by (unfold in_u; lia).
    pose proof (net_vlq_decode_app [] _ (concat (put_manifest <$> ms)) 0 eq_refl Hu) as Hd.
    cbn [app] in Hd. rewrite Hd. cbn [rbind Nat.add]. destruct (_ >? _) eqn:E; zify_bool; [lia|].
    rewrite Nat2Z.id. pose proof (parse_manifests_app ms (put_vlq (Z.of_nat (length ms))) [] _ eq_refl Hms) as Hp.
    rewrite app_nil_r in Hp. by rewrite Hp.
  - unfold decode_id, id_ok in *. bounds. cbn [rbind]. by rewrite firstn_all2 by lia.
  - by rewrite decode_data_put by done.
  - unfold decode_id, id_ok in *. bounds. cbn [rbind]. by rewrite firstn_all2 by lia.
  - by rewrite decode_data_put by done.
Qed.

End Spec.
