(* ===== verification/ErgoTypes.v ===== *)
(** * Interfaces of the libraries the node calls

    sigma-rust ([ergo-lib], [ergotree-ir], [ergo-chain-types]) and the hash
    function are not part of the repository.  What the modelled code uses of
    them is stated here as type classes: an operational class, whose methods
    the definitions take as arguments, and a class of the documented laws that
    some theorems rely on.  Before them stands the error type of the consensus
    crate, [ConsensusError] of ergo-consensus error.rs: the strings the code
    formats are abbreviated and identifiers are kept as bytes. *)

From S2P Require Export Prelude.

Local Open Scope Z_scope.

Inductive ConsensusError :=
  | InvalidPow (msg : string)
  | InvalidHeader (msg : string)
  | InvalidBlock (msg : string)
  | InvalidTransaction (msg : string)
  | ParentNotFound (id : bytes)
  | InvalidTimestamp (block_time parent_time : Z)
  | InvalidDifficulty (got expected : string)
  | BlockTooLarge (size max : Z)
  | CE_BlockCostExceeded (cost max : Z)
  | CE_TransactionCostExceeded (tx_id : bytes) (cost max : Z)
  | InvalidExtension (msg : string)
  | InvalidStateRoot (got expected : bytes)
  | ScriptError (msg : string)
  | InsufficientFunds (input_sum output_sum : Z)
  | MissingInput (tx_id : bytes) (input_idx : Z) (box_id : bytes)
  | MissingDataInput (tx_id : bytes) (input_idx : Z) (box_id : bytes)
  | InvalidTokenAmount (token_id : bytes) (input_amount output_amount : Z)
  | DoubleSpend (box_id : bytes)
  | ScriptVerificationFailed (tx_id : bytes) (error : string)
  | InsufficientFee (provided required : Z)
  | DataInputIntersection (box_id : bytes)
  | CE_BoxNotFound (id : bytes)
  | InvalidToken (msg : string)
  | CE_Storage (msg : string)
  | CE_Validation (msg : string).

(** BLAKE2b-256. *)
Class Blake2b256 := blake2b256 : bytes -> bytes.

Class Blake2b256Laws `{Blake2b256} : Prop := {
  blake2b256_length bs : length (blake2b256 bs) = 32%nat;
  blake2b256_ok bs : bytes_ok (blake2b256 bs)
}.

(** [ErgoBox]: identifier, value, creation height, tokens, the bytes of its
    script and registers, and its serialisation, which can fail. *)
Class ErgoBoxOps (ErgoBox : Type) := {
  box_id : ErgoBox -> bytes;
  box_value : ErgoBox -> Z;
  box_creation_height : ErgoBox -> Z;
  box_tokens : ErgoBox -> list (bytes * Z);
  box_tree_bytes : ErgoBox -> option bytes;
  box_register : ErgoBox -> Z -> option bytes;
  box_serialize : ErgoBox -> option bytes;
  box_parse : bytes -> option ErgoBox
}.

(** Serialisation round trips, and identifiers are 32-byte digests. *)
Class ErgoBoxLaws (ErgoBox : Type) `{ErgoBoxOps ErgoBox} : Prop := {
  box_parse_serialize (b : ErgoBox) bs : box_serialize b = Some bs -> box_parse bs = Some b;
  box_id_length (b : ErgoBox) : length (box_id b) = 32%nat
}.

(** [BigUint::to_bytes_be] of the [num-bigint] crate: the big-endian digits
    without leading zeros, and a single zero byte for zero.  [BigUint]
    arithmetic itself is that of non-negative integers. *)
Class BigUintBytes := to_bytes_be : Z -> bytes.

Class BigUintBytesLaws `{BigUintBytes} : Prop := {
  to_bytes_be_val z : 0 <= z -> be_val (to_bytes_be z) = z;
  to_bytes_be_ok z : 0 <= z -> bytes_ok (to_bytes_be z);
  to_bytes_be_head z : 0 < z -> exists b bs, to_bytes_be z = b :: bs /\ 0 < b
}.

(** Elliptic-curve points of [ergo-chain-types]. *)
Class ChainTypes := {
  EcPoint : Type;
  ec_identity : EcPoint;
  ec_serialize : EcPoint -> option bytes
}.

(** The public fields of [AutolykosSolution] and [Header]. *)
Record AutolykosSolution `{ChainTypes} := mkAutolykosSolution {
  miner_pk : EcPoint;
  pow_onetime_pk : option EcPoint;
  nonce : bytes;
  pow_distance : option Z
}.

Record Header `{ChainTypes} := mkHeader {
  h_version : Z;
  h_id : bytes;
  h_parent_id : bytes;
  h_ad_proofs_root : bytes;
  h_state_root : bytes;
  h_transaction_root : bytes;
  h_timestamp : Z;
  h_n_bits : Z;
  h_height : Z;
  h_extension_root : bytes;
  h_autolykos_solution : AutolykosSolution;
  h_votes : bytes;
  h_unparsed_bytes : bytes
}.

#[global] Arguments mkAutolykosSolution {_}.
#[global] Arguments mkHeader {_}.

(** The network an address is for. *)
Inductive NetworkPrefix := Mainnet | Testnet.

(** [Header::serialize_without_pow]. *)
Class HeaderOps `{ChainTypes} := serialize_without_pow : Header -> option bytes.

(** [Header::scorex_serialize_bytes] and [Header::scorex_parse_bytes]. *)
Class HeaderCodec `{ChainTypes} := {
  scorex_serialize_bytes : Header -> option bytes;
  scorex_parse_bytes : bytes -> option Header
}.

(** [ContextExtension]: the value at a key, and whether it is an [i16]. *)
Class ExtensionOps (Ext : Type) := ext_i16 : Ext -> Z -> option (option Z).

(** The public fields of an input that the code reads. *)
Record TxInput {Ext : Type} := mkTxInput {
  ti_box_id : bytes;
  ti_proof : bytes;
  ti_extension : Ext
}.
Arguments TxInput : clear implicits.

(** [Transaction]: its fields and its serialisations, which can fail. *)
Class TransactionOps (ErgoBox Ext Tx : Type) := {
  tx_id : Tx -> bytes;
  tx_inputs : Tx -> list (TxInput Ext);
  tx_data_inputs : Tx -> option (list bytes);
  tx_outputs : Tx -> list ErgoBox;
  tx_serialize : Tx -> option bytes;
  tx_bytes_to_sign : Tx -> option bytes;
  tx_parse : bytes -> option Tx
}.

(** Parsing a serialised transaction, whatever bytes follow it. *)
Class TransactionLaws (ErgoBox Ext Tx : Type) `{TransactionOps ErgoBox Ext Tx} : Prop :=
  tx_parse_serialize (t : Tx) bs rest : tx_serialize t = Some bs -> tx_parse (bs ++ rest) = Some t.

(** ** A concrete instance of each, to run the model *)
Module Toy.

(** The number of base-256 digits of [z]. *)
Definition digits (z : Z) : nat := Z.to_nat (Z.log2 z / 8 + 1).

#[export] Instance toy_biguint : BigUintBytes := fun z => be_bytes (digits z) z.

Lemma digits_bound z : 0 < z -> 256 ^ (Z.of_nat (digits z) - 1) <= z < 256 ^ Z.of_nat (digits z).
Proof.
  intros Hz. unfold digits. pose proof (Z.log2_nonneg z). pose proof (Z.log2_spec z Hz) as [H1 H2].
  assert (0 <= Z.log2 z / 8) by (apply Z.div_pos; lia).
  rewrite Z2Nat.id by lia. replace 256 with (2 ^ 8) by lia.
  rewrite <- !Z.pow_mul_r by lia. pose proof (Z.div_mod (Z.log2 z) 8 ltac:(lia)).
  pose proof (Z.mod_pos_bound (Z.log2 z) 8 ltac:(lia)). split.
  - etrans; [|exact H1]. apply Z.pow_le_mono_r; lia.
  - eapply Z.lt_le_trans; [exact H2|]. apply Z.pow_le_mono_r; lia.
Qed.

#[export] Instance toy_biguint_laws : BigUintBytesLaws.
Proof.
  constructor; unfold to_bytes_be, toy_biguint.
  - intros z Hz. destruct (decide (z = 0)) as [->|Hne]; [done|].
    apply be_val_bytes. pose proof (digits_bound z). lia.
  - intros. apply be_bytes_ok.
  - intros z Hz. pose proof (digits_bound z Hz) as [H1 H2].
    assert (0 < digits z)%nat as Hpos.
    { unfold digits. assert (0 <= Z.log2 z / 8) by (apply Z.div_pos; [apply Z.log2_nonneg|lia]). lia. }
    destruct (digits z) as [|n]; [lia|]. cbn [be_bytes].
    exists ((z / 256 ^ Z.of_nat n) mod 256), (be_bytes n z). split; [done|].
    rewrite Nat2Z.inj_succ, Z.pow_succ_r in H2 by lia.
    replace (Z.of_nat (S n) - 1) with (Z.of_nat n) in H1 by lia.
    rewrite Z.mod_small.
    + apply Z.div_str_pos. lia.
    + split; [apply Z.div_pos; lia|]. apply Z.div_lt_upper_bound; lia.
Qed.

(** Hash maps iterated in the order of their keys. *)
#[export] Instance toy_order : HashOrder := fun V m => map_to_list m.
#[export] Instance toy_order_laws : HashOrderLaws.
Proof. by intros V m. Qed.

(** A stand-in digest: length-preserving padding, enough to compute with. *)
#[export] Instance toy_hash : Blake2b256 := fun bs =>
  be_bytes 32 (be_val (255 :: bs) mod 2 ^ 256).

#[export] Instance toy_hash_laws : Blake2b256Laws.
Proof.
  constructor; intros; unfold blake2b256, toy_hash; [apply be_bytes_length|apply be_bytes_ok].
Qed.

(** Boxes given by an identifier byte, a value, a script byte and a list of
    token identifiers, serialised as four fixed bytes. *)
Record toy_box := mk_toy_box { tb_id : Z; tb_value : Z; tb_tree : Z; tb_token : option Z }.

Definition toy_serialize (b : toy_box) : option bytes :=
  Some ([tb_id b; tb_value b; tb_tree b] ++ match tb_token b with Some t => [t] | None => [] end).

Definition toy_parse (bs : bytes) : option toy_box :=
  match bs with
  | [i; v; t] => Some (mk_toy_box i v t None)
  | [i; v; t; k] => Some (mk_toy_box i v t (Some k))
  | _ => None
  end.

#[export] Instance toy_box_ops : ErgoBoxOps toy_box := {
  box_id b := be_bytes 32 (tb_id b);
  box_value := tb_value;
  box_creation_height b := 0;
  box_tokens b := match tb_token b with Some t => [(be_bytes 32 t, 1)] | None => [] end;
  box_tree_bytes b := Some [tb_tree b];
  box_register b r := None;
  box_serialize := toy_serialize;
  box_parse := toy_parse
}.

#[export] Instance toy_box_laws : ErgoBoxLaws toy_box.
Proof.
  constructor.
  - intros [i v t [k|]] bs [= <-]; done.
  - intros b. apply be_bytes_length.
Qed.

(** Points are integers, headers serialise their height, extensions are the
    output index they carry. *)
#[export] Instance toy_chain : ChainTypes := {
  EcPoint := Z; ec_identity := 0; ec_serialize p := Some [p mod 256] }.

#[export] Instance toy_header : HeaderOps := fun h => Some (be_bytes 4 (h_height h)).

#[export] Instance toy_ext : ExtensionOps (option Z) :=
  fun e k => if k =? 127 then Some <$> e else None.

(** Transactions with inputs of an empty proof; only one without inputs and
    outputs serialises. *)
Record toy_tx := mk_toy_tx {
  tt_id : Z; tt_inputs : list Z; tt_data : list Z; tt_outputs : list toy_box }.

#[export] Instance toy_tx_ops : TransactionOps toy_box (option Z) toy_tx := {
  tx_id t := be_bytes 32 (tt_id t);
  tx_inputs t := (fun i => mkTxInput _ (be_bytes 32 i) [] None) <$> tt_inputs t;
  tx_data_inputs t := Some (be_bytes 32 <$> tt_data t);
  tx_outputs := tt_outputs;
  tx_serialize t :=
    match t with mk_toy_tx i [] [] [] => Some [i] | _ => None end;
  tx_bytes_to_sign t := Some [tt_id t mod 256];
  tx_parse bs := match bs with [] => None | i :: _ => Some (mk_toy_tx i [] [] []) end
}.

#[export] Instance toy_tx_laws : TransactionLaws toy_box (option Z) toy_tx.
Proof. by intros [i [|] [|] [|]] bs rest [= <-]. Qed.

End Toy.
