(* ===== verification/Codec.v ===== *)
(** * Message framing (crates/ergo-network/src/codec.rs)

    The frame of a message, the decoder over the receive buffer of a
    connection, the feature flags and peer addresses of codec.rs.  Theorems: a
    frame is read back, a stream of frames decodes to its messages however it
    is split, and what a peer can make the decoder panic with. *)

From S2P Require Export MessageSpec ErgoTypes.

Local Open Scope Z_scope.

Definition BASE_HEADER_SIZE : nat := 9.
Definition CHECKSUM_SIZE : nat := 4.

Record MessageCodec := mkMessageCodec { mc_magic : bytes; mc_max_size : Z }.
Definition MessageCodec_new : MessageCodec := mkMessageCodec MAINNET_MAGIC MAX_MESSAGE_SIZE.
Definition with_magic (magic : bytes) : MessageCodec := mkMessageCodec magic MAX_MESSAGE_SIZE.

Section Codec.
Context `{MessageLib} `{Blake2b256}.

Definition checksum (payload : bytes) : bytes := slice 0 4 (blake2b256 payload).
Definition verify_checksum (payload expected : bytes) : bool := bool_decide (checksum payload = expected).

Definition total_size (length : nat) : nat :=
  if (0 <? length)%nat then (BASE_HEADER_SIZE + CHECKSUM_SIZE + length)%nat else BASE_HEADER_SIZE.

(** The result and the bytes left in the buffer. *)
Definition codec_decode (c : MessageCodec) (src : bytes) : result (option Message) NetworkError * bytes :=
  if (length src <? BASE_HEADER_SIZE)%nat then (Ok None, src)
  else if negb (bool_decide (slice 0 4 src = mc_magic c)) then (Err (NE_InvalidMessage "Invalid magic"), src)
  else
    let msg_type := byte_at src 4 in
    let len := be_val (slice 5 9 src) in
    if len >? mc_max_size c then (Err (NE_MessageTooLarge len (mc_max_size c)), src)
    else
      let len := Z.to_nat len in
      if (length src <? total_size len)%nat then (Ok None, src)
      else
        let src := drop BASE_HEADER_SIZE src in
        if (0 <? len)%nat then
          let expected := take 4 src in
          let src := drop CHECKSUM_SIZE src in
          let payload := take len src in
          let src := drop len src in
          if negb (verify_checksum payload expected)
          then (Err (NE_InvalidMessage "Checksum mismatch"), src)
          else (let? m := Message_decode (msg_type :: payload) in Ok (Some m), src)
        else (let? m := Message_decode [msg_type] in Ok (Some m), src).

Definition codec_encode (c : MessageCodec) (item : Message) (dst : bytes) : result bytes NetworkError :=
  let? encoded := Message_encode item in
  match encoded with
  | [] => Err (NE_InvalidMessage "Empty encoded message")
  | msg_type :: payload =>
      let len := Z.of_nat (length payload) in
      if len >? mc_max_size c then Err (NE_MessageTooLarge len (mc_max_size c))
      else
        Ok (dst ++ mc_magic c ++ [msg_type] ++ be_bytes 4 (u32 len)
            ++ (if len >? 0 then checksum payload ++ payload else []))
  end.

(** ** The connection type of connection.rs

    Messages behind a length of four bytes; the network service frames its
    streams with the codec and does not use it.  A stream is the bytes it will
    still give before it ends. *)

Record ConnectionConfig := mkConnectionConfig {
  connect_timeout_secs : Z; read_timeout_secs : Z; write_timeout_secs : Z; cc_max_message_size : Z }.
Definition ConnectionConfig_default : ConnectionConfig := mkConnectionConfig 10 30 10 (10 * 1024 * 1024).

(** The bytes one call writes. *)
Definition connection_send (message : Message) : result bytes NetworkError :=
  let? encoded := Message_encode message in
  Ok (be_bytes 4 (u32 (Z.of_nat (length encoded))) ++ encoded).

Definition read_exact (n : nat) (stream : bytes) : result (bytes * bytes) NetworkError :=
  if (length stream <? n)%nat then Err (NE_Io "unexpected end of file") else Ok (take n stream, drop n stream).

Definition connection_receive (config : ConnectionConfig) (stream : bytes) : result (Message * bytes) NetworkError :=
  let? (len_buf, stream) := read_exact 4 stream in
  let len := be_val len_buf in
  if len >? cc_max_message_size config then Err (NE_MessageTooLarge len (cc_max_message_size config))
  else
    let? (buf, stream) := read_exact (Z.to_nat len) stream in
    let? message := Message_decode buf in
    Ok (message, stream).

(** ** Feature flags and peer addresses *)

Inductive FeatureFlag := FF_FullNode | FF_StateSnapshot | FF_NiPoPoW | FF_Archive.
Definition flag_bit (f : FeatureFlag) : Z :=
  match f with FF_FullNode => 1 | FF_StateSnapshot => 2 | FF_NiPoPoW => 4 | FF_Archive => 8 end.
Definition is_set (f : FeatureFlag) (features : Z) : bool := negb (Z.land features (flag_bit f) =? 0).
Definition combine_flags (features : list FeatureFlag) : Z :=
  fold_left (fun acc f => Z.lor acc (flag_bit f)) features 0.

Record PeerAddress := mkPeerAddress { pa_address : bytes; pa_last_seen : Z; pa_failures : Z }.
Definition PeerAddress_new (address : bytes) : PeerAddress := mkPeerAddress address 0 0.

Definition PeerAddress_serialize (a : PeerAddress) : bytes :=
  be_bytes 2 (u16 (Z.of_nat (length (pa_address a)))) ++ pa_address a
  ++ be_bytes 8 (pa_last_seen a) ++ be_bytes 4 (pa_failures a).

Definition PeerAddress_deserialize (bs : bytes) : result (PeerAddress * bytes) NetworkError :=
  if (length bs <? 2)%nat then Err (NE_InvalidMessage "PeerAddress too short")
  else
    let addr_len := Z.to_nat (be_val (take 2 bs)) in
    let bs := drop 2 bs in
    if (length bs <? addr_len + 12)%nat then Err (NE_InvalidMessage "PeerAddress truncated")
    else
      let address := from_utf8_lossy (take addr_len bs) in
      let bs := drop addr_len bs in
      Ok (mkPeerAddress address (be_val (take 8 bs)) (be_val (slice 8 12 bs)), drop 12 bs).

(** ** Streams

    The decoder as a framed reader runs it (tokio_util's [FramedRead]): frames
    are taken off the buffer until one is incomplete or in error, then more
    bytes are read.  A frame has at least nine bytes, so the length of the
    buffer is fuel enough. *)
Fixpoint drain (fuel : nat) (c : MessageCodec) (buffer : bytes)
    : list Message * option NetworkError * bytes :=
  match fuel with
  | O => ([], None, buffer)
  | S fuel' =>
      match codec_decode c buffer with
      | (Ok None, buffer) => ([], None, buffer)
      | (Err e, buffer) => ([], Some e, buffer)
      | (Ok (Some m), buffer) =>
          let '(ms, e, buffer) := drain fuel' c buffer in (m :: ms, e, buffer)
      end
  end.

Fixpoint feed (c : MessageCodec) (buffer : bytes) (chunks : list bytes)
    : list Message * option NetworkError * bytes :=
  match chunks with
  | [] => ([], None, buffer)
  | chunk :: chunks' =>
      match drain (S (length (buffer ++ chunk))) c (buffer ++ chunk) with
      | (ms, Some e, buffer) => (ms, Some e, buffer)
      | (ms, None, buffer) => let '(ms', e, buffer) := feed c buffer chunks' in (ms ++ ms', e, buffer)
      end
  end.

End Codec.

(** ** Frames are read back *)

Section Spec.
Context `{MessageLibLaws} `{Blake2b256Laws}.

(** The codecs of the two networks. *)
Definition codec_ok (c : MessageCodec) : Prop := length (mc_magic c) = 4%nat /\ mc_max_size c = MAX_MESSAGE_SIZE.

(** The frame of a message. *)
Definition frame_of (c : MessageCodec) (m : Message) (f : bytes) : Prop :=
  message_ok m /\ codec_encode c m [] = Ok f.

Lemma frame_parts c m f :
  codec_ok c -> frame_of c m f -> exists ty payload,
    Message_encode m = Ok (ty :: payload) /\ Z.of_nat (length payload) <= MAX_MESSAGE_SIZE /\
    f = mc_magic c ++ [ty] ++ be_bytes 4 (Z.of_nat (length payload)) ++
        (if (0 <? length payload)%nat then checksum payload ++ payload else []) /\
    length f = total_size (length payload).
Proof.
  intros [Hmagic Hmax] [_ ([|ty payload] & He & Hf)%rbind_ok]; [done|]. rewrite Hmax in Hf. cbv zeta in Hf.
  destruct (_ >? _) eqn:E; zify_bool; [done|]. unfold MAX_MESSAGE_SIZE in E.
  rewrite wrap_small in Hf by (unfold in_u; lia).
  apply Ok_inj in Hf. cbn [app] in Hf. exists ty, payload. split; [done|]. split; [done|].
  assert (length (checksum payload) = 4%nat) as Hc.
  { unfold checksum. rewrite slice_length; [done|]. pose proof (blake2b256_length payload). lia. }
  pose proof (be_bytes_length 4 (Z.of_nat (length payload))) as Hb.
  assert (f = mc_magic c ++ [ty] ++ be_bytes 4 (Z.of_nat (length payload)) ++
        (if (0 <? length payload)%nat then checksum payload ++ payload else [])) as Hfe.
  { rewrite <- Hf. destruct payload as [|b payload]; done. }
  split; [done|]. rewrite Hfe. unfold total_size, BASE_HEADER_SIZE, CHECKSUM_SIZE.
  destruct (Nat.ltb_spec 0 (length payload)); lens.
Qed.

(** The header fields of a buffer that starts with a frame's header. *)
Lemma header_fields c ty len rest :
  codec_ok c -> 0 <= len <= MAX_MESSAGE_SIZE ->
  let src := mc_magic c ++ [ty] ++ be_bytes 4 len ++ rest in
  slice 0 4 src = mc_magic c /\ byte_at src 4 = ty /\ be_val (slice 5 9 src) = len /\
  length src = (9 + length rest)%nat /\ drop 9 src = rest.
Proof.
  intros [Hm _] Hl src. pose proof (be_bytes_length 4 len) as Hb. unfold src, MAX_MESSAGE_SIZE in *.
  split; [by apply slice_head|]. split; [cbn [app]; by rewrite byte_at_app|]. split; [|split].
  - rewrite app_assoc, (slice_mid 5 9) by lens. apply be_val_bytes. change (256 ^ Z.of_nat 4) with (2 ^ 32). lia.
  - lens.
  - rewrite !app_assoc. apply drop_app_length'. lens.
Qed.

Lemma decode_frame c m f rest :
  codec_ok c -> frame_of c m f -> codec_decode c (f ++ rest) = (Ok (Some m), rest).
Proof.
  intros Hc Hf. pose proof (frame_parts c m f Hc Hf) as (ty & payload & He & Hl & Hfe & Hlen).
  destruct Hf as [Hok _].
  assert (Message_decode (ty :: payload) = Ok m) as Hdec by (apply (message_roundtrip m); [done|done|lens]).
  set (tl := (if (0 <? length payload)%nat then checksum payload ++ payload else []) ++ rest).
  assert (f ++ rest = mc_magic c ++ [ty] ++ be_bytes 4 (Z.of_nat (length payload)) ++ tl) as Hsrc.
  { rewrite Hfe. unfold tl. by rewrite <- !app_assoc. }
  destruct (header_fields c ty (Z.of_nat (length payload)) tl Hc ltac:(lia)) as (Hmg & Hty & Hln & Hsl & Hdr).
  unfold codec_decode, BASE_HEADER_SIZE. rewrite Hsrc, Hmg, Hty, Hln, Nat2Z.id, Hdr, <- Hsrc.
  rewrite (proj2 (Nat.ltb_ge _ 9)) by (rewrite Hsrc; lia).
  rewrite bool_decide_eq_true_2 by done. cbn [negb]. destruct Hc as [_ ->].
  destruct (_ >? _) eqn:E; zify_bool; [lia|]. clear E.
  rewrite (proj2 (Nat.ltb_ge _ (total_size (length payload)))) by (rewrite length_app; lia).
  destruct (Nat.ltb_spec 0 (length payload)) as [Hpos|Hz].
  - assert (length (checksum payload) = 4%nat) as Hcs.
    { unfold checksum. rewrite slice_length; [done|]. pose proof (blake2b256_length payload). lia. }
    unfold tl, CHECKSUM_SIZE. rewrite <- app_assoc, take_app_length', drop_app_length' by done.
    rewrite take_app_length, drop_app_length. unfold verify_checksum. rewrite bool_decide_eq_true_2 by done.
    cbn [negb]. by rewrite Hdec.
  - destruct payload; [|cbn in Hz; lia]. by rewrite Hdec.
Qed.

(** A strict prefix of a frame is left in the buffer. *)
Lemma decode_prefix c m f p q :
  codec_ok c -> frame_of c m f -> f = p ++ q -> q <> [] -> codec_decode c p = (Ok None, p).
Proof.
  intros Hc Hf Hpq Hq. pose proof (frame_parts c m f Hc Hf) as (ty & payload & _ & Hl & Hfe & Hlen).
  unfold codec_decode. destruct (Nat.ltb_spec (length p) BASE_HEADER_SIZE) as [|Hp]; [done|].
  unfold BASE_HEADER_SIZE in Hp.
  assert (length (take 9 f) = 9%nat /\ exists tl, p = take 9 f ++ tl) as [H9 (tl & Hp9)].
  { rewrite Hpq. split; [rewrite length_take; lens|]. exists (drop 9 p).
    rewrite take_app_le by done. by rewrite take_drop. }
  pose proof (be_bytes_length 4 (Z.of_nat (length payload))) as Hb. destruct Hc as [Hm Hmax].
  assert (take 9 f = mc_magic c ++ [ty] ++ be_bytes 4 (Z.of_nat (length payload))) as Ht.
  { rewrite Hfe, !app_assoc. rewrite <- (app_assoc _ [ty]). rewrite take_app_length'; [done|lens]. }
  rewrite Hp9, Ht, <- !app_assoc.
  destruct (header_fields c ty (Z.of_nat (length payload)) tl (conj Hm Hmax) ltac:(lia))
    as (Hmg & _ & Hln & Hsl & _).
  rewrite Hmg, Hln, Hmax, bool_decide_eq_true_2 by done. cbn [negb].
  destruct (_ >? _) eqn:E; zify_bool; [lia|]. rewrite Nat2Z.id, Hsl.
  rewrite (proj2 (Nat.ltb_lt _ (total_size (length payload)))); [done|].
  assert (length f = (length p + length q)%nat) as Hfq by (rewrite Hpq; lens).
  assert (length p = (9 + length tl)%nat) as Hpl by (rewrite Hp9; lens).
  destruct q; [done|]. cbn [length] in Hfq. lia.
Qed.

(** ** Streams of frames *)

Lemma total_size_pos n : (9 <= total_size n)%nat.
Proof. unfold total_size, BASE_HEADER_SIZE, CHECKSUM_SIZE. destruct (_ <? _)%nat; lia. Qed.

Lemma frame_nonempty c m f : codec_ok c -> frame_of c m f -> (9 <= length f)%nat.
Proof. intros Hc (ty & pl & _ & _ & _ & ->)%frame_parts; [apply total_size_pos|done]. Qed.

(** The buffer holds less than the next frame. *)
Definition partial (buffer : bytes) (fs : list bytes) : Prop :=
  match fs with [] => buffer = [] | f :: _ => (length buffer < length f)%nat end.

(** The frames that fit into a prefix of the stream are taken off, the rest of
    it stays in the buffer. *)
Lemma drain_prefix c ms fs fuel p q :
  codec_ok c -> Forall2 (frame_of c) ms fs -> concat fs = p ++ q -> (length p < fuel)%nat ->
  exists ms1 ms2 fs2 p', ms = ms1 ++ ms2 /\ Forall2 (frame_of c) ms2 fs2 /\
    drain fuel c p = (ms1, None, p') /\ concat fs2 = p' ++ q /\ partial p' fs2.
Proof.
  intros Hc Hfs. revert fuel p. induction Hfs as [|m f ms fs Hf Hfs IH]; intros fuel p Hpq Hfuel.
  { symmetry in Hpq. apply app_nil in Hpq as [-> ->]. destruct fuel as [|fuel]; [lia|].
    by exists [], [], [], []. }
  destruct fuel as [|fuel]; [lia|]. pose proof (frame_nonempty c m f Hc Hf) as Hlf. cbn [concat] in Hpq.
  destruct (Nat.lt_ge_cases (length p) (length f)) as [Hlt|Hge].
  - exists [], (m :: ms), (f :: fs), p. split; [done|]. split; [by constructor|]. split; [|done].
    cbn [drain]. rewrite (decode_prefix c m f p (drop (length p) f)); try done.
    + rewrite <- (take_drop (length p) f) at 1. f_equal.
      rewrite <- (take_app_le f (concat fs)) by lia. rewrite Hpq. by apply take_app_length.
    + intros Hd. apply (f_equal length) in Hd. rewrite length_drop in Hd. cbn in Hd. lia.
  - assert (p = f ++ drop (length f) p) as Hp.
    { rewrite <- (take_drop (length f) p) at 1. f_equal. rewrite <- (take_app_le p q), <- Hpq by lia.
      by apply take_app_length. }
    destruct (IH fuel (drop (length f) p)) as (ms1 & ms2 & fs2 & p' & -> & Hfs2 & Hd & Hc2 & Hpt).
    { apply (app_inv_head f). by rewrite Hpq, app_assoc, <- Hp. }
    { rewrite length_drop. lia. }
    exists (m :: ms1), ms2, fs2, p'. split; [done|]. split; [done|]. split; [|done].
    cbn [drain]. rewrite Hp, (decode_frame c m f) by done. by rewrite Hd.
Qed.

Lemma feed_frames c chunks ms fs buffer :
  codec_ok c -> Forall2 (frame_of c) ms fs -> buffer ++ concat chunks = concat fs -> partial buffer fs ->
  feed c buffer chunks = (ms, None, []).
Proof.
  intros Hc. revert ms fs buffer. induction chunks as [|chunk chunks IH]; intros ms fs buffer Hfs Hb Hp.
  - cbn [concat feed] in *. rewrite app_nil_r in Hb. destruct Hfs as [|m f ms fs Hf Hfs]; cbn [partial concat] in *.
    + by rewrite Hp.
    + rewrite Hb, length_app in Hp. lia.
  - cbn [concat feed] in *. rewrite app_assoc in Hb.
    destruct (drain_prefix c ms fs (S (length (buffer ++ chunk))) (buffer ++ chunk) (concat chunks) Hc Hfs
      (eq_sym Hb) ltac:(lia)) as (ms1 & ms2 & fs2 & p' & -> & Hfs2 & -> & Hc2 & Hpt).
    by rewrite (IH ms2 fs2 p' Hfs2 (eq_sym Hc2) Hpt).
Qed.

(** C11: A stream of frames decodes to its messages, and leaves nothing behind,
    however the network splits it into chunks. *)
Theorem stream_any_chunking c ms fs chunks :
  codec_ok c -> Forall2 (frame_of c) ms fs -> concat chunks = concat fs ->
  feed c [] chunks = (ms, None, []).
Proof.
  intros Hc Hfs Hch. apply (feed_frames c chunks ms fs []); [done|done|done|].
  destruct Hfs as [|m f ms fs Hf Hfs]; [done|]. cbn. pose proof (frame_nonempty c m f Hc Hf). lia.
Qed.

(** A frame of an inventory or of a request with an empty payload, which the
    framing allows, makes the decoder panic; so does a [Handshake] frame. *)
Theorem empty_payload_panics c ty rest :
  codec_ok c -> ty = 55 \/ ty = 22 \/ ty = 33 \/ ty = 75 ->
  codec_decode c (mc_magic c ++ [ty] ++ be_bytes 4 0 ++ rest) = (Err (NE_Panic "buffer exhausted"), rest).
Proof.
  intros Hc Hty. destruct (header_fields c ty 0 rest Hc ltac:(unfold MAX_MESSAGE_SIZE; lia))
    as (Hmg & Hb & Hln & Hsl & Hdr).
  unfold codec_decode, BASE_HEADER_SIZE. rewrite Hmg, Hb, Hln, Hsl, Hdr.
  rewrite (proj2 (Nat.ltb_ge _ 9)) by lia. rewrite bool_decide_eq_true_2 by done. cbn [negb].
  destruct Hc as [_ ->]. destruct (_ >? _) eqn:E; [by vm_compute in E|]. change (Z.to_nat 0) with 0%nat.
  rewrite (proj2 (Nat.ltb_ge _ (total_size 0))) by (unfold total_size, BASE_HEADER_SIZE; cbn; lia).
  cbn [Nat.ltb Nat.leb]. by destruct Hty as [->|[->|[-> | ->]]].
Qed.

(** What one connection sends, another receives, up to the limit of the receiver. *)
Theorem connection_read_back config m bs rest :
  message_ok m -> connection_send m = Ok bs -> cc_max_message_size config <= MAX_MESSAGE_SIZE ->
  Z.of_nat (length bs) <= cc_max_message_size config + 4 ->
  connection_receive config (bs ++ rest) = Ok (m, rest).
Proof.
  intros Hok (enc & He & <-%Ok_inj)%rbind_ok Hc Hl. unfold connection_receive, read_exact.
  rewrite length_app, be_bytes_length in Hl. unfold MAX_MESSAGE_SIZE in Hc.
  assert (be_val (be_bytes 4 (u32 (Z.of_nat (length enc)))) = Z.of_nat (length enc)) as Hv.
  { rewrite be_val_bytes; unfold wrap; rewrite Z.mod_small; lia. }
  rewrite !length_app, be_bytes_length, (proj2 (Nat.ltb_ge _ 4)) by lia. cbn [rbind].
  rewrite <- app_assoc, take_app_length', drop_app_length' by (by rewrite be_bytes_length).
  rewrite Hv. destruct (_ >? _) eqn:E; zify_bool; [lia|]. rewrite Nat2Z.id, length_app.
  rewrite (proj2 (Nat.ltb_ge _ (length enc))) by lia. cbn [rbind].
  rewrite take_app_length, drop_app_length, (message_roundtrip m enc Hok He) by (unfold MAX_MESSAGE_SIZE; lia). done.
Qed.

(** Peer addresses are read back from the front of the bytes. *)
Lemma peer_address_read_back a rest :
  utf8 (pa_address a) -> Z.of_nat (length (pa_address a)) < 2 ^ 16 -> in_u 64 (pa_last_seen a) ->
  in_u 32 (pa_failures a) -> PeerAddress_deserialize (PeerAddress_serialize a ++ rest) = Ok (a, rest).
Proof.
  destruct a as [addr seen failures]. unfold PeerAddress_deserialize, PeerAddress_serialize.
  cbn [pa_address pa_last_seen pa_failures]. intros Hu Hl Hs Hf. rewrite wrap_small by (unfold in_u; lia).
  pose proof (be_bytes_length 2 (Z.of_nat (length addr))). pose proof (be_bytes_length 8 seen).
  pose proof (be_bytes_length 4 failures). unfold in_u in *. rewrite <- !app_assoc. bounds.
  rewrite take_app_length', drop_app_length' by done. rewrite be_val_bytes, Nat2Z.id by (cbn; lia). bounds.
  rewrite take_app_length, drop_app_length, from_utf8_lossy_id by done.
  rewrite take_app_length' by done. rewrite (slice_mid 8 12) by lens.
  rewrite !be_val_bytes by (cbn; lia). rewrite app_assoc, drop_app_length' by lens. done.
Qed.

End Spec.

Module CodecExample.
Import Toy.

#[export] Instance toy_message_lib : MessageLib := {
  handshake_to_json h := None; handshake_of_json bs := None; size_of_peer_spec := 96 }.

#[export] Instance toy_message_lib_laws : MessageLibLaws.
Proof. constructor; [done|]. vm_compute. split; discriminate. Qed.

Abbreviation mainnet := MessageCodec_new.
Lemma mainnet_ok : codec_ok mainnet.
Proof. done. Qed.

Definition inv1 : Message := M_Inv (mkInvData 101 [replicate 32 7; replicate 32 8]).
Definition sync1 : Message := M_SyncInfo (SyncInfo_v2 [[1; 2; 3]; []]).
Definition frame (m : Message) : bytes := from_ok [] (codec_encode mainnet m []).

Lemma frame_spec m : message_ok m -> is_ok (codec_encode mainnet m []) = true -> frame_of mainnet m (frame m).
Proof. intros Hm He. split; [done|]. by apply from_ok_spec. Qed.

Lemma connection_read_back_witness :
  connection_receive ConnectionConfig_default (from_ok [] (connection_send inv1) ++ [1; 2]) = Ok (inv1, [1; 2]).
Proof.
  apply connection_read_back; [repeat constructor|vm_compute; reflexivity|vm_compute; discriminate|vm_compute; discriminate].
Defined.

(** Three frames in chunks of one byte and of the rest. *)
Lemma stream_any_chunking_witness :
  let stream := frame inv1 ++ frame M_GetPeers ++ frame sync1 in
  feed mainnet [] [take 1 stream; drop 1 stream] = ([inv1; M_GetPeers; sync1], None, []).
Proof.
  intros stream. apply (stream_any_chunking mainnet _ [frame inv1; frame M_GetPeers; frame sync1]).
  - apply mainnet_ok.
  - constructor; [|constructor; [|constructor; [|constructor]]]; apply frame_spec.
    + repeat constructor.
    + vm_compute. reflexivity.
    + exact I.
    + vm_compute. reflexivity.
    + right. split; [reflexivity|]. split; [discriminate|]. cbn. lia.
    + vm_compute. reflexivity.
  - vm_compute. reflexivity.
Defined.

Lemma empty_payload_panics_witness :
  codec_decode mainnet [1; 0; 2; 4; 55; 0; 0; 0; 0] = (Err (NE_Panic "buffer exhausted"), []).
Proof. apply (empty_payload_panics mainnet 55 []); [apply mainnet_ok|left; reflexivity]. Defined.

End CodecExample.
