(* ===== verification/Utxo.v ===== *)
(** * The UTXO state (crates/ergo-state/src/utxo.rs)

    Box entries and undo data with their byte formats, and the state manager:
    applying the change of a block, batching several blocks, and rolling back
    with the stored undo data.  The state is written against the [Storage]
    interface; [batch] arguments are threaded exactly as the code fills them. *)

From S2P Require Export Storage ErgoTypes.

Local Open Scope Z_scope.

Inductive StateError :=
  | SE_Storage (msg : string)
  | SE_Consensus (e : ConsensusError)
  | BoxNotFound (box_id : bytes)
  | BlockNotFound (id : bytes)
  | HeaderNotFound (id : bytes)
  | InvalidTransition (msg : string)
  | RollbackFailed (msg : string)
  | SnapshotNotFound (height : Z)
  | StateRootMismatch (height : Z) (expected computed : bytes)
  | Serialization (msg : string)
  | AvlTree (msg : string).

Section Utxo.
Context {ErgoBox : Type} `{ErgoBoxOps ErgoBox} `{Blake2b256}.

(** ** Box entries *)

Record BoxEntry := mkBoxEntry {
  be_box : ErgoBox;
  be_creation_height : Z;
  be_tx_id : bytes;
  be_output_index : Z
}.

Definition box_id_bytes (e : BoxEntry) : bytes := box_id (be_box e).

(** [BoxEntry::serialize_box_only]. *)
Definition serialize_box_only (e : BoxEntry) : result bytes StateError :=
  ok_or (box_serialize (be_box e)) (Serialization "box").

(** [BoxEntry::serialize]: height (4) | tx id | output index (2) | box. *)
Definition entry_serialize (e : BoxEntry) : result bytes StateError :=
  let? box_bytes := ok_or (box_serialize (be_box e)) (Serialization "box") in
  Ok (be_bytes 4 (be_creation_height e) ++ be_tx_id e
      ++ be_bytes 2 (be_output_index e) ++ box_bytes).

(** [BoxEntry::deserialize]. *)
Definition entry_deserialize (bs : bytes) : result BoxEntry StateError :=
  if (length bs <? 38)%nat then Err (Serialization "Box entry too short")
  else
    let creation_height := be_val (slice 0 4 bs) in
    let tx_id := slice 4 36 bs in
    let output_index := be_val (slice 36 38 bs) in
    let box_bytes := drop 38 bs in
    let? ergo_box := ok_or (box_parse box_bytes) (Serialization "box") in
    Ok (mkBoxEntry ergo_box creation_height tx_id output_index).

(** ** State changes and undo data *)

Record StateChange := mkStateChange { sc_created : list BoxEntry; sc_spent : list bytes }.

Record UndoData := mkUndoData {
  undo_height : Z;
  undo_spent_boxes : list BoxEntry;
  undo_created_box_ids : list bytes
}.

(** A length-prefixed item: [(x.len() as u32).to_be_bytes()] then [x]. *)
Definition len_prefixed (x : bytes) : bytes := be_bytes 4 (Z.of_nat (length x)) ++ x.

(** [UndoData::serialize]. *)
Definition undo_serialize (u : UndoData) : result bytes StateError :=
  let? entries := rmap entry_serialize (undo_spent_boxes u) in
  Ok (be_bytes 4 (undo_height u)
      ++ be_bytes 4 (Z.of_nat (length (undo_spent_boxes u)))
      ++ concat (len_prefixed <$> entries)
      ++ be_bytes 4 (Z.of_nat (length (undo_created_box_ids u)))
      ++ concat (len_prefixed <$> undo_created_box_ids u)).

(** One length-prefixed item at [offset], with the two truncation checks of
    the loops of [UndoData::deserialize]. *)
Definition read_item (bs : bytes) (offset : nat) : result (bytes * nat) StateError :=
  if (length bs <? offset + 4)%nat then Err (Serialization "Undo data truncated")
  else
    let len := Z.to_nat (be_val (slice offset (offset + 4) bs)) in
    let offset := (offset + 4)%nat in
    if (length bs <? offset + len)%nat then Err (Serialization "Undo data truncated")
    else Ok (slice offset (offset + len) bs, (offset + len)%nat).

Fixpoint read_entries (count : nat) (bs : bytes) (offset : nat)
    : result (list BoxEntry * nat) StateError :=
  match count with
  | O => Ok ([], offset)
  | S count' =>
      let? (item, offset) := read_item bs offset in
      let? entry := entry_deserialize item in
      let? (rest, offset) := read_entries count' bs offset in
      Ok (entry :: rest, offset)
  end.

Fixpoint read_ids (count : nat) (bs : bytes) (offset : nat)
    : result (list bytes * nat) StateError :=
  match count with
  | O => Ok ([], offset)
  | S count' =>
      let? (item, offset) := read_item bs offset in
      let? (rest, offset) := read_ids count' bs offset in
      Ok (item :: rest, offset)
  end.

(** [UndoData::deserialize]. *)
Definition undo_deserialize (bs : bytes) : result UndoData StateError :=
  if (length bs <? 12)%nat then Err (Serialization "Undo data too short")
  else
    let height := be_val (slice 0 4 bs) in
    let spent_count := Z.to_nat (be_val (slice 4 8 bs)) in
    let? (spent_boxes, offset) := read_entries spent_count bs 8 in
    if (length bs <? offset + 4)%nat then Err (Serialization "Undo data truncated")
    else
      let created_count := Z.to_nat (be_val (slice offset (offset + 4) bs)) in
      let? (created_box_ids, offset) := read_ids created_count bs (offset + 4) in
      Ok (mkUndoData height spent_boxes created_box_ids).

(** [UndoData::to_reverse_change]. *)
Definition to_reverse_change (u : UndoData) : StateChange :=
  mkStateChange (undo_spent_boxes u)
    (base.filter (fun id => length id = 32%nat) (undo_created_box_ids u)).

(** ** Lists of box identifiers (index values) *)

Definition BOX_ID_LENGTH : nat := 32.

Definition serialize_box_id_list (box_ids : list bytes) : bytes :=
  be_bytes 4 (Z.of_nat (length box_ids)) ++ concat box_ids.

Fixpoint read_box_ids (count : nat) (bs : bytes) (offset : nat) : list bytes :=
  match count with
  | O => []
  | S count' =>
      if (length bs <? offset + BOX_ID_LENGTH)%nat then []
      else slice offset (offset + BOX_ID_LENGTH) bs
           :: read_box_ids count' bs (offset + BOX_ID_LENGTH)
  end.

Definition deserialize_box_id_list (bs : bytes) : list bytes :=
  if (length bs <? 4)%nat then []
  else read_box_ids (Z.to_nat (be_val (slice 0 4 bs))) bs 4.

(** ** The state manager *)

Context {DB : Type} `{Storage DB}.

Record UtxoState := mkUtxoState {
  us_storage : DB;
  us_state_root : bytes;
  us_height : Z;
  us_sync_mode : bool
}.

Definition utxo_new (storage : DB) : UtxoState :=
  mkUtxoState storage (replicate 32 0) 0 false.

(** [UtxoState::init_from_storage]. *)
Definition init_from_storage (storage : DB) : UtxoState :=
  let state := utxo_new storage in
  let root := match st_get storage Metadata (str_bytes "state_root") with
              | Some r => r | None => us_state_root state end in
  let height := match st_get storage Metadata (str_bytes "utxo_height") with
                | Some h => if (4 <=? length h)%nat then be_val (slice 0 4 h) else us_height state
                | None => us_height state end in
  mkUtxoState storage root height false.

Definition set_sync_mode (st : UtxoState) (enabled : bool) : UtxoState :=
  mkUtxoState (us_storage st) (us_state_root st) (us_height st) enabled.

(** [get_box] and [get_box_by_bytes]. *)
Definition get_box (st : UtxoState) (id : bytes) : result (option BoxEntry) StateError :=
  match st_get (us_storage st) Utxo id with
  | Some bs => let? entry := entry_deserialize bs in Ok (Some entry)
  | None => Ok None
  end.

Definition get_boxes_batch (st : UtxoState) (ids : list bytes)
    : result (list (option BoxEntry)) StateError :=
  rmap (fun o => match o with
    | Some bs => let? entry := entry_deserialize bs in Ok (Some entry)
    | None => Ok None
    end) (st_multi_get (us_storage st) Utxo ids).

Definition contains_box (st : UtxoState) (id : bytes) : bool :=
  st_contains (us_storage st) Utxo id.

(** [hash_ergotree]; [unwrap_or_default] makes a failure the empty string. *)
Definition hash_ergotree (b : ErgoBox) : bytes :=
  blake2b256 (match box_tree_bytes b with Some t => t | None => [] end).

Definition get_index_entries (st : UtxoState) (cf : ColumnFamily) (key : bytes) : list bytes :=
  match st_get (us_storage st) cf key with
  | Some bs => deserialize_box_id_list bs
  | None => []
  end.

(** [add_to_index] and [remove_from_index]: both read the stored list, not
    what earlier operations of the same batch wrote. *)
Definition add_to_index (st : UtxoState) (batch : WriteBatch) (cf : ColumnFamily)
    (key id : bytes) : WriteBatch :=
  let box_ids := get_index_entries st cf key in
  if decide (id ∈ box_ids) then batch
  else batch_put batch cf key (serialize_box_id_list (box_ids ++ [id])).

Definition remove_from_index (st : UtxoState) (batch : WriteBatch) (cf : ColumnFamily)
    (key id : bytes) : WriteBatch :=
  let box_ids := base.filter (fun x => x <> id) (get_index_entries st cf key) in
  match box_ids with
  | [] => batch_delete batch cf key
  | _ => batch_put batch cf key (serialize_box_id_list box_ids)
  end.

(** The index maintenance repeated for every box: its script, then each of its
    tokens. *)
Definition index_box (add : bool) (st : UtxoState) (batch : WriteBatch) (b : ErgoBox)
    (id : bytes) : WriteBatch :=
  let f := if add then add_to_index st else remove_from_index st in
  fold_left (fun batch '(token_id, _) => f batch TokenIndex token_id id)
    (box_tokens b) (f batch ErgoTreeIndex (hash_ergotree b) id).

(** The key of the undo data of a height. *)
Definition undo_key (height : Z) : bytes := be_bytes 4 height.
Definition height_key : bytes := str_bytes "utxo_height".

(** The end of both ways of applying a change: created boxes, undo data and
    the new height. *)
Definition apply_created (st : UtxoState) (change : StateChange) (batch : WriteBatch)
    : result WriteBatch StateError :=
  rfold (fun batch entry =>
    let? serialized := entry_serialize entry in
    let id := box_id_bytes entry in
    let batch := if us_sync_mode st then batch
                 else index_box true st batch (be_box entry) id in
    Ok (batch_put batch Utxo id serialized)) batch (sc_created change).

Definition finish_change (batch : WriteBatch) (undo : UndoData) (new_height : Z)
    : result WriteBatch StateError :=
  let? undo_bytes := undo_serialize undo in
  let batch := batch_put batch CFUndoData (undo_key new_height) undo_bytes in
  Ok (batch_put batch Metadata height_key (be_bytes 4 new_height)).

(** [UtxoState::apply_change]. *)
Definition apply_change (st : UtxoState) (change : StateChange) (new_height : Z)
    : result UtxoState StateError :=
  let? (batch, spent) := rfold (fun '(batch, spent) id =>
    let? found := get_box st id in
    match found with
    | Some entry =>
        let batch := if us_sync_mode st then batch
                     else index_box false st batch (be_box entry) id in
        Ok (batch_delete batch Utxo id, spent ++ [entry])
    | None => Err (BoxNotFound id)
    end) ([], []) (sc_spent change) in
  let? batch := apply_created st change batch in
  let undo := mkUndoData new_height spent (box_id_bytes <$> sc_created change) in
  let? batch := finish_change batch undo new_height in
  Ok (mkUtxoState (st_write_batch (us_storage st) batch) (us_state_root st)
        new_height (us_sync_mode st)).

(** [add_change_to_batch_with_context]: a spent box is looked up among the
    boxes of this block, then of the earlier blocks of the batch, then in the
    database. *)
Definition add_change_to_batch_with_context (st : UtxoState) (batch : WriteBatch)
    (change : StateChange) (new_height : Z) (batch_created_boxes : gmap bytes BoxEntry)
    : result WriteBatch StateError :=
  let created_in_block : gmap bytes BoxEntry :=
    fold_left (fun mp entry => <[box_id_bytes entry := entry]> mp) (sc_created change) ∅ in
  let? (batch, spent) := rfold (fun '(batch, spent) id =>
    let? entry :=
      match created_in_block !! id with
      | Some entry => Ok entry
      | None =>
          match batch_created_boxes !! id with
          | Some entry => Ok entry
          | None =>
              let? found := get_box st id in
              ok_or found (BoxNotFound id)
          end
      end in
    let batch := if us_sync_mode st then batch
                 else index_box false st batch (be_box entry) id in
    Ok (batch_delete batch Utxo id, spent ++ [entry])) (batch, []) (sc_spent change) in
  let? batch := apply_created st change batch in
  let undo := mkUndoData new_height spent (box_id_bytes <$> sc_created change) in
  finish_change batch undo new_height.

(** [add_change_to_batch] and [update_height_in_memory]. *)
Definition add_change_to_batch (st : UtxoState) (batch : WriteBatch)
    (change : StateChange) (new_height : Z) : result WriteBatch StateError :=
  add_change_to_batch_with_context st batch change new_height ∅.

Definition update_height_in_memory (st : UtxoState) (new_height : Z) : UtxoState :=
  mkUtxoState (us_storage st) (us_state_root st) new_height (us_sync_mode st).

(** [rollback_one_block]; it maintains the indexes even in sync mode. *)
Definition rollback_one_block (st : UtxoState) (height : Z) : result UtxoState StateError :=
  let? undo_bytes := ok_or (st_get (us_storage st) CFUndoData (undo_key height))
                       (RollbackFailed "No undo data for height") in
  let? undo := undo_deserialize undo_bytes in
  let? batch := rfold (fun batch id =>
    let? found := get_box st id in
    let batch := match found with
                 | Some entry => index_box false st batch (be_box entry) id
                 | None => batch
                 end in
    Ok (batch_delete batch Utxo id)) [] (undo_created_box_ids undo) in
  let? batch := rfold (fun batch entry =>
    let? serialized := entry_serialize entry in
    let id := box_id_bytes entry in
    let batch := index_box true st batch (be_box entry) id in
    Ok (batch_put batch Utxo id serialized)) batch (undo_spent_boxes undo) in
  let batch := batch_delete batch CFUndoData (undo_key height) in
  Ok (mkUtxoState (st_write_batch (us_storage st) batch) (us_state_root st)
        (us_height st) (us_sync_mode st)).

(** The heights [(to_height + 1..=current).rev()]. *)
Definition rollback_heights (to_height : Z) (count : nat) : list Z :=
  (fun i => to_height + Z.of_nat i) <$> rev (seq 1 count).

(** [UtxoState::rollback]; the blocks undone before an error stay undone, so
    the state is returned in both cases. *)
Fixpoint rollback_blocks (st : UtxoState) (heights : list Z)
    : result unit StateError * UtxoState :=
  match heights with
  | [] => (Ok tt, st)
  | h :: heights' =>
      match rollback_one_block st h with
      | Ok st' => rollback_blocks st' heights'
      | Err e => (Err e, st)
      end
  end.

Definition rollback (st : UtxoState) (to_height : Z) : result unit StateError * UtxoState :=
  if to_height >=? us_height st then
    (Err (RollbackFailed "target must be lower"), st)
  else
    match rollback_blocks st (rollback_heights to_height
        (Z.to_nat (us_height st - to_height))) with
    | (Ok _, st') =>
        (Ok tt, mkUtxoState
          (st_write_batch (us_storage st')
             (batch_put [] Metadata height_key (be_bytes 4 to_height)))
          (us_state_root st') to_height (us_sync_mode st'))
    | (Err e, st') => (Err e, st')
    end.

(** ** Queries over the indexes *)

Definition boxes_of_ids (st : UtxoState) (ids : list bytes) : result (list BoxEntry) StateError :=
  rfold (fun boxes id =>
    let? found := get_box st id in
    Ok (match found with Some entry => boxes ++ [entry] | None => boxes end)) [] ids.

Definition get_boxes_by_ergo_tree (st : UtxoState) (hash : bytes)
    : result (list BoxEntry) StateError := boxes_of_ids st (get_index_entries st ErgoTreeIndex hash).
Definition get_boxes_by_token (st : UtxoState) (token_id : bytes)
    : result (list BoxEntry) StateError := boxes_of_ids st (get_index_entries st TokenIndex token_id).
Definition count_boxes_by_ergo_tree (st : UtxoState) (hash : bytes) : Z :=
  Z.of_nat (length (get_index_entries st ErgoTreeIndex hash)).
Definition count_boxes_by_token (st : UtxoState) (token_id : bytes) : Z :=
  Z.of_nat (length (get_index_entries st TokenIndex token_id)).
Definition get_all_token_ids (st : UtxoState) : list bytes :=
  fst <$> st_iter (us_storage st) TokenIndex.
Definition box_count (st : UtxoState) : Z := Z.of_nat (length (st_iter (us_storage st) Utxo)).

(** An entry that does not deserialize is left out. *)
Definition iter_boxes (st : UtxoState) : list BoxEntry :=
  omap (fun kv => match entry_deserialize kv.2 with Ok e => Some e | Err _ => None end) (st_iter (us_storage st) Utxo).
Definition get_boxes_by_ergo_tree_direct (st : UtxoState) (b : ErgoBox) : result (list BoxEntry) StateError :=
  get_boxes_by_ergo_tree st (hash_ergotree b).

(** ** The authenticated state

    [BatchAVLProver] is a library; the state drives it when a block is applied
    with its proof, and [RocksDbAvlStorage] is the storage it can be given. *)

Inductive AvlOperation :=
  | AvlRemove (key : bytes)
  | AvlInsert (key value : bytes).

Class AvlProver (P : Type) := {
  avl_perform_one_operation : P -> AvlOperation -> result P string;
  avl_generate_proof : P -> bytes * P;
  avl_digest : P -> option bytes;
  avl_removed_labels : P -> list bytes * P
}.

(** Removals first, then insertions. *)
Definition to_avl_operations (change : StateChange) : result (list AvlOperation) StateError :=
  let? inserts := rmap (fun entry =>
    let? value := serialize_box_only entry in Ok (AvlInsert (box_id_bytes entry) value)) (sc_created change) in
  Ok ((AvlRemove <$> sc_spent change) ++ inserts).

Section Prover.
Context {P : Type} `{AvlProver P}.

(** The operations up to the first that fails, with the prover they leave. *)
Fixpoint perform_operations (ops : list AvlOperation) (prover : P) : result unit StateError * P :=
  match ops with
  | [] => (Ok tt, prover)
  | op :: rest =>
      match avl_perform_one_operation prover op with
      | Ok prover => perform_operations rest prover
      | Err e => (Err (AvlTree e), prover)
      end
  end.

(** The proof, the state and the prover; each keeps what was done to it before
    an error. *)
Definition apply_change_with_proof (st : UtxoState) (change : StateChange) (new_height : Z) (prover : P)
    : result bytes StateError * UtxoState * P :=
  match to_avl_operations change with
  | Err e => (Err e, st, prover)
  | Ok operations =>
      match perform_operations operations prover with
      | (Err e, prover) => (Err e, st, prover)
      | (Ok _, prover) =>
          let '(proof, prover) := avl_generate_proof prover in
          match avl_digest prover with
          | None => (Err (AvlTree "Failed to get digest"), st, prover)
          | Some new_digest =>
              match apply_change st change new_height with
              | Err e => (Err e, st, prover)
              | Ok st =>
                  let batch := batch_put [] Metadata (str_bytes "state_root") new_digest in
                  (Ok proof,
                   mkUtxoState (st_write_batch (us_storage st) batch) new_digest (us_height st) (us_sync_mode st),
                   prover)
              end
          end
      end
  end.

Record RocksDbAvlStorage := mkRocksDbAvlStorage { av_storage : DB; av_current_version : option bytes }.

Definition avl_version_key : bytes := str_bytes "avl_version".

Definition avl_storage_new (storage : DB) : RocksDbAvlStorage :=
  mkRocksDbAvlStorage storage (st_get storage Metadata avl_version_key).

Definition avl_save_node (a : RocksDbAvlStorage) (key value : bytes) : RocksDbAvlStorage :=
  mkRocksDbAvlStorage (st_put (av_storage a) Utxo key value) (av_current_version a).
Definition avl_load_node (a : RocksDbAvlStorage) (key : bytes) : option bytes := st_get (av_storage a) Utxo key.

(** [VersionedAVLStorage::update]: nodes removed, additional data written; the
    nodes the prover made are not. *)
Definition avl_update (a : RocksDbAvlStorage) (prover : P) (additional_data : list (bytes * bytes))
    : RocksDbAvlStorage * P :=
  let '(labels, prover) := avl_removed_labels prover in
  let batch := fold_left (fun b label => batch_delete b Utxo label) labels [] in
  let batch := fold_left (fun b '(key, value) => batch_put b Utxo key value) additional_data batch in
  match avl_digest prover with
  | Some digest =>
      (mkRocksDbAvlStorage (st_write_batch (av_storage a) (batch_put batch Metadata avl_version_key digest))
         (Some digest), prover)
  | None => (mkRocksDbAvlStorage (st_write_batch (av_storage a) batch) (av_current_version a), prover)
  end.

Definition avl_rollback (a : RocksDbAvlStorage) (version : bytes) : result (bytes * nat) string :=
  Err "Rollback not yet fully implemented - need version tracking"%string.
Definition avl_rollback_versions (a : RocksDbAvlStorage) : list bytes := [].

End Prover.

End Utxo.

(** ** State snapshots *)

Record StateSnapshot := mkStateSnapshot {
  ss_height : Z; ss_state_root : bytes; ss_timestamp : Z }.

Definition snapshot_serialize (s : StateSnapshot) : bytes :=
  be_bytes 4 (ss_height s) ++ be_bytes 8 (ss_timestamp s) ++ ss_state_root s.

(** [create_snapshot], at the time [now] in seconds. *)
Definition create_snapshot {DB : Type} (st : UtxoState (DB := DB)) (now : Z) : StateSnapshot :=
  mkStateSnapshot (us_height st) (us_state_root st) now.

Definition snapshot_deserialize (bs : bytes) : result StateSnapshot StateError :=
  if (length bs <? 12)%nat then Err (Serialization "Snapshot too short")
  else Ok (mkStateSnapshot (be_val (slice 0 4 bs)) (drop 12 bs) (be_val (slice 4 12 bs))).

Arguments BoxEntry : clear implicits.
Arguments StateChange : clear implicits.
Arguments UndoData : clear implicits.
Arguments UtxoState : clear implicits.
