(* ===== verification/UtxoFacts.v ===== *)
(** * Byte formats and batches of the UTXO state

    Round trips of box entries, undo data, index lists and snapshots; then the
    effect of the batches built by [apply_change], its batching variant
    and [rollback_one_block] on the families other than the two indexes. *)

From S2P Require Export Utxo.

Local Open Scope Z_scope.

Section Codec.
Context {ErgoBox : Type} `{ErgoBoxLaws ErgoBox}.

Abbreviation entry := (BoxEntry ErgoBox).

(** The values the fixed-width fields can hold. *)
Definition entry_ok (e : entry) : Prop :=
  in_u 32 (be_creation_height e) /\ length (be_tx_id e) = 32%nat /\ in_u 16 (be_output_index e).

(** A serialized entry is a 38-byte prefix followed by the box. *)
Lemma entry_serialize_inv (e : entry) bs :
  entry_serialize e = Ok bs ->
  exists box_bytes, box_serialize (be_box e) = Some box_bytes /\
    bs = be_bytes 4 (be_creation_height e) ++ be_tx_id e
         ++ be_bytes 2 (be_output_index e) ++ box_bytes.
Proof.
  unfold entry_serialize. destruct (box_serialize (be_box e)) as [bb|]; simpl; [|done].
  intros [= <-]. eauto.
Qed.

Lemma entry_roundtrip (e : entry) bs :
  entry_ok e -> entry_serialize e = Ok bs -> entry_deserialize bs = Ok e.
Proof.
  intros (Hh & Ht & Hi) (bb & Hbb & ->)%entry_serialize_inv. unfold entry_deserialize.
  rewrite !length_app, !be_bytes_length, Ht.
  destruct (Nat.ltb_spec (4 + (32 + (2 + length bb))) 38); [lia|].
  replace (slice 0 4 _) with (be_bytes 4 (be_creation_height e))
    by (symmetry; apply slice_head, be_bytes_length).
  replace (slice 4 36 _) with (be_tx_id e)
    by (symmetry; apply slice_mid; rewrite ?be_bytes_length, ?Ht; done).
  replace (slice 36 38 _) with (be_bytes 2 (be_output_index e))
    by (symmetry; rewrite (app_assoc (be_bytes 4 _)); apply slice_mid;
        rewrite ?length_app, ?be_bytes_length, ?Ht; done).
  replace (drop 38 _) with bb
    by (symmetry; rewrite !app_assoc, drop_app_length'; rewrite ?length_app, ?be_bytes_length, ?Ht; done).
  rewrite (box_parse_serialize _ _ Hbb). cbn [ok_or rbind].
  rewrite !be_val_bytes by (unfold in_u in *; lia). by destruct e.
Qed.

(** ** Length-prefixed items *)

Lemma len_prefixed_length x : length (len_prefixed x) = (4 + length x)%nat.
Proof. unfold len_prefixed. by rewrite length_app, be_bytes_length. Qed.

Lemma read_item_prefixed pre x post :
  Z.of_nat (length x) < 2 ^ 32 ->
  read_item (pre ++ len_prefixed x ++ post) (length pre) =
  Ok (x, (length pre + length (len_prefixed x))%nat).
Proof.
  intros Hx. unfold read_item. rewrite !length_app, len_prefixed_length.
  destruct (Nat.ltb_spec (length pre + (4 + length x + length post)) (length pre + 4)); [lia|].
  assert (slice (length pre) (length pre + 4) (pre ++ len_prefixed x ++ post) =
          be_bytes 4 (Z.of_nat (length x))) as ->.
  { unfold len_prefixed. rewrite <- (app_assoc (be_bytes 4 _)).
    apply slice_mid; [done|]. by rewrite be_bytes_length. }
  rewrite be_val_bytes by lia. rewrite Nat2Z.id.
  destruct (Nat.ltb_spec (length pre + (4 + length x + length post)) (length pre + 4 + length x)); [lia|].
  f_equal. f_equal; [|lia]. unfold len_prefixed.
  rewrite <- (app_assoc (be_bytes 4 _)), (app_assoc pre).
  apply slice_mid; rewrite ?length_app, ?be_bytes_length; lia.
Qed.

Lemma concat_item_le x (l : list bytes) :
  x ∈ l -> (length (len_prefixed x) <= length (concat (len_prefixed <$> l)))%nat.
Proof.
  induction l as [|y l IH]; intros Hx; [by apply not_elem_of_nil in Hx|].
  cbn [fmap list_fmap concat]. rewrite length_app.
  apply elem_of_cons in Hx as [->|Hx]; [lia|]. specialize (IH Hx). lia.
Qed.

Lemma concat_count_le (l : list bytes) : (length l <= length (concat (len_prefixed <$> l)))%nat.
Proof.
  induction l as [|y l IH]; [done|]. cbn [fmap list_fmap concat length].
  rewrite length_app, len_prefixed_length. lia.
Qed.

Lemma read_ids_prefixed l pre post :
  (forall x, x ∈ l -> Z.of_nat (length x) < 2 ^ 32) ->
  read_ids (length l) (pre ++ concat (len_prefixed <$> l) ++ post) (length pre) =
  Ok (l, (length pre + length (concat (len_prefixed <$> l)))%nat).
Proof.
  revert pre. induction l as [|x l IH]; intros pre Hl; cbn [read_ids length fmap list_fmap concat].
  - f_equal. f_equal. lia.
  - rewrite <- (app_assoc (len_prefixed x)). rewrite read_item_prefixed by (apply Hl; set_solver).
    cbn [rbind]. rewrite app_assoc. rewrite <- length_app.
    rewrite IH by (intros; apply Hl; set_solver). cbn [rbind].
    f_equal. f_equal. rewrite !length_app. lia.
Qed.

Lemma read_entries_prefixed (es : list entry) ss pre post :
  rmap entry_serialize es = Ok ss -> Forall entry_ok es ->
  (forall x, x ∈ ss -> Z.of_nat (length x) < 2 ^ 32) ->
  read_entries (length es) (pre ++ concat (len_prefixed <$> ss) ++ post) (length pre) =
  Ok (es, (length pre + length (concat (len_prefixed <$> ss)))%nat).
Proof.
  revert ss pre. induction es as [|e es IH]; intros ss pre; cbn [rmap read_entries length].
  - intros [= <-] _ _. cbn. f_equal. f_equal. lia.
  - intros (s & Hs & (ss' & Hss & [= <-])%rbind_ok)%rbind_ok Hok Hl.
    apply Forall_cons in Hok as [He Hok]. cbn [fmap list_fmap concat].
    rewrite <- (app_assoc (len_prefixed s)). rewrite read_item_prefixed by (apply Hl; set_solver).
    cbn [rbind]. rewrite (entry_roundtrip e s He Hs). cbn [rbind].
    rewrite app_assoc, <- length_app, (IH ss') by (try done; intros; apply Hl; set_solver).
    cbn [rbind]. f_equal. f_equal. rewrite !length_app. lia.
Qed.

(** ** Undo data *)

Definition undo_ok (u : UndoData ErgoBox) : Prop :=
  in_u 32 (undo_height u) /\ Forall entry_ok (undo_spent_boxes u).

Lemma undo_roundtrip_aux (u : UndoData ErgoBox) bs :
  undo_ok u -> undo_serialize u = Ok bs -> Z.of_nat (length bs) < 2 ^ 32 ->
  undo_deserialize bs = Ok u.
Proof.
  intros [Hh Hes] (ss & Hss & <-%Ok_inj)%rbind_ok Hlen.
  pose proof (rmap_length _ _ _ Hss) as Hn.
  set (h4 := be_bytes 4 (undo_height u)) in *.
  set (n4 := be_bytes 4 (Z.of_nat (length (undo_spent_boxes u)))) in *.
  set (c := concat (len_prefixed <$> ss)) in *.
  set (m4 := be_bytes 4 (Z.of_nat (length (undo_created_box_ids u)))) in *.
  set (d := concat (len_prefixed <$> undo_created_box_ids u)) in *.
  assert (length h4 = 4%nat /\ length n4 = 4%nat /\ length m4 = 4%nat) as (L1 & L2 & L3)
    by (unfold h4, n4, m4; by rewrite !be_bytes_length).
  rewrite !length_app, L1, L2, L3 in Hlen.
  pose proof (concat_count_le ss) as Hc1. fold c in Hc1.
  pose proof (concat_count_le (undo_created_box_ids u)) as Hc2. fold d in Hc2.
  assert (Hss32 : forall x, x ∈ ss -> Z.of_nat (length x) < 2 ^ 32).
  { intros x Hx%concat_item_le. rewrite len_prefixed_length in Hx. fold c in Hx. lia. }
  assert (Hids32 : forall x, x ∈ undo_created_box_ids u -> Z.of_nat (length x) < 2 ^ 32).
  { intros x Hx%concat_item_le. rewrite len_prefixed_length in Hx. fold d in Hx. lia. }
  unfold undo_deserialize.
  destruct (Nat.ltb_spec (length (h4 ++ n4 ++ c ++ m4 ++ d)) 12) as [Hs|_];
    [rewrite !length_app in Hs; lia|].
  rewrite (slice_head 4 h4) by done.
  rewrite (slice_mid 4 8 h4 n4) by (rewrite ?L2; done).
  assert (be_val h4 = undo_height u /\ be_val n4 = Z.of_nat (length (undo_spent_boxes u)) /\
    be_val m4 = Z.of_nat (length (undo_created_box_ids u))) as (-> & -> & E3)
    by (unfold in_u in Hh; split_and!; apply be_val_bytes; lia).
  rewrite Nat2Z.id, (app_assoc h4).
  replace 8%nat with (length (h4 ++ n4)) by (rewrite length_app; lia).
  rewrite (read_entries_prefixed _ ss) by done. cbn [rbind]. fold c.
  rewrite <- length_app, (app_assoc (h4 ++ n4) c). set (pre := (h4 ++ n4) ++ c).
  destruct (Nat.ltb_spec (length (pre ++ m4 ++ d)) (length pre + 4)) as [Hs|_];
    [rewrite !length_app in Hs; lia|].
  rewrite (slice_mid (length pre) (length pre + 4) pre m4) by (rewrite ?L3; lia).
  rewrite E3, Nat2Z.id, (app_assoc pre m4). replace (length pre + 4)%nat with (length (pre ++ m4)) by (rewrite length_app; lia).
  rewrite <- (app_nil_r d). unfold d. rewrite read_ids_prefixed by done. cbn [rbind].
  by destruct u.
Qed.

End Codec.

(** ** Index lists *)

Lemma read_box_ids_concat l pre :
  Forall (fun id => length id = BOX_ID_LENGTH) l ->
  read_box_ids (length l) (pre ++ concat l) (length pre) = l.
Proof.
  revert pre. induction l as [|x l IH]; intros pre Hl; [done|].
  apply Forall_cons in Hl as [Hx Hl]. cbn [length read_box_ids concat].
  destruct (Nat.ltb_spec (length (pre ++ x ++ concat l)) (length pre + BOX_ID_LENGTH)) as [Hs|_].
  { rewrite !length_app in Hs. lia. }
  f_equal.
  - apply slice_mid; [done|]. by rewrite Hx.
  - rewrite app_assoc. replace (length pre + BOX_ID_LENGTH)%nat with (length (pre ++ x))
      by (rewrite length_app; lia). by apply IH.
Qed.

Lemma box_id_list_roundtrip_aux l :
  Forall (fun id => length id = BOX_ID_LENGTH) l -> Z.of_nat (length l) < 2 ^ 32 ->
  deserialize_box_id_list (serialize_box_id_list l) = l.
Proof.
  intros Hl Hn. unfold deserialize_box_id_list, serialize_box_id_list.
  rewrite length_app, be_bytes_length.
  destruct (Nat.ltb_spec (4 + length (concat l)) 4); [lia|].
  rewrite slice_head by apply be_bytes_length.
  rewrite be_val_bytes by lia. rewrite Nat2Z.id.
  etrans; [|apply (read_box_ids_concat l (be_bytes 4 (Z.of_nat (length l))) Hl)].
  by rewrite be_bytes_length.
Qed.

(** ** Batches *)

Section Facts.
Context {ErgoBox : Type} `{ErgoBoxLaws ErgoBox} `{Blake2b256}.
Context {DB : Type} `{StorageLaws DB}.

Abbreviation entry := (BoxEntry ErgoBox).
Abbreviation state := (UtxoState DB).

Definition not_index (cf : ColumnFamily) : Prop := cf <> ErgoTreeIndex /\ cf <> TokenIndex.

(** ** Index maintenance stays in the index families *)

Lemma add_to_index_last (st : state) batch cf key id cf' k :
  cf <> cf' -> batch_last (add_to_index st batch cf key id) cf' k = batch_last batch cf' k.
Proof.
  intros Hne. unfold add_to_index, batch_put. case_decide; [done|].
  rewrite batch_last_app. cbn [batch_last op_cf op_key]. by rewrite decide_False by naive_solver.
Qed.

Lemma remove_from_index_last (st : state) batch cf key id cf' k :
  cf <> cf' -> batch_last (remove_from_index st batch cf key id) cf' k = batch_last batch cf' k.
Proof.
  intros Hne. unfold remove_from_index, batch_put, batch_delete.
  destruct (base.filter _ _); rewrite batch_last_app; cbn [batch_last op_cf op_key];
    by rewrite decide_False by naive_solver.
Qed.

Lemma index_box_last add (st : state) batch (b : ErgoBox) id cf k :
  not_index cf -> batch_last (index_box add st batch b id) cf k = batch_last batch cf k.
Proof.
  intros [He Ht]. unfold index_box.
  assert (forall batch key cf', cf' <> cf ->
    batch_last ((if add then add_to_index st else remove_from_index st) batch cf' key id) cf k =
    batch_last batch cf k) as Hstep.
  { intros. destruct add; [by apply add_to_index_last|by apply remove_from_index_last]. }
  rewrite <- (Hstep batch (hash_ergotree b) ErgoTreeIndex) by done.
  generalize ((if add then add_to_index st else remove_from_index st) batch ErgoTreeIndex (hash_ergotree b) id).
  induction (box_tokens b) as [|[t a] l IH]; intros batch'; [done|].
  cbn [fold_left]. rewrite IH. by apply Hstep.
Qed.

Lemma maybe_index_last (skip add : bool) (st : state) batch (b : ErgoBox) id cf k :
  not_index cf ->
  batch_last (if skip then batch else index_box add st batch b id) cf k = batch_last batch cf k.
Proof. intros. destruct skip; [done|]. by apply index_box_last. Qed.

(** ** Spending *)

(** The common loop of both ways of applying a change. *)
Definition spend_loop (look : bytes -> result entry StateError) (st : state) acc ids :=
  rfold (fun '(batch, spent) id =>
    let? e := look id in
    let batch := if us_sync_mode st then batch else index_box false st batch (be_box e) id in
    Ok (batch_delete batch Utxo id, spent ++ [e])) acc ids.

Lemma spend_loop_spec look (st : state) ids batch0 spent0 batch spent :
  spend_loop look st (batch0, spent0) ids = Ok (batch, spent) ->
  exists es, spent = spent0 ++ es /\ Forall2 (fun id e => look id = Ok e) ids es /\
    forall cf k, not_index cf -> batch_last batch cf k =
      if decide (cf = Utxo /\ k ∈ ids) then Some OpDelete else batch_last batch0 cf k.
Proof.
  unfold spend_loop. revert batch0 spent0. induction ids as [|id ids IH]; intros batch0 spent0.
  - intros [= <- <-]. exists []. split; [by rewrite app_nil_r|]. split; [constructor|].
    intros cf k _. rewrite decide_False; [done|]. set_solver.
  - cbn [rfold]. intros ([b1 s1] & (e & He & <-%Ok_inj)%rbind_ok & Hr)%rbind_ok.
    apply IH in Hr as (es & -> & Hes & Hlast). exists (e :: es).
    split; [by rewrite <- app_assoc|]. split; [by constructor|].
    intros cf k Hcf. rewrite Hlast by done. unfold batch_delete. rewrite batch_last_app.
    cbn [batch_last op_cf op_key]. rewrite maybe_index_last by done.
    repeat case_decide; set_solver.
Qed.

Lemma spend_loop_err look (st : state) ids acc id err :
  (forall id', id' ∈ ids -> id' = id \/ is_ok (look id') = true) ->
  id ∈ ids -> look id = Err err -> spend_loop look st acc ids = Err err.
Proof.
  unfold spend_loop. revert acc. induction ids as [|i ids IH]; intros [b s] Hok Hin Hl;
    [by apply not_elem_of_nil in Hin|]. cbn [rfold].
  destruct (decide (i = id)) as [->|Hne]; [by rewrite Hl|].
  apply elem_of_cons in Hin as [->|Hin]; [done|].
  destruct (Hok i) as [->|Hi]; [set_solver|done|].
  destruct (look i); [|done]. cbn [rbind]. apply IH; set_solver.
Qed.

(** ** Creating *)

(** The entry a list of created boxes leaves under an identifier: the last. *)
Fixpoint created_lookup (l : list entry) (k : bytes) : option entry :=
  match l with
  | [] => None
  | e :: l' =>
      match created_lookup l' k with
      | Some x => Some x
      | None => if decide (box_id_bytes e = k) then Some e else None
      end
  end.

Lemma created_lookup_Some l k e :
  created_lookup l k = Some e -> e ∈ l /\ box_id_bytes e = k.
Proof.
  induction l as [|x l IH]; cbn [created_lookup]; [done|].
  destruct (created_lookup l k); [intros [= ->]; set_solver|].
  case_decide; [|done]. intros [= ->]. set_solver.
Qed.

Lemma created_lookup_None l k :
  created_lookup l k = None <-> k ∉ (box_id_bytes <$> l).
Proof.
  induction l as [|x l IH]; cbn [created_lookup fmap list_fmap]; [set_solver|].
  destruct (created_lookup l k) as [e|] eqn:E.
  - split; [done|]. intros Hn. exfalso. apply Hn. apply created_lookup_Some in E as [He <-].
    apply elem_of_cons. right. by apply list_elem_of_fmap_2.
  - case_decide; set_solver.
Qed.

(** The loop that writes boxes, in [apply_created] and in the rollback. *)
Definition put_loop (skip : bool) (st : state) batch (es : list entry) : result WriteBatch StateError :=
  rfold (fun batch e =>
    let? serialized := entry_serialize e in
    let id := box_id_bytes e in
    let batch := if skip then batch else index_box true st batch (be_box e) id in
    Ok (batch_put batch Utxo id serialized)) batch es.

Lemma put_loop_spec skip (st : state) es batch0 batch :
  put_loop skip st batch0 es = Ok batch ->
  forall cf k, not_index cf ->
    match (if decide (cf = Utxo) then created_lookup es k else None) with
    | Some e => exists s, entry_serialize e = Ok s /\ batch_last batch cf k = Some (OpPut s)
    | None => batch_last batch cf k = batch_last batch0 cf k
    end.
Proof.
  unfold put_loop. revert batch0. induction es as [|e es IH]; intros batch0.
  - intros [= <-] cf k _. by case_decide.
  - cbn [rfold]. intros (b1 & (s & Hs & <-%Ok_inj)%rbind_ok & Hr)%rbind_ok cf k Hcf.
    specialize (IH _ Hr cf k Hcf). cbn [created_lookup].
    destruct (decide (cf = Utxo)) as [->|Hne].
    + destruct (created_lookup es k) as [e'|]; [done|]. rewrite IH. unfold batch_put.
      rewrite batch_last_app. cbn [batch_last op_cf op_key op_kind].
      rewrite maybe_index_last by done. repeat case_decide; naive_solver.
    + rewrite IH. unfold batch_put. rewrite batch_last_app. cbn [batch_last op_cf op_key].
      rewrite decide_False by naive_solver. by apply maybe_index_last.
Qed.

Lemma put_loop_ok skip (st : state) es batch0 :
  (forall e, e ∈ es -> is_ok (entry_serialize e) = true) ->
  exists batch, put_loop skip st batch0 es = Ok batch.
Proof.
  unfold put_loop. revert batch0. induction es as [|e es IH]; intros batch0 Hok; [by eexists|].
  cbn [rfold]. specialize (Hok e ltac:(set_solver)) as He.
  destruct (entry_serialize e); [|done]. cbn [rbind]. apply IH. set_solver.
Qed.

(** ** The end of a change *)

Lemma finish_change_spec batch0 (u : UndoData ErgoBox) h batch :
  finish_change batch0 u h = Ok batch ->
  exists bs, undo_serialize u = Ok bs /\
  forall cf k, batch_last batch cf k =
    if decide (cf = Metadata /\ k = height_key) then Some (OpPut (be_bytes 4 h))
    else if decide (cf = CFUndoData /\ k = undo_key h) then Some (OpPut bs)
    else batch_last batch0 cf k.
Proof.
  unfold finish_change. intros (bs & Hbs & <-%Ok_inj)%rbind_ok. exists bs. split; [done|].
  intros cf k. unfold batch_put. rewrite !batch_last_app.
  cbn [batch_last op_cf op_key op_kind]. repeat case_decide; naive_solver.
Qed.

(** ** Applying a change *)

Definition look_stored (st : state) (id : bytes) : result entry StateError :=
  let? found := get_box st id in ok_or found (BoxNotFound id).

Lemma apply_change_eq (st : state) (ch : StateChange ErgoBox) h :
  apply_change st ch h =
  let? (batch, spent) := spend_loop (look_stored st) st ([], []) (sc_spent ch) in
  let? batch := put_loop (us_sync_mode st) st batch (sc_created ch) in
  let? batch := finish_change batch
    (mkUndoData h spent (box_id_bytes <$> sc_created ch)) h in
  Ok (mkUtxoState (st_write_batch (us_storage st) batch) (us_state_root st) h (us_sync_mode st)).
Proof.
  unfold apply_change, spend_loop. f_equal. generalize (@nil BatchOperation, @nil entry).
  induction (sc_spent ch) as [|id ids IH]; intros [b s]; [done|].
  cbn [rfold]. unfold look_stored at 1. destruct (get_box st id) as [[e|]|err]; cbn [rbind ok_or]; [|done|done].
  apply IH.
Qed.

(** What a successful [apply_change] leaves in the store, family by family. *)
Lemma apply_change_spec (st : state) (ch : StateChange ErgoBox) h (st' : state) :
  apply_change st ch h = Ok st' ->
  exists es bs,
    Forall2 (fun id e => get_box st id = Ok (Some e)) (sc_spent ch) es /\
    undo_serialize (mkUndoData h es (box_id_bytes <$> sc_created ch)) = Ok bs /\
    us_height st' = h /\ us_sync_mode st' = us_sync_mode st /\
    (forall k, match created_lookup (sc_created ch) k with
      | Some e => exists s, entry_serialize e = Ok s /\ st_get (us_storage st') Utxo k = Some s
      | None => st_get (us_storage st') Utxo k =
          if decide (k ∈ sc_spent ch) then None else st_get (us_storage st) Utxo k
      end) /\
    (forall k, st_get (us_storage st') CFUndoData k =
      if decide (k = undo_key h) then Some bs else st_get (us_storage st) CFUndoData k).
Proof.
  rewrite apply_change_eq.
  intros ([batch spent] & Hsp & (b2 & Hput & (b3 & Hfin & <-%Ok_inj)%rbind_ok)%rbind_ok)%rbind_ok.
  apply spend_loop_spec in Hsp as (es & -> & Hes & Hlast). cbn [app] in Hfin.
  apply finish_change_spec in Hfin as (bs & Hbs & Hlast3).
  pose proof (put_loop_spec _ _ _ _ _ Hput) as Hlast2.
  exists es, bs. split; [|split; [done|]; split; [done|]; split; [done|]; split].
  - eapply Forall2_impl; [exact Hes|]. unfold look_stored.
    intros id e ([e'|] & Hg & Hx)%rbind_ok; [|done]. injection Hx as <-. done.
  - intros k. cbn [us_storage]. specialize (Hlast2 Utxo k ltac:(done)).
    rewrite decide_True in Hlast2 by done.
    destruct (created_lookup (sc_created ch) k) as [e|].
    + destruct Hlast2 as (s & Hs & Hl). exists s. split; [done|].
      rewrite st_get_write_batch, Hlast3. repeat (rewrite decide_False by naive_solver). by rewrite Hl.
    + rewrite st_get_write_batch, Hlast3. repeat (rewrite decide_False by naive_solver).
      rewrite Hlast2, Hlast by done. cbn [batch_last]. repeat case_decide; naive_solver.
  - intros k. cbn [us_storage]. rewrite st_get_write_batch, Hlast3.
    rewrite decide_False by naive_solver. specialize (Hlast2 CFUndoData k ltac:(done)).
    rewrite decide_False in Hlast2 by done. rewrite Hlast2, Hlast by done.
    cbn [batch_last]. repeat case_decide; naive_solver.
Qed.

End Facts.
