(* ===== verification/UtxoSpec.v ===== *)
(** * What the UTXO state promises

    Content of the box set after a change, exact restoration by rollback, and
    what happens when one block creates and spends the same box or creates two
    boxes with the same script. *)

From S2P Require Export UtxoFacts.

Local Open Scope Z_scope.

Section Spec.
Context {ErgoBox : Type} `{ErgoBoxLaws ErgoBox} `{Blake2b256}.
Context {DB : Type} `{StorageLaws DB}.

Abbreviation entry := (BoxEntry ErgoBox).
Abbreviation state := (UtxoState DB).
Abbreviation utxo st := (st_get (us_storage st) Utxo).
Abbreviation undo st := (st_get (us_storage st) CFUndoData).

(** Every stored box is the serialisation of a well-formed entry under its own
    identifier. *)
Definition utxo_wf (st : state) : Prop :=
  forall k v, utxo st k = Some v ->
    exists e : entry, entry_serialize e = Ok v /\ box_id_bytes e = k /\ entry_ok e.

(** A change as block validation produces it: the created boxes are new and
    have distinct identifiers. *)
Definition change_ok (st : state) (ch : StateChange ErgoBox) : Prop :=
  Forall entry_ok (sc_created ch) /\
  forall e, e ∈ sc_created ch -> utxo st (box_id_bytes e) = None.

(** The undo data of a height fits the 32-bit length fields of its format. *)
Definition undo_fits (st : state) (h : Z) : Prop :=
  forall bs, st_get (us_storage st) CFUndoData (undo_key h) = Some bs ->
    Z.of_nat (length bs) < 2 ^ 32.

(** ** Reading entries *)

Lemma get_box_wf (st : state) k :
  utxo_wf st -> get_box (ErgoBox := ErgoBox) st k =
    match utxo st k with Some v => Ok (match entry_deserialize v with Ok e => Some e | Err _ => None end)
    | None => Ok None end.
Proof.
  intros Hwf. unfold get_box. destruct (utxo st k) as [v|] eqn:E; [|done].
  destruct (Hwf k v E) as (e & Hs & _ & He). by rewrite (entry_roundtrip e v He Hs).
Qed.

Lemma get_box_Some (st : state) k (e : entry) :
  utxo_wf st -> get_box st k = Ok (Some e) ->
  utxo st k = (match entry_serialize e with Ok v => Some v | Err _ => None end) /\
  is_ok (entry_serialize e) = true /\ box_id_bytes e = k /\ entry_ok e.
Proof.
  intros Hwf. unfold get_box. destruct (utxo st k) as [v|] eqn:E; [|done].
  destruct (Hwf k v E) as (e' & Hs & Hid & He). rewrite (entry_roundtrip e' v He Hs).
  cbn [rbind]. intros [= <-]. by rewrite Hs.
Qed.

Lemma Forall2_elem_r {A B} (R : A -> B -> Prop) l k y :
  Forall2 R l k -> y ∈ k -> exists x, x ∈ l /\ R x y.
Proof.
  induction 1 as [|a b l k Hab _ IH]; intros Hy; [by apply not_elem_of_nil in Hy|].
  apply elem_of_cons in Hy as [->|Hy]; [exists a; set_solver|].
  destruct (IH Hy) as (x & ? & ?). exists x. set_solver.
Qed.

Lemma Forall2_elem_l {A B} (R : A -> B -> Prop) l k x :
  Forall2 R l k -> x ∈ l -> exists y, y ∈ k /\ R x y.
Proof. intros HR Hx. apply Forall2_flip in HR. by apply (Forall2_elem_r (flip R) k l). Qed.

(** Spent entries found in a well-formed store. *)
Lemma spent_entries (st : state) ids (es : list entry) :
  utxo_wf st -> Forall2 (fun id e => get_box st id = Ok (Some e)) ids es ->
  (box_id_bytes <$> es) = ids /\ Forall entry_ok es /\
  forall e, e ∈ es -> exists v, entry_serialize e = Ok v /\ utxo st (box_id_bytes e) = Some v.
Proof.
  intros Hwf HF. induction HF as [|id e ids es Hg _ (IH1 & IH2 & IH3)]; [set_solver|].
  apply (get_box_Some st id e Hwf) in Hg as (Hu & Hok & Hid & He).
  split; [cbn; by rewrite IH1, Hid|]. split; [by constructor|].
  intros e' [->|He']%elem_of_cons; [|by apply IH3].
  rewrite Hid, Hu. destruct (entry_serialize e); [eauto|done].
Qed.

Lemma apply_change_wf (st : state) (ch : StateChange ErgoBox) h (st' : state) :
  utxo_wf st -> change_ok st ch -> apply_change st ch h = Ok st' -> utxo_wf st'.
Proof.
  intros Hwf [Hok _] (es & bs & _ & _ & _ & _ & Hu & _)%apply_change_spec k v Hk.
  specialize (Hu k). destruct (created_lookup (sc_created ch) k) as [e|] eqn:E.
  - destruct Hu as (s & Hs & Hk'). rewrite Hk in Hk'. injection Hk' as <-.
    apply created_lookup_Some in E as [He Hid]. exists e. rewrite Forall_forall in Hok. auto.
  - rewrite Hu in Hk. case_decide; [done|]. by apply Hwf.
Qed.

(** ** Undoing one block *)

(** Two states with the same boxes and the same undo data up to height [h]. *)
Definition agree (h : Z) (st st' : state) : Prop :=
  (forall k, utxo st' k = utxo st k) /\
  forall h', 0 <= h' <= h ->
    st_get (us_storage st') CFUndoData (undo_key h') = st_get (us_storage st) CFUndoData (undo_key h').

Lemma undo_key_inj a b : in_u 32 a -> in_u 32 b -> undo_key a = undo_key b -> a = b.
Proof. intros Ha Hb. by apply be_bytes_inj. Qed.

(** The loop of [rollback_one_block] that deletes the created boxes. *)
Definition delete_loop (st : state) batch (ids : list bytes) : result WriteBatch StateError :=
  rfold (fun batch id =>
    let? found := get_box (ErgoBox := ErgoBox) st id in
    let batch := match found with
                 | Some e => index_box false st batch (be_box e) id
                 | None => batch
                 end in
    Ok (batch_delete batch Utxo id)) batch ids.

Lemma delete_loop_spec (st : state) ids batch0 :
  utxo_wf st ->
  exists batch, delete_loop st batch0 ids = Ok batch /\
    forall cf k, not_index cf -> batch_last batch cf k =
      if decide (cf = Utxo /\ k ∈ ids) then Some OpDelete else batch_last batch0 cf k.
Proof.
  intros Hwf. unfold delete_loop. revert batch0. induction ids as [|id ids IH]; intros batch0.
  - exists batch0. split; [done|]. intros cf k _. rewrite decide_False; [done|set_solver].
  - cbn [rfold]. rewrite get_box_wf by done.
    assert (exists found, match utxo st id with
      | Some v => Ok (match entry_deserialize (ErgoBox := ErgoBox) v with Ok e => Some e | Err _ => None end)
      | None => Ok None end = @Ok _ StateError found) as [found ->] by (destruct (utxo st id); eauto).
    cbn [rbind]. destruct (IH (batch_delete match found with
      | Some e => index_box false st batch0 (be_box e) id | None => batch0 end Utxo id))
      as (batch & Hb & Hl).
    exists batch. split; [done|]. intros cf k Hcf. rewrite Hl by done.
    unfold batch_delete. rewrite batch_last_app. cbn [batch_last op_cf op_key op_kind].
    destruct found; rewrite ?index_box_last by done; repeat case_decide; set_solver.
Qed.

(** Undoing the block that [apply_change] just applied. *)
Lemma rollback_one_restores (st : state) (ch : StateChange ErgoBox) h (st1 s1 : state) :
  utxo_wf st -> change_ok st ch -> in_u 32 h -> apply_change st ch h = Ok st1 ->
  undo_fits st1 h -> agree h st1 s1 ->
  exists s, rollback_one_block (ErgoBox := ErgoBox) s1 h = Ok s /\ agree (h - 1) st s /\
    forall k, undo s k = if decide (k = undo_key h) then None else undo s1 k.
Proof.
  intros Hwf Hch Hh Happ Hfit [Hu1 Hund1].
  pose proof (apply_change_wf _ _ _ _ Hwf Hch Happ) as Hwf1.
  apply apply_change_spec in Happ as (es & bs & Hes & Hbs & _ & _ & Hu & Hund).
  destruct (spent_entries st _ es Hwf Hes) as (Hids & Hesok & Hser).
  set (u := mkUndoData h es (box_id_bytes <$> sc_created ch)) in *.
  assert (st_get (us_storage st1) CFUndoData (undo_key h) = Some bs) as Hst1
    by (rewrite Hund; by rewrite decide_True).
  assert (undo_deserialize bs = Ok u) as Hde
    by (apply undo_roundtrip_aux; [by split|done|by apply Hfit]).
  assert (utxo_wf s1) as Hwfs by (intros k v; rewrite Hu1; apply Hwf1).
  unfold rollback_one_block. rewrite (Hund1 h) by (unfold in_u in Hh; lia). rewrite Hst1.
  cbn [ok_or rbind]. rewrite Hde. cbn [rbind].
  destruct (delete_loop_spec s1 (undo_created_box_ids u) [] Hwfs) as (b1 & Hb1 & Hl1).
  unfold delete_loop in Hb1. rewrite Hb1. cbn [rbind].
  destruct (put_loop_ok false s1 (undo_spent_boxes u) b1) as (b2 & Hb2).
  { intros e He. destruct (Hser e He) as (v & -> & _). done. }
  pose proof (put_loop_spec _ _ _ _ _ Hb2) as Hl2. unfold put_loop in Hb2.
  rewrite Hb2. cbn [rbind]. eexists. split; [done|].
  assert (forall k, st_get (st_write_batch (us_storage s1) (batch_delete b2 CFUndoData (undo_key h))) CFUndoData k =
    if decide (k = undo_key h) then None else undo s1 k) as Hdel.
  { intros k. rewrite st_get_write_batch, batch_last_delete. case_decide as Hk.
    - destruct Hk as [_ ->]. by rewrite decide_True.
    - rewrite (decide_False (P := k = undo_key h)) by naive_solver.
      specialize (Hl2 CFUndoData k ltac:(done)). rewrite decide_False in Hl2 by done.
      rewrite Hl2, Hl1 by done. by rewrite decide_False by naive_solver. }
  split; [|exact Hdel]. split.
  - intros k. cbn [us_storage]. rewrite st_get_write_batch, batch_last_delete.
    rewrite decide_False by naive_solver. specialize (Hl2 Utxo k ltac:(done)).
    rewrite decide_True in Hl2 by done. cbn [undo_spent_boxes u] in Hl2.
    destruct (created_lookup es k) as [e|] eqn:Ee.
    + destruct Hl2 as (s & Hs & ->). cbn [op_result].
      apply created_lookup_Some in Ee as [He <-]. destruct (Hser e He) as (v & Hv & ->). congruence.
    + rewrite Hl2, Hl1 by done. cbn [undo_created_box_ids u].
      apply created_lookup_None in Ee. rewrite Hids in Ee. case_decide as Hc.
      * cbn [op_result]. destruct Hc as [_ (e & -> & He)%list_elem_of_fmap]. symmetry. by apply Hch.
      * cbn [batch_last op_result]. rewrite Hu1. specialize (Hu k).
        destruct (created_lookup (sc_created ch) k) eqn:Ec; [|by rewrite Hu, decide_False].
        exfalso. apply Hc. split; [done|]. apply created_lookup_Some in Ec as [? <-].
        by apply list_elem_of_fmap_2.
  - intros h' Hh'. cbn [us_storage].
    assert (undo_key h' <> undo_key h) as Hne.
    { intros Heq%undo_key_inj; unfold in_u in *; lia. }
    rewrite Hdel, decide_False, Hund1, Hund by (done || lia). by rewrite decide_False.
Qed.

(** ** Chains of blocks *)

(** The state after applying blocks at consecutive heights. *)
Inductive applied (st0 : state) : nat -> state -> Prop :=
  | applied_nil : applied st0 0 st0
  | applied_snoc n st ch st' :
      applied st0 n st -> change_ok st ch ->
      apply_change st ch (us_height st + 1) = Ok st' ->
      in_u 32 (us_height st + 1) -> undo_fits st' (us_height st + 1) ->
      applied st0 (S n) st'.

Lemma applied_height st0 n st : applied st0 n st -> us_height st = us_height st0 + Z.of_nat n.
Proof.
  induction 1 as [|n st ch st' _ IH _ Happ _ _]; [lia|].
  apply apply_change_spec in Happ as (es & bs & _ & _ & -> & _). lia.
Qed.

Lemma applied_wf st0 n st : utxo_wf st0 -> applied st0 n st -> utxo_wf st.
Proof. induction 2; [done|]. by eapply apply_change_wf. Qed.

Lemma rollback_heights_S to n :
  rollback_heights to (S n) = (to + Z.of_nat (S n)) :: rollback_heights to n.
Proof.
  unfold rollback_heights. rewrite seq_S, rev_app_distr. cbn [rev app fmap list_fmap].
  done.
Qed.

(** The undo records of the blocks above a height. *)
Definition undo_keys (to : Z) (n : nat) : list bytes := undo_key <$> rollback_heights to n.

Lemma rollback_blocks_restore st0 n st s :
  utxo_wf st0 -> 0 <= us_height st0 -> applied st0 n st -> agree (us_height st) st s ->
  exists s', rollback_blocks (ErgoBox := ErgoBox) s (rollback_heights (us_height st0) n) = (Ok tt, s')
    /\ (forall k, utxo s' k = utxo st0 k) /\
    forall k, undo s' k = if decide (k ∈ undo_keys (us_height st0) n) then None else undo s k.
Proof.
  intros Hwf Hpos Happ. revert s. induction Happ as [|n st ch st' Hn IH Hch Ha Hr Hfit]; intros s Hag.
  - exists s. split; [done|]. split; [apply Hag|]. intros k. by rewrite decide_False by apply not_elem_of_nil.
  - pose proof (applied_height _ _ _ Hn) as Hh.
    assert (us_height st' = us_height st + 1) as Hh'
      by (apply apply_change_spec in Ha as (? & ? & _ & _ & -> & _); done).
    rewrite Hh' in Hag.
    destruct (rollback_one_restores st ch (us_height st + 1) st' s) as (s1 & Hr1 & Hag1 & Hdel);
      try done; [by eapply applied_wf|].
    rewrite rollback_heights_S. cbn [rollback_blocks].
    replace (us_height st0 + Z.of_nat (S n)) with (us_height st + 1) by lia. rewrite Hr1.
    destruct (IH s1) as (s' & Hs' & Hu & Hd); [by replace (us_height st) with (us_height st + 1 - 1) by lia|].
    exists s'. split; [done|]. split; [done|]. intros k. rewrite Hd, Hdel. unfold undo_keys.
    rewrite rollback_heights_S. cbn [fmap list_fmap]. replace (us_height st0 + Z.of_nat (S n)) with (us_height st + 1) by lia.
    repeat case_decide; set_solver.
Qed.

Lemma applied_undo st0 n st k :
  applied st0 n st -> k ∉ undo_keys (us_height st0) n -> undo st k = undo st0 k.
Proof.
  induction 1 as [|n st ch st' Hn IH _ Ha _ _]; [done|]. pose proof (applied_height _ _ _ Hn) as Hh.
  unfold undo_keys in *. rewrite rollback_heights_S. cbn [fmap list_fmap]. rewrite not_elem_of_cons. intros [Hk Hk'].
  apply apply_change_spec in Ha as (es & bs & _ & _ & _ & _ & _ & Hund).
  rewrite Hund, decide_False; [by apply IH|]. by replace (us_height st + 1) with (us_height st0 + Z.of_nat (S n)) by lia.
Qed.

(** ** Index entries after a change without spent boxes *)

Lemma batch_last_add_to_index (st : state) batch cf key id :
  id ∉ get_index_entries st cf key ->
  batch_last (add_to_index st batch cf key id) cf key =
  Some (OpPut (serialize_box_id_list (get_index_entries st cf key ++ [id]))).
Proof.
  intros Hn. unfold add_to_index, batch_put. rewrite decide_False by done.
  rewrite batch_last_app. cbn [batch_last op_cf op_key op_kind]. by rewrite decide_True.
Qed.

(** The script index after the last of a run of created boxes with the same
    script and no tokens: only what was stored before plus that last box. *)
Lemma put_loop_script_index (st : state) es e batch0 batch key :
  put_loop false st batch0 (es ++ [e]) = Ok batch ->
  hash_ergotree (be_box e) = key -> box_tokens (be_box e) = [] ->
  box_id_bytes e ∉ get_index_entries st ErgoTreeIndex key ->
  batch_last batch ErgoTreeIndex key =
  Some (OpPut (serialize_box_id_list (get_index_entries st ErgoTreeIndex key ++ [box_id_bytes e]))).
Proof.
  intros Hput <- Ht Hn. unfold put_loop in Hput. rewrite rfold_app in Hput.
  apply rbind_ok in Hput as (b & _ & Hput). cbn [rfold] in Hput.
  apply rbind_ok in Hput as (b' & (s & _ & Hb')%rbind_ok & Hb). apply Ok_inj in Hb as <-.
  apply Ok_inj in Hb' as <-. unfold batch_put. rewrite batch_last_app. cbn [batch_last op_cf op_key].
  rewrite decide_False by naive_solver. unfold index_box. rewrite Ht. cbn [fold_left].
  by apply batch_last_add_to_index.
Qed.

(** ** Properties *)

(** undo data read back from its stored bytes is the undo data that was
    written, so a rollback works on exactly the boxes the block spent. *)
Theorem undo_data_roundtrip (u : UndoData ErgoBox) bs :
  undo_ok u -> undo_serialize u = Ok bs -> Z.of_nat (length bs) < 2 ^ 32 ->
  undo_deserialize bs = Ok u.
Proof. apply undo_roundtrip_aux. Qed.

(** C16: a successful [apply_change] found every spent box, and afterwards the
    box set is the old one without the spent boxes and with the created ones;
    a change that spends an absent box is refused. *)
Theorem apply_change_boxes (st : state) (ch : StateChange ErgoBox) h :
  utxo_wf st -> Forall entry_ok (sc_created ch) ->
  match apply_change st ch h with
  | Ok st' =>
      us_height st' = h /\
      (forall id, id ∈ sc_spent ch -> is_Some (utxo st id)) /\
      (forall k, get_box st' k =
        match created_lookup (sc_created ch) k with
        | Some e => Ok (Some e)
        | None => if decide (k ∈ sc_spent ch) then Ok None else get_box st k
        end)
  | Err _ =>
      (exists id, id ∈ sc_spent ch /\ utxo st id = None) \/
      (exists e, e ∈ sc_created ch /\ is_ok (entry_serialize e) = false) \/
      (exists es, (box_id_bytes <$> es) = sc_spent ch /\
         is_ok (undo_serialize (mkUndoData h es (box_id_bytes <$> sc_created ch))) = false)
  end.
Proof.
  intros Hwf Hok. destruct (apply_change st ch h) as [st'|err] eqn:Happ.
  - apply apply_change_spec in Happ as (es & bs & Hes & _ & Hh & _ & Hu & _).
    split; [done|]. split.
    + intros id Hid. destruct (Forall2_elem_l _ _ _ _ Hes Hid) as (e & _ & Hg).
      apply (get_box_Some st id e Hwf) in Hg as (-> & Hs & _). destruct (entry_serialize e); eauto; done.
    + intros k. specialize (Hu k). destruct (created_lookup (sc_created ch) k) as [e|] eqn:E.
      * destruct Hu as (s & Hs & Hk). apply created_lookup_Some in E as [He _].
        rewrite Forall_forall in Hok. unfold get_box. rewrite Hk.
        by rewrite (entry_roundtrip e s (Hok e He) Hs).
      * unfold get_box at 1. rewrite Hu. by case_decide.
  - rewrite apply_change_eq in Happ.
    destruct (decide (Exists (fun id => utxo st id = None) (sc_spent ch))) as [Hex|Hall].
    { left. apply Exists_exists in Hex. naive_solver. }
    right. rewrite <- Forall_Exists_neg in Hall. rewrite Forall_forall in Hall.
    destruct (spend_loop (look_stored st) st ([], []) (sc_spent ch)) as [[b es]|e0] eqn:Hsp.
    + apply spend_loop_spec in Hsp as (es' & -> & Hes & _). cbn [app rbind] in Happ.
      destruct (put_loop (us_sync_mode st) st b (sc_created ch)) as [b2|e2] eqn:Hput.
      * right. exists es'. cbn [rbind] in Happ. unfold finish_change in Happ.
        assert (Forall2 (fun id e => get_box st id = Ok (Some e)) (sc_spent ch) es') as Hes'.
        { eapply Forall2_impl; [exact Hes|]. unfold look_stored.
          intros id e ([e'|] & Hg & Hx)%rbind_ok; [|done]. injection Hx as <-. done. }
        split; [by apply (spent_entries st)|].
        by destruct (undo_serialize _).
      * left. destruct (decide (Forall (fun e => is_ok (entry_serialize e) = true) (sc_created ch)))
          as [Hf|Hf].
        -- rewrite Forall_forall in Hf.
           destruct (put_loop_ok (us_sync_mode st) st (sc_created ch) b) as (b2 & Hb2); [done|congruence].
        -- apply not_Forall_Exists in Hf; [|apply _]. apply Exists_exists in Hf as (e & He & Hn).
           exists e. split; [done|]. by apply not_true_is_false.
    + exfalso. revert Hsp. generalize (@nil BatchOperation, @nil entry). unfold spend_loop.
      induction (sc_spent ch) as [|id ids IH]; intros [b0 s0]; [done|]. cbn [rfold].
      unfold look_stored at 1. rewrite get_box_wf by done.
      destruct (utxo st id) as [v|] eqn:Ev; [|by apply Hall in Ev; [|set_solver]].
      destruct (Hwf id v Ev) as (e & Hs & _ & He). rewrite (entry_roundtrip e v He Hs).
      cbn [rbind ok_or]. apply IH. intros x Hx. apply Hall. set_solver.
Qed.

(** C5: rolling back a chain of applied blocks restores the box set from
    before the first of them, the height in memory and in the store, and the
    undo records: those of the blocks rolled back are gone and all others are as
    they were. *)
Theorem rollback_restores st0 n st :
  utxo_wf st0 -> 0 <= us_height st0 -> applied st0 n st -> (0 < n)%nat ->
  exists st', rollback (ErgoBox := ErgoBox) st (us_height st0) = (Ok tt, st') /\
    us_height st' = us_height st0 /\
    st_get (us_storage st') Metadata height_key = Some (be_bytes 4 (us_height st0)) /\
    (forall k, utxo st' k = utxo st0 k) /\
    (forall k, get_box (ErgoBox := ErgoBox) st' k = get_box st0 k) /\
    (forall h, us_height st0 < h <= us_height st -> undo st' (undo_key h) = None) /\
    (forall k, (forall h, us_height st0 < h <= us_height st -> k <> undo_key h) -> undo st' k = undo st0 k).
Proof.
  intros Hwf Hpos Happ Hn. pose proof (applied_height _ _ _ Happ) as Hh.
  destruct (rollback_blocks_restore st0 n st st Hwf Hpos Happ) as (s' & Hr & Hu & Hd); [done|].
  unfold rollback. destruct (Z.geb_spec (us_height st0) (us_height st)); [lia|].
  replace (Z.to_nat (us_height st - us_height st0)) with n by lia. rewrite Hr.
  eexists. split; [done|]. split; [done|]. split.
  { cbn [us_storage]. rewrite st_get_write_batch. unfold batch_put.
    cbn [app batch_last op_cf op_key op_kind]. by rewrite decide_True. }
  assert (forall k, undo (mkUtxoState (st_write_batch (us_storage s')
    (batch_put [] Metadata height_key (be_bytes 4 (us_height st0)))) (us_state_root s')
    (us_height st0) (us_sync_mode s')) k = undo s' k) as Hund.
  { intros k. cbn [us_storage]. rewrite st_get_write_batch. unfold batch_put.
    cbn [app batch_last op_cf op_key]. by rewrite decide_False by naive_solver. }
  assert (forall k, utxo (mkUtxoState (st_write_batch (us_storage s')
    (batch_put [] Metadata height_key (be_bytes 4 (us_height st0)))) (us_state_root s')
    (us_height st0) (us_sync_mode s')) k = utxo st0 k) as Hu'.
  { intros k. cbn [us_storage]. rewrite st_get_write_batch. unfold batch_put.
    cbn [app batch_last op_cf op_key]. rewrite decide_False by naive_solver. apply Hu. }
  split; [done|]. split; [intros k; unfold get_box; by rewrite Hu'|].
  assert (forall k, k ∈ undo_keys (us_height st0) n <-> exists h, k = undo_key h /\ us_height st0 < h <= us_height st) as Hin.
  { intros k. unfold undo_keys, rollback_heights. rewrite list_elem_of_fmap. split.
    - intros (h & -> & (i & -> & Hi)%list_elem_of_fmap). exists (us_height st0 + Z.of_nat i). split; [done|].
      apply list_elem_of_In, in_rev, in_seq in Hi. lia.
    - intros (h & -> & Hr'). exists h. split; [done|]. apply list_elem_of_fmap. exists (Z.to_nat (h - us_height st0)).
      split; [lia|]. apply list_elem_of_In. rewrite <- in_rev. apply in_seq. lia. }
  split.
  - intros h Hr'. rewrite Hund, Hd, decide_True; [done|]. apply Hin. eauto.
  - intros k Hk. assert (k ∉ undo_keys (us_height st0) n) as Hk' by (intros (h & -> & ?)%Hin; by apply (Hk h)).
    rewrite Hund, Hd, decide_False by done. by eapply applied_undo.
Qed.

(** a box that one block both creates and spends is still in the box set
    after the batch of that block is written: the batch deletes it first and
    then writes it. *)
Theorem intra_block_spent_box_survives (st : state) batch0 (ch : StateChange ErgoBox) h ctx batch e :
  add_change_to_batch_with_context st batch0 ch h ctx = Ok batch ->
  e ∈ sc_created ch -> box_id_bytes e ∈ sc_spent ch ->
  is_Some (st_get (st_write_batch (us_storage st) batch) Utxo (box_id_bytes e)).
Proof.
  unfold add_change_to_batch_with_context.
  intros ([b spent] & _ & (b2 & Hput & Hfin)%rbind_ok)%rbind_ok He _.
  apply finish_change_spec in Hfin as (bs & _ & Hl).
  pose proof (put_loop_spec _ _ _ _ _ Hput Utxo (box_id_bytes e) ltac:(done)) as Hl2.
  rewrite decide_True in Hl2 by done.
  destruct (created_lookup (sc_created ch) (box_id_bytes e)) as [e'|] eqn:E.
  - destruct Hl2 as (s & _ & Hl2). rewrite st_get_write_batch, Hl.
    repeat (rewrite decide_False by naive_solver). rewrite Hl2. eauto.
  - apply created_lookup_None in E. exfalso. apply E. by apply list_elem_of_fmap_2.
Qed.

(** outside sync mode, when a block creates two boxes with the same script
    the script index keeps only the later one: the first is lost although it
    is in the box set. *)
Theorem script_index_loses_box (st st' : state) e1 e2 h :
  us_sync_mode st = false -> apply_change st (mkStateChange [e1; e2] []) h = Ok st' ->
  hash_ergotree (be_box e1) = hash_ergotree (be_box e2) ->
  box_tokens (be_box e1) = [] -> box_tokens (be_box e2) = [] ->
  box_id_bytes e1 <> box_id_bytes e2 ->
  get_index_entries st ErgoTreeIndex (hash_ergotree (be_box e1)) = [] ->
  get_index_entries st' ErgoTreeIndex (hash_ergotree (be_box e1)) = [box_id_bytes e2] /\
  is_Some (utxo st' (box_id_bytes e1)).
Proof.
  intros Hsync Happ Hhash Ht1 Ht2 Hne Hempty. pose proof Happ as Happ'. split.
  - rewrite apply_change_eq in Happ. cbn [sc_spent sc_created] in Happ.
    apply rbind_ok in Happ as ([b s] & Hsp & Happ). unfold spend_loop in Hsp. cbn [rfold] in Hsp.
    injection Hsp as <- <-. apply rbind_ok in Happ as (b2 & Hput & Happ).
    rewrite Hsync in Hput. apply rbind_ok in Happ as (b3 & Hfin & <-%Ok_inj).
    apply finish_change_spec in Hfin as (bs & _ & Hl).
    pose proof (put_loop_script_index st [e1] e2 _ _ _ Hput (eq_sym Hhash) Ht2) as Hi.
    rewrite Hempty in Hi. specialize (Hi ltac:(set_solver)).
    unfold get_index_entries. cbn [us_storage]. rewrite st_get_write_batch, Hl.
    repeat (rewrite decide_False by naive_solver). rewrite Hi. cbn [op_result app].
    apply box_id_list_roundtrip_aux; [|cbn; lia]. constructor; [|constructor]. apply box_id_length.
  - apply apply_change_spec in Happ' as (es & bs & _ & _ & _ & _ & Hu & _).
    specialize (Hu (box_id_bytes e1)). cbn [sc_created created_lookup] in Hu.
    rewrite decide_False, decide_True in Hu by done. destruct Hu as (s & _ & ->). eauto.
Qed.

(** ** The authenticated state

    What the documentation of the prover says: its tree maps keys to values, a
    removal succeeds on a key that is there, an insertion on one that is not. *)
Section Prover.
Context {P : Type} `{AvlProver P}.

Class AvlProverLaws := {
  avl_tree : P -> gmap bytes bytes;
  avl_remove_tree p k p' : avl_perform_one_operation p (AvlRemove k) = Ok p' ->
    is_Some (avl_tree p !! k) /\ avl_tree p' = delete k (avl_tree p);
  avl_insert_tree p k v p' : avl_perform_one_operation p (AvlInsert k v) = Ok p' ->
    avl_tree p !! k = None /\ avl_tree p' = <[k := v]> (avl_tree p);
  avl_proof_tree p : avl_tree (avl_generate_proof p).2 = avl_tree p
}.
Context `{!AvlProverLaws}.

(** The tree holds the boxes of the state, without their metadata. *)
Definition tree_agrees (p : P) (st : state) : Prop :=
  forall k, avl_tree p !! k = drop 38 <$> utxo st k.

Lemma perform_app ops1 ops2 p p' :
  perform_operations (ops1 ++ ops2) p = (Ok tt, p') ->
  exists p1, perform_operations ops1 p = (Ok tt, p1) /\ perform_operations ops2 p1 = (Ok tt, p').
Proof.
  revert p. induction ops1 as [|op ops1 IH]; intros p; cbn [app perform_operations]; [by exists p|].
  destruct (avl_perform_one_operation p op); [apply IH|done].
Qed.

Lemma perform_removes ids p p' :
  perform_operations (AvlRemove <$> ids) p = (Ok tt, p') ->
  forall k, avl_tree p' !! k = if decide (k ∈ ids) then None else avl_tree p !! k.
Proof.
  revert p. induction ids as [|id ids IH]; intros p; cbn [fmap list_fmap perform_operations].
  { intros [= ->] k. by rewrite decide_False by (apply not_elem_of_nil). }
  destruct (avl_perform_one_operation p _) as [p1|] eqn:Hp; [|done]. intros Hr k.
  apply avl_remove_tree in Hp as [_ Ht]. rewrite (IH _ Hr), Ht.
  destruct (decide (k = id)) as [->|Hne].
  - rewrite lookup_delete_eq, (decide_True (P := id ∈ id :: ids)) by set_solver. by case_decide.
  - rewrite lookup_delete_ne by done. repeat case_decide; set_solver.
Qed.

Lemma perform_inserts (es : list entry) inserts p p' :
  rmap (fun e => let? value := serialize_box_only e in Ok (AvlInsert (box_id_bytes e) value)) es = Ok inserts ->
  perform_operations inserts p = (Ok tt, p') ->
  forall k, avl_tree p' !! k =
    match created_lookup es k with Some e => box_serialize (be_box e) | None => avl_tree p !! k end.
Proof.
  revert inserts p. induction es as [|e es IH]; intros inserts p; cbn [rmap created_lookup].
  { intros [= <-] [= ->]. done. }
  intros (op & (v & Hv & [= <-])%rbind_ok & (rest & Hrest & [= <-])%rbind_ok)%rbind_ok.
  cbn [perform_operations]. destruct (avl_perform_one_operation p _) as [p1|] eqn:Hp; [|done]. intros Hr k.
  apply avl_insert_tree in Hp as [_ Ht]. rewrite (IH _ _ Hrest Hr). destruct (created_lookup es k); [done|].
  rewrite Ht. unfold serialize_box_only in Hv. destruct (box_serialize (be_box e)) as [bs|] eqn:Hb; [|done].
  injection Hv as <-. case_decide as Hk; subst; by simplify_map_eq.
Qed.

(** C17: A change applied with its proof keeps the prover's tree equal to the box
    set and leaves the prover's digest as the state root; a change that fails
    leaves the state as it was. *)
Theorem proof_tree_follows_state (st : state) (ch : StateChange ErgoBox) h (p : P) :
  Forall entry_ok (sc_created ch) -> tree_agrees p st ->
  match apply_change_with_proof st ch h p with
  | (Ok _, st', p') => tree_agrees p' st' /\ avl_digest p' = Some (us_state_root st') /\ us_height st' = h
  | (Err _, st', _) => st' = st
  end.
Proof.
  intros Hok Ha. unfold apply_change_with_proof, to_avl_operations.
  destruct (rmap _ (sc_created ch)) as [inserts|e] eqn:Hi; cbn [rbind]; [|done].
  destruct (perform_operations _ p) as [[[]|e] p1] eqn:Hp; [|done].
  destruct (avl_generate_proof p1) as [proof p2] eqn:Hg. destruct (avl_digest p2) as [root|] eqn:Hd; [|done].
  destruct (apply_change st ch h) as [st1|e] eqn:Happ; [|done]. split; [|by split; [|apply apply_change_spec in Happ as (? & ? & _ & _ & ? & _)]].
  apply perform_app in Hp as (p0 & Hr & Hins).
  assert (avl_tree p2 = avl_tree p1) as Htree by (pose proof (avl_proof_tree p1) as Hx; by rewrite Hg in Hx).
  apply apply_change_spec in Happ as (_ & _ & _ & _ & _ & _ & Hu & _).
  intros k. rewrite Htree, (perform_inserts _ _ _ _ Hi Hins), (perform_removes _ _ _ Hr). cbn [us_storage].
  assert (st_get (st_write_batch (us_storage st1) (batch_put [] Metadata (str_bytes "state_root") root)) Utxo k =
    utxo st1 k) as ->.
  { rewrite st_get_write_batch, batch_last_put, decide_False by naive_solver. done. }
  specialize (Hu k). destruct (created_lookup (sc_created ch) k) as [e|] eqn:Hl.
  - destruct Hu as (s & Hs & ->). apply created_lookup_Some in Hl as [He _]. rewrite Forall_forall in Hok.
    destruct (Hok e He) as (_ & Htx & _). apply entry_serialize_inv in Hs as (bs & -> & ->). cbn [fmap option_fmap option_map].
    f_equal. rewrite !app_assoc. symmetry. apply drop_app_length'. by rewrite !length_app, !be_bytes_length, Htx.
  - rewrite Hu. case_decide; [done|]. apply Ha.
Qed.
End Prover.

End Spec.

(** ** A concrete chain *)
Module Example.
Import Toy Mem.

Definition box (i : Z) : toy_box := mk_toy_box i 5 77 None.
Definition ent (i h : Z) : BoxEntry toy_box := mkBoxEntry (box i) h (replicate 32 3) 0.

Definition st0 : UtxoState Mem.t :=
  from_ok (utxo_new Mem.empty)
    (apply_change (utxo_new Mem.empty) (mkStateChange [ent 1 1] []) 1).

(** Spends box 1, creates boxes 2 and 3 with the same script. *)
Definition change1 : StateChange toy_box := mkStateChange [ent 2 2; ent 3 2] [box_id (box 1)].
Definition st1 : UtxoState Mem.t :=
  from_ok st0 (apply_change st0 change1 2).

Lemma st1_apply : apply_change st0 change1 2 = Ok st1.
Proof. apply from_ok_spec. vm_compute. reflexivity. Qed.

Lemma st0_apply : apply_change (utxo_new Mem.empty) (mkStateChange [ent 1 1] []) 1 = Ok st0.
Proof. apply from_ok_spec. vm_compute. reflexivity. Qed.

Lemma st0_utxo k v :
  st_get (us_storage st0) Utxo k = Some v ->
  k = box_id (box 1) /\ entry_serialize (ent 1 1) = Ok v.
Proof.
  pose proof st0_apply as Ha. apply apply_change_spec in Ha as (es & bs & _ & _ & _ & _ & Hu & _).
  specialize (Hu k). cbn [sc_created sc_spent created_lookup] in Hu. intros Hv.
  assert (st_get (us_storage (utxo_new Mem.empty)) Utxo k = None) as Hnone by apply lookup_empty.
  case_decide as Hk.
  - destruct Hu as (s & Hs & Hs'). rewrite Hs' in Hv. split; [done|congruence].
  - rewrite Hu, Hnone in Hv. by case_decide.
Qed.

Lemma ent_ok i h : in_u 32 h -> entry_ok (ent i h).
Proof. intros Hh. split; [done|]. split; [done|]. unfold in_u. cbn [ent be_output_index]. lia. Qed.

Lemma st0_wf : utxo_wf (ErgoBox := toy_box) st0.
Proof.
  intros k v [-> Hv]%st0_utxo. exists (ent 1 1). split; [done|]. split; [done|].
  apply ent_ok. unfold in_u. lia.
Qed.

Lemma change1_created : Forall entry_ok (sc_created change1).
Proof. repeat constructor; apply ent_ok; unfold in_u; lia. Qed.

Lemma change1_ok : change_ok st0 change1.
Proof.
  split; [apply change1_created|].
  intros e He. unfold change1 in He. cbn [sc_created] in He.
  repeat (apply elem_of_cons in He as [->|He]; [vm_compute; reflexivity|]).
  by apply not_elem_of_nil in He.
Qed.

Lemma st1_applied : applied (ErgoBox := toy_box) st0 1 st1.
Proof.
  apply (applied_snoc st0 0 st0 change1); [constructor|apply change1_ok| | |].
  - exact st1_apply.
  - unfold in_u. vm_compute. split; congruence.
  - intros bs Hbs. vm_compute in Hbs. injection Hbs as <-. vm_compute. reflexivity.
Qed.

(** A prover that is its tree. *)
#[export] Instance toy_prover : AvlProver (gmap bytes bytes) := {
  avl_perform_one_operation p op :=
    match op with
    | AvlRemove k => if decide (is_Some (p !! k)) then Ok (delete k p) else Err "missing key"%string
    | AvlInsert k v => if decide (is_Some (p !! k)) then Err "key exists"%string else Ok (<[k := v]> p)
    end;
  avl_generate_proof p := ([9], p);
  avl_digest p := Some (be_bytes 4 (Z.of_nat (size p)));
  avl_removed_labels p := ([], p)
}.

#[export] Instance toy_prover_laws : AvlProverLaws (P := gmap bytes bytes).
Proof.
  refine {| avl_tree p := p |}; cbn.
  - intros p k p'. case_decide; [|done]. by intros [= <-].
  - intros p k v p'. case_decide as Hk; [done|]. intros [= <-]. split; [|done]. by apply eq_None_not_Some.
  - done.
Defined.

Definition tree0 : gmap bytes bytes := drop 38 <$> (<[box_id (box 1) := from_ok [] (entry_serialize (ent 1 1))]> ∅).

Lemma tree0_agrees : tree_agrees tree0 st0.
Proof.
  intros k. change (avl_tree tree0) with tree0. unfold tree0. rewrite lookup_fmap. f_equal. destruct (st_get (us_storage st0) Utxo k) as [v|] eqn:Hv.
  - apply st0_utxo in Hv as [-> Hv]. rewrite lookup_insert_eq. by rewrite Hv.
  - destruct (decide (k = box_id (box 1))) as [->|Hk].
    + exfalso. revert Hv. vm_compute. discriminate.
    + by rewrite lookup_insert_ne.
Qed.

Lemma proof_tree_follows_state_witness :
  exists st p, apply_change_with_proof st0 change1 2 tree0 = (Ok [9], st, p) /\
    tree_agrees p st /\ us_state_root st = [0; 0; 0; 2].
Proof.
  assert ((apply_change_with_proof st0 change1 2 tree0).1.1 = Ok [9]) as Hr by (vm_compute; reflexivity).
  assert (us_state_root (apply_change_with_proof st0 change1 2 tree0).1.2 = [0; 0; 0; 2]) as Hroot
    by (vm_compute; reflexivity).
  pose proof (proof_tree_follows_state st0 change1 2 tree0 change1_created tree0_agrees) as H.
  destruct (apply_change_with_proof st0 change1 2 tree0) as [[r st] p]. cbn [fst snd] in Hr, Hroot. subst r.
  exists st, p. split; [reflexivity|]. split; [exact (proj1 H)|exact Hroot].
Defined.

Definition undo1 : UndoData toy_box := mkUndoData 2 [ent 1 1] [box_id (box 2); box_id (box 3)].

Lemma undo_data_roundtrip_witness :
  exists bs, undo_serialize undo1 = Ok bs /\ undo_deserialize bs = Ok undo1.
Proof.
  eexists. split; [vm_compute; reflexivity|].
  apply (undo_data_roundtrip undo1); [|vm_compute; reflexivity|vm_compute; reflexivity].
  split; [unfold in_u; cbn; lia|]. repeat constructor; cbn; unfold in_u; lia.
Defined.

Lemma apply_change_boxes_witness :
  get_box st1 (box_id (box 1)) = @Ok (option (BoxEntry toy_box)) StateError None.
Proof.
  pose proof (apply_change_boxes st0 change1 2 st0_wf change1_created) as Hb.
  rewrite st1_apply in Hb. rewrite (proj2 (proj2 Hb)). vm_compute. reflexivity.
Defined.

Lemma rollback_restores_witness :
  exists st', rollback (ErgoBox := toy_box) st1 1 = (Ok tt, st') /\
    us_height st' = 1 /\ st_get (us_storage st') Utxo (box_id (box 2)) = None.
Proof.
  destruct (rollback_restores st0 1 st1 st0_wf ltac:(vm_compute; congruence) st1_applied
    ltac:(lia)) as (st' & Hr & Hh & _ & Hu & _).
  exists st'. split; [exact Hr|]. split; [exact Hh|]. rewrite Hu. vm_compute. reflexivity.
Defined.

(** A block that creates box 9 and spends it. *)
Definition change2 : StateChange toy_box := mkStateChange [ent 9 2] [box_id (box 9)].

Lemma intra_block_spent_box_survives_witness :
  exists batch, add_change_to_batch_with_context st0 [] change2 2 ∅ = Ok batch /\
    is_Some (st_get (st_write_batch (us_storage st0) batch) Utxo (box_id (box 9))).
Proof.
  eexists. split; [vm_compute; reflexivity|].
  apply (intra_block_spent_box_survives st0 [] change2 2 ∅ _ (ent 9 2)).
  - vm_compute. reflexivity.
  - cbn. constructor.
  - cbn. constructor.
Defined.

Definition st2 : UtxoState Mem.t :=
  from_ok (utxo_new Mem.empty)
    (apply_change (utxo_new Mem.empty) (mkStateChange [ent 2 1; ent 3 1] []) 1).

Lemma script_index_loses_box_witness :
  get_index_entries st2 ErgoTreeIndex (hash_ergotree (box 2)) = [box_id (box 3)].
Proof.
  refine (proj1 (script_index_loses_box (utxo_new Mem.empty) st2 (ent 2 1) (ent 3 1) 1 _ _ _ _ _ _ _)).
  2: { apply from_ok_spec. vm_compute. reflexivity. }
  5: { vm_compute. congruence. }
  all: vm_compute; reflexivity.
Defined.

End Example.
