(* ===== verification/Emission.v ===== *)
(** * Coin emission and re-emission (crates/ergo-consensus/src/reemission)

    [settings.rs] and [rules.rs]: the emission schedule, the EIP-27 charge and
    the closed form of the issued coins, with [u64] arithmetic; and the facts
    that make them correct: bounds, monotonicity, conservation between miner
    and re-emission contract, and the closed form against the sum. *)

From S2P Require Export Prelude.

Local Open Scope Z_scope.

(** ** Settings *)

Record ReemissionSettings := mkReemissionSettings {
  check_reemission_rules : bool;
  emission_nft_id : bytes;
  reemission_token_id : bytes;
  reemission_nft_id : bytes;
  activation_height : Z;
  reemission_start_height : Z;
  injection_box_bytes : option bytes
}.

(** A 32-byte identifier written as one big-endian number. *)
Definition hex_to_bytes32 (z : Z) : bytes := be_bytes 32 z.

Definition mainnet : ReemissionSettings :=
  mkReemissionSettings true
    (hex_to_bytes32 0x20fa2bf23962cdf51b07722d6237c0c7b8a44f78856c0f7ec308dc1ef1a92a51)
    (hex_to_bytes32 0xd9a2cc8a09abfaed87afacfbb7daee79a6b26f10c6613fc13d3f3953e5521d1a)
    (hex_to_bytes32 0xd6b2a40fbf32a30a5d5ee44c0c9e9cafc8ce9d42e7e1c21e2b2a0b20b80da9c3)
    777217 2080800 None.

Definition testnet : ReemissionSettings :=
  mkReemissionSettings true (replicate 32 0) (replicate 32 0) (replicate 32 0) 188001 2080800 None.

Definition disabled : ReemissionSettings :=
  mkReemissionSettings false (replicate 32 0) (replicate 32 0) (replicate 32 0)
    (2 ^ 32 - 1) (2 ^ 32 - 1) None.

Definition is_active (s : ReemissionSettings) (height : Z) : bool :=
  check_reemission_rules s && (height >=? activation_height s).

Definition can_claim_reemission (s : ReemissionSettings) (height : Z) : bool :=
  check_reemission_rules s && (height >=? reemission_start_height s).

(** ** Rules *)

Definition COINS_IN_ONE_ERG : Z := 1000000000.
Definition INITIAL_REWARD : Z := 75 * COINS_IN_ONE_ERG.
Definition REWARD_REDUCTION : Z := 3 * COINS_IN_ONE_ERG.
Definition REDUCTION_PERIOD : Z := 64800.
Definition FIXED_RATE_PERIOD : Z := 525600.
Definition MIN_REWARD : Z := 3 * COINS_IN_ONE_ERG.
Definition TOTAL_SUPPLY : Z := 97739924 * COINS_IN_ONE_ERG.

Record ReemissionRules := mkReemissionRules {
  settings : ReemissionSettings;
  basic_charge_amount : Z;
  reemission_reward_per_block : Z
}.

Definition ReemissionRules_new (s : ReemissionSettings) : ReemissionRules :=
  mkReemissionRules s (12 * COINS_IN_ONE_ERG) (3 * COINS_IN_ONE_ERG).

Definition emission_at_height (height : Z) : Z :=
  if height =? 0 then 0
  else if height <=? FIXED_RATE_PERIOD then INITIAL_REWARD
  else
    let blocks_after_fixed := height - FIXED_RATE_PERIOD in
    let reduction_epochs := blocks_after_fixed / REDUCTION_PERIOD in
    let reduction := u64 (reduction_epochs * REWARD_REDUCTION) in
    if reduction >=? INITIAL_REWARD - MIN_REWARD then MIN_REWARD
    else INITIAL_REWARD - reduction.

Definition reemission_for_height (r : ReemissionRules) (height : Z) : Z :=
  let emission := emission_at_height height in
  let threshold := u64 (basic_charge_amount r + MIN_REWARD) in
  if (height >=? activation_height (settings r)) && (emission >=? threshold) then
    basic_charge_amount r
  else if (height >=? activation_height (settings r)) && (emission >? MIN_REWARD) then
    emission - MIN_REWARD
  else 0.

Definition miner_reward_at_height (r : ReemissionRules) (height : Z) : Z :=
  let emission := emission_at_height height in
  let reemission := reemission_for_height r height in
  sat_sub emission reemission.

Definition claimable_reemission_at_height (r : ReemissionRules) (height : Z) : Z :=
  if height >=? reemission_start_height (settings r) then reemission_reward_per_block r else 0.

Definition total_miner_income_at_height (r : ReemissionRules) (height : Z) : Z :=
  u64 (miner_reward_at_height r height + claimable_reemission_at_height r height).

(** The part of [issued_coins_after_height] past the fixed-rate period. *)
Definition issued_decreasing (height : Z) : Z :=
  let fixed_period_total := u64 (FIXED_RATE_PERIOD * INITIAL_REWARD) in
  let blocks_after_fixed := height - FIXED_RATE_PERIOD in
  let max_reduction_epochs := (INITIAL_REWARD - MIN_REWARD) / REWARD_REDUCTION in
  let full_epochs := Z.min (blocks_after_fixed / REDUCTION_PERIOD) max_reduction_epochs in
  let blocks_in_full_epochs := u64 (full_epochs * REDUCTION_PERIOD) in
  let remaining_before_min :=
    if full_epochs <? max_reduction_epochs then
      Z.min (u64 (blocks_after_fixed - blocks_in_full_epochs)) REDUCTION_PERIOD
    else 0 in
  let blocks_at_minimum :=
    sat_sub blocks_after_fixed
      (u64 (u64 (max_reduction_epochs * REDUCTION_PERIOD) + remaining_before_min)) in
  let full_epochs_total :=
    if full_epochs >? 0 then
      let n := full_epochs in
      u64 (REDUCTION_PERIOD
        * u64 (u64 (n * INITIAL_REWARD)
               - u64 (u64 (REWARD_REDUCTION * n) * u64 (n - 1)) / 2))
    else 0 in
  let partial_epoch_reward := u64 (INITIAL_REWARD - u64 (full_epochs * REWARD_REDUCTION)) in
  let partial_epoch_total := u64 (remaining_before_min * partial_epoch_reward) in
  let minimum_total := u64 (blocks_at_minimum * MIN_REWARD) in
  u64 (u64 (u64 (fixed_period_total + full_epochs_total) + partial_epoch_total) + minimum_total).

Definition issued_coins_after_height (height : Z) : Z :=
  if height =? 0 then 0
  else
    let total :=
      if height <=? FIXED_RATE_PERIOD then u64 (height * INITIAL_REWARD)
      else issued_decreasing height in
    Z.min total TOTAL_SUPPLY.

(** ** The specification of the issued coins *)

(** The rewards of blocks [1..n] added up. *)
Fixpoint emitted (n : nat) : Z :=
  match n with
  | O => 0
  | S n' => emitted n' + emission_at_height (Z.of_nat n)
  end.

(** The number of reductions up to a height, at most 24. *)
Definition reductions (height : Z) : Z :=
  Z.min (Z.max 0 (height - FIXED_RATE_PERIOD) / REDUCTION_PERIOD) 24.

(** ** Lemmas *)

Ltac emission_consts :=
  unfold REWARD_REDUCTION, INITIAL_REWARD, MIN_REWARD, REDUCTION_PERIOD,
    FIXED_RATE_PERIOD, TOTAL_SUPPLY, COINS_IN_ONE_ERG in *.

(** The schedule below the heights where the products wrap. *)
Lemma emission_exact h : 0 < h < 2 ^ 48 ->
  emission_at_height h = INITIAL_REWARD - REWARD_REDUCTION * reductions h.
Proof.
  intros Hh. unfold emission_at_height, reductions. emission_consts.
  destruct (Z.eqb_spec h 0); [lia|]. destruct (Z.leb_spec h 525600).
  - rewrite Z.max_l by lia. rewrite Z.div_0_l by lia. lia.
  - rewrite Z.max_r by lia. set (q := (h - 525600) / 64800).
    assert (0 <= q <= 2 ^ 48 / 64800) as Hq.
    { split; [apply Z.div_pos; lia|apply Z.div_le_mono; lia]. }
    change (2 ^ 48 / 64800) with 4343749640 in Hq.
    rewrite u64_id by lia. destruct (_ >=? _) eqn:E; zify_bool; lia.
Qed.

Lemma reductions_range h : 0 <= reductions h <= 24.
Proof.
  unfold reductions. pose proof (Z.div_pos (Z.max 0 (h - FIXED_RATE_PERIOD)) REDUCTION_PERIOD).
  emission_consts. lia.
Qed.

Lemma reductions_mono a b : a <= b -> reductions a <= reductions b.
Proof.
  intros H. unfold reductions. apply Z.min_le_compat_r. apply Z.div_le_mono; [by emission_consts|].
  lia.
Qed.

(** The closed form without the wrapping. *)
Definition issued_exact (h : Z) : Z :=
  let b := h - FIXED_RATE_PERIOD in
  let n := reductions h in
  FIXED_RATE_PERIOD * INITIAL_REWARD
  + REDUCTION_PERIOD * (n * INITIAL_REWARD - 1500000000 * (n * (n - 1)))
  + (b - n * REDUCTION_PERIOD) * (INITIAL_REWARD - n * REWARD_REDUCTION).

(** The reward of the completed epochs: no product wraps. *)
Lemma full_epochs_exact n : 0 <= n <= 24 ->
  (if n >? 0 then
     u64 (REDUCTION_PERIOD
       * u64 (u64 (n * INITIAL_REWARD) - u64 (u64 (REWARD_REDUCTION * n) * u64 (n - 1)) / 2))
   else 0)
  = REDUCTION_PERIOD * (n * INITIAL_REWARD - 1500000000 * (n * (n - 1))).
Proof.
  intros Hn. assert (n * (n - 1) <= 23 * n) as Hnn by nia. emission_consts.
  destruct (n >? 0) eqn:E; zify_bool; [|replace n with 0 by lia; done].
  assert (0 <= n * (n - 1)) by nia.
  rewrite (u64_id (n * _)), (u64_id (3 * 1000000000 * n)), (u64_id (n - 1)) by lia.
  replace (3 * 1000000000 * n * (n - 1)) with (1500000000 * (n * (n - 1)) * 2) by lia.
  rewrite (u64_id (_ * 2)) by lia. rewrite Z.div_mul by lia.
  rewrite (u64_id (_ - _)) by lia. apply u64_id. lia.
Qed.

(** Where a height past the fixed period lies among the reductions. *)
Lemma reductions_cases h : FIXED_RATE_PERIOD < h ->
  (reductions h < 24 /\ 0 <= h - FIXED_RATE_PERIOD - reductions h * REDUCTION_PERIOD < REDUCTION_PERIOD)
  \/ (reductions h = 24 /\ 24 * REDUCTION_PERIOD <= h - FIXED_RATE_PERIOD).
Proof.
  intros Hh. unfold reductions. rewrite Z.max_r by lia. emission_consts.
  pose proof (Z.div_mod (h - 525600) 64800 ltac:(lia)).
  pose proof (Z.mod_pos_bound (h - 525600) 64800 ltac:(lia)). lia.
Qed.

(** A sum of three rewards within [u64]. *)
Lemma u64_sum3 a t r m : 0 <= a -> 0 <= t -> 0 <= r -> 0 <= m -> a + t + r + m < 2 ^ 64 ->
  u64 (u64 (u64 (a + t) + r) + m) = a + t + r + m.
Proof. intros. rewrite (u64_id (a + t)), (u64_id (a + t + r)) by lia. apply u64_id. lia. Qed.

Lemma issued_decreasing_exact h :
  FIXED_RATE_PERIOD < h < 2 ^ 32 -> issued_decreasing h = issued_exact h.
Proof.
  intros Hh. unfold issued_decreasing, issued_exact. cbv zeta.
  replace ((INITIAL_REWARD - MIN_REWARD) / REWARD_REDUCTION) with 24 by done.
  assert (Z.min ((h - FIXED_RATE_PERIOD) / REDUCTION_PERIOD) 24 = reductions h) as ->.
  { unfold reductions. rewrite Z.max_r by lia. done. }
  pose proof (reductions_cases h ltac:(lia)) as Hcase.
  pose proof (reductions_range h) as Hn. set (n := reductions h) in *. clearbody n.
  rewrite full_epochs_exact by done. emission_consts.
  set (T := 64800 * (n * (75 * 1000000000) - 1500000000 * (n * (n - 1)))).
  assert (0 <= T <= 64800 * 1800000000000) as HT by (unfold T; nia).
  rewrite (u64_id (n * 64800)), (u64_id (24 * 64800)), (u64_id (525600 * _)) by lia.
  rewrite (u64_id (n * (3 * 1000000000))), (u64_id (75 * 1000000000 - _)) by lia.
  unfold sat_sub. destruct Hcase as [[Hlt Hb]|[-> Hb]].
  - destruct (Z.ltb_spec n 24); [|lia].
    rewrite (u64_id (h - _ - _)), Z.min_l by lia.
    rewrite (u64_id (24 * 64800 + _)), Z.max_l by lia.
    set (r := h - 525600 - n * 64800) in *.
    assert (0 <= r * (75 * 1000000000 - n * (3 * 1000000000)) <= 64800 * 75000000000) by nia.
    rewrite (u64_id (r * _)), (u64_id (0 * _)), u64_sum3 by lia. lia.
  - destruct (Z.ltb_spec 24 24); [lia|]. rewrite (u64_id (24 * 64800 + 0)), Z.max_r by lia.
    rewrite (u64_id (0 * _)), (u64_id ((_ - _) * _)), u64_sum3 by lia. lia.
Qed.

(** One more block adds its reward, and three coins when a reduction starts. *)
Lemma issued_exact_step h :
  FIXED_RATE_PERIOD <= h < 2 ^ 32 ->
  issued_exact (h + 1) = issued_exact h + emission_at_height (h + 1)
    + REWARD_REDUCTION * (reductions (h + 1) - reductions h).
Proof.
  intros Hh. rewrite emission_exact by (emission_consts; lia). unfold issued_exact.
  assert (reductions (h + 1) = reductions h \/
    (reductions (h + 1) = reductions h + 1 /\
     h + 1 - FIXED_RATE_PERIOD = (reductions h + 1) * REDUCTION_PERIOD)) as [->|[-> Hb]].
  { unfold reductions. rewrite !Z.max_r by lia. emission_consts.
    pose proof (Z.div_mod (h - 525600) 64800 ltac:(lia)).
    pose proof (Z.mod_pos_bound (h - 525600) 64800 ltac:(lia)).
    pose proof (Z.div_mod (h + 1 - 525600) 64800 ltac:(lia)).
    pose proof (Z.mod_pos_bound (h + 1 - 525600) 64800 ltac:(lia)). lia. }
  - emission_consts. lia.
  - set (n := reductions h) in *. replace (h - FIXED_RATE_PERIOD) with ((n + 1) * REDUCTION_PERIOD - 1) by lia.
    rewrite Hb. emission_consts. lia.
Qed.

Lemma emitted_fixed n : Z.of_nat n <= FIXED_RATE_PERIOD -> emitted n = Z.of_nat n * INITIAL_REWARD.
Proof.
  induction n as [|n IH]; intros Hn; [done|]. cbn [emitted].
  rewrite IH by lia. unfold emission_at_height.
  destruct (Z.eqb_spec (Z.of_nat (S n)) 0); [lia|].
  destruct (Z.leb_spec (Z.of_nat (S n)) FIXED_RATE_PERIOD); lia.
Qed.

Lemma issued_exact_emitted n :
  FIXED_RATE_PERIOD <= Z.of_nat n < 2 ^ 32 ->
  issued_exact (Z.of_nat n) = emitted n + REWARD_REDUCTION * reductions (Z.of_nat n).
Proof.
  induction n as [|n IH]; intros Hn; [by emission_consts|].
  destruct (decide (Z.of_nat (S n) = FIXED_RATE_PERIOD)) as [Heq|Hne].
  - rewrite emitted_fixed by lia. rewrite Heq. unfold issued_exact, reductions. done.
  - cbn [emitted]. rewrite Nat2Z.inj_succ, <- Z.add_1_r, issued_exact_step by lia.
    rewrite IH by lia. lia.
Qed.

(** * Properties *)

(** from height 1 on a block is rewarded with at least 3 and at most 75
    coins, and below 2^48 the reward never grows with the height. *)
Theorem emission_bounded_decreasing a b :
  1 <= a <= b -> b < 2 ^ 48 ->
  MIN_REWARD <= emission_at_height b <= emission_at_height a /\
  emission_at_height a <= INITIAL_REWARD.
Proof.
  intros Hab Hb. rewrite !emission_exact by lia.
  pose proof (reductions_range a). pose proof (reductions_range b).
  pose proof (reductions_mono a b). emission_consts. lia.
Qed.

(** with the rules the node builds, what the miner gets and what goes to
    the re-emission contract add up to the emission; the miner keeps at least
    3 coins, the charge is at most 12 coins and is zero before activation, and
    the miner's income does not wrap. *)
Theorem reemission_conserves (s : ReemissionSettings) h :
  1 <= h < 2 ^ 32 ->
  let r := ReemissionRules_new s in
  miner_reward_at_height r h + reemission_for_height r h = emission_at_height h /\
  MIN_REWARD <= miner_reward_at_height r h /\
  0 <= reemission_for_height r h <= basic_charge_amount r /\
  (h < activation_height s -> reemission_for_height r h = 0) /\
  total_miner_income_at_height r h =
    miner_reward_at_height r h + claimable_reemission_at_height r h.
Proof.
  intros Hh r.
  assert (MIN_REWARD <= emission_at_height h <= INITIAL_REWARD) as He.
  { rewrite emission_exact by lia. pose proof (reductions_range h). emission_consts. lia. }
  unfold total_miner_income_at_height, miner_reward_at_height, claimable_reemission_at_height,
    reemission_for_height, sat_sub.
  subst r. cbn [ReemissionRules_new settings basic_charge_amount reemission_reward_per_block].
  emission_consts. rewrite (u64_id (12 * _ + _)) by lia.
  destruct (h >=? activation_height s) eqn:Ea, (h >=? reemission_start_height s) eqn:Es,
    (emission_at_height h >=? _) eqn:E1, (emission_at_height h >? _) eqn:E2;
    cbn [andb]; zify_bool; repeat split; try lia; try (apply u64_id; lia).
Qed.

(** the closed form of the issued coins, for every [u32] height: it is
    the sum of the emissions of all blocks so far, plus 3 coins for every
    reduction that has started, capped at the total supply. *)
Theorem issued_coins_closed_form n :
  Z.of_nat n < 2 ^ 32 ->
  issued_coins_after_height (Z.of_nat n) =
  Z.min (emitted n + REWARD_REDUCTION * reductions (Z.of_nat n)) TOTAL_SUPPLY.
Proof.
  intros Hn. unfold issued_coins_after_height.
  destruct (Z.eqb_spec (Z.of_nat n) 0) as [H0|H0].
  { replace n with 0%nat by lia. done. }
  destruct (Z.leb_spec (Z.of_nat n) FIXED_RATE_PERIOD).
  - rewrite emitted_fixed by lia. unfold reductions. rewrite Z.max_l by lia.
    rewrite u64_id by (emission_consts; lia). emission_consts. rewrite Z.div_0_l by lia. lia.
  - rewrite issued_decreasing_exact by lia. rewrite issued_exact_emitted by lia. done.
Qed.

Module Example.

Lemma emission_bounded_decreasing_witness :
  MIN_REWARD <= emission_at_height 2080800 <= emission_at_height 590400.
Proof. apply (emission_bounded_decreasing 590400 2080800); lia. Defined.

Lemma reemission_conserves_witness :
  reemission_for_height (ReemissionRules_new mainnet) 777217 = 12000000000 /\
  miner_reward_at_height (ReemissionRules_new mainnet) 777217
    + reemission_for_height (ReemissionRules_new mainnet) 777217 = emission_at_height 777217.
Proof. split; [vm_compute; reflexivity|]. apply (reemission_conserves mainnet 777217). lia. Defined.

Lemma issued_coins_closed_form_witness :
  issued_coins_after_height 3 = Z.min (emitted 3 + REWARD_REDUCTION * reductions 3) TOTAL_SUPPLY.
Proof. apply (issued_coins_closed_form 3). lia. Defined.

(** The first block of the first reduction: 3 coins more than were emitted. *)
Lemma closed_form_over_counts :
  issued_coins_after_height 590400 - issued_coins_after_height 590399
  = emission_at_height 590400 + REWARD_REDUCTION.
Proof. vm_compute. reflexivity. Qed.

End Example.
