(* ===== verification/ChainParams.v ===== *)
(** * Voted chain parameters and validation costs
      (crates/ergo-consensus/src/chain_params.rs, cost.rs)

    The parameters parsed from block extensions with their fallbacks, the cost
    accumulator and the base cost of a transaction. *)

From S2P Require Export Prelude.

Local Open Scope Z_scope.

(** ** Parameters *)

Definition STORAGE_FEE_FACTOR : Z := 1.
Definition MIN_VALUE_PER_BYTE : Z := 2.
Definition MAX_BLOCK_SIZE : Z := 3.
Definition P_MAX_BLOCK_COST : Z := 4.
Definition TOKEN_ACCESS_COST : Z := 5.
Definition INPUT_COST : Z := 6.
Definition P_DATA_INPUT_COST : Z := 7.
Definition OUTPUT_COST : Z := 8.

Definition VOTING_EPOCH_LENGTH : Z := 1024.

Record ChainParameters := mkChainParameters {
  cp_height : Z;
  max_block_cost : Z;
  storage_fee_factor : Z;
  min_value_per_byte : Z;
  max_block_size : Z;
  token_access_cost : Z;
  input_cost : Z;
  data_input_cost : Z;
  output_cost : Z
}.

Definition ChainParameters_default : ChainParameters :=
  mkChainParameters 0 1000000 1250000 360 524288 100 2000 100 100.

(** [parsed.get(&id).map(|&v| v as u64).unwrap_or(previous)]. *)
Definition param_or (parsed : gmap Z Z) (id previous : Z) : Z :=
  match parsed !! id with Some v => u64 v | None => previous end.

Definition from_extension (height : Z) (parsed : gmap Z Z) (previous : ChainParameters)
    : ChainParameters :=
  mkChainParameters height
    (param_or parsed P_MAX_BLOCK_COST (max_block_cost previous))
    (param_or parsed STORAGE_FEE_FACTOR (storage_fee_factor previous))
    (param_or parsed MIN_VALUE_PER_BYTE (min_value_per_byte previous))
    (param_or parsed MAX_BLOCK_SIZE (max_block_size previous))
    (param_or parsed TOKEN_ACCESS_COST (token_access_cost previous))
    (param_or parsed INPUT_COST (input_cost previous))
    (param_or parsed P_DATA_INPUT_COST (data_input_cost previous))
    (param_or parsed OUTPUT_COST (output_cost previous)).

Definition is_epoch_boundary (height : Z) : bool :=
  (height >? 0) && (height mod VOTING_EPOCH_LENGTH =? 0).

(** ** Costs *)

Inductive CostError :=
  | LimitExceeded (current limit : Z)
  | TransactionCostExceeded (cost limit : Z)
  | BlockCostExceeded (cost limit : Z).

Definition MAX_TX_COST : Z := 1000000.
Definition MAX_BLOCK_COST : Z := 8000000.
Definition INPUT_BASE_COST : Z := 2000.
Definition OUTPUT_BASE_COST : Z := 100.
Definition DATA_INPUT_COST : Z := 100.
Definition SIZE_COST_PER_BYTE : Z := 2.
Definition MIN_TX_COST : Z := 1000.

Record CostAccumulator := mkCostAccumulator { acc_current : Z; acc_limit : Z }.

Definition acc_new (limit : Z) : CostAccumulator := mkCostAccumulator 0 limit.
Definition for_transaction : CostAccumulator := acc_new MAX_TX_COST.
Definition for_block : CostAccumulator := acc_new MAX_BLOCK_COST.

(** [add] updates the accumulator on both outcomes. *)
Definition acc_add (a : CostAccumulator) (cost : Z) : result unit CostError * CostAccumulator :=
  let current := sat_add 64 (acc_current a) cost in
  let a := mkCostAccumulator current (acc_limit a) in
  (if current >? acc_limit a then Err (LimitExceeded current (acc_limit a)) else Ok tt, a).

Definition add_unchecked (a : CostAccumulator) (cost : Z) : CostAccumulator :=
  mkCostAccumulator (sat_add 64 (acc_current a) cost) (acc_limit a).
Definition is_exceeded (a : CostAccumulator) : bool := acc_current a >? acc_limit a.
Definition acc_total (a : CostAccumulator) : Z := acc_current a.
Definition acc_remaining (a : CostAccumulator) : Z := sat_sub (acc_limit a) (acc_current a).
Definition acc_reset (a : CostAccumulator) : CostAccumulator := mkCostAccumulator 0 (acc_limit a).
Definition would_exceed (a : CostAccumulator) (cost : Z) : bool :=
  sat_add 64 (acc_current a) cost >? acc_limit a.

Record TransactionCostResult := mkTransactionCostResult {
  tcr_total_cost : Z;
  tcr_base_cost : Z;
  tcr_size_cost : Z;
  tcr_script_cost : Z;
  tcr_per_input_costs : list Z
}.

Definition TransactionCostResult_new (base_cost size_cost script_cost : Z)
    (per_input_costs : list Z) : TransactionCostResult :=
  mkTransactionCostResult (u64 (u64 (base_cost + size_cost) + script_cost))
    base_cost size_cost script_cost per_input_costs.

Definition exceeds_tx_limit (r : TransactionCostResult) : bool := tcr_total_cost r >? MAX_TX_COST.

Definition calculate_base_cost (num_inputs num_outputs num_data_inputs tx_size_bytes : Z) : Z :=
  let input_cost := u64 (num_inputs * INPUT_BASE_COST) in
  let output_cost := u64 (num_outputs * OUTPUT_BASE_COST) in
  let data_input_cost := u64 (num_data_inputs * DATA_INPUT_COST) in
  let size_cost := u64 (tx_size_bytes * SIZE_COST_PER_BYTE) in
  u64 (u64 (u64 (input_cost + output_cost) + data_input_cost) + size_cost).

Definition estimate_tx_cost (num_inputs num_outputs num_data_inputs tx_size_bytes : Z) : Z :=
  let base := calculate_base_cost num_inputs num_outputs num_data_inputs tx_size_bytes in
  let estimated_script_cost := u64 (num_inputs * 1000) in
  Z.max (sat_add 64 base estimated_script_cost) MIN_TX_COST.

(** ** Lemmas *)

(** The base cost of a transaction of realistic dimensions is exact. *)
Lemma base_cost_exact i o d s :
  0 <= i < 2 ^ 48 -> 0 <= o < 2 ^ 48 -> 0 <= d < 2 ^ 48 -> 0 <= s < 2 ^ 48 ->
  calculate_base_cost i o d s = 2000 * i + 100 * o + 100 * d + 2 * s.
Proof.
  intros. unfold calculate_base_cost, INPUT_BASE_COST, OUTPUT_BASE_COST, DATA_INPUT_COST,
    SIZE_COST_PER_BYTE.
  rewrite (u64_id (i * _)), (u64_id (o * _)), (u64_id (d * _)), (u64_id (s * _)) by lia.
  rewrite (u64_id (i * 2000 + _)), (u64_id (_ + d * _)), u64_id by lia. lia.
Qed.

Lemma param_or_range parsed id previous :
  in_u 64 previous -> in_u 64 (param_or parsed id previous).
Proof. intros H. unfold param_or. case_match; [apply u64_range|done]. Qed.

(** * Properties *)

(** Charging a list of costs one by one, stopping at the first error. *)
Fixpoint add_all (a : CostAccumulator) (costs : list Z) : result unit CostError * CostAccumulator :=
  match costs with
  | [] => (Ok tt, a)
  | c :: costs' =>
      match acc_add a c with
      | (Ok _, a') => add_all a' costs'
      | (Err e, a') => (Err e, a')
      end
  end.

(** charging costs one after the other from a fresh accumulator succeeds
    exactly when their exact sum is within the limit, and then the total is
    that sum: the saturating arithmetic never lets an overflow through. *)
Theorem add_all_decides limit costs :
  in_u 64 limit -> limit < 2 ^ 64 - 1 -> Forall (in_u 64) costs ->
  let '(r, a) := add_all (acc_new limit) costs in
  (is_ok r = true <-> sumZ costs <= limit) /\
  (is_ok r = true -> acc_total a = sumZ costs /\ is_exceeded a = false) /\
  (is_ok r = false -> is_exceeded a = true).
Proof.
  intros Hl Hl' Hc.
  assert (forall cur, 0 <= cur <= limit ->
    let '(r, a) := add_all (mkCostAccumulator cur limit) costs in
    (is_ok r = true <-> cur + sumZ costs <= limit) /\
    (is_ok r = true -> acc_total a = cur + sumZ costs /\ is_exceeded a = false) /\
    (is_ok r = false -> is_exceeded a = true)) as Hgen; [|by apply (Hgen 0); unfold in_u in *; lia].
  induction Hc as [|c costs Hcost Hcosts IH]; intros cur Hcur; cbn [add_all sumZ].
  - unfold is_exceeded. cbn. rewrite Z.gtb_ltb. repeat split; try lia; try done; intros; try apply Z.ltb_ge; lia.
  - assert (0 <= sumZ costs).
    { apply sumZ_nonneg. eapply Forall_impl; [exact Hcosts|]. unfold in_u. lia. }
    unfold acc_add. cbn [acc_current acc_limit]. unfold in_u in *.
    destruct (sat_add 64 cur c >? limit) eqn:E; zify_bool; unfold sat_add in *.
    + cbn [is_ok]. unfold is_exceeded. cbn [acc_current acc_limit].
      rewrite Z.gtb_ltb. repeat split; try done; intros; try lia; apply Z.ltb_lt; lia.
    + specialize (IH (cur + c)). rewrite Z.min_l by lia.
      replace (cur + (c + sumZ costs)) with (cur + c + sumZ costs) by lia. apply IH. lia.
Qed.

(** an extension update keeps every parameter it does not name, takes the
    non-negative values it names, and keeps all parameters within [u64]; a
    negative voted value [v] becomes [2^64 + v]. *)
Theorem from_extension_params height parsed previous id v :
  let get := fun p => [(STORAGE_FEE_FACTOR, storage_fee_factor p); (MIN_VALUE_PER_BYTE, min_value_per_byte p);
    (MAX_BLOCK_SIZE, max_block_size p); (P_MAX_BLOCK_COST, max_block_cost p);
    (TOKEN_ACCESS_COST, token_access_cost p); (INPUT_COST, input_cost p);
    (P_DATA_INPUT_COST, data_input_cost p); (OUTPUT_COST, output_cost p)] in
  in_i 32 v -> parsed !! id = Some v ->
  let p := from_extension height parsed previous in
  cp_height p = height /\
  (forall k x, (k, x) ∈ get previous -> parsed !! k = None -> (k, x) ∈ get p) /\
  (forall x, (id, x) ∈ get p -> x = if v <? 0 then 2 ^ 64 + v else v).
Proof.
  intros get Hv Hid p. split; [done|]. split.
  - intros k x Hin Hk. subst get p. cbn -[param_or] in *.
    repeat (apply elem_of_cons in Hin as [[= -> ->]|Hin];
      [unfold param_or; rewrite Hk; repeat (first [apply list_elem_of_here | apply list_elem_of_further])|]).
    by apply not_elem_of_nil in Hin.
  - intros x Hin.
    assert (x = u64 v) as ->.
    { subst get p. cbn -[param_or] in Hin.
      repeat (apply elem_of_cons in Hin as [[= <- ->]|Hin]; [unfold param_or; by rewrite Hid|]).
      by apply not_elem_of_nil in Hin. }
    unfold in_i in Hv. destruct (Z.ltb_spec v 0).
    + unfold wrap. rewrite <- (Z.mod_add v 1) by lia. rewrite Z.mod_small; lia.
    + apply u64_id. lia.
Qed.

Module Example.

Lemma add_all_decides_witness :
  is_ok (fst (add_all for_transaction [2000; 100; 997900])) = true.
Proof.
  pose proof (add_all_decides MAX_TX_COST [2000; 100; 997900]) as H.
  destruct H as [H _]; [unfold in_u, MAX_TX_COST; lia|unfold MAX_TX_COST; lia|repeat constructor; lia|].
  apply H. unfold MAX_TX_COST. cbn. lia.
Defined.

Lemma from_extension_params_witness :
  max_block_cost (from_extension 1024 {[P_MAX_BLOCK_COST := -1]} ChainParameters_default)
  = 2 ^ 64 - 1.
Proof.
  destruct (from_extension_params 1024 {[P_MAX_BLOCK_COST := -1]} ChainParameters_default
    P_MAX_BLOCK_COST (-1)) as (_ & _ & H).
  - unfold in_i. lia.
  - apply lookup_singleton_eq.
  - apply H. apply list_elem_of_further, list_elem_of_further, list_elem_of_further, list_elem_of_here.
Defined.

End Example.
