(* ===== verification/Autolykos.v ===== *)
(** * Autolykos v2 proof of work (crates/ergo-consensus/src/autolykos.rs)

    The compact difficulty encoding and the verification of a solution.  The
    hash, point serialisation and [BigUint::to_bytes_be] are the interfaces of
    [ErgoTypes]; [BigUint] values are non-negative integers. *)

From S2P Require Export ErgoTypes.

Local Open Scope Z_scope.

(** ** Parameters (lib.rs, [params]) *)

Definition AUTOLYKOS_N : Z := 67108864.
Definition AUTOLYKOS_K : Z := 32.
Definition AUTOLYKOS_N_V2_HARDFORK_HEIGHT : Z := 614400.

Definition max_target : Z := Z.shiftl 1 256 - 1.

(** ** Compact difficulty *)

Definition nbits_to_target (nbits : Z) : Z :=
  let size := Z.land (Z.shiftr nbits 24) 0xff in
  let word := Z.land nbits 0x007fffff in
  if size =? 0 then 0
  else if size <=? 3 then Z.shiftr word (8 * (3 - size))
  else Z.shiftl word (8 * (size - 3)).

(** The word of at most three bytes: byte [i] is shifted by [8 * (2 - i)]. *)
Fixpoint short_word (i : Z) (bs : bytes) (word : Z) : Z :=
  match bs with
  | [] => word
  | b :: bs' => short_word (i + 1) bs' (Z.lor word (Z.shiftl b (8 * (2 - i))))
  end.

Definition target_to_nbits `{BigUintBytes} (target : Z) : Z :=
  if target =? 0 then 0
  else
    let bs := to_bytes_be target in
    let len := Z.of_nat (length bs) in
    if len =? 0 then 0
    else
      let '(size, word) :=
        if len <=? 3 then (3, short_word 0 bs 0)
        else (u32 len, Z.lor (Z.lor (Z.shiftl (nth 0 bs 0) 16) (Z.shiftl (nth 1 bs 0) 8)) (nth 2 bs 0)) in
      if negb (Z.land word 0x00800000 =? 0) then
        Z.lor (u32 (Z.shiftl (u32 (size + 1)) 24)) (Z.shiftr word 8)
      else Z.lor (u32 (Z.shiftl size 24)) word.

Definition nbits_to_difficulty (nbits : Z) : Z :=
  let target := nbits_to_target nbits in
  if target =? 0 then max_target else max_target / target.

(** ** Verification *)

Record AutolykosV2 := mkAutolykosV2 { av_n : Z; av_k : Z }.

Definition AutolykosV2_new : AutolykosV2 := mkAutolykosV2 AUTOLYKOS_N AUTOLYKOS_K.
Definition with_params (n k : Z) : AutolykosV2 := mkAutolykosV2 n k.

Definition n_for_height (height : Z) : Z :=
  if height >=? AUTOLYKOS_N_V2_HARDFORK_HEIGHT then AUTOLYKOS_N else Z.shiftl 1 25.

Section Verify.
Context `{Blake2b256} `{BigUintBytes} `{ChainTypes} `{!HeaderOps}.

Definition calculate_msg (header_bytes nonce : bytes) : bytes := blake2b256 (header_bytes ++ nonce).

Definition calculate_seed (msg pk : bytes) : bytes := blake2b256 (msg ++ pk).

(** One index: the first four bytes of [H(seed || i)], modulo [n]. *)
Definition pow_index (seed : bytes) (n i : Z) : Z :=
  let hash := blake2b256 (seed ++ be_bytes 4 i) in
  be_val (slice 0 4 hash) mod n.

Definition generate_indices (v : AutolykosV2) (seed : bytes) (n : Z) : list Z :=
  (fun i => pow_index seed n (Z.of_nat i)) <$> seq 0 (Z.to_nat (av_k v)).

Definition calculate_f_sum (indices : list Z) (msg pk : bytes) : bytes :=
  let sum := fold_left (fun sum idx =>
    let f_value := blake2b256 (be_bytes 4 idx ++ msg ++ pk) in
    sum + be_val f_value) indices 0 in
  to_bytes_be sum.

Definition calculate_hit (f_sum : bytes) : bytes := blake2b256 f_sum.

Definition verify_solution (v : AutolykosV2) (header_bytes : bytes) (solution : AutolykosSolution)
    (target height : Z) : result bool ConsensusError :=
  if negb (length (nonce solution) =? 8)%nat then Err (InvalidPow "Invalid nonce length")
  else
    let n := n_for_height height in
    let msg := calculate_msg header_bytes (nonce solution) in
    let? pk_bytes := ok_or (ec_serialize (miner_pk solution))
                       (InvalidPow "Failed to serialize miner pk") in
    let seed := calculate_seed msg pk_bytes in
    let indices := generate_indices v seed n in
    let f_sum := calculate_f_sum indices msg pk_bytes in
    let hit := calculate_hit f_sum in
    let hit_value := be_val hit in
    Ok (hit_value <=? target).

Definition verify_header (v : AutolykosV2) (header : Header) : result bool ConsensusError :=
  let? header_bytes := ok_or (serialize_without_pow header)
                         (InvalidPow "Failed to serialize header") in
  let target := nbits_to_target (h_n_bits header) in
  verify_solution v header_bytes (h_autolykos_solution header) target (h_height header).

Definition validate_pow (header : Header) : result bool ConsensusError :=
  verify_header AutolykosV2_new header.

End Verify.

(** ** Lemmas: the compact encoding *)

Lemma nbits_fields size word :
  0 <= size < 256 -> 0 <= word < 2 ^ 23 ->
  nbits_to_target (Z.lor (Z.shiftl size 24) word) =
  if size =? 0 then 0
  else if size <=? 3 then word / 256 ^ (3 - size) else word * 256 ^ (size - 3).
Proof.
  intros Hs Hw. unfold nbits_to_target.
  rewrite lor_shiftl_add by lia.
  rewrite Z.shiftr_div_pow2 by lia. rewrite Z.div_add_l, Z.div_small, Z.add_0_r by lia.
  change 0xff with (Z.ones 8). change 0x7fffff with (Z.ones 23).
  rewrite !Z.land_ones by lia. rewrite (Z.mod_small size) by lia.
  replace ((size * 2 ^ 24 + word) mod 2 ^ 23) with word.
  2:{ replace (size * 2 ^ 24 + word) with (word + (2 * size) * 2 ^ 23) by lia.
      rewrite Z.mod_add by lia. symmetry. apply Z.mod_small. lia. }
  destruct (Z.eqb_spec size 0); [done|]. destruct (Z.leb_spec size 3).
  - rewrite Z.shiftr_div_pow2 by lia. f_equal. change 256 with (2 ^ 8).
    rewrite <- Z.pow_mul_r by lia. done.
  - rewrite Z.shiftl_mul_pow2 by lia. f_equal. change 256 with (2 ^ 8).
    rewrite <- Z.pow_mul_r by lia. done.
Qed.

Lemma lor_word b0 b1 b2 :
  byte_ok b0 -> byte_ok b1 -> byte_ok b2 ->
  Z.lor (Z.lor (Z.shiftl b0 16) (Z.shiftl b1 8)) b2 = b0 * 65536 + b1 * 256 + b2.
Proof.
  unfold byte_ok. intros.
  rewrite (Z.shiftl_mul_pow2 b1) by lia. rewrite (lor_shiftl_add b0 (b1 * 2 ^ 8) 16) by lia.
  replace (b0 * 2 ^ 16 + b1 * 2 ^ 8) with (Z.shiftl (b0 * 2 ^ 8 + b1) 8)
    by (rewrite Z.shiftl_mul_pow2; lia).
  rewrite lor_shiftl_add by lia. lia.
Qed.

(** The last step of [target_to_nbits]: a word below [2^24] with its size. *)
Definition pack_nbits (size word : Z) : Z :=
  if negb (Z.land word 0x00800000 =? 0) then
    Z.lor (u32 (Z.shiftl (u32 (size + 1)) 24)) (Z.shiftr word 8)
  else Z.lor (u32 (Z.shiftl size 24)) word.

Lemma pack_nbits_spec size word :
  0 <= size < 255 -> 0 <= word < 2 ^ 24 ->
  pack_nbits size word =
  if word <? 2 ^ 23 then Z.lor (Z.shiftl size 24) word
  else Z.lor (Z.shiftl (size + 1) 24) (word / 256).
Proof.
  intros Hs Hw. unfold pack_nbits. change 0x800000 with (2 ^ 23).
  rewrite land_pow2_zero by lia. rewrite !Z.shiftl_mul_pow2 by lia.
  assert (forall x, 0 <= x < 2 ^ 32 -> u32 x = x) as Hid by (intros; by apply wrap_small).
  destruct (Z.ltb_spec word (2 ^ 23)); cbn [negb].
  - by rewrite Hid by lia.
  - rewrite (Hid (size + 1)), (Hid ((size + 1) * _)) by lia. by rewrite Z.shiftr_div_pow2.
Qed.

(** What the encoder stores is decoded to this multiple of the word. *)
Lemma nbits_to_target_pack size word :
  3 <= size < 255 -> 0 <= word < 2 ^ 24 ->
  nbits_to_target (pack_nbits size word) =
  (if word <? 2 ^ 23 then word else word / 256 * 256) * 256 ^ (size - 3).
Proof.
  intros Hs Hw. rewrite pack_nbits_spec by lia. destruct (Z.ltb_spec word (2 ^ 23)).
  - rewrite nbits_fields by lia. destruct (Z.eqb_spec size 0); [lia|].
    destruct (Z.leb_spec size 3); [|done].
    replace size with 3 by lia. change (256 ^ (3 - 3)) with 1. rewrite Z.div_1_r. lia.
  - assert (0 <= word / 256 < 2 ^ 23) by
      (split; [apply Z.div_pos; lia|apply Z.div_lt_upper_bound; lia]).
    rewrite nbits_fields by lia. destruct (Z.eqb_spec (size + 1) 0); [lia|].
    destruct (Z.leb_spec (size + 1) 3); [lia|].
    replace (size + 1 - 3) with (Z.succ (size - 3)) by lia. rewrite Z.pow_succ_r by lia. lia.
Qed.

Section Bytes.
Context `{BigUintBytesLaws}.

Lemma to_bytes_be_bounds t :
  0 < t -> exists n, length (to_bytes_be t) = S n /\ 256 ^ Z.of_nat n <= t < 256 ^ Z.of_nat (S n).
Proof.
  intros Ht. destruct (to_bytes_be_head t Ht) as (b & bs & E & Hb).
  pose proof (to_bytes_be_val t ltac:(lia)) as Hv. pose proof (to_bytes_be_ok t ltac:(lia)) as Hok.
  rewrite E in *. exists (length bs). split; [done|]. rewrite <- Hv. split.
  - cbn [be_val]. inversion Hok; subst. pose proof (be_val_range bs ltac:(done)).
    assert (0 < 256 ^ Z.of_nat (length bs)) by (apply Z.pow_pos_nonneg; lia). nia.
  - apply (be_val_range (b :: bs)). done.
Qed.

Lemma to_bytes_be_length t n :
  0 < t -> 256 ^ Z.of_nat n <= t < 256 ^ Z.of_nat (S n) -> length (to_bytes_be t) = S n.
Proof.
  intros Ht Hn. destruct (to_bytes_be_bounds t Ht) as (k & -> & Hk). f_equal.
  destruct (Nat.lt_trichotomy k n) as [Hlt|[->|Hlt]]; [|done|].
  - pose proof (Z.pow_le_mono_r 256 (Z.of_nat (S k)) (Z.of_nat n) ltac:(lia) ltac:(lia)). lia.
  - pose proof (Z.pow_le_mono_r 256 (Z.of_nat (S n)) (Z.of_nat k) ltac:(lia) ltac:(lia)). lia.
Qed.

(** The leading three bytes of a target of at least three bytes. *)
Lemma target_to_nbits_long t n :
  (2 <= n)%nat -> (n < 254)%nat -> 256 ^ Z.of_nat n <= t < 256 ^ Z.of_nat (S n) ->
  target_to_nbits t = pack_nbits (Z.of_nat (S n)) (t / 256 ^ (Z.of_nat n - 2)).
Proof.
  intros Hn Hn' Ht. assert (0 < 256 ^ Z.of_nat n) by (apply Z.pow_pos_nonneg; lia).
  assert (0 < t) as Hpos by lia.
  pose proof (to_bytes_be_length t n Hpos Ht) as Hlen.
  pose proof (to_bytes_be_val t ltac:(lia)) as Hv. pose proof (to_bytes_be_ok t ltac:(lia)) as Hok.
  unfold target_to_nbits. destruct (Z.eqb_spec t 0); [lia|]. rewrite Hlen.
  destruct (Z.eqb_spec (Z.of_nat (S n)) 0); [lia|].
  destruct (to_bytes_be t) as [|b0 [|b1 [|b2 rest]]]; cbn [length] in Hlen; try lia.
  inversion Hok as [|?? Hb0 Hok1]; subst. inversion Hok1 as [|?? Hb1 Hok2]; subst.
  inversion Hok2 as [|?? Hb2 Hok3]; subst. pose proof (be_val_range rest Hok3) as Hr.
  assert (length rest = (n - 2)%nat) as Hrest by lia.
  assert (be_val (b0 :: b1 :: b2 :: rest) / 256 ^ (Z.of_nat n - 2)
    = b0 * 65536 + b1 * 256 + b2) as ->.
  { cbn [be_val length]. rewrite Hrest in *. rewrite !Nat2Z.inj_succ, !Z.pow_succ_r by lia.
    replace (Z.of_nat n - 2) with (Z.of_nat (n - 2)) by lia.
    symmetry. apply (Z.div_unique_pos _ _ _ (be_val rest)); lia. }
  destruct (Z.leb_spec (Z.of_nat (S n)) 3).
  - assert (rest = []) as -> by (apply length_zero_iff_nil; lia).
    cbn [short_word]. change (8 * (2 - 0)) with 16. change (8 * (2 - (0 + 1))) with 8.
    change (8 * (2 - (0 + 1 + 1))) with 0. rewrite Z.lor_0_l, (Z.shiftl_0_r b2), lor_word by done.
    replace (Z.of_nat (S n)) with 3 by lia. done.
  - cbn [nth]. rewrite lor_word by done. unfold pack_nbits.
    rewrite (wrap_small 32 (Z.of_nat (S n))); [done|unfold in_u; lia].
Qed.

Lemma word_bounds t n :
  (2 <= n)%nat -> 256 ^ Z.of_nat n <= t < 256 ^ Z.of_nat (S n) ->
  2 ^ 16 <= t / 256 ^ (Z.of_nat n - 2) < 2 ^ 24.
Proof.
  intros Hn Ht. set (k := Z.of_nat n - 2). assert (0 < 256 ^ k) by (apply Z.pow_pos_nonneg; lia).
  replace (Z.of_nat n) with (k + 2) in Ht by lia.
  replace (Z.of_nat (S n)) with (k + 3) in Ht by lia. rewrite !Z.pow_add_r in Ht by lia.
  split; [apply Z.div_le_lower_bound; lia|apply Z.div_lt_upper_bound; lia].
Qed.

(** A bound on the digits of a positive integer gives the exponent. *)
Lemma digits_exist t m :
  256 ^ 2 <= t < 256 ^ Z.of_nat m ->
  exists n, (2 <= n < m)%nat /\ 256 ^ Z.of_nat n <= t < 256 ^ Z.of_nat (S n).
Proof.
  intros Ht. destruct (to_bytes_be_bounds t ltac:(lia)) as (n & _ & Hn).
  exists n. split; [|done]. split.
  - destruct (Nat.le_gt_cases 2 n); [done|].
    pose proof (Z.pow_le_mono_r 256 (Z.of_nat (S n)) 2 ltac:(lia) ltac:(lia)). lia.
  - destruct (Nat.le_gt_cases m n); [|done].
    pose proof (Z.pow_le_mono_r 256 (Z.of_nat m) (Z.of_nat n) ltac:(lia) ltac:(lia)). lia.
Qed.
End Bytes.

(** ** Lemmas: the indices *)

Lemma n_for_height_pos height : 0 < n_for_height height <= AUTOLYKOS_N.
Proof. unfold n_for_height, AUTOLYKOS_N. replace (Z.shiftl 1 25) with 33554432 by done.
  destruct (_ >=? _); lia. Qed.

(** * Properties *)

(** the compact encoding never raises a target of at least three bytes
    (which would lower the difficulty), and lowers it by less than one part in
    [2^15]; it holds for every target below [2^256]. *)
Theorem nbits_truncation `{BigUintBytesLaws} t :
  2 ^ 16 <= t < 2 ^ 256 ->
  nbits_to_target (target_to_nbits t) <= t /\
  (t - nbits_to_target (target_to_nbits t)) * 2 ^ 15 < t.
Proof.
  intros Ht. destruct (digits_exist t 32) as (n & Hn & Hb);
    [replace (256 ^ Z.of_nat 32) with (2 ^ 256) by done; lia|].
  rewrite (target_to_nbits_long t n) by lia.
  pose proof (word_bounds t n ltac:(lia) Hb) as Hw.
  rewrite nbits_to_target_pack by lia.
  replace (Z.of_nat (S n) - 3) with (Z.of_nat n - 2) by lia.
  set (p := 256 ^ (Z.of_nat n - 2)) in *. assert (0 < p) by (apply Z.pow_pos_nonneg; lia).
  pose proof (Z.div_mod t p ltac:(lia)) as Hdm. pose proof (Z.mod_pos_bound t p ltac:(lia)).
  set (w := t / p) in *.
  destruct (Z.ltb_spec w (2 ^ 23)); [split; nia|].
  pose proof (Z.div_mod w 256 ltac:(lia)). pose proof (Z.mod_pos_bound w 256 ltac:(lia)).
  split; nia.
Qed.

(** a compact value in canonical form (a size from 3 to 32 bytes and a word
    with a non-zero leading byte) is recovered from its target. *)
Theorem nbits_roundtrip `{BigUintBytesLaws} size word :
  3 <= size <= 32 -> 2 ^ 16 <= word < 2 ^ 23 ->
  let nbits := Z.lor (Z.shiftl size 24) word in
  target_to_nbits (nbits_to_target nbits) = nbits.
Proof.
  intros Hs Hw nbits. subst nbits. rewrite nbits_fields by lia.
  destruct (Z.eqb_spec size 0); [lia|].
  assert ((if size <=? 3 then word / 256 ^ (3 - size) else word * 256 ^ (size - 3))
    = word * 256 ^ (size - 3)) as ->.
  { destruct (Z.leb_spec size 3); [|done]. replace size with 3 by lia.
    change (256 ^ (3 - 3)) with 1. rewrite Z.div_1_r. lia. }
  assert (0 < 256 ^ (size - 3)) by (apply Z.pow_pos_nonneg; lia).
  rewrite (target_to_nbits_long _ (Z.to_nat (size - 1))); [|lia|lia|].
  - replace (Z.of_nat (S (Z.to_nat (size - 1)))) with size by lia.
    replace (Z.of_nat (Z.to_nat (size - 1)) - 2) with (size - 3) by lia.
    rewrite Z.div_mul by lia. rewrite pack_nbits_spec by lia.
    destruct (Z.ltb_spec word (2 ^ 23)); [done|lia].
  - replace (Z.of_nat (S (Z.to_nat (size - 1)))) with ((size - 3) + 3) by lia.
    replace (Z.of_nat (Z.to_nat (size - 1))) with ((size - 3) + 2) by lia.
    rewrite !Z.pow_add_r by lia. nia.
Qed.

(** a target of one or two bytes does not survive the encoding: it comes
    back multiplied by [2^16] or [2^8]. *)
Theorem small_target_inflated `{BigUintBytesLaws} t :
  0 < t < 2 ^ 16 ->
  nbits_to_target (target_to_nbits t) = if t <? 256 then t * 65536 else t * 256.
Proof.
  intros Ht. pose proof (to_bytes_be_val t ltac:(lia)) as Hv.
  pose proof (to_bytes_be_ok t ltac:(lia)) as Hok.
  assert (target_to_nbits t = pack_nbits 3 (if t <? 256 then t * 65536 else t * 256)) as ->.
  { unfold target_to_nbits. destruct (Z.eqb_spec t 0); [lia|].
    destruct (Z.ltb_spec t 256).
    - rewrite (to_bytes_be_length t 0) by lia. cbn -[short_word Z.land Z.lor].
      pose proof (to_bytes_be_length t 0 ltac:(lia) ltac:(lia)) as Hlen.
      destruct (to_bytes_be t) as [|b0 [|]]; try done. cbn [be_val length] in Hv.
      cbn [short_word]. rewrite Z.lor_0_l, Z.shiftl_mul_pow2 by lia.
      unfold pack_nbits. replace (b0 * 2 ^ (8 * (2 - 0))) with (t * 65536) by lia. done.
    - rewrite (to_bytes_be_length t 1) by lia. cbn -[short_word Z.land Z.lor].
      pose proof (to_bytes_be_length t 1 ltac:(lia) ltac:(lia)) as Hlen.
      destruct (to_bytes_be t) as [|b0 [|b1 [|]]]; try done. cbn [be_val length] in Hv.
      inversion Hok as [|?? Hb0 Hok1]; subst. inversion Hok1 as [|?? Hb1 _]; subst.
      cbn [short_word]. rewrite Z.lor_0_l. unfold byte_ok in *.
      change (8 * (2 - 0)) with 16. change (8 * (2 - (0 + 1))) with 8.
      rewrite (Z.shiftl_mul_pow2 b1) by lia. rewrite lor_shiftl_add by lia. unfold pack_nbits.
      replace (b0 * 2 ^ 16 + b1 * 2 ^ 8) with
        ((b0 * 256 ^ Z.of_nat 1 + (b1 * 256 ^ Z.of_nat 0 + 0)) * 256) by lia. done. }
  rewrite nbits_to_target_pack; [|lia|destruct (Z.ltb_spec t 256); lia].
  change (256 ^ (3 - 3)) with 1.
  assert (forall x, x * 256 / 256 * 256 = x * 256) as Hx by (intros; rewrite Z.div_mul; lia).
  destruct (Z.ltb_spec t 256).
  - replace (t * 65536) with (t * 256 * 256) by lia. rewrite Hx. destruct (_ <? _); lia.
  - rewrite Hx. destruct (_ <? _); lia.
Qed.

Section Pow.
Context `{Blake2b256Laws} `{BigUintBytes} `{ChainTypes} `{!HeaderOps}.

(** verification fails exactly on a nonce that is not eight bytes long or
    a key that does not serialise; otherwise the solution has one hit value,
    independent of the target and below [2^256], and is accepted exactly for
    the targets that are not below it; the [k] table positions it reads are
    within the table of the block's height. *)
Theorem verify_solution_decides v header_bytes sol height :
  (forall target, is_ok (verify_solution v header_bytes sol target height) = true <->
     length (nonce sol) = 8%nat /\ is_Some (ec_serialize (miner_pk sol))) /\
  (exists hit, 0 <= hit < 2 ^ 256 /\ forall target b,
     verify_solution v header_bytes sol target height = Ok b -> b = (hit <=? target)) /\
  (forall seed, length (generate_indices v seed (n_for_height height)) = Z.to_nat (av_k v) /\
     Forall (fun i => 0 <= i < n_for_height height)
       (generate_indices v seed (n_for_height height))).
Proof.
  unfold verify_solution. split; [intros target|split; [|intros seed; split]].
  - destruct (Nat.eqb_spec (length (nonce sol)) 8) as [->|Hn]; cbn [negb is_ok].
    + destruct (ec_serialize (miner_pk sol)); cbn [ok_or rbind is_ok];
        split; intros Hx; try done; try (by split; [|eexists]); by destruct Hx as [_ []].
    + split; [done|]. by intros [? _].
  - destruct (ec_serialize (miner_pk sol)) as [pk|] eqn:Epk.
    + exists (be_val (calculate_hit (calculate_f_sum (generate_indices v
        (calculate_seed (calculate_msg header_bytes (nonce sol)) pk) (n_for_height height))
        (calculate_msg header_bytes (nonce sol)) pk))).
      split.
      * pose proof (be_val_range (calculate_hit (calculate_f_sum (generate_indices v
          (calculate_seed (calculate_msg header_bytes (nonce sol)) pk) (n_for_height height))
          (calculate_msg header_bytes (nonce sol)) pk)) (blake2b256_ok _)) as Hr.
        unfold calculate_hit in *. rewrite blake2b256_length in Hr. lia.
      * intros target b. destruct (negb _); cbn [ok_or rbind]; [done|]. by intros [= <-].
    + exists 0. split; [lia|]. intros target b. by destruct (negb _).
  - unfold generate_indices. by rewrite length_fmap, length_seq.
  - unfold generate_indices. apply Forall_fmap, Forall_forall. intros i _. cbn.
    apply Z.mod_pos_bound, n_for_height_pos.
Qed.
End Pow.

Module Example.
Import Toy.

Lemma nbits_truncation_witness :
  nbits_to_target (target_to_nbits 0x123456789a) <= 0x123456789a.
Proof. apply (nbits_truncation 0x123456789a). lia. Defined.

Lemma nbits_roundtrip_witness :
  target_to_nbits (nbits_to_target (Z.lor (Z.shiftl 0x1b 24) 0x0404cb))
  = Z.lor (Z.shiftl 0x1b 24) 0x0404cb.
Proof. apply (nbits_roundtrip 0x1b 0x0404cb); lia. Defined.

Lemma small_target_inflated_witness : nbits_to_target (target_to_nbits 1) = 65536.
Proof. apply (small_target_inflated 1). lia. Defined.

Lemma verify_solution_decides_witness :
  let sol := mkAutolykosSolution (0 : EcPoint) None (replicate 8 0) None in
  is_ok (verify_solution AutolykosV2_new [1] sol 5 1) = true.
Proof.
  intros sol. apply (verify_solution_decides AutolykosV2_new [1] sol 1). by split; [|eexists].
Defined.

End Example.
