(* ===== verification/Difficulty.v ===== *)
(** * Difficulty adjustment (crates/ergo-consensus/src/difficulty.rs)

    The difficulty of the next block from the recent headers: inherited inside
    an epoch, recomputed by a linear regression over the timestamps at an epoch
    boundary.  The regression runs on [Float64]; target arithmetic is exact. *)

From S2P Require Export Float64 Autolykos.

Local Open Scope Z_scope.

Definition BLOCK_INTERVAL_SECS : Z := 120.
Definition EPOCH_LENGTH : Z := 1024.
Definition DIFFICULTY_EPOCHS : Z := 8.
Definition MAX_DIFFICULTY_CHANGE : f64 := f64_of_Z 2.
(** [f64::EPSILON], [2^-52]. *)
Definition EPSILON : f64 := f64_div f64_one (f64_of_Z (2 ^ 52)).

Record HeaderForDifficulty := mkHeaderForDifficulty {
  hd_height : Z; hd_timestamp : Z; hd_n_bits : Z }.

Record DifficultyAdjustment := mkDifficultyAdjustment {
  target_interval_ms : Z;
  epoch_length : Z;
  use_epochs : Z
}.

Definition DifficultyAdjustment_new : DifficultyAdjustment :=
  mkDifficultyAdjustment (BLOCK_INTERVAL_SECS * 1000) EPOCH_LENGTH DIFFICULTY_EPOCHS.

(** The four sums of the regression: x, y, x*y, x*x. *)
Definition regression_sums (headers : list HeaderForDifficulty) : f64 * f64 * f64 * f64 :=
  fold_left (fun '(sum_x, sum_y, sum_xy, sum_x2) header =>
    let x := f64_of_Z (hd_height header) in
    let y := f64_of_Z (hd_timestamp header) in
    (f64_add sum_x x, f64_add sum_y y, f64_add sum_xy (f64_mul x y),
     f64_add sum_x2 (f64_mul x x))) headers (f64_zero, f64_zero, f64_zero, f64_zero).

(** The clamped ratio between the wanted and the measured block time. *)
Definition regression_adjustment (d : DifficultyAdjustment) (headers : list HeaderForDifficulty)
    : result f64 ConsensusError :=
  let n := f64_of_Z (Z.of_nat (length headers)) in
  if f64_ltb n (f64_of_Z 2) then Err (InvalidDifficulty "headers" "at least 2 headers")
  else
    let '(sum_x, sum_y, sum_xy, sum_x2) := regression_sums headers in
    let denominator := f64_sub (f64_mul n sum_x2) (f64_mul sum_x sum_x) in
    if f64_ltb (f64_abs denominator) EPSILON then
      Err (InvalidDifficulty "degenerate data" "non-degenerate header timestamps")
    else
      let slope := f64_div (f64_sub (f64_mul n sum_xy) (f64_mul sum_x sum_y)) denominator in
      let target := f64_of_Z (target_interval_ms d) in
      let adjustment := f64_div target slope in
      Ok (f64_clamp adjustment (f64_div f64_one MAX_DIFFICULTY_CHANGE) MAX_DIFFICULTY_CHANGE).

(** The target scaled by a clamped ratio. *)
Definition adjust_target (current_target : Z) (clamped : f64) : Z :=
  if f64_ltb f64_one clamped then
    let divisor := f64_to_u64 (f64_mul clamped (f64_of_Z 1000)) in
    current_target * 1000 / divisor
  else
    let multiplier := f64_to_u64 (f64_div (f64_of_Z 1000) clamped) in
    current_target * multiplier / 1000.

Definition linear_regression_difficulty `{BigUintBytes} (d : DifficultyAdjustment)
    (headers : list HeaderForDifficulty) : result Z ConsensusError :=
  let? clamped := regression_adjustment d headers in
  let current_nbits := match last headers with Some h => hd_n_bits h | None => 0 end in
  let current_target := nbits_to_target current_nbits in
  let new_target := adjust_target current_target clamped in
  Ok (target_to_nbits new_target).

Definition calculate_next_difficulty `{BigUintBytes} (d : DifficultyAdjustment)
    (headers : list HeaderForDifficulty) (next_height : Z) : result Z ConsensusError :=
  if next_height <=? epoch_length d then
    Ok (match head headers with Some h => hd_n_bits h | None => 0x1f00ffff end)
  else if negb (next_height mod epoch_length d =? 0) then
    ok_or (hd_n_bits <$> last headers) (InvalidDifficulty "no headers" "at least one header")
  else linear_regression_difficulty d headers.

Definition calculate_required_difficulty `{BigUintBytes}
    (headers : list HeaderForDifficulty) (next_height : Z) : result Z ConsensusError :=
  calculate_next_difficulty DifficultyAdjustment_new headers next_height.

(** ** Lemmas *)

Lemma few_headers n : (n < 2)%nat -> f64_ltb (f64_of_Z (Z.of_nat n)) (f64_of_Z 2) = true.
Proof. intros H. destruct n as [|[|n]]; [reflexivity|reflexivity|lia]. Qed.

(** * Properties *)

(** the required difficulty follows the epoch rule: the oldest header's
    bits (or the default) in the first epoch, the previous block's bits inside
    an epoch, where an empty history is an error, and the regression at a
    boundary, which needs two headers; no other bits are ever required. *)
Theorem required_difficulty_branches `{BigUintBytes} headers next_height :
  0 <= next_height ->
  (next_height <= EPOCH_LENGTH ->
     calculate_required_difficulty headers next_height =
     Ok (match headers with h :: _ => hd_n_bits h | [] => 0x1f00ffff end)) /\
  (EPOCH_LENGTH < next_height -> next_height mod EPOCH_LENGTH <> 0 ->
     (forall hs h, headers = hs ++ [h] ->
        calculate_required_difficulty headers next_height = Ok (hd_n_bits h)) /\
     (headers = [] -> is_ok (calculate_required_difficulty headers next_height) = false)) /\
  (EPOCH_LENGTH < next_height -> next_height mod EPOCH_LENGTH = 0 ->
     ((length headers < 2)%nat ->
        is_ok (calculate_required_difficulty headers next_height) = false) /\
     (forall bits, calculate_required_difficulty headers next_height = Ok bits ->
        exists hs h c, headers = hs ++ [h] /\
          regression_adjustment DifficultyAdjustment_new headers = Ok c /\
          bits = target_to_nbits (adjust_target (nbits_to_target (hd_n_bits h)) c))).
Proof.
  intros Hh. unfold calculate_required_difficulty, calculate_next_difficulty.
  cbn [DifficultyAdjustment_new epoch_length]. unfold EPOCH_LENGTH.
  destruct (Z.leb_spec next_height 1024) as [Hle|Hgt]; split.
  - intros _. by destruct headers.
  - split; intros; lia.
  - intros; lia.
  - split; intros _ Hmod.
    + destruct (Z.eqb_spec (next_height mod 1024) 0); [done|]. cbn [negb]. split.
      * intros hs h ->. by rewrite last_snoc.
      * by intros ->.
    + rewrite Hmod. cbn [negb Z.eqb]. unfold linear_regression_difficulty. split.
      * intros Hlen. unfold regression_adjustment. by rewrite few_headers.
      * intros bits (c & Hc & [= <-])%rbind_ok.
        destruct headers as [|h hs _] using rev_ind; [done|].
        exists hs, h, c. by rewrite last_snoc.
Qed.

Module Example.
Import Toy.

Definition header (h t : Z) : HeaderForDifficulty := mkHeaderForDifficulty h t 0x1b0404cb.

Lemma required_difficulty_branches_witness :
  calculate_required_difficulty [header 1025 0; header 1026 120000] 1027 = Ok 0x1b0404cb.
Proof.
  destruct (required_difficulty_branches [header 1025 0; header 1026 120000] 1027)
    as (_ & H & _); [lia|].
  destruct H as [H _]; [unfold EPOCH_LENGTH; lia|unfold EPOCH_LENGTH; done|].
  apply (H [header 1025 0] (header 1026 120000)). done.
Defined.

(** Blocks on schedule keep their target; too fast ones halve it. *)
Lemma on_schedule :
  calculate_required_difficulty ((fun i => header i (i * 120000)) <$> [1024; 1200; 1800; 2047]) 2048
  = Ok 0x1b0404cb.
Proof. vm_compute. reflexivity. Qed.

Lemma too_fast :
  nbits_to_target 0x1b0404cb / 2 =
  nbits_to_target (from_ok 0 (calculate_required_difficulty
    ((fun i => header i (i * 1000)) <$> [1024; 1200; 1800; 2047]) 2048)) + 2 ^ (8 * 24 - 1).
Proof. vm_compute. reflexivity. Qed.

End Example.
