(* ===== verification/TxValidation.v ===== *)
(** * Transaction validation (crates/ergo-consensus/src/tx_validation.rs)

    Storage-rent spending, script verification of every input with its cost,
    existence of inputs, and conservation of tokens and coins.  The script
    interpreter is a parameter; so is the iteration order of a [HashMap]. *)

From S2P Require Export ErgoTypes ChainParams.

Local Open Scope Z_scope.

Definition STORAGE_PERIOD : Z := 1051200.
Definition STORAGE_EXTENSION_INDEX : Z := 127.
Definition DEFAULT_STORAGE_FEE_FACTOR : Z := 1250000.

(** [iter().sum::<u64>()]. *)
Definition sum_u64 (l : list Z) : Z := fold_left (fun acc z => u64 (acc + z)) l 0.

(** A running [u64] sum per token. *)
Definition add_token (m : gmap bytes Z) (t : bytes * Z) : gmap bytes Z :=
  <[t.1 := u64 (match m !! t.1 with Some a => a | None => 0 end + t.2)]> m.

Section TxValidation.
Context {ErgoBox Ext Tx PreHeader : Type}
  `{ErgoBoxOps ErgoBox} `{ExtensionOps Ext} `{TransactionOps ErgoBox Ext Tx} `{ChainTypes}.

(** ** Storage rent *)

(** The registers other than R0 and R3 agree. *)
Definition registers_preserved (input output : ErgoBox) : bool :=
  forallb (fun reg_id =>
    if (reg_id =? 0) || (reg_id =? 3) then true
    else bool_decide (box_register input reg_id = box_register output reg_id))
    (seqZ 0 10).

Definition check_storage_rent_conditions (input_box : ErgoBox) (extension : Ext)
    (outputs : list ErgoBox) (current_height : Z) : bool :=
  let box_age := sat_sub current_height (box_creation_height input_box) in
  if box_age <? STORAGE_PERIOD then false
  else match ext_i16 extension STORAGE_EXTENSION_INDEX with
  | Some (Some output_idx) =>
      if output_idx <? 0 then false
      else match outputs !! Z.to_nat output_idx with
      | None => false
      | Some output =>
          match box_serialize input_box with
          | None => false
          | Some box_bytes =>
              let storage_fee := u64 (Z.of_nat (length box_bytes) * DEFAULT_STORAGE_FEE_FACTOR) in
              let input_value := box_value input_box in
              if input_value <=? storage_fee then true
              else if negb (box_creation_height output =? current_height) then false
              else
                let output_value := box_value output in
                let min_output_value := sat_sub input_value storage_fee in
                if output_value <? min_output_value then false
                else registers_preserved input_box output
          end
      end
  | _ => false
  end.

(** ** Script verification *)

(** What a script sees. *)
Record ScriptContext := mkScriptContext {
  ctx_height : Z;
  ctx_self_box : ErgoBox;
  ctx_outputs : list ErgoBox;
  ctx_data_inputs : option (list ErgoBox);
  ctx_inputs : list ErgoBox;
  ctx_pre_header : PreHeader;
  ctx_headers : list Header;
  ctx_extension : Ext;
  ctx_extensions : list Ext
}.

(** The interpreter: verifies a proof of the script of a box over a message;
    the verdict and its cost, or an evaluation error. *)
Context (script_verify : ErgoBox -> ScriptContext -> bytes -> bytes -> option (bool * Z)).
(** The most elements a [TxIoVec] holds. *)
Context (tx_io_max : nat).

Record TxVerificationResult := mkTxVerificationResult {
  tvr_valid : bool;
  tvr_script_cost : Z;
  tvr_total_cost : Z;
  tvr_error : option string
}.

Record TxVerifier := mkTxVerifier {
  tv_height : Z;
  tv_pre_header : PreHeader;
  tv_headers : list Header
}.

(** [Vec::try_into::<TxIoVec<_>>()]. *)
Definition tx_io_vec {A} (l : list A) : option (list A) :=
  if ((1 <=? length l) && (length l <=? tx_io_max))%nat then Some l else None.

(** One turn of the loop of [verify_tx]: the new script cost, or the result
    the function returns early. *)
Definition verify_input (v : TxVerifier) (tx : Tx) (base_cost : Z) (inputs : list ErgoBox)
    (data_inputs : option (list ErgoBox)) (script_cost : Z) (p : TxInput Ext * ErgoBox)
    : result Z TxVerificationResult :=
  let '(input, input_box) := p in
  let proof := ti_proof input in
  let extension := ti_extension input in
  let outputs := tx_outputs tx in
  let ctx := mkScriptContext (tv_height v) input_box outputs data_inputs inputs
               (tv_pre_header v) (tv_headers v) extension (ti_extension <$> tx_inputs tx) in
  match tx_bytes_to_sign tx with
  | None => Err (mkTxVerificationResult false 0 base_cost (Some "Failed to get bytes to sign"))
  | Some message =>
      if bool_decide (proof = []) &&
         check_storage_rent_conditions input_box extension outputs (tv_height v)
      then Ok script_cost
      else
        match script_verify input_box ctx proof message with
        | Some (verdict, cost) =>
            let script_cost := u64 (script_cost + cost) in
            let current_total := sat_add 64 base_cost script_cost in
            if current_total >? MAX_TX_COST then
              Err (mkTxVerificationResult false script_cost current_total
                     (Some "Transaction cost exceeds limit"))
            else if negb verdict then
              Err (mkTxVerificationResult false script_cost (sat_add 64 base_cost script_cost)
                     (Some "Script verification failed for input"))
            else Ok script_cost
        | None =>
            Err (mkTxVerificationResult false script_cost (sat_add 64 base_cost script_cost)
                   (Some "Script error for input"))
        end
  end.

(** The costs counted before any script runs. *)
Definition tx_base_cost (tx : Tx) : Z :=
  calculate_base_cost (Z.of_nat (length (tx_inputs tx))) (Z.of_nat (length (tx_outputs tx)))
    (match tx_data_inputs tx with Some di => Z.of_nat (length di) | None => 0 end)
    (match tx_serialize tx with Some b => Z.of_nat (length b) | None => 0 end).

Definition verify_tx (v : TxVerifier) (tx : Tx) (input_boxes data_input_boxes : list ErgoBox)
    : TxVerificationResult :=
  let base_cost := tx_base_cost tx in
  match (match data_input_boxes with
         | [] => Some None
         | _ => Some <$> tx_io_vec data_input_boxes
         end) with
  | None => mkTxVerificationResult false 0 base_cost (Some "Invalid number of data inputs")
  | Some data_inputs =>
      match tx_io_vec input_boxes with
      | None => mkTxVerificationResult false 0 base_cost (Some "Invalid number of inputs")
      | Some inputs =>
          match rfold (verify_input v tx base_cost inputs data_inputs) 0
                  (zip (tx_inputs tx) input_boxes) with
          | Err early => early
          | Ok script_cost =>
              mkTxVerificationResult true script_cost (sat_add 64 base_cost script_cost) None
          end
      end
  end.

(** ** Existence of inputs *)

Definition validate_inputs_exist (tx : Tx) (utxo_lookup : bytes -> option ErgoBox)
    : result (list ErgoBox) ConsensusError :=
  rmap (fun '(idx, input) =>
    ok_or (utxo_lookup (ti_box_id input))
      (MissingInput (tx_id tx) (Z.of_nat idx) (ti_box_id input)))
    (zip (seq 0 (length (tx_inputs tx))) (tx_inputs tx)).

Definition validate_data_inputs_exist (tx : Tx) (utxo_lookup : bytes -> option ErgoBox)
    : result (list ErgoBox) ConsensusError :=
  match tx_data_inputs tx with
  | None => Ok []
  | Some data_inputs =>
      rmap (fun '(idx, id) =>
        ok_or (utxo_lookup id) (MissingDataInput (tx_id tx) (Z.of_nat idx) id))
        (zip (seq 0 (length data_inputs)) data_inputs)
  end.

(** ** Conservation *)

(** The order in which a [HashMap] of token amounts is iterated. *)
Context (map_iter : gmap bytes Z -> list (bytes * Z)).

Definition collect_tokens (boxes : list ErgoBox) : gmap bytes Z :=
  fold_left (fun m b => fold_left add_token (box_tokens b) m) boxes ∅.

Definition validate_token_conservation (tx : Tx) (input_boxes : list ErgoBox) (is_coinbase : bool)
    : result unit ConsensusError :=
  let input_tokens := collect_tokens input_boxes in
  let output_tokens := collect_tokens (tx_outputs tx) in
  let mintable_token_id :=
    match input_boxes with
    | b :: _ => if is_coinbase then None else Some (box_id b)
    | [] => None
    end in
  rfold (fun _ '(token_id, output_amount) =>
    let input_amount := match input_tokens !! token_id with Some a => a | None => 0 end in
    if output_amount >? input_amount then
      guard? bool_decide (mintable_token_id = Some token_id)
        else InvalidTokenAmount token_id input_amount output_amount in Ok tt
    else Ok tt) tt (map_iter output_tokens).

Definition validate_erg_conservation (tx : Tx) (input_boxes : list ErgoBox)
    : result Z ConsensusError :=
  let input_sum := sum_u64 (box_value <$> input_boxes) in
  let output_sum := sum_u64 (box_value <$> tx_outputs tx) in
  if output_sum >? input_sum then Err (InsufficientFunds input_sum output_sum)
  else let fee := input_sum - output_sum in Ok fee.

End TxValidation.

Arguments ScriptContext : clear implicits.
Arguments ScriptContext ErgoBox Ext PreHeader {_}.
Arguments TxVerifier : clear implicits.
Arguments TxVerifier PreHeader {_}.

(** ** Lemmas *)

Lemma sum_u64_spec l : sum_u64 l = u64 (sumZ l).
Proof.
  unfold sum_u64. assert (forall acc, 0 <= acc < 2 ^ 64 ->
    fold_left (fun acc z => u64 (acc + z)) l acc = u64 (acc + sumZ l)) as Hg.
  { induction l as [|x l IH]; intros acc Hacc; cbn [fold_left sumZ].
    - rewrite Z.add_0_r. symmetry. by apply u64_id.
    - rewrite IH by apply u64_range. unfold wrap. rewrite Zplus_mod_idemp_l. f_equal. lia. }
  by rewrite Hg.
Qed.

(** The exact amount of a token in a list of token entries. *)
Definition token_total (id : bytes) (ts : list (bytes * Z)) : Z :=
  sumZ ((fun t => if decide (t.1 = id) then t.2 else 0) <$> ts).

Lemma add_token_total ts m id :
  (forall a, m !! id = Some a -> 0 <= a < 2 ^ 64) ->
  let amount m := match (m : gmap bytes Z) !! id with Some a => a | None => 0 end in
  amount (fold_left add_token ts m) = u64 (amount m + token_total id ts).
Proof.
  cbn zeta. revert m. induction ts as [|t ts IH]; intros m Hm; cbn [fold_left].
  - unfold token_total. cbn. rewrite Z.add_0_r. symmetry. apply u64_id.
    destruct (m !! id) as [a|] eqn:E; [by apply Hm|lia].
  - rewrite IH.
    + unfold add_token, token_total. cbn [fmap list_fmap sumZ]. destruct (decide (t.1 = id)) as [<-|Hne].
      * rewrite lookup_insert_eq. unfold wrap. rewrite Zplus_mod_idemp_l. f_equal. lia.
      * rewrite lookup_insert_ne by done. done.
    + intros a. unfold add_token. destruct (decide (t.1 = id)) as [<-|Hne].
      * rewrite lookup_insert_eq. intros [= <-]. apply u64_range.
      * rewrite lookup_insert_ne by done. apply Hm.
Qed.

Section Facts.
Context {ErgoBox : Type} `{ErgoBoxOps ErgoBox}.

Definition tokens_of (boxes : list ErgoBox) : list (bytes * Z) := boxes ≫= box_tokens.

Lemma collect_tokens_flat (boxes : list ErgoBox) :
  collect_tokens boxes = fold_left add_token (tokens_of boxes) ∅.
Proof.
  unfold collect_tokens, tokens_of. generalize (∅ : gmap bytes Z).
  induction boxes as [|b boxes IH]; intros m; [done|].
  cbn [fold_left]. rewrite bind_cons, fold_left_app. apply IH.
Qed.

Lemma collect_tokens_amount (boxes : list ErgoBox) id :
  match collect_tokens boxes !! id with Some a => a | None => 0 end
  = u64 (token_total id (tokens_of boxes)).
Proof.
  rewrite collect_tokens_flat. pose proof (add_token_total (tokens_of boxes) ∅ id) as Ht.
  cbn beta zeta in Ht. rewrite Ht; [by rewrite lookup_empty|]. intros a. by rewrite lookup_empty.
Qed.

Lemma collect_tokens_lookup (boxes : list ErgoBox) id a :
  collect_tokens boxes !! id = Some a -> a = u64 (token_total id (tokens_of boxes)).
Proof. intros E. rewrite <- collect_tokens_amount, E. done. Qed.
End Facts.

(** The loop over the inputs, in terms of one input: it succeeds only when
    every input does, and the cost it returns is the last checked one. *)
Section VerifyFacts.
Context {ErgoBox Ext Tx PreHeader : Type}
  `{ErgoBoxOps ErgoBox} `{ExtensionOps Ext} `{TransactionOps ErgoBox Ext Tx} `{ChainTypes}.
Context (script_verify : ErgoBox -> ScriptContext ErgoBox Ext PreHeader -> bytes -> bytes
           -> option (bool * Z)).

(** An input may be spent: by storage rent with an empty proof, or because its
    script accepts the proof over the signed bytes. *)
Definition rent_spend (v : TxVerifier PreHeader) (tx : Tx) (p : TxInput Ext * ErgoBox) : Prop :=
  ti_proof p.1 = [] /\
  check_storage_rent_conditions p.2 (ti_extension p.1) (tx_outputs tx) (tv_height v) = true.





End VerifyFacts.


(** ** Sums in [u64] *)

(** The comparison of the checks: it is exact unless what is compared with the
    inputs reaches [2^64]. *)
Lemma u64_covers a b : 0 <= a -> 0 <= b < 2 ^ 64 -> u64 b <= u64 a -> b <= a.
Proof. intros Ha Hb. rewrite (u64_id b) by done. pose proof (Z.mod_le a (2 ^ 64) Ha). unfold wrap. lia. Qed.

Section ConservationFacts.
Context {ErgoBox Ext Tx : Type} `{ErgoBoxOps ErgoBox} `{TransactionOps ErgoBox Ext Tx}.

(** The token a transaction may mint: never in the first of a block. *)
Definition mintable (inputs : list ErgoBox) (is_coinbase : bool) (id : bytes) : Prop :=
  is_coinbase = false /\ box_id <$> head inputs = Some id.

Lemma erg_check_spec (tx : Tx) (inputs : list ErgoBox) fee :
  validate_erg_conservation tx inputs = Ok fee <->
  0 <= fee /\ u64 (sumZ (box_value <$> tx_outputs tx)) + fee = u64 (sumZ (box_value <$> inputs)).
Proof.
  unfold validate_erg_conservation. rewrite !sum_u64_spec.
  destruct (_ >? _) eqn:E; zify_bool; split; try lia; try done.
  - intros [= <-]. lia.
  - intros [? ?]. f_equal. lia.
Qed.

Lemma data_inputs_check_spec (tx : Tx) (utxo_lookup : bytes -> option ErgoBox) :
  is_ok (validate_data_inputs_exist tx utxo_lookup) = true <->
  Forall (fun id => is_Some (utxo_lookup id)) (default [] (tx_data_inputs tx)).
Proof.
  unfold validate_data_inputs_exist. destruct (tx_data_inputs tx) as [ids|]; cbn [from_option id]; [|by split; [constructor|]].
  generalize 0%nat as n. induction ids as [|id ids IH]; intros n; cbn [length seq zip zip_with rmap]; [by split; [constructor|]|].
  rewrite Forall_cons. specialize (IH (S n)). destruct (utxo_lookup id) as [b|]; cbn [ok_or rbind].
  - rewrite <- IH. destruct (rmap _ _); cbn; naive_solver.
  - split; [done|]. by intros [[? ?] _].
Qed.

Lemma token_check_spec (map_iter : gmap bytes Z -> list (bytes * Z)) (tx : Tx) inputs is_coinbase :
  (forall m, map_iter m ≡ₚ map_to_list m) ->
  is_ok (validate_token_conservation map_iter tx inputs is_coinbase) = true <->
  forall id, ~ mintable inputs is_coinbase id ->
    u64 (token_total id (tokens_of (tx_outputs tx))) <= u64 (token_total id (tokens_of inputs)).
Proof.
  intros Hiter. unfold validate_token_conservation.
  set (mint := match inputs with b :: _ => if is_coinbase then None else Some (box_id b) | [] => None end).
  assert (forall id, mint = Some id <-> mintable inputs is_coinbase id) as Hmint.
  { intros id. subst mint. unfold mintable. destruct inputs as [|b inputs], is_coinbase; cbn; naive_solver. }
  rewrite rfold_unit. split.
  - intros Hall id Hid.
    destruct (collect_tokens (tx_outputs tx) !! id) as [a|] eqn:Ea.
    + specialize (Hall (id, a)). rewrite Hiter, elem_of_map_to_list in Hall. specialize (Hall Ea).
      cbn in Hall. rewrite collect_tokens_amount in Hall. rewrite <- (collect_tokens_lookup _ _ _ Ea).
      destruct (a >? _) eqn:Eg; zify_bool; [|lia].
      destruct (bool_decide (mint = Some id)) eqn:Em; [|done].
      apply bool_decide_eq_true in Em. by apply Hmint in Em.
    + pose proof (collect_tokens_amount (tx_outputs tx) id) as Hz. rewrite Ea in Hz.
      rewrite <- Hz. apply u64_range.
  - intros Hall [id a]. rewrite Hiter, elem_of_map_to_list. intros Ea.
    rewrite collect_tokens_amount. destruct (a >? _) eqn:Eg; [|done]. zify_bool.
    destruct (bool_decide (mint = Some id)) eqn:Em; [done|]. exfalso.
    apply bool_decide_eq_false in Em. rewrite (collect_tokens_lookup _ _ _ Ea) in Eg.
    specialize (Hall id). rewrite <- Hmint in Hall. specialize (Hall Em). lia.
Qed.

(** The token named by the error of a refused transaction. *)
Lemma token_check_error (map_iter : gmap bytes Z -> list (bytes * Z)) (tx : Tx) inputs is_coinbase e :
  (forall m, map_iter m ≡ₚ map_to_list m) ->
  validate_token_conservation map_iter tx inputs is_coinbase = Err e ->
  exists id, ~ mintable inputs is_coinbase id /\
    let paid := u64 (token_total id (tokens_of inputs)) in
    let asked := u64 (token_total id (tokens_of (tx_outputs tx))) in
    paid < asked /\ e = InvalidTokenAmount id paid asked.
Proof.
  intros Hiter. unfold validate_token_conservation.
  assert (forall p, p ∈ map_iter (collect_tokens (tx_outputs tx)) ->
    p.2 = u64 (token_total p.1 (tokens_of (tx_outputs tx)))) as Hval.
  { intros [id a]. rewrite Hiter, elem_of_map_to_list. apply collect_tokens_lookup. }
  revert Hval. generalize (map_iter (collect_tokens (tx_outputs tx))) as l.
  induction l as [|[id a] l IH]; intros Hval; cbn [rfold]; [done|]. rewrite rbind_err. intros [Hone|(? & _ & Hl)].
  - rewrite collect_tokens_amount in Hone. destruct (a >? _) eqn:Eg; [|done].
    destruct (bool_decide _) eqn:Em; [done|]. injection Hone as <-. apply bool_decide_eq_false in Em.
    pose proof (Hval (id, a) ltac:(left)) as Ha. cbn [fst snd] in Ha. subst a. zify_bool.
    exists id. split; [|by split; [lia|]]. intros [-> Hh]. destruct inputs; [done|]. by injection Hh as <-.
  - apply IH; [|by destruct x]. intros p Hp. apply Hval. by right.
Qed.
End ConservationFacts.

(** * Properties *)

Section Spec.
Context {ErgoBox Ext Tx PreHeader : Type}
  `{ErgoBoxOps ErgoBox} `{ExtensionOps Ext} `{TransactionOps ErgoBox Ext Tx} `{ChainTypes}.

(** C13: token conservation, whatever the iteration order of the map: a
    transaction passes exactly when for every token it may not mint the amount
    in the outputs is at most the amount in the inputs, both reduced modulo
    [2^64]; so, when no amount reaches [2^64], exactly when no such token is
    created.  The token it may mint has the identifier of the first input; the
    first transaction of a block mints none.  The error names a token that is
    created, with its amounts. *)
Theorem token_conservation_decides (map_iter : gmap bytes Z -> list (bytes * Z))
    (tx : Tx) (inputs : list ErgoBox) (is_coinbase : bool) :
  (forall m, map_iter m ≡ₚ map_to_list m) ->
  let paid id := token_total id (tokens_of inputs) in
  let asked id := token_total id (tokens_of (tx_outputs tx)) in
  let check := validate_token_conservation map_iter tx inputs is_coinbase in
  (is_ok check = true <-> forall id, ~ mintable inputs is_coinbase id -> u64 (asked id) <= u64 (paid id)) /\
  ((forall id, 0 <= paid id < 2 ^ 64 /\ 0 <= asked id < 2 ^ 64) ->
     is_ok check = true <-> forall id, ~ mintable inputs is_coinbase id -> asked id <= paid id) /\
  (forall e, check = Err e -> exists id, ~ mintable inputs is_coinbase id /\
     u64 (paid id) < u64 (asked id) /\ e = InvalidTokenAmount id (u64 (paid id)) (u64 (asked id))).
Proof.
  intros Hiter paid asked check. pose proof (token_check_spec map_iter tx inputs is_coinbase Hiter) as Hs.
  split; [exact Hs|]. split; [|intros e; by apply token_check_error].
  intros Hr. unfold check. rewrite Hs.
  split; intros Hall id Hid; specialize (Hall id Hid); destruct (Hr id) as [Hp Ha];
    rewrite !u64_id in * by done; exact Hall.
Qed.

(** coins are conserved when the exact sums fit in [u64]: the check
    returns a fee exactly when the outputs and that fee add up to the
    inputs. *)
Theorem erg_conserved (tx : Tx) (inputs : list ErgoBox) fee :
  0 <= sumZ (box_value <$> inputs) < 2 ^ 64 ->
  0 <= sumZ (box_value <$> tx_outputs tx) < 2 ^ 64 ->
  validate_erg_conservation tx inputs = Ok fee <->
  0 <= fee /\ sumZ (box_value <$> tx_outputs tx) + fee = sumZ (box_value <$> inputs).
Proof.
  intros Hi Ho. unfold validate_erg_conservation. rewrite !sum_u64_spec, !u64_id by lia.
  destruct (_ >? _) eqn:E; zify_bool; split; try lia.
  - done.
  - intros [= <-]. lia.
  - intros [? ?]. f_equal. lia.
Qed.

(** nothing bounds the sum of the outputs, so it wraps: a transaction
    whose outputs exceed its inputs by exactly [2^64] passes with no fee. *)
Theorem erg_overflow_accepted (tx : Tx) (inputs : list ErgoBox) :
  0 <= sumZ (box_value <$> inputs) < 2 ^ 64 ->
  sumZ (box_value <$> tx_outputs tx) = sumZ (box_value <$> inputs) + 2 ^ 64 ->
  validate_erg_conservation tx inputs = Ok 0.
Proof.
  intros Hi Ho. unfold validate_erg_conservation. rewrite !sum_u64_spec, Ho.
  rewrite (u64_id (sumZ (box_value <$> inputs))) by lia.
  assert (u64 (sumZ (box_value <$> inputs) + 2 ^ 64) = sumZ (box_value <$> inputs)) as ->.
  { unfold wrap. rewrite <- (Z.mod_small (sumZ (box_value <$> inputs)) (2 ^ 64)) at 2 by lia.
    rewrite <- (Z.mul_1_l (2 ^ 64)) at 1. by rewrite Z.mod_add. }
  rewrite Z.gtb_ltb, Z.ltb_irrefl. f_equal. lia.
Qed.

(** a box spent by storage rent is at least [STORAGE_PERIOD] blocks old,
    and its contract names an output that, unless the fee consumes the box,
    is created now, keeps the value less the fee and every register but R0 and
    R3. *)
Theorem storage_rent_sound (b : ErgoBox) (ext : Ext) outputs height :
  0 <= box_creation_height b ->
  check_storage_rent_conditions b ext outputs height = true ->
  height - box_creation_height b >= STORAGE_PERIOD /\
  exists idx out bs, ext_i16 ext STORAGE_EXTENSION_INDEX = Some (Some idx) /\ 0 <= idx /\
    outputs !! Z.to_nat idx = Some out /\ box_serialize b = Some bs /\
    let fee := u64 (Z.of_nat (length bs) * DEFAULT_STORAGE_FEE_FACTOR) in
    (box_value b <= fee \/
     (box_creation_height out = height /\ box_value out >= box_value b - fee /\
      forall r, 0 <= r < 10 -> r <> 0 -> r <> 3 -> box_register b r = box_register out r)).
Proof.
  intros Hc. unfold check_storage_rent_conditions, sat_sub.
  destruct (_ <? STORAGE_PERIOD) eqn:Ea; [done|].
  destruct (ext_i16 ext STORAGE_EXTENSION_INDEX) as [[idx|]|]; [|done|done].
  destruct (idx <? 0) eqn:Ei; [done|].
  destruct (outputs !! Z.to_nat idx) as [out|] eqn:Eo; [|done].
  destruct (box_serialize b) as [bs|]; [|done]. intros Hrest. zify_bool.
  split; [unfold STORAGE_PERIOD in *; lia|].
  exists idx, out, bs. repeat split; [lia|done|]. cbn zeta.
  set (fee := u64 _) in *. destruct (_ <=? fee) eqn:Ef; zify_bool; [by left|right].
  destruct (box_creation_height out =? height) eqn:Eh; [|done]. cbn [negb] in Hrest. zify_bool.
  destruct (box_value out <? _) eqn:Ev; [done|]. zify_bool.
  split; [done|]. split; [lia|]. intros r Hr Hr0 Hr3.
  unfold registers_preserved in Hrest. rewrite forallb_forall in Hrest.
  specialize (Hrest r). rewrite <- list_elem_of_In, elem_of_seqZ in Hrest. specialize (Hrest Hr).
  destruct (Z.eqb_spec r 0), (Z.eqb_spec r 3); try done. cbn [orb] in Hrest.
  by apply bool_decide_eq_true in Hrest.
Qed.


(** Rent alone makes a transaction valid at any cost. *)
Theorem rent_cost_unlimited
    (script_verify : ErgoBox -> ScriptContext ErgoBox Ext PreHeader -> bytes -> bytes -> option (bool * Z))
    tx_io_max v (tx : Tx) ins message :
  (1 <= length ins <= tx_io_max)%nat -> tx_bytes_to_sign tx = Some message ->
  Forall (rent_spend v tx) (zip (tx_inputs tx) ins) ->
  tvr_valid (verify_tx script_verify tx_io_max v tx ins []) = true /\
  tvr_total_cost (verify_tx script_verify tx_io_max v tx ins []) = sat_add 64 (tx_base_cost tx) 0.
Proof.
  intros Hlen Hm Hr. unfold verify_tx, tx_io_vec.
  rewrite (proj2 (Nat.leb_le 1 (length ins))), (proj2 (Nat.leb_le (length ins) tx_io_max)) by lia. cbn [andb].
  assert (forall data_inputs, rfold (verify_input script_verify v tx (tx_base_cost tx) ins data_inputs) 0
    (zip (tx_inputs tx) ins) = Ok 0) as ->; [|done].
  intros data_inputs. induction Hr as [|[i b] l [Hp Hc] _ IH]; [done|]. cbn [rfold].
  unfold verify_input at 1. rewrite Hm. cbn [fst snd] in *.
  rewrite (bool_decide_true _ Hp), Hc. exact IH.
Qed.

(** resolving inputs returns one box per input, in the order of the
    transaction and as the lookup gives them; it fails exactly when some
    lookup does. *)
Theorem inputs_exist_decides (tx : Tx) (utxo_lookup : bytes -> option ErgoBox) :
  (forall boxes, validate_inputs_exist tx utxo_lookup = Ok boxes ->
     Forall2 (fun i b => utxo_lookup (ti_box_id i) = Some b) (tx_inputs tx) boxes) /\
  (is_ok (validate_inputs_exist tx utxo_lookup) = true <->
     Forall (fun i => is_Some (utxo_lookup (ti_box_id i))) (tx_inputs tx)).
Proof.
  assert (forall boxes, validate_inputs_exist tx utxo_lookup = Ok boxes ->
     Forall2 (fun i b => utxo_lookup (ti_box_id i) = Some b) (tx_inputs tx) boxes) as Hok.
  { intros boxes Hb.
    apply (rmap_indexed (fun idx i => ok_or (utxo_lookup (ti_box_id i)) _)) in Hb.
    eapply Forall2_impl; [exact Hb|]. cbn. intros i b [k Hk].
    destruct (utxo_lookup (ti_box_id i)); cbn in Hk; congruence. }
  split; [exact Hok|]. split.
  - intros Hr. apply from_ok_spec with (d := []) in Hr. apply Hok in Hr.
    eapply Forall2_Forall_l; [exact Hr|]. apply Forall_true. intros; by eexists.
  - clear Hok. unfold validate_inputs_exist. generalize 0%nat as k.
    generalize (MissingInput (tx_id tx)) as err. intros err.
    induction (tx_inputs tx) as [|i tis IH]; intros k Hall; [done|].
    inversion Hall as [|?? [b Hb] Hrest]; subst. cbn [length seq].
    change (zip (k :: ?s) (i :: tis)) with ((k, i) :: zip s tis). cbn [rmap].
    rewrite Hb. cbn [ok_or rbind]. specialize (IH (S k) Hrest).
    apply from_ok_spec with (d := []) in IH. by rewrite IH.
Qed.
End Spec.

Module Example.
Import Toy.

Definition box (i v : Z) (t : option Z) : toy_box := mk_toy_box i v 7 t.
Definition tx1 : toy_tx := mk_toy_tx 9 [1] [] [box 2 60 None; box 3 30 (Some 1)].
(** Its outputs exceed its input by [2^64]. *)
Definition tx2 : toy_tx :=
  mk_toy_tx 9 [1] [] [box 2 (2 ^ 63 - 1) None; box 3 (2 ^ 63 - 1) None; box 4 102 None].

Lemma token_conservation_decides_witness :
  is_ok (validate_token_conservation map_to_list tx1 [box 1 100 None] false) = true.
Proof.
  destruct (token_conservation_decides map_to_list tx1 [box 1 100 None] false) as [[_ Hc] _]; [done|].
  apply Hc. intros id Hid. unfold tokens_of, token_total. cbn -[wrap decide].
  destruct (decide (be_bytes 32 1 = id)) as [<-|Hne].
  - exfalso. apply Hid. by split.
  - apply u64_range.
Defined.

Lemma erg_conserved_witness : validate_erg_conservation tx1 [box 1 100 None] = Ok 10.
Proof. apply (erg_conserved tx1 [box 1 100 None] 10); cbn; lia. Defined.

Lemma erg_overflow_accepted_witness : validate_erg_conservation tx2 [box 1 100 None] = Ok 0.
Proof. apply (erg_overflow_accepted tx2 [box 1 100 None]); cbn; lia. Defined.

Lemma storage_rent_sound_witness :
  2000000 - box_creation_height (box 1 100 None) >= STORAGE_PERIOD.
Proof.
  apply (storage_rent_sound (box 1 100 None) (Some 0) [box 2 60 None] 2000000); [done|].
  vm_compute. reflexivity.
Defined.



End Example.
