(* ===== verification/Validation.v ===== *)
(** * Stateless validators (crates/ergo-consensus/src/validation.rs)

    The default validators of headers, blocks and transactions over the plain
    data records of that file.  The clock is an argument. *)

From S2P Require Export TxValidation.

Local Open Scope Z_scope.

Definition V_MAX_BLOCK_SIZE : Z := 1048576.

Record HeaderData := mkHeaderData {
  hdr_version : Z;
  hdr_parent_id : bytes;
  hdr_transactions_root : bytes;
  hdr_state_root : bytes;
  hdr_timestamp : Z;
  hdr_height : Z;
  hdr_n_bits : Z;
  hdr_votes : bytes
}.

Record TransactionData := mkTransactionData {
  td_id : bytes;
  td_inputs : list bytes;
  td_data_inputs : list bytes;
  td_outputs : list bytes
}.

Record BlockData := mkBlockData {
  bd_header : HeaderData;
  bd_transactions : list TransactionData;
  bd_extension : list (bytes * bytes);
  bd_ad_proofs : option bytes
}.

(** [now_ms]: the milliseconds since the epoch at the time of the call. *)
Definition V_validate_header (now_ms : Z) (header parent : HeaderData) : result unit ConsensusError :=
  if negb (hdr_height header =? u32 (hdr_height parent + 1)) then
    Err (InvalidHeader "Invalid height")
  else if hdr_timestamp header <=? hdr_timestamp parent then
    Err (InvalidTimestamp (hdr_timestamp header) (hdr_timestamp parent))
  else
    let max_future := u64 (now_ms + 20 * 60 * 1000) in
    if hdr_timestamp header >? max_future then
      Err (InvalidHeader "Timestamp too far in future")
    else if (hdr_version header <? 1) || (hdr_version header >? 4) then
      Err (InvalidHeader "Invalid version")
    else Ok tt.

Definition block_size (block : BlockData) : Z :=
  fold_left (fun size tx =>
    let size := size + Z.of_nat (length (td_id tx)) in
    let size := fold_left (fun size i => size + Z.of_nat (length i)) (td_inputs tx) size in
    fold_left (fun size o => size + Z.of_nat (length o)) (td_outputs tx) size)
    (bd_transactions block) 0.

Definition validate_size (block : BlockData) : result unit ConsensusError :=
  let size := block_size block in
  if size >? V_MAX_BLOCK_SIZE then Err (BlockTooLarge size V_MAX_BLOCK_SIZE) else Ok tt.

Definition V_validate_block (block : BlockData) : result unit ConsensusError :=
  let? _ := validate_size block in
  if bool_decide (bd_transactions block = []) then
    Err (InvalidBlock "Block must contain at least one transaction (coinbase)")
  else
    rfold (fun _ '(key, _) =>
      guard? negb (bool_decide (key = [])) else InvalidExtension "Extension key cannot be empty" in
      Ok tt) tt (bd_extension block).

Definition validate_transaction (tx : TransactionData) : result unit ConsensusError :=
  match td_inputs tx, td_outputs tx with
  | [], _ => Err (InvalidTransaction "Transaction must have at least one input")
  | _, [] => Err (InvalidTransaction "Transaction must have at least one output")
  | _, _ =>
      match first_dup [] (td_inputs tx) with
      | Some input => Err (InvalidTransaction "Duplicate input")
      | None => Ok tt
      end
  end.

(** ** Lemmas *)

Lemma fold_size (l : list bytes) n :
  fold_left (fun size i => size + Z.of_nat (length i)) l n = n + Z.of_nat (length (concat l)).
Proof.
  revert n. induction l as [|x l IH]; intros n; cbn [fold_left concat]; [cbn; lia|].
  rewrite IH, length_app. lia.
Qed.

Definition tx_size (tx : TransactionData) : Z :=
  Z.of_nat (length (td_id tx) + length (concat (td_inputs tx)) + length (concat (td_outputs tx))).

Lemma block_size_sum block : block_size block = sumZ (tx_size <$> bd_transactions block).
Proof.
  unfold block_size. assert (forall l n, fold_left (fun size tx =>
    let size := size + Z.of_nat (length (td_id tx)) in
    let size := fold_left (fun size i => size + Z.of_nat (length i)) (td_inputs tx) size in
    fold_left (fun size o => size + Z.of_nat (length o)) (td_outputs tx) size) l n
    = n + sumZ (tx_size <$> l)) as Hg; [|by rewrite Hg].
  induction l as [|tx l IH]; intros n; cbn [fold_left fmap list_fmap sumZ]; [lia|].
  rewrite IH, !fold_size. unfold tx_size. lia.
Qed.

(** * Properties *)

(** the stateless checks accept exactly: a header one above its parent,
    later than it, at most twenty minutes ahead of the clock and of version 1
    to 4; a block of at least one transaction within one mebibyte whose
    extension keys are not empty; and a transaction with inputs and outputs
    and no input twice. *)
Theorem stateless_checks_decide now header parent block tx :
  0 <= now < 2 ^ 63 ->
  (V_validate_header now header parent = Ok tt <->
     hdr_height header = u32 (hdr_height parent + 1) /\
     hdr_timestamp parent < hdr_timestamp header <= now + 1200000 /\
     1 <= hdr_version header <= 4) /\
  (V_validate_block block = Ok tt <->
     sumZ (tx_size <$> bd_transactions block) <= V_MAX_BLOCK_SIZE /\
     bd_transactions block <> [] /\ Forall (fun kv => kv.1 <> []) (bd_extension block)) /\
  (validate_transaction tx = Ok tt <->
     td_inputs tx <> [] /\ td_outputs tx <> [] /\ NoDup (td_inputs tx)).
Proof.
  intros Hnow. split; [|split].
  - unfold V_validate_header. cbv zeta. rewrite (u64_id (now + _)) by lia.
    destruct (hdr_height header =? u32 (hdr_height parent + 1)) eqn:Eh,
      (hdr_timestamp header <=? hdr_timestamp parent) eqn:Et,
      (hdr_timestamp header >? now + 20 * 60 * 1000) eqn:Ef,
      (hdr_version header <? 1) eqn:E1, (hdr_version header >? 4) eqn:E4;
      cbn [negb orb]; zify_bool; split; intros Hx; try done; try lia.
  - unfold V_validate_block, validate_size. rewrite block_size_sum.
    destruct (_ >? _) eqn:Es; cbn [rbind]; zify_bool; [split; [done|lia]|].
    destruct (bool_decide _) eqn:Eb; [apply bool_decide_eq_true in Eb; split; [done|tauto]|].
    apply bool_decide_eq_false in Eb.
    assert (is_ok (rfold (fun (_ : unit) '(key, _) =>
      guard? negb (bool_decide (key = [])) else InvalidExtension "Extension key cannot be empty" in
      Ok tt) tt (bd_extension block)) = true <-> Forall (fun kv => kv.1 <> []) (bd_extension block)) as Hf.
    { rewrite rfold_unit, Forall_forall. split; intros Hall [k w] Hin; specialize (Hall _ Hin); cbn in *.
      - intros ->. done.
      - by rewrite bool_decide_false. }
    rewrite <- Hf. destruct (rfold _ _ _) as [[]|]; cbn; naive_solver.
  - unfold validate_transaction.
    destruct (td_inputs tx) as [|i ins] eqn:Ei, (td_outputs tx) as [|o os]; try (split; [done|tauto]).
    destruct (first_dup [] (i :: ins)) eqn:Ed.
    + split; [done|]. intros (_ & _ & Hnd). exfalso.
      assert (first_dup [] (i :: ins) = None) as Hn; [|by rewrite Hn in Ed].
      apply first_dup_None. split; [done|]. intros x _. apply not_elem_of_nil.
    + apply first_dup_None in Ed as [Hnd _]. by repeat split.
Qed.

Module Example.

Definition tx1 : TransactionData := mkTransactionData [9] [[1]; [2]] [] [[7; 7]].

Lemma stateless_checks_decide_witness : validate_transaction tx1 = Ok tt.
Proof.
  apply (stateless_checks_decide 0 (mkHeaderData 2 [] [] [] 5 6 0 []) (mkHeaderData 2 [] [] [] 5 6 0 [])
    (mkBlockData (mkHeaderData 2 [] [] [] 5 6 0 []) [tx1] [] None) tx1); [lia|].
  split; [done|split; [done|]].
  apply NoDup_cons; split; [|apply NoDup_singleton]. rewrite list_elem_of_singleton. done.
Defined.

End Example.
