(* ===== verification/Block.v ===== *)
(** * Block sections (crates/ergo-consensus/src/block.rs)

    The binary formats of extensions and block transactions, the
    lookup of extension fields and voted parameters, and the modifier types.
    The Merkle tree and the [u32] reader of sigma-rust are parameters.  A Rust
    panic of a parser is an outcome of its own. *)

From S2P Require Export TxValidation Vlq.

Local Open Scope Z_scope.

(** ** Extensions *)

Record ExtensionField := mkExtensionField { ef_key : bytes; ef_value : bytes }.
Record Extension := mkExtension { ext_header_id : bytes; ext_fields : list ExtensionField }.

Definition Extension_empty (header_id : bytes) : Extension := mkExtension header_id [].

(** Errors of a parser, and the panic of [Vec::with_capacity] when the
    requested allocation exceeds [isize::MAX] bytes. *)
Inductive ParseError :=
  | PE_Invalid (e : ConsensusError)
  | PE_CapacityOverflow.

(** The size of an [ExtensionField]: a [Vec] and two bytes, padded. *)
Definition SIZE_OF_FIELD : Z := 32.

(** The loop over the fields. *)
Fixpoint parse_fields (count : nat) (data : bytes) (offset : nat)
    : result (list ExtensionField) ParseError :=
  match count with
  | O => Ok []
  | S count' =>
      if (length data <? offset + 2)%nat then
        Err (PE_Invalid (InvalidExtension "Extension data truncated at key"))
      else
        let key := slice offset (offset + 2) data in
        let offset := (offset + 2)%nat in
        match data !! offset with
        | None => Err (PE_Invalid (InvalidExtension "Extension data truncated at value length"))
        | Some len =>
            let value_len := Z.to_nat len in
            let offset := (offset + 1)%nat in
            if (length data <? offset + value_len)%nat then
              Err (PE_Invalid (InvalidExtension "Extension data truncated at value"))
            else
              let value := slice offset (offset + value_len) data in
              let? rest := parse_fields count' data (offset + value_len) in
              Ok (mkExtensionField key value :: rest)
        end
  end.

Definition Extension_parse (data : bytes) : result Extension ParseError :=
  if (length data <? 33)%nat then
    Err (PE_Invalid (InvalidExtension "Extension data too short"))
  else
    let header_id := slice 0 32 data in
    match vlq_decode (drop 32 data) with
    | Err _ => Err (PE_Invalid (InvalidExtension "Failed to decode field count"))
    | Ok (field_count, bytes_read) =>
        if field_count * SIZE_OF_FIELD >? ISIZE_MAX then Err PE_CapacityOverflow
        else
          (* the loop ends at the first missing byte: at most one field per byte *)
          let count := Z.to_nat (Z.min field_count (Z.of_nat (length data) + 1)) in
          let? fields := parse_fields count data (32 + bytes_read) in
          Ok (mkExtension header_id fields)
    end.

Definition Extension_get (e : Extension) (key : bytes) : option bytes :=
  ef_value <$> head (base.filter (fun f => ef_key f = key) (ext_fields e)).

(** [interlinks]: not implemented by the code. *)
Definition Extension_interlinks (e : Extension) : option (list bytes) := None.

Definition SYSTEM_PARAMS_PREFIX : Z := 0.

(** [i32::from_be_bytes]. *)
Definition be_i32 (bs : bytes) : Z := i32 (be_val bs).

Definition parse_parameters (e : Extension) : result (gmap Z Z) ConsensusError :=
  rfold (fun params field =>
    let param_id := nth 1 (ef_key field) 0 in
    if nth 0 (ef_key field) 0 =? SYSTEM_PARAMS_PREFIX then
      if param_id >=? 120 then Ok params
      else
        guard? (length (ef_value field) =? 4)%nat
          else InvalidExtension "Parameter has invalid value length" in
        Ok (<[param_id := be_i32 (ef_value field)]> params)
    else Ok params) ∅ (ext_fields e).

(** ** Block transactions *)

(** [parameters]: the values as [u64], none when they do not parse. *)
Definition extension_parameters (e : Extension) : gmap Z Z :=
  match parse_parameters e with Ok params => u64 <$> params | Err _ => ∅ end.

Record ADProofs := mkADProofs { adp_header_id : bytes; adp_proof_bytes : bytes }.
Definition adp_size (p : ADProofs) : nat := length (adp_proof_bytes p).

Section Block.
Context {ErgoBox Ext Tx : Type} `{ErgoBoxOps ErgoBox} `{TransactionOps ErgoBox Ext Tx}
  `{ChainTypes} `{Blake2b256}.

Record BlockTransactions := mkBlockTransactions {
  bt_header_id : bytes;
  bt_txs : list Tx;
  bt_block_version : Z
}.

Record FullBlock := mkFullBlock {
  fb_header : Header;
  fb_transactions : BlockTransactions;
  fb_extension : Extension;
  fb_ad_proofs : option ADProofs
}.

Definition BlockTransactions_new (header_id : bytes) (txs : list Tx) : BlockTransactions :=
  mkBlockTransactions header_id txs 2.
Definition BlockTransactions_with_version (header_id : bytes) (txs : list Tx) (block_version : Z) : BlockTransactions :=
  mkBlockTransactions header_id txs block_version.
Definition bt_len (b : BlockTransactions) : nat := length (bt_txs b).
Definition coinbase (b : BlockTransactions) : option Tx := head (bt_txs b).

Definition fb_id (b : FullBlock) : bytes := h_id (fb_header b).
Definition fb_parent_id (b : FullBlock) : bytes := h_parent_id (fb_header b).
Definition has_ad_proofs (b : FullBlock) : bool := bool_decide (is_Some (fb_ad_proofs b)).

Definition MAX_TRANSACTIONS_IN_BLOCK : Z := 10000000.

Inductive BlockTransactionsParseError :=
  | TooShort
  | InvalidFormat (msg : string)
  | TransactionParse (idx : Z)
  | SlicePanic.

(** [ReadSigmaVlqExt::get_u32]: the value and the number of bytes read. *)
Context (get_u32 : bytes -> option (Z * nat)).

(** The loop over the transactions: each is parsed from the front of the rest,
    and its serialisation says how much to skip. *)
Fixpoint parse_txs (count : nat) (i : Z) (remaining : bytes)
    : result (list Tx) BlockTransactionsParseError :=
  match count with
  | O => Ok []
  | S count' =>
      let? tx := ok_or (tx_parse remaining) (TransactionParse i) in
      let? tx_bytes := ok_or (tx_serialize tx) (TransactionParse i) in
      if (length remaining <? length tx_bytes)%nat then Err SlicePanic
      else
        let? txs := parse_txs count' (i + 1) (drop (length tx_bytes) remaining) in
        Ok (tx :: txs)
  end.

Definition BlockTransactions_parse (data : bytes)
    : result BlockTransactions BlockTransactionsParseError :=
  if (length data <? 32)%nat then Err TooShort
  else
    let header_id := slice 0 32 data in
    let cursor := drop 32 data in
    let? (first_uint, n) := ok_or (get_u32 cursor) (InvalidFormat "Failed to read first uint") in
    let? (block_version, tx_count, cursor) :=
      if first_uint >? MAX_TRANSACTIONS_IN_BLOCK then
        let version := u8 (first_uint - MAX_TRANSACTIONS_IN_BLOCK) in
        let? (count, n') := ok_or (get_u32 (drop n cursor)) (InvalidFormat "Failed to read tx count") in
        Ok (version, count, drop n' (drop n cursor))
      else Ok (1, first_uint, drop n cursor) in
    let? txs := parse_txs (Z.to_nat tx_count) 0 cursor in
    Ok (mkBlockTransactions header_id txs block_version).

(** The root of a non-empty [MerkleTree] over leaves. *)
Context (merkle_root : list bytes -> bytes).

(** The witness identifier: the hash of the proofs without its first byte. *)
Definition witness_id (tx : Tx) : bytes :=
  let all_proofs := concat (ti_proof <$> tx_inputs tx) in
  drop 1 (blake2b256 all_proofs).

Definition compute_merkle_root (b : BlockTransactions) : bytes :=
  match bt_txs b with
  | [] => blake2b256 []
  | _ =>
      let tx_ids := tx_id <$> bt_txs b in
      let leaves :=
        if bt_block_version b =? 1 then tx_ids
        else tx_ids ++ (witness_id <$> bt_txs b) in
      match leaves with
      | [] => blake2b256 []
      | _ => merkle_root leaves
      end
  end.

Inductive BlockValidationError :=
  | HeaderIdMismatch (expected got : bytes)
  | TransactionsRootMismatch (expected computed : bytes).

Definition validate_against_header (b : BlockTransactions) (header : Header)
    : result unit BlockValidationError :=
  guard? bool_decide (bt_header_id b = h_id header)
    else HeaderIdMismatch (h_id header) (bt_header_id b) in
  let computed_root := compute_merkle_root b in
  let header_root := h_transaction_root header in
  guard? bool_decide (computed_root = header_root)
    else TransactionsRootMismatch header_root computed_root in
  Ok tt.

Definition get_input_box_ids (b : BlockTransactions) : list bytes :=
  bt_txs b ≫= fun tx => ti_box_id <$> tx_inputs tx.

Definition get_outputs (b : BlockTransactions) : list (ErgoBox * bytes * Z) :=
  bt_txs b ≫= fun tx =>
    (fun '(idx, output) => (output, tx_id tx, u16 (Z.of_nat idx)))
    <$> zip (seq 0 (length (tx_outputs tx))) (tx_outputs tx).

Definition get_tx_ids (b : BlockTransactions) : list bytes := tx_id <$> bt_txs b.

(** The virtual parent of the genesis block. *)
Definition genesis_parent_header : Header :=
  mkHeader 1 (replicate 32 0) (replicate 32 0) (replicate 32 0) (replicate 33 0)
    (replicate 32 0) 0 0 0 (replicate 32 0)
    (mkAutolykosSolution ec_identity None (replicate 8 0) None) [0; 0; 0] [].

End Block.

Arguments BlockTransactions : clear implicits.
Arguments FullBlock Tx {_}.

(** ** Modifier types *)

Inductive ModifierType :=
  | MT_Transaction | MT_Header | MT_BlockTransactions | MT_Extension | MT_ADProofs | MT_FullBlock.

#[export] Instance ModifierType_eq_dec : EqDecision ModifierType.
Proof. solve_decision. Defined.

Definition from_byte (b : Z) : option ModifierType :=
  if b =? 2 then Some MT_Transaction
  else if b =? 101 then Some MT_Header
  else if b =? 102 then Some MT_BlockTransactions
  else if b =? 108 then Some MT_Extension
  else if b =? 104 then Some MT_ADProofs
  else if b =? 100 then Some MT_FullBlock
  else None.

Definition to_byte (t : ModifierType) : Z :=
  match t with
  | MT_Transaction => 2 | MT_Header => 101 | MT_BlockTransactions => 102
  | MT_Extension => 108 | MT_ADProofs => 104 | MT_FullBlock => 100
  end.

Record ModifierId := mkModifierId { mid_type : ModifierType; mid_id : bytes }.
Definition ModifierId_header (id : bytes) : ModifierId := mkModifierId MT_Header id.
Definition ModifierId_block_transactions (id : bytes) : ModifierId := mkModifierId MT_BlockTransactions id.

Inductive BlockStatus :=
  | BS_Unknown | BS_HeaderValid | BS_HeaderInvalid | BS_BodyValidating | BS_Valid | BS_Invalid.

Record BlockInfo := mkBlockInfo {
  bi_id : bytes; bi_height : Z; bi_timestamp : Z; bi_difficulty : Z; bi_status : BlockStatus; bi_is_main_chain : bool }.

Lemma from_to_byte t : from_byte (to_byte t) = Some t.
Proof. by destruct t. Qed.

Lemma from_byte_Some b t : from_byte b = Some t -> to_byte t = b.
Proof. unfold from_byte. repeat (case_match; zify_bool); naive_solver. Qed.

(** ** The formats the parsers read *)

Definition field_bytes (f : ExtensionField) : bytes :=
  ef_key f ++ [Z.of_nat (length (ef_value f))] ++ ef_value f.

Definition extension_bytes (e : Extension) : bytes :=
  ext_header_id e ++ vlq_encode (Z.of_nat (length (ext_fields e)))
  ++ concat (field_bytes <$> ext_fields e).

Definition field_ok (f : ExtensionField) : Prop :=
  length (ef_key f) = 2%nat /\ (length (ef_value f) < 256)%nat.

(** ** Lemmas *)

Lemma parse_fields_spec fs pre post :
  Forall field_ok fs ->
  parse_fields (length fs) (pre ++ concat (field_bytes <$> fs) ++ post) (length pre) = Ok fs.
Proof.
  intros Hfs. revert pre. induction Hfs as [|[k v] fs [Hk Hv] _ IH]; intros pre; [done|].
  cbn [ef_key ef_value] in Hk, Hv. cbn [length parse_fields fmap list_fmap concat].
  set (data := pre ++ (field_bytes (mkExtensionField k v) ++ concat (field_bytes <$> fs)) ++ post).
  assert (data = pre ++ k ++ (Z.of_nat (length v) :: v ++ concat (field_bytes <$> fs) ++ post)) as Hd.
  { unfold data, field_bytes. cbn [ef_key ef_value]. by rewrite <- !app_assoc. }
  assert (length data = length pre + 2 + 1 + length v + length (concat (field_bytes <$> fs) ++ post))%nat as Hl.
  { rewrite Hd, !length_app. cbn [length]. rewrite !length_app. lia. }
  destruct (Nat.ltb_spec (length data) (length pre + 2)); [lia|].
  assert (data !! (length pre + 2)%nat = Some (Z.of_nat (length v))) as ->.
  { rewrite Hd. rewrite lookup_app_r by lia. rewrite lookup_app_r by lia.
    by replace (length pre + 2 - length pre - length k)%nat with 0%nat by lia. }
  rewrite Nat2Z.id.
  destruct (Nat.ltb_spec (length data) (length pre + 2 + 1 + length v)); [lia|].
  assert (slice (length pre) (length pre + 2) data = k) as ->.
  { rewrite Hd. apply slice_mid; lia. }
  assert (slice (length pre + 2 + 1) (length pre + 2 + 1 + length v) data = v) as ->.
  { rewrite Hd. replace (pre ++ k ++ Z.of_nat (length v) :: v ++ concat (field_bytes <$> fs) ++ post)
      with ((pre ++ k ++ [Z.of_nat (length v)]) ++ v ++ (concat (field_bytes <$> fs) ++ post))
      by (rewrite <- !app_assoc; done).
    apply slice_mid; rewrite ?length_app; cbn [length]; lia. }
  assert (data = (pre ++ k ++ Z.of_nat (length v) :: v) ++ concat (field_bytes <$> fs) ++ post) as Hd'.
  { rewrite Hd, <- !app_assoc. cbn [app]. done. }
  specialize (IH (pre ++ k ++ Z.of_nat (length v) :: v)).
  replace (length (pre ++ k ++ Z.of_nat (length v) :: v)) with (length pre + 2 + 1 + length v)%nat in IH
    by (rewrite !length_app; cbn [length]; lia).
  rewrite Hd', IH. done.
Qed.

(** Parameters: the last field with the key decides. *)
Definition is_param (f : ExtensionField) : bool :=
  (nth 0 (ef_key f) 0 =? SYSTEM_PARAMS_PREFIX) && (nth 1 (ef_key f) 0 <? 120).

Fixpoint last_param (fs : list ExtensionField) (id : Z) : option Z :=
  match fs with
  | [] => None
  | f :: fs' =>
      match last_param fs' id with
      | Some v => Some v
      | None => if is_param f && (nth 1 (ef_key f) 0 =? id) then Some (be_i32 (ef_value f)) else None
      end
  end.

Lemma parse_parameters_loop fs m0 :
  let step := fun (params : gmap Z Z) field =>
    let param_id := nth 1 (ef_key field) 0 in
    if nth 0 (ef_key field) 0 =? SYSTEM_PARAMS_PREFIX then
      if param_id >=? 120 then Ok params
      else
        guard? (length (ef_value field) =? 4)%nat
          else InvalidExtension "Parameter has invalid value length" in
        Ok (<[param_id := be_i32 (ef_value field)]> params)
    else Ok params in
  (is_ok (rfold step m0 fs) = true <->
     Forall (fun f => is_param f = true -> length (ef_value f) = 4%nat) fs) /\
  forall m, rfold step m0 fs = Ok m -> forall id,
    m !! id = match last_param fs id with Some v => Some v | None => m0 !! id end.
Proof.
  intros step. revert m0. induction fs as [|f fs IH]; intros m0; cbn [rfold last_param].
  - split; [done|]. by intros m [= <-].
  - assert ((is_param f = true /\ length (ef_value f) <> 4%nat /\ exists e, step m0 f = Err e) \/
      ((is_param f = true -> length (ef_value f) = 4%nat) /\
       exists m1, step m0 f = Ok m1 /\ forall id, m1 !! id =
         if is_param f && (nth 1 (ef_key f) 0 =? id) then Some (be_i32 (ef_value f)) else m0 !! id))
      as [(Hp & Hl & e & ->)|(Hp & m1 & -> & Hm1)].
    { unfold step, is_param. destruct (_ =? SYSTEM_PARAMS_PREFIX); cbn [andb].
      - rewrite Z.geb_leb, Z.ltb_antisym. destruct (120 <=? _); cbn [negb andb].
        + right. split; [done|]. by eexists.
        + destruct (Nat.eqb_spec (length (ef_value f)) 4).
          * right. split; [done|]. eexists. split; [done|]. intros id.
            destruct (Z.eqb_spec (nth 1 (ef_key f) 0) id) as [->|].
            -- by rewrite lookup_insert_eq.
            -- by rewrite lookup_insert_ne.
          * left. eauto.
      - right. split; [done|]. by eexists. }
    + cbn [rbind is_ok]. split; [|done]. split; [done|]. intros Hf. inversion Hf; subst. naive_solver.
    + cbn [rbind]. destruct (IH m1) as [IH1 IH2]. split.
      * rewrite IH1, Forall_cons. naive_solver.
      * intros m Hm id. rewrite (IH2 m Hm id), Hm1. destruct (last_param fs id); [done|].
        by destruct (_ && _).
Qed.

(** The cap on the loop count in [Extension_parse] is immaterial: beyond one
    field per byte the loop stops with the same error. *)
Lemma parse_fields_cap n m data offset :
  (length data < offset + n)%nat -> (length data < offset + m)%nat -> (offset <= length data)%nat ->
  parse_fields n data offset = parse_fields m data offset.
Proof.
  revert m offset. induction n as [|n IH]; intros [|m] offset Hn Hm Ho; try lia.
  cbn [parse_fields]. destruct (Nat.ltb_spec (length data) (offset + 2)); [done|].
  destruct (data !! (offset + 2)%nat) as [len|] eqn:El; [|done].
  destruct (Nat.ltb_spec (length data) (offset + 2 + 1 + Z.to_nat len)); [done|].
  rewrite (IH m); [done|lia|lia|lia].
Qed.

Lemma concat_fields_length fs : (length fs <= length (concat (field_bytes <$> fs)))%nat.
Proof.
  induction fs as [|f fs IH]; [done|]. cbn [fmap list_fmap concat length].
  rewrite length_app. unfold field_bytes at 1. rewrite !length_app. cbn [length]. lia.
Qed.

Lemma drop_prefix {A} n (x post : list A) : length x = n -> drop n (x ++ post) = post.
Proof. intros <-. apply drop_app_length. Qed.

(** * Properties *)

(** parsing recovers an extension from its network format: any fields
    with two-byte keys and values of at most 255 bytes, with whatever follows
    them ignored. *)
Theorem extension_roundtrip e trailing :
  length (ext_header_id e) = 32%nat -> Forall field_ok (ext_fields e) ->
  Z.of_nat (length (ext_fields e)) < 2 ^ 58 ->
  Extension_parse (extension_bytes e ++ trailing) = Ok e.
Proof.
  destruct e as [hid fs]. cbn [ext_header_id ext_fields]. intros Hid Hfs Hn.
  unfold Extension_parse, extension_bytes. cbn [ext_header_id ext_fields].
  set (n := Z.of_nat (length fs)) in *. pose proof (vlq_encode_length n) as Hv.
  pose proof (concat_fields_length fs) as Hc.
  set (data := (hid ++ vlq_encode n ++ concat (field_bytes <$> fs)) ++ trailing).
  assert (data = hid ++ vlq_encode n ++ concat (field_bytes <$> fs) ++ trailing) as Hd
    by (unfold data; by rewrite <- !app_assoc).
  assert (length data = 32 + length (vlq_encode n) + length (concat (field_bytes <$> fs)) + length trailing)%nat
    as Hl by (rewrite Hd, !length_app; lia).
  destruct (Nat.ltb_spec (length data) 33); [lia|].
  assert (slice 0 32 data = hid) as -> by (rewrite Hd; by apply slice_head).
  assert (drop 32 data = vlq_encode n ++ concat (field_bytes <$> fs) ++ trailing) as ->
    by (rewrite Hd; by apply drop_prefix).
  rewrite vlq_decode_encode by lia. unfold SIZE_OF_FIELD, ISIZE_MAX.
  destruct (n * 32 >? 2 ^ 63 - 1) eqn:E; zify_bool; [lia|].
  rewrite Z.min_l by lia. unfold n at 1. rewrite Nat2Z.id.
  assert (data = (hid ++ vlq_encode n) ++ concat (field_bytes <$> fs) ++ trailing) as ->
    by (rewrite Hd; by rewrite <- !app_assoc).
  replace (32 + length (vlq_encode n))%nat with (length (hid ++ vlq_encode n))
    by (rewrite length_app; lia).
  by rewrite parse_fields_spec.
Qed.

(** the field count is not checked against the size of the data before
    the allocation: a short message announcing [2^58] fields or more makes the
    parser panic. *)
Theorem extension_count_panics hid n rest :
  length hid = 32%nat -> 2 ^ 58 <= n < 2 ^ 64 ->
  Extension_parse (hid ++ vlq_encode n ++ rest) = Err PE_CapacityOverflow.
Proof.
  intros Hid Hn. unfold Extension_parse. pose proof (vlq_encode_length n) as Hv.
  destruct (Nat.ltb_spec (length (hid ++ vlq_encode n ++ rest)) 33) as [Hlt|_].
  { rewrite !length_app in Hlt. lia. }
  rewrite (drop_prefix 32 hid) by done. rewrite vlq_decode_encode by lia.
  unfold SIZE_OF_FIELD, ISIZE_MAX. destruct (n * 32 >? 2 ^ 63 - 1) eqn:E; zify_bool; [done|lia].
Qed.

(** the voted parameters of an extension parse exactly when every
    parameter field (prefix 0, identifier below 120) has a four-byte value; the
    map then holds, for each identifier, the signed big-endian value of the
    last field with it, and nothing else. *)
Theorem parse_parameters_decides e :
  (is_ok (parse_parameters e) = true <->
     Forall (fun f => is_param f = true -> length (ef_value f) = 4%nat) (ext_fields e)) /\
  forall m, parse_parameters e = Ok m -> forall id, m !! id = last_param (ext_fields e) id.
Proof.
  destruct (parse_parameters_loop (ext_fields e) ∅) as [H1 H2]. split; [exact H1|].
  intros m Hm id. rewrite (H2 m Hm id), lookup_empty. by destruct (last_param _ _).
Qed.

Section TxSection.
Context {ErgoBox Ext Tx : Type} `{TransactionLaws ErgoBox Ext Tx}.

(** The network format of a transactions section: a version other than 1 is
    announced above the largest transaction count. *)
Definition block_transactions_bytes (put_u32 : Z -> bytes) (b : BlockTransactions Tx)
    (txs_bytes : list bytes) : bytes :=
  bt_header_id b
  ++ (if bt_block_version b =? 1 then [] else put_u32 (MAX_TRANSACTIONS_IN_BLOCK + bt_block_version b))
  ++ put_u32 (Z.of_nat (length (bt_txs b))) ++ concat txs_bytes.

Lemma parse_txs_spec (txs : list Tx) ss i :
  Forall2 (fun t s => tx_serialize t = Some s) txs ss ->
  parse_txs (length txs) i (concat ss) = Ok txs.
Proof.
  intros Hss. revert i. induction Hss as [|t s txs ss Hs _ IH]; intros i; [done|].
  cbn [length concat parse_txs]. rewrite (tx_parse_serialize t s _ Hs). cbn [ok_or rbind].
  rewrite Hs. cbn [ok_or rbind]. destruct (Nat.ltb_spec (length (s ++ concat ss)) (length s)) as [Hlt|_].
  { rewrite length_app in Hlt. lia. }
  rewrite drop_app_length. by rewrite IH.
Qed.

(** a transactions section with a one-byte version above 0 and at most ten
    million transactions is parsed back from its network format, given a
    [u32] reader that inverts its writer. *)
Theorem block_transactions_roundtrip (get_u32 : bytes -> option (Z * nat)) (put_u32 : Z -> bytes)
    (b : BlockTransactions Tx) ss :
  (forall z rest, 0 <= z < 2 ^ 32 -> get_u32 (put_u32 z ++ rest) = Some (z, length (put_u32 z))) ->
  length (bt_header_id b) = 32%nat ->
  1 <= bt_block_version b < 256 ->
  Z.of_nat (length (bt_txs b)) <= MAX_TRANSACTIONS_IN_BLOCK ->
  Forall2 (fun t s => tx_serialize t = Some s) (bt_txs b) ss ->
  BlockTransactions_parse get_u32 (block_transactions_bytes put_u32 b ss) = Ok b.
Proof.
  destruct b as [hid txs version]. cbn [bt_header_id bt_txs bt_block_version].
  intros Hget Hid Hv Hn Hss. unfold BlockTransactions_parse, block_transactions_bytes.
  cbn [bt_header_id bt_txs bt_block_version]. unfold MAX_TRANSACTIONS_IN_BLOCK in *.
  destruct (Nat.ltb_spec (length (hid ++ (if version =? 1 then [] else put_u32 (10000000 + version))
    ++ put_u32 (Z.of_nat (length txs)) ++ concat ss)) 32) as [Hlt|_].
  { rewrite !length_app in Hlt. lia. }
  rewrite (slice_head 32) by done. rewrite (drop_prefix 32) by done.
  destruct (Z.eqb_spec version 1) as [->|Hne].
  - cbn [app]. rewrite Hget by lia. cbn [ok_or rbind].
    destruct (Z.of_nat (length txs) >? 10000000) eqn:E; zify_bool; [lia|]. cbn [rbind].
    rewrite drop_app_length, Nat2Z.id, parse_txs_spec by done. done.
  - rewrite Hget by lia. cbn [ok_or rbind].
    destruct (10000000 + version >? 10000000) eqn:E; zify_bool; [|lia].
    rewrite drop_app_length, Hget by lia. cbn [ok_or rbind].
    rewrite drop_app_length, Nat2Z.id, parse_txs_spec by done. cbn [rbind]. do 2 f_equal.
    replace (10000000 + version - 10000000) with version by lia. apply wrap_small; unfold in_u; lia.
Qed.
End TxSection.

Module Example.
Import Toy.

Definition ext1 : Extension :=
  mkExtension (replicate 32 5) [mkExtensionField [0; 4] [0; 15; 66; 64]; mkExtensionField [1; 0] [7]].

Lemma extension_roundtrip_witness : Extension_parse (extension_bytes ext1 ++ [9]) = Ok ext1.
Proof.
  apply extension_roundtrip; [reflexivity| |cbn; lia].
  repeat constructor; cbn; lia.
Defined.

Lemma extension_count_panics_witness :
  Extension_parse (replicate 32 5 ++ vlq_encode (2 ^ 60) ++ []) = Err PE_CapacityOverflow.
Proof. apply extension_count_panics; [reflexivity|lia]. Defined.

Lemma parse_parameters_decides_witness : is_ok (parse_parameters ext1) = true.
Proof. apply parse_parameters_decides. repeat constructor; cbn; done. Defined.

(** A one-byte toy integer format that carries the value in the list. *)
Definition toy_put_u32 (z : Z) : bytes := be_bytes 4 z.
Definition toy_get_u32 (bs : bytes) : option (Z * nat) :=
  if (length bs <? 4)%nat then None else Some (be_val (slice 0 4 bs), 4%nat).

Definition bt1 : BlockTransactions toy_tx :=
  mkBlockTransactions (replicate 32 5) [mk_toy_tx 8 [] [] []] 2.

Lemma block_transactions_roundtrip_witness :
  BlockTransactions_parse toy_get_u32 (block_transactions_bytes toy_put_u32 bt1 [[8]]) = Ok bt1.
Proof.
  apply (block_transactions_roundtrip toy_get_u32 toy_put_u32 bt1 [[8]]).
  - intros z rest Hz. unfold toy_get_u32, toy_put_u32. rewrite length_app, be_bytes_length.
    destruct (Nat.ltb_spec (4 + length rest) 4); [lia|].
    rewrite slice_head by apply be_bytes_length. rewrite be_val_bytes; [done|].
    change (256 ^ Z.of_nat 4) with (2 ^ 32). lia.
  - reflexivity.
  - cbn. lia.
  - cbn. unfold MAX_TRANSACTIONS_IN_BLOCK. lia.
  - repeat constructor.
Defined.

End Example.
