(* ===== verification/BlockValidation.v ===== *)
(** * Full block validation (crates/ergo-consensus/src/block_validation.rs)

    The validation of a block against its parent and the UTXO set: header
    checks, the transactions root, and the loop over the transactions that
    detects double spends, resolves inputs (also among boxes created earlier in
    the block), checks conservation and scripts, accumulates cost and builds
    the state change. *)

From S2P Require Export Block.

Local Open Scope Z_scope.

Definition MIN_BOX_VALUE : Z := 360.

(** Up to this height scripts, inputs and conservation are not checked. *)
Record Checkpoint := mkCheckpoint { ck_height : Z; ck_block_id : string }.
Definition Checkpoint_mainnet : Checkpoint := mkCheckpoint 1690000 "".

Record FullBlockValidator := mkFullBlockValidator {
  parameters : ChainParameters;
  skip_script_verification : bool;
  checkpoint : option Checkpoint
}.

Definition FullBlockValidator_new : FullBlockValidator :=
  mkFullBlockValidator ChainParameters_default false (Some Checkpoint_mainnet).
Definition with_parameters (p : ChainParameters) : FullBlockValidator :=
  mkFullBlockValidator p false (Some Checkpoint_mainnet).
Definition without_checkpoint : FullBlockValidator :=
  mkFullBlockValidator ChainParameters_default false None.
Definition with_parameters_no_checkpoint (p : ChainParameters) : FullBlockValidator :=
  mkFullBlockValidator p false None.

Definition is_below_checkpoint (v : FullBlockValidator) (height : Z) : bool :=
  match checkpoint v with Some cp => height <=? ck_height cp | None => false end.

Section BlockValidation.
Context {ErgoBox Ext Tx PreHeader : Type}
  `{ErgoBoxOps ErgoBox} `{ExtensionOps Ext} `{TransactionOps ErgoBox Ext Tx} `{ChainTypes}
  `{Blake2b256}.

(** The libraries: the script interpreter, the bound of [TxIoVec], the Merkle
    tree, [PreHeader::from] and the iteration order of a [HashMap]. *)
Context (script_verify : ErgoBox -> ScriptContext ErgoBox Ext PreHeader -> bytes -> bytes
           -> option (bool * Z)).
Context (tx_io_max : nat) (merkle_root : list bytes -> bytes).
Context (pre_header_of : Header -> PreHeader) (map_iter : gmap bytes Z -> list (bytes * Z)).

Record SpentBox := mkSpentBox { sb_box_id : bytes; sb_original_box : ErgoBox }.
Record CreatedBox := mkCreatedBox {
  cb_ergo_box : ErgoBox; cb_tx_id : bytes; cb_output_index : Z }.

Record ValidatedStateChange := mkValidatedStateChange {
  vsc_height : Z;
  vsc_spent : list SpentBox;
  vsc_created : list CreatedBox
}.

Record BlockValidationResult := mkBlockValidationResult {
  bvr_valid : bool;
  bvr_total_cost : Z;
  bvr_state_change : option ValidatedStateChange;
  bvr_error : option string
}.

Definition spent_box_ids (c : ValidatedStateChange) : list bytes :=
  base.filter (fun id => length id = 32%nat) (sb_box_id <$> vsc_spent c).

Definition validate_header (header parent : Header) : result unit ConsensusError :=
  if negb (h_height header =? u32 (h_height parent + 1)) then Err (InvalidHeader "Invalid height")
  else if h_timestamp header <=? h_timestamp parent then
    Err (InvalidTimestamp (h_timestamp header) (h_timestamp parent))
  else if negb (bool_decide (h_parent_id header = h_id parent)) then
    Err (InvalidHeader "Parent ID mismatch")
  else if (h_version header <? 1) || (h_version header >? 4) then
    Err (InvalidHeader "Invalid version")
  else Ok tt.

(** ** Resolving boxes *)

(** Boxes created earlier in the block come before the UTXO state. *)
Definition find_box (utxo_lookup : bytes -> option ErgoBox) (created_in_block : gmap bytes ErgoBox)
    (id : bytes) : option ErgoBox :=
  match created_in_block !! id with Some b => Some b | None => utxo_lookup id end.

Definition collect_input_boxes (tx : Tx) (utxo_lookup : bytes -> option ErgoBox)
    (created_in_block : gmap bytes ErgoBox) : result (list ErgoBox) ConsensusError :=
  rmap (fun '(idx, input) =>
    ok_or (find_box utxo_lookup created_in_block (ti_box_id input))
      (MissingInput (tx_id tx) (Z.of_nat idx) (ti_box_id input)))
    (zip (seq 0 (length (tx_inputs tx))) (tx_inputs tx)).

Definition collect_data_input_boxes (tx : Tx) (utxo_lookup : bytes -> option ErgoBox)
    (created_in_block : gmap bytes ErgoBox) : result (list ErgoBox) ConsensusError :=
  match tx_data_inputs tx with
  | None => Ok []
  | Some data_inputs =>
      rmap (fun '(idx, id) =>
        ok_or (find_box utxo_lookup created_in_block id)
          (MissingDataInput (tx_id tx) (Z.of_nat idx) id))
        (zip (seq 0 (length data_inputs)) data_inputs)
  end.

Definition input_ids (tx : Tx) : list bytes := ti_box_id <$> tx_inputs tx.

Definition validate_no_data_input_intersection (tx : Tx) : result unit ConsensusError :=
  match tx_data_inputs tx with
  | None => Ok tt
  | Some data_inputs =>
      rfold (fun _ id =>
        guard? negb (bool_decide (id ∈ input_ids tx)) else DataInputIntersection id in Ok tt)
        tt data_inputs
  end.

(** ** The loop over the transactions *)

Record BlockState := mkBlockState {
  bs_total_cost : Z;
  bs_spent_boxes : list SpentBox;
  bs_created_boxes : list CreatedBox;
  bs_spent_in_block : gset bytes;
  bs_created_in_block : gmap bytes ErgoBox
}.

Definition check_min_values (tx : Tx) : result unit ConsensusError :=
  rfold (fun _ output =>
    guard? negb (box_value output <? MIN_BOX_VALUE)
      else InvalidTransaction "Output value below minimum" in Ok tt) tt (tx_outputs tx).

(** Step 9: scripts and cost. *)
Definition check_scripts (v : FullBlockValidator) (verifier : TxVerifier PreHeader)
    (is_coinbase : bool) (tx : Tx) (input_boxes data_input_boxes : list ErgoBox) (total_cost : Z)
    : result Z ConsensusError :=
  if negb (skip_script_verification v) && negb is_coinbase then
    let result := verify_tx script_verify tx_io_max verifier tx input_boxes data_input_boxes in
    if negb (tvr_valid result) then
      Err (ScriptVerificationFailed (tx_id tx)
             (match tvr_error result with Some e => e | None => "Unknown error"%string end))
    else
      let max_tx_cost := max_block_cost (parameters v) in
      if tvr_total_cost result >? max_tx_cost then
        Err (CE_TransactionCostExceeded (tx_id tx) (tvr_total_cost result) max_tx_cost)
      else
        let total_cost := sat_add 64 total_cost (tvr_total_cost result) in
        if total_cost >? max_block_cost (parameters v) then
          Err (CE_BlockCostExceeded total_cost (max_block_cost (parameters v)))
        else Ok total_cost
  else Ok total_cost.

(** Steps 3 to 9, skipped in checkpoint mode: the input boxes and the cost. *)
Definition check_tx (v : FullBlockValidator) (verifier : TxVerifier PreHeader)
    (utxo_lookup : bytes -> option ErgoBox) (is_coinbase : bool) (st : BlockState) (tx : Tx)
    : result (list ErgoBox * Z) ConsensusError :=
  let? input_boxes := collect_input_boxes tx utxo_lookup (bs_created_in_block st) in
  let? data_input_boxes := collect_data_input_boxes tx utxo_lookup (bs_created_in_block st) in
  let? _ := validate_no_data_input_intersection tx in
  let? _ := validate_erg_conservation tx input_boxes in
  let? _ := validate_token_conservation map_iter tx input_boxes is_coinbase in
  let? _ := check_min_values tx in
  let? total_cost := check_scripts v verifier is_coinbase tx input_boxes data_input_boxes
                       (bs_total_cost st) in
  Ok (input_boxes, total_cost).

(** Step 11: the created boxes of a transaction. *)
Definition created_by (tx : Tx) : list CreatedBox :=
  (fun '(out_idx, output) => mkCreatedBox output (tx_id tx) (u16 (Z.of_nat out_idx)))
  <$> zip (seq 0 (length (tx_outputs tx))) (tx_outputs tx).

Definition record_tx (checkpoint_mode : bool) (st : BlockState) (tx : Tx)
    (input_boxes : list ErgoBox) (total_cost : Z) : BlockState :=
  mkBlockState total_cost
    (if checkpoint_mode then bs_spent_boxes st
     else bs_spent_boxes st ++
          ((fun '(input, b) => mkSpentBox (ti_box_id input) b) <$> zip (tx_inputs tx) input_boxes))
    (bs_created_boxes st ++ created_by tx)
    (list_to_set (input_ids tx) ∪ bs_spent_in_block st)
    (fold_left (fun m output => <[box_id output := output]> m) (tx_outputs tx)
       (bs_created_in_block st)).

(** One turn of the loop. *)
Definition validate_tx (v : FullBlockValidator) (verifier : TxVerifier PreHeader)
    (utxo_lookup : bytes -> option ErgoBox) (checkpoint_mode : bool) (st : BlockState)
    (p : nat * Tx) : result BlockState ConsensusError :=
  let '(tx_idx, tx) := p in
  let is_coinbase := (tx_idx =? 0)%nat in
  match first_dup [] (input_ids tx) with
  | Some id => Err (DoubleSpend id)
  | None =>
      match head (base.filter (fun id => id ∈ bs_spent_in_block st) (input_ids tx)) with
      | Some id => Err (DoubleSpend id)
      | None =>
          let? (input_boxes, total_cost) :=
            if checkpoint_mode then Ok ([], bs_total_cost st)
            else check_tx v verifier utxo_lookup is_coinbase st tx in
          Ok (record_tx checkpoint_mode st tx input_boxes total_cost)
      end
  end.

Definition validate_transactions (v : FullBlockValidator) (block_txs : BlockTransactions Tx)
    (height : Z) (pre_header : PreHeader) (last_headers : list Header)
    (utxo_lookup : bytes -> option ErgoBox)
    : result (Z * ValidatedStateChange) ConsensusError :=
  let checkpoint_mode := is_below_checkpoint v height in
  let verifier := mkTxVerifier height pre_header last_headers in
  let? st := rfold (validate_tx v verifier utxo_lookup checkpoint_mode)
               (mkBlockState 0 [] [] ∅ ∅)
               (zip (seq 0 (length (bt_txs block_txs))) (bt_txs block_txs)) in
  Ok (bs_total_cost st, mkValidatedStateChange height (bs_spent_boxes st) (bs_created_boxes st)).

Definition invalid_result (msg : string) : BlockValidationResult :=
  mkBlockValidationResult false 0 None (Some msg).

Definition validate_block (v : FullBlockValidator) (block : FullBlock Tx) (parent_header : Header)
    (utxo_lookup : bytes -> option ErgoBox) (last_headers : list Header) : BlockValidationResult :=
  let height := h_height (fb_header block) in
  match validate_header (fb_header block) parent_header with
  | Err e => invalid_result "Header validation failed"
  | Ok _ =>
      match validate_against_header merkle_root (fb_transactions block) (fb_header block) with
      | Err e => invalid_result "Transactions validation failed"
      | Ok _ =>
          if bool_decide (bt_txs (fb_transactions block) = []) then
            invalid_result "Block must have at least one transaction"
          else
            match validate_transactions v (fb_transactions block) height
                    (pre_header_of (fb_header block)) last_headers utxo_lookup with
            | Ok (total_cost, state_change) =>
                mkBlockValidationResult true total_cost (Some state_change) None
            | Err e => invalid_result "transaction error"
            end
      end
  end.

End BlockValidation.

Arguments SpentBox : clear implicits.
Arguments CreatedBox : clear implicits.
Arguments ValidatedStateChange : clear implicits.
Arguments BlockState : clear implicits.
