(* ===== verification/BlockSpec.v ===== *)
(** * Properties of block validation

    What a block accepted by [BlockValidation] guarantees: lineage, no double
    spends, the state change it yields, conservation and scripts of every
    transaction; and what checkpoint mode and the first transaction skip. *)

From S2P Require Export BlockValidation.

Local Open Scope Z_scope.

Section Facts.
Context {ErgoBox Ext Tx PreHeader : Type}
  `{ErgoBoxOps ErgoBox} `{ExtensionOps Ext} `{TransactionOps ErgoBox Ext Tx} `{ChainTypes}
  `{Blake2b256}.
Context (script_verify : ErgoBox -> ScriptContext ErgoBox Ext PreHeader -> bytes -> bytes
           -> option (bool * Z)).
Context (tx_io_max : nat) (map_iter : gmap bytes Z -> list (bytes * Z)).
Context (v : FullBlockValidator) (verifier : TxVerifier PreHeader)
  (utxo_lookup : bytes -> option ErgoBox).

Abbreviation step := (validate_tx script_verify tx_io_max map_iter v verifier utxo_lookup).
Abbreviation checked := (check_tx script_verify tx_io_max map_iter v verifier utxo_lookup).

(** The identifiers of all inputs, and the boxes created, by some
    transactions. *)
Definition all_input_ids (txs : list Tx) : list bytes := txs ≫= input_ids.
Definition all_created (txs : list Tx) : list (CreatedBox ErgoBox) := txs ≫= created_by.
Definition created_map (txs : list Tx) : gmap bytes ErgoBox :=
  fold_left (fun m output => <[box_id output := output]> m) (txs ≫= tx_outputs) ∅.

Lemma validate_tx_ok cm st i tx st' :
  step cm st (i, tx) = Ok st' ->
  NoDup (input_ids tx) /\ (forall id, id ∈ input_ids tx -> id ∉ bs_spent_in_block st) /\
  exists ins c, st' = record_tx cm st tx ins c /\
    (if cm then ins = [] /\ c = bs_total_cost st
     else checked (i =? 0)%nat st tx = Ok (ins, c)).
Proof.
  unfold validate_tx. destruct (first_dup [] (input_ids tx)) eqn:Ed; [done|].
  apply first_dup_None in Ed as [Hnd _].
  destruct (head _) eqn:Eh; [done|].
  assert (forall id, id ∈ input_ids tx -> id ∉ bs_spent_in_block st) as Hns.
  { intros id Hid Hin. assert (id ∈ base.filter (fun id => id ∈ bs_spent_in_block st) (input_ids tx)) as Hf
      by (apply list_elem_of_filter; done).
    destruct (base.filter _ _); [by apply not_elem_of_nil in Hf|done]. }
  intros ([ins c] & Hc & [= <-])%rbind_ok. split; [done|]. split; [done|].
  exists ins, c. split; [done|]. destruct cm; [|done]. by injection Hc as <- <-.
Qed.

Lemma check_tx_ok is_coinbase st tx ins c :
  checked is_coinbase st tx = Ok (ins, c) ->
  exists dins fee,
    collect_input_boxes tx utxo_lookup (bs_created_in_block st) = Ok ins /\
    collect_data_input_boxes tx utxo_lookup (bs_created_in_block st) = Ok dins /\
    validate_no_data_input_intersection tx = Ok tt /\
    validate_erg_conservation tx ins = Ok fee /\
    validate_token_conservation map_iter tx ins is_coinbase = Ok tt /\
    check_min_values tx = Ok tt /\
    check_scripts script_verify tx_io_max v verifier is_coinbase tx ins dins (bs_total_cost st) = Ok c.
Proof.
  intros (ins' & H1' & (dins & H2' & ([] & H3' & (fee & H4' & ([] & H5' & ([] & H6' & (c' & H7' &
    [= <- <-])%rbind_ok)%rbind_ok)%rbind_ok)%rbind_ok)%rbind_ok)%rbind_ok)%rbind_ok.
  by exists dins, fee.
Qed.

Lemma collect_input_boxes_ok tx created ins :
  collect_input_boxes tx utxo_lookup created = Ok ins ->
  Forall2 (fun id b => find_box utxo_lookup created id = Some b) (input_ids tx) ins.
Proof.
  intros Hins. apply (rmap_indexed (fun idx i => ok_or (find_box utxo_lookup created (ti_box_id i))
    (MissingInput (tx_id tx) (Z.of_nat idx) (ti_box_id i)))) in Hins.
  unfold input_ids. apply Forall2_fmap_l. eapply Forall2_impl; [exact Hins|].
  cbn. intros i b [k Hk]. destruct (find_box _ _ _); cbn in Hk; congruence.
Qed.

Lemma collect_data_input_boxes_ok tx created dins :
  collect_data_input_boxes tx utxo_lookup created = Ok dins ->
  Forall2 (fun id b => find_box utxo_lookup created id = Some b) (default [] (tx_data_inputs tx)) dins.
Proof.
  unfold collect_data_input_boxes. destruct (tx_data_inputs tx) as [ids|]; [|by intros [= <-]].
  intros Hd. apply (rmap_indexed (fun idx id => ok_or (find_box utxo_lookup created id)
    (MissingDataInput (tx_id tx) (Z.of_nat idx) id))) in Hd.
  eapply Forall2_impl; [exact Hd|]. cbn. intros i b [k Hk]. destruct (find_box _ _ _); cbn in Hk; congruence.
Qed.

Lemma check_min_values_ok (tx : Tx) :
  check_min_values tx = Ok tt -> Forall (fun b => MIN_BOX_VALUE <= box_value b) (tx_outputs tx).
Proof.
  intros Hmin. assert (is_ok (check_min_values tx) = true) as Hok by by rewrite Hmin.
  unfold check_min_values in Hok. rewrite rfold_unit in Hok. apply Forall_forall. intros b Hin.
  specialize (Hok b Hin). destruct (_ <? _) eqn:E; [done|]. zify_bool. done.
Qed.

Lemma no_intersection_ok (tx : Tx) :
  validate_no_data_input_intersection tx = Ok tt ->
  forall id, id ∈ default [] (tx_data_inputs tx) -> id ∉ input_ids tx.
Proof.
  unfold validate_no_data_input_intersection. destruct (tx_data_inputs tx) as [ids|]; [|by intros _ id ?%elem_of_nil].
  intros Hi id Hin Hmem.
  assert (is_ok (rfold (fun (_ : unit) id =>
      guard? negb (bool_decide (id ∈ input_ids tx)) else DataInputIntersection id in Ok tt) tt ids) = true)
    as Hok by by rewrite Hi.
  rewrite rfold_unit in Hok. specialize (Hok id Hin). by rewrite bool_decide_true in Hok.
Qed.

Lemma check_scripts_cost is_coinbase tx ins dins c0 c :
  check_scripts script_verify tx_io_max v verifier is_coinbase tx ins dins c0 = Ok c ->
  c0 <= max_block_cost (parameters v) -> c <= max_block_cost (parameters v).
Proof.
  unfold check_scripts. destruct (_ && _); [|by intros [= <-]].
  destruct (negb _); [done|]. destruct (_ >? _); [done|].
  destruct (sat_add _ _ _ >? _) eqn:E; [done|]. intros [= <-] _. zify_bool. lia.
Qed.

Lemma spent_ids_of_tx tx created (ins : list ErgoBox) :
  collect_input_boxes tx utxo_lookup created = Ok ins ->
  sb_box_id <$> ((fun '(input, b) => mkSpentBox (ti_box_id input) b) <$> zip (tx_inputs tx) ins)
  = input_ids tx.
Proof.
  intros Hins. apply collect_input_boxes_ok, Forall2_length in Hins.
  rewrite <- list_fmap_compose. unfold input_ids in *. rewrite length_fmap in Hins.
  by apply fmap_zip_fst.
Qed.

(** The loop from any state. *)
Lemma loop_ok cm l st st' :
  rfold (step cm) st l = Ok st' ->
  NoDup (all_input_ids l.*2) /\
  (forall id, id ∈ all_input_ids l.*2 -> id ∉ bs_spent_in_block st) /\
  bs_created_boxes st' = bs_created_boxes st ++ all_created l.*2 /\
  bs_created_in_block st' =
    fold_left (fun m output => <[box_id output := output]> m) (l.*2 ≫= tx_outputs) (bs_created_in_block st) /\
  (if cm then bs_spent_boxes st' = bs_spent_boxes st /\ bs_total_cost st' = bs_total_cost st
   else sb_box_id <$> bs_spent_boxes st' = (sb_box_id <$> bs_spent_boxes st) ++ all_input_ids l.*2 /\
        (bs_total_cost st <= max_block_cost (parameters v) ->
         bs_total_cost st' <= max_block_cost (parameters v))).
Proof.
  revert st. induction l as [|[i tx] l IH]; intros st; cbn [rfold fmap list_fmap snd].
  - intros [= <-]. cbn. rewrite !app_nil_r. repeat split; [constructor|set_solver|].
    by destruct cm.
  - intros (st1 & Hst1 & Hrest)%rbind_ok.
    apply validate_tx_ok in Hst1 as (Hnd & Hns & ins & c & -> & Hc).
    apply IH in Hrest as (Hnd' & Hdis & Hcr & Hcm & Hsp). clear IH.
    unfold all_input_ids, all_created in *. rewrite !bind_cons.
    cbn [record_tx bs_spent_in_block bs_created_boxes bs_created_in_block bs_spent_boxes bs_total_cost] in *.
    split; [|split; [|split; [|split]]].
    + apply NoDup_app. split; [done|]. split; [|done]. intros id Hid Hid'.
      specialize (Hdis id Hid'). set_solver.
    + intros id [Hid|Hid]%elem_of_app; [by apply Hns|]. specialize (Hdis id Hid). set_solver.
    + by rewrite Hcr, <- app_assoc.
    + rewrite Hcm. by rewrite fold_left_app.
    + destruct cm.
      * destruct Hc as [-> ->]. done.
      * apply check_tx_ok in Hc as (dins & fee & Hins & _ & _ & _ & _ & _ & Hs).
        destruct Hsp as [Hsp Hcost]. split.
        -- rewrite Hsp, fmap_app, (spent_ids_of_tx tx _ ins Hins). by rewrite <- app_assoc.
        -- intros Hle. apply Hcost. by eapply check_scripts_cost.
Qed.
End Facts.

(** * Properties *)

Section Spec.
Context {ErgoBox Ext Tx PreHeader : Type}
  `{ErgoBoxOps ErgoBox} `{ExtensionOps Ext} `{TransactionOps ErgoBox Ext Tx} `{ChainTypes}
  `{Blake2b256}.
Context (script_verify : ErgoBox -> ScriptContext ErgoBox Ext PreHeader -> bytes -> bytes
           -> option (bool * Z)).
Context (tx_io_max : nat) (merkle_root : list bytes -> bytes).
Context (pre_header_of : Header -> PreHeader) (map_iter : gmap bytes Z -> list (bytes * Z)).

Abbreviation validate := (validate_block script_verify tx_io_max merkle_root pre_header_of map_iter).

Lemma validate_block_ok v (block : FullBlock Tx) parent utxo_lookup hs :
  bvr_valid (validate v block parent utxo_lookup hs) = true ->
  exists sc, bvr_state_change (validate v block parent utxo_lookup hs) = Some sc /\
    validate_header (fb_header block) parent = Ok tt /\
    validate_against_header merkle_root (fb_transactions block) (fb_header block) = Ok tt /\
    bt_txs (fb_transactions block) <> [] /\
    validate_transactions script_verify tx_io_max map_iter v (fb_transactions block)
      (h_height (fb_header block)) (pre_header_of (fb_header block)) hs utxo_lookup
    = Ok (bvr_total_cost (validate v block parent utxo_lookup hs), sc).
Proof.
  unfold validate_block. destruct (validate_header _ _) as [[]|]; [|done].
  destruct (validate_against_header _ _ _) as [[]|]; [|done].
  destruct (bool_decide _) eqn:Eb; [done|]. apply bool_decide_eq_false in Eb.
  destruct (validate_transactions _ _ _ _ _ _ _ _ _) as [[c sc]|]; [|done].
  intros _. by exists sc.
Qed.

(** The change of an accepted block, from its transactions alone. *)
Lemma valid_block_change v (block : FullBlock Tx) parent utxo_lookup hs sc :
  bvr_valid (validate v block parent utxo_lookup hs) = true ->
  bvr_state_change (validate v block parent utxo_lookup hs) = Some sc ->
  vsc_created sc = all_created (bt_txs (fb_transactions block)) /\
  sb_box_id <$> vsc_spent sc =
    if is_below_checkpoint v (h_height (fb_header block)) then []
    else all_input_ids (bt_txs (fb_transactions block)).
Proof.
  intros (sc' & Hsc' & _ & _ & _ & Htx)%validate_block_ok Hsc. rewrite Hsc' in Hsc. injection Hsc as ->.
  unfold validate_transactions in Htx. apply rbind_ok in Htx as (st & Hloop & [= _ <-]).
  apply loop_ok in Hloop as (_ & _ & Hcr & _ & Hsp). rewrite snd_zip_seq in *. cbn [vsc_created vsc_spent].
  split; [by rewrite Hcr|]. destruct (is_below_checkpoint _ _); destruct Hsp as [-> _]; done.
Qed.

(** C1: an accepted block extends its parent (height, identifier, later
    timestamp, known version), no box is spent twice by its transactions, and
    its state change creates every output; above the checkpoint it also spends
    exactly the inputs, in order, at a cost within the voted block limit. *)
Theorem valid_block_sound v (block : FullBlock Tx) parent utxo_lookup hs :
  bvr_valid (validate v block parent utxo_lookup hs) = true ->
  0 <= max_block_cost (parameters v) ->
  let txs := bt_txs (fb_transactions block) in
  h_height (fb_header block) = u32 (h_height parent + 1) /\
  h_parent_id (fb_header block) = h_id parent /\
  h_timestamp parent < h_timestamp (fb_header block) /\
  1 <= h_version (fb_header block) <= 4 /\
  NoDup (all_input_ids txs) /\
  exists sc, bvr_state_change (validate v block parent utxo_lookup hs) = Some sc /\
    vsc_created sc = all_created txs /\
    (is_below_checkpoint v (h_height (fb_header block)) = false ->
     sb_box_id <$> vsc_spent sc = all_input_ids txs /\
     bvr_total_cost (validate v block parent utxo_lookup hs) <= max_block_cost (parameters v)).
Proof.
  intros (sc & Hsc & Hh & _ & _ & Htx)%validate_block_ok Hmax txs.
  unfold validate_header in Hh.
  destruct (h_height (fb_header block) =? _) eqn:Eh; [|done]. cbn [negb] in Hh.
  destruct (_ <=? _) eqn:Et; [done|].
  destruct (bool_decide _) eqn:Ep; [|done]. cbn [negb] in Hh.
  destruct (_ <? 1) eqn:E1; [done|]. destruct (_ >? 4) eqn:E4; [done|]. zify_bool.
  apply bool_decide_eq_true in Ep. repeat split; try done; try lia.
  all: unfold validate_transactions in Htx;
    apply rbind_ok in Htx as (st & Hloop & [= Hcost Hsc']);
    apply loop_ok in Hloop as (Hnd & _ & Hcr & _ & Hsp); rewrite snd_zip_seq in *.
  - exact Hnd.
  - exists sc. split; [done|]. rewrite <- Hsc'. cbn [vsc_created vsc_spent]. split; [by rewrite Hcr|].
    intros Hb. rewrite Hb in Hsp. destruct Hsp as [Hsp Hle]. split; [done|].
    rewrite <- Hcost. by apply Hle.
Qed.

(** C2: above the checkpoint every transaction of an accepted block finds all
    its inputs and data inputs, in the UTXO set or created earlier in the block,
    and shares no box between them; its outputs are worth at most its inputs, in
    coins and in every token it may not mint, in sums modulo [2^64] and so
    exactly unless the sum of the outputs reaches [2^64]; no output is below the
    minimum; and, unless it is the first of the block or the validator is told
    to skip scripts, it passes script verification with just these boxes, at a
    cost within the limit. *)
Theorem valid_block_txs v (block : FullBlock Tx) parent utxo_lookup hs pre tx post :
  (forall m, map_iter m ≡ₚ map_to_list m) ->
  bvr_valid (validate v block parent utxo_lookup hs) = true ->
  is_below_checkpoint v (h_height (fb_header block)) = false ->
  bt_txs (fb_transactions block) = pre ++ tx :: post ->
  exists ins dins,
    let found := fun id b => find_box utxo_lookup (created_map pre) id = Some b in
    let coins := sumZ (box_value <$> ins) in
    let spent := sumZ (box_value <$> tx_outputs tx) in
    let paid id := token_total id (tokens_of ins) in
    let asked id := token_total id (tokens_of (tx_outputs tx)) in
    let result := verify_tx script_verify tx_io_max
      (mkTxVerifier (h_height (fb_header block)) (pre_header_of (fb_header block)) hs) tx ins dins in
    Forall2 found (input_ids tx) ins /\
    Forall2 found (default [] (tx_data_inputs tx)) dins /\
    (forall id, id ∈ default [] (tx_data_inputs tx) -> id ∉ input_ids tx) /\
    u64 spent <= u64 coins /\ (0 <= coins -> spent < 2 ^ 64 -> spent <= coins) /\
    (forall id, ~ mintable ins (length pre =? 0)%nat id ->
       u64 (asked id) <= u64 (paid id) /\ (0 <= paid id -> 0 <= asked id < 2 ^ 64 -> asked id <= paid id)) /\
    Forall (fun b => MIN_BOX_VALUE <= box_value b) (tx_outputs tx) /\
    (pre <> [] -> skip_script_verification v = false ->
     tvr_valid result = true /\ tvr_total_cost result <= max_block_cost (parameters v)).
Proof.
  intros Hiter (sc & Hsc & _ & _ & _ & Htx)%validate_block_ok Hb Hsplit.
  unfold validate_transactions in Htx. rewrite Hb, Hsplit, zip_seq_split in Htx.
  apply rbind_ok in Htx as (st & Hloop & _). rewrite rfold_app in Hloop.
  apply rbind_ok in Hloop as (st1 & Hpre & (st2 & Hone & _)%rbind_ok).
  apply loop_ok in Hpre as (_ & _ & _ & Hcm & _). rewrite snd_zip_seq in Hcm. cbn in Hcm.
  apply validate_tx_ok in Hone as (_ & _ & ins & c & _ & Hc).
  apply check_tx_ok in Hc as (dins & fee & Hins & Hdins & Hinter & Herg & Htok & Hmin & Hs).
  apply collect_input_boxes_ok in Hins. apply collect_data_input_boxes_ok in Hdins. rewrite Hcm in Hins, Hdins.
  apply erg_check_spec in Herg as [Hfee Herg]. apply check_min_values_ok in Hmin.
  exists ins, dins. cbv zeta. split; [exact Hins|]. split; [exact Hdins|]. split; [by apply no_intersection_ok|].
  assert (0 <= sumZ (box_value <$> tx_outputs tx)) as Hpos.
  { apply sumZ_nonneg, Forall_fmap. eapply Forall_impl; [exact Hmin|]. cbn. unfold MIN_BOX_VALUE. lia. }
  split; [lia|]. split; [intros Hp Hlt; apply u64_covers; lia|].
  split; [|split; [exact Hmin|]].
  - assert (is_ok (validate_token_conservation map_iter tx ins (length pre =? 0)%nat) = true) as Hok
      by by rewrite Htok.
    rewrite token_check_spec in Hok by done. intros id Hid. specialize (Hok id Hid).
    split; [exact Hok|]. intros. by apply u64_covers.
  - intros Hne Hskip. unfold check_scripts in Hs. rewrite Hskip in Hs.
    destruct (Nat.eqb_spec (length pre) 0) as [Hl|_]; [by apply nil_length_inv in Hl|].
    cbn [negb andb] in Hs. destruct (tvr_valid _); [|done]. cbn [negb] in Hs.
    destruct (tvr_total_cost _ >? _) eqn:Ec; [done|]. zify_bool. split; [done|lia].
Qed.

(** in checkpoint mode the state change of an accepted block spends
    nothing, whatever the transactions consume. *)
Theorem checkpoint_spends_nothing v (block : FullBlock Tx) parent utxo_lookup hs :
  bvr_valid (validate v block parent utxo_lookup hs) = true ->
  is_below_checkpoint v (h_height (fb_header block)) = true ->
  bvr_total_cost (validate v block parent utxo_lookup hs) = 0 /\
  exists sc, bvr_state_change (validate v block parent utxo_lookup hs) = Some sc /\
    vsc_spent sc = [] /\ vsc_created sc = all_created (bt_txs (fb_transactions block)).
Proof.
  intros (sc & Hsc & _ & _ & _ & Htx)%validate_block_ok Hb.
  unfold validate_transactions in Htx. apply rbind_ok in Htx as (st & Hloop & [= Hcost Hsc']).
  rewrite Hb in Hloop. apply loop_ok in Hloop as (_ & _ & Hcr & _ & Hsp & Hc).
  rewrite snd_zip_seq in Hcr. rewrite <- Hcost, Hc. split; [done|].
  exists sc. split; [done|]. by rewrite <- Hsc'.
Qed.
End Spec.

(** the scripts of the boxes spent by the first transaction are never
    run: two interpreters that disagree on everything accept the same
    single-transaction blocks. *)
Theorem first_tx_scripts_unchecked {ErgoBox Ext Tx PreHeader : Type}
    `{ErgoBoxOps ErgoBox} `{ExtensionOps Ext} `{TransactionOps ErgoBox Ext Tx} `{ChainTypes}
    `{Blake2b256} (script1 script2 : ErgoBox -> ScriptContext ErgoBox Ext PreHeader -> bytes -> bytes
       -> option (bool * Z)) tx_io_max merkle_root (pre_header_of : Header -> PreHeader) map_iter
    v (block : FullBlock Tx) parent utxo_lookup hs tx :
  bt_txs (fb_transactions block) = [tx] ->
  validate_block script1 tx_io_max merkle_root pre_header_of map_iter v block parent utxo_lookup hs =
  validate_block script2 tx_io_max merkle_root pre_header_of map_iter v block parent utxo_lookup hs.
Proof.
  intros Htx. unfold validate_block, validate_transactions. rewrite Htx.
  change (zip (seq 0 (length [tx])) [tx]) with [(0%nat, tx)]. cbn [rfold].
  unfold validate_tx, check_tx, check_scripts. cbn [Nat.eqb negb].
  by rewrite andb_false_r.
Qed.

Module Example.
Import Toy.

Definition box (i v : Z) : toy_box := mk_toy_box i v 7 None.
Definition tx0 : toy_tx := mk_toy_tx 20 [1] [] [box 2 600; box 3 400].
Definition tx1 : toy_tx := mk_toy_tx 21 [3] [] [box 4 400].
Definition accept (b : toy_box) (c : ScriptContext toy_box (option Z) unit) (proof msg : bytes)
  : option (bool * Z) := Some (true, 500).
Definition reject (b : toy_box) (c : ScriptContext toy_box (option Z) unit) (proof msg : bytes)
  : option (bool * Z) := Some (false, 500).
Definition lookup (id : bytes) : option toy_box :=
  if bool_decide (id = be_bytes 32 1) then Some (box 1 1000) else None.
Definition merkle (leaves : list bytes) : bytes := be_bytes 32 (sumZ (be_val <$> leaves)).

Definition txs (l : list toy_tx) : BlockTransactions toy_tx := mkBlockTransactions (replicate 32 6) l 1.
Definition header (h : Z) (l : list toy_tx) : Header :=
  mkHeader 2 (replicate 32 6) (replicate 32 0) [] [] (compute_merkle_root merkle (txs l)) h 0 h []
    (h_autolykos_solution genesis_parent_header) [] [].
Definition block (l : list toy_tx) : FullBlock toy_tx :=
  mkFullBlock (header 1 l) (txs l) (Extension_empty (replicate 32 6)) None.

Abbreviation run script v l :=
  (validate_block script 100 merkle (fun _ => tt) map_to_list v (block l) genesis_parent_header lookup []).

Lemma run_valid : bvr_valid (run accept without_checkpoint [tx0; tx1]) = true.
Proof. vm_compute. reflexivity. Qed.

Lemma run_checkpoint_valid : bvr_valid (run accept FullBlockValidator_new [tx0; tx1]) = true.
Proof. vm_compute. reflexivity. Qed.

Lemma valid_block_sound_witness :
  NoDup (all_input_ids (bt_txs (fb_transactions (block [tx0; tx1])))).
Proof.
  apply (valid_block_sound accept 100 merkle (fun _ => tt) map_to_list without_checkpoint
    (block [tx0; tx1]) genesis_parent_header lookup []); [apply run_valid|cbn; lia].
Defined.

Lemma valid_block_txs_witness :
  exists ins, Forall2 (fun id b => find_box lookup (created_map [tx0]) id = Some b) (input_ids tx1) ins /\
    u64 (sumZ (box_value <$> tx_outputs tx1)) <= u64 (sumZ (box_value <$> ins)).
Proof.
  destruct (valid_block_txs accept 100 merkle (fun _ => tt) map_to_list without_checkpoint
    (block [tx0; tx1]) genesis_parent_header lookup [] [tx0] tx1 []) as (ins & dins & Hins & _ & _ & Hc & _);
    [done|apply run_valid|reflexivity|reflexivity|].
  by exists ins.
Defined.

Lemma checkpoint_spends_nothing_witness :
  exists sc, bvr_state_change (run accept FullBlockValidator_new [tx0; tx1]) = Some sc /\ vsc_spent sc = [].
Proof.
  destruct (checkpoint_spends_nothing accept 100 merkle (fun _ => tt) map_to_list FullBlockValidator_new
    (block [tx0; tx1]) genesis_parent_header lookup []) as (_ & sc & Hsc & Hsp & _);
    [apply run_checkpoint_valid|reflexivity|by exists sc].
Defined.

Lemma first_tx_scripts_unchecked_witness :
  bvr_valid (run reject without_checkpoint [tx0]) = true.
Proof.
  rewrite (first_tx_scripts_unchecked reject accept 100 merkle (fun _ => tt) map_to_list
    without_checkpoint (block [tx0]) genesis_parent_header lookup [] tx0) by reflexivity.
  vm_compute. reflexivity.
Defined.

End Example.
