(* ===== verification/Nipopow.v ===== *)
(** * Non-interactive proofs of proof of work
      (crates/ergo-consensus/src/nipopow)

    Superblock levels and scores, packing of interlinks into an extension,
    proofs and their validation and comparison, and the verifier that keeps the
    best proof. *)

From S2P Require Export ErgoTypes.

Local Open Scope Z_scope.

Definition DEFAULT_M : Z := 30.
Definition DEFAULT_K : Z := 30.

(** ** Levels and scores (algos.rs) *)

Definition decode_nbits (nbits : Z) : Z :=
  let exponent := Z.shiftr nbits 24 in
  let mantissa := Z.land nbits 0x007FFFFF in
  if exponent <=? 3 then Z.shiftr mantissa (8 * (3 - exponent))
  else Z.shiftl mantissa (8 * (exponent - 3)).

(** [ratio.bits()] is [Z.log2 ratio + 1] for a positive ratio. *)
Definition max_level_of (nbits : Z) (pow_hit : bytes) (is_genesis : bool) : Z :=
  if is_genesis then 2 ^ 32 - 1
  else
    let target := decode_nbits nbits in
    let hit := be_val pow_hit in
    if (hit =? 1) || (hit =? 0) then 0
    else if target <=? hit then 0
    else
      let ratio := target / hit in
      if ratio =? 0 then 0 else u32 (Z.log2 ratio).

(** The loop of [best_arg]; the shift count is taken modulo 64 and the
    product wraps.  It stops by itself above level 256. *)
Fixpoint best_arg_loop (fuel : nat) (levels : list Z) (m level best_score : Z) : Z :=
  match fuel with
  | O => best_score
  | S fuel' =>
      let superblock_count := Z.of_nat (length (base.filter (fun l => level <= l) levels)) in
      if superblock_count >=? u64 m then
        let score := i64 (i64 (Z.shiftl 1 (level mod 64)) * superblock_count) in
        best_arg_loop fuel' levels m (level + 1) (Z.max best_score score)
      else best_score
  end.

Definition best_arg (levels : list Z) (m : Z) : Z :=
  match levels with
  | [] => 0
  | _ => best_arg_loop 256 levels m 1 (i64 (Z.of_nat (length levels)))
  end.

(** [count_superblocks_by_level]: how many blocks reach each level up to the
    highest.  The length of the vector is a [u32] computation; an index beyond
    it panics. *)
Definition count_level (counts : list Z) (level : Z) : result (list Z) string :=
  if level <? Z.of_nat (length counts)
  then Ok (imap (fun l c => if Z.of_nat l <=? level then c + 1 else c) counts)
  else Err "index out of bounds"%string.

Definition count_superblocks_by_level (levels : list Z) : result (list Z) string :=
  match levels with
  | [] => Ok []
  | _ =>
      let max_level := fold_left Z.max levels 0 in
      rfold count_level (replicate (Z.to_nat (u32 (max_level + 1))) 0) levels
  end.

(** ** Interlinks (interlinks.rs) *)

Definition INTERLINKS_VECTOR_PREFIX : Z := 1.

(** The number of leading elements equal to [link]. *)
Fixpoint run_length (link : bytes) (links : list bytes) : nat :=
  match links with
  | [] => 0
  | x :: links' => if decide (x = link) then S (run_length link links') else 0
  end.

(** The loop of [pack_interlinks]; every turn consumes at least one link. *)
Fixpoint pack_loop (fuel : nat) (links : list bytes) (idx : Z) : list (bytes * bytes) :=
  match fuel with
  | O => []
  | S fuel' =>
      match links with
      | [] => []
      | link :: _ =>
          let count := Nat.min (run_length link links) 255 in
          let key := [INTERLINKS_VECTOR_PREFIX; idx] in
          let value := Z.of_nat count :: link in
          (key, value) :: pack_loop fuel' (drop count links) (u8 (idx + 1))
      end
  end.

Definition pack_interlinks (links : list bytes) : list (bytes * bytes) :=
  pack_loop (length links) links 0.

(** The stable [sort_by_key] on the second byte of the key. *)
Definition key_index (f : bytes * bytes) : Z := nth 1 f.1 0.

Fixpoint insert_by_key (f : bytes * bytes) (l : list (bytes * bytes)) : list (bytes * bytes) :=
  match l with
  | [] => [f]
  | g :: l' => if key_index f <=? key_index g then f :: l else g :: insert_by_key f l'
  end.

Fixpoint sort_by_key (l : list (bytes * bytes)) : list (bytes * bytes) :=
  match l with
  | [] => []
  | f :: l' => insert_by_key f (sort_by_key l')
  end.

Definition is_interlink_field (f : bytes * bytes) : bool :=
  (length f.1 =? 2)%nat && (nth 0 f.1 0 =? INTERLINKS_VECTOR_PREFIX) && (length f.2 =? 33)%nat.

Definition unpack_interlinks (fields : list (bytes * bytes)) : result (list bytes) ConsensusError :=
  let interlink_fields :=
    sort_by_key (base.filter (fun f => is_interlink_field f = true) fields) in
  rfold (fun acc '(key, value) =>
    let count := Z.to_nat (nth 0 value 0) in
    if (count =? 0)%nat then Err (CE_Validation "Invalid interlinks: zero count")
    else Ok (acc ++ replicate count (slice 1 33 value))) [] interlink_fields.

Definition update_interlinks (prev_header_id : bytes) (prev_level : Z) (prev_interlinks : list bytes)
    (is_genesis : bool) : list bytes :=
  if is_genesis then [prev_header_id]
  else match prev_interlinks with
  | [] => [prev_header_id]
  | genesis :: tail =>
      if prev_level =? 0 then prev_interlinks
      else
        let level := Z.to_nat prev_level in
        let result :=
          genesis :: (if (level <? length tail)%nat then take (length tail - level) tail else []) in
        result ++ replicate level prev_header_id
  end.

(** ** Proofs (popow_header.rs, proof.rs) *)

Section Nipopow.
Context `{ChainTypes}.

Record PoPowHeader := mkPoPowHeader {
  pp_header : Header;
  pp_interlinks : list bytes;
  pp_interlinks_proof : bytes
}.

Definition pp_id (p : PoPowHeader) : bytes := h_id (pp_header p).
Definition pp_height (p : PoPowHeader) : Z := h_height (pp_header p).
Definition pp_parent_id (p : PoPowHeader) : bytes := h_parent_id (pp_header p).
Definition pp_is_genesis (p : PoPowHeader) : bool := h_height (pp_header p) =? 1.

Definition connects_to (p : PoPowHeader) (other_id : bytes) : bool :=
  if bool_decide (pp_parent_id p = other_id) then true
  else existsb (fun link => bool_decide (link = other_id)) (pp_interlinks p).

Record PoPowParams := mkPoPowParams { par_m : Z; par_k : Z; par_continuous : bool }.
Definition PoPowParams_default : PoPowParams := mkPoPowParams DEFAULT_M DEFAULT_K false.
Definition PoPowParams_for_p2p : PoPowParams := mkPoPowParams DEFAULT_M DEFAULT_K true.

Definition interlink_at (p : PoPowHeader) (level : nat) : option bytes := pp_interlinks p !! level.
Definition pp_genesis_id (p : PoPowHeader) : option bytes := head (pp_interlinks p).

Record NipopowProof := mkNipopowProof {
  np_m : Z;
  np_k : Z;
  np_prefix : list PoPowHeader;
  np_suffix_head : PoPowHeader;
  np_suffix_tail : list Header;
  np_continuous : bool
}.

Definition np_genesis_id (p : NipopowProof) : option bytes := pp_id <$> head (np_prefix p).

Definition headers_chain (p : NipopowProof) : list Header :=
  (pp_header <$> np_prefix p) ++ [pp_header (np_suffix_head p)] ++ np_suffix_tail p.

Definition tip_height (p : NipopowProof) : Z :=
  match last (np_suffix_tail p) with Some h => h_height h | None => pp_height (np_suffix_head p) end.

Definition tip_id (p : NipopowProof) : bytes :=
  match last (np_suffix_tail p) with Some h => h_id h | None => pp_id (np_suffix_head p) end.

(** All pairs of neighbours satisfy a test: [windows(2)]. *)
Fixpoint windows_ok {A} (f : A -> A -> bool) (l : list A) : bool :=
  match l with
  | x :: (y :: _) as l' => f x y && windows_ok f l'
  | _ => true
  end.

Definition has_valid_heights (p : NipopowProof) : bool :=
  windows_ok (fun a b => negb (a >=? b)) (h_height <$> headers_chain p).

(** The suffix is a plain parent chain. *)
Fixpoint tail_connected (prev_id : bytes) (tail : list Header) : bool :=
  match tail with
  | [] => true
  | h :: tail' => bool_decide (h_parent_id h = prev_id) && tail_connected (h_id h) tail'
  end.

Definition has_valid_connections (p : NipopowProof) : bool :=
  windows_ok (fun prev curr => connects_to curr (pp_id prev)) (np_prefix p)
  && match last (np_prefix p) with
     | Some last_prefix => connects_to (np_suffix_head p) (pp_id last_prefix)
     | None => true
     end
  && tail_connected (pp_id (np_suffix_head p)) (np_suffix_tail p).

Definition np_validate (p : NipopowProof) : result unit ConsensusError :=
  if bool_decide (np_prefix p = []) then
    Err (CE_Validation "NiPoPoW proof prefix cannot be empty")
  else if np_k p <? 1 then Err (CE_Validation "NiPoPoW k parameter must be >= 1")
  else
    let suffix_len := 1 + Z.of_nat (length (np_suffix_tail p)) in
    if negb (suffix_len =? u64 (np_k p)) then
      Err (CE_Validation "NiPoPoW suffix length mismatch")
    else if negb (has_valid_heights p) then
      Err (CE_Validation "NiPoPoW proof has invalid heights")
    else if negb (has_valid_connections p) then
      Err (CE_Validation "NiPoPoW proof has invalid connections")
    else Ok tt.

Definition is_valid (p : NipopowProof) : bool := is_ok (np_validate p).

(** The levels of the headers above a height: the code uses 0 for each. *)
Definition diverging (p : NipopowProof) (branch_height : Z) : list Z :=
  (fun _ => 0) <$> base.filter (fun h => branch_height < h_height h) (headers_chain p).

Definition is_better_than (p other : NipopowProof) : bool :=
  if negb (is_valid p) then false
  else if negb (is_valid other) then true
  else
    let this_ids := h_id <$> headers_chain p in
    match h_height <$> head (base.filter (fun h => h_id h ∈ this_ids) (headers_chain other)) with
    | None => tip_height p >? tip_height other
    | Some branch_height =>
        let this_score := best_arg (diverging p branch_height) (np_m p) in
        let other_score := best_arg (diverging other branch_height) (np_m other) in
        this_score >? other_score
    end.

(** [serialize] and [parse], which the code leaves to be written. *)
Definition np_serialize (p : NipopowProof) : bytes := [].
Definition np_parse (data : bytes) : result NipopowProof ConsensusError :=
  Err (CE_Validation "NiPoPoW proof parsing not yet implemented").

(** ** The verifier (verifier.rs) *)

Inductive NipopowVerificationResult :=
  | BetterChain (proofs_processed : Z)
  | NoBetterChain (proofs_processed : Z)
  | ValidationError (e : ConsensusError)
  | WrongGenesis.

Record NipopowVerifier := mkNipopowVerifier {
  nv_genesis_id : option bytes;
  nv_best_proof : option NipopowProof;
  nv_proofs_processed : Z;
  nv_min_proofs : Z;
  nv_params : PoPowParams
}.

Definition NipopowVerifier_new : NipopowVerifier :=
  mkNipopowVerifier None None 0 1 PoPowParams_default.
Definition with_genesis (genesis_id : bytes) : NipopowVerifier :=
  mkNipopowVerifier (Some genesis_id) None 0 1 PoPowParams_default.

Definition verifier_with_params (params : PoPowParams) (min_proofs : Z) : NipopowVerifier :=
  mkNipopowVerifier None None 0 min_proofs params.
Definition set_genesis_id (v : NipopowVerifier) (id : bytes) : NipopowVerifier :=
  mkNipopowVerifier (Some id) (nv_best_proof v) (nv_proofs_processed v) (nv_min_proofs v) (nv_params v).

Definition has_quorum (v : NipopowVerifier) : bool :=
  (nv_proofs_processed v >=? nv_min_proofs v) && bool_decide (is_Some (nv_best_proof v)).

(** [process], with the verifier it leaves. *)
Definition process (v : NipopowVerifier) (proof : NipopowProof)
    : NipopowVerificationResult * NipopowVerifier :=
  let processed := i32 (nv_proofs_processed v + 1) in
  let v := mkNipopowVerifier (nv_genesis_id v) (nv_best_proof v) processed
             (nv_min_proofs v) (nv_params v) in
  match np_validate proof with
  | Err e => (ValidationError e, v)
  | Ok _ =>
      let wrong :=
        match nv_genesis_id v, np_genesis_id proof with
        | Some expected, Some g => negb (bool_decide (g = expected))
        | _, _ => false
        end in
      if wrong then (WrongGenesis, v)
      else
        let genesis :=
          match nv_genesis_id v with Some g => Some g | None => np_genesis_id proof end in
        let is_better :=
          match nv_best_proof v with
          | None => true
          | Some current_best => is_better_than proof current_best
          end in
        if is_better then
          (BetterChain processed,
           mkNipopowVerifier genesis (Some proof) processed (nv_min_proofs v) (nv_params v))
        else
          (NoBetterChain processed,
           mkNipopowVerifier genesis (nv_best_proof v) processed (nv_min_proofs v) (nv_params v))
  end.

Definition nv_reset (v : NipopowVerifier) : NipopowVerifier :=
  mkNipopowVerifier (nv_genesis_id v) None 0 (nv_min_proofs v) (nv_params v).

Definition get_headers_to_apply (v : NipopowVerifier) : option (list Header) :=
  if negb (has_quorum v) then None else headers_chain <$> nv_best_proof v.

End Nipopow.

(** ** Superblock counts *)

Lemma fold_max_le levels a : a <= fold_left Z.max levels a /\ Forall (fun l => l <= fold_left Z.max levels a) levels.
Proof.
  revert a. induction levels as [|l levels IH]; intros a; cbn [fold_left]; [split; [lia|constructor]|].
  destruct (IH (Z.max a l)) as [H1 H2]. split; [lia|]. constructor; [lia|exact H2].
Qed.

Lemma count_levels_spec levels counts :
  Forall (fun l => l < Z.of_nat (length counts)) levels ->
  rfold count_level counts levels =
  Ok (imap (fun i c => c + Z.of_nat (length (base.filter (fun l => Z.of_nat i <= l) levels))) counts).
Proof.
  revert counts. induction levels as [|l levels IH]; intros counts Hl; cbn [rfold].
  - f_equal. apply list_eq. intros i. rewrite list_lookup_imap. destruct (counts !! i) as [c|]; [|done].
    cbn. f_equal. lia.
  - apply Forall_cons in Hl as [Hl Hls]. unfold count_level at 1.
    rewrite (proj2 (Z.ltb_lt _ _) Hl). cbn [rbind]. rewrite IH by (by rewrite length_imap).
    f_equal. apply list_eq. intros i. rewrite !list_lookup_imap. destruct (counts !! i) as [c|]; [|done].
    cbn [fmap option_fmap option_map]. f_equal. rewrite filter_cons.
    destruct (Z.leb_spec (Z.of_nat i) l); [rewrite decide_True by done|rewrite decide_False by lia]; cbn [length]; lia.
Qed.

(** Below the level the code gives to genesis, every level up to the highest
    gets the number of blocks that reach it; with a genesis block among them
    the length of the vector wraps to zero and the first count panics. *)
Theorem superblock_counts levels :
  Forall (in_u 32) levels -> levels <> [] ->
  let top := fold_left Z.max levels 0 in
  count_superblocks_by_level levels =
    if top =? 2 ^ 32 - 1 then Err "index out of bounds"%string
    else Ok ((fun i => Z.of_nat (length (base.filter (fun l => Z.of_nat i <= l) levels))) <$> seq 0 (Z.to_nat (top + 1))).
Proof.
  intros Hu Hne top. unfold count_superblocks_by_level. destruct levels as [|l0 levels0]; [done|].
  set (levels := l0 :: levels0) in *. change (fold_left Z.max levels 0) with top.
  destruct (fold_max_le levels 0) as [H0 Hmax]. fold top in H0, Hmax.
  assert (top <= 2 ^ 32 - 1) as Htop.
  { assert (forall ls a, a <= 2 ^ 32 - 1 -> Forall (in_u 32) ls -> fold_left Z.max ls a <= 2 ^ 32 - 1) as Hb.
    { intros ls. induction ls as [|x ls IH]; intros a Ha Hls; cbn [fold_left]; [done|].
      apply Forall_cons in Hls as [Hx Hls]. apply IH; [unfold in_u in Hx; lia|done]. }
    apply Hb; [lia|done]. }
  destruct (Z.eqb_spec top (2 ^ 32 - 1)) as [->|Hn].
  - change (Z.to_nat (u32 (2 ^ 32 - 1 + 1))) with 0%nat. unfold levels. cbn [replicate rfold].
    unfold count_level at 1. apply Forall_cons in Hu as [Hx _]. unfold in_u in Hx. cbn [length].
    by rewrite (proj2 (Z.ltb_ge _ _)) by lia.
  - unfold wrap. rewrite Z.mod_small by lia. rewrite count_levels_spec.
    + f_equal. apply list_eq. intros i. rewrite list_lookup_imap, list_lookup_fmap.
      destruct (decide (i < Z.to_nat (top + 1))%nat) as [Hi|Hi].
      * rewrite lookup_replicate_2 by done. rewrite lookup_seq_lt by done. cbn. f_equal.
      * rewrite (lookup_ge_None_2 (replicate _ _)) by (rewrite length_replicate; lia).
        by rewrite (lookup_ge_None_2 (seq _ _)) by (rewrite length_seq; lia).
    + rewrite length_replicate. eapply Forall_impl; [exact Hmax|]. intros l Hl. cbv beta in *. lia.
Qed.

(** ** Lemmas: interlinks *)

Lemma run_length_spec link links :
  take (run_length link links) links = replicate (run_length link links) link.
Proof.
  induction links as [|x links IH]; cbn [run_length]; [done|].
  case_decide as Hx; [subst|done]. cbn [take replicate]. by rewrite IH.
Qed.

Lemma run_length_le link links : (run_length link links <= length links)%nat.
Proof. induction links as [|x links IH]; cbn [run_length length]; [lia|]. case_decide; lia. Qed.

Lemma run_prefix link links n :
  (n <= run_length link links)%nat -> links = replicate n link ++ drop n links.
Proof.
  intros Hn. rewrite <- (take_drop n links) at 1. f_equal.
  rewrite <- (Nat.min_l n (run_length link links)) at 1 by lia.
  rewrite <- take_take, run_length_spec. by rewrite take_replicate, Nat.min_l by lia.
Qed.

Lemma pack_loop_length fuel links idx :
  (length links <= fuel)%nat -> (length (pack_loop fuel links idx) <= length links)%nat.
Proof.
  revert links idx. induction fuel as [|fuel IH]; intros [|link links] idx Hf; cbn [pack_loop length] in *; try lia.
  set (count := Nat.min _ 255).
  assert (1 <= count)%nat by (unfold count; cbn [run_length]; rewrite decide_True by done; lia).
  specialize (IH (drop count (link :: links)) (u8 (idx + 1))). rewrite length_drop in IH. cbn [length] in IH. lia.
Qed.

(** Packed fields: interlink fields with consecutive indices. *)
Lemma pack_loop_fields fuel links idx :
  Forall (fun l => length l = 32%nat) links -> 0 <= idx ->
  idx + Z.of_nat (length (pack_loop fuel links idx)) <= 256 ->
  Forall (fun f => is_interlink_field f = true /\ idx <= key_index f) (pack_loop fuel links idx) /\
  StronglySorted (fun f g => key_index f <= key_index g) (pack_loop fuel links idx).
Proof.
  revert links idx. induction fuel as [|fuel IH]; intros [|link links] idx Hl Hi Hb; cbn [pack_loop] in *;
    try (split; constructor; fail).
  set (count := Nat.min _ 255) in *. cbn [length] in Hb.
  inversion Hl as [|?? Hlen Hls]; subst.
  destruct (decide (idx = 255)) as [->|Hne].
  - change (u8 (255 + 1)) with 0 in *.
    assert (pack_loop fuel (drop count (link :: links)) 0 = []) as ->
      by (apply length_zero_iff_nil; lia).
    split; constructor; try constructor; try (cbn; lia).
    unfold is_interlink_field. cbn [fst snd length nth]. by rewrite Hlen.
  - assert (u8 (idx + 1) = idx + 1) as Hidx.
    { apply wrap_small. unfold in_u. pose proof (Nat2Z.is_nonneg
        (length (pack_loop fuel (drop count (link :: links)) (u8 (idx + 1))))). lia. }
    rewrite Hidx in *.
    destruct (IH (drop count (link :: links)) (idx + 1)) as [Hf Hs]; [by apply Forall_drop|lia|lia|].
    split; constructor.
    + unfold is_interlink_field. cbn [fst snd length nth]. rewrite Hlen. split; [done|]. cbn. lia.
    + eapply Forall_impl; [exact Hf|]. cbn. intros f [? ?]. split; [done|lia].
    + done.
    + eapply Forall_impl; [exact Hf|]. intros f [_ Hf']. unfold key_index at 1. cbn. lia.
Qed.

Lemma sort_by_key_sorted l :
  StronglySorted (fun f g => key_index f <= key_index g) l -> sort_by_key l = l.
Proof.
  induction 1 as [|f l Hs IH Hf]; cbn [sort_by_key]; [done|]. rewrite IH.
  destruct l as [|g l]; cbn [insert_by_key]; [done|].
  inversion Hf; subst. destruct (Z.leb_spec (key_index f) (key_index g)); [done|lia].
Qed.

Lemma unpack_pack_loop fuel links idx acc :
  (length links <= fuel)%nat -> Forall (fun l => length l = 32%nat) links ->
  rfold (fun acc '(key, value) =>
    let count := Z.to_nat (nth 0 value 0) in
    if (count =? 0)%nat then Err (CE_Validation "Invalid interlinks: zero count")
    else Ok (acc ++ replicate count (slice 1 33 value))) acc (pack_loop fuel links idx)
  = Ok (acc ++ links).
Proof.
  revert links idx acc. induction fuel as [|fuel IH]; intros [|link links] idx acc Hf Hl;
    cbn [pack_loop rfold length] in *; try lia; try (by rewrite app_nil_r).
  set (count := Nat.min _ 255).
  assert (1 <= count <= run_length link (link :: links))%nat as Hc
    by (unfold count; cbn [run_length]; rewrite decide_True by done; lia).
  cbn [nth]. rewrite Nat2Z.id. destruct (Nat.eqb_spec count 0); [lia|]. cbn [rbind].
  inversion Hl as [|?? Hlen Hls]; subst.
  rewrite IH.
  - rewrite <- app_assoc. do 2 f_equal.
    assert (slice 1 33 (Z.of_nat count :: link) = link) as ->
      by (unfold slice; change (drop 1 (Z.of_nat count :: link)) with link;
          apply take_ge; rewrite Hlen; lia).
    symmetry. apply run_prefix. lia.
  - rewrite length_drop. cbn [length]. lia.
  - by apply Forall_drop.
Qed.

(** ** Lemmas: proofs *)

Section Proofs.
Context `{ChainTypes}.

Lemma windows_sorted (l : list Z) :
  windows_ok (fun a b => negb (a >=? b)) l = true -> StronglySorted Z.lt l.
Proof.
  induction l as [|x l IH]; [constructor|]. destruct l as [|y l].
  { intros _. constructor; [apply IH; done|constructor]. }
  intros [Hxy Hl]%andb_true_iff. fold (windows_ok (fun a b => negb (a >=? b)) (y :: l)) in Hl.
  apply IH in Hl. zify_bool. constructor; [done|].
  inversion Hl as [|?? Hs Hf]; subst. constructor; [lia|].
  eapply Forall_impl; [exact Hf|]. cbn. lia.
Qed.

Lemma windows_pairs {A} (f : A -> A -> bool) (l : list A) i x y :
  windows_ok f l = true -> l !! i = Some x -> l !! S i = Some y -> f x y = true.
Proof.
  revert i. induction l as [|a l IH]; intros i Hw Hx Hy; [done|].
  destruct l as [|b l]; [done|]. apply andb_true_iff in Hw as [Hab Hw].
  destruct i as [|i]; [by injection Hx as <-; injection Hy as <-|]. by apply (IH i).
Qed.

Lemma validate_ok (p : NipopowProof) :
  np_validate p = Ok tt ->
  np_prefix p <> [] /\ 1 <= np_k p /\ 1 + Z.of_nat (length (np_suffix_tail p)) = u64 (np_k p) /\
  has_valid_heights p = true /\ has_valid_connections p = true.
Proof.
  unfold np_validate. destruct (bool_decide _) eqn:E1; [done|].
  destruct (_ <? 1) eqn:E2; [done|]. destruct (_ =? _) eqn:E3; [|done].
  destruct (has_valid_heights p); [|done]. destruct (has_valid_connections p); [|done].
  intros _. zify_bool. apply bool_decide_eq_false in E1. done.
Qed.

Lemma is_valid_ok (p : NipopowProof) : is_valid p = true -> np_validate p = Ok tt.
Proof. unfold is_valid. by destruct (np_validate p) as [[]|]. Qed.

(** A score of headers that all have level 0 is their number. *)
Lemma best_arg_loop_zeros fuel n m level best :
  0 < level -> 0 <= best -> best_arg_loop fuel (replicate n 0) m level best = best.
Proof.
  revert level best. induction fuel as [|fuel IH]; intros level best Hl Hb; cbn [best_arg_loop]; [done|].
  assert (base.filter (fun l => level <= l) (replicate n 0) = []) as ->.
  { clear IH. induction n as [|n IHn]; [done|]. cbn [replicate]. rewrite filter_cons_False by lia. done. }
  cbn [length]. destruct (_ >=? _); [|done]. rewrite Z.mul_0_r. change (i64 0) with 0.
  rewrite Z.max_l by lia. apply IH; lia.
Qed.

Lemma best_arg_zeros n m : Z.of_nat n < 2 ^ 63 -> best_arg (replicate n 0) m = Z.of_nat n.
Proof.
  intros Hn. destruct n as [|n]; [done|]. unfold best_arg. cbn [replicate].
  change (0 :: replicate n 0) with (replicate (S n) 0).
  assert (i64 (Z.of_nat (S n)) = Z.of_nat (S n)) as Hi
    by (apply swrap_small; unfold in_i; change (2 ^ (64 - 1)) with (2 ^ 63); lia).
  rewrite length_replicate, Hi. apply best_arg_loop_zeros; lia.
Qed.

(** Of a valid proof, everything after its first header is above it. *)
Lemma diverging_first (p : NipopowProof) h tl :
  np_validate p = Ok tt -> headers_chain p = h :: tl ->
  diverging p (h_height h) = replicate (length tl) 0.
Proof.
  intros (_ & _ & _ & Hh & _)%validate_ok Hc. unfold has_valid_heights in Hh. unfold diverging.
  rewrite Hc in *. apply windows_sorted in Hh. cbn [fmap list_fmap] in Hh.
  inversion Hh as [|?? _ Hf]; subst. rewrite filter_cons_False by lia.
  clear Hc Hh. induction tl as [|g tl IH]; [done|]. cbn [fmap list_fmap] in Hf.
  inversion Hf; subst. rewrite filter_cons_True by done. cbn [fmap list_fmap length replicate].
  f_equal. by apply IH.
Qed.

Lemma chain_head (p : NipopowProof) :
  np_validate p = Ok tt -> exists q qs, np_prefix p = q :: qs /\
    headers_chain p = pp_header q :: (pp_header <$> qs) ++ pp_header (np_suffix_head p) :: np_suffix_tail p.
Proof.
  intros (Hne & _)%validate_ok. destruct (np_prefix p) as [|q qs] eqn:E; [done|].
  exists q, qs. split; [done|]. unfold headers_chain. by rewrite E.
Qed.

(** Two valid proofs whose first headers have one identifier and one height
    are compared by the number of headers. *)
Lemma is_better_same_start (p q : NipopowProof) hp hq tp tq :
  np_validate p = Ok tt -> np_validate q = Ok tt ->
  headers_chain p = hp :: tp -> headers_chain q = hq :: tq ->
  h_id hp = h_id hq -> h_height hp = h_height hq ->
  Z.of_nat (length (headers_chain p)) < 2 ^ 63 -> Z.of_nat (length (headers_chain q)) < 2 ^ 63 ->
  is_better_than p q = (length (headers_chain q) <? length (headers_chain p))%nat.
Proof.
  intros Hp Hq Ep Eq Hid Hht Hlp Hlq. unfold is_better_than, is_valid. rewrite Hp, Hq. cbn [is_ok negb].
  assert (head (base.filter (fun h => h_id h ∈ h_id <$> headers_chain p) (headers_chain q)) = Some hq) as ->.
  { rewrite Eq. rewrite filter_cons_True; [done|]. rewrite Ep. cbn [fmap list_fmap].
    rewrite <- Hid. apply list_elem_of_here. }
  cbn [fmap option_fmap option_map].
  rewrite (diverging_first q hq tq Hq Eq), <- Hht, (diverging_first p hp tp Hp Ep).
  rewrite Ep, Eq in *. cbn [length] in *. rewrite !best_arg_zeros by lia.
  rewrite Z.gtb_ltb. destruct (Z.ltb_spec (Z.of_nat (length tq)) (Z.of_nat (length tp))),
    (Nat.ltb_spec (S (length tq)) (S (length tp))); done || lia.
Qed.
End Proofs.

Section Verifier.
Context `{ChainTypes}.

Definition process_all (v : NipopowVerifier) (ps : list NipopowProof) : NipopowVerifier :=
  fold_left (fun v p => (process v p).2) ps v.

(** What one step of a verifier that knows its genesis does to the best
    proof. *)
Lemma process_best (v : NipopowVerifier) p g :
  nv_genesis_id v = Some g ->
  nv_genesis_id (process v p).2 = Some g /\
  nv_best_proof (process v p).2 =
    if is_valid p && bool_decide (np_genesis_id p = Some g)
       && match nv_best_proof v with None => true | Some b => is_better_than p b end
    then Some p else nv_best_proof v.
Proof.
  intros Hg. unfold process, is_valid. cbn [nv_genesis_id nv_best_proof nv_min_proofs nv_params].
  destruct (np_validate p) as [[]|e] eqn:Ev; [|by rewrite Hg]. rewrite Hg. cbn [is_ok andb].
  destruct (chain_head p Ev) as (q & qs & Eq & _). unfold np_genesis_id. rewrite Eq.
  cbn [head fmap option_fmap option_map].
  destruct (bool_decide (pp_id q = g)) eqn:Eb.
  - apply bool_decide_eq_true in Eb as ->. rewrite bool_decide_true by done.
    cbn [negb andb]. by destruct (match nv_best_proof v with None => _ | Some _ => _ end).
  - apply bool_decide_eq_false in Eb. rewrite bool_decide_false by congruence. done.
Qed.
End Verifier.

(** * Properties *)

(** interlinks survive packing into an extension next to any other
    fields, when they form at most 256 entries (an entry is a run of at most
    255 equal identifiers). *)
Theorem interlinks_roundtrip links before after :
  Forall (fun l => length l = 32%nat) links ->
  Z.of_nat (length (pack_interlinks links)) <= 256 ->
  Forall (fun f => is_interlink_field f = false) (before ++ after) ->
  unpack_interlinks (before ++ pack_interlinks links ++ after) = Ok links.
Proof.
  intros Hl Hn [Hb Ha]%Forall_app. unfold unpack_interlinks.
  destruct (pack_loop_fields (length links) links 0 Hl ltac:(lia) Hn) as [Hf Hs].
  assert (forall l, Forall (fun f => is_interlink_field f = false) l ->
    base.filter (fun f => is_interlink_field f = true) l = []) as Hnone.
  { induction 1 as [|f l Hff _ IH]; [done|]. rewrite filter_cons_False by congruence. done. }
  assert (base.filter (fun f => is_interlink_field f = true) (pack_interlinks links)
    = pack_interlinks links) as Hall.
  { unfold pack_interlinks. clear Hs Hn. induction Hf as [|f l [Hff _] _ IH]; [done|].
    rewrite filter_cons_True by done. by rewrite IH. }
  rewrite !filter_app, (Hnone before), (Hnone after), Hall by done. rewrite app_nil_r. cbn [app].
  unfold pack_interlinks. rewrite sort_by_key_sorted by done.
  by apply (unpack_pack_loop (length links) links 0 []).
Qed.

Section Spec.
Context `{ChainTypes}.

(** a valid proof is a chain of strictly increasing heights that starts
    with its prefix and ends with exactly [k] suffix headers; every prefix
    header and the head of the suffix names its predecessor as parent or
    interlink, and the rest of the suffix is a parent chain. *)
Theorem valid_proof_sound (p : NipopowProof) :
  is_valid p = true -> in_i 32 (np_k p) ->
  StronglySorted Z.lt (h_height <$> headers_chain p) /\
  Z.of_nat (length (headers_chain p)) = Z.of_nat (length (np_prefix p)) + np_k p /\
  (1 <= length (np_prefix p))%nat /\
  (forall i a b, (np_prefix p ++ [np_suffix_head p]) !! i = Some a ->
     (np_prefix p ++ [np_suffix_head p]) !! S i = Some b ->
     pp_parent_id b = pp_id a \/ pp_id a ∈ pp_interlinks b) /\
  (forall i a b, (pp_header (np_suffix_head p) :: np_suffix_tail p) !! i = Some a ->
     np_suffix_tail p !! i = Some b -> h_parent_id b = h_id a).
Proof.
  intros Hv%is_valid_ok Hk. pose proof (validate_ok p Hv) as (Hne & Hk1 & Hlen & Hh & Hc).
  unfold in_i in Hk. rewrite u64_id in Hlen by lia.
  unfold has_valid_connections in Hc. apply andb_true_iff in Hc as [[Hw Hl]%andb_true_iff Ht].
  assert (forall x id, connects_to x id = true -> pp_parent_id x = id \/ id ∈ pp_interlinks x) as Hcon.
  { intros x id. unfold connects_to. destruct (bool_decide _) eqn:Eb; [apply bool_decide_eq_true in Eb; auto|].
    rewrite existsb_exists. intros (link & Hin & Hd). apply bool_decide_eq_true in Hd as ->.
    right. by apply list_elem_of_In. }
  split; [by apply windows_sorted|]. split; [|split; [|split]].
  - unfold headers_chain. rewrite !length_app, length_fmap. cbn [length]. lia.
  - destruct (np_prefix p); [done|cbn; lia].
  - intros i a b Ha Hb. apply Hcon. destruct (decide (S i < length (np_prefix p))%nat) as [Hlt|Hge].
    + rewrite lookup_app_l in Ha, Hb by lia. by eapply (windows_pairs _ _ _ _ _ Hw).
    + pose proof (lookup_lt_Some _ _ _ Hb) as Hb'. rewrite length_app in Hb'. cbn [length] in Hb'.
      rewrite lookup_app_l in Ha by lia. rewrite lookup_app_r in Hb by lia.
      replace (S i - length (np_prefix p))%nat with 0%nat in Hb by lia. injection Hb as <-.
      rewrite last_lookup in Hl. replace (pred (length (np_prefix p))) with i in Hl by lia.
      by rewrite Ha in Hl.
  - change (pp_id (np_suffix_head p)) with (h_id (pp_header (np_suffix_head p))) in Ht.
    revert Ht. generalize (pp_header (np_suffix_head p)) as prev. clear.
    induction (np_suffix_tail p) as [|h tl IH]; intros prev Ht i a b Ha Hb; [done|].
    cbn [tail_connected] in Ht. apply andb_true_iff in Ht as [Hp%bool_decide_eq_true Ht].
    destruct i as [|i]; [by injection Ha as <-; injection Hb as <-|]. by apply (IH h Ht i).
Qed.

(** C24: a verifier that expects a genesis block keeps, of all the proofs it
    has processed, a valid one with that genesis whose chain has the most
    headers; proofs that are invalid or start elsewhere never become the best.
    The first header's identifier is taken to determine its height. *)
Theorem verifier_keeps_longest (g : bytes) (ps : list NipopowProof) :
  Forall (fun p => Z.of_nat (length (headers_chain p)) < 2 ^ 63) ps ->
  (forall p q, p ∈ ps -> q ∈ ps -> np_genesis_id p = np_genesis_id q ->
     h_height <$> head (headers_chain p) = h_height <$> head (headers_chain q)) ->
  let best := nv_best_proof (process_all (with_genesis g) ps) in
  (forall b, best = Some b -> b ∈ ps /\ is_valid b = true /\ np_genesis_id b = Some g) /\
  (forall p, p ∈ ps -> is_valid p = true -> np_genesis_id p = Some g ->
     exists b, best = Some b /\ (length (headers_chain p) <= length (headers_chain b))%nat).
Proof.
  intros Hlen Hbind best. subst best.
  assert (nv_genesis_id (process_all (with_genesis g) ps) = Some g /\
    (forall b, nv_best_proof (process_all (with_genesis g) ps) = Some b ->
       b ∈ ps /\ is_valid b = true /\ np_genesis_id b = Some g) /\
    (forall p, p ∈ ps -> is_valid p = true -> np_genesis_id p = Some g ->
     exists b, nv_best_proof (process_all (with_genesis g) ps) = Some b /\
       (length (headers_chain p) <= length (headers_chain b))%nat)) as [_ ?]; [|done].
  induction ps as [|q ps IH] using rev_ind.
  { split; [done|]. split; [done|]. intros p Hp. by apply not_elem_of_nil in Hp. }
  apply Forall_app in Hlen as [Hlen [Hlq _]%Forall_cons].
  destruct IH as (Hg & Hbest & Hmax); [done|intros; apply Hbind; set_solver|].
  unfold process_all in *. rewrite fold_left_app. cbn [fold_left].
  set (v := fold_left _ ps _) in *.
  destruct (process_best v q g Hg) as [Hg' Hb']. rewrite Hb'. split; [done|].
  destruct (is_valid q && bool_decide (np_genesis_id q = Some g)) eqn:Eq; cbn [andb].
  2:{ split.
      - intros b Hb. destruct (Hbest b Hb) as (? & ? & ?). set_solver.
      - intros p [Hp| ->%list_elem_of_singleton]%elem_of_app Hv Hgen; [by apply Hmax|].
        rewrite Hv, bool_decide_true in Eq by done. done. }
  apply andb_true_iff in Eq as [Hvq Hgq%bool_decide_eq_true].
  destruct (nv_best_proof v) as [b|] eqn:Eb.
  - destruct (Hbest b eq_refl) as (Hbin & Hvb & Hgb).
    assert (is_better_than q b = (length (headers_chain b) <? length (headers_chain q))%nat) as ->.
    { pose proof (is_valid_ok _ Hvq) as Hq. pose proof (is_valid_ok _ Hvb) as Hb.
      destruct (chain_head q Hq) as (q0 & qs & Eq0 & Cq), (chain_head b Hb) as (b0 & bs & Eb0 & Cb).
      assert (h_height <$> head (headers_chain q) = h_height <$> head (headers_chain b)) as Hht
        by (apply Hbind; [set_solver|set_solver|congruence]).
      unfold np_genesis_id in *. rewrite Eq0 in Hgq. rewrite Eb0 in Hgb.
      rewrite Cq, Cb in Hht. cbn in Hht, Hgq, Hgb. injection Hht as Hht.
      eapply is_better_same_start; try done.
      - unfold pp_id in *. congruence.
      - rewrite Forall_forall in Hlen. by apply Hlen. }
    destruct (Nat.ltb_spec (length (headers_chain b)) (length (headers_chain q))) as [Hlt|Hge].
    + split; [intros ? [= <-]; set_solver|].
      intros p [Hp| ->%list_elem_of_singleton]%elem_of_app Hv Hgen; [|by exists q].
      destruct (Hmax p Hp Hv Hgen) as (b' & [= <-] & Hle). exists q. split; [done|lia].
    + split; [intros ? [= <-]; set_solver|].
      intros p [Hp| ->%list_elem_of_singleton]%elem_of_app Hv Hgen; [by apply Hmax|]. by exists b.
  - split; [intros ? [= <-]; set_solver|].
    intros p [Hp| ->%list_elem_of_singleton]%elem_of_app Hv Hgen; [|by exists q].
    destruct (Hmax p Hp Hv Hgen) as (b' & Hb'' & _). done.
Qed.
End Spec.

Module Example.
Import Toy.

Definition hdr (h : Z) : Header :=
  mkHeader 2 (be_bytes 32 h) (be_bytes 32 (h - 1)) [] [] [] h 0 h []
    (mkAutolykosSolution 0 None [] None) [] [].
Definition pp (h : Z) : PoPowHeader := mkPoPowHeader (hdr h) [] [].
Definition proof1 : NipopowProof := mkNipopowProof 30 2 [pp 1; pp 2] (pp 3) [hdr 4] false.
Definition proof2 : NipopowProof := mkNipopowProof 30 1 [pp 1; pp 2] (pp 3) [] false.

Lemma superblock_counts_witness :
  count_superblocks_by_level [0; 1; 2; 1; 0; 3] = Ok [6; 4; 2; 1] /\
  count_superblocks_by_level [2 ^ 32 - 1; 0] = Err "index out of bounds"%string.
Proof.
  split.
  - rewrite superblock_counts; [reflexivity| |discriminate]. repeat constructor; unfold in_u; lia.
  - rewrite superblock_counts; [reflexivity| |discriminate]. repeat constructor; unfold in_u; lia.
Defined.

Lemma interlinks_roundtrip_witness :
  unpack_interlinks (pack_interlinks [replicate 32 1; replicate 32 2; replicate 32 2]) =
  Ok [replicate 32 1; replicate 32 2; replicate 32 2].
Proof.
  rewrite <- (app_nil_r (pack_interlinks _)), <- (app_nil_l (_ ++ [])).
  apply interlinks_roundtrip; [repeat constructor|vm_compute; congruence|constructor].
Defined.

Lemma valid_proof_sound_witness : StronglySorted Z.lt (h_height <$> headers_chain proof1).
Proof. apply (valid_proof_sound proof1); [vm_compute; reflexivity|unfold in_i; cbn; lia]. Defined.

Lemma verifier_keeps_longest_witness :
  exists b, nv_best_proof (process_all (with_genesis (be_bytes 32 1)) [proof2; proof1]) = Some b /\
    (length (headers_chain proof1) <= length (headers_chain b))%nat.
Proof.
  apply (verifier_keeps_longest (be_bytes 32 1) [proof2; proof1]).
  - repeat constructor.
  - intros p q Hp Hq _. rewrite !elem_of_cons, elem_of_nil in Hp, Hq.
    destruct Hp as [->|[->|[]]], Hq as [->|[->|[]]]; reflexivity.
  - set_solver.
  - vm_compute. reflexivity.
  - vm_compute. reflexivity.
Defined.

End Example.
