(* ===== verification/Downloader.v ===== *)
(** * Block downloads (crates/ergo-sync/src/download.rs)

    The download manager: queued tasks, requests in flight, the LRU cache of
    completed identifiers and the permanently failed ones.  Each operation runs
    under its locks, so a run is a sequence of operations.  Peers, the [lru]
    crate and the iteration order of a [HashMap] are parameters; instants are
    milliseconds. *)

From S2P Require Export Prelude.

Local Open Scope Z_scope.

Definition COMPLETED_CACHE_SIZE : Z := 50000.
Definition PARALLEL_DOWNLOADS : Z := 512.

(** [LruCache<Vec<u8>, ()>]: an insertion may evict other keys. *)
Class LruCache (C : Type) := {
  lru_new : Z -> C;
  lru_contains : C -> bytes -> bool;
  lru_put : C -> bytes -> C;
  lru_pop : C -> bytes -> C
}.

Class LruLaws (C : Type) `{LruCache C} : Prop := {
  lru_contains_new n k : lru_contains (lru_new n) k = false;
  lru_contains_put c k : lru_contains (lru_put c k) k = true;
  lru_put_only c k k' : lru_contains (lru_put c k) k' = true -> k' = k \/ lru_contains c k' = true;
  lru_contains_pop c k k' :
    lru_contains (lru_pop c k) k' = true <-> k' <> k /\ lru_contains c k' = true
}.

Section Downloader.
Context {PeerId : Type} `{Countable PeerId} {C : Type} `{LruCache C}.

(** ** Data *)

Record DownloadTask := mkDownloadTask {
  task_id : bytes;
  task_type_id : Z;
  task_peer : option PeerId;
  task_requested_at : option Z;
  task_retries : Z;
  task_failed_peers : gset PeerId
}.

Definition DownloadTask_new (id : bytes) (type_id : Z) : DownloadTask :=
  mkDownloadTask id type_id None None 0 ∅.

Definition peer_failed (t : DownloadTask) (peer : PeerId) : bool :=
  bool_decide (peer ∈ task_failed_peers t).

(** [is_timed_out]; [now] is the instant of the call. *)
Definition is_timed_out (now : Z) (t : DownloadTask) (timeout : Z) : bool :=
  match task_requested_at t with
  | Some at_ => sat_sub now at_ >? timeout
  | None => false
  end.

Record DownloadConfig := mkDownloadConfig {
  max_parallel : Z; timeout : Z; max_retries : Z }.
Definition DownloadConfig_default : DownloadConfig :=
  mkDownloadConfig PARALLEL_DOWNLOADS 10000 5.

Record BlockDownloader := mkBlockDownloader {
  config : DownloadConfig;
  pending : gmap bytes DownloadTask;
  in_flight : gmap bytes PeerId;
  completed : C;
  failed : gset bytes
}.

Definition BlockDownloader_new (config : DownloadConfig) : BlockDownloader :=
  mkBlockDownloader config ∅ ∅ (lru_new COMPLETED_CACHE_SIZE) ∅.

(** ** Operations *)

(** One task of [queue_inner]. *)
Definition queue_one (force : bool) (d : BlockDownloader) (task : DownloadTask) : BlockDownloader :=
  if bool_decide (is_Some (in_flight d !! task_id task)) then d
  else if bool_decide (is_Some (pending d !! task_id task)) then d
  else if lru_contains (completed d) (task_id task) then
    if force then
      mkBlockDownloader (config d) (<[task_id task := task]> (pending d)) (in_flight d)
        (lru_pop (completed d) (task_id task)) (failed d)
    else d
  else
    mkBlockDownloader (config d) (<[task_id task := task]> (pending d)) (in_flight d)
      (completed d) (failed d).

Definition queue_inner (d : BlockDownloader) (tasks : list DownloadTask) (force : bool)
    : BlockDownloader := fold_left (queue_one force) tasks d.
Definition queue (d : BlockDownloader) (tasks : list DownloadTask) : BlockDownloader :=
  queue_inner d tasks false.
Definition queue_force (d : BlockDownloader) (tasks : list DownloadTask) : BlockDownloader :=
  queue_inner d tasks true.

(** The order in which a [HashMap] of tasks is iterated. *)
Context (map_iter : gmap bytes DownloadTask -> list (bytes * DownloadTask)).

(** The number of tasks that may be handed out. *)
Definition available (d : BlockDownloader) (count : Z) : nat :=
  let in_flight_count := Z.of_nat (size (in_flight d)) in
  let available := sat_sub (max_parallel (config d)) in_flight_count in
  Z.to_nat (Z.min count available).

Definition get_ready_tasks (d : BlockDownloader) (count : Z) : list DownloadTask :=
  take (available d count)
    (base.filter (fun t => task_peer t = None) ((map_iter (pending d)).*2)).

Definition get_ready_tasks_for_peer (d : BlockDownloader) (count : Z) (peer : PeerId)
    : list DownloadTask :=
  take (available d count)
    (base.filter (fun t => task_peer t = None /\ peer_failed t peer = false) ((map_iter (pending d)).*2)).

Definition get_stuck_tasks (d : BlockDownloader) (available_peers : list PeerId) : list bytes :=
  match available_peers with
  | [] => []
  | _ => task_id <$> base.filter (fun t => task_peer t = None /\
           forallb (peer_failed t) available_peers = true) ((map_iter (pending d)).*2)
  end.

Definition with_pending (d : BlockDownloader) (p : gmap bytes DownloadTask) : BlockDownloader :=
  mkBlockDownloader (config d) p (in_flight d) (completed d) (failed d).

Definition clear_failed_peers (d : BlockDownloader) (id : bytes) : BlockDownloader :=
  match pending d !! id with
  | Some t => with_pending d (<[id := mkDownloadTask (task_id t) (task_type_id t) (task_peer t)
                (task_requested_at t) (task_retries t) ∅]> (pending d))
  | None => d
  end.

Definition dispatch (now : Z) (d : BlockDownloader) (id : bytes) (peer : PeerId) : BlockDownloader :=
  let p := match pending d !! id with
           | Some t => <[id := mkDownloadTask (task_id t) (task_type_id t) (Some peer) (Some now)
                         (task_retries t) (task_failed_peers t)]> (pending d)
           | None => pending d
           end in
  mkBlockDownloader (config d) p (<[id := peer]> (in_flight d)) (completed d) (failed d).

Definition complete (d : BlockDownloader) (id : bytes) : BlockDownloader :=
  mkBlockDownloader (config d) (delete id (pending d)) (delete id (in_flight d))
    (lru_put (completed d) id) (failed d).

Definition fail (d : BlockDownloader) (id : bytes) (peer : PeerId) : BlockDownloader :=
  let in_flight := delete id (in_flight d) in
  match pending d !! id with
  | Some t =>
      let retries := u32 (task_retries t + 1) in
      let t' := mkDownloadTask (task_id t) (task_type_id t) None None retries
                  ({[peer]} ∪ task_failed_peers t) in
      if retries >=? max_retries (config d) then
        mkBlockDownloader (config d) (delete id (pending d)) in_flight (completed d)
          ({[id]} ∪ failed d)
      else mkBlockDownloader (config d) (<[id := t']> (pending d)) in_flight (completed d) (failed d)
  | None => mkBlockDownloader (config d) (pending d) in_flight (completed d) (failed d)
  end.

Definition check_timeouts (now : Z) (d : BlockDownloader) : list (bytes * PeerId) :=
  omap (fun '(id, t) =>
    if is_timed_out now t (timeout (config d)) then
      match task_peer t with Some peer => Some (id, peer) | None => None end
    else None) (map_iter (pending d)).

Definition get_in_flight_for_peer (flight_iter : gmap bytes PeerId -> list (bytes * PeerId))
    (d : BlockDownloader) (peer : PeerId) : list bytes :=
  (base.filter (fun p => p.2 = peer) (flight_iter (in_flight d))).*1.

Definition is_complete (d : BlockDownloader) : bool :=
  bool_decide (pending d = ∅) && bool_decide (in_flight d = ∅).

Definition uncomplete (d : BlockDownloader) (id : bytes) : BlockDownloader :=
  mkBlockDownloader (config d) (pending d) (in_flight d) (lru_pop (completed d) id) (failed d).

End Downloader.

Arguments DownloadTask PeerId {_ _}.
Arguments BlockDownloader PeerId {_ _} C.

(** ** Runs *)

Section Runs.
Context {PeerId : Type} `{Countable PeerId} {C : Type} `{LruLaws C}.

Abbreviation downloader := (BlockDownloader PeerId C).
Abbreviation task := (DownloadTask PeerId).

(** One operation of the manager; queued tasks are fresh. *)
Inductive step : downloader -> downloader -> Prop :=
  | step_queue d ids force :
      step d (queue_inner d ((fun '(id, ty) => DownloadTask_new id ty) <$> ids) force)
  | step_dispatch d now id peer : step d (dispatch now d id peer)
  | step_complete d id : step d (complete d id)
  | step_fail d id peer : step d (fail d id peer)
  | step_clear d id : step d (clear_failed_peers d id)
  | step_uncomplete d id : step d (uncomplete d id).

Inductive reachable (cfg : DownloadConfig) : downloader -> Prop :=
  | reachable_new : reachable cfg (BlockDownloader_new cfg)
  | reachable_step d d' : reachable cfg d -> step d d' -> reachable cfg d'.

(** The invariant: a pending task is filed under its identifier, is assigned
    exactly when a request for it is in flight with that peer, has retries
    left and at most one failed peer per retry, and is not completed. *)
Definition task_ok (cfg : DownloadConfig) (d : downloader) (id : bytes) (t : task) : Prop :=
  task_id t = id /\
  task_peer t = in_flight d !! id /\
  (is_Some (task_requested_at t) <-> is_Some (task_peer t)) /\
  0 <= task_retries t < max_retries cfg /\
  Z.of_nat (size (task_failed_peers t)) <= task_retries t /\
  lru_contains (completed d) id = false.

Definition inv (cfg : DownloadConfig) (d : downloader) : Prop :=
  config d = cfg /\ forall id t, pending d !! id = Some t -> task_ok cfg d id t.

Context (cfg : DownloadConfig) (Hcfg : 1 <= max_retries cfg < 2 ^ 32).

Lemma inv_queue_one d force id ty :
  inv cfg d -> inv cfg (queue_one force d (DownloadTask_new id ty)).
Proof.
  intros [Hc Hi]. unfold queue_one. cbn [DownloadTask_new task_id].
  destruct (bool_decide (is_Some (in_flight d !! id))) eqn:Ef; [done|].
  destruct (bool_decide (is_Some (pending d !! id))) eqn:Ep; [done|].
  apply bool_decide_eq_false in Ef, Ep. rewrite <- eq_None_not_Some in Ef.
  assert (forall c, (lru_contains c id = false) ->
    (forall k, lru_contains c k = true -> lru_contains (completed d) k = true) ->
    inv cfg (mkBlockDownloader (config d) (<[id := DownloadTask_new id ty]> (pending d))
      (in_flight d) c (failed d))) as Hgen.
  { intros c Hcid Hmono. split; [done|]. cbn [pending]. intros k t.
    destruct (decide (k = id)) as [->|Hne].
    - rewrite lookup_insert_eq. intros [= <-]. unfold task_ok. cbn.
      repeat split; rewrite ?Ef; try done; try lia; try (by intros []).
    - rewrite lookup_insert_ne by done. intros Ht. destruct (Hi k t Ht) as (? & ? & ? & ? & ? & Hcomp).
      unfold task_ok. cbn. repeat split; try done; try tauto; try lia.
      destruct (lru_contains c k) eqn:E; [|done]. apply Hmono in E. congruence. }
  destruct (lru_contains (completed d) id) eqn:Ec; [destruct force; [|done]|]; apply Hgen; try done.
  - destruct (lru_contains (lru_pop (completed d) id) id) eqn:E; [|done]. apply lru_contains_pop in E. tauto.
  - intros k [_ ?]%lru_contains_pop. done.
Qed.

Lemma inv_queue d force ids :
  inv cfg d -> inv cfg (queue_inner d ((fun '(id, ty) => DownloadTask_new id ty) <$> ids) force).
Proof.
  unfold queue_inner. revert d. induction ids as [|[id ty] ids IH]; intros d Hd; [done|].
  cbn [fmap list_fmap fold_left]. apply IH. by apply inv_queue_one.
Qed.

Lemma inv_dispatch d now id peer : inv cfg d -> inv cfg (dispatch now d id peer).
Proof.
  intros [Hc Hi]. split; [done|]. unfold dispatch. cbn [pending]. intros k t.
  destruct (decide (k = id)) as [->|Hne].
  - destruct (pending d !! id) as [t0|] eqn:Et; [|by rewrite Et].
    rewrite lookup_insert_eq. intros [= <-]. destruct (Hi id t0 Et) as (? & ? & ? & ? & ? & ?).
    unfold task_ok. cbn. rewrite lookup_insert_eq. repeat split; try done; try lia.
  - intros Ht. assert (pending d !! k = Some t) as Hk.
    { destruct (pending d !! id); [by rewrite lookup_insert_ne in Ht|done]. }
    destruct (Hi k t Hk) as (? & ? & ? & ? & ? & ?).
    unfold task_ok. cbn. rewrite lookup_insert_ne by done. repeat split; try done; try tauto; lia.
Qed.

Lemma inv_complete d id : inv cfg d -> inv cfg (complete d id).
Proof.
  intros [Hc Hi]. split; [done|]. cbn [complete pending]. intros k t.
  destruct (decide (k = id)) as [->|Hne]; [by rewrite lookup_delete_eq|].
  rewrite lookup_delete_ne by done. intros Ht. destruct (Hi k t Ht) as (? & ? & ? & ? & ? & Hn).
  unfold task_ok. cbn. rewrite lookup_delete_ne by done. repeat split; try done; try tauto; try lia.
  destruct (lru_contains (lru_put (completed d) id) k) eqn:E; [|done]. apply lru_put_only in E as [->|E]; [done|congruence].
Qed.

Lemma inv_fail d id peer : inv cfg d -> inv cfg (fail d id peer).
Proof.
  intros [Hc Hi]. unfold fail. destruct (pending d !! id) as [t0|] eqn:Et.
  2:{ split; [done|]. cbn [pending]. intros k t Ht. destruct (decide (k = id)) as [->|Hne]; [congruence|].
      destruct (Hi k t Ht) as (? & ? & ? & ? & ? & ?).
      unfold task_ok. cbn. rewrite lookup_delete_ne by done. repeat split; try done; try tauto; lia. }
  destruct (Hi id t0 Et) as (Hid & Hpeer & Hreq & Hret & Hsz & Hcomp).
  assert (u32 (task_retries t0 + 1) = task_retries t0 + 1) as Hu
    by (apply wrap_small; unfold in_u; lia). rewrite Hu.
  assert (forall k t, k <> id -> pending d !! k = Some t -> forall p f,
    task_ok cfg (mkBlockDownloader (config d) p (delete id (in_flight d)) (completed d) f) k t) as Hoth.
  { intros k t Hne Ht p f. destruct (Hi k t Ht) as (? & ? & ? & ? & ? & ?).
    unfold task_ok. cbn. rewrite lookup_delete_ne by done. repeat split; try done; try tauto; lia. }
  destruct (_ >=? _) eqn:Eg; (split; [done|]); cbn [pending]; intros k t;
    (destruct (decide (k = id)) as [->|Hne];
     [rewrite ?lookup_delete_eq, ?lookup_insert_eq|
      rewrite ?lookup_delete_ne, ?lookup_insert_ne by done; intros; by apply Hoth]); [done|].
  intros [= <-]. unfold task_ok. cbn. rewrite lookup_delete_eq. rewrite Hc in Eg. zify_bool.
  repeat split; try done; try lia; try (by intros []).
  pose proof (size_union_alt ({[peer]} : gset PeerId) (task_failed_peers t0)) as Hu2.
  rewrite size_singleton in Hu2.
  pose proof (subseteq_size (task_failed_peers t0 ∖ {[peer]}) (task_failed_peers t0)
    ltac:(set_solver)). lia.
Qed.

Lemma inv_clear d id : inv cfg d -> inv cfg (clear_failed_peers d id).
Proof.
  intros [Hc Hi]. unfold clear_failed_peers. destruct (pending d !! id) as [t0|] eqn:Et; [|by split].
  split; [done|]. cbn [with_pending pending]. intros k t.
  destruct (decide (k = id)) as [->|Hne].
  - rewrite lookup_insert_eq. intros [= <-]. destruct (Hi id t0 Et) as (? & ? & ? & ? & ? & ?).
    unfold task_ok. cbn. rewrite size_empty. repeat split; try done; try tauto; lia.
  - rewrite lookup_insert_ne by done. intros Ht. by apply (Hi k t Ht).
Qed.

Lemma inv_uncomplete d id : inv cfg d -> inv cfg (uncomplete d id).
Proof.
  intros [Hc Hi]. split; [done|]. cbn [uncomplete pending]. intros k t Ht.
  destruct (Hi k t Ht) as (? & ? & ? & ? & ? & Hn). unfold task_ok. cbn.
  repeat split; try done; try tauto; try lia.
  destruct (lru_contains (lru_pop (completed d) id) k) eqn:E; [|done]. apply lru_contains_pop in E as [_ E]. congruence.
Qed.

Lemma inv_step d d' : inv cfg d -> step d d' -> inv cfg d'.
Proof.
  intros Hi Hs. destruct Hs; auto using inv_queue, inv_dispatch, inv_complete, inv_fail, inv_clear,
    inv_uncomplete.
Qed.

Lemma inv_new : inv cfg (BlockDownloader_new cfg).
Proof. split; [done|]. cbn. intros id t. by rewrite lookup_empty. Qed.

End Runs.

(** ** Lemmas: dispatching a list of tasks *)

Section Dispatch.
Context {PeerId : Type} `{Countable PeerId} {C : Type} `{LruCache C}.

Definition dispatch_all (now : Z) (d : BlockDownloader PeerId C) (ts : list (DownloadTask PeerId))
    (peer : PeerId) : BlockDownloader PeerId C :=
  fold_left (fun d t => dispatch now d (task_id t) peer) ts d.

Lemma dispatch_all_size now (d : BlockDownloader PeerId C) ts peer :
  (size (in_flight (dispatch_all now d ts peer)) <= size (in_flight d) + length ts)%nat.
Proof.
  unfold dispatch_all. revert d. induction ts as [|t ts IH]; intros d; cbn [fold_left length]; [lia|].
  etrans; [apply IH|]. unfold dispatch at 1. cbn [in_flight].
  destruct (in_flight d !! task_id t) as [p|] eqn:E.
  - rewrite map_size_insert_Some by (by eexists). lia.
  - rewrite map_size_insert_None by done. lia.
Qed.

Lemma dispatch_all_in now (d : BlockDownloader PeerId C) ts peer id :
  in_flight d !! id = Some peer \/ id ∈ (task_id <$> ts) ->
  in_flight (dispatch_all now d ts peer) !! id = Some peer.
Proof.
  unfold dispatch_all. revert d. induction ts as [|t ts IH]; intros d Hid; cbn [fold_left].
  - destruct Hid as [?|Hid]; [done|]. by apply not_elem_of_nil in Hid.
  - apply IH. unfold dispatch. cbn [in_flight].
    destruct (decide (task_id t = id)) as [->|Hne]; [left; by rewrite lookup_insert_eq|].
    rewrite lookup_insert_ne by done. cbn [fmap list_fmap] in Hid.
    rewrite elem_of_cons in Hid. naive_solver.
Qed.
End Dispatch.

(** * Properties *)

(** C25: in every state the manager can reach, a pending task is filed under
    its identifier, is assigned exactly to the peer its request is in flight
    with, has a request time exactly then, has used fewer than the allowed
    retries with at most one failed peer for each, and is not in the completed
    cache. *)
Theorem downloader_invariant {PeerId C : Type} `{Countable PeerId} `{LruLaws C}
    (cfg : DownloadConfig) (d : BlockDownloader PeerId C) id t :
  1 <= max_retries cfg < 2 ^ 32 -> reachable cfg d -> pending d !! id = Some t ->
  task_id t = id /\
  task_peer t = in_flight d !! id /\
  (is_Some (task_requested_at t) <-> is_Some (task_peer t)) /\
  0 <= task_retries t < max_retries cfg /\
  Z.of_nat (size (task_failed_peers t)) <= task_retries t /\
  lru_contains (completed d) id = false.
Proof.
  intros Hcfg Hr Ht. assert (inv cfg d) as [_ Hi]; [|by apply Hi].
  clear Ht. induction Hr as [|d d' _ IH Hs]; [by apply inv_new|]. by eapply inv_step.
Qed.

(** the tasks handed out for a peer are pending, unassigned and have not
    failed with it; sending all of them to the peer assigns each to it and
    keeps the requests in flight within the configured maximum. *)
Theorem ready_tasks_bounded {PeerId C : Type} `{Countable PeerId} `{LruLaws C}
    (map_iter : gmap bytes (DownloadTask PeerId) -> list (bytes * DownloadTask PeerId))
    (cfg : DownloadConfig) (d : BlockDownloader PeerId C) count peer now :
  1 <= max_retries cfg < 2 ^ 32 -> (forall m, map_iter m ≡ₚ map_to_list m) ->
  reachable cfg d -> Z.of_nat (size (in_flight d)) <= max_parallel cfg ->
  let ts := get_ready_tasks_for_peer map_iter d count peer in
  let d' := dispatch_all now d ts peer in
  Forall (fun t => pending d !! task_id t = Some t /\ in_flight d !! task_id t = None /\
            (peer ∉ task_failed_peers t) /\ in_flight d' !! task_id t = Some peer) ts /\
  Z.of_nat (length ts) <= Z.max 0 count /\
  Z.of_nat (size (in_flight d')) <= max_parallel cfg.
Proof.
  intros Hcfg Hiter Hr Hmax ts d'.
  assert (inv cfg d) as [Hc Hi].
  { clear Hmax ts d'. induction Hr as [|d d' _ IH Hs]; [apply inv_new|]. by eapply inv_step. }
  assert ((length ts <= available d count)%nat) as Hlen by (unfold ts, get_ready_tasks_for_peer; rewrite length_take; lia).
  unfold available, sat_sub in Hlen. rewrite Hc in Hlen. split; [|split].
  - apply Forall_forall. intros t Hin.
    assert (in_flight d' !! task_id t = Some peer) as Hd'.
    { apply dispatch_all_in. right. by apply list_elem_of_fmap_2. }
    unfold ts, get_ready_tasks_for_peer in Hin.
    apply elem_of_take in Hin as (i & Hin & _). apply list_elem_of_lookup_2 in Hin.
    apply list_elem_of_filter in Hin as [[Hp Hf] Hin].
    apply list_elem_of_fmap in Hin as ([id t'] & -> & Hin). cbn [snd] in *.
    rewrite Hiter, elem_of_map_to_list in Hin.
    destruct (Hi id t' Hin) as (Hid & Hpeer & _). rewrite Hid in *. repeat split; try done.
    + congruence.
    + unfold peer_failed in Hf. by apply bool_decide_eq_false in Hf.
  - lia.
  - pose proof (dispatch_all_size now d ts peer) as Hs. fold d' in Hs. lia.
Qed.

Module Example.

(** An LRU cache that never fills up. *)
#[local] Instance list_lru : LruCache (list bytes) := {
  lru_new _ := [];
  lru_contains c k := bool_decide (k ∈ c);
  lru_put c k := k :: c;
  lru_pop c k := base.filter (fun x => x <> k) c
}.

#[local] Instance list_lru_laws : LruLaws (list bytes).
Proof.
  constructor; cbn.
  - done.
  - intros. apply bool_decide_eq_true. apply list_elem_of_here.
  - intros c k k' Hin. apply bool_decide_eq_true in Hin. rewrite elem_of_cons in Hin.
    rewrite bool_decide_eq_true. exact Hin.
  - intros. rewrite !bool_decide_eq_true, list_elem_of_filter. done.
Qed.

Definition d1 : BlockDownloader Z (list bytes) :=
  queue_inner (BlockDownloader_new DownloadConfig_default) [DownloadTask_new [1] 102] false.

Lemma d1_reachable : reachable DownloadConfig_default d1.
Proof.
  eapply reachable_step; [apply reachable_new|]. exact (step_queue _ [([1], 102)] false).
Qed.

Lemma d1_pending : pending d1 !! [1] = Some (DownloadTask_new [1] 102).
Proof. vm_compute. reflexivity. Qed.

Lemma downloader_invariant_witness : lru_contains (completed d1) [1] = false.
Proof.
  destruct (downloader_invariant DownloadConfig_default d1 [1] (DownloadTask_new [1] 102))
    as (_ & _ & _ & _ & _ & Hcomp); [cbn; lia|apply d1_reachable|apply d1_pending|exact Hcomp].
Defined.

Lemma ready_tasks_bounded_witness :
  Z.of_nat (size (in_flight (dispatch_all 5 d1 (get_ready_tasks_for_peer map_to_list d1 3 7) 7))) <= 512.
Proof.
  apply (ready_tasks_bounded map_to_list DownloadConfig_default d1 3 7 5).
  - cbn. lia.
  - done.
  - apply d1_reachable.
  - cbn. unfold PARALLEL_DOWNLOADS. vm_compute. congruence.
Defined.

End Example.
