(* ===== verification/History.v ===== *)
(** * Block history (crates/ergo-state/src/history.rs)

    Headers, block sections and chain selection by cumulative difficulty, with
    the metadata that survives a restart.  The parsing and serialisation of a
    header are sigma-rust's; all reads and writes go through the [Storage]
    interface, and a batch is built exactly as the code fills it. *)

From S2P Require Export Utxo Autolykos Block.

Local Open Scope Z_scope.

Definition GENESIS_HEIGHT : Z := 1.
Definition HISTORY_EPOCH_LENGTH : Z := 1024.

Inductive ChainSelection :=
  | Extended
  | Reorg (fork_height rollback_count : Z)
  | Ignored.

Section History.
Context {ErgoBox Ext Tx : Type} `{ErgoBoxOps ErgoBox} `{TransactionOps ErgoBox Ext Tx}
  `{ChainTypes} `{!HeaderCodec} `{Blake2b256} `{BigUintBytes} {DB : Type} `{Storage DB}.

(** ** Headers *)

Definition height_key_of (height : Z) : bytes := be_bytes 4 height.

(** [put_with_bytes_batched] and [put_batched]: the header under its
    identifier, and the identifier under its height. *)
Definition put_with_bytes_batched (batch : WriteBatch) (header : Header) (raw_bytes : bytes)
    : WriteBatch :=
  let batch := batch_put batch Headers (h_id header) raw_bytes in
  batch_put batch HeaderChain (height_key_of (h_height header)) (h_id header).

Definition put_with_bytes (s : DB) (header : Header) (raw_bytes : bytes) : DB :=
  st_write_batch s (put_with_bytes_batched [] header raw_bytes).

Definition put_batched (batch : WriteBatch) (header : Header) : result WriteBatch StateError :=
  let? bs := ok_or (scorex_serialize_bytes header) (Serialization "header") in
  let batch := batch_put batch Headers (h_id header) bs in
  Ok (batch_put batch HeaderChain (height_key_of (h_height header)) (h_id header)).

Definition put_header (s : DB) (header : Header) : result DB StateError :=
  let? batch := put_batched [] header in
  Ok (st_write_batch s batch).

Definition compute_header_id (data : bytes) : bytes := blake2b256 data.

(** [header.id = ...]. *)
Definition set_header_id (h : Header) (id : bytes) : Header :=
  mkHeader (h_version h) id (h_parent_id h) (h_ad_proofs_root h) (h_state_root h)
    (h_transaction_root h) (h_timestamp h) (h_n_bits h) (h_height h) (h_extension_root h)
    (h_autolykos_solution h) (h_votes h) (h_unparsed_bytes h).

(** [HeaderStore::get]: the identifier is recomputed from the stored bytes. *)
Definition get_header (s : DB) (id : bytes) : result (option Header) StateError :=
  match st_get s Headers id with
  | Some bs =>
      let? header := ok_or (scorex_parse_bytes bs) (Serialization "header") in
      Ok (Some (set_header_id header (compute_header_id bs)))
  | None => Ok None
  end.

(** [BlockId] of the bytes stored under a height. *)
Definition chain_id_at (s : DB) (height : Z) : result (option bytes) StateError :=
  match st_get s HeaderChain (height_key_of height) with
  | Some id_bytes =>
      guard? (length id_bytes =? 32)%nat else Serialization "Invalid block ID length" in
      Ok (Some id_bytes)
  | None => Ok None
  end.

Definition get_by_height (s : DB) (height : Z) : result (option Header) StateError :=
  let? found := chain_id_at s height in
  match found with Some id => get_header s id | None => Ok None end.

Definition contains_header (s : DB) (id : bytes) : bool := st_contains s Headers id.

(** The heights [from_height..from_height.saturating_add(count)]. *)
Definition height_range (from_height count : Z) : list Z :=
  seqZ from_height (sat_add 32 from_height count - from_height).

(** A loop that stops at the first height where nothing is found. *)
Fixpoint collect_heights {A} (f : Z -> result (option A) StateError) (heights : list Z)
    : result (list A) StateError :=
  match heights with
  | [] => Ok []
  | height :: heights' =>
      let? found := f height in
      match found with
      | Some x => let? rest := collect_heights f heights' in Ok (x :: rest)
      | None => Ok []
      end
  end.

Definition get_range (s : DB) (from_height count : Z) : result (list Header) StateError :=
  collect_heights (get_by_height s) (height_range from_height count).
Definition get_ids_range (s : DB) (from_height count : Z) : result (list bytes) StateError :=
  collect_heights (chain_id_at s) (height_range from_height count).

(** ** Block sections *)

(** [serialize_transactions]. *)
Definition serialize_transactions (txs : BlockTransactions Tx) : result bytes StateError :=
  let? items := rmap (fun tx => ok_or (tx_serialize tx) (Serialization "tx")) (bt_txs txs) in
  Ok (be_bytes 4 (Z.of_nat (length (bt_txs txs))) ++ concat (len_prefixed <$> items)).

Definition put_transactions_batched (batch : WriteBatch) (block_id : bytes)
    (txs : BlockTransactions Tx) : result WriteBatch StateError :=
  let? bs := serialize_transactions txs in
  Ok (batch_put batch CFBlockTransactions block_id bs).

Definition put_transactions (s : DB) (block_id : bytes) (txs : BlockTransactions Tx)
    : result DB StateError :=
  let? bs := serialize_transactions txs in
  Ok (st_put s CFBlockTransactions block_id bs).

(** The loop of [get_transactions]. *)
Fixpoint read_txs (count : nat) (bs : bytes) (offset : nat) : result (list Tx) StateError :=
  match count with
  | O => Ok []
  | S count' =>
      if (length bs <? offset + 4)%nat then Err (Serialization "Truncated tx data")
      else
        let tx_len := Z.to_nat (be_val (slice offset (offset + 4) bs)) in
        let offset := (offset + 4)%nat in
        if (length bs <? offset + tx_len)%nat then Err (Serialization "Truncated tx bytes")
        else
          let? tx := ok_or (tx_parse (slice offset (offset + tx_len) bs)) (Serialization "tx") in
          let? rest := read_txs count' bs (offset + tx_len) in
          Ok (tx :: rest)
  end.

Definition get_transactions (s : DB) (block_id : bytes)
    : result (option (BlockTransactions Tx)) StateError :=
  match st_get s CFBlockTransactions block_id with
  | Some bs =>
      if (length bs <? 4)%nat then Err (Serialization "Transaction data too short")
      else
        let? txs := read_txs (Z.to_nat (be_val (slice 0 4 bs))) bs 4 in
        Ok (Some (BlockTransactions_new block_id txs))
  | None => Ok None
  end.

Definition has_transactions (s : DB) (block_id : bytes) : bool :=
  st_contains s CFBlockTransactions block_id.

(** [serialize_extension]: the length of a value is truncated to 16 bits. *)
Definition stored_field (f : ExtensionField) : bytes :=
  ef_key f ++ be_bytes 2 (u16 (Z.of_nat (length (ef_value f)))) ++ ef_value f.
Definition serialize_extension (e : Extension) : bytes :=
  be_bytes 4 (Z.of_nat (length (ext_fields e))) ++ concat (stored_field <$> ext_fields e).

Definition put_extension_batched (batch : WriteBatch) (e : Extension) : WriteBatch :=
  batch_put batch Extensions (ext_header_id e) (serialize_extension e).
Definition put_extension (s : DB) (e : Extension) : DB :=
  st_put s Extensions (ext_header_id e) (serialize_extension e).

(** The loop of [deserialize_extension]. *)
Fixpoint read_fields (count : nat) (bs : bytes) (offset : nat)
    : result (list ExtensionField) StateError :=
  match count with
  | O => Ok []
  | S count' =>
      if (length bs <? offset + 2)%nat then Err (Serialization "Extension data truncated at key")
      else
        let key := slice offset (offset + 2) bs in
        let offset := (offset + 2)%nat in
        if (length bs <? offset + 2)%nat
        then Err (Serialization "Extension data truncated at value length")
        else
          let value_len := Z.to_nat (be_val (slice offset (offset + 2) bs)) in
          let offset := (offset + 2)%nat in
          if (length bs <? offset + value_len)%nat
          then Err (Serialization "Extension data truncated at value")
          else
            let value := slice offset (offset + value_len) bs in
            let? rest := read_fields count' bs (offset + value_len) in
            Ok (mkExtensionField key value :: rest)
  end.

Definition deserialize_extension (block_id bs : bytes) : result Extension StateError :=
  if (length bs <? 4)%nat then Err (Serialization "Extension data too short")
  else
    let? fields := read_fields (Z.to_nat (be_val (slice 0 4 bs))) bs 4 in
    Ok (mkExtension block_id fields).

Definition get_extension (s : DB) (block_id : bytes) : result (option Extension) StateError :=
  match st_get s Extensions block_id with
  | Some bs => let? e := deserialize_extension block_id bs in Ok (Some e)
  | None => Ok None
  end.

Definition put_ad_proofs_batched (batch : WriteBatch) (p : ADProofs) : WriteBatch :=
  batch_put batch AdProofs (adp_header_id p) (adp_proof_bytes p).
Definition put_ad_proofs (s : DB) (p : ADProofs) : DB :=
  st_put s AdProofs (adp_header_id p) (adp_proof_bytes p).
Definition get_ad_proofs (s : DB) (block_id : bytes) : option ADProofs :=
  mkADProofs block_id <$> st_get s AdProofs block_id.

(** ** The history *)

Record PruningConfig := mkPruningConfig { blocks_to_keep : Z }.

Definition PruningConfig_default : PruningConfig := mkPruningConfig (-1).
Definition is_enabled (c : PruningConfig) : bool := 0 <=? blocks_to_keep c.

Record History := mkHistory {
  hi_storage : DB;
  best_header_id : option bytes;
  best_height : Z;
  best_cumulative_difficulty : Z;
  best_full_block_id : option bytes;
  best_full_block_height : Z;
  pruning_config : PruningConfig;
  minimal_full_block_height : Z;
  is_headers_chain_synced : bool
}.

Definition with_pruning (s : DB) (c : PruningConfig) : History :=
  mkHistory s None 0 0 None 0 c GENESIS_HEIGHT false.
Definition history_new (s : DB) : History := with_pruning s PruningConfig_default.

(** Updates of the fields, as the code assigns them. *)
Definition set_storage (h : History) (s : DB) : History :=
  mkHistory s (best_header_id h) (best_height h) (best_cumulative_difficulty h)
    (best_full_block_id h) (best_full_block_height h) (pruning_config h)
    (minimal_full_block_height h) (is_headers_chain_synced h).
Definition set_best_header (h : History) (id : bytes) (height difficulty : Z) : History :=
  mkHistory (hi_storage h) (Some id) height difficulty (best_full_block_id h)
    (best_full_block_height h) (pruning_config h) (minimal_full_block_height h)
    (is_headers_chain_synced h).
Definition set_best_full (h : History) (id : bytes) (height : Z) : History :=
  mkHistory (hi_storage h) (best_header_id h) (best_height h) (best_cumulative_difficulty h)
    (Some id) height (pruning_config h) (minimal_full_block_height h)
    (is_headers_chain_synced h).
Definition set_minimal (h : History) (height : Z) : History :=
  mkHistory (hi_storage h) (best_header_id h) (best_height h) (best_cumulative_difficulty h)
    (best_full_block_id h) (best_full_block_height h) (pruning_config h) height
    (is_headers_chain_synced h).
Definition set_synced (h : History) (synced : bool) : History :=
  mkHistory (hi_storage h) (best_header_id h) (best_height h) (best_cumulative_difficulty h)
    (best_full_block_id h) (best_full_block_height h) (pruning_config h)
    (minimal_full_block_height h) synced.

(** The keys of the metadata family. *)
Definition k_best_header_id : bytes := str_bytes "best_header_id".
Definition k_best_height : bytes := str_bytes "best_height".
Definition k_best_cumulative_difficulty : bytes := str_bytes "best_cumulative_difficulty".
Definition k_best_full_block_id : bytes := str_bytes "best_full_block_id".
Definition k_best_full_block_height : bytes := str_bytes "best_full_block_height".
Definition k_minimal_full_block_height : bytes := str_bytes "minimal_full_block_height".
Definition k_is_headers_chain_synced : bytes := str_bytes "is_headers_chain_synced".

(** How a metadata value is read: an identifier of 32 bytes, a height of at
    least four, a difficulty, a flag. *)
Definition meta_id (value default : option bytes) : option bytes :=
  match value with
  | Some v => if (length v =? 32)%nat then Some v else default
  | None => default
  end.
Definition meta_height (value : option bytes) (default : Z) : Z :=
  match value with
  | Some v => if (4 <=? length v)%nat then be_val (slice 0 4 v) else default
  | None => default
  end.
Definition meta_difficulty (value : option bytes) (default : Z) : Z :=
  match value with Some v => be_val v | None => default end.
Definition meta_flag (value : option bytes) (default : bool) : bool :=
  match value with
  | Some (b :: _) => if b =? 1 then true else default
  | _ => default
  end.

(** [init_from_storage_with_pruning]. *)
Definition history_init (s : DB) (c : PruningConfig) : History :=
  let h := with_pruning s c in
  let metadata := st_get s Metadata in
  mkHistory s
    (meta_id (metadata k_best_header_id) (best_header_id h))
    (meta_height (metadata k_best_height) (best_height h))
    (meta_difficulty (metadata k_best_cumulative_difficulty) (best_cumulative_difficulty h))
    (meta_id (metadata k_best_full_block_id) (best_full_block_id h))
    (meta_height (metadata k_best_full_block_height) (best_full_block_height h))
    c
    (meta_height (metadata k_minimal_full_block_height) (minimal_full_block_height h))
    (meta_flag (metadata k_is_headers_chain_synced) (is_headers_chain_synced h)).

Definition best_header (h : History) : result (option Header) StateError :=
  match best_header_id h with Some id => get_header (hi_storage h) id | None => Ok None end.

(** ** Pruning *)

Definition set_headers_chain_synced (h : History) (synced : bool) : History :=
  let h := set_synced h synced in
  set_storage h (st_put (hi_storage h) Metadata k_is_headers_chain_synced
                   (if synced then [1] else [0])).

Definition should_download_block_at_height (h : History) (height : Z) : bool :=
  is_headers_chain_synced h && (minimal_full_block_height h <=? height).

Definition extension_with_parameters_height (height : Z) : Z :=
  if height <? HISTORY_EPOCH_LENGTH then GENESIS_HEIGHT
  else height - height mod HISTORY_EPOCH_LENGTH.

(** The minimal height after a new best full block at [height]. *)
Definition new_minimal_height (h : History) (height : Z) : Z :=
  if negb (is_enabled (pruning_config h)) then GENESIS_HEIGHT
  else
    let keep := u32 (blocks_to_keep (pruning_config h)) in
    let m := Z.max (minimal_full_block_height h) (sat_sub height (u32 (keep - 1))) in
    if m >? HISTORY_EPOCH_LENGTH then Z.min m (extension_with_parameters_height m) else m.

(** [prune_blocks_below]: the batch it builds, and the number of blocks. *)
Definition prune_step (s : DB) (acc : WriteBatch * Z) (height : Z)
    : result (WriteBatch * Z) StateError :=
  let '(batch, pruned_count) := acc in
  let? found := get_by_height s height in
  match found with
  | Some header =>
      if has_transactions s (h_id header) then
        let batch := batch_delete batch CFBlockTransactions (h_id header) in
        let batch := batch_delete batch Extensions (h_id header) in
        let batch := batch_delete batch AdProofs (h_id header) in
        Ok (batch, u32 (pruned_count + 1))
      else Ok (batch, pruned_count)
  | None => Ok (batch, pruned_count)
  end.

Definition prune_blocks_below (h : History) (height : Z) : result History StateError :=
  let s := hi_storage h in
  let? (batch, pruned_count) :=
    rfold (prune_step s) ([], 0) (seqZ GENESIS_HEIGHT (height - GENESIS_HEIGHT)) in
  if pruned_count >? 0 then Ok (set_storage h (st_write_batch s batch)) else Ok h.

(** [update_best_full_block_pruning]; what precedes a failed pruning stays. *)
Definition update_best_full_block_pruning (h : History) (header : Header)
    : result Z StateError * History :=
  let new_minimal := new_minimal_height h (h_height header) in
  let old_minimal := minimal_full_block_height h in
  let h := set_minimal h new_minimal in
  let h := set_storage h (st_put (hi_storage h) Metadata k_minimal_full_block_height
                            (be_bytes 4 new_minimal)) in
  let h := if is_headers_chain_synced h then h else set_headers_chain_synced h true in
  if negb (new_minimal =? old_minimal) && is_enabled (pruning_config h)
     && (new_minimal >? old_minimal) then
    match prune_blocks_below h new_minimal with
    | Ok h' => (Ok new_minimal, h')
    | Err e => (Err e, h)
    end
  else (Ok new_minimal, h).

(** ** Cumulative difficulty and chain selection *)

Definition get_cumulative_difficulty (s : DB) (block_id : bytes) : option Z :=
  be_val <$> st_get s CumulativeDifficulty block_id.
Definition store_cumulative_difficulty (batch : WriteBatch) (block_id : bytes) (difficulty : Z)
    : WriteBatch := batch_put batch CumulativeDifficulty block_id (to_bytes_be difficulty).
Definition difficulty_from_nbits (n_bits : Z) : Z := nbits_to_difficulty n_bits.

(** The difficulty accumulated before a block: none up to height 2, and zero
    when the parent's is not stored. *)
Definition parent_cumulative (s : DB) (height : Z) (parent_id : bytes) : Z :=
  if height <=? 2 then 0
  else match get_cumulative_difficulty s parent_id with Some d => d | None => 0 end.

Definition put_best_header (batch : WriteBatch) (id : bytes) (height difficulty : Z)
    : WriteBatch :=
  let batch := batch_put batch Metadata k_best_header_id id in
  let batch := batch_put batch Metadata k_best_height (be_bytes 4 height) in
  batch_put batch Metadata k_best_cumulative_difficulty (to_bytes_be difficulty).

Definition put_best_full (batch : WriteBatch) (id : bytes) (height : Z) : WriteBatch :=
  let batch := batch_put batch Metadata k_best_full_block_id id in
  batch_put batch Metadata k_best_full_block_height (be_bytes 4 height).

(** The walk of [find_fork_height], by the height of the new chain. *)
Fixpoint fork_walk (s : DB) (new_height : nat) (new_id : bytes) : result Z StateError :=
  match new_height with
  | O => Ok 1
  | S lower =>
      let? main := get_by_height s (Z.of_nat new_height) in
      if match main with Some m => bool_decide (h_id m = new_id) | None => false end
      then Ok (Z.of_nat new_height)
      else
        let? found := get_header s new_id in
        match found with
        | Some header => fork_walk s lower (h_parent_id header)
        | None => Ok 1
        end
  end.

Definition find_fork_height (s : DB) (new_header_id : bytes) (current_height : Z)
    : result Z StateError :=
  let? found := get_header s new_header_id in
  let? new_header := ok_or found (HeaderNotFound new_header_id) in
  fork_walk s (Z.to_nat (sat_sub (h_height new_header) 1)) (h_parent_id new_header).

(** The answer after switching to a new best header. *)
Definition switched (s : DB) (id : bytes) (height current_height : Z)
    : result ChainSelection StateError :=
  if (height <=? current_height) && (current_height >? 0) then
    let? fork_height := find_fork_height s id current_height in
    Ok (Reorg fork_height (u32 (current_height - fork_height)))
  else Ok Extended.

(** [append_header_internal]; the writes before an error stay. *)
Definition append_header_internal (h : History) (header : Header) (raw_bytes : option bytes)
    : result ChainSelection StateError * History :=
  let id := h_id header in
  let height := h_height header in
  if contains_header (hi_storage h) id then (Ok Ignored, h)
  else if (height >? 2) && negb (contains_header (hi_storage h) (h_parent_id header)) then
    (Err (HeaderNotFound (h_parent_id header)), h)
  else
    let cumulative_difficulty :=
      parent_cumulative (hi_storage h) height (h_parent_id header)
      + difficulty_from_nbits (h_n_bits header) in
    match match raw_bytes with
          | Some bs => Ok (put_with_bytes (hi_storage h) header bs)
          | None => put_header (hi_storage h) header
          end with
    | Err e => (Err e, h)
    | Ok s =>
        let batch := store_cumulative_difficulty [] id cumulative_difficulty in
        if cumulative_difficulty >? best_cumulative_difficulty h then
          let s := st_write_batch s (put_best_header batch id height cumulative_difficulty) in
          (switched s id height (best_height h),
           set_best_header (set_storage h s) id height cumulative_difficulty)
        else (Ok Ignored, set_storage h (st_write_batch s batch))
    end.

Definition append_header (h : History) (header : Header) := append_header_internal h header None.
Definition append_header_with_bytes (h : History) (header : Header) (raw_bytes : bytes) :=
  append_header_internal h header (Some raw_bytes).

(** The state of the loop of [append_headers_batched]. *)
Record BatchAcc := mkBatchAcc {
  ba_batch : WriteBatch;
  ba_ids : gset bytes;
  ba_cumulative : Z;
  ba_final_id : bytes;
  ba_final_height : Z;
  ba_final_cumulative : Z
}.

Definition batch_header (s : DB) (acc : BatchAcc) (hb : Header * bytes)
    : result BatchAcc StateError :=
  let '(header, raw_bytes) := hb in
  let id := h_id header in
  let parent_id := h_parent_id header in
  let height := h_height header in
  if contains_header s id then Ok acc
  else
    let in_batch := bool_decide (parent_id ∈ ba_ids acc) in
    if (height >? 2) && negb in_batch && negb (contains_header s parent_id)
    then Err (HeaderNotFound parent_id)
    else
      let parent_in_batch := (height >? 2) && in_batch in
      let parent_cum := if parent_in_batch then ba_cumulative acc
                        else parent_cumulative s height parent_id in
      let cumulative := parent_cum + difficulty_from_nbits (h_n_bits header) in
      let batch := put_with_bytes_batched (ba_batch acc) header raw_bytes in
      let batch := store_cumulative_difficulty batch id cumulative in
      Ok (mkBatchAcc batch ({[id]} ∪ ba_ids acc) cumulative id height cumulative).

Definition append_headers_batched (h : History) (headers : list (Header * bytes))
    : result ChainSelection StateError * History :=
  match headers with
  | [] => (Ok Ignored, h)
  | (first_header, _) :: _ =>
      let s := hi_storage h in
      let start := parent_cumulative s (h_height first_header) (h_parent_id first_header) in
      match rfold (batch_header s)
              (mkBatchAcc [] ∅ start (h_id first_header) (h_height first_header) start) headers with
      | Err e => (Err e, h)
      | Ok acc =>
          let id := ba_final_id acc in
          let height := ba_final_height acc in
          let cumulative := ba_final_cumulative acc in
          if cumulative >? best_cumulative_difficulty h then
            let s := st_write_batch s (put_best_header (ba_batch acc) id height cumulative) in
            (switched s id height (best_height h),
             set_best_header (set_storage h s) id height cumulative)
          else (Ok Ignored, set_storage h (st_write_batch s (ba_batch acc)))
      end
  end.

(** ** Full blocks *)

(** The header, difficulty and sections of a block, added to a batch. *)
Definition add_block_to_batch (batch : WriteBatch) (block : FullBlock Tx)
    (parent_cumulative : Z) : result (WriteBatch * Z) StateError :=
  let header := fb_header block in
  let? batch := put_batched batch header in
  let cumulative_difficulty := parent_cumulative + difficulty_from_nbits (h_n_bits header) in
  let batch := store_cumulative_difficulty batch (h_id header) cumulative_difficulty in
  let? batch := put_transactions_batched batch (h_id header) (fb_transactions block) in
  let batch := put_extension_batched batch (fb_extension block) in
  let batch := match fb_ad_proofs block with
               | Some proofs => put_ad_proofs_batched batch proofs
               | None => batch
               end in
  Ok (batch, cumulative_difficulty).

(** The in-memory state after a batch was written. *)
Definition update_in_memory_state (h : History) (id : bytes) (height cumulative : Z) : History :=
  let h := if cumulative >? best_cumulative_difficulty h
           then set_best_header h id height cumulative else h in
  if height >? best_full_block_height h then set_best_full h id height else h.

(** [finalize_block_batch]: the metadata, the write, the in-memory state. *)
Definition finalize_block_batch (h : History) (batch : WriteBatch) (final_id : bytes)
    (final_height final_cumulative : Z) : ChainSelection * History :=
  let better := final_cumulative >? best_cumulative_difficulty h in
  let batch := if better then put_best_header batch final_id final_height final_cumulative
               else batch in
  let selection :=
    if better then
      if (final_height <=? best_height h) && (best_height h >? 0)
      then Reorg 1 (u32 (best_height h - 1)) else Extended
    else Ignored in
  let batch := if final_height >? best_full_block_height h
               then put_best_full batch final_id final_height else batch in
  (selection, update_in_memory_state (set_storage h (st_write_batch (hi_storage h) batch))
                final_id final_height final_cumulative).

(** [append_full_block]: a batch of one block, finalised. *)
Definition append_full_block (h : History) (block : FullBlock Tx)
    : result (ChainSelection * History) StateError :=
  let header := fb_header block in
  let? (batch, cumulative_difficulty) :=
    add_block_to_batch [] block
      (parent_cumulative (hi_storage h) (h_height header) (h_parent_id header)) in
  Ok (finalize_block_batch h batch (h_id header) (h_height header) cumulative_difficulty).

Definition execute_batch (h : History) (batch : WriteBatch) : History :=
  set_storage h (st_write_batch (hi_storage h) batch).

Definition get_full_block (s : DB) (id : bytes) : result (option (FullBlock Tx)) StateError :=
  let? header := get_header s id in
  match header with
  | None => Ok None
  | Some header =>
      let? transactions := get_transactions s id in
      match transactions with
      | None => Ok None
      | Some transactions =>
          let? extension := get_extension s id in
          let extension := match extension with Some e => e | None => Extension_empty id end in
          Ok (Some (mkFullBlock header transactions extension (get_ad_proofs s id)))
      end
  end.

(** ** Locators *)

(** The loop of [get_header_locator]; [n] bounds the number of iterations. *)
Fixpoint locator_loop (n : nat) (s : DB) (height step : Z) (locator : list bytes)
    : option (result (list bytes) StateError) :=
  match n with
  | O => None
  | S n' =>
      match get_by_height s height with
      | Err e => Some (Err e)
      | Ok found =>
          let locator := match found with
                         | Some header => locator ++ [h_id header]
                         | None => locator
                         end in
          if height =? 1 then Some (Ok locator)
          else
            let height := sat_sub height step in
            let height := if height <? 1 then 1 else height in
            let step := if (10 <? length locator)%nat then u32 (step * 2) else step in
            locator_loop n' s height step locator
      end
  end.

(** [get_header_locator]; [None] means that the fuel did not suffice. *)
Definition get_header_locator (h : History) : option (result (list bytes) StateError) :=
  if best_height h =? 0 then Some (Ok [])
  else locator_loop (Z.to_nat (best_height h)) (hi_storage h) (best_height h) 1 [].

Fixpoint find_common_ancestor (s : DB) (ids : list bytes)
    : result (option (bytes * Z)) StateError :=
  match ids with
  | [] => Ok None
  | id :: ids' =>
      let? found := get_header s id in
      match found with
      | Some header =>
          let? main := get_by_height s (h_height header) in
          if match main with Some m => bool_decide (h_id m = h_id header) | None => false end
          then Ok (Some (h_id header, h_height header))
          else find_common_ancestor s ids'
      | None => find_common_ancestor s ids'
      end
  end.

Definition chain_gap (h : History) : Z := sat_sub (best_height h) (best_full_block_height h).

End History.

Arguments History DB : clear implicits.
#[global] Arguments put_best_header : simpl never.
#[global] Arguments put_best_full : simpl never.
#[global] Arguments k_best_header_id : simpl never.
#[global] Arguments k_best_height : simpl never.
#[global] Arguments k_best_cumulative_difficulty : simpl never.
#[global] Arguments k_best_full_block_id : simpl never.
#[global] Arguments k_best_full_block_height : simpl never.
#[global] Arguments k_minimal_full_block_height : simpl never.
#[global] Arguments k_is_headers_chain_synced : simpl never.
