(* ===== verification/HistoryFacts.v ===== *)
(** * The effect of the history's operations on the store

    What a new header changes, the invariant of the stored headers and their
    cumulative difficulties, and that it survives every way of adding one. *)

From S2P Require Export History.

Local Open Scope Z_scope.

Section Facts.
Context {ErgoBox Ext Tx : Type} `{ErgoBoxOps ErgoBox} `{TransactionLaws ErgoBox Ext Tx}
  `{ChainTypes} `{!HeaderCodec} `{Blake2b256Laws} `{BigUintBytesLaws} {DB : Type} `{StorageLaws DB}.

(** The bytes [raw] are those of [header], whose identifier is their hash. *)
Definition raw_of (header : Header) (raw : bytes) : Prop :=
  exists h, scorex_parse_bytes raw = Some h /\ set_header_id h (compute_header_id raw) = header.

(** A header the node's own serialisation reproduces. *)
Definition canonical (header : Header) : Prop :=
  exists raw, scorex_serialize_bytes header = Some raw /\ raw_of header raw.

Definition stored_header (s : DB) (header : Header) : Prop :=
  exists raw, st_get s Headers (h_id header) = Some raw /\ raw_of header raw.

Lemma raw_of_id header raw : raw_of header raw -> h_id header = blake2b256 raw.
Proof. by intros (h & _ & <-). Qed.

Lemma raw_of_id_length header raw : raw_of header raw -> length (h_id header) = 32%nat.
Proof. intros ->%raw_of_id. apply blake2b256_length. Qed.

Lemma raw_of_inj header header' raw : raw_of header raw -> raw_of header' raw -> header = header'.
Proof. intros (h & Hp & <-) (h' & Hp' & <-). congruence. Qed.

Lemma get_header_raw (s : DB) header raw :
  raw_of header raw -> st_get s Headers (h_id header) = Some raw ->
  get_header s (h_id header) = Ok (Some header).
Proof. intros (h & Hp & Hid) Hs. unfold get_header. rewrite Hs, Hp. cbn. by rewrite Hid. Qed.

Lemma stored_get (s : DB) header :
  stored_header s header -> get_header s (h_id header) = Ok (Some header).
Proof. intros (raw & Hs & Hr). by eapply get_header_raw. Qed.

Lemma contains_header_true (s : DB) id :
  contains_header s id = true <-> is_Some (st_get s Headers id).
Proof. apply bool_decide_eq_true. Qed.

Lemma contains_header_false (s : DB) id :
  contains_header s id = false <-> st_get s Headers id = None.
Proof. unfold contains_header, st_contains. rewrite bool_decide_eq_false, <- eq_None_not_Some. done. Qed.

Lemma stored_contains (s : DB) header : stored_header s header -> contains_header s (h_id header) = true.
Proof. intros (raw & Hs & _). apply contains_header_true. eauto. Qed.

Lemma nbits_to_target_nonneg nbits : 0 <= nbits_to_target nbits.
Proof.
  unfold nbits_to_target. assert (0 <= Z.land nbits 0x007fffff) by (apply Z.land_nonneg; lia).
  repeat case_match; try lia; rewrite ?Z.shiftr_nonneg, ?Z.shiftl_nonneg; done.
Qed.

Lemma difficulty_nonneg nbits : 0 <= difficulty_from_nbits nbits.
Proof.
  unfold difficulty_from_nbits, nbits_to_difficulty. pose proof (nbits_to_target_nonneg nbits).
  case_match; [vm_compute; discriminate|]. apply Z.div_pos; [vm_compute; discriminate|].
  zify_bool. lia.
Qed.

(** ** Adding a header *)

(** [s'] is [s] with a header, its height and its cumulative difficulty. *)
Record added (s s' : DB) (header : Header) (raw : bytes) (cumulative : Z) : Prop := {
  added_headers k : st_get s' Headers k =
    if decide (k = h_id header) then Some raw else st_get s Headers k;
  added_chain k : st_get s' HeaderChain k =
    if decide (k = height_key_of (h_height header)) then Some (h_id header)
    else st_get s HeaderChain k;
  added_difficulty k : st_get s' CumulativeDifficulty k =
    if decide (k = h_id header) then Some (to_bytes_be cumulative)
    else st_get s CumulativeDifficulty k
}.

(** The batch of [append_header]: the header is written first. *)
Lemma added_append (s : DB) header raw cum batch :
  (forall k, batch_last batch Headers k = None) -> (forall k, batch_last batch HeaderChain k = None) ->
  (forall k, batch_last batch CumulativeDifficulty k = None) ->
  added s (st_write_batch (put_with_bytes s header raw)
             (batch_merge (store_cumulative_difficulty [] (h_id header) cum) batch)) header raw cum.
Proof.
  intros Hh Hc Hd. constructor; intros k; rewrite st_get_merge; unfold put_with_bytes,
    put_with_bytes_batched, store_cumulative_difficulty, batch_merge;
    rewrite !st_get_write_batch, ?Hh, ?Hc, ?Hd, !batch_last_put; cbn [batch_last op_result];
    repeat case_decide; naive_solver.
Qed.

(** One step of a batch of headers. *)
Lemma added_batched (s : DB) batch header raw cum :
  added (st_write_batch s batch)
    (st_write_batch s (store_cumulative_difficulty (put_with_bytes_batched batch header raw)
                         (h_id header) cum)) header raw cum.
Proof.
  constructor; intros k; unfold store_cumulative_difficulty, put_with_bytes_batched;
    rewrite !st_get_write_batch, !batch_last_put; repeat case_decide; naive_solver.
Qed.

(** ** The stored headers *)

(** Every header is stored under its identifier with its bytes, the height
    index points to stored headers, parents are stored, and the cumulative
    difficulty of a header is its parent's plus its own, at most [best]. *)
Record chain_inv (s : DB) (best : Z) : Prop := {
  inv_headers id raw : st_get s Headers id = Some raw ->
    exists header, raw_of header raw /\ h_id header = id /\ in_u 32 (h_height header);
  inv_index k id : st_get s HeaderChain k = Some id ->
    exists header, stored_header s header /\ h_id header = id /\ k = height_key_of (h_height header);
  inv_parents header : stored_header s header -> 2 < h_height header ->
    contains_header s (h_parent_id header) = true /\ h_parent_id header <> h_id header;
  inv_difficulty header : stored_header s header ->
    get_cumulative_difficulty s (h_id header) =
    Some (parent_cumulative s (h_height header) (h_parent_id header)
          + difficulty_from_nbits (h_n_bits header));
  inv_best id d : get_cumulative_difficulty s id = Some d -> 0 <= d <= best
}.

Lemma chain_inv_le (s : DB) b b' : b <= b' -> chain_inv s b -> chain_inv s b'.
Proof.
  intros Hle []. constructor; auto. intros id d Hd. specialize (inv_best0 id d Hd). lia.
Qed.

Lemma chain_inv_eq (s s' : DB) b :
  (forall cf k, cf ∈ [Headers; HeaderChain; CumulativeDifficulty] -> st_get s' cf k = st_get s cf k) ->
  chain_inv s b -> chain_inv s' b.
Proof.
  intros Heq []. 
  assert (forall header, stored_header s' header -> stored_header s header) as Hst'.
  { intros header (raw & Hs & Hr). exists raw. by rewrite <- Heq by set_solver. }
  assert (forall header, stored_header s header -> stored_header s' header) as Hst.
  { intros header (raw & Hs & Hr). exists raw. by rewrite Heq by set_solver. }
  constructor.
  - intros id raw. rewrite Heq by set_solver. auto.
  - intros k id. rewrite Heq by set_solver. intros (hd & ? & ? & ?)%inv_index0. eauto.
  - intros header Hh Hlt. rewrite contains_header_true, Heq by set_solver.
    rewrite <- contains_header_true. auto.
  - intros header Hh. unfold parent_cumulative, get_cumulative_difficulty.
    rewrite !Heq by set_solver. by apply inv_difficulty0, Hst'.
  - intros id d. unfold get_cumulative_difficulty. rewrite Heq by set_solver. apply inv_best0.
Qed.

Lemma parent_cumulative_nonneg (s : DB) best height id :
  chain_inv s best -> 0 <= parent_cumulative s height id.
Proof.
  intros Hi. unfold parent_cumulative. case_match; [done|].
  destruct (get_cumulative_difficulty s id) eqn:E; [|done]. apply (inv_best _ _ Hi) in E. lia.
Qed.

Lemma added_get_difficulty (s s' : DB) header raw cum id :
  added s s' header raw cum -> 0 <= cum ->
  get_cumulative_difficulty s' id =
  if decide (id = h_id header) then Some cum else get_cumulative_difficulty s id.
Proof.
  intros Ha Hc. unfold get_cumulative_difficulty. rewrite (added_difficulty _ _ _ _ _ Ha).
  case_decide; [|done]. cbn. by rewrite to_bytes_be_val.
Qed.

(** The header that is already stored, or a new one. *)
Definition fresh_or_same (s : DB) (header : Header) : Prop :=
  contains_header s (h_id header) = false \/ stored_header s header.

Lemma added_stored (s s' : DB) header raw cum hd :
  added s s' header raw cum -> raw_of header raw -> fresh_or_same s header ->
  stored_header s' hd <-> hd = header \/ stored_header s hd.
Proof.
  intros Ha Hr Hf. split.
  - intros (raw' & Hs & Hr'). rewrite (added_headers _ _ _ _ _ Ha) in Hs. case_decide as Hid.
    + injection Hs as <-. left. by eapply raw_of_inj.
    + right. by exists raw'.
  - intros [->|(raw' & Hs & Hr')].
    + exists raw. split; [|done]. rewrite (added_headers _ _ _ _ _ Ha). by rewrite decide_True.
    + unfold stored_header. rewrite (added_headers _ _ _ _ _ Ha). case_decide as Hid; [|eauto].
      exists raw. split; [done|]. destruct Hf as [Hf|(raw2 & Hs2 & Hr2)].
      * rewrite contains_header_false in Hf. congruence.
      * rewrite <- Hid, Hs in Hs2. injection Hs2 as <-. by rewrite (raw_of_inj hd header raw').
Qed.

(** Adding a header whose parent is stored keeps the invariant. *)
Lemma added_inv (s s' : DB) best header raw cum :
  chain_inv s best -> added s s' header raw cum -> raw_of header raw -> in_u 32 (h_height header) ->
  fresh_or_same s header ->
  (2 < h_height header -> contains_header s (h_parent_id header) = true) ->
  cum = parent_cumulative s (h_height header) (h_parent_id header)
        + difficulty_from_nbits (h_n_bits header) ->
  chain_inv s' (Z.max best cum).
Proof.
  intros Hi Ha Hr Hh Hf Hpc Hcum.
  assert (2 < h_height header -> contains_header s (h_parent_id header) = true /\
     h_parent_id header <> h_id header) as Hp.
  { intros Hlt. split; [by apply Hpc|]. destruct Hf as [Hnew|Hold]; [|by apply (inv_parents _ _ Hi)].
    intros Heq. specialize (Hpc Hlt). congruence. }
  pose proof (parent_cumulative_nonneg s best (h_height header) (h_parent_id header) Hi) as Hpn.
  pose proof (difficulty_nonneg (h_n_bits header)) as Hdn.
  assert (0 <= cum) as Hc0 by lia.
  assert (forall hd, stored_header s' hd <-> hd = header \/ stored_header s hd) as Hst
    by (intros; by eapply added_stored).
  assert (forall id, contains_header s id = true -> contains_header s' id = true) as Hmono.
  { intros id. rewrite !contains_header_true, (added_headers _ _ _ _ _ Ha). case_decide; eauto. }
  constructor.
  - intros id rw. rewrite (added_headers _ _ _ _ _ Ha). case_decide as Hid.
    + intros [= <-]. exists header. naive_solver.
    + apply (inv_headers _ _ Hi).
  - intros k id. rewrite (added_chain _ _ _ _ _ Ha). case_decide as Hk.
    + intros [= <-]. exists header. rewrite Hst. auto.
    + intros (hd & Hs & ? & ?)%(inv_index _ _ Hi). exists hd. rewrite Hst. auto.
  - intros hd [->|Hs]%Hst Hlt; (split; [apply Hmono|]); [by apply Hp|by apply Hp
      |by apply (inv_parents _ _ Hi)|by apply (inv_parents _ _ Hi)].
  - assert (fresh_or_same s header -> forall hd, stored_header s hd -> 2 < h_height hd ->
      get_cumulative_difficulty s' (h_parent_id hd) = get_cumulative_difficulty s (h_parent_id hd)) as Hpar.
    { intros [Hnew|Hold] hd Hs Hlt; rewrite (added_get_difficulty _ _ _ _ _ _ Ha Hc0); case_decide as E; try done.
      - apply (inv_parents _ _ Hi) in Hs as [Hs _]; [|done]. by rewrite E, Hnew in Hs.
      - rewrite E. apply (inv_difficulty _ _ Hi) in Hold. by rewrite Hold, Hcum. }
    intros hd Hs%Hst. rewrite (added_get_difficulty _ _ _ _ _ _ Ha Hc0).
    assert (parent_cumulative s' (h_height hd) (h_parent_id hd) =
            parent_cumulative s (h_height hd) (h_parent_id hd)) as ->.
    { unfold parent_cumulative. destruct (Z.leb_spec (h_height hd) 2); [done|].
      destruct Hs as [->|Hs]; [|by rewrite Hpar].
      rewrite (added_get_difficulty _ _ _ _ _ _ Ha Hc0). rewrite decide_False; [done|]. by apply Hp. }
    case_decide as Hid.
    + destruct Hs as [->|Hs]; [by rewrite Hcum|]. destruct Hf as [Hnew|Hold].
      * apply stored_contains in Hs. by rewrite Hid, Hnew in Hs.
      * apply stored_get in Hs, Hold. rewrite Hid, Hold in Hs. injection Hs as ->. by rewrite Hcum.
    + destruct Hs as [->|Hs]; [done|]. by apply (inv_difficulty _ _ Hi).
  - intros id d. rewrite (added_get_difficulty _ _ _ _ _ _ Ha Hc0). case_decide.
    + intros [= <-]. lia.
    + intros Hd%(inv_best _ _ Hi). lia.
Qed.

End Facts.

(** ** A concrete header format, to run the model *)
Module HistoryToy.
Import Toy.

(** A header of a parent, compact difficulty and height; the other fields are
    those of the virtual genesis parent. *)
Definition toy_header (parent : bytes) (nbits height : Z) : Header :=
  mkHeader 1 [] parent (replicate 32 0) (replicate 33 0) (replicate 32 0) 0 nbits height
    (replicate 32 0) (mkAutolykosSolution ec_identity None (replicate 8 0) None) [0; 0; 0] [].

#[export] Instance toy_header_codec : HeaderCodec := {
  scorex_serialize_bytes h := Some (h_parent_id h ++ be_bytes 4 (h_n_bits h) ++ be_bytes 4 (h_height h));
  scorex_parse_bytes bs :=
    if (length bs =? 40)%nat
    then Some (toy_header (slice 0 32 bs) (be_val (slice 32 36 bs)) (be_val (slice 36 40 bs)))
    else None
}.

Definition toy_raw (parent : bytes) (nbits height : Z) : bytes :=
  parent ++ be_bytes 4 nbits ++ be_bytes 4 height.

(** The header with its identifier. *)
Definition toy_hd (parent : bytes) (nbits height : Z) : Header :=
  set_header_id (toy_header parent nbits height) (blake2b256 (toy_raw parent nbits height)).

Lemma toy_raw_of parent nbits height :
  length parent = 32%nat -> in_u 32 nbits -> in_u 32 height ->
  raw_of (toy_hd parent nbits height) (toy_raw parent nbits height).
Proof.
  intros Hp Hn Hh. unfold toy_raw. eexists. cbn [scorex_parse_bytes toy_header_codec].
  rewrite !length_app, Hp, !be_bytes_length. cbn [Nat.add Nat.eqb]. split; [done|].
  rewrite slice_head by done. rewrite (slice_mid 32 36 parent) by (rewrite ?be_bytes_length, ?Hp; done).
  replace (slice 36 40 _) with (be_bytes 4 height).
  - by rewrite !be_val_bytes.
  - rewrite <- (app_nil_r (be_bytes 4 height)) at 2. rewrite app_assoc. symmetry.
    apply slice_mid; rewrite ?length_app, ?be_bytes_length, ?Hp; done.
Qed.

Lemma toy_canonical parent nbits height :
  length parent = 32%nat -> in_u 32 nbits -> in_u 32 height -> canonical (toy_hd parent nbits height).
Proof. intros. exists (toy_raw parent nbits height). split; [done|]. by apply toy_raw_of. Qed.

End HistoryToy.
