(* ===== verification/HistorySpec.v ===== *)
(** * The invariant of the history

    The best header has the greatest cumulative difficulty, and the metadata on
    disk is the state in memory; appending a header or a full block keeps
    both. *)

From S2P Require Export HistoryFacts.

Local Open Scope Z_scope.

Section Disk.
Context {DB : Type}.

(** ** Memory and metadata

    [g] is the content of the metadata family. *)
Record disk_inv (g : bytes -> option bytes) (h : History DB) : Prop := {
  disk_header_id : meta_id (g k_best_header_id) None = best_header_id h;
  disk_height : meta_height (g k_best_height) 0 = best_height h;
  disk_difficulty :
    meta_difficulty (g k_best_cumulative_difficulty) 0 = best_cumulative_difficulty h;
  disk_full_id : meta_id (g k_best_full_block_id) None = best_full_block_id h;
  disk_full_height : meta_height (g k_best_full_block_height) 0 = best_full_block_height h;
  disk_minimal :
    meta_height (g k_minimal_full_block_height) GENESIS_HEIGHT = minimal_full_block_height h;
  disk_synced : meta_flag (g k_is_headers_chain_synced) false = is_headers_chain_synced h
}.

Lemma disk_inv_ext g g' h : (forall k, g' k = g k) -> disk_inv g h -> disk_inv g' h.
Proof. intros Hg []. by constructor; rewrite Hg. Qed.

Lemma disk_set_storage g h s : disk_inv g h -> disk_inv g (set_storage h s).
Proof. by intros []. Qed.

Lemma meta_height_bytes z d : in_u 32 z -> meta_height (Some (be_bytes 4 z)) d = z.
Proof.
  intros Hz. unfold meta_height. rewrite be_bytes_length. cbn [Nat.leb].
  unfold slice. rewrite drop_0, take_ge by (by rewrite be_bytes_length). by apply be_val_bytes.
Qed.

Lemma meta_id_32 id d : length id = 32%nat -> meta_id (Some id) d = Some id.
Proof. intros Hl. unfold meta_id. by rewrite Hl. Qed.

(** The metadata after a batch. *)
Abbreviation after g b := (fun k => op_result (batch_last b Metadata k) (g k)).

Ltac disk_case :=
  intros []; constructor; cbn beta; unfold put_best_header, put_best_full;
  rewrite ?batch_last_put; decide_keys; cbn [op_result]; eauto using meta_height_bytes, meta_id_32.

Lemma disk_put_best_header `{BigUintBytesLaws} g b h id height cum :
  length id = 32%nat -> in_u 32 height -> 0 <= cum ->
  disk_inv (after g b) h ->
  disk_inv (after g (put_best_header b id height cum)) (set_best_header h id height cum).
Proof.
  intros Hid Hh Hc. disk_case; by apply to_bytes_be_val.
Qed.

Lemma disk_put_best_full g b h id height :
  length id = 32%nat -> in_u 32 height ->
  disk_inv (after g b) h -> disk_inv (after g (put_best_full b id height)) (set_best_full h id height).
Proof. intros Hid Hh. disk_case. Qed.

Lemma disk_batch_other g b h :
  (forall k, batch_last b Metadata k = None) -> disk_inv g h -> disk_inv (after g b) h.
Proof. intros Hb. apply disk_inv_ext. intros k. by rewrite Hb. Qed.

Context `{StorageLaws DB}.

Lemma disk_write g b (s : DB) h :
  (forall k, st_get s Metadata k = g k) -> disk_inv (after g b) h ->
  disk_inv (st_get (st_write_batch s b) Metadata) h.
Proof. intros Hg. apply disk_inv_ext. intros k. by rewrite st_get_write_batch, Hg. Qed.

Lemma disk_inv_init (h : History DB) :
  disk_inv (st_get (hi_storage h) Metadata) h -> history_init (hi_storage h) (pruning_config h) = h.
Proof. intros []. destruct h. unfold history_init. cbn zeta. by f_equal. Qed.

End Disk.

Section Spec.
Context {ErgoBox Ext Tx : Type} `{ErgoBoxOps ErgoBox} `{TransactionLaws ErgoBox Ext Tx}
  `{ChainTypes} `{!HeaderCodec} `{Blake2b256Laws} `{BigUintBytesLaws} {DB : Type} `{StorageLaws DB}.

Abbreviation history := (History DB).

(** ** The invariant *)

Record history_inv (h : history) : Prop := {
  hi_chain : chain_inv (hi_storage h) (best_cumulative_difficulty h);
  hi_best : match best_header_id h with
    | None => best_height h = 0 /\ best_cumulative_difficulty h = 0
    | Some id => exists header, stored_header (hi_storage h) header /\ h_id header = id /\
        h_height header = best_height h /\
        get_cumulative_difficulty (hi_storage h) id = Some (best_cumulative_difficulty h)
    end;
  hi_disk : disk_inv (st_get (hi_storage h) Metadata) h;
  hi_minimal : in_u 32 (minimal_full_block_height h) /\
    (minimal_full_block_height h <= HISTORY_EPOCH_LENGTH \/
     minimal_full_block_height h mod HISTORY_EPOCH_LENGTH = 0)
}.

Lemma best_nonneg h : history_inv h -> 0 <= best_cumulative_difficulty h.
Proof.
  intros [Hc Hb _ _]. destruct (best_header_id h) as [id|]; [|lia].
  destruct Hb as (header & _ & _ & _ & Hd). apply (inv_best _ _ Hc) in Hd. lia.
Qed.

(** The fields of a header a caller passes on: its bytes hash to its
    identifier, and its height is a [u32]. *)
Definition header_ok (header : Header) (raw : bytes) : Prop :=
  raw_of header raw /\ in_u 32 (h_height header).

Lemma history_new_inv (s : DB) c :
  (forall cf k, st_get s cf k = None) -> history_inv (with_pruning s c).
Proof.
  intros Hs. constructor; cbn; [|done| |unfold in_u, GENESIS_HEIGHT, HISTORY_EPOCH_LENGTH; lia].
  - assert (forall hd, ~ stored_header s hd) as Hn by (intros hd (raw & Hr & _); by rewrite Hs in Hr).
    constructor; unfold get_cumulative_difficulty; intros *; rewrite ?Hs; try done; naive_solver.
  - constructor; by rewrite Hs.
Qed.

(** ** Switching to a new best header *)

(** The common end of both ways of appending headers. *)
Definition select (h : history) (s : DB) (batch : WriteBatch) (id : bytes) (height cum : Z)
    : history :=
  if cum >? best_cumulative_difficulty h then
    set_best_header (set_storage h (st_write_batch s (put_best_header batch id height cum)))
      id height cum
  else set_storage h (st_write_batch s batch).

Lemma put_best_header_other b id height cum cf k :
  cf <> Metadata -> batch_last (put_best_header b id height cum) cf k = batch_last b cf k.
Proof. intros. unfold put_best_header. rewrite !batch_last_put. repeat case_decide; naive_solver. Qed.

Lemma put_best_full_other b id height cf k :
  cf <> Metadata -> batch_last (put_best_full b id height) cf k = batch_last b cf k.
Proof. intros. unfold put_best_full. rewrite !batch_last_put. repeat case_decide; naive_solver. Qed.

(** If the store with the batch is good and [id] is its last header, so is the
    selected history. *)
Lemma select_inv h (s : DB) batch header cum :
  history_inv h -> (forall k, st_get s Metadata k = st_get (hi_storage h) Metadata k) ->
  (forall k, batch_last batch Metadata k = None) ->
  chain_inv (st_write_batch s batch) (Z.max (best_cumulative_difficulty h) cum) ->
  (forall hd, stored_header (hi_storage h) hd -> stored_header (st_write_batch s batch) hd) ->
  (forall hd, stored_header (hi_storage h) hd ->
     get_cumulative_difficulty (st_write_batch s batch) (h_id hd) =
     get_cumulative_difficulty (hi_storage h) (h_id hd)) ->
  (cum > best_cumulative_difficulty h -> stored_header (st_write_batch s batch) header /\
     get_cumulative_difficulty (st_write_batch s batch) (h_id header) = Some cum /\
     in_u 32 (h_height header)) ->
  history_inv (select h s batch (h_id header) (h_height header) cum).
Proof.
  intros Hi Hmeta Hb Hc Hmono Hdmono Hlast. pose proof (best_nonneg h Hi) as Hpos.
  unfold select. rewrite Z.gtb_ltb. destruct (Z.ltb_spec (best_cumulative_difficulty h) cum) as [Hlt|Hge].
  - destruct Hlast as (Hst & Hd & Hh); [lia|]. rewrite Z.max_r in Hc by lia.
    assert (forall cf k, cf <> Metadata ->
      st_get (st_write_batch s (put_best_header batch (h_id header) (h_height header) cum)) cf k =
      st_get (st_write_batch s batch) cf k) as Heq.
    { intros. by rewrite !st_get_write_batch, put_best_header_other. }
    assert (length (h_id header) = 32%nat) as Hlen
      by (destruct Hst as (? & _ & ?); by eapply raw_of_id_length).
    constructor; cbn.
    + eapply chain_inv_eq; [|exact Hc]. intros cf k Hcf. apply Heq. set_solver.
    + exists header. unfold stored_header, get_cumulative_difficulty. rewrite !Heq by done. done.
    + eapply disk_write; [apply Hmeta|]. apply disk_put_best_header; [done|done|lia|].
      apply disk_batch_other; [done|]. apply disk_set_storage, (hi_disk _ Hi).
    + apply (hi_minimal _ Hi).
  - rewrite Z.max_l in Hc by lia. constructor; cbn.
    + done.
    + pose proof (hi_best _ Hi) as Hbest. destruct (best_header_id h); [|done].
      destruct Hbest as (hd & Hst & <- & Hh & Hd). exists hd. rewrite Hdmono by done. auto.
    + eapply disk_write; [apply Hmeta|]. apply disk_batch_other; [done|].
      apply disk_set_storage, (hi_disk _ Hi).
    + apply (hi_minimal _ Hi).
Qed.

(** ** Appending one header *)

Lemma append_header_eq h header raw :
  append_header_with_bytes h header raw =
  if contains_header (hi_storage h) (h_id header) then (Ok Ignored, h)
  else if (h_height header >? 2) && negb (contains_header (hi_storage h) (h_parent_id header)) then
    (Err (HeaderNotFound (h_parent_id header)), h)
  else
    let cum := parent_cumulative (hi_storage h) (h_height header) (h_parent_id header)
               + difficulty_from_nbits (h_n_bits header) in
    let h' := select h (put_with_bytes (hi_storage h) header raw)
                (store_cumulative_difficulty [] (h_id header) cum)
                (h_id header) (h_height header) cum in
    (if cum >? best_cumulative_difficulty h
     then switched (hi_storage h') (h_id header) (h_height header) (best_height h)
     else Ok Ignored, h').
Proof.
  unfold append_header_with_bytes, append_header_internal, select. cbn zeta. by repeat case_match.
Qed.

(** A header of the node's own serialisation is one with those bytes. *)
Lemma append_header_canonical h header raw :
  scorex_serialize_bytes header = Some raw ->
  append_header h header = append_header_with_bytes h header raw.
Proof.
  intros Hs. unfold append_header, append_header_with_bytes, append_header_internal, put_header,
    put_batched. by rewrite Hs.
Qed.

(** The store after the header and its difficulty. *)
Lemma added_append_nil (s : DB) header raw cum :
  added s (st_write_batch (put_with_bytes s header raw)
             (store_cumulative_difficulty [] (h_id header) cum)) header raw cum.
Proof. by apply (added_append s header raw cum []). Qed.

Lemma put_with_bytes_meta (s : DB) header raw k :
  st_get (put_with_bytes s header raw) Metadata k = st_get s Metadata k.
Proof. unfold put_with_bytes, put_with_bytes_batched. by store_reads. Qed.

(** Adding a new header leaves the difficulties of the stored ones. *)
Lemma added_difficulty_mono (s s' : DB) header raw cum hd :
  added s s' header raw cum -> 0 <= cum -> contains_header s (h_id header) = false ->
  stored_header s hd ->
  get_cumulative_difficulty s' (h_id hd) = get_cumulative_difficulty s (h_id hd).
Proof.
  intros Ha Hc Hn Hd. rewrite (added_get_difficulty _ _ _ _ _ _ Ha Hc).
  rewrite decide_False; [done|]. intros Heq. apply stored_contains in Hd. congruence.
Qed.

Lemma append_header_inv h header raw :
  history_inv h -> header_ok header raw -> history_inv (append_header_with_bytes h header raw).2.
Proof.
  intros Hi [Hr Hh]. rewrite append_header_eq. cbn zeta.
  destruct (contains_header (hi_storage h) (h_id header)) eqn:Hn; [done|].
  destruct ((h_height header >? 2) && _) eqn:Hp; [done|]. cbn [snd].
  set (cum := parent_cumulative _ _ _ + _).
  pose proof (added_append_nil (hi_storage h) header raw cum) as Ha.
  assert (0 <= cum) as Hc0.
  { pose proof (difficulty_nonneg (h_n_bits header)).
    pose proof (parent_cumulative_nonneg _ _ (h_height header) (h_parent_id header) (hi_chain _ Hi)). lia. }
  apply select_inv; try done.
  - intros. apply put_with_bytes_meta.
  - eapply added_inv; try done; [apply (hi_chain _ Hi)|by left|].
    intros Hlt. destruct (contains_header (hi_storage h) (h_parent_id header)); [done|].
    rewrite Z.gtb_ltb in Hp. apply andb_false_iff in Hp as [Hp|Hp]; [apply Z.ltb_ge in Hp; lia|done].
  - intros hd Hst. rewrite (added_stored _ _ _ _ _ _ Ha Hr); [by right|by left].
  - intros hd Hst. by eapply added_difficulty_mono.
  - intros _. rewrite (added_stored _ _ _ _ _ _ Ha Hr) by (by left). split; [by left|].
    rewrite (added_get_difficulty _ _ _ _ _ _ Ha Hc0). by rewrite decide_True.
Qed.

(** ** Histories over stores with the same content *)

Definition hist_eq (h h' : history) : Prop :=
  store_eq (hi_storage h) (hi_storage h') /\ set_storage h (hi_storage h') = h'.

#[export] Instance hist_eq_equivalence : Equivalence hist_eq.
Proof.
  split.
  - intros h. split; [reflexivity|by destruct h].
  - intros h h' [Hs Hf]. split; [by symmetry|]. rewrite <- Hf. by destruct h.
  - intros h1 h2 h3 [Hs1 Hf1] [Hs2 Hf2]. split; [by etrans|].
    rewrite <- Hf2, <- Hf1. by destruct h1.
Qed.

Lemma hist_eq_set (h : history) (s s' : DB) : store_eq s s' -> hist_eq (set_storage h s) (set_storage h s').
Proof. intros Hs. by split. Qed.

Lemma hist_eq_best (h h' : history) id height cum :
  hist_eq h h' -> hist_eq (set_best_header h id height cum) (set_best_header h' id height cum).
Proof. intros [Hs <-]. by split. Qed.

Lemma history_inv_eq h h' : hist_eq h h' -> history_inv h -> history_inv h'.
Proof.
  intros [Hs <-] Hi. cbn in Hs. constructor; cbn.
  - eapply chain_inv_eq; [|apply (hi_chain _ Hi)]. intros. symmetry. apply Hs.
  - pose proof (hi_best _ Hi) as Hb. destruct (best_header_id h); [|done].
    destruct Hb as (hd & Hst & ?). exists hd. unfold stored_header, get_cumulative_difficulty.
    rewrite <- !Hs. done.
  - eapply disk_inv_ext; [|apply disk_set_storage, (hi_disk _ Hi)]. intros k. symmetry. apply Hs.
  - apply (hi_minimal _ Hi).
Qed.

(** ** Full blocks *)

(** What [add_block_to_batch] adds to a batch. *)
Record block_added (s : DB) (b b' : WriteBatch) (block : FullBlock Tx) (raw txb : bytes) (cum : Z)
    : Prop := {
  ba_added : added (st_write_batch s b) (st_write_batch s b') (fb_header block) raw cum;
  ba_txs k : batch_last b' CFBlockTransactions k =
    if decide (k = h_id (fb_header block)) then Some (OpPut txb)
    else batch_last b CFBlockTransactions k;
  ba_extension k : batch_last b' Extensions k =
    if decide (k = ext_header_id (fb_extension block))
    then Some (OpPut (serialize_extension (fb_extension block))) else batch_last b Extensions k;
  ba_proofs k : batch_last b' AdProofs k =
    match fb_ad_proofs block with
    | Some p => if decide (k = adp_header_id p) then Some (OpPut (adp_proof_bytes p))
                else batch_last b AdProofs k
    | None => batch_last b AdProofs k
    end;
  ba_other cf k : cf ∉ [Headers; HeaderChain; CumulativeDifficulty; CFBlockTransactions; Extensions;
      AdProofs] -> batch_last b' cf k = batch_last b cf k
}.

Lemma add_block_spec (s : DB) b block pc b' cum :
  add_block_to_batch b block pc = Ok (b', cum) ->
  exists raw txb, scorex_serialize_bytes (fb_header block) = Some raw /\
    serialize_transactions (fb_transactions block) = Ok txb /\
    cum = pc + difficulty_from_nbits (h_n_bits (fb_header block)) /\
    block_added s b b' block raw txb cum.
Proof.
  unfold add_block_to_batch, put_batched, put_transactions_batched.
  intros (b1 & (raw & Hraw & <-%Ok_inj)%rbind_ok & Hrest)%rbind_ok.
  apply rbind_ok in Hrest as (b2 & (txb & Htx & <-%Ok_inj)%rbind_ok & [= <- <-]).
  destruct (scorex_serialize_bytes (fb_header block)) as [raw'|]; [|done]. injection Hraw as ->.
  exists raw, txb. do 3 (split; [done|]).
  unfold put_extension_batched, put_ad_proofs_batched, store_cumulative_difficulty.
  constructor; [constructor|..]; intros *; rewrite ?st_get_write_batch; destruct (fb_ad_proofs block);
    rewrite ?batch_last_put; try intros Hcf%not_elem_of_cons; repeat case_decide; set_solver.
Qed.

Lemma full_inv h id height :
  history_inv h -> length id = 32%nat -> in_u 32 height ->
  history_inv (set_best_full (set_storage h (st_write_batch (hi_storage h) (put_best_full [] id height)))
                 id height).
Proof.
  intros Hi Hid Hh.
  assert (forall cf k, cf <> Metadata ->
    st_get (st_write_batch (hi_storage h) (put_best_full [] id height)) cf k = st_get (hi_storage h) cf k)
    as Heq by (intros; by rewrite st_get_write_batch, put_best_full_other).
  constructor; cbn.
  - eapply chain_inv_eq; [|apply (hi_chain _ Hi)]. intros cf k Hcf. apply Heq. set_solver.
  - pose proof (hi_best _ Hi) as Hb. destruct (best_header_id h); [|done].
    destruct Hb as (hd & ?). exists hd. unfold stored_header, get_cumulative_difficulty.
    rewrite !Heq by done. done.
  - eapply disk_write; [done|]. apply disk_put_best_full; [done|done|].
    apply disk_batch_other; [done|]. apply disk_set_storage, (hi_disk _ Hi).
  - apply (hi_minimal _ Hi).
Qed.

(** Finalising a batch is selecting the header, then recording the full block. *)
Lemma finalize_eq h batch id height cum :
  let h1 := select h (hi_storage h) batch id height cum in
  hist_eq (if height >? best_full_block_height h
           then set_best_full (set_storage h1 (st_write_batch (hi_storage h1) (put_best_full [] id height)))
                  id height
           else h1)
    (finalize_block_batch h batch id height cum).2.
Proof.
  unfold select, finalize_block_batch, update_in_memory_state. cbn zeta. cbn [snd].
  destruct (cum >? best_cumulative_difficulty h) eqn:Ec; cbn; rewrite Ec; cbn;
    destruct (height >? best_full_block_height h) eqn:Ef; cbn; rewrite ?Ef; try reflexivity;
    (split; [|done]); cbn; intros cf k; rewrite !st_get_write_batch; unfold put_best_full;
    rewrite !batch_last_put; cbn [batch_last]; repeat case_decide; done.
Qed.

(** The header of a block: the node reproduces its bytes, its parent is known
    and, when the header is stored already, it is this one. *)
Definition block_ok (s : DB) (block : FullBlock Tx) : Prop :=
  let header := fb_header block in
  canonical header /\ in_u 32 (h_height header) /\ fresh_or_same s header /\
  (2 < h_height header -> contains_header s (h_parent_id header) = true).

Lemma append_full_block_inv h block sel h' :
  history_inv h -> block_ok (hi_storage h) block -> append_full_block h block = Ok (sel, h') ->
  history_inv h'.
Proof.
  intros Hi ((raw & Hraw & Hr) & Hh & Hf & Hp) ([batch cum] & Hadd & Hfin%Ok_inj)%rbind_ok.
  set (header := fb_header block) in *.
  apply (add_block_spec (hi_storage h)) in Hadd as (raw' & txb & Hraw' & _ & Hcum & Hba).
  fold header in Hraw', Hcum. rewrite Hraw in Hraw'. injection Hraw' as <-.
  pose proof (ba_added _ _ _ _ _ _ _ Hba) as Ha. fold header in Ha.
  assert (forall cf k, st_get (st_write_batch (hi_storage h) []) cf k = st_get (hi_storage h) cf k) as Hnil
    by (intros; by rewrite st_get_write_batch).
  assert (added (hi_storage h) (st_write_batch (hi_storage h) batch) header raw cum) as Ha'
    by (constructor; intros k; rewrite ?(added_headers _ _ _ _ _ Ha), ?(added_chain _ _ _ _ _ Ha),
          ?(added_difficulty _ _ _ _ _ Ha), Hnil; done).
  assert (0 <= cum) as Hc0.
  { pose proof (difficulty_nonneg (h_n_bits header)).
    pose proof (parent_cumulative_nonneg _ _ (h_height header) (h_parent_id header) (hi_chain _ Hi)). lia. }
  assert (chain_inv (st_write_batch (hi_storage h) batch) (Z.max (best_cumulative_difficulty h) cum)) as Hc
    by (by eapply added_inv; try done; apply (hi_chain _ Hi)).
  assert (history_inv (select h (hi_storage h) batch (h_id header) (h_height header) cum)) as Hsel.
  { apply select_inv; try done.
    - intros k. apply (ba_other _ _ _ _ _ _ _ Hba). set_solver.
    - intros hd Hst. rewrite (added_stored _ _ _ _ _ _ Ha' Hr); [by right|done].
    - intros hd Hst. rewrite (added_get_difficulty _ _ _ _ _ _ Ha' Hc0). case_decide as Hid; [|done].
      destruct Hf as [Hf|Hf]; [apply stored_contains in Hst; congruence|].
      rewrite Hid, (inv_difficulty _ _ (hi_chain _ Hi) _ Hf). by rewrite Hcum.
    - intros _. rewrite (added_stored _ _ _ _ _ _ Ha' Hr) by done. split; [by left|].
      rewrite (added_get_difficulty _ _ _ _ _ _ Ha' Hc0). by rewrite decide_True. }
  pose proof (finalize_eq h batch (h_id header) (h_height header) cum) as Heq.
  rewrite Hfin in Heq. cbn zeta in Heq. cbn [snd] in Heq. eapply history_inv_eq; [exact Heq|].
  case_match; [|done]. apply full_inv; [done| |done]. by eapply raw_of_id_length.
Qed.

End Spec.
