(* ===== verification/HistoryPruning.v ===== *)
(** * Pruning block bodies

    What [update_best_full_block_pruning] deletes and what it keeps, and that
    it keeps the invariant of the history. *)

From S2P Require Export HistorySpec.

Local Open Scope Z_scope.

Section Pruning.
Context {ErgoBox Ext Tx : Type} `{ErgoBoxOps ErgoBox} `{TransactionLaws ErgoBox Ext Tx}
  `{ChainTypes} `{!HeaderCodec} `{Blake2b256Laws} `{BigUintBytesLaws} {DB : Type} `{StorageLaws DB}.

Abbreviation history := (History DB).

Definition body_families : list ColumnFamily := [CFBlockTransactions; Extensions; AdProofs].

(** The blocks whose bodies pruning up to [height] deletes. *)
Definition prunable (s : DB) (height : Z) (id : bytes) : Prop :=
  exists h header, 1 <= h < height /\ get_by_height s h = Ok (Some header) /\ h_id header = id /\
    has_transactions s id = true.

Lemma index_inv (s : DB) best h :
  chain_inv s best -> in_u 32 h ->
  get_by_height s h = match st_get s HeaderChain (height_key_of h) with
    | Some id => get_header s id | None => Ok None end /\
  forall header, get_by_height s h = Ok (Some header) ->
    stored_header s header /\ h_height header = h /\
    st_get s HeaderChain (height_key_of h) = Some (h_id header).
Proof.
  intros Hi Hh. unfold get_by_height, chain_id_at.
  destruct (st_get s HeaderChain (height_key_of h)) as [id|] eqn:E; [|by split].
  destruct (inv_index _ _ Hi _ _ E) as (hd & Hst & <- & Hk).
  pose proof Hst as (raw & Hraw & Hr). rewrite (raw_of_id_length _ _ Hr). cbn [Nat.eqb rbind].
  split; [done|]. rewrite (stored_get _ _ Hst). intros header [= <-]. split; [done|]. split; [|done].
  symmetry. eapply be_bytes_inj; [..|exact Hk]; [done|].
  destruct (inv_headers _ _ Hi _ _ Hraw) as (hd' & Hr' & Hid & Hin). by rewrite (raw_of_inj hd hd' raw).
Qed.

Lemma get_by_height_ok (s : DB) best h :
  chain_inv s best -> in_u 32 h -> exists o, get_by_height s h = Ok o.
Proof.
  intros Hi Hh. destruct (index_inv s best h Hi Hh) as [-> _].
  destruct (st_get s HeaderChain (height_key_of h)) as [id|] eqn:E; [|eauto].
  destruct (inv_index _ _ Hi _ _ E) as (hd & Hst & <- & _). rewrite (stored_get _ _ Hst). eauto.
Qed.

Lemma body_not_meta cf : cf ∈ body_families -> cf <> Metadata.
Proof. intros Hcf ->. unfold body_families in Hcf. set_solver. Qed.

Lemma not_body cf : cf ∉ Metadata :: body_families -> (cf ∉ body_families) /\ cf <> Metadata.
Proof. rewrite not_elem_of_cons. by intros []. Qed.

(** The loop of [prune_blocks_below] succeeds, and deletes exactly the bodies
    of the prunable blocks. *)
Lemma prune_loop_spec (s : DB) best n :
  chain_inv s best -> Z.of_nat n < 2 ^ 32 ->
  exists batch count, rfold (prune_step s) ([], 0) (seqZ 1 (Z.of_nat n)) = Ok (batch, count) /\
    (0 <= count <= Z.of_nat n) /\
    (count = 0 -> batch = []) /\
    (forall cf k, cf ∉ body_families -> batch_last batch cf k = None) /\
    (forall cf k, cf ∈ body_families -> prunable s (1 + Z.of_nat n) k -> batch_last batch cf k = Some OpDelete) /\
    (forall cf k, ~ prunable s (1 + Z.of_nat n) k -> batch_last batch cf k = None).
Proof.
  intros Hi. induction n as [|n IH]; intros Hn.
  - exists [], 0. split; [done|]. split; [lia|]. split; [done|]. split; [done|].
    split; [|done]. intros cf k _ (h & hd & Hh & _). lia.
  - destruct IH as (batch & count & Hfold & Hcount & Hnil & Hother & Hdel & Hkeep); [lia|].
    rewrite seqZ_S, rfold_app, Hfold. cbn [rbind rfold].
    set (x := 1 + Z.of_nat n). replace (1 + Z.of_nat (S n)) with (x + 1) by lia.
    assert (in_u 32 x) as Hx by (unfold in_u; lia).
    assert (forall k, prunable s (x + 1) k <-> prunable s x k \/
      exists hd, get_by_height s x = Ok (Some hd) /\ h_id hd = k /\ has_transactions s k = true) as Hsplit.
    { intros k. split.
      - intros (h & hd & Hh & Hg & ? & ?). destruct (decide (h = x)) as [->|]; [right; eauto|].
        left. exists h, hd. split; [lia|auto].
      - intros [(h & hd & Hh & ?)|(hd & ? & ? & ?)]; [exists h, hd; split; [lia|auto]|].
        exists x, hd. split; [lia|auto]. }
    destruct (get_by_height_ok s best x Hi Hx) as [[hd|] Hg];
      unfold prune_step; rewrite Hg; cbn [rbind].
    + destruct (has_transactions s (h_id hd)) eqn:Ht; cbn [rbind].
      * rewrite (wrap_small 32) by (unfold in_u; lia). eexists _, (count + 1). split; [done|].
        split; [lia|]. split; [lia|]. split; [|split].
        -- intros cf k Hcf. rewrite !batch_last_delete. unfold body_families in Hcf.
           repeat (rewrite decide_False by set_solver). by apply Hother.
        -- intros cf k Hcf [Hk|(hd' & Hg' & <- & _)]%Hsplit; rewrite !batch_last_delete.
           ++ repeat case_decide; try done. by apply Hdel.
           ++ rewrite Hg in Hg'. injection Hg' as <-. unfold body_families in Hcf.
              repeat case_decide; try done. set_solver.
        -- intros cf k Hk. rewrite Hsplit in Hk. rewrite !batch_last_delete.
           repeat (rewrite decide_False by naive_solver). apply Hkeep. naive_solver.
      * exists batch, count. split; [done|]. split; [lia|]. split; [done|]. split; [done|].
        setoid_rewrite Hsplit. split; intros cf k; [intros Hcf [Hk|(hd' & Hg' & <- & Ht')]|];
          [by apply Hdel|congruence|]. intros Hk. apply Hkeep. naive_solver.
    + exists batch, count. split; [done|]. split; [lia|]. split; [done|]. split; [done|].
      setoid_rewrite Hsplit. split; intros cf k; [intros Hcf [Hk|(hd' & Hg' & _)]|];
        [by apply Hdel|congruence|]. intros Hk. apply Hkeep. naive_solver.
Qed.

(** ** The minimal height *)

Lemma epoch_height_spec m :
  HISTORY_EPOCH_LENGTH < m ->
  extension_with_parameters_height m mod HISTORY_EPOCH_LENGTH = 0 /\
  m - HISTORY_EPOCH_LENGTH < extension_with_parameters_height m <= m.
Proof.
  unfold extension_with_parameters_height, HISTORY_EPOCH_LENGTH. intros Hm.
  destruct (Z.ltb_spec m 1024); [lia|]. pose proof (Z.mod_pos_bound m 1024 ltac:(lia)). split; [|lia].
  rewrite Zminus_mod, Zmod_mod, <- Zminus_mod. by rewrite Z.sub_diag.
Qed.

Definition keep (h : history) : Z := blocks_to_keep (pruning_config h).

Lemma new_minimal_spec h height :
  history_inv h -> in_u 32 height -> 0 <= keep h < 2 ^ 31 ->
  let m := new_minimal_height h height in
  in_u 32 m /\ (m <= HISTORY_EPOCH_LENGTH \/ m mod HISTORY_EPOCH_LENGTH = 0) /\
  minimal_full_block_height h <= m /\
  (0 < keep h -> m <= Z.max (minimal_full_block_height h) (height - keep h + 1)) /\
  (keep h = 0 -> m = minimal_full_block_height h).
Proof.
  intros Hi Hh Hk. pose proof (hi_minimal _ Hi) as [Hmin Halign]. cbn zeta. unfold new_minimal_height.
  unfold is_enabled. fold (keep h). rewrite (proj2 (Z.leb_le 0 (keep h))) by lia. cbn [negb].
  rewrite (wrap_small 32 (keep h)) by (unfold in_u; lia).
  set (back := sat_sub height (wrap 32 (keep h - 1))).
  assert (0 <= back <= height) as Hback.
  { unfold back, sat_sub. pose proof (wrap_range 32 ltac:(lia) (keep h - 1)). unfold in_u in *. lia. }
  assert (0 < keep h -> back <= Z.max 0 (height - keep h + 1)) as Hpos.
  { intros. unfold back, sat_sub. rewrite wrap_small by (unfold in_u; lia). lia. }
  assert (keep h = 0 -> back = 0) as Hzero.
  { intros Hk0. unfold back, sat_sub. rewrite Hk0. change (wrap 32 (0 - 1)) with (2 ^ 32 - 1).
    unfold in_u in Hh. lia. }
  clearbody back. remember (Z.max (minimal_full_block_height h) back) as mx eqn:Emx.
  assert (in_u 32 mx) as Hmx by (unfold in_u in *; lia). unfold in_u in *.
  rewrite Z.gtb_ltb. destruct (Z.ltb_spec HISTORY_EPOCH_LENGTH mx) as [Hlt|Hge].
  - destruct (epoch_height_spec mx Hlt) as [Hmod Hle]. rewrite Z.min_r by lia.
    assert (minimal_full_block_height h <= extension_with_parameters_height mx) as Hmono.
    { unfold HISTORY_EPOCH_LENGTH in *. pose proof (proj1 (Z.mod_divide _ 1024 ltac:(lia)) Hmod) as [q Hq].
      destruct Halign as [?|Ha]; [lia|]. apply Z.mod_divide in Ha as [p Hp]; lia. }
    unfold HISTORY_EPOCH_LENGTH in *. repeat split; auto; lia.
  - repeat split; lia.
Qed.

Lemma disabled_minimal h height : keep h < 0 -> new_minimal_height h height = GENESIS_HEIGHT.
Proof. intros Hk. unfold new_minimal_height, is_enabled. fold (keep h). by destruct (Z.leb_spec 0 (keep h)); [lia|]. Qed.

(** ** Writing the metadata of pruning *)

Lemma synced_inv h b : history_inv h -> history_inv (set_headers_chain_synced h b).
Proof.
  intros Hi.
  assert (forall cf k, cf <> Metadata -> st_get (hi_storage (set_headers_chain_synced h b)) cf k =
    st_get (hi_storage h) cf k) as Heq by (intros; cbn; apply st_get_put_other; by left; congruence).
  constructor; cbn [set_headers_chain_synced set_storage set_synced best_header_id best_height
    best_cumulative_difficulty minimal_full_block_height].
  - eapply chain_inv_eq; [|apply (hi_chain _ Hi)]. intros. apply Heq. set_solver.
  - pose proof (hi_best _ Hi) as Hb. destruct (best_header_id h); [|done].
    destruct Hb as (hd & ?). exists hd. unfold stored_header, get_cumulative_difficulty. by rewrite !Heq.
  - destruct (hi_disk _ Hi). constructor; cbn; rewrite st_get_put; decide_keys; try done. by destruct b.
  - apply (hi_minimal _ Hi).
Qed.

Definition write_minimal (h : history) (m : Z) : history :=
  set_storage (set_minimal h m)
    (st_put (hi_storage h) Metadata k_minimal_full_block_height (be_bytes 4 m)).

Lemma minimal_inv h m :
  history_inv h -> in_u 32 m -> (m <= HISTORY_EPOCH_LENGTH \/ m mod HISTORY_EPOCH_LENGTH = 0) ->
  history_inv (write_minimal h m).
Proof.
  intros Hi Hm Hal.
  assert (forall cf k, cf <> Metadata -> st_get (hi_storage (write_minimal h m)) cf k =
    st_get (hi_storage h) cf k) as Heq by (intros; cbn; apply st_get_put_other; by left; congruence).
  constructor; cbn [write_minimal set_storage set_minimal best_header_id best_height
    best_cumulative_difficulty minimal_full_block_height].
  - eapply chain_inv_eq; [|apply (hi_chain _ Hi)]. intros. apply Heq. set_solver.
  - pose proof (hi_best _ Hi) as Hb. destruct (best_header_id h); [|done].
    destruct Hb as (hd & ?). exists hd. unfold stored_header, get_cumulative_difficulty. by rewrite !Heq.
  - destruct (hi_disk _ Hi). constructor; cbn; rewrite st_get_put; decide_keys; try done.
    by apply meta_height_bytes.
  - done.
Qed.

(** A write outside the families of the invariant. *)
Lemma other_write_inv h (s : DB) :
  (forall cf k, cf ∉ body_families -> st_get s cf k = st_get (hi_storage h) cf k) ->
  history_inv h -> history_inv (set_storage h s).
Proof.
  intros Heq Hi. constructor; cbn.
  - eapply chain_inv_eq; [|apply (hi_chain _ Hi)]. intros. apply Heq. set_solver.
  - pose proof (hi_best _ Hi) as Hb. destruct (best_header_id h); [|done].
    destruct Hb as (hd & ?). exists hd. unfold stored_header, get_cumulative_difficulty.
    rewrite !Heq by set_solver. done.
  - eapply disk_inv_ext; [|apply disk_set_storage, (hi_disk _ Hi)]. intros. apply Heq. set_solver.
  - apply (hi_minimal _ Hi).
Qed.

(** [prune_blocks_below] on a good history. *)
Lemma prune_spec h m :
  history_inv h -> 1 <= m < 2 ^ 32 ->
  exists h', prune_blocks_below h m = Ok h' /\ history_inv h' /\
    set_storage h (hi_storage h') = h' /\
    (forall cf k, cf ∉ body_families -> st_get (hi_storage h') cf k = st_get (hi_storage h) cf k) /\
    (forall cf k, cf ∈ body_families -> prunable (hi_storage h) m k -> st_get (hi_storage h') cf k = None) /\
    (forall cf k, ~ prunable (hi_storage h) m k -> st_get (hi_storage h') cf k = st_get (hi_storage h) cf k).
Proof.
  intros Hi Hm. unfold prune_blocks_below, GENESIS_HEIGHT.
  destruct (prune_loop_spec (hi_storage h) _ (Z.to_nat (m - 1)) (hi_chain _ Hi) ltac:(lia))
    as (batch & count & Hf & Hc & Hnil & Hother & Hdel & Hkeep).
  rewrite Z2Nat.id in Hf, Hc, Hdel, Hkeep by lia. replace (1 + (m - 1)) with m in Hdel, Hkeep by lia.
  rewrite Hf. cbn [rbind].
  assert (forall cf k, st_get (st_write_batch (hi_storage h) batch) cf k =
    op_result (batch_last batch cf k) (st_get (hi_storage h) cf k)) as Hget by (intros; apply st_get_write_batch).
  rewrite Z.gtb_ltb. destruct (Z.ltb_spec 0 count) as [Hlt|Hge].
  - eexists. split; [done|]. cbn [set_storage hi_storage]. split; [|split; [done|split; [|split]]].
    + apply other_write_inv; [|done]. intros. by rewrite Hget, Hother.
    + intros. by rewrite Hget, Hother.
    + intros. by rewrite Hget, Hdel.
    + intros. by rewrite Hget, Hkeep.
  - exists h. assert (batch = []) as -> by (apply Hnil; lia). split; [done|]. split; [done|].
    split; [by destruct h|]. split; [done|]. split; [|done].
    intros cf k Hcf Hp. by specialize (Hdel cf k Hcf Hp).
Qed.

(** ** The update after a new best full block *)

(** The state before the bodies are pruned. *)
Definition before_prune (h : history) (m : Z) : history :=
  if is_headers_chain_synced h then write_minimal h m
  else set_headers_chain_synced (write_minimal h m) true.

Lemma update_eq h header :
  update_best_full_block_pruning h header =
  let m := new_minimal_height h (h_height header) in
  if is_enabled (pruning_config h) && (minimal_full_block_height h <? m) then
    match prune_blocks_below (before_prune h m) m with
    | Ok h' => (Ok m, h')
    | Err e => (Err e, before_prune h m)
    end
  else (Ok m, before_prune h m).
Proof.
  unfold update_best_full_block_pruning, before_prune, write_minimal. cbn zeta.
  set (m := new_minimal_height h (h_height header)). clearbody m.
  rewrite Z.gtb_ltb, Z.eqb_sym.
  change (is_headers_chain_synced (set_storage _ _)) with (is_headers_chain_synced h).
  destruct (is_headers_chain_synced h);
    cbn [pruning_config set_storage set_minimal set_synced set_headers_chain_synced];
    destruct (is_enabled (pruning_config h)), (Z.ltb_spec (minimal_full_block_height h) m),
      (Z.eqb_spec (minimal_full_block_height h) m); cbn [negb andb]; try done; lia.
Qed.

Lemma before_prune_inv h m :
  history_inv h -> in_u 32 m -> (m <= HISTORY_EPOCH_LENGTH \/ m mod HISTORY_EPOCH_LENGTH = 0) ->
  history_inv (before_prune h m).
Proof.
  intros. unfold before_prune. case_match; [by apply minimal_inv|]. by apply synced_inv, minimal_inv.
Qed.

Lemma before_prune_get h m cf k :
  cf <> Metadata -> st_get (hi_storage (before_prune h m)) cf k = st_get (hi_storage h) cf k.
Proof.
  intros. unfold before_prune. case_match; cbn; rewrite ?st_get_put_other by naive_solver; done.
Qed.

Lemma before_prune_minimal h m : minimal_full_block_height (before_prune h m) = m.
Proof. unfold before_prune. by case_match. Qed.

Lemma get_header_ext (s s' : DB) id :
  (forall cf k, cf <> Metadata -> st_get s' cf k = st_get s cf k) ->
  get_header s' id = get_header s id.
Proof. intros Heq. unfold get_header. by rewrite Heq. Qed.

Lemma get_by_height_ext (s s' : DB) x :
  (forall cf k, cf <> Metadata -> st_get s' cf k = st_get s cf k) ->
  get_by_height s' x = get_by_height s x.
Proof.
  intros Heq. unfold get_by_height, chain_id_at. rewrite Heq by done.
  destruct (st_get s HeaderChain _); [|done]. case_match; [|done]. by apply get_header_ext.
Qed.

Lemma prunable_ext (s s' : DB) m k :
  (forall cf k, cf <> Metadata -> st_get s' cf k = st_get s cf k) -> prunable s' m k <-> prunable s m k.
Proof.
  intros Heq. assert (has_transactions s' k = has_transactions s k) as Ht
    by (unfold has_transactions, st_contains; by rewrite Heq).
  unfold prunable. rewrite Ht. by setoid_rewrite (get_by_height_ext s s' _ Heq).
Qed.

Lemma new_minimal_wf h height :
  history_inv h -> in_u 32 height -> keep h < 2 ^ 31 ->
  let m := new_minimal_height h height in
  in_u 32 m /\ (m <= HISTORY_EPOCH_LENGTH \/ m mod HISTORY_EPOCH_LENGTH = 0).
Proof.
  intros Hi Hh Hk. destruct (decide (keep h < 0)) as [Hneg|Hpos].
  - rewrite disabled_minimal by done. unfold in_u, GENESIS_HEIGHT, HISTORY_EPOCH_LENGTH. cbn zeta. lia.
  - pose proof (new_minimal_spec h height Hi Hh ltac:(lia)) as (? & ? & _). done.
Qed.

Lemma update_pruning_inv h header :
  history_inv h -> in_u 32 (h_height header) -> keep h < 2 ^ 31 ->
  history_inv (update_best_full_block_pruning h header).2.
Proof.
  intros Hi Hh Hk. pose proof (new_minimal_wf h _ Hi Hh Hk) as [Hm Hal]. rewrite update_eq. cbn zeta.
  set (m := new_minimal_height h (h_height header)) in *. cbn zeta in Hm, Hal.
  pose proof (before_prune_inv h m Hi Hm Hal) as Hbi.
  destruct (is_enabled _ && _) eqn:E; [|done]. apply andb_true_iff in E as [_ E%Z.ltb_lt].
  pose proof (hi_minimal _ Hi) as [Hmin _]. unfold in_u in *.
  destruct (prune_spec (before_prune h m) m Hbi) as (h' & -> & Hi' & _); [lia|done].
Qed.

(** ** The pruning window *)

(** The bodies that pruning keeps and deletes.  The minimal height never
    decreases, stays at the start of a voting epoch, and leaves the last
    [blocks_to_keep] blocks; every body from the minimal height on is kept,
    every body below it on the indexed chain is gone, and nothing else of the
    store changes.  A configuration of zero blocks, whose window
    [blocks_to_keep - 1] wraps around, moves nothing. *)
Theorem pruning_window h header :
  history_inv h -> in_u 32 (h_height header) -> 0 <= keep h < 2 ^ 31 ->
  let m := new_minimal_height h (h_height header) in
  let s := hi_storage h in
  exists h', update_best_full_block_pruning h header = (Ok m, h') /\
    minimal_full_block_height h' = m /\
    minimal_full_block_height h <= m /\
    (0 < keep h -> m <= Z.max (minimal_full_block_height h) (h_height header - keep h + 1)) /\
    (keep h = 0 -> m = minimal_full_block_height h) /\
    (m <= HISTORY_EPOCH_LENGTH \/ m mod HISTORY_EPOCH_LENGTH = 0) /\
    (forall cf k, cf ∉ Metadata :: body_families -> st_get (hi_storage h') cf k = st_get s cf k) /\
    (forall hd cf, stored_header s hd -> m <= h_height hd -> cf ∈ body_families ->
       st_get (hi_storage h') cf (h_id hd) = st_get s cf (h_id hd)) /\
    (minimal_full_block_height h < m ->
     forall x hd cf, 1 <= x < m -> get_by_height s x = Ok (Some hd) ->
       has_transactions s (h_id hd) = true -> cf ∈ body_families ->
       st_get (hi_storage h') cf (h_id hd) = None).
Proof.
  intros Hi Hh Hk. cbn zeta. pose proof (new_minimal_spec h _ Hi Hh Hk) as (Hm & Hal & Hge & Hpos & Hzero).
  set (m := new_minimal_height h (h_height header)) in *. cbn zeta in *.
  pose proof (before_prune_inv h m Hi Hm Hal) as Hbi.
  assert (forall cf k, cf <> Metadata -> st_get (hi_storage (before_prune h m)) cf k =
    st_get (hi_storage h) cf k) as Hget by (intros; by apply before_prune_get).
  rewrite update_eq. fold m. cbn zeta. unfold is_enabled. fold (keep h).
  rewrite (proj2 (Z.leb_le 0 (keep h))) by lia. cbn [andb].
  destruct (Z.ltb_spec (minimal_full_block_height h) m) as [Hlt|Hle].
  - pose proof (hi_minimal _ Hi) as [Hmin _]. unfold in_u in Hmin, Hm.
    destruct (prune_spec (before_prune h m) m Hbi) as (h' & -> & _ & Hf & Ho & Hdel & Hkeep); [lia|].
    exists h'. split; [done|]. split; [by rewrite <- Hf; apply before_prune_minimal|].
    do 4 (split; [done|]). split; [|split].
    + intros cf k [Hb Hmeta]%not_body. by rewrite Ho, Hget.
    + intros hd cf Hst Hhd Hcf. rewrite Hkeep; [by apply Hget, body_not_meta|].
      rewrite prunable_ext by done. intros (x & hd' & Hx & Hg & Hid & _).
      destruct (index_inv (hi_storage h) _ x (hi_chain _ Hi) ltac:(unfold in_u; lia)) as [_ Hix].
      destruct (Hix hd' Hg) as (Hst' & Hxh & _). apply stored_get in Hst, Hst'.
      rewrite Hid, Hst in Hst'. injection Hst' as ->. lia.
    + intros _ x hd cf Hx Hg Ht Hcf. apply Hdel; [done|]. apply (prunable_ext (hi_storage h)); [done|].
      by exists x, hd.
  - exists (before_prune h m). split; [done|]. split; [by apply before_prune_minimal|].
    do 4 (split; [done|]). split; [|split; [|lia]].
    + intros cf k [_ Hmeta]%not_body. by apply Hget.
    + intros hd cf _ _ Hcf. by apply Hget, body_not_meta.
Qed.

End Pruning.
