(* ===== verification/HistoryBatch.v ===== *)
(** * Appending many headers in one batch

    The loop of [append_headers_batched] over a linked run of headers: it keeps
    the invariant of the history, and a run of new headers leaves the same
    history as appending them one by one. *)

From S2P Require Export HistorySpec.

Local Open Scope Z_scope.

Section Batch.
Context {ErgoBox Ext Tx : Type} `{ErgoBoxOps ErgoBox} `{TransactionLaws ErgoBox Ext Tx}
  `{ChainTypes} `{!HeaderCodec} `{Blake2b256Laws} `{BigUintBytesLaws} {DB : Type} `{StorageLaws DB}.

Abbreviation history := (History DB).

(** A header follows another one. *)
Definition chain_link (a b : Header) : Prop :=
  h_parent_id b = h_id a /\ h_height b = h_height a + 1.

(** What the caller guarantees: good headers, each the child of the one before,
    without repetition, above the genesis block. *)
Record linked (l : list (Header * bytes)) : Prop := {
  linked_ok : Forall (fun '(hd, raw) => header_ok hd raw) l;
  linked_sorted : Sorted chain_link l.*1;
  linked_nodup : NoDup (h_id <$> (l.*1));
  linked_high : Forall (fun hd => 2 <= h_height hd) (l.*1)
}.

Lemma linked_cons hd raw l :
  linked ((hd, raw) :: l) ->
  header_ok hd raw /\ 2 <= h_height hd /\ linked l /\ (h_id hd ∉ (h_id <$> (l.*1))) /\
  match l with (b, _) :: _ => chain_link hd b | [] => True end.
Proof.
  intros [Hok Hs Hn Hh]. cbn in *. apply Forall_cons in Hok as [? ?], Hh as [? ?].
  apply NoDup_cons in Hn as [? ?]. inversion Hs as [|?? Hs' Hd]; subst.
  split; [done|]. split; [done|]. split; [done|]. split; [done|].
  destruct l as [|[b r] l]; [done|]. by inversion Hd.
Qed.

Abbreviation virtual h acc := (st_write_batch (hi_storage h) (ba_batch acc)).

(** The state of the loop, by the last header added. *)
Record batch_added (h : history) (acc : BatchAcc) (a : Header) : Prop := {
  bs_meta k : batch_last (ba_batch acc) Metadata k = None;
  bs_inv : chain_inv (virtual h acc) (Z.max (best_cumulative_difficulty h) (ba_final_cumulative acc));
  bs_stored : stored_header (virtual h acc) a;
  bs_cum : get_cumulative_difficulty (virtual h acc) (h_id a) = Some (ba_final_cumulative acc);
  bs_height : in_u 32 (h_height a) /\ 2 <= h_height a;
  bs_final : ba_final_id acc = h_id a /\ ba_final_height acc = h_height a /\
    ba_cumulative acc = ba_final_cumulative acc;
  bs_in : h_id a ∈ ba_ids acc;
  bs_old hd : stored_header (hi_storage h) hd -> stored_header (virtual h acc) hd /\
    get_cumulative_difficulty (virtual h acc) (h_id hd) =
    get_cumulative_difficulty (hi_storage h) (h_id hd);
  bs_ids id : contains_header (virtual h acc) id = true <->
    contains_header (hi_storage h) id = true \/ id ∈ ba_ids acc;
  bs_new id : id ∈ ba_ids acc -> contains_header (hi_storage h) id = false
}.

Definition batch_state (h : history) (acc : BatchAcc) (o : option Header) : Prop :=
  match o with
  | None => ba_batch acc = [] /\ ba_ids acc = ∅ /\
      ba_final_cumulative acc <= best_cumulative_difficulty h
  | Some a => batch_added h acc a
  end.

Definition link_opt (o : option Header) (b : Header) : Prop :=
  match o with Some a => chain_link a b | None => True end.

(** The virtual store agrees with the real one before anything is added. *)
Lemma virtual_nil (h : history) acc cf k :
  ba_batch acc = [] -> st_get (virtual h acc) cf k = st_get (hi_storage h) cf k.
Proof. intros ->. by rewrite st_get_write_batch. Qed.

Lemma batch_state_virtual h acc o :
  history_inv h -> batch_state h acc o ->
  chain_inv (virtual h acc) (Z.max (best_cumulative_difficulty h) (ba_final_cumulative acc)) /\
  (forall k, batch_last (ba_batch acc) Metadata k = None) /\
  (forall hd, stored_header (hi_storage h) hd -> stored_header (virtual h acc) hd /\
    get_cumulative_difficulty (virtual h acc) (h_id hd) =
    get_cumulative_difficulty (hi_storage h) (h_id hd)) /\
  (forall id, contains_header (virtual h acc) id = true <->
    contains_header (hi_storage h) id = true \/ id ∈ ba_ids acc) /\
  (forall id, id ∈ ba_ids acc -> contains_header (hi_storage h) id = false).
Proof.
  intros Hi Hs. destruct o as [a|]; [by destruct Hs|]. destruct Hs as (Hb & Hids & Hle).
  assert (forall cf k, st_get (virtual h acc) cf k = st_get (hi_storage h) cf k) as Hv
    by (intros; by apply virtual_nil).
  split; [|split; [by rewrite Hb|split; [|split]]].
  - rewrite Z.max_l by done. eapply chain_inv_eq; [|apply (hi_chain _ Hi)]. intros. apply Hv.
  - intros hd (raw & Hraw & Hr). split; [exists raw; by rewrite Hv|].
    unfold get_cumulative_difficulty. by rewrite Hv.
  - intros id. rewrite !contains_header_true, Hv, Hids. set_solver.
  - rewrite Hids. set_solver.
Qed.

(** The difficulty a new header of the batch gets is its parent's in the
    virtual store plus its own. *)
Lemma batch_parent_cum h acc o b :
  history_inv h -> batch_state h acc o -> link_opt o b -> 
  (if (h_height b >? 2) && bool_decide (h_parent_id b ∈ ba_ids acc) then ba_cumulative acc
   else parent_cumulative (hi_storage h) (h_height b) (h_parent_id b)) =
  parent_cumulative (virtual h acc) (h_height b) (h_parent_id b).
Proof.
  intros Hi Hs Hl. unfold parent_cumulative. rewrite Z.gtb_ltb.
  destruct (Z.leb_spec (h_height b) 2) as [Hle|Hgt].
  { by rewrite (proj2 (Z.ltb_ge _ _)). }
  rewrite (proj2 (Z.ltb_lt _ _)) by done. cbn [andb]. destruct o as [a|].
  - destruct Hl as [-> _]. rewrite bool_decide_true by (apply (bs_in _ _ _ Hs)).
    rewrite (bs_cum _ _ _ Hs). apply (bs_final _ _ _ Hs).
  - destruct Hs as (Hb & Hids & _). rewrite bool_decide_false by (rewrite Hids; set_solver).
    unfold get_cumulative_difficulty. by rewrite virtual_nil.
Qed.

(** One step of the loop: the header is stored already and nothing was added
    yet, or it is added with its cumulative difficulty. *)
Lemma batch_step h acc o b raw acc' :
  history_inv h -> batch_state h acc o -> link_opt o b -> header_ok b raw -> 2 <= h_height b ->
  fresh_or_same (hi_storage h) b ->
  h_id b ∉ ba_ids acc -> batch_header (hi_storage h) acc (b, raw) = Ok acc' ->
  (o = None /\ acc' = acc) \/
  (contains_header (virtual h acc) (h_id b) = false /\
   (2 < h_height b -> contains_header (virtual h acc) (h_parent_id b) = true) /\
   acc' = let cum := parent_cumulative (virtual h acc) (h_height b) (h_parent_id b)
                     + difficulty_from_nbits (h_n_bits b) in
     mkBatchAcc (store_cumulative_difficulty (put_with_bytes_batched (ba_batch acc) b raw) (h_id b) cum)
       ({[h_id b]} ∪ ba_ids acc) cum (h_id b) (h_height b) cum).
Proof.
  intros Hi Hs Hl [Hr Hh] Hhigh Hf Hnew Hstep.
  pose proof (batch_state_virtual h acc o Hi Hs) as (Hc & Hmeta & Hold & Hids & Hfresh).
  unfold batch_header in Hstep. destruct (contains_header (hi_storage h) (h_id b)) eqn:Hcon.
  - left. apply Ok_inj in Hstep as <-. destruct o as [a|]; [|done]. exfalso.
    destruct Hl as [Hp Hha], Hf as [Hf|Hf]; [congruence|].
    apply (inv_parents _ _ (hi_chain _ Hi)) in Hf as [Hf _]; [|pose proof (bs_height _ _ _ Hs); lia].
    rewrite Hp, (Hfresh (h_id a)) in Hf; [done|]. apply (bs_in _ _ _ Hs).
  - right. rewrite (batch_parent_cum h acc o) in Hstep by done. rewrite Z.gtb_ltb in Hstep.
    destruct (_ && negb (contains_header _ _)) eqn:Hp; [done|]. apply Ok_inj in Hstep as <-.
    split; [|split; [|done]].
    + apply not_true_is_false. rewrite Hids. intros [?|?]; [congruence|done].
    + intros Hlt. apply Hids. rewrite (proj2 (Z.ltb_lt _ _) Hlt) in Hp. cbn [andb] in Hp.
      destruct (contains_header (hi_storage h) (h_parent_id b)); [by left|]. right.
      rewrite andb_true_r in Hp. apply negb_false_iff in Hp. by apply bool_decide_eq_true in Hp.
Qed.

(** The state after a header was added. *)
Lemma batch_added_step h acc o b raw :
  history_inv h -> batch_state h acc o -> link_opt o b -> header_ok b raw -> 2 <= h_height b ->
  contains_header (virtual h acc) (h_id b) = false ->
  (2 < h_height b -> contains_header (virtual h acc) (h_parent_id b) = true) ->
  let cum := parent_cumulative (virtual h acc) (h_height b) (h_parent_id b)
             + difficulty_from_nbits (h_n_bits b) in
  batch_added h
    (mkBatchAcc (store_cumulative_difficulty (put_with_bytes_batched (ba_batch acc) b raw) (h_id b) cum)
       ({[h_id b]} ∪ ba_ids acc) cum (h_id b) (h_height b) cum) b.
Proof.
  intros Hi Hs Hl [Hr Hh] Hhigh Hn Hp cum.
  pose proof (batch_state_virtual h acc o Hi Hs) as (Hc & Hmeta & Hold & Hids & Hfresh).
  pose proof (added_batched (hi_storage h) (ba_batch acc) b raw cum) as Ha.
  pose proof (difficulty_nonneg (h_n_bits b)) as Hd.
  pose proof (parent_cumulative_nonneg _ _ (h_height b) (h_parent_id b) Hc) as Hpn.
  assert (0 <= cum) as Hc0 by lia.
  assert (Z.max (best_cumulative_difficulty h) (ba_final_cumulative acc) <=
          Z.max (best_cumulative_difficulty h) cum) as Hmax.
  { destruct o as [a|]; [|destruct Hs as (_ & _ & ?); lia]. destruct Hl as [Hpa Hha].
    assert (ba_final_cumulative acc <= cum); [|lia]. unfold cum, parent_cumulative.
    destruct (Z.leb_spec (h_height b) 2); [pose proof (bs_height _ _ _ Hs); lia|].
    rewrite Hpa, (bs_cum _ _ _ Hs). lia. }
  assert (forall hd, stored_header (virtual h acc) hd -> h_id hd <> h_id b) as Hne
    by (intros hd Hst Heq; apply stored_contains in Hst; congruence).
  constructor; cbn [ba_batch ba_ids ba_cumulative ba_final_id ba_final_height ba_final_cumulative].
  - intros k. unfold store_cumulative_difficulty, put_with_bytes_batched. rewrite !batch_last_put.
    repeat (rewrite decide_False by naive_solver). apply Hmeta.
  - eapply chain_inv_le; [|eapply (added_inv _ _ _ b raw cum Hc Ha); [done|done|by left|done|done]]. lia.
  - rewrite (added_stored _ _ _ _ _ _ Ha Hr) by (by left). by left.
  - rewrite (added_get_difficulty _ _ _ _ _ _ Ha Hc0). by rewrite decide_True.
  - done.
  - done.
  - set_solver.
  - intros hd (Hst & Hcum)%Hold. rewrite (added_stored _ _ _ _ _ _ Ha Hr) by (by left).
    split; [by right|]. rewrite (added_get_difficulty _ _ _ _ _ _ Ha Hc0).
    rewrite decide_False; [done|]. by apply Hne.
  - intros id. rewrite contains_header_true, (added_headers _ _ _ _ _ Ha). case_decide as Hid.
    + split; [intros _; right; set_solver|eauto].
    + rewrite <- contains_header_true, Hids. set_solver.
  - intros id [Hid|Hid]%elem_of_union; [|by apply Hfresh]. apply elem_of_singleton in Hid as ->.
    apply not_true_is_false. intros Ht. assert (contains_header (virtual h acc) (h_id b) = true); [|congruence].
    apply Hids. by left.
Qed.

(** ** The whole loop *)

Lemma batch_loop h l acc o acc' :
  history_inv h -> batch_state h acc o -> linked l ->
  match l with (b, _) :: _ => link_opt o b | [] => True end ->
  Forall (fun hd => (fresh_or_same (hi_storage h) hd) /\ h_id hd ∉ ba_ids acc) l.*1 ->
  rfold (batch_header (hi_storage h)) acc l = Ok acc' -> exists o', batch_state h acc' o'.
Proof.
  intros Hi. revert acc o. induction l as [|[b raw] l IH]; intros acc o Hs Hl Hlink Hf; cbn [rfold].
  { intros [= <-]. eauto. }
  intros (acc1 & Hstep & Hrest)%rbind_ok. cbn in Hf. apply Forall_cons in Hf as [[Hfb Hnb] Hf].
  apply linked_cons in Hl as (Hok & Hhigh & Hl & Hnd & Hnext).
  destruct (batch_step h acc o b raw acc1 Hi Hs Hlink Hok Hhigh Hfb Hnb Hstep)
    as [[-> ->]|(Hn & Hp & ->)].
  - eapply IH; try done. by destruct l as [|[??]?].
  - eapply (IH _ (Some b)); [|done|by destruct l as [|[??]?]| |exact Hrest].
    + by apply (batch_added_step h acc o).
    + cbn [ba_ids]. rewrite Forall_forall in Hf |- *. intros hd Hin. destruct (Hf hd Hin) as [? ?].
      split; [done|]. apply (list_elem_of_fmap_2 h_id) in Hin.
      rewrite not_elem_of_union, not_elem_of_singleton. split; [congruence|done].
Qed.

(** The history that a state of the loop selects. *)
Definition close (h : history) (acc : BatchAcc) : history :=
  select h (hi_storage h) (ba_batch acc) (ba_final_id acc) (ba_final_height acc)
    (ba_final_cumulative acc).

(** The start of the loop. *)
Definition batch_start (h : history) (l : list (Header * bytes)) : BatchAcc :=
  match l with
  | [] => mkBatchAcc [] ∅ 0 [] 0 0
  | (first, _) :: _ =>
      let start := parent_cumulative (hi_storage h) (h_height first) (h_parent_id first) in
      mkBatchAcc [] ∅ start (h_id first) (h_height first) start
  end.

Lemma batched_state h l :
  (append_headers_batched h l).2 =
  match l with
  | [] => h
  | _ => match rfold (batch_header (hi_storage h)) (batch_start h l) l with
         | Ok acc => close h acc
         | Err _ => h
         end
  end.
Proof.
  unfold append_headers_batched, batch_start, close, select. destruct l as [|[first raw] l]; [done|].
  cbn zeta. destruct (rfold _ _ _); [|done]. by case_match.
Qed.

Lemma batch_start_state h l :
  history_inv h -> batch_state h (batch_start h l) None.
Proof.
  intros Hi. pose proof (best_nonneg h Hi). unfold batch_start. destruct l as [|[first raw] l]; [done|].
  do 2 (split; [done|]). cbn. unfold parent_cumulative. case_match; [done|].
  destruct (get_cumulative_difficulty _ _) eqn:E; [|done]. apply (inv_best _ _ (hi_chain _ Hi)) in E. lia.
Qed.

Lemma append_headers_inv h l :
  history_inv h -> linked l -> Forall (fun hd => fresh_or_same (hi_storage h) hd) (l.*1) ->
  history_inv (append_headers_batched h l).2.
Proof.
  intros Hi Hl Hf. rewrite batched_state. destruct l as [|[first raw] l]; [done|].
  destruct (rfold _ _ _) as [acc|] eqn:Hloop; [|done].
  eapply (batch_loop h ((first, raw) :: l) _ None) in Hloop as [[a|] Hs]; [| |done|by apply batch_start_state|done|done|].
  - unfold close. destruct (bs_final _ _ _ Hs) as (-> & -> & _).
    apply select_inv; try done; [apply (bs_meta _ _ _ Hs)|apply (bs_inv _ _ _ Hs)|apply (bs_old _ _ _ Hs)
      |apply (bs_old _ _ _ Hs)|].
    intros _. split; [apply (bs_stored _ _ _ Hs)|]. split; [apply (bs_cum _ _ _ Hs)|apply (bs_height _ _ _ Hs)].
  - destruct Hs as (Hb & _ & Hle). unfold close, select. rewrite Hb, Z.gtb_ltb.
    rewrite (proj2 (Z.ltb_ge _ _)) by lia. eapply history_inv_eq; [|exact Hi].
    split; [intros cf k; cbn; by rewrite st_get_write_batch|]. by destruct h.
  - eapply Forall_impl; [exact Hf|]. intros. split; [done|]. cbn. set_solver.
Qed.

(** ** One by one *)

(** The history after appending every header on its own. *)
Definition append_all (h : history) (l : list (Header * bytes)) : history :=
  fold_left (fun h '(hd, raw) => (append_header_with_bytes h hd raw).2) l h.

#[export] Instance contains_header_proper :
  Proper (store_eq ==> eq ==> eq) (contains_header (DB := DB)).
Proof. intros s s' Hs id id' <-. unfold contains_header, st_contains. by rewrite Hs. Qed.

#[export] Instance parent_cumulative_proper :
  Proper (store_eq ==> eq ==> eq ==> eq) (parent_cumulative (DB := DB)).
Proof.
  intros s s' Hs x x' <- id id' <-. unfold parent_cumulative, get_cumulative_difficulty. by rewrite Hs.
Qed.

Lemma hist_eq_fields h h' :
  hist_eq h h' -> best_cumulative_difficulty h' = best_cumulative_difficulty h /\
    best_height h' = best_height h.
Proof. by intros [_ <-]. Qed.

Lemma select_proper h h' (s s' : DB) b id height cum :
  hist_eq h h' -> store_eq s s' -> hist_eq (select h s b id height cum) (select h' s' b id height cum).
Proof.
  intros Hh Hs. unfold select. destruct (hist_eq_fields _ _ Hh) as [-> _]. destruct Hh as [_ <-].
  case_match; (split; [cbn; by rewrite Hs|done]).
Qed.

Lemma append_header_proper h h' b raw :
  hist_eq h h' -> hist_eq (append_header_with_bytes h b raw).2 (append_header_with_bytes h' b raw).2.
Proof.
  intros Hh. pose proof Hh as [Hs _]. rewrite !append_header_eq. cbn zeta.
  rewrite !(contains_header_proper _ _ Hs _ _ eq_refl),
    (parent_cumulative_proper _ _ Hs _ _ eq_refl _ _ eq_refl).
  destruct (contains_header (hi_storage h') (h_id b)); [exact Hh|].
  destruct (_ && _); [exact Hh|]. cbn [snd]. apply select_proper; [exact Hh|].
  unfold put_with_bytes. by rewrite Hs.
Qed.

Lemma append_all_proper l h h' : hist_eq h h' -> hist_eq (append_all h l) (append_all h' l).
Proof.
  revert h h'. induction l as [|[b raw] l IH]; intros h h' Hh; [done|].
  cbn [append_all fold_left]. apply IH. by apply append_header_proper.
Qed.

(** ** Metadata written twice *)

Definition best_keys (cf : ColumnFamily) (k : bytes) : Prop :=
  cf = Metadata /\ (k = k_best_header_id \/ k = k_best_height \/ k = k_best_cumulative_difficulty).

Lemma best_header_last b id height cum cf k :
  batch_last (put_best_header b id height cum) cf k =
  match batch_last (put_best_header [] id height cum) cf k with
  | Some x => Some x
  | None => batch_last b cf k
  end.
Proof. unfold put_best_header. rewrite !batch_last_put. by repeat case_decide. Qed.

Lemma best_header_keys id height cum cf k :
  is_Some (batch_last (put_best_header [] id height cum) cf k) <-> best_keys cf k.
Proof.
  unfold put_best_header, best_keys. rewrite !batch_last_put. cbn [batch_last].
  repeat case_decide; split; naive_solver.
Qed.

(** Reading one key after both writes of [append_header]. *)
Lemma append_reads (s : DB) b b' header raw cum id1 h1 c1 cf k :
  (b' = b \/ b' = put_best_header b id1 h1 c1) ->
  st_get (st_write_batch (put_with_bytes (st_write_batch s b') header raw)
            (put_best_header (store_cumulative_difficulty [] (h_id header) cum)
               (h_id header) (h_height header) cum)) cf k =
  st_get (st_write_batch s
            (put_best_header (store_cumulative_difficulty (put_with_bytes_batched b header raw)
               (h_id header) cum) (h_id header) (h_height header) cum)) cf k.
Proof.
  intros Hb. unfold put_with_bytes. rewrite !st_get_write_batch.
  rewrite best_header_last, (best_header_last (store_cumulative_difficulty (put_with_bytes_batched b _ _) _ _)).
  destruct (batch_last (put_best_header [] _ _ _) cf k) eqn:Enew; [by destruct o|].
  assert (~ best_keys cf k) as Hk
    by (rewrite <- (best_header_keys (h_id header) (h_height header) cum), Enew; by intros [? ?]).
  assert (batch_last b' cf k = batch_last b cf k) as Hb'.
  { destruct Hb as [->| ->]; [done|]. rewrite best_header_last.
    destruct (batch_last (put_best_header [] id1 h1 c1) cf k) eqn:Eold; [|done].
    exfalso. apply Hk. apply (best_header_keys id1 h1 c1). by rewrite Eold. }
  unfold store_cumulative_difficulty, put_with_bytes_batched. rewrite !batch_last_put, Hb'.
  cbn [batch_last]. by repeat case_decide.
Qed.

(** The same without new metadata. *)
Lemma append_reads_ignored (s : DB) b header raw cum cf k :
  st_get (st_write_batch (put_with_bytes (st_write_batch s b) header raw)
            (store_cumulative_difficulty [] (h_id header) cum)) cf k =
  st_get (st_write_batch s (store_cumulative_difficulty (put_with_bytes_batched b header raw)
            (h_id header) cum)) cf k.
Proof.
  unfold put_with_bytes, store_cumulative_difficulty, put_with_bytes_batched.
  rewrite !st_get_write_batch, !batch_last_put. cbn [batch_last]. by repeat case_decide.
Qed.

(** ** The simulation *)

Lemma close_virtual h acc o :
  batch_state h acc o ->
  (forall cf k, ~ best_keys cf k -> st_get (hi_storage (close h acc)) cf k = st_get (virtual h acc) cf k) /\
  best_cumulative_difficulty (close h acc) =
    Z.max (best_cumulative_difficulty h) (ba_final_cumulative acc).
Proof.
  intros Hs. unfold close, select. rewrite Z.gtb_ltb.
  destruct (Z.ltb_spec (best_cumulative_difficulty h) (ba_final_cumulative acc)); cbn; (split; [|lia]); [|done].
  intros cf k Hk. rewrite !st_get_write_batch, best_header_last.
  destruct (batch_last (put_best_header [] _ _ _) cf k) eqn:E; [|done].
  exfalso. apply Hk. eapply best_header_keys. by rewrite E.
Qed.

Lemma select_gt (h : history) (s : DB) b id height cum :
  best_cumulative_difficulty h < cum ->
  select h s b id height cum =
  set_best_header (set_storage h (st_write_batch s (put_best_header b id height cum))) id height cum.
Proof. intros Hlt. unfold select. by rewrite Z.gtb_ltb, (proj2 (Z.ltb_lt _ _) Hlt). Qed.

Lemma select_le (h : history) (s : DB) b id height cum :
  cum <= best_cumulative_difficulty h ->
  select h s b id height cum = set_storage h (st_write_batch s b).
Proof. intros Hle. unfold select. by rewrite Z.gtb_ltb, (proj2 (Z.ltb_ge _ _) Hle). Qed.

(** Appending a header to what the loop has selected so far is one step of the
    loop. *)
Lemma batch_simulation h acc o b raw acc' :
  history_inv h -> batch_state h acc o -> link_opt o b -> header_ok b raw -> 2 <= h_height b ->
  contains_header (hi_storage h) (h_id b) = false -> h_id b ∉ ba_ids acc ->
  0 < difficulty_from_nbits (h_n_bits b) ->
  batch_header (hi_storage h) acc (b, raw) = Ok acc' ->
  batch_added h acc' b /\ ba_ids acc' = {[h_id b]} ∪ ba_ids acc /\
  hist_eq (append_header_with_bytes (close h acc) b raw).2 (close h acc').
Proof.
  intros Hi Hs Hl Hok Hhigh Hfr Hnb Hpos Hstep.
  destruct (close_virtual h acc o Hs) as [Hreads Hbest].
  assert (fresh_or_same (hi_storage h) b) as Hf by by left.
  destruct (batch_step h acc o b raw acc' Hi Hs Hl Hok Hhigh Hf Hnb Hstep) as [[-> ->]|(Hn & Hp & ->)].
  { exfalso. unfold batch_header in Hstep. rewrite Hfr in Hstep. case_match; [done|].
    apply Ok_inj in Hstep. apply (f_equal ba_ids) in Hstep. cbn in Hstep. set_solver. }
  split; [by apply (batch_added_step h acc o)|]. split; [done|].
  assert (forall id, contains_header (hi_storage (close h acc)) id = contains_header (virtual h acc) id) as Hcon
    by (intros; unfold contains_header, st_contains; rewrite Hreads; [done|]; by intros [? _]).
  assert (parent_cumulative (hi_storage (close h acc)) (h_height b) (h_parent_id b) =
    parent_cumulative (virtual h acc) (h_height b) (h_parent_id b)) as Hpc
    by (unfold parent_cumulative, get_cumulative_difficulty; rewrite Hreads; [done|]; by intros [? _]).
  rewrite append_header_eq, !Hcon, Hn, Hpc. cbn zeta.
  destruct (_ && negb (contains_header _ _)) eqn:Hpar.
  { apply andb_true_iff in Hpar as [Hgt Hneg]. rewrite Z.gtb_ltb in Hgt. apply Z.ltb_lt in Hgt.
    by rewrite Hp in Hneg. }
  cbn [snd]. set (cum := parent_cumulative _ _ _ + _).
  assert (o <> None -> ba_final_cumulative acc < cum) as Hlt.
  { destruct o as [a|]; [|done]. intros _. destruct Hl as [Hpa Hha]. unfold cum, parent_cumulative.
    destruct (Z.leb_spec (h_height b) 2); [pose proof (bs_height _ _ _ Hs); lia|].
    rewrite Hpa, (bs_cum _ _ _ Hs). lia. }
  assert (ba_final_cumulative acc <= best_cumulative_difficulty h \/ ba_final_cumulative acc < cum) as Hcase
    by (destruct o; [right; by apply Hlt|left; apply Hs]).
  unfold close at 3. cbn [ba_batch ba_final_id ba_final_height ba_final_cumulative].
  destruct (Z.lt_ge_cases (best_cumulative_difficulty h) cum) as [Hbig|Hsmall].
  - rewrite (select_gt (close h acc)) by lia. rewrite (select_gt h) by lia. split.
    + cbn [set_best_header set_storage hi_storage]. intros cf k.
      unfold close, select. case_match; cbn [set_best_header set_storage hi_storage]; eapply append_reads; eauto.
    + unfold close, select. by case_match.
  - rewrite (select_le (close h acc)) by lia. rewrite (select_le h) by lia.
    unfold close. rewrite select_le by lia. split; [|done].
    cbn [set_storage hi_storage]. intros cf k. apply append_reads_ignored.
  Unshelve. all: exact 0 || exact [].
Qed.

(** New headers of positive difficulty. *)
Definition all_new (h : history) (l : list (Header * bytes)) : Prop :=
  Forall (fun hd => contains_header (hi_storage h) (h_id hd) = false /\
                    0 < difficulty_from_nbits (h_n_bits hd)) (l.*1).

(** Once a header was added, the rest of the run is added without error, and
    the selected history follows the one-by-one run. *)
Lemma batch_run h l acc a hs :
  history_inv h -> batch_added h acc a -> hist_eq hs (close h acc) -> linked l ->
  match l with (b, _) :: _ => chain_link a b | [] => True end -> all_new h l ->
  Forall (fun hd => h_id hd ∉ ba_ids acc) (l.*1) ->
  exists acc', rfold (batch_header (hi_storage h)) acc l = Ok acc' /\
    hist_eq (append_all hs l) (close h acc').
Proof.
  intros Hi. revert acc a hs. induction l as [|[b raw] l IH]; intros acc a hs Hs Hh Hl Hlink Hnew Hids.
  { by exists acc. }
  apply linked_cons in Hl as (Hok & Hhigh & Hl & Hnd & Hnext).
  unfold all_new in Hnew. cbn in Hnew, Hids. apply Forall_cons in Hnew as [[Hfr Hpos] Hnew].
  apply Forall_cons in Hids as [Hnb Hids].
  assert (exists acc1, batch_header (hi_storage h) acc (b, raw) = Ok acc1) as [acc1 Hstep].
  { unfold batch_header. rewrite Hfr. destruct Hlink as [-> _].
    rewrite bool_decide_true by (apply (bs_in _ _ _ Hs)). rewrite andb_false_r. eauto. }
  destruct (batch_simulation h acc (Some a) b raw acc1 Hi Hs Hlink Hok Hhigh Hfr Hnb Hpos Hstep)
    as (Hs1 & Hids1 & Heq).
  cbn [rfold append_all fold_left]. rewrite Hstep. cbn [rbind]. eapply (IH acc1 b); try done.
  - etrans; [by apply append_header_proper|exact Heq].
  - rewrite Hids1. rewrite Forall_forall in Hids |- *. intros hd Hin. specialize (Hids hd Hin).
    apply (list_elem_of_fmap_2 h_id) in Hin.
    rewrite not_elem_of_union, not_elem_of_singleton. split; [congruence|done].
Qed.

(** A run whose first header has no known parent changes nothing. *)
Lemma append_all_orphans h l :
  linked l -> all_new h l ->
  match l with (b, _) :: _ => 2 < h_height b /\ contains_header (hi_storage h) (h_parent_id b) = false
  | [] => True end -> append_all h l = h.
Proof.
  induction l as [|[b raw] l IH]; [done|]. intros Hl Hnew [Hgt Hp].
  apply linked_cons in Hl as (_ & _ & Hl & _ & Hnext).
  unfold all_new in Hnew. cbn in Hnew. apply Forall_cons in Hnew as [[Hfr _] Hnew].
  cbn [append_all fold_left]. rewrite append_header_eq, Hfr, Hp, Z.gtb_ltb, (proj2 (Z.ltb_lt _ _) Hgt).
  cbn [andb negb snd]. apply IH; [done|done|]. destruct l as [|[c rc] l]; [done|].
  destruct Hnext as [-> ->]. split; [lia|done].
Qed.

(** ** From the first header that is not stored *)

(** Headers of positive difficulty, new or stored before. *)
Definition offered (h : history) (l : list (Header * bytes)) : Prop :=
  Forall (fun hd => fresh_or_same (hi_storage h) hd /\ 0 < difficulty_from_nbits (h_n_bits hd)) (l.*1).

(** The children of a header that is not stored are not stored. *)
Lemma rest_new h b raw l :
  history_inv h -> linked ((b, raw) :: l) -> contains_header (hi_storage h) (h_id b) = false ->
  offered h ((b, raw) :: l) -> all_new h ((b, raw) :: l).
Proof.
  intros Hi. revert b raw. induction l as [|[c rc] l IH]; intros b raw Hl Hb [[_ Hpos] Ho]%Forall_cons;
    (constructor; [done|]); [constructor|].
  apply linked_cons in Hl as (_ & Hhigh & Hl & _ & [Hp Hh]). apply (IH c rc Hl); [|exact Ho].
  apply Forall_cons in Ho as [[[Hc|Hc] _] _]; [done|]. exfalso.
  assert (2 < h_height c) as Hgt by lia.
  destruct (inv_parents _ _ (hi_chain _ Hi) _ Hc Hgt) as [Hc' _]. cbn [fst] in Hc'. rewrite Hp in Hc'. congruence.
Qed.

Lemma batched_from_start h l acc :
  history_inv h -> batch_state h acc None -> linked l -> offered h l ->
  hist_eq (match rfold (batch_header (hi_storage h)) acc l with Ok acc' => close h acc' | Err _ => h end)
    (append_all h l).
Proof.
  intros Hi Hs0. assert (hist_eq h (close h acc)) as Hclose.
  { destruct Hs0 as (Hb & _ & Hle). unfold close. rewrite select_le, Hb by done.
    split; [intros cf k; cbn; by rewrite st_get_write_batch|by destruct h]. }
  induction l as [|[b raw] l IH]; intros Hl Hnew; [by symmetry|]. cbn [rfold].
  destruct (contains_header (hi_storage h) (h_id b)) eqn:Hcon.
  { cbn [append_all fold_left]. unfold batch_header at 1. rewrite append_header_eq, Hcon. cbn [rbind snd].
    apply linked_cons in Hl as (_ & _ & Hl & _). apply Forall_cons in Hnew as [_ Hnew]. by apply IH. }
  pose proof (rest_new h b raw l Hi Hl Hcon Hnew) as Han.
  pose proof Hl as (Hok & Hhigh & Hl' & Hnd & Hnext)%linked_cons.
  pose proof Han as [[Hfr Hpos] Hnew']%Forall_cons. fold (all_new h l) in Hnew'.
  destruct (batch_header (hi_storage h) _ (b, raw)) as [acc1|e] eqn:Hstep; cbn [rbind].
  - assert (h_id b ∉ ba_ids acc) as Hfresh by (destruct Hs0 as (_ & -> & _); set_solver).
    destruct (batch_simulation h acc None b raw acc1 Hi Hs0 I Hok Hhigh Hfr Hfresh Hpos Hstep)
      as (Hs1 & Hids1 & Heq).
    destruct (batch_run h l acc1 b (append_header_with_bytes h b raw).2 Hi Hs1) as (acc' & -> & Hrun);
      [|done|done|done| |by symmetry].
    + etrans; [by apply append_header_proper|exact Heq].
    + rewrite Hids1, Forall_forall. destruct Hs0 as (_ & -> & _). intros hd Hin%(list_elem_of_fmap_2 h_id).
      rewrite not_elem_of_union, not_elem_of_singleton. split; [congruence|set_solver].
  - rewrite append_all_orphans; [reflexivity|done|done|].
    unfold batch_header in Hstep. rewrite Hcon, Z.gtb_ltb in Hstep.
    destruct (_ && negb (contains_header _ _)) eqn:E; [|done].
    apply andb_true_iff in E as [[E1%Z.ltb_lt _]%andb_true_iff E2%negb_true_iff]. done.
Qed.

End Batch.
