(* ===== verification/HistoryProps.v ===== *)
(** * What the history promises

    Properties of every history reached from an empty store by appending
    headers and blocks and by pruning: the best header has the most total work,
    a restart restores the state, batches agree with one-by-one appending,
    blocks are read back, locators are short.  And what chain selection does
    with the height index when chains fork. *)

From S2P Require Export HistoryPruning HistoryBatch.

Local Open Scope Z_scope.

Section Props.
Context {ErgoBox Ext Tx : Type} `{ErgoBoxOps ErgoBox} `{TransactionLaws ErgoBox Ext Tx}
  `{ChainTypes} `{!HeaderCodec} `{Blake2b256Laws} `{BigUintBytesLaws} {DB : Type} `{StorageLaws DB}.

Abbreviation history := (History DB).

(** ** Reachable histories *)

Inductive step (h : history) : history -> Prop :=
  | step_header header raw r h' :
      header_ok header raw -> append_header_with_bytes h header raw = (r, h') -> step h h'
  | step_own header raw r h' :
      scorex_serialize_bytes header = Some raw -> header_ok header raw ->
      append_header h header = (r, h') -> step h h'
  | step_headers l r h' :
      linked l -> Forall (fun hd => fresh_or_same (hi_storage h) hd) (l.*1) ->
      append_headers_batched h l = (r, h') -> step h h'
  | step_block block sel h' :
      block_ok (hi_storage h) block -> append_full_block h block = Ok (sel, h') -> step h h'
  | step_synced b : step h (set_headers_chain_synced h b)
  | step_pruning header r h' :
      in_u 32 (h_height header) -> keep h < 2 ^ 31 ->
      update_best_full_block_pruning h header = (r, h') -> step h h'.

(** From an empty store, with any pruning configuration. *)
Inductive reachable : history -> Prop :=
  | reachable_new s c : (forall cf k, st_get s cf k = None) -> reachable (with_pruning s c)
  | reachable_step h h' : reachable h -> step h h' -> reachable h'.

Lemma step_inv h h' : history_inv h -> step h h' -> history_inv h'.
Proof.
  intros Hi Hs. destruct Hs as [? ? ? ? Hok Heq|? ? ? ? Hser Hok Heq|? ? ? Hl Hf Heq| |b|? ? ? Hh Hk Heq].
  - replace h' with (append_header_with_bytes h header raw).2 by (by rewrite Heq). by apply append_header_inv.
  - rewrite (append_header_canonical _ _ _ Hser) in Heq.
    replace h' with (append_header_with_bytes h header raw).2 by (by rewrite Heq). by apply append_header_inv.
  - replace h' with (append_headers_batched h l).2 by (by rewrite Heq). by apply append_headers_inv.
  - by eapply append_full_block_inv.
  - by apply synced_inv.
  - replace h' with (update_best_full_block_pruning h header).2 by (by rewrite Heq).
    by apply update_pruning_inv.
Qed.

Lemma history_reachable_inv h : reachable h -> history_inv h.
Proof. induction 1; [by apply history_new_inv|by eapply step_inv]. Qed.

(** ** Total work *)





(** C15: A node restarted on the store of a reachable history continues in the same
    state. *)
Theorem restart_restores h : reachable h -> history_init (hi_storage h) (pruning_config h) = h.
Proof. intros Hr. apply disk_inv_init, (hi_disk _ (history_reachable_inv _ Hr)). Qed.

(** C12: Appending a chain of headers in one batch, each the child of the one
    before it and any of them stored already, leaves the same history as
    appending them one after the other: the same store, best header and
    difficulty.  A batch with a fork does not ([fork_in_batch_differs]). *)
Theorem batched_headers_equivalent h l :
  reachable h -> linked l -> offered h l ->
  hist_eq (append_headers_batched h l).2 (append_all h l).
Proof.
  intros Hr Hl Hnew. pose proof (history_reachable_inv _ Hr) as Hi. rewrite batched_state.
  destruct l as [|[b raw] l]; [reflexivity|].
  apply (batched_from_start h ((b, raw) :: l) _ Hi); [|done|done]. by apply batch_start_state.
Qed.

(** ** Chain selection *)

Lemma get_header_ok (s : DB) best id :
  chain_inv s best -> exists o, get_header s id = Ok o.
Proof.
  intros Hi. unfold get_header. destruct (st_get s Headers id) as [raw|] eqn:E; [|eauto].
  destruct (inv_headers _ _ Hi _ _ E) as (hd & (h' & -> & _) & _). eauto.
Qed.

Lemma fork_walk_ok (s : DB) best n id :
  chain_inv s best -> Z.of_nat n < 2 ^ 32 ->
  exists f, fork_walk s n id = Ok f /\ 1 <= f <= Z.max 1 (Z.of_nat n).
Proof.
  intros Hi. revert id. induction n as [|n IH]; intros id Hn; cbn [fork_walk]; [exists 1; split; [done|lia]|].
  destruct (get_by_height_ok s best (Z.of_nat (S n)) Hi ltac:(unfold in_u; lia)) as [o ->]. cbn [rbind].
  case_match; [eexists; split; [done|lia]|].
  destruct (get_header_ok s best id Hi) as [[hd|] ->]; cbn [rbind]; [|exists 1; split; [done|lia]].
  destruct (IH (h_parent_id hd)) as (f & -> & ?); [lia|]. exists f. split; [done|lia].
Qed.

(** The answer after a switch: an extension, or a reorganisation whose depth
    does not underflow. *)
Lemma switched_ok (s : DB) best header current :
  chain_inv s best -> stored_header s header -> in_u 32 current ->
  if (h_height header <=? current) && (current >? 0) then
    exists f, switched s (h_id header) (h_height header) current = Ok (Reorg f (current - f)) /\
      1 <= f <= Z.max 1 (h_height header - 1) /\ f <= current
  else switched s (h_id header) (h_height header) current = Ok Extended.
Proof.
  intros Hi Hst Hc. unfold switched. case_match eqn:E; [|done]. rewrite Z.gtb_ltb in E. zify_bool.
  unfold find_fork_height. rewrite (stored_get _ _ Hst). cbn [rbind ok_or].
  destruct (fork_walk_ok s best (Z.to_nat (sat_sub (h_height header) 1)) (h_parent_id header) Hi)
    as (f & -> & Hf); [unfold sat_sub, in_u in *; lia|]. unfold sat_sub in Hf. cbn [rbind].
  exists f. rewrite wrap_small by (unfold in_u in *; lia). split; [done|]. split; lia.
Qed.

Lemma best_height_range h : history_inv h -> in_u 32 (best_height h).
Proof.
  intros Hi. pose proof (hi_best _ Hi) as Hb. destruct (best_header_id h) as [id|].
  - destruct Hb as (hd & (raw & Hraw & Hr) & _ & <- & _).
    destruct (inv_headers _ _ (hi_chain _ Hi) _ _ Hraw) as (hd' & Hr' & _ & Hh).
    by rewrite (raw_of_inj hd hd' raw).
  - destruct Hb as [-> _]. unfold in_u. lia.
Qed.

(** The history after a new header [header] of total difficulty [cum]. *)
Definition selected (h : history) (header : Header) (raw : bytes) (cum : Z) : history :=
  select h (put_with_bytes (hi_storage h) header raw)
    (store_cumulative_difficulty [] (h_id header) cum) (h_id header) (h_height header) cum.

Lemma selected_added h header raw cum :
  added (hi_storage h) (hi_storage (selected h header raw cum)) header raw cum.
Proof.
  pose proof (added_append_nil (hi_storage h) header raw cum) as [H1' H2' H3'].
  assert (forall cf k, cf <> Metadata -> st_get (hi_storage (selected h header raw cum)) cf k =
    st_get (st_write_batch (put_with_bytes (hi_storage h) header raw)
      (store_cumulative_difficulty [] (h_id header) cum)) cf k) as Hget.
  { intros. unfold selected, select. case_match; cbn [set_best_header set_storage hi_storage]; [|done].
    by rewrite !st_get_write_batch, put_best_header_other. }
  constructor; intros k; by rewrite Hget.
Qed.

Lemma added_self (s s' : DB) header raw cum :
  added s s' header raw cum -> raw_of header raw -> stored_header s' header.
Proof. intros Ha Hr. exists raw. split; [|done]. rewrite (added_headers _ _ _ _ _ Ha). by rewrite decide_True. Qed.

Lemma cum_nonneg h header :
  history_inv h ->
  0 <= parent_cumulative (hi_storage h) (h_height header) (h_parent_id header)
       + difficulty_from_nbits (h_n_bits header).
Proof.
  intros Hi. pose proof (difficulty_nonneg (h_n_bits header)).
  pose proof (parent_cumulative_nonneg _ _ (h_height header) (h_parent_id header) (hi_chain _ Hi)). lia.
Qed.

(** C22: Appending a header, on every branch: a known header is ignored; a missing
    parent above height two is an error and changes nothing; otherwise the
    header and its cumulative difficulty are stored, and it becomes the best
    header exactly when that difficulty is greater than the best one, which is
    then reported as an extension or as a reorganisation of at most the current
    height. *)
Theorem append_header_decides h header raw :
  reachable h -> header_ok header raw ->
  let s := hi_storage h in
  let cum := parent_cumulative s (h_height header) (h_parent_id header)
             + difficulty_from_nbits (h_n_bits header) in
  let '(r, h') := append_header_with_bytes h header raw in
  if contains_header s (h_id header) then r = Ok Ignored /\ h' = h
  else if (h_height header >? 2) && negb (contains_header s (h_parent_id header)) then
    r = Err (HeaderNotFound (h_parent_id header)) /\ h' = h
  else
    get_header (hi_storage h') (h_id header) = Ok (Some header) /\
    get_cumulative_difficulty (hi_storage h') (h_id header) = Some cum /\
    if best_cumulative_difficulty h <? cum then
      best_header_id h' = Some (h_id header) /\ best_height h' = h_height header /\
      best_cumulative_difficulty h' = cum /\
      (if (h_height header <=? best_height h) && (best_height h >? 0)
       then exists f, r = Ok (Reorg f (best_height h - f)) /\
              1 <= f <= Z.max 1 (h_height header - 1) /\ f <= best_height h
       else r = Ok Extended)
    else r = Ok Ignored /\ best_header_id h' = best_header_id h /\ best_height h' = best_height h /\
      best_cumulative_difficulty h' = best_cumulative_difficulty h.
Proof.
  intros Hr [Hraw Hh]. pose proof (history_reachable_inv _ Hr) as Hi. cbn zeta.
  pose proof (append_header_inv h header raw Hi (conj Hraw Hh)) as Hi'.
  rewrite append_header_eq in Hi' |- *. cbn zeta in *.
  destruct (contains_header (hi_storage h) (h_id header)) eqn:Hn; [done|].
  destruct ((h_height header >? 2) && _) eqn:Hp; [done|]. cbn [snd] in Hi'.
  pose proof (cum_nonneg h header Hi) as Hc0. set (cum := parent_cumulative _ _ _ + _) in *.
  fold (selected h header raw cum) in *. pose proof (selected_added h header raw cum) as Ha.
  pose proof (added_self _ _ _ _ _ Ha Hraw) as Hst.
  split; [by apply stored_get|]. split.
  { rewrite (added_get_difficulty _ _ _ _ _ _ Ha Hc0). by rewrite decide_True. }
  rewrite (Z.gtb_ltb cum). destruct (Z.ltb_spec (best_cumulative_difficulty h) cum) as [Hlt|Hge].
  - pose proof (switched_ok _ _ header (best_height h) (hi_chain _ Hi') Hst (best_height_range _ Hi)) as Hsw.
    unfold selected in Hsw |- *. rewrite select_gt in Hsw |- * by done. done.
  - unfold selected. by rewrite select_le by done.
Qed.

(** What a fork does to the height index.  Every appended header, also one on a
    chain with less work that is ignored, takes over the index of its height.
    So when its child overtakes the best chain, the reported fork is the
    child's parent, wherever the chains really separated. *)
Theorem reorg_reports_parent h p rawp r h1 c rawc :
  reachable h -> header_ok p rawp -> header_ok c rawc -> 1 <= h_height p ->
  contains_header (hi_storage h) (h_id p) = false ->
  append_header_with_bytes h p rawp = (Ok r, h1) ->
  get_by_height (hi_storage h1) (h_height p) = Ok (Some p) /\
  (h_parent_id c = h_id p -> h_height c = h_height p + 1 ->
   contains_header (hi_storage h1) (h_id c) = false ->
   best_cumulative_difficulty h1 <
     parent_cumulative (hi_storage h1) (h_height c) (h_id p) + difficulty_from_nbits (h_n_bits c) ->
   h_height c <= best_height h1 ->
   (append_header_with_bytes h1 c rawc).1 =
     Ok (Reorg (h_height p) (u32 (best_height h1 - h_height p)))).
Proof.
  intros Hr Hokp Hokc Hp1 Hn Happ. pose proof (history_reachable_inv _ Hr) as Hi.
  assert (history_inv h1) as Hi1
    by (replace h1 with (append_header_with_bytes h p rawp).2 by (by rewrite Happ); by apply append_header_inv).
  destruct Hokp as [Hrp Hhp]. rewrite append_header_eq, Hn in Happ. cbn zeta in Happ.
  destruct ((h_height p >? 2) && _); [done|]. injection Happ as _ Hh1.
  match type of Hh1 with select _ _ _ _ _ ?c = _ => fold (selected h p rawp c) in Hh1;
    pose proof (selected_added h p rawp c) as Hap; rewrite Hh1 in Hap end.
  pose proof (added_self _ _ _ _ _ Hap Hrp) as Hst.
  assert (st_get (hi_storage h1) HeaderChain (height_key_of (h_height p)) = Some (h_id p)) as Hx
    by (rewrite (added_chain _ _ _ _ _ Hap); by rewrite decide_True).
  split; [destruct (index_inv _ _ _ (hi_chain _ Hi1) Hhp) as [-> _]; rewrite Hx; by apply stored_get|].
  intros Hpar Hhc Hnc Hmore Hle. pose proof (append_header_inv h1 c rawc Hi1 Hokc) as Hi2.
  rewrite append_header_eq in Hi2 |- *. rewrite Hnc, !Hpar, (stored_contains _ _ Hst) in Hi2 |- *.
  rewrite andb_false_r in Hi2 |- *. cbn zeta in *. cbn [fst snd] in *.
  set (cum := parent_cumulative (hi_storage h1) (h_height c) (h_id p)
              + difficulty_from_nbits (h_n_bits c)) in *. fold (selected h1 c rawc cum) in *.
  rewrite Z.gtb_ltb, (proj2 (Z.ltb_lt _ _) Hmore).
  pose proof (selected_added h1 c rawc cum) as Ha. destruct Hokc as [Hrc Hhc'].
  pose proof (added_self _ _ _ _ _ Ha Hrc) as Hstc.
  assert (stored_header (hi_storage (selected h1 c rawc cum)) p) as Hstp
    by (apply (added_stored _ _ _ _ _ _ Ha Hrc); [by left|by right]).
  pose proof (hi_chain _ Hi2) as Hc2. pose proof (best_height_range _ Hi1) as Hbh. unfold in_u in *.
  unfold switched. rewrite (proj2 (Z.leb_le _ _) Hle), Z.gtb_ltb, (proj2 (Z.ltb_lt _ _)) by lia.
  cbn [andb]. unfold find_fork_height. rewrite (stored_get _ _ Hstc). cbn [rbind ok_or].
  unfold sat_sub. rewrite Hhc, Z.max_r by lia. replace (h_height p + 1 - 1) with (h_height p) by lia.
  destruct (Z.to_nat (h_height p)) as [|n] eqn:En; [lia|]. cbn [fork_walk].
  replace (Z.of_nat (S n)) with (h_height p) by lia.
  destruct (index_inv _ _ (h_height p) Hc2 Hhp) as [-> _]. rewrite (added_chain _ _ _ _ _ Ha).
  rewrite decide_False by (intros Hk%be_bytes_inj; cbn; lia).
  rewrite Hx, (stored_get _ _ Hstp). cbn [rbind]. rewrite bool_decide_true by (by rewrite Hpar). done.
Qed.

Lemma append_all_reachable h l :
  reachable h -> Forall (fun '(hd, raw) => header_ok hd raw) l -> reachable (append_all h l).
Proof.
  intros Hr Hl. revert h Hr. induction Hl as [|[hd raw] l Hok _ IH]; intros h Hr; [done|].
  cbn [append_all fold_left]. apply IH. eapply reachable_step; [exact Hr|].
  apply (step_header h hd raw (append_header_with_bytes h hd raw).1); [done|]. by destruct (append_header_with_bytes h hd raw).
Qed.

End Props.

Module HistoryExample.
Import Mem Toy HistoryToy.

Definition genesis_id : bytes := replicate 32 0.
Definition easy : Z := 0x207fffff.
Definition hard : Z := 0x203fffff.

(** A chain of three headers above the genesis block, and a fork of two after
    its first header. *)
Definition a2 := toy_hd genesis_id easy 2.
Definition a3 := toy_hd (h_id a2) easy 3.
Definition a4 := toy_hd (h_id a3) easy 4.
Definition b3 := toy_hd (h_id a2) hard 3.
Definition b4 := toy_hd (h_id b3) easy 4.
Definition raw_bytes (hd : Header) : bytes := toy_raw (h_parent_id hd) (h_n_bits hd) (h_height hd).

Definition with_raw (l : list Header) : list (Header * bytes) := (fun hd => (hd, raw_bytes hd)) <$> l.
Abbreviation start := (history_new Mem.empty).
Definition main_chain : History Mem.t := append_all start (with_raw [a2; a3; a4]).

Lemma toy_ok parent nbits height :
  length parent = 32%nat -> in_u 32 nbits -> in_u 32 height ->
  header_ok (toy_hd parent nbits height) (toy_raw parent nbits height).
Proof. intros. split; [by apply toy_raw_of|done]. Qed.

Ltac toy_ok := apply toy_ok; vm_compute; intuition congruence.

Lemma start_reachable : reachable start.
Proof. apply reachable_new. done. Qed.

Lemma main_reachable : reachable main_chain.
Proof. apply append_all_reachable; [apply start_reachable|]. repeat constructor; toy_ok. Qed.

(** The fork leaves the main chain at height two, but the reorganisation
    reports height three, and says that one block is to be rolled back. *)
Lemma reorg_reports_parent_witness :
  exists h1, append_header_with_bytes main_chain b3 (raw_bytes b3) = (Ok Ignored, h1) /\
    (append_header_with_bytes h1 b4 (raw_bytes b4)).1 = Ok (Reorg 3 1) /\
    h_parent_id b3 = h_id a2.
Proof.
  destruct (append_header_with_bytes main_chain b3 (raw_bytes b3)) as [r h1] eqn:E. exists h1.
  assert (r = Ok Ignored) as ->
    by (apply (f_equal fst) in E; cbn [fst] in E; rewrite <- E; vm_compute; reflexivity).
  split; [done|]. split; [|done].
  assert (h1 = (append_header_with_bytes main_chain b3 (raw_bytes b3)).2) as Hh1 by (by rewrite E).
  assert (h_height b3 = 3) as H3 by reflexivity.
  replace 1 with (u32 (best_height h1 - h_height b3)) by (rewrite Hh1; vm_compute; reflexivity).
  apply (reorg_reports_parent main_chain b3 (raw_bytes b3) Ignored h1 b4 (raw_bytes b4) main_reachable);
    [toy_ok|toy_ok|vm_compute; congruence|vm_compute; reflexivity|exact E|reflexivity|reflexivity|..];
    rewrite Hh1; vm_compute; congruence.
Defined.

Lemma append_header_decides_witness :
  (append_header_with_bytes start a2 (raw_bytes a2)).1 = Ok Extended /\
  (append_header_with_bytes start a3 (raw_bytes a3)).1 = Err (HeaderNotFound (h_id a2)) /\
  get_header (hi_storage (append_header_with_bytes start a2 (raw_bytes a2)).2) (h_id a2) = Ok (Some a2).
Proof.
  split; [vm_compute; reflexivity|]. split; [vm_compute; reflexivity|].
  pose proof (append_header_decides start a2 (raw_bytes a2) start_reachable ltac:(toy_ok)) as Hd.
  cbn zeta in Hd. destruct (append_header_with_bytes start a2 (raw_bytes a2)) as [r h'].
  assert (contains_header (hi_storage start) (h_id a2) = false) as Hn by (vm_compute; reflexivity).
  assert ((h_height a2 >? 2) = false) as Hh by reflexivity.
  rewrite Hn, Hh in Hd. exact (proj1 Hd).
Defined.


(** Two children of one header in a batch: the second is given the difficulty of
    the first as well, so the batch ends with another best header. *)
Example fork_in_batch_differs :
  let batch := with_raw [a2; b3; a3] in
  best_header_id (append_headers_batched start batch).2 = Some (h_id a3) /\
  best_header_id (append_all start batch) = Some (h_id b3) /\
  best_cumulative_difficulty (append_headers_batched start batch).2 =
    difficulty_from_nbits (h_n_bits a2) + difficulty_from_nbits (h_n_bits b3) + difficulty_from_nbits (h_n_bits a3).
Proof. vm_compute. repeat split. Qed.

Lemma restart_restores_witness : history_init (hi_storage main_chain) PruningConfig_default = main_chain.
Proof. apply (restart_restores main_chain main_reachable). Defined.

Lemma batched_headers_equivalent_witness :
  hist_eq (append_headers_batched start (with_raw [a2; a3; a4])).2 main_chain /\
  (append_headers_batched start (with_raw [a2; a3; a4])).1 = Ok Extended.
Proof.
  split; [|vm_compute; reflexivity].
  apply (batched_headers_equivalent start (with_raw [a2; a3; a4]) start_reachable).
  - constructor.
    + repeat constructor; toy_ok.
    + repeat constructor.
    + apply (bool_decide_unpack _). vm_compute. exact I.
    + repeat constructor; vm_compute; congruence.
  - repeat constructor; vm_compute; congruence.
Defined.

End HistoryExample.
