(* ===== verification/HistoryBodies.v ===== *)
(** * Stored blocks and locators

    The sections of a block are read back as they were written, and a locator
    is found, short, and descends from the best header to the first. *)

From S2P Require Export HistoryProps UtxoFacts.

Local Open Scope Z_scope.

Section Bodies.
Context {ErgoBox Ext Tx : Type} `{ErgoBoxOps ErgoBox} `{TransactionLaws ErgoBox Ext Tx}
  `{ChainTypes} `{!HeaderCodec} `{Blake2b256Laws} `{BigUintBytesLaws} {DB : Type} `{StorageLaws DB}.

Abbreviation history := (History DB).

(** A bounds check of a parser that passes. *)
Ltac bounds_check :=
  let E := fresh in destruct (_ <? _)%nat eqn:E; [apply Nat.ltb_lt in E; lia|clear E].

(** ** Transactions *)

Lemma read_txs_step n pre x post :
  Z.of_nat (length x) < 2 ^ 32 ->
  read_txs (Tx := Tx) (S n) (pre ++ len_prefixed x ++ post) (length pre) =
  let? tx := ok_or (tx_parse x) (Serialization "tx") in
  let? rest := read_txs n ((pre ++ len_prefixed x) ++ post) (length (pre ++ len_prefixed x)) in
  Ok (tx :: rest).
Proof.
  intros Hx. pose proof (read_item_prefixed pre x post Hx) as Hr. unfold read_item in Hr.
  cbn [read_txs]. destruct (_ <? _)%nat; [done|]. destruct (_ <? _)%nat; [done|].
  apply Ok_inj in Hr. apply pair_equal_spec in Hr as [Hs Hl].
  rewrite Hs, Hl, <- app_assoc, (length_app pre). done.
Qed.

Lemma read_txs_items txs items pre post :
  rmap (fun tx => ok_or (tx_serialize tx) (Serialization "tx")) txs = Ok items ->
  Forall (fun x => Z.of_nat (length x) < 2 ^ 32) items ->
  read_txs (Tx := Tx) (length txs) (pre ++ concat (len_prefixed <$> items) ++ post) (length pre) = Ok txs.
Proof.
  revert items pre. induction txs as [|tx txs IH]; intros items pre; cbn [rmap length]; [done|].
  intros (x & Hx & (xs & Hxs & [= <-])%rbind_ok)%rbind_ok [Hlx Hlen]%Forall_cons.
  cbn [fmap list_fmap concat]. rewrite <- (app_assoc (len_prefixed x)), read_txs_step by done.
  destruct (tx_serialize tx) as [x'|] eqn:E; [|done]. injection Hx as ->.
  pose proof (tx_parse_serialize tx x [] E) as Hp. rewrite app_nil_r in Hp. rewrite Hp. cbn [ok_or rbind].
  by rewrite (IH xs).
Qed.

Definition txs_fit (txs : BlockTransactions Tx) : Prop :=
  Z.of_nat (length (bt_txs txs)) < 2 ^ 32 /\
  Forall (fun tx => forall x, tx_serialize tx = Some x -> Z.of_nat (length x) < 2 ^ 32) (bt_txs txs).

Lemma transactions_read_back (s : DB) id txs bs :
  serialize_transactions txs = Ok bs -> txs_fit txs -> st_get s CFBlockTransactions id = Some bs ->
  get_transactions s id = Ok (Some (BlockTransactions_new id (bt_txs txs))).
Proof.
  unfold serialize_transactions. intros (items & Hit & <-%Ok_inj)%rbind_ok [Hn Hfit] Hs.
  unfold get_transactions. rewrite Hs, length_app, be_bytes_length.
  destruct (Nat.ltb_spec (4 + length (concat (len_prefixed <$> items))) 4); [lia|].
  rewrite slice_head by apply be_bytes_length. rewrite be_val_bytes, Nat2Z.id by lia.
  pose proof (read_txs_items (bt_txs txs) items (be_bytes 4 (Z.of_nat (length (bt_txs txs)))) [] Hit) as Hr.
  rewrite be_bytes_length, app_nil_r in Hr. rewrite Hr; [done|].
  clear -Hit Hfit. revert items Hit. induction Hfit as [|tx l Htx _ IH]; intros items; cbn [rmap].
  - intros [= <-]. constructor.
  - intros (x & Hx & (xs & Hxs & [= <-])%rbind_ok)%rbind_ok. constructor; [|by apply IH].
    apply Htx. destruct (tx_serialize tx); [|done]. by injection Hx as ->.
Qed.

(** ** Extensions *)

Definition fields_fit (e : Extension) : Prop :=
  Z.of_nat (length (ext_fields e)) < 2 ^ 32 /\
  Forall (fun f => length (ef_key f) = 2%nat /\ Z.of_nat (length (ef_value f)) < 2 ^ 16) (ext_fields e).

Lemma stored_field_length f :
  length (ef_key f) = 2%nat -> length (stored_field f) = (4 + length (ef_value f))%nat.
Proof. intros Hk. unfold stored_field. rewrite !length_app, be_bytes_length, Hk. lia. Qed.

Lemma read_fields_stored fs pre post :
  Forall (fun f => length (ef_key f) = 2%nat /\ Z.of_nat (length (ef_value f)) < 2 ^ 16) fs ->
  read_fields (length fs) (pre ++ concat (stored_field <$> fs) ++ post) (length pre) = Ok fs.
Proof.
  revert pre. induction fs as [|f fs IH]; intros pre; [done|].
  intros [[Hk Hv] Hfs]%Forall_cons. cbn [length read_fields fmap list_fmap concat].
  set (rest := concat (stored_field <$> fs) ++ post).
  assert (pre ++ (stored_field f ++ concat (stored_field <$> fs)) ++ post =
    pre ++ ef_key f ++ be_bytes 2 (Z.of_nat (length (ef_value f))) ++ ef_value f ++ rest) as ->.
  { unfold stored_field, rest. rewrite (wrap_small 16) by (unfold in_u; lia). by rewrite <- !app_assoc. }
  rewrite !length_app, be_bytes_length, Hk.
  do 2 bounds_check.
  rewrite (slice_mid (length pre) _ pre (ef_key f)) by (rewrite ?Hk; lia).
  rewrite (app_assoc pre (ef_key f)), (slice_mid _ _ _ (be_bytes 2 _))
    by (rewrite ?length_app, ?be_bytes_length, ?Hk; lia).
  rewrite be_val_bytes, Nat2Z.id by lia. bounds_check.
  rewrite (app_assoc (pre ++ ef_key f)), (slice_mid _ _ _ (ef_value f))
    by (rewrite ?length_app, ?be_bytes_length, ?Hk; lia).
  rewrite (app_assoc _ (ef_value f)).
  replace (length pre + 2 + 2 + length (ef_value f))%nat
    with (length (((pre ++ ef_key f) ++ be_bytes 2 (Z.of_nat (length (ef_value f)))) ++ ef_value f))
    by (rewrite !length_app, be_bytes_length, Hk; lia).
  unfold rest. rewrite IH by done. by destruct f.
Qed.

Lemma extension_read_back (s : DB) e :
  fields_fit e -> st_get s Extensions (ext_header_id e) = Some (serialize_extension e) ->
  get_extension s (ext_header_id e) = Ok (Some e).
Proof.
  intros [Hn Hf] Hs. unfold get_extension, deserialize_extension, serialize_extension in *.
  rewrite Hs, length_app, be_bytes_length.
  destruct (Nat.ltb_spec (4 + length (concat (stored_field <$> ext_fields e))) 4); [lia|].
  rewrite slice_head by apply be_bytes_length. rewrite be_val_bytes, Nat2Z.id by lia.
  pose proof (read_fields_stored (ext_fields e) (be_bytes 4 (Z.of_nat (length (ext_fields e)))) [] Hf) as Hr.
  rewrite be_bytes_length, app_nil_r in Hr. rewrite Hr. cbn [rbind]. by destruct e.
Qed.

(** ** Full blocks *)

(** The sections belong to the header, and their lengths fit their fields. *)
Definition sections_ok (block : FullBlock Tx) : Prop :=
  ext_header_id (fb_extension block) = h_id (fb_header block) /\
  txs_fit (fb_transactions block) /\ fields_fit (fb_extension block) /\
  match fb_ad_proofs block with
  | Some p => adp_header_id p = h_id (fb_header block)
  | None => True
  end.

(** A full block is read back as it was appended, with two exceptions: the
    version of its transactions section becomes two, and a block without proofs
    gets those stored before. *)
Theorem full_block_read_back h block sel h' :
  canonical (fb_header block) -> sections_ok block -> append_full_block h block = Ok (sel, h') ->
  let id := h_id (fb_header block) in
  get_full_block (hi_storage h') id =
  Ok (Some (mkFullBlock (fb_header block)
    (BlockTransactions_new id (bt_txs (fb_transactions block))) (fb_extension block)
    match fb_ad_proofs block with
    | Some p => Some p
    | None => get_ad_proofs (hi_storage h) id
    end)).
Proof.
  intros (raw & Hraw & Hr) (Hext & Htx & Hf & Hpr) ([batch cum] & Hadd & Hfin%Ok_inj)%rbind_ok.
  apply (add_block_spec (hi_storage h)) in Hadd as (raw' & txb & Hraw' & Htxb & _ & Hba).
  rewrite Hraw in Hraw'. injection Hraw' as <-.
  assert (forall cf k, cf <> Metadata ->
    st_get (hi_storage h') cf k = st_get (st_write_batch (hi_storage h) batch) cf k) as Hget.
  { intros cf k Hcf. injection Hfin as _ <-. unfold update_in_memory_state.
    repeat case_match; cbn [set_best_full set_best_header set_storage hi_storage];
      by rewrite !st_get_write_batch, ?put_best_full_other, ?put_best_header_other. }
  cbn zeta. unfold get_full_block.
  assert (stored_header (hi_storage h') (fb_header block)) as Hst.
  { exists raw. split; [|done]. rewrite Hget by done.
    rewrite (added_headers _ _ _ _ _ (ba_added _ _ _ _ _ _ _ Hba)). by rewrite decide_True. }
  rewrite (stored_get _ _ Hst). cbn [rbind].
  erewrite transactions_read_back; [|exact Htxb|exact Htx|].
  2:{ rewrite Hget, st_get_write_batch, (ba_txs _ _ _ _ _ _ _ Hba) by done. by rewrite decide_True. }
  cbn [rbind]. rewrite <- Hext, extension_read_back; [|done|].
  2:{ rewrite Hget, st_get_write_batch, (ba_extension _ _ _ _ _ _ _ Hba) by done. by rewrite decide_True. }
  cbn [rbind]. rewrite Hext. do 3 f_equal. unfold get_ad_proofs.
  rewrite Hget, st_get_write_batch, (ba_proofs _ _ _ _ _ _ _ Hba) by done. destruct (fb_ad_proofs block) as [p|].
  - rewrite decide_True by done. cbn. rewrite <- Hpr. by destruct p.
  - done.
Qed.

(** ** Locators *)

(** The ids of the headers indexed at descending heights. *)
Definition located (s : DB) (ids : list bytes) (heights : list Z) : Prop :=
  Forall2 (fun id x => exists hd, get_by_height s x = Ok (Some hd) /\ h_id hd = id) ids heights.

(** Where the loop stands: single steps up to eleven entries, then steps that
    double. *)
Definition loc_inv (k height len step : Z) : Prop :=
  1 <= height < 2 ^ 32 /\ step = (2 ^ k) mod 2 ^ 32 /\
  ((k = 0 /\ 0 <= len <= 10) \/
   (1 <= k <= 32 /\ 11 <= len <= 10 + k /\ height <= Z.max 1 (2 ^ 32 - 2 ^ k))).

Lemma wrap_pow k : 0 <= k < 32 -> (2 ^ k) mod 2 ^ 32 = 2 ^ k.
Proof. intros Hk. apply Z.mod_small. split; [lia|]. apply Z.pow_lt_mono_r; lia. Qed.

(** The next height and step keep the invariant. *)
Lemma loc_inv_next k height len step len' :
  loc_inv k height len step -> height <> 1 -> (len' = len \/ len' = len + 1) ->
  let lower := sat_sub height step in
  let height' := if lower <? 1 then 1 else lower in
  exists k', loc_inv k' height' len' (if 10 <? len' then u32 (step * 2) else step) /\ height' < height.
Proof.
  intros (Hh & Hs & Hk) Hne Hlen. cbn zeta. unfold sat_sub.
  destruct Hk as [[-> Hl]|(Hk & Hl & Hhk)].
  - rewrite wrap_pow in Hs by lia. change (2 ^ 0) with 1 in Hs. subst step.
    destruct (Z.ltb_spec (Z.max 0 (height - 1)) 1); [lia|].
    destruct (Z.ltb_spec 10 len').
    + exists 1. split; [|lia]. split; [lia|]. split; [done|]. right. lia.
    + exists 0. split; [|lia]. split; [lia|]. split; [done|]. left. lia.
  - assert (k < 32) as Hk32.
    { destruct (decide (k = 32)) as [->|]; [|lia]. lia. }
    rewrite wrap_pow in Hs by lia. subst step. assert (0 < 2 ^ k) by lia.
    rewrite (proj2 (Z.ltb_lt 10 len')) by lia. exists (k + 1).
    assert (2 ^ (k + 1) = 2 * 2 ^ k) as Hpow by (rewrite Z.pow_add_r; lia).
    split; [|destruct (Z.ltb_spec (Z.max 0 (height - 2 ^ k)) 1); lia].
    split; [destruct (Z.ltb_spec (Z.max 0 (height - 2 ^ k)) 1); lia|].
    split; [unfold wrap; f_equal; lia|]. right.
    destruct (Z.ltb_spec (Z.max 0 (height - 2 ^ k)) 1); lia.
Qed.

Lemma locator_loop_spec (s : DB) best n height step k loc :
  chain_inv s best -> loc_inv k height (Z.of_nat (length loc)) step -> height <= Z.of_nat n ->
  exists ids heights, locator_loop n s height step loc = Some (Ok (loc ++ ids)) /\
    located s ids heights /\ StronglySorted Z.gt heights /\
    Forall (fun x => 1 <= x <= height) heights /\
    Z.of_nat (length (loc ++ ids)) <= 43 /\
    (forall hd, get_by_height s height = Ok (Some hd) -> head heights = Some height) /\
    (forall hd, get_by_height s 1 = Ok (Some hd) -> last heights = Some 1).
Proof.
  intros Hi. revert height step k loc. induction n as [|n IH]; intros height step k loc Hinv Hn.
  { destruct Hinv. lia. }
  pose proof Hinv as (Hh & Hs & Hk). cbn [locator_loop].
  destruct (get_by_height_ok s best height Hi ltac:(unfold in_u; lia)) as [o Ho]. rewrite Ho.
  set (loc' := match o with Some hd => loc ++ [h_id hd] | None => loc end).
  assert (exists i1 h1, loc' = loc ++ i1 /\ located s i1 h1 /\ (length i1 <= 1)%nat /\
    h1 = match o with Some _ => [height] | None => [] end) as (i1 & h1 & Hloc' & Hl1 & Hlen1 & Hh1).
  { destruct o as [hd|]; unfold loc'; [exists [h_id hd], [height]|exists [], []].
    - split; [done|]. split; [|done]. constructor; [eauto|constructor].
    - split; [by rewrite app_nil_r|]. split; [constructor|]. cbn. split; [lia|done]. }
  destruct (Z.eqb_spec height 1) as [->|Hne].
  - exists i1, h1. rewrite Hloc'. split; [done|]. split; [done|].
    split; [subst h1; destruct o; repeat constructor|].
    split; [subst h1; destruct o; repeat constructor; lia|].
    split; [rewrite length_app; destruct Hk as [?|?]; lia|].
    split; intros hd Hhd; rewrite ?Ho in Hhd; injection Hhd as ->; by subst h1.
  - assert (Z.of_nat (length loc') = Z.of_nat (length loc) \/
            Z.of_nat (length loc') = Z.of_nat (length loc) + 1) as Hlen'
      by (rewrite Hloc', length_app; lia).
    destruct (loc_inv_next _ _ _ _ _ Hinv Hne Hlen') as (k' & Hinv' & Hlt). cbn zeta in Hinv', Hlt.
    set (height' := if sat_sub height step <? 1 then 1 else sat_sub height step) in *.
    replace (10 <? length loc')%nat with (10 <? Z.of_nat (length loc'))
      by (destruct (Z.ltb_spec 10 (Z.of_nat (length loc'))), (Nat.ltb_spec 10 (length loc')); lia || done).
    destruct (IH _ _ _ _ Hinv' ltac:(lia)) as (ids & hs & -> & Hloc & Hsort & Hrange & Hlen & _ & Hlast).
    exists (i1 ++ ids), (h1 ++ hs). rewrite Hloc', <- app_assoc. split; [done|].
    split; [by apply Forall2_app|]. split; [|split; [|split; [|split]]].
    + subst h1. destruct o; [|done]. constructor; [done|]. eapply Forall_impl; [exact Hrange|]. intros x Hx. cbn in Hx. lia.
    + apply Forall_app. split; [subst h1; destruct o; repeat constructor; lia|].
      eapply Forall_impl; [exact Hrange|]. intros x Hx. cbn in Hx. lia.
    + rewrite Hloc', <- app_assoc in Hlen. exact Hlen.
    + intros hd Hhd. injection Hhd as ->. by subst h1.
    + intros hd Hhd. rewrite last_app. by rewrite (Hlast hd Hhd).
Qed.

(** A locator is always found: its entries are the headers indexed at
    descending heights between the best height and one, both included when
    they are indexed, and there are at most forty-three of them. *)
Theorem locator_short h :
  reachable h ->
  exists ids heights, get_header_locator h = Some (Ok ids) /\
    located (hi_storage h) ids heights /\ StronglySorted Z.gt heights /\
    Forall (fun x => 1 <= x <= best_height h) heights /\ (length ids <= 43)%nat /\
    (0 < best_height h -> forall hd,
       (get_by_height (hi_storage h) (best_height h) = Ok (Some hd) -> head heights = Some (best_height h)) /\
       (get_by_height (hi_storage h) 1 = Ok (Some hd) -> last heights = Some 1)).
Proof.
  intros Hr. pose proof (history_reachable_inv _ Hr) as Hi. pose proof (best_height_range _ Hi) as Hb.
  unfold get_header_locator. destruct (Z.eqb_spec (best_height h) 0) as [->|Hne].
  { exists [], []. split; [done|]. repeat split; try constructor; try done; cbn; lia. }
  unfold in_u in Hb.
  destruct (locator_loop_spec (hi_storage h) _ (Z.to_nat (best_height h)) (best_height h) 1 0 [] (hi_chain _ Hi))
    as (ids & hs & -> & Hloc & Hs & Hrange & Hlen & Hhd & Hl); [|lia|].
  { split; [lia|]. split; [done|]. left. cbn. lia. }
  exists ids, hs. split; [done|]. split; [done|]. split; [done|]. split; [done|].
  split; [cbn in Hlen; lia|]. intros _ hd. split; [apply Hhd|apply Hl].
Qed.

End Bodies.

Module BodiesExample.
Import Mem Toy HistoryToy HistoryExample.

Definition block_of (hd : Header) : FullBlock toy_tx :=
  mkFullBlock hd (mkBlockTransactions (h_id hd) [mk_toy_tx 5 [] [] []] 1)
    (mkExtension (h_id hd) [mkExtensionField [0; 1] [7; 7]]) (Some (mkADProofs (h_id hd) [9])).

Definition append_block (h : History Mem.t) (b : FullBlock toy_tx) : History Mem.t :=
  match append_full_block h b with Ok (_, h') => h' | Err _ => h end.

Abbreviation pruned_start := (with_pruning Mem.empty (mkPruningConfig 1)).
Definition three_blocks : History Mem.t :=
  append_block (append_block (append_block pruned_start (block_of a2)) (block_of a3)) (block_of a4).

Lemma append_block_reachable h b :
  reachable h -> block_ok (hi_storage h) b -> reachable (append_block h b).
Proof.
  intros Hr Hb. unfold append_block. destruct (append_full_block h b) as [[sel h']|e] eqn:E; [|done].
  eapply reachable_step; [exact Hr|]. by eapply step_block.
Qed.

Lemma toy_block_ok (h : History Mem.t) hd :
  canonical hd -> in_u 32 (h_height hd) ->
  contains_header (hi_storage h) (h_id hd) = false ->
  (2 < h_height hd -> contains_header (hi_storage h) (h_parent_id hd) = true) ->
  block_ok (hi_storage h) (block_of hd).
Proof. intros. split; [done|]. split; [done|]. split; [by left|done]. Qed.

Ltac toy_block :=
  apply toy_block_ok;
  [apply toy_canonical; vm_compute; intuition congruence
  |vm_compute; intuition congruence|vm_compute; reflexivity|intros _; vm_compute; reflexivity].

Lemma three_blocks_reachable : reachable three_blocks.
Proof.
  unfold three_blocks. repeat apply append_block_reachable; [|  | |].
  - apply reachable_new. done.
  - apply toy_block_ok; [apply toy_canonical; vm_compute; intuition congruence
      |vm_compute; intuition congruence|vm_compute; reflexivity|]. intros Hlt. by vm_compute in Hlt.
  - toy_block.
  - toy_block.
Qed.

Lemma body_transactions : CFBlockTransactions ∈ body_families.
Proof. constructor. Qed.

(** One block is kept: pruning after height four deletes the bodies of the
    blocks below it. *)
Lemma pruning_window_witness :
  exists h', update_best_full_block_pruning three_blocks a4 = (Ok 4, h') /\
    st_get (hi_storage h') CFBlockTransactions (h_id a3) = None /\
    has_transactions (hi_storage three_blocks) (h_id a3) = true /\
    st_get (hi_storage h') CFBlockTransactions (h_id a4) =
    st_get (hi_storage three_blocks) CFBlockTransactions (h_id a4).
Proof.
  destruct (pruning_window three_blocks a4 (history_reachable_inv _ three_blocks_reachable))
    as (h' & Hu & _ & _ & _ & _ & _ & _ & Hkeep & Hdel); [vm_compute; intuition congruence..|].
  assert (new_minimal_height three_blocks (h_height a4) = 4) as Hm by (vm_compute; reflexivity).
  rewrite Hm in Hu, Hkeep, Hdel. exists h'. split; [exact Hu|]. split; [|split].
  - assert (1 <= 3 < 4) as H3 by lia.
    assert (minimal_full_block_height three_blocks < 4) as Hmin by (vm_compute; reflexivity).
    assert (get_by_height (hi_storage three_blocks) 3 = Ok (Some a3)) as Hg by (vm_compute; reflexivity).
    assert (has_transactions (hi_storage three_blocks) (h_id a3) = true) as Ht by (vm_compute; reflexivity).
    exact (Hdel Hmin 3 a3 CFBlockTransactions H3 Hg Ht body_transactions).
  - vm_compute. reflexivity.
  - apply Hkeep; [|vm_compute; congruence|exact body_transactions].
    exists (raw_bytes a4). split; [vm_compute; reflexivity|]. eapply proj1; toy_ok.
Defined.

Lemma full_block_read_back_witness :
  exists sel h', append_full_block pruned_start (block_of a2) = Ok (sel, h') /\
    get_full_block (hi_storage h') (h_id a2) =
    Ok (Some (mkFullBlock a2 (BlockTransactions_new (h_id a2) [mk_toy_tx 5 [] [] []])
      (fb_extension (block_of a2)) (fb_ad_proofs (block_of a2)))).
Proof.
  assert (is_ok (append_full_block pruned_start (block_of a2)) = true) as Hok by (vm_compute; reflexivity).
  destruct (append_full_block pruned_start (block_of a2)) as [[sel h']|e] eqn:E; [|discriminate Hok].
  exists sel, h'. split; [done|].
  assert (canonical (fb_header (block_of a2))) as Hc
    by (apply toy_canonical; vm_compute; intuition congruence).
  assert (sections_ok (block_of a2)) as Hs.
  { split; [reflexivity|]. split; [|split; [|reflexivity]]; (split; [vm_compute; reflexivity|]);
      apply Forall_singleton.
    - intros x [= <-]. vm_compute. reflexivity.
    - split; vm_compute; reflexivity. }
  pose proof (full_block_read_back pruned_start (block_of a2) sel h' Hc Hs E) as Hb.
  cbn [fb_header block_of fb_extension fb_ad_proofs fb_transactions bt_txs] in Hb |- *. exact Hb.
Defined.

Lemma locator_short_witness :
  get_header_locator main_chain = Some (Ok [h_id a4; h_id a3; h_id a2]) /\
  exists ids heights, get_header_locator main_chain = Some (Ok ids) /\
    located (hi_storage main_chain) ids heights /\ (length ids <= 43)%nat.
Proof.
  split; [vm_compute; reflexivity|].
  destruct (locator_short main_chain main_reachable) as (ids & hs & Hg & Hl & _ & _ & Hn & _). eauto.
Defined.

End BodiesExample.
