(* ===== verification/Manager.v ===== *)
(** * The state manager (crates/ergo-state/src/manager.rs)

    The UTXO state and the history over one store.  Both components hold the
    same [Arc<dyn Storage>]: a write of either is seen by both, which
    [share_utxo] and [share_history] make explicit. *)

From S2P Require Export History ChainParams.

Local Open Scope Z_scope.

Inductive StateRootVerification := RV_Skip | RV_WarnOnly | RV_Enforce.

Definition StateRootVerification_default : StateRootVerification := RV_WarnOnly.

Section Manager.
Context {ErgoBox Ext Tx : Type} `{ErgoBoxOps ErgoBox} `{TransactionOps ErgoBox Ext Tx}
  `{ChainTypes} `{!HeaderCodec} `{Blake2b256} `{BigUintBytes} {DB : Type} `{Storage DB}.

Record StateManager := mkStateManager {
  sm_utxo : UtxoState DB;
  sm_history : History DB;
  sm_verification : StateRootVerification;
  sm_parameters : ChainParameters
}.

(** [StateChange::from_block_transactions] (utxo.rs): every input of the block is
    spent, every output created. *)
Definition from_block_transactions (block_txs : BlockTransactions Tx) (block_height : Z) : StateChange ErgoBox :=
  mkStateChange
    ((fun '(ergo_box, id, output_index) => mkBoxEntry ergo_box block_height id output_index) <$> get_outputs block_txs)
    (get_input_box_ids block_txs).

(** ** The shared store *)

Definition utxo_with_storage (u : UtxoState DB) (s : DB) : UtxoState DB :=
  mkUtxoState s (us_state_root u) (us_height u) (us_sync_mode u).

(** The manager after its UTXO state, or its history, was changed. *)
Definition share_utxo (m : StateManager) (u : UtxoState DB) : StateManager :=
  mkStateManager u (set_storage (sm_history m) (us_storage u)) (sm_verification m) (sm_parameters m).
Definition share_history (m : StateManager) (h : History DB) : StateManager :=
  mkStateManager (utxo_with_storage (sm_utxo m) (hi_storage h)) h (sm_verification m) (sm_parameters m).
Definition set_parameters (m : StateManager) (p : ChainParameters) : StateManager :=
  mkStateManager (sm_utxo m) (sm_history m) (sm_verification m) p.

Definition sm_storage (m : StateManager) : DB := hi_storage (sm_history m).

Definition with_verification (s : DB) (v : StateRootVerification) : StateManager :=
  mkStateManager (utxo_new s) (history_new s) v ChainParameters_default.
Definition manager_new (s : DB) : StateManager := with_verification s StateRootVerification_default.

Definition set_verification_mode (m : StateManager) (mode : StateRootVerification) : StateManager :=
  mkStateManager (sm_utxo m) (sm_history m) mode (sm_parameters m).

(** ** Restart *)

(** The parameters of one epoch boundary, on top of the previous ones. *)
Definition epoch_parameters (s : DB) (params : ChainParameters) (epoch : Z) : ChainParameters :=
  match get_by_height s epoch with
  | Ok (Some header) =>
      match get_full_block s (h_id header) with
      | Ok (Some block) =>
          match parse_parameters (fb_extension (Tx := Tx) block) with
          | Ok parsed => if decide (parsed = ∅) then params else from_extension epoch parsed params
          | Err _ => params
          end
      | _ => params
      end
  | _ => params
  end.

(** [init_parameters_from_storage]: the epochs up to the current height. *)
Definition init_parameters_from_storage (m : StateManager) : StateManager :=
  let current_height := us_height (sm_utxo m) in
  let most_recent_epoch := (current_height / VOTING_EPOCH_LENGTH) * VOTING_EPOCH_LENGTH in
  if (current_height =? 0) || (most_recent_epoch =? 0) then m
  else
    let epochs := (fun i => i * VOTING_EPOCH_LENGTH) <$> seqZ 1 (current_height / VOTING_EPOCH_LENGTH) in
    set_parameters m (fold_left (epoch_parameters (sm_storage m)) epochs ChainParameters_default).

(** Whether a box of the first transaction of a block is unspent. *)
Fixpoint any_box_stored (u : UtxoState DB) (outputs : list ErgoBox) : result bool StateError :=
  match outputs with
  | [] => Ok false
  | output :: outputs' =>
      let? found := get_box (ErgoBox := ErgoBox) u (box_id output) in
      match found with Some _ => Ok true | None => any_box_stored u outputs' end
  end.

(** The first of the heights at which the boxes of the first transaction are
    found. *)
Fixpoint last_good_height (m : StateManager) (check_heights : list Z)
    : result (option Z) StateError :=
  match check_heights with
  | [] => Ok None
  | check_height :: rest =>
      if check_height =? 0 then last_good_height m rest
      else
        let? header := get_by_height (sm_storage m) check_height in
        match header with
        | None => last_good_height m rest
        | Some header =>
            let? block_txs := get_transactions (Tx := Tx) (sm_storage m) (h_id header) in
            match block_txs with
            | None => last_good_height m rest
            | Some block_txs =>
                match coinbase block_txs with
                | None => last_good_height m rest
                | Some coinbase_tx =>
                    let? found_any := any_box_stored (sm_utxo m) (tx_outputs coinbase_tx) in
                    if found_any then Ok (Some check_height) else last_good_height m rest
                end
            end
        end
  end.

Definition check_heights (utxo_height : Z) : list Z :=
  utxo_height :: (sat_sub utxo_height <$> [100; 500; 1000; 5000; 10000]).

(** [self.utxo.rollback(...)?]; the blocks undone before an error stay undone. *)
Definition manager_rollback (m : StateManager) (height : Z) : result unit StateError * StateManager :=
  let '(r, u) := rollback (ErgoBox := ErgoBox) (sm_utxo m) height in (r, share_utxo m u).

Definition check_and_recover_utxo_state (m : StateManager) : result unit StateError * StateManager :=
  let utxo_height := us_height (sm_utxo m) in
  if utxo_height =? 0 then (Ok tt, m)
  else
    match last_good_height m (check_heights utxo_height) with
    | Err e => (Err e, m)
    | Ok (Some good_height) =>
        if good_height <? utxo_height then manager_rollback m (sat_sub good_height 10)
        else (Ok tt, m)
    | Ok None => manager_rollback m 1
    end.

(** [StateManager::init_from_storage]. *)
Definition manager_init (s : DB) : result StateManager StateError :=
  let m := mkStateManager (init_from_storage s) (history_init s PruningConfig_default)
             StateRootVerification_default ChainParameters_default in
  match check_and_recover_utxo_state m with
  | (Err e, _) => Err e
  | (Ok _, m) => Ok (init_parameters_from_storage m)
  end.

(** ** Heights *)

Definition heights (m : StateManager) : Z * Z := (us_height (sm_utxo m), best_height (sm_history m)).
Definition is_synced (m : StateManager) : bool :=
  let header_height := best_height (sm_history m) in
  let full_block_height := best_full_block_height (sm_history m) in
  (full_block_height >? 0) && (full_block_height =? header_height).

(** ** Headers *)

Definition lift_history (m : StateManager) (r : result ChainSelection StateError * History DB)
    : result ChainSelection StateError * StateManager := (r.1, share_history m r.2).

Definition apply_header (m : StateManager) (header : Header) :=
  lift_history m (append_header (sm_history m) header).
Definition apply_header_with_bytes (m : StateManager) (header : Header) (raw_bytes : bytes) :=
  lift_history m (append_header_with_bytes (sm_history m) header raw_bytes).
Definition apply_headers_batched (m : StateManager) (headers : list (Header * bytes)) :=
  lift_history m (append_headers_batched (sm_history m) headers).

(** ** One block *)

(** The verification of the state root after a change: [None] when it passes
    or is skipped, the two roots when they differ. *)
Definition state_root_mismatch (u : UtxoState DB) (expected_state_root : bytes)
    : option (bytes * bytes) :=
  let computed := us_state_root u in
  if bool_decide (computed = []) || forallb (fun b => b =? 0) computed then None
  else
    let expected_hash := if (length expected_state_root =? 33)%nat then slice 0 32 expected_state_root
                         else expected_state_root in
    if bool_decide (computed = expected_hash) then None else Some (expected_hash, computed).

(** [StateManager::apply_block]. *)
Definition apply_block (m : StateManager) (block : FullBlock Tx) (change : StateChange ErgoBox)
    : result ChainSelection StateError * StateManager :=
  let height := h_height (fb_header block) in
  let utxo_height := us_height (sm_utxo m) in
  if negb (height =? u32 (utxo_height + 1)) then
    (Err (InvalidTransition "Expected height"), m)
  else
    match append_full_block (sm_history m) block with
    | Err e => (Err e, m)
    | Ok (selection, h) =>
        let m := share_history m h in
        match apply_change (sm_utxo m) change height with
        | Err e => (Err e, m)
        | Ok u =>
            let m := share_utxo m u in
            match sm_verification m with
            | RV_Skip | RV_WarnOnly => (Ok selection, m)
            | RV_Enforce =>
                match state_root_mismatch (sm_utxo m) (h_state_root (fb_header block)) with
                | None => (Ok selection, m)
                | Some (expected, computed) =>
                    (Err (StateRootMismatch height expected computed),
                     (manager_rollback m utxo_height).2)
                end
            end
        end
    end.

Definition apply_state_change (m : StateManager) (change : StateChange ErgoBox) (height : Z)
    : result StateManager StateError :=
  let? u := apply_change (sm_utxo m) change height in Ok (share_utxo m u).

(** ** Many blocks in one batch *)

(** The check that the heights of the blocks are consecutive. *)
Fixpoint contiguous (expected : Z) (blocks : list (FullBlock Tx * StateChange ErgoBox)) : bool :=
  match blocks with
  | [] => true
  | (block, _) :: rest => (h_height (fb_header block) =? expected) && contiguous (u32 (expected + 1)) rest
  end.

(** The loop over the blocks: the batch, the cumulative difficulty and the
    boxes created so far in the batch. *)
Definition batch_block (m : StateManager) (acc : WriteBatch * Z * gmap bytes (BoxEntry ErgoBox))
    (bc : FullBlock Tx * StateChange ErgoBox)
    : result (WriteBatch * Z * gmap bytes (BoxEntry ErgoBox)) StateError :=
  let '(batch, cumulative_difficulty, batch_created_boxes) := acc in
  let '(block, change) := bc in
  let? (batch, cumulative_difficulty) := add_block_to_batch batch block cumulative_difficulty in
  let? batch := add_change_to_batch_with_context (sm_utxo m) batch change
                  (h_height (fb_header block)) batch_created_boxes in
  let batch_created_boxes :=
    fold_left (fun mp entry => <[box_id_bytes entry := entry]> mp) (sc_created change)
      batch_created_boxes in
  let batch_created_boxes := fold_left (fun mp id => delete id mp) (sc_spent change)
      batch_created_boxes in
  Ok (batch, cumulative_difficulty, batch_created_boxes).

(** [StateManager::apply_blocks_batched]; nothing is written before the end, so
    an error leaves the manager as it was. *)
Definition apply_blocks_batched (m : StateManager) (blocks : list (FullBlock Tx * StateChange ErgoBox))
    : result (ChainSelection * StateManager) StateError :=
  match blocks with
  | [] => Ok (Ignored, m)
  | (first_block, _) :: _ =>
      let h := sm_history m in
      let first := fb_header first_block in
      let first_height := h_height first in
      guard? first_height =? u32 (us_height (sm_utxo m) + 1)
        else InvalidTransition "Expected first block" in
      guard? contiguous first_height blocks else InvalidTransition "Non-contiguous block" in
      let start := parent_cumulative (hi_storage h) first_height (h_parent_id first) in
      let? (batch, cumulative_difficulty, _) := rfold (batch_block m) ([], start, ∅) blocks in
      let last_header := fb_header (from_option fst first_block (last blocks)) in
      let final_block_id := h_id last_header in
      let last_height := h_height last_header in
      let better := cumulative_difficulty >? best_cumulative_difficulty h in
      let batch := if better then put_best_header batch final_block_id last_height cumulative_difficulty
                   else batch in
      let selection := if better then Extended else Ignored in
      let batch := if last_height >? best_full_block_height h
                   then put_best_full batch final_block_id last_height else batch in
      let h := update_in_memory_state (execute_batch h batch) final_block_id last_height
                 cumulative_difficulty in
      let m := share_history m h in
      Ok (selection, share_utxo m (update_height_in_memory (sm_utxo m) last_height))
  end.

(** ** Chain parameters *)

Definition update_parameters_from_block (m : StateManager) (block : FullBlock Tx) : StateManager :=
  let height := h_height (fb_header block) in
  if negb (is_epoch_boundary height) then m
  else
    match parse_parameters (fb_extension block) with
    | Ok parsed =>
        if decide (parsed = ∅) then m
        else set_parameters m (from_extension height parsed (sm_parameters m))
    | Err _ => m
    end.

Definition update_parameters_at (m : StateManager) (height : Z) : StateManager :=
  if is_epoch_boundary height then
    match get_by_height (sm_storage m) height with
    | Ok (Some header) =>
        match get_full_block (sm_storage m) (h_id header) with
        | Ok (Some block) => update_parameters_from_block m block
        | _ => m
        end
    | _ => m
    end
  else m.

Definition update_parameters_for_height_range (m : StateManager) (first_height last_height : Z)
    : StateManager :=
  fold_left update_parameters_at (seqZ first_height (last_height - first_height + 1)) m.

End Manager.

Arguments StateManager DB : clear implicits.
