(* ===== verification/UtxoBatch.v ===== *)
(** * Batched application of changes

    [add_change_to_batch_with_context] over a run of blocks: whenever the
    changes apply one after the other, the batch has the same effect on the
    boxes and the undo data. *)

From S2P Require Export UtxoSpec.

Local Open Scope Z_scope.

Section UtxoBatch.
Context {ErgoBox : Type} `{ErgoBoxLaws ErgoBox} `{Blake2b256}.
Context {DB : Type} `{StorageLaws DB}.

Abbreviation entry := (BoxEntry ErgoBox).
Abbreviation state := (UtxoState DB).
Abbreviation utxo st := (st_get (us_storage st) Utxo).
Abbreviation undo st := (st_get (us_storage st) CFUndoData).

(** ** The boxes created in the batch *)

Definition track_created (mp : gmap bytes entry) (es : list entry) : gmap bytes entry :=
  fold_left (fun mp e => <[box_id_bytes e := e]> mp) es mp.
Definition track_spent (mp : gmap bytes entry) (ids : list bytes) : gmap bytes entry :=
  fold_left (fun mp id => delete id mp) ids mp.
Definition track (mp : gmap bytes entry) (ch : StateChange ErgoBox) : gmap bytes entry :=
  track_spent (track_created mp (sc_created ch)) (sc_spent ch).

Lemma track_created_lookup mp es k :
  track_created mp es !! k = match created_lookup es k with Some e => Some e | None => mp !! k end.
Proof.
  unfold track_created. revert mp. induction es as [|e es IH]; intros mp; [done|].
  cbn [fold_left created_lookup]. rewrite IH. destruct (created_lookup es k); [done|].
  rewrite lookup_insert. by case_decide.
Qed.

Lemma track_spent_lookup mp ids k :
  track_spent mp ids !! k = if decide (k ∈ ids) then None else mp !! k.
Proof.
  unfold track_spent. revert mp. induction ids as [|id ids IH]; intros mp.
  - cbn. rewrite decide_False; [done|]. apply not_elem_of_nil.
  - cbn [fold_left]. rewrite IH, lookup_delete. repeat case_decide; set_solver.
Qed.

(** ** One change *)

(** The lookup of a spent box: this block, then the batch, then the store. *)
Definition look_context (st : state) (ch : StateChange ErgoBox) (mp : gmap bytes entry)
    (id : bytes) : result entry StateError :=
  match track_created ∅ (sc_created ch) !! id with
  | Some e => Ok e
  | None => match mp !! id with Some e => Ok e | None => look_stored st id end
  end.

Lemma add_change_eq (st : state) batch ch h mp :
  add_change_to_batch_with_context st batch ch h mp =
  let? (batch, spent) := spend_loop (look_context st ch mp) st (batch, []) (sc_spent ch) in
  let? batch := put_loop (us_sync_mode st) st batch (sc_created ch) in
  finish_change batch (mkUndoData h spent (box_id_bytes <$> sc_created ch)) h.
Proof. reflexivity. Qed.

(** The whole batch. *)
Fixpoint batch_changes (st : state) (batch : WriteBatch) (mp : gmap bytes entry)
    (changes : list (StateChange ErgoBox * Z)) : result WriteBatch StateError :=
  match changes with
  | [] => Ok batch
  | (ch, h) :: rest =>
      let? batch := add_change_to_batch_with_context st batch ch h mp in
      batch_changes st batch (track mp ch) rest
  end.

(** The changes applied one after the other. *)
Fixpoint apply_changes (st : state) (changes : list (StateChange ErgoBox * Z))
    : result state StateError :=
  match changes with
  | [] => Ok st
  | (ch, h) :: rest => let? st := apply_change st ch h in apply_changes st rest
  end.

(** ** Success of a spending loop *)

Lemma spend_loop_total look (st : state) ids es b0 s0 :
  Forall2 (fun id e => look id = Ok e) ids es ->
  exists batch, spend_loop look st (b0, s0) ids = Ok (batch, s0 ++ es).
Proof.
  intros Hes. revert b0 s0. unfold spend_loop.
  induction Hes as [|id e ids es He _ IH]; intros b0 s0.
  - exists b0. by rewrite app_nil_r.
  - cbn [rfold]. rewrite He. cbn [rbind]. edestruct IH as (batch & Hb). exists batch.
    rewrite Hb. by rewrite <- app_assoc.
Qed.

Lemma put_loop_ser skip (st : state) es b0 b :
  put_loop skip st b0 es = Ok b -> forall e, e ∈ es -> is_ok (entry_serialize e) = true.
Proof.
  unfold put_loop. revert b0. induction es as [|x es IH]; intros b0; cbn [rfold].
  - intros _ e He. by apply not_elem_of_nil in He.
  - intros (b1 & (s & Hs & _)%rbind_ok & Hr)%rbind_ok e [->|He]%elem_of_cons; [by rewrite Hs|]. by eapply IH.
Qed.

Lemma Forall2_impl_in {A B} (P Q : A -> B -> Prop) l k :
  Forall2 P l k -> (forall x y, x ∈ l -> P x y -> Q x y) -> Forall2 Q l k.
Proof.
  induction 1 as [|x y l k Hxy _ IH]; intros Himp; constructor.
  - apply Himp; [by left|done].
  - apply IH. intros. apply Himp; [by right|done].
Qed.

(** ** The simulation *)

(** [batch] and [mp] follow the state [cur] reached one by one from [st]. *)
Record follows (st : state) (batch : WriteBatch) (mp : gmap bytes entry) (cur : state) : Prop := {
  f_utxo k : st_get (st_write_batch (us_storage st) batch) Utxo k = utxo cur k;
  f_undo k : st_get (st_write_batch (us_storage st) batch) CFUndoData k = undo cur k;
  f_look id e : get_box cur id = Ok (Some e) ->
    mp !! id = Some e \/ (mp !! id = None /\ get_box st id = Ok (Some e))
}.

Lemma follows_start (st : state) : follows st [] ∅ st.
Proof. constructor; intros; [by rewrite st_get_write_batch|by rewrite st_get_write_batch|by right]. Qed.

(** Each change, when its turn comes, creates well-formed new boxes. *)
Fixpoint run_ok (st : state) (changes : list (StateChange ErgoBox * Z)) : Prop :=
  match changes with
  | [] => True
  | (ch, h) :: rest =>
      change_ok st ch /\ match apply_change st ch h with Ok st' => run_ok st' rest | Err _ => True end
  end.

Lemma finish_change_ok b (u : UndoData ErgoBox) h bs :
  undo_serialize u = Ok bs -> exists b', finish_change b u h = Ok b'.
Proof. intros Hu. unfold finish_change. rewrite Hu. cbn [rbind]. eauto. Qed.

Lemma created_not_spent (cur : state) ch es :
  utxo_wf (ErgoBox := ErgoBox) cur -> change_ok cur ch ->
  Forall2 (fun id e => get_box cur id = Ok (Some e)) (sc_spent ch) es ->
  forall id, id ∈ sc_spent ch -> created_lookup (sc_created ch) id = None.
Proof.
  intros Hwf [_ Hnew] Hes id Hid. apply created_lookup_None. intros (e & -> & He)%list_elem_of_fmap.
  destruct (Forall2_elem_l _ _ _ _ Hes Hid) as (e' & _ & Hg). unfold get_box in Hg.
  by rewrite (Hnew e He) in Hg.
Qed.

(** A change whose spent boxes are all found is added to the batch. *)
Lemma add_change_ok (st : state) batch ch h mp es bs :
  Forall2 (fun id e => look_context st ch mp id = Ok e) (sc_spent ch) es ->
  (forall e, e ∈ sc_created ch -> is_ok (entry_serialize e) = true) ->
  undo_serialize (mkUndoData h es (box_id_bytes <$> sc_created ch)) = Ok bs ->
  exists batch', add_change_to_batch_with_context st batch ch h mp = Ok batch'.
Proof.
  intros Hctx Hser Hbs. rewrite add_change_eq.
  destruct (spend_loop_total _ st _ _ batch [] Hctx) as (b1 & ->). cbn [app rbind].
  destruct (put_loop_ok (us_sync_mode st) st (sc_created ch) b1 Hser) as (b2 & ->). cbn [rbind].
  by apply (finish_change_ok b2 _ h bs).
Qed.

(** What makes a change apply to a state. *)
Lemma apply_change_parts (st st' : state) ch h :
  apply_change st ch h = Ok st' ->
  exists es bs, Forall2 (fun id e => get_box st id = Ok (Some e)) (sc_spent ch) es /\
    undo_serialize (mkUndoData h es (box_id_bytes <$> sc_created ch)) = Ok bs /\
    (forall e, e ∈ sc_created ch -> is_ok (entry_serialize e) = true).
Proof.
  intros Happ. pose proof Happ as (es & bs & Hes & Hbs & _)%apply_change_spec. exists es, bs.
  split; [done|]. split; [done|]. rewrite apply_change_eq in Happ.
  apply rbind_ok in Happ as ([b0 sp] & _ & (b0' & Hput & _)%rbind_ok). by eapply put_loop_ser.
Qed.

(** A change that applies to the state before the batch is added to it also
    after other changes, even if they spend the same boxes. *)
Lemma add_change_stale (st st' : state) batch ch0 ch h :
  utxo_wf (ErgoBox := ErgoBox) st -> change_ok st ch0 -> change_ok st ch ->
  apply_change st ch h = Ok st' ->
  exists batch', add_change_to_batch_with_context st batch ch h (track ∅ ch0) = Ok batch'.
Proof.
  intros Hwf Hch0 Hch (es & bs & Hes & Hbs & Hser)%apply_change_parts.
  eapply add_change_ok; [|done|exact Hbs]. eapply Forall2_impl_in; [exact Hes|].
  intros id e Hid Hg. unfold look_context.
  rewrite track_created_lookup, (created_not_spent st ch es Hwf Hch Hes id Hid), lookup_empty.
  unfold track. rewrite track_spent_lookup, track_created_lookup, lookup_empty.
  assert (created_lookup (sc_created ch0) id = None) as ->.
  { apply created_lookup_None. intros (e0 & -> & He0)%list_elem_of_fmap. destruct Hch0 as [_ Hnew].
    unfold get_box in Hg. by rewrite (Hnew e0 He0) in Hg. }
  assert ((if decide (id ∈ sc_spent ch0) then None else @None entry) = None) as -> by by case_decide.
  unfold look_stored. by rewrite Hg.
Qed.

(** A change that spends an absent box is refused. *)
Lemma apply_change_absent (st : state) ch h id :
  id ∈ sc_spent ch -> utxo st id = None -> exists e, apply_change st ch h = Err e.
Proof.
  intros Hid Hn. destruct (apply_change st ch h) as [st'|e] eqn:Happ; [|eauto].
  apply apply_change_spec in Happ as (es & bs & Hes & _).
  destruct (Forall2_elem_l _ _ _ _ Hes Hid) as (e & _ & Hg). unfold get_box in Hg. by rewrite Hn in Hg.
Qed.

Lemma follows_step (st cur cur' : state) batch mp ch h :
  utxo_wf (ErgoBox := ErgoBox) cur -> change_ok cur ch -> us_sync_mode cur = us_sync_mode st ->
  follows st batch mp cur -> apply_change cur ch h = Ok cur' ->
  exists batch', add_change_to_batch_with_context st batch ch h mp = Ok batch' /\
    follows st batch' (track mp ch) cur'.
Proof.
  intros Hwf Hch Hsync [Hu Hund Hlook] Happ.
  pose proof Happ as (es & bs & Hes & Hbs & _ & _ & Hu' & Hund')%apply_change_spec.
  pose proof (created_not_spent cur ch es Hwf Hch Hes) as Hdisj.
  assert (Forall2 (fun id e => look_context st ch mp id = Ok e) (sc_spent ch) es) as Hctx.
  { eapply Forall2_impl_in; [exact Hes|]. intros id e Hid Hg. unfold look_context.
    rewrite track_created_lookup, (Hdisj id Hid), lookup_empty.
    destruct (Hlook id e Hg) as [->|[-> Hst]]; [done|]. unfold look_stored. by rewrite Hst. }
  rewrite add_change_eq. destruct (spend_loop_total _ st _ _ batch [] Hctx) as (b1 & Hb1).
  rewrite Hb1. cbn [app rbind]. apply spend_loop_spec in Hb1 as (es' & _ & _ & Hlast1).
  rewrite apply_change_eq in Happ.
  apply rbind_ok in Happ as ([b0 sp] & _ & (b0' & Hput & _)%rbind_ok).
  destruct (put_loop_ok (us_sync_mode st) st (sc_created ch) b1) as (b2 & Hb2).
  { intros e He. eapply put_loop_ser; [exact Hput|done]. }
  rewrite Hb2. cbn [rbind]. pose proof (put_loop_spec _ _ _ _ _ Hb2) as Hlast2.
  destruct (finish_change_ok b2 _ h bs Hbs) as (b3 & Hb3). rewrite Hb3.
  apply finish_change_spec in Hb3 as (bs' & Hbs' & Hlast3). rewrite Hbs in Hbs'. injection Hbs' as <-.
  exists b3. split; [done|]. constructor.
  - intros k. rewrite st_get_write_batch, Hlast3. do 2 rewrite decide_False by naive_solver.
    specialize (Hlast2 Utxo k ltac:(done)). rewrite decide_True in Hlast2 by done.
    specialize (Hu' k). destruct (created_lookup (sc_created ch) k) as [e|].
    + destruct Hlast2 as (s & Hs & ->). destruct Hu' as (s' & Hs' & ->). cbn. congruence.
    + rewrite Hlast2, Hlast1, Hu' by done. specialize (Hu k). rewrite st_get_write_batch in Hu.
      repeat case_decide; naive_solver.
  - intros k. rewrite st_get_write_batch, Hlast3, Hund'. rewrite decide_False by naive_solver.
    case_decide as Hk; [rewrite decide_True by naive_solver; done|].
    rewrite decide_False by naive_solver. specialize (Hlast2 CFUndoData k ltac:(done)).
    rewrite decide_False in Hlast2 by done. rewrite Hlast2, Hlast1 by done.
    rewrite decide_False by naive_solver. rewrite <- Hund. by rewrite st_get_write_batch.
  - intros id e Hg. unfold track. rewrite track_spent_lookup, track_created_lookup.
    unfold get_box in Hg. specialize (Hu' id).
    destruct (created_lookup (sc_created ch) id) as [x|] eqn:Ex.
    + apply created_lookup_Some in Ex as Hx. destruct Hx as [Hin <-].
      destruct Hu' as (s & Hs & Hgs). rewrite Hgs in Hg. destruct Hch as [Hok _].
      rewrite Forall_forall in Hok. rewrite (entry_roundtrip x s (Hok x Hin) Hs) in Hg.
      injection Hg as ->. left. rewrite decide_False; [done|]. intros Hsp. apply Hdisj in Hsp. congruence.
    + rewrite Hu' in Hg. case_decide as Hsp; [done|].
      destruct (Hlook id e) as [Hm|[Hm Hst]]; [|by left|by right]. unfold get_box. exact Hg.
Qed.

Lemma follows_run (st cur cur' : state) batch mp changes :
  utxo_wf (ErgoBox := ErgoBox) cur -> us_sync_mode cur = us_sync_mode st -> follows st batch mp cur ->
  run_ok cur changes -> apply_changes cur changes = Ok cur' ->
  exists batch' mp', batch_changes st batch mp changes = Ok batch' /\ follows st batch' mp' cur'.
Proof.
  revert cur batch mp. induction changes as [|[ch h] rest IH]; intros cur batch mp Hwf Hsync Hf.
  - intros _ [= <-]. eauto.
  - cbn [run_ok apply_changes batch_changes]. intros [Hch Hrest] (cur1 & Happ & Hrun)%rbind_ok.
    destruct (follows_step st cur cur1 batch mp ch h Hwf Hch Hsync Hf Happ) as (b1 & Hb1 & Hf1).
    rewrite Hb1. cbn [rbind]. rewrite Happ in Hrest. eapply (IH cur1); [| |exact Hf1|exact Hrest|exact Hrun].
    + by eapply apply_change_wf.
    + apply apply_change_spec in Happ as (? & ? & _ & _ & _ & -> & _). done.
Qed.

End UtxoBatch.
