(* ===== verification/ManagerSpec.v ===== *)
(** * What the state manager promises

    Applying blocks in one batch agrees with applying them one by one, what a
    failed application leaves behind, and which checks the manager does not
    make: spends across the blocks of a batch, and the state root. *)

From S2P Require Export Manager UtxoBatch HistoryBodies.

Local Open Scope Z_scope.

Section Spec.
Context {ErgoBox Ext Tx : Type} `{ErgoBoxLaws ErgoBox} `{TransactionLaws ErgoBox Ext Tx}
  `{ChainTypes} `{!HeaderCodec} `{Blake2b256Laws} `{BigUintBytesLaws} {DB : Type} `{StorageLaws DB}.

Abbreviation manager := (StateManager DB).
Abbreviation block_change := (FullBlock Tx * StateChange ErgoBox)%type.

(** Both components see one store. *)
Definition shared (m : manager) : Prop := us_storage (sm_utxo m) = hi_storage (sm_history m).

Lemma share_history_shared m h : shared (share_history m h).
Proof. done. Qed.
Lemma share_utxo_shared m u : shared (share_utxo m u).
Proof. done. Qed.

(** ** Blocks do not touch the boxes *)

Lemma add_block_other (s : DB) batch (block : FullBlock Tx) pc batch' cum cf k :
  add_block_to_batch batch block pc = Ok (batch', cum) ->
  cf ∉ [Headers; HeaderChain; CumulativeDifficulty; CFBlockTransactions; Extensions; AdProofs] ->
  batch_last batch' cf k = batch_last batch cf k.
Proof.
  intros (raw & txb & _ & _ & _ & Hba)%(add_block_spec s) Hcf.
  by apply (ba_other _ _ _ _ _ _ _ Hba).
Qed.

(** What a successful [append_full_block] does to the families of the UTXO
    state, and to the fields of the history. *)
Lemma append_full_block_reads (h h' : History DB) (block : FullBlock Tx) sel cf k :
  append_full_block h block = Ok (sel, h') -> cf ∈ [Utxo; CFUndoData; ErgoTreeIndex; TokenIndex] ->
  st_get (hi_storage h') cf k = st_get (hi_storage h) cf k.
Proof.
  intros ([batch cum] & Hadd & Hfin%Ok_inj)%rbind_ok Hcf. injection Hfin as _ <-.
  assert (st_get (st_write_batch (hi_storage h) batch) cf k = st_get (hi_storage h) cf k) as Hb.
  { rewrite st_get_write_batch, (add_block_other (hi_storage h) _ _ _ _ _ _ _ Hadd); [done|].
    repeat apply elem_of_cons in Hcf as [->|Hcf]; set_solver. }
  assert (cf <> Metadata) as Hne by (repeat apply elem_of_cons in Hcf as [->|Hcf]; set_solver).
  rewrite st_get_write_batch in Hb. unfold update_in_memory_state.
  repeat case_match; cbn [set_best_full set_best_header set_storage hi_storage];
    by rewrite st_get_write_batch, ?put_best_full_other, ?put_best_header_other.
Qed.

Lemma append_full_block_total (h : History DB) (block : FullBlock Tx) sel h' batch pc :
  append_full_block h block = Ok (sel, h') -> exists batch' cum, add_block_to_batch batch block pc = Ok (batch', cum).
Proof.
  intros ([b c] & Hadd & _)%rbind_ok. unfold add_block_to_batch, put_batched, put_transactions_batched in *.
  destruct (scorex_serialize_bytes (fb_header block)); [|done]. cbn [ok_or rbind] in *.
  destruct (serialize_transactions (fb_transactions block)); [|done]. cbn [rbind] in *. eauto.
Qed.

Lemma apply_change_root (u u' : UtxoState DB) (ch : StateChange ErgoBox) h :
  apply_change u ch h = Ok u' -> us_state_root u' = us_state_root u.
Proof.
  rewrite apply_change_eq.
  by intros ([? ?] & _ & (? & _ & (? & _ & <-%Ok_inj)%rbind_ok)%rbind_ok)%rbind_ok.
Qed.

(** ** One block *)

(** The outcome of [apply_block] on every branch.  A block that does not follow
    the UTXO height is refused; a block that cannot be serialised changes
    nothing; otherwise the block is stored first, and when its state change is
    then refused the history has advanced while the boxes and their height have
    not. *)
Theorem apply_block_decides m block change :
  shared m -> us_state_root (sm_utxo m) = replicate 32 0 ->
  let height := h_height (fb_header block) in
  let '(r, m') := apply_block m block change in
  if negb (height =? u32 (us_height (sm_utxo m) + 1)) then
    r = Err (InvalidTransition "Expected height") /\ m' = m
  else
    match append_full_block (sm_history m) block with
    | Err e => r = Err e /\ m' = m
    | Ok (selection, h) =>
        match apply_change (utxo_with_storage (sm_utxo m) (hi_storage h)) change height with
        | Err e =>
            r = Err e /\ sm_history m' = h /\ us_height (sm_utxo m') = us_height (sm_utxo m) /\
            (forall id, get_box (ErgoBox := ErgoBox) (sm_utxo m') id = get_box (sm_utxo m) id) /\
            best_full_block_height h = Z.max height (best_full_block_height (sm_history m))
        | Ok u =>
            r = Ok selection /\ sm_utxo m' = u /\ us_height u = height /\
            best_full_block_height (sm_history m') = Z.max height (best_full_block_height (sm_history m))
        end
    end.
Proof.
  intros Hsh Hroot. cbn zeta. unfold apply_block. destruct (negb _); [done|].
  destruct (append_full_block (sm_history m) block) as [[sel h]|e] eqn:Happ; [|done].
  assert (best_full_block_height h =
    Z.max (h_height (fb_header block)) (best_full_block_height (sm_history m))) as Hfull.
  { apply rbind_ok in Happ as ([b c] & _ & Hfin%Ok_inj). injection Hfin as _ <-.
    unfold update_in_memory_state. repeat case_match; cbn in *; zify_bool; lia. }
  cbn [sm_utxo share_history]. destruct (apply_change _ change _) as [u|e] eqn:Hch.
  - assert (us_state_root u = replicate 32 0) as Hru
      by (rewrite (apply_change_root _ _ _ _ Hch); exact Hroot).
    apply apply_change_spec in Hch as (es & bs & _ & _ & Hh & _).
    cbn [sm_utxo share_utxo]. unfold state_root_mismatch. rewrite Hru. cbn [forallb].
    destruct (sm_verification _); cbn; rewrite ?Hfull; done.
  - split; [done|]. split; [done|]. split; [done|]. split; [|done]. intros id. unfold get_box.
    cbn [sm_utxo share_history utxo_with_storage us_storage].
    rewrite (append_full_block_reads _ _ _ _ _ _ Happ) by set_solver. by rewrite <- Hsh.
Qed.

(** ** Many blocks *)

(** The blocks applied one after the other. *)
Fixpoint apply_all_blocks (m : manager) (blocks : list block_change) : result manager StateError :=
  match blocks with
  | [] => Ok m
  | (block, change) :: rest =>
      match apply_block m block change with
      | (Ok _, m') => apply_all_blocks m' rest
      | (Err e, _) => Err e
      end
  end.

(** Each change, when its turn comes, creates well-formed new boxes. *)
Fixpoint changes_ok (m : manager) (blocks : list block_change) : Prop :=
  match blocks with
  | [] => True
  | (block, change) :: rest =>
      change_ok (sm_utxo m) change /\
      match apply_block m block change with (Ok _, m') => changes_ok m' rest | (Err _, _) => True end
  end.

(** A manager in working order: one store, well-formed boxes, and the initial
    state root (which no operation of the manager changes, see below). *)
Record manager_ok (m : manager) : Prop := {
  mo_shared : shared m;
  mo_boxes : utxo_wf (ErgoBox := ErgoBox) (sm_utxo m);
  mo_root : us_state_root (sm_utxo m) = replicate 32 0
}.

(** The parts of a successful [apply_block]. *)
Lemma apply_block_ok m block change sel m' :
  us_state_root (sm_utxo m) = replicate 32 0 ->
  apply_block m block change = (Ok sel, m') ->
  h_height (fb_header block) = u32 (us_height (sm_utxo m) + 1) /\
  exists h, append_full_block (sm_history m) block = Ok (sel, h) /\
    apply_change (utxo_with_storage (sm_utxo m) (hi_storage h)) change (h_height (fb_header block)) =
      Ok (sm_utxo m') /\
    m' = share_utxo (share_history m h) (sm_utxo m').
Proof.
  intros Hroot. unfold apply_block. destruct (negb _) eqn:Hn; [done|].
  apply negb_false_iff, Z.eqb_eq in Hn. split; [done|].
  destruct (append_full_block (sm_history m) block) as [[sel' h]|e]; [|done]. exists h.
  cbn [sm_utxo share_history] in *. destruct (apply_change _ change _) as [u|e] eqn:Hch; [|done].
  assert (us_state_root u = replicate 32 0) as Hru by (rewrite (apply_change_root _ _ _ _ Hch); exact Hroot).
  unfold state_root_mismatch in *. cbn [sm_utxo share_utxo] in *. rewrite Hru in *.
  destruct (sm_verification _); cbn in *; naive_solver.
Qed.

Lemma utxo_with_storage_wf (u : UtxoState DB) s :
  (forall k, st_get s Utxo k = st_get (us_storage u) Utxo k) ->
  utxo_wf (ErgoBox := ErgoBox) u -> utxo_wf (ErgoBox := ErgoBox) (utxo_with_storage u s).
Proof. intros Hs Hwf k v. cbn. rewrite Hs. apply Hwf. Qed.

Lemma follows_ext (st cur : UtxoState DB) batch batch' mp (s : DB) :
  (forall cf k, cf ∈ [Utxo; CFUndoData] -> batch_last batch' cf k = batch_last batch cf k) ->
  (forall cf k, cf ∈ [Utxo; CFUndoData] -> st_get s cf k = st_get (us_storage cur) cf k) ->
  follows (ErgoBox := ErgoBox) st batch mp cur -> follows st batch' mp (utxo_with_storage cur s).
Proof.
  intros Hb Hs [Hu Hund Hl]. constructor.
  - intros k. cbn. rewrite st_get_write_batch, Hb, Hs, <- Hu, st_get_write_batch by set_solver. done.
  - intros k. cbn. rewrite st_get_write_batch, Hb, Hs, <- Hund, st_get_write_batch by set_solver. done.
  - intros id e Hg. apply Hl. unfold get_box in *. cbn in Hg. by rewrite Hs in Hg by set_solver.
Qed.

(** One block of the batch follows one [apply_block]. *)
Lemma manager_follows_step m mi block change sel mj batch cum mp :
  manager_ok mi -> us_sync_mode (sm_utxo mi) = us_sync_mode (sm_utxo m) ->
  follows (sm_utxo m) batch mp (sm_utxo mi) -> change_ok (sm_utxo mi) change ->
  apply_block mi block change = (Ok sel, mj) ->
  exists batch' cum', batch_block m (batch, cum, mp) (block, change) = Ok (batch', cum', track mp change) /\
    follows (sm_utxo m) batch' (track mp change) (sm_utxo mj) /\
    manager_ok mj /\ us_sync_mode (sm_utxo mj) = us_sync_mode (sm_utxo m) /\
    us_height (sm_utxo mj) = h_height (fb_header block) /\
    h_height (fb_header block) = u32 (us_height (sm_utxo mi) + 1).
Proof.
  intros [Hsh Hwf Hroot] Hsync Hf Hch (Hh & h & Happ & Hap & Hmj)%apply_block_ok; [|done].
  destruct (append_full_block_total _ _ _ _ batch cum Happ) as (b1 & cum' & Hb1).
  assert (forall cf k, cf ∈ [Utxo; CFUndoData] ->
    st_get (hi_storage h) cf k = st_get (us_storage (sm_utxo mi)) cf k) as Hreads.
  { intros cf k Hcf. rewrite (append_full_block_reads _ _ _ _ _ _ Happ) by set_solver. by rewrite <- Hsh. }
  set (cur := utxo_with_storage (sm_utxo mi) (hi_storage h)) in *.
  assert (follows (sm_utxo m) b1 mp cur) as Hf1.
  { eapply follows_ext; [|exact Hreads|exact Hf]. intros cf k Hcf.
    rewrite (add_block_other (hi_storage h) _ _ _ _ _ _ _ Hb1); [done|].
    repeat apply elem_of_cons in Hcf as [->|Hcf]; set_solver. }
  assert (utxo_wf (ErgoBox := ErgoBox) cur) as Hwf1
    by (apply utxo_with_storage_wf; [intros; by apply Hreads; set_solver|done]).
  assert (change_ok cur change) as Hch1.
  { destruct Hch as [? Hnew]. split; [done|]. intros e He. cbn. rewrite Hreads by set_solver. by apply Hnew. }
  destruct (follows_step (sm_utxo m) cur (sm_utxo mj) b1 mp change (h_height (fb_header block))
    Hwf1 Hch1 Hsync Hf1 Hap) as (b2 & Hb2 & Hf2).
  exists b2, cum'. split.
  { unfold batch_block. rewrite Hb1. cbn [rbind]. rewrite Hb2. done. }
  split; [done|].
  pose proof Hap as (_ & _ & _ & _ & Hhj & Hsj & _)%apply_change_spec.
  split; [|split; [by rewrite Hsj|done]].
  constructor; [by rewrite Hmj|by eapply apply_change_wf|].
  rewrite (apply_change_root _ _ _ _ Hap). exact Hroot.
Qed.

Lemma manager_follows m mi blocks batch cum mp m' :
  manager_ok mi -> us_sync_mode (sm_utxo mi) = us_sync_mode (sm_utxo m) ->
  follows (sm_utxo m) batch mp (sm_utxo mi) -> changes_ok mi blocks ->
  apply_all_blocks mi blocks = Ok m' ->
  exists batch' cum' mp', rfold (batch_block m) (batch, cum, mp) blocks = Ok (batch', cum', mp') /\
    follows (sm_utxo m) batch' mp' (sm_utxo m') /\
    contiguous (u32 (us_height (sm_utxo mi) + 1)) blocks = true /\
    us_height (sm_utxo m') = from_option (fun b => h_height (fb_header b.1)) (us_height (sm_utxo mi)) (last blocks).
Proof.
  revert mi batch cum mp. induction blocks as [|[block change] rest IH]; intros mi batch cum mp Hok Hsync Hf.
  { intros _ [= <-]. exists batch, cum, mp. done. }
  cbn [changes_ok apply_all_blocks rfold contiguous]. intros [Hch Hrest] Hrun.
  destruct (apply_block mi block change) as [[sel|e] mj] eqn:Hap; [|done].
  destruct (manager_follows_step m mi block change sel mj batch cum mp Hok Hsync Hf Hch Hap)
    as (b1 & c1 & Hb1 & Hf1 & Hok1 & Hsync1 & Hh1 & Hhb).
  rewrite Hb1. cbn [rbind].
  destruct (IH mj b1 c1 (track mp change) Hok1 Hsync1 Hf1 Hrest Hrun) as (b2 & c2 & mp2 & Hb2 & Hf2 & Hc2 & Hl2).
  exists b2, c2, mp2. split; [exact Hb2|]. split; [exact Hf2|]. split.
  - rewrite <- Hhb, Z.eqb_refl. cbn [andb]. by rewrite <- Hh1.
  - rewrite Hl2, last_cons. destruct (last rest); [done|]. by rewrite Hh1.
Qed.

(** The end of [apply_blocks_batched] leaves the boxes and undo data of its
    batch. *)
Lemma batched_reads m blocks block change rest batch cum mp :
  blocks = (block, change) :: rest ->
  h_height (fb_header block) = u32 (us_height (sm_utxo m) + 1) ->
  contiguous (h_height (fb_header block)) blocks = true ->
  rfold (batch_block m) ([], parent_cumulative (hi_storage (sm_history m)) (h_height (fb_header block))
    (h_parent_id (fb_header block)), ∅) blocks = Ok (batch, cum, mp) ->
  exists sel mb, apply_blocks_batched m blocks = Ok (sel, mb) /\
    us_height (sm_utxo mb) = h_height (fb_header (from_option fst block (last blocks))) /\
    (forall cf k, cf <> Metadata -> st_get (us_storage (sm_utxo mb)) cf k =
       st_get (st_write_batch (hi_storage (sm_history m)) batch) cf k).
Proof.
  intros -> Hh Hc Hloop. unfold apply_blocks_batched. rewrite (proj2 (Z.eqb_eq _ _) Hh), Hc, Hloop.
  cbn [rbind]. eexists _, _. split; [done|]. split; [done|]. intros cf k Hcf.
  unfold update_in_memory_state, execute_batch.
  repeat case_match; cbn [share_utxo share_history sm_utxo update_height_in_memory utxo_with_storage us_storage
    set_best_full set_best_header set_storage hi_storage];
    by rewrite !st_get_write_batch, ?put_best_full_other, ?put_best_header_other.
Qed.

(** C6: Whenever the blocks apply one after the other, applying them in one batch
    succeeds too, with the same boxes, the same undo data (so that a rollback
    undoes the same) and the same height. *)
Theorem batched_blocks_refine m blocks m' :
  manager_ok m -> blocks <> [] -> changes_ok m blocks -> apply_all_blocks m blocks = Ok m' ->
  exists sel mb, apply_blocks_batched m blocks = Ok (sel, mb) /\
    us_height (sm_utxo mb) = us_height (sm_utxo m') /\
    (forall id, get_box (ErgoBox := ErgoBox) (sm_utxo mb) id = get_box (sm_utxo m') id) /\
    (forall k, st_get (us_storage (sm_utxo mb)) CFUndoData k = st_get (us_storage (sm_utxo m')) CFUndoData k).
Proof.
  intros Hok Hne Hch Hrun. destruct blocks as [|[block change] rest] eqn:Eb; [done|]. rewrite <- Eb in *.
  destruct (manager_follows m m blocks [] (parent_cumulative (hi_storage (sm_history m))
    (h_height (fb_header block)) (h_parent_id (fb_header block))) ∅ m' Hok eq_refl (follows_start _) Hch Hrun)
    as (batch & cum & mp & Hloop & [Hu Hund _] & Hc & Hlast).
  assert (h_height (fb_header block) = u32 (us_height (sm_utxo m) + 1)) as Hh.
  { rewrite Eb in Hc. cbn [contiguous] in Hc. apply andb_true_iff in Hc as [Hc%Z.eqb_eq _]. done. }
  destruct (batched_reads m blocks block change rest batch cum mp Eb Hh) as (sel & mb & Hb & Hhb & Hreads);
    [by rewrite Hh|done|].
  exists sel, mb. split; [done|]. rewrite (mo_shared _ Hok) in Hu, Hund. split; [|split].
  - rewrite Hhb, Hlast. destruct (last blocks) as [bl|] eqn:El; [done|].
    apply last_None in El. by rewrite El in Eb.
  - intros id. unfold get_box. by rewrite Hreads, Hu.
  - intros k. by rewrite Hreads, Hund.
Qed.

(** A batch does not see what its earlier blocks spent: two blocks that spend
    the same stored box are refused one after the other, and accepted in one
    batch. *)
Theorem batch_accepts_double_spend m b1 ch1 b2 ch2 sel m1 u2 id :
  manager_ok m -> change_ok (sm_utxo m) ch1 -> change_ok (sm_utxo m) ch2 ->
  apply_block m b1 ch1 = (Ok sel, m1) -> is_ok (append_full_block (sm_history m) b2) = true ->
  h_height (fb_header b2) = u32 (h_height (fb_header b1) + 1) ->
  apply_change (sm_utxo m) ch2 (h_height (fb_header b2)) = Ok u2 ->
  id ∈ sc_spent ch1 -> id ∈ sc_spent ch2 -> 
  (exists e, (apply_block m1 b2 ch2).1 = Err e) /\
  is_ok (apply_blocks_batched m [(b1, ch1); (b2, ch2)]) = true.
Proof.
  intros Hok Hch1 Hch2 Hap1 Hser2 Hh2 Hap2 Hid1 Hid2.
  destruct (manager_follows_step m m b1 ch1 sel m1 [] (parent_cumulative (hi_storage (sm_history m))
    (h_height (fb_header b1)) (h_parent_id (fb_header b1))) ∅ Hok eq_refl (follows_start _) Hch1 Hap1)
    as (bt1 & c1 & Hb1 & _ & Hok1 & _ & Hhm1 & Hh1). split.
  - pose proof Hap1 as (_ & h & Happ & Hap & Hm1)%apply_block_ok; [|apply Hok].
    unfold apply_block. destruct (negb _); [by eexists|].
    destruct (append_full_block (sm_history m1) b2) as [[sel2 h2]|e] eqn:Ha2; [|by eexists].
    edestruct (apply_change_absent (sm_utxo (share_history m1 h2)) ch2 (h_height (fb_header b2)) id Hid2)
      as (e & ->); [|by eexists].
    cbn [sm_utxo share_history utxo_with_storage us_storage].
    rewrite (append_full_block_reads _ _ _ _ _ _ Ha2), <- (mo_shared _ Hok1) by set_solver.
    pose proof Hap as (es & bs & Hes & _ & _ & _ & Hu & _)%apply_change_spec. specialize (Hu id).
    assert (created_lookup (sc_created ch1) id = None) as Hn.
    { apply created_lookup_None. intros (x & -> & Hx)%list_elem_of_fmap.
      destruct (Forall2_elem_l _ _ _ _ Hes Hid1) as (y & _ & Hy). unfold get_box in Hy.
      cbn [utxo_with_storage us_storage] in Hy.
      rewrite (append_full_block_reads _ _ _ _ _ _ Happ), <- (mo_shared _ Hok) in Hy by set_solver.
      destruct Hch1 as [_ Hnew]. by rewrite (Hnew x Hx) in Hy. }
    rewrite Hn in Hu. by rewrite decide_True in Hu.
  - destruct (append_full_block (sm_history m) b2) as [[sel2 h2]|e] eqn:Ha2; [|done].
    destruct (append_full_block_total _ _ _ _ bt1 c1 Ha2) as (bt2 & c2 & Hadd2).
    destruct (add_change_stale (sm_utxo m) u2 bt2 ch1 ch2 (h_height (fb_header b2)) (mo_boxes _ Hok) Hch1 Hch2 Hap2)
      as (bt3 & Hbt3).
    destruct (batched_reads m [(b1, ch1); (b2, ch2)] b1 ch1 [(b2, ch2)] bt3 c2 (track (track ∅ ch1) ch2) eq_refl Hh1)
      as (s & mb & -> & _); [| |done].
    + cbn [contiguous]. by rewrite Hh2, !Z.eqb_refl.
    + cbn [rfold]. rewrite Hb1. cbn [rbind]. unfold batch_block at 1. rewrite Hadd2. cbn [rbind].
      rewrite Hbt3. done.
Qed.

End Spec.
