(* ===== verification/ManagerRoot.v ===== *)
(** * The state root is never verified

    No operation of the manager computes a state root: it keeps its initial
    value in every reachable manager, also across restarts, so all three
    verification modes accept the same blocks. *)

From S2P Require Export ManagerSpec.

Local Open Scope Z_scope.

Section Root.
Context {ErgoBox Ext Tx : Type} `{ErgoBoxLaws ErgoBox} `{TransactionLaws ErgoBox Ext Tx}
  `{ChainTypes} `{!HeaderCodec} `{Blake2b256Laws} `{BigUintBytesLaws} {DB : Type} `{StorageLaws DB}.

Abbreviation manager := (StateManager DB).
Abbreviation block_change := (FullBlock Tx * StateChange ErgoBox)%type.

Definition k_state_root : bytes := str_bytes "state_root".
#[local] Arguments k_state_root : simpl never.

(** A batch that does not write the key, a store that does not hold it. *)
Definition silent (b : WriteBatch) : Prop := batch_last b Metadata k_state_root = None.
Definition rootless (s : DB) : Prop := st_get s Metadata k_state_root = None.

Lemma silent_put b cf k v : silent b -> cf <> Metadata \/ k <> k_state_root -> silent (batch_put b cf k v).
Proof. unfold silent. intros Hb Hne. rewrite batch_last_put. by rewrite decide_False by naive_solver. Qed.

Lemma silent_delete b cf k : silent b -> cf <> Metadata -> silent (batch_delete b cf k).
Proof. unfold silent. intros Hb Hne. rewrite batch_last_delete. by rewrite decide_False by naive_solver. Qed.

Lemma silent_index add (st : UtxoState DB) b (x : ErgoBox) id :
  silent b -> silent (index_box add st b x id).
Proof. unfold silent. by rewrite index_box_last. Qed.

Lemma silent_best_header b id height cum : silent b -> silent (put_best_header b id height cum).
Proof. unfold silent, put_best_header. intros Hb. by store_reads. Qed.

Lemma silent_best_full b id height : silent b -> silent (put_best_full b id height).
Proof. unfold silent, put_best_full. intros Hb. by store_reads. Qed.

Lemma rootless_write (s : DB) b : rootless s -> silent b -> rootless (st_write_batch s b).
Proof. unfold rootless. intros Hs Hb. by rewrite st_get_write_batch, Hb. Qed.

#[local] Hint Resolve silent_put silent_delete silent_index silent_best_header silent_best_full
  rootless_write : core.
#[local] Hint Extern 1 (_ <> Metadata) => discriminate : core.
#[local] Hint Extern 1 (_ <> Metadata \/ _) => first [left; discriminate|right; vm_compute; discriminate] : core.
#[local] Hint Extern 1 (silent []) => reflexivity : core.

(** ** The UTXO state *)

Lemma spend_silent look (st : UtxoState DB) ids b0 s0 b s :
  silent b0 -> spend_loop (ErgoBox := ErgoBox) look st (b0, s0) ids = Ok (b, s) -> silent b.
Proof.
  intros H0' (es & _ & _ & Hl)%spend_loop_spec. unfold silent. rewrite Hl by done.
  by rewrite decide_False by naive_solver.
Qed.

Lemma put_silent skip (st : UtxoState DB) es b0 b :
  silent b0 -> put_loop (ErgoBox := ErgoBox) skip st b0 es = Ok b -> silent b.
Proof.
  intros H0' Hp. pose proof (put_loop_spec _ _ _ _ _ Hp Metadata k_state_root ltac:(done)) as Hl.
  rewrite decide_False in Hl by done. unfold silent. by rewrite Hl.
Qed.

Lemma finish_silent b0 (u : UndoData ErgoBox) h b : silent b0 -> finish_change b0 u h = Ok b -> silent b.
Proof. intros H0'. unfold finish_change. intros (bs & _ & <-%Ok_inj)%rbind_ok. auto. Qed.

Lemma apply_change_rootless (u u' : UtxoState DB) (ch : StateChange ErgoBox) h :
  rootless (us_storage u) -> apply_change u ch h = Ok u' -> rootless (us_storage u').
Proof.
  rewrite apply_change_eq. intros Hr ([b1 s1] & Hb1 & (b2 & Hb2 & (b3 & Hb3 & <-%Ok_inj)%rbind_ok)%rbind_ok)%rbind_ok.
  cbn [us_storage]. apply rootless_write; [done|]. eapply finish_silent; [|exact Hb3].
  eapply put_silent; [|exact Hb2]. by eapply spend_silent; [|exact Hb1].
Qed.

Lemma add_change_silent (u : UtxoState DB) b0 (ch : StateChange ErgoBox) h mp b :
  silent b0 -> add_change_to_batch_with_context u b0 ch h mp = Ok b -> silent b.
Proof.
  rewrite add_change_eq. intros H0' ([b1 s1] & Hb1 & (b2 & Hb2 & Hb3)%rbind_ok)%rbind_ok.
  eapply finish_silent; [|exact Hb3]. eapply put_silent; [|exact Hb2]. by eapply spend_silent; [|exact Hb1].
Qed.

Lemma rollback_one_root (u u' : UtxoState DB) h :
  rootless (us_storage u) -> rollback_one_block (ErgoBox := ErgoBox) u h = Ok u' ->
  rootless (us_storage u') /\ us_state_root u' = us_state_root u.
Proof.
  unfold rollback_one_block. intros Hr (bs & _ & (und & _ & (b1 & Hb1 & (b2 & Hb2 & <-%Ok_inj)%rbind_ok)%rbind_ok)%rbind_ok)%rbind_ok.
  split; [|done]. cbn [us_storage]. apply rootless_write; [done|]. apply silent_delete; [|done].
  fold (put_loop false u b1 (undo_spent_boxes und)) in Hb2. eapply put_silent; [|exact Hb2].
  eapply (rfold_inv silent); [|intros acc x acc' _ Hacc; cbn beta|exact Hb1]; [done|].
  intros ([e|] & _ & <-%Ok_inj)%rbind_ok; auto.
Qed.

Lemma rollback_blocks_root hs (u : UtxoState DB) :
  rootless (us_storage u) ->
  rootless (us_storage (rollback_blocks (ErgoBox := ErgoBox) u hs).2) /\
  us_state_root (rollback_blocks (ErgoBox := ErgoBox) u hs).2 = us_state_root u.
Proof.
  revert u. induction hs as [|h hs IH]; intros u Hr; cbn [rollback_blocks]; [done|].
  destruct (rollback_one_block u h) as [u'|e] eqn:E; [|done].
  destruct (rollback_one_root _ _ _ Hr E) as [Hr' Hs']. rewrite <- Hs'. by apply IH.
Qed.

Lemma rollback_root (u : UtxoState DB) h :
  rootless (us_storage u) ->
  rootless (us_storage (rollback (ErgoBox := ErgoBox) u h).2) /\
  us_state_root (rollback (ErgoBox := ErgoBox) u h).2 = us_state_root u.
Proof.
  intros Hr. unfold rollback. case_match; [done|].
  destruct (rollback_blocks_root (rollback_heights h (Z.to_nat (us_height u - h))) u Hr) as [Hr' Hs'].
  destruct (rollback_blocks _ _) as [[[]|e] u']; cbn [snd us_storage us_state_root] in *; [|done].
  split; [|done]. apply rootless_write; [done|]. apply silent_put; [done|]. right. by vm_compute.
Qed.

(** ** The history *)

Lemma select_rootless (h : History DB) s b id height cum :
  rootless s -> silent b -> rootless (hi_storage (select h s b id height cum)).
Proof. intros. unfold select. case_match; cbn; auto. Qed.

Lemma append_header_rootless (h : History DB) header raw :
  rootless (hi_storage h) -> rootless (hi_storage (append_header_internal h header raw).2).
Proof.
  intros Hr. unfold append_header_internal. cbn zeta.
  destruct (contains_header _ _); [done|]. destruct (_ && _); [done|].
  destruct raw as [raw|].
  - assert (rootless (put_with_bytes (hi_storage h) header raw)) as Hp
      by (apply rootless_write; [done|]; unfold put_with_bytes_batched; auto).
    unfold store_cumulative_difficulty.
    destruct (_ >? _); cbn [snd set_best_header set_storage hi_storage]; auto 6.
  - destruct (put_header (hi_storage h) header) as [s|e] eqn:E; [|done].
    assert (rootless s) as Hp.
    { unfold put_header, put_batched in E.
      apply rbind_ok in E as (b & (bs & _ & <-%Ok_inj)%rbind_ok & <-%Ok_inj). apply rootless_write; [done|]. auto. }
    unfold store_cumulative_difficulty.
    destruct (_ >? _); cbn [snd set_best_header set_storage hi_storage]; auto 6.
Qed.

Lemma append_headers_rootless (h : History DB) l :
  rootless (hi_storage h) -> rootless (hi_storage (append_headers_batched h l).2).
Proof.
  intros Hr. rewrite batched_state. destruct l as [|[first raw] l]; [done|].
  destruct (rfold _ _ _) as [acc|] eqn:E; [|done]. apply select_rootless; [done|].
  eapply (rfold_inv (fun acc => silent (ba_batch acc))) in E; [exact E|done|].
  intros a [hd rw] a' _ Ha. unfold batch_header. case_match; [by intros <-%Ok_inj|].
  case_match; [done|]. intros <-%Ok_inj. cbn. unfold store_cumulative_difficulty, put_with_bytes_batched. auto.
Qed.

Lemma add_block_silent (s : DB) b0 (block : FullBlock Tx) pc b cum :
  silent b0 -> add_block_to_batch b0 block pc = Ok (b, cum) -> silent b.
Proof. intros H0' Hb. unfold silent. rewrite (add_block_other s _ _ _ _ _ _ _ Hb); [done|]. set_solver. Qed.

Lemma update_memory_storage (h : History DB) id height cum :
  hi_storage (update_in_memory_state h id height cum) = hi_storage h.
Proof. unfold update_in_memory_state. by repeat case_match. Qed.

Lemma append_full_rootless (h h' : History DB) (block : FullBlock Tx) sel :
  rootless (hi_storage h) -> append_full_block h block = Ok (sel, h') -> rootless (hi_storage h').
Proof.
  intros Hr ([b cum] & Hb & Hfin%Ok_inj)%rbind_ok. injection Hfin as _ <-.
  rewrite update_memory_storage. cbn. apply (add_block_silent (hi_storage h)) in Hb; [|done].
  apply rootless_write; [done|]. repeat case_match; auto.
Qed.

(** ** The manager *)

Record root_inv (m : manager) : Prop := {
  ri_shared : shared m;
  ri_root : us_state_root (sm_utxo m) = replicate 32 0;
  ri_rootless : rootless (sm_storage m)
}.

Lemma root_share_history m h : root_inv m -> rootless (hi_storage h) -> root_inv (share_history m h).
Proof. by intros [] Hh. Qed.

Lemma root_share_utxo m u :
  us_state_root u = replicate 32 0 -> rootless (us_storage u) -> root_inv (share_utxo m u).
Proof. by intros. Qed.

Lemma root_rollback m h : root_inv m -> root_inv (manager_rollback (ErgoBox := ErgoBox) m h).2.
Proof.
  intros [Hsh Hroot Hr]. unfold sm_storage in Hr. rewrite <- Hsh in Hr.
  pose proof (rollback_root (sm_utxo m) h Hr) as [Hr' Hs']. unfold manager_rollback.
  destruct (rollback _ _) as [r u]. cbn [snd] in *. apply root_share_utxo; [by rewrite Hs'|done].
Qed.

Lemma root_apply_block m block change :
  root_inv m -> root_inv (apply_block m block change).2.
Proof.
  intros Hm. unfold apply_block. case_match; [done|].
  destruct (append_full_block (sm_history m) block) as [[sel h]|e] eqn:Happ; [|done].
  assert (rootless (hi_storage h)) as Hh by (by eapply append_full_rootless; [apply Hm|exact Happ]).
  pose proof (root_share_history m h Hm Hh) as Hm1.
  destruct (apply_change _ change _) as [u|e] eqn:Hch; [|done].
  assert (root_inv (share_utxo (share_history m h) u)) as Hm2.
  { apply root_share_utxo; [|by eapply apply_change_rootless; [|exact Hch]].
    rewrite (apply_change_root _ _ _ _ Hch). apply Hm. }
  repeat case_match; try done. by apply root_rollback.
Qed.

Lemma root_batched m blocks sel m' :
  root_inv m -> apply_blocks_batched (ErgoBox := ErgoBox) (Tx := Tx) m blocks = Ok (sel, m') -> root_inv m'.
Proof.
  intros Hm. unfold apply_blocks_batched. destruct blocks as [|[b ch] rest]; [by intros [= _ <-]|].
  do 2 (case_match; [|done]). intros ([[batch cum] mp] & Hloop & Hm'%Ok_inj)%rbind_ok. injection Hm' as _ <-.
  assert (silent batch) as Hs.
  { eapply (rfold_inv (fun acc => silent acc.1.1)) in Hloop; [exact Hloop|done|].
    intros [[b0 c0] m0] [blk chg] [[b1 c1] m1'] _ Ha. unfold batch_block.
    intros ([b2 c2] & Hb2 & (b3 & Hb3 & Heq%Ok_inj)%rbind_ok)%rbind_ok. injection Heq as <- _ _. cbn [fst] in *.
    eapply add_change_silent; [|exact Hb3]. by eapply (add_block_silent (sm_storage m)); [|exact Hb2]. }
  set (h := update_in_memory_state _ _ _ _).
  assert (rootless (hi_storage h)) as Hh.
  { unfold h. rewrite update_memory_storage. cbn. apply rootless_write; [apply Hm|]. repeat case_match; auto. }
  destruct (root_share_history m h Hm Hh) as [Hsh Hroot Hr]. constructor; done.
Qed.

(** Reachable managers. *)
Inductive manager_step (m : manager) : manager -> Prop :=
  | ms_header header : manager_step m (apply_header m header).2
  | ms_header_bytes header raw : manager_step m (apply_header_with_bytes m header raw).2
  | ms_headers l : manager_step m (apply_headers_batched m l).2
  | ms_block block change : manager_step m (apply_block (Tx := Tx) (ErgoBox := ErgoBox) m block change).2
  | ms_blocks blocks sel m' :
      apply_blocks_batched (Tx := Tx) (ErgoBox := ErgoBox) m blocks = Ok (sel, m') -> manager_step m m'
  | ms_change change h m' : apply_state_change (ErgoBox := ErgoBox) m change h = Ok m' -> manager_step m m'
  | ms_rollback h : manager_step m (manager_rollback (ErgoBox := ErgoBox) m h).2
  | ms_mode mode : manager_step m (set_verification_mode m mode)
  | ms_parameters a b : manager_step m (update_parameters_for_height_range (Tx := Tx) m a b)
  | ms_restart m' : manager_init (Tx := Tx) (ErgoBox := ErgoBox) (sm_storage m) = Ok m' -> manager_step m m'.

Inductive manager_reachable : manager -> Prop :=
  | mr_new s v : (forall cf k, st_get s cf k = None) -> manager_reachable (with_verification s v)
  | mr_step m m' : manager_reachable m -> manager_step m m' -> manager_reachable m'.

Lemma root_parameters m p : root_inv m -> root_inv (set_parameters m p).
Proof. by intros []. Qed.

Lemma root_update_at m x : root_inv m -> root_inv (update_parameters_at (Tx := Tx) m x).
Proof.
  intros Hm. unfold update_parameters_at, update_parameters_from_block.
  repeat case_match; try done; by apply root_parameters.
Qed.

Lemma root_restart (s : DB) m' :
  rootless s -> manager_init (Tx := Tx) (ErgoBox := ErgoBox) s = Ok m' -> root_inv m'.
Proof.
  intros Hs. unfold manager_init. set (m := mkStateManager _ _ _ _).
  assert (root_inv m) as Hm.
  { constructor; [done| |exact Hs]. unfold m, init_from_storage. cbn [sm_utxo us_state_root utxo_new].
    unfold rootless, k_state_root in Hs. by rewrite Hs. }
  assert (root_inv (check_and_recover_utxo_state (Tx := Tx) (ErgoBox := ErgoBox) m).2) as Hc.
  { unfold check_and_recover_utxo_state. repeat case_match; try done; by apply root_rollback. }
  destruct (check_and_recover_utxo_state m) as [[[]|e] m1]; [|done]. intros <-%Ok_inj.
  unfold init_parameters_from_storage. case_match; [done|]. by apply root_parameters.
Qed.

Lemma reachable_root m : manager_reachable m -> root_inv m.
Proof.
  induction 1 as [s v Hs|m m' _ Hm Hstep]; [by constructor; unfold rootless, sm_storage; cbn|].
  destruct Hstep as [header|header raw|l|b c|blocks sel m' Hb|c h m' Hc|h|mode|a b|m' Hi].
  - apply root_share_history; [done|]. apply append_header_rootless, Hm.
  - apply root_share_history; [done|]. apply append_header_rootless, Hm.
  - apply root_share_history; [done|]. apply append_headers_rootless, Hm.
  - by apply root_apply_block.
  - by eapply root_batched.
  - apply rbind_ok in Hc as (u & Hu & <-%Ok_inj). apply root_share_utxo.
    + rewrite (apply_change_root _ _ _ _ Hu). apply Hm.
    + eapply apply_change_rootless; [|exact Hu]. rewrite (ri_shared _ Hm). apply Hm.
  - by apply root_rollback.
  - destruct Hm. by constructor.
  - unfold update_parameters_for_height_range. generalize (seqZ a (b - a + 1)). intros xs. revert m Hm.
    induction xs as [|x xs IH]; intros m Hm; [done|]. cbn [fold_left]. by apply IH, root_update_at.
  - eapply root_restart; [|exact Hi]. apply Hm.
Qed.

(** No reachable manager verifies a state root: in every mode, enforcing
    included, [apply_block] accepts the same blocks with the same effect as when
    it is told to skip the verification. *)
Theorem state_root_never_verified m mode block (change : StateChange ErgoBox) :
  manager_reachable m ->
  let enforced := apply_block (Tx := Tx) (set_verification_mode m mode) block change in
  let skipped := apply_block (set_verification_mode m RV_Skip) block change in
  enforced.1 = skipped.1 /\ sm_utxo enforced.2 = sm_utxo skipped.2 /\
  sm_history enforced.2 = sm_history skipped.2.
Proof.
  intros Hm%reachable_root. cbn zeta. unfold apply_block. cbn [set_verification_mode sm_utxo sm_history].
  destruct (negb _); [done|].
  destruct (append_full_block (sm_history m) block) as [[sel h]|e] eqn:Happ; [|done].
  destruct (apply_change _ change _) as [u|e] eqn:Hch; [|done].
  assert (us_state_root u = replicate 32 0) as Hru
    by (rewrite (apply_change_root _ _ _ _ Hch); apply Hm).
  unfold state_root_mismatch. cbn [sm_utxo share_utxo]. rewrite Hru.
  by destruct mode.
Qed.

End Root.

(** ** A manager with two blocks

    The theorems about the state manager at a concrete manager: one block is
    applied, a second one is refused or applied, alone or in a batch. *)

Module ManagerExample.
Import Mem Toy HistoryToy HistoryExample BodiesExample.

Abbreviation state := (StateManager Mem.t).

Definition toy_apply (m : state) (b : FullBlock toy_tx) (ch : StateChange toy_box) :
    result ChainSelection StateError * state := apply_block m b ch.

Definition box (i : Z) : toy_box := mk_toy_box i 5 77 None.
Definition ent (i h : Z) : BoxEntry toy_box := mkBoxEntry (box i) h (replicate 32 3) 0.

Abbreviation m0 := (with_verification Mem.empty RV_Enforce).
Definition g1 : FullBlock toy_tx := block_of (toy_hd genesis_id easy 1).
Definition create1 : StateChange toy_box := mkStateChange [ent 1 1] [].
Definition m1 : state := (toy_apply m0 g1 create1).2.

(** Two blocks that spend box 1. *)
Definition g2 : FullBlock toy_tx := block_of (toy_hd (h_id (fb_header g1)) easy 2).
Definition spend2 : StateChange toy_box := mkStateChange [ent 2 2] [box_id (box 1)].
Definition g3 : FullBlock toy_tx := block_of (toy_hd (h_id (fb_header g2)) easy 3).
Definition spend3 : StateChange toy_box := mkStateChange [ent 3 3] [box_id (box 1)].
Definition m2 : state := (toy_apply m1 g2 spend2).2.

(** A change that spends a box nobody created. *)
Definition spend_unknown : StateChange toy_box := mkStateChange [] [box_id (box 9)].

Lemma created_ok i h : in_u 32 h -> entry_ok (ent i h).
Proof. intros Hh. split; [done|]. split; [done|]. unfold in_u. cbn [ent be_output_index]. lia. Qed.

Lemma one_entry_ok (st : UtxoState Mem.t) i h ids :
  in_u 32 h -> st_get (us_storage st) Utxo (be_bytes 32 i) = None ->
  change_ok st (mkStateChange [ent i h] ids).
Proof.
  intros Hh Hn. split; [by apply Forall_singleton, created_ok|].
  intros e [->|He%not_elem_of_nil]%elem_of_cons; done.
Qed.

Ltac one_entry := apply one_entry_ok; [vm_compute; split; congruence|vm_compute; reflexivity].

Lemma fst_ok (p : result ChainSelection StateError * state) sel :
  p.1 = Ok sel -> p = (Ok sel, p.2).
Proof. by destruct p as [r m]; cbn; intros ->. Qed.

Lemma m0_ok : manager_ok (ErgoBox := toy_box) m0.
Proof. constructor; [done| |done]. intros k v Hv. done. Qed.

Lemma m1_apply : toy_apply m0 g1 create1 = (Ok Extended, m1).
Proof. apply fst_ok. vm_compute. reflexivity. Qed.

Lemma m1_ok : manager_ok (ErgoBox := toy_box) m1.
Proof.
  destruct (manager_follows_step m0 m0 g1 create1 _ _ [] 0 ∅ m0_ok eq_refl (follows_start _)
    ltac:(one_entry) m1_apply) as (? & ? & _ & _ & Hok & _). exact Hok.
Qed.

Lemma m2_apply : toy_apply m1 g2 spend2 = (Ok Ignored, m2).
Proof. apply fst_ok. vm_compute. reflexivity. Qed.

Lemma spend2_ok : change_ok (sm_utxo m1) spend2.
Proof. one_entry. Qed.
Lemma spend3_ok : change_ok (sm_utxo m1) spend3.
Proof. one_entry. Qed.

#[local] Opaque apply_block apply_blocks_batched append_full_block apply_change m1 m2.

(** The second block is refused, but the history keeps it. *)
Lemma apply_block_decides_witness :
  exists m', apply_block m1 g2 spend_unknown = (Err (BoxNotFound (box_id (box 9))), m') /\
    us_height (sm_utxo m') = 1 /\ best_full_block_height (sm_history m') = 2.
Proof.
  pose proof (apply_block_decides m1 g2 spend_unknown (mo_shared _ m1_ok) (mo_root _ m1_ok)) as Hd.
  cbn zeta in Hd. destruct (apply_block m1 g2 spend_unknown) as [r m'] eqn:E.
  assert ((h_height (fb_header g2) =? u32 (us_height (sm_utxo m1) + 1)) = true) as Hh by (vm_compute; reflexivity).
  rewrite Hh in Hd. cbn [negb] in Hd.
  assert (is_ok (append_full_block (sm_history m1) g2) = true) as Hok by (vm_compute; reflexivity).
  destruct (append_full_block (sm_history m1) g2) as [[sel h]|e] eqn:Ea; [|discriminate Hok].
  assert (fst (apply_block m1 g2 spend_unknown) = Err (BoxNotFound (box_id (box 9)))) as Hr
    by (vm_compute; reflexivity).
  rewrite E in Hr. cbn [fst] in Hr. exists m'. split; [by rewrite Hr|].
  destruct (apply_change _ spend_unknown _) as [u|e].
  { destruct Hd as [Hd _]. rewrite Hd in Hr. discriminate Hr. }
  destruct Hd as (_ & Hhist & Hu & _ & Hfull). rewrite Hhist, Hu, Hfull. split; vm_compute; reflexivity.
Defined.

(** Two blocks in one batch leave the boxes of applying one, then the other. *)
Lemma batched_blocks_refine_witness :
  exists sel mb, apply_blocks_batched m0 [(g1, create1); (g2, spend2)] = Ok (sel, mb) /\
    us_height (sm_utxo mb) = 2 /\ get_box (ErgoBox := toy_box) (sm_utxo mb) (box_id (box 1)) = Ok None.
Proof.
  assert (changes_ok m0 [(g1, create1); (g2, spend2)]) as Hch.
  { cbn [changes_ok]. split; [one_entry|]. pose proof m1_apply as H1. unfold toy_apply in H1. rewrite H1.
    split; [exact spend2_ok|]. destruct (apply_block m1 g2 spend2) as [[?|?] ?]; exact I. }
  assert (apply_all_blocks m0 [(g1, create1); (g2, spend2)] = Ok m2) as Hrun.
  { cbn [apply_all_blocks]. pose proof m1_apply as H1. pose proof m2_apply as H2. unfold toy_apply in H1, H2.
    by rewrite H1, H2. }
  destruct (batched_blocks_refine m0 _ m2 m0_ok (not_eq_sym (@nil_cons _ _ _)) Hch Hrun) as (sel & mb & Hb & Hh & Hbox & _).
  exists sel, mb. split; [exact Hb|]. rewrite Hh, Hbox. split; vm_compute; reflexivity.
Defined.

(** Box 1 is spent twice. *)
Lemma batch_accepts_double_spend_witness :
  is_ok (toy_apply m2 g3 spend3).1 = false /\
  is_ok (apply_blocks_batched m1 [(g2, spend2); (g3, spend3)]) = true.
Proof.
  assert (is_ok (apply_change (sm_utxo m1) spend3 3) = true) as Hok by (vm_compute; reflexivity).
  destruct (apply_change (sm_utxo m1) spend3 3) as [u|e] eqn:Eu; [|discriminate Hok].
  destruct (batch_accepts_double_spend m1 g2 spend2 g3 spend3 Ignored m2 u (box_id (box 1))
    m1_ok spend2_ok spend3_ok m2_apply ltac:(vm_compute; reflexivity) ltac:(vm_compute; reflexivity) Eu
    ltac:(constructor) ltac:(constructor)) as [(e & He) Hb].
  split; [|exact Hb]. unfold toy_apply. by rewrite He.
Defined.

(** A block is accepted while roots are enforced. *)
Lemma state_root_never_verified_witness :
  is_ok (toy_apply (set_verification_mode m0 RV_Enforce) g1 create1).1 = true /\
  (toy_apply (set_verification_mode m0 RV_Enforce) g1 create1).1 =
  (toy_apply (set_verification_mode m0 RV_Skip) g1 create1).1.
Proof.
  split; [vm_compute; reflexivity|].
  apply (state_root_never_verified m0 RV_Enforce g1 create1).
  apply mr_new. done.
Defined.

End ManagerExample.
