(* ===== verification/Peers.v ===== *)
(** * Peers (crates/ergo-network/src/penalties.rs, scoring.rs, peer.rs, decline.rs)

    Penalties and their decay, the score of a peer, the peer manager and the
    table of declined modifiers.  Instants and durations are nanoseconds, and
    the clock is an argument of the operations that read it.  A socket address
    and its display are parameters; where the iteration order of a map or set
    shows it is an argument. *)

From S2P Require Export Float64.

Local Open Scope Z_scope.

(** ** Penalties *)

Definition SLOW_RESPONSE : Z := 2.
Definition MISSING_RESPONSE : Z := 10.
Definition DUPLICATE_MESSAGE : Z := 5.
Definition INVALID_CHECKSUM : Z := 5.
Definition INVALID_MESSAGE_FORMAT : Z := 20.
Definition UNEXPECTED_MESSAGE : Z := 30.
Definition INVALID_MODIFIER : Z := 50.
Definition DECLINED_MODIFIER : Z := 40.
Definition INVALID_TRANSACTION : Z := 80.
Definition INVALID_BLOCK : Z := 100.
Definition SPAM_DETECTED : Z := 150.
Definition SIZE_LIMIT_EXCEEDED : Z := 100.
Definition PROTOCOL_VIOLATION : Z := 500.
Definition MALICIOUS_BEHAVIOR : Z := 1000.
Definition BAN_THRESHOLD : Z := 500.
Definition DECAY_PER_MINUTE : Z := 10.
Definition MAX_PENALTY : Z := 1000.

Definition SUCCESSFUL_DELIVERY : Z := 1.
Definition FAST_RESPONSE : Z := 1.
Definition SUCCESSFUL_CONNECTION : Z := 5.
Definition VALID_BLOCK : Z := 2.
Definition MAX_SCORE : Z := 100.

Inductive PenaltyReason :=
  | PR_SlowResponse | PR_MissingResponse | PR_DuplicateMessage | PR_InvalidChecksum
  | PR_InvalidMessageFormat | PR_UnexpectedMessage | PR_InvalidModifier | PR_DeclinedModifier
  | PR_InvalidTransaction | PR_InvalidBlock | PR_SpamDetected | PR_SizeLimitExceeded
  | PR_ProtocolViolation | PR_MaliciousBehavior.

Definition penalty_of (r : PenaltyReason) : Z :=
  match r with
  | PR_SlowResponse => SLOW_RESPONSE
  | PR_MissingResponse => MISSING_RESPONSE
  | PR_DuplicateMessage => DUPLICATE_MESSAGE
  | PR_InvalidChecksum => INVALID_CHECKSUM
  | PR_InvalidMessageFormat => INVALID_MESSAGE_FORMAT
  | PR_UnexpectedMessage => UNEXPECTED_MESSAGE
  | PR_InvalidModifier => INVALID_MODIFIER
  | PR_DeclinedModifier => DECLINED_MODIFIER
  | PR_InvalidTransaction => INVALID_TRANSACTION
  | PR_InvalidBlock => INVALID_BLOCK
  | PR_SpamDetected => SPAM_DETECTED
  | PR_SizeLimitExceeded => SIZE_LIMIT_EXCEEDED
  | PR_ProtocolViolation => PROTOCOL_VIOLATION
  | PR_MaliciousBehavior => MALICIOUS_BEHAVIOR
  end.

Definition is_critical (r : PenaltyReason) : bool :=
  match r with PR_ProtocolViolation | PR_MaliciousBehavior => true | _ => false end.

(** ** Scores *)

Definition NANOS_PER_SEC : Z := 1000000000.
Definition as_secs (d : Z) : Z := d / NANOS_PER_SEC.
Definition as_millis (d : Z) : Z := u64 (d / 1000000).
(** [instant.elapsed()], which saturates. *)
Definition elapsed (now instant : Z) : Z := sat_sub now instant.

Record PeerScore := mkPeerScore {
  penalty : Z;
  last_penalty_time : Z;
  avg_response_time_ms : Z;
  response_count : Z;
  delivered_count : Z;
  failed_count : Z;
  invalid_message_count : Z;
  reward_score : Z;
  last_success : Z
}.

Definition PeerScore_new (now : Z) : PeerScore := mkPeerScore 0 now 0 0 0 0 0 0 now.

Definition current_penalty (now : Z) (s : PeerScore) : Z :=
  let minutes_elapsed := as_secs (elapsed now (last_penalty_time s)) / 60 in
  let decay := Z.min (u32 minutes_elapsed * DECAY_PER_MINUTE) (2 ^ 32 - 1) in
  sat_sub (penalty s) decay.

Definition should_ban (now : Z) (s : PeerScore) : bool := current_penalty now s >=? BAN_THRESHOLD.

Definition apply_penalty_amount (now : Z) (s : PeerScore) (amount : Z) : bool * PeerScore :=
  let current := current_penalty now s in
  let s := mkPeerScore (Z.min (sat_add 32 current amount) MAX_PENALTY) now (avg_response_time_ms s)
             (response_count s) (delivered_count s) (failed_count s) (invalid_message_count s)
             (reward_score s) (last_success s) in
  (should_ban now s, s).

Definition apply_penalty (now : Z) (s : PeerScore) (reason : PenaltyReason) : bool * PeerScore :=
  apply_penalty_amount now s (penalty_of reason).

Definition apply_reward (now : Z) (s : PeerScore) (amount : Z) : PeerScore :=
  mkPeerScore (penalty s) (last_penalty_time s) (avg_response_time_ms s) (response_count s)
    (delivered_count s) (failed_count s) (invalid_message_count s)
    (Z.min (i32 (reward_score s + amount)) MAX_SCORE) now.

Definition record_delivery (now : Z) (s : PeerScore) : PeerScore :=
  apply_reward now
    (mkPeerScore (penalty s) (last_penalty_time s) (avg_response_time_ms s) (response_count s)
       (u64 (delivered_count s + 1)) (failed_count s) (invalid_message_count s) (reward_score s)
       (last_success s)) SUCCESSFUL_DELIVERY.

Definition record_failure (s : PeerScore) : PeerScore :=
  mkPeerScore (penalty s) (last_penalty_time s) (avg_response_time_ms s) (response_count s)
    (delivered_count s) (u64 (failed_count s + 1)) (invalid_message_count s) (reward_score s)
    (last_success s).

Definition record_response_time (now : Z) (s : PeerScore) (duration : Z) : PeerScore :=
  let new_time := as_millis duration in
  let avg := if response_count s =? 0 then new_time
             else u64 (avg_response_time_ms s * 7 + new_time) / 8 in
  let s := mkPeerScore (penalty s) (last_penalty_time s) avg (u64 (response_count s + 1))
             (delivered_count s) (failed_count s) (invalid_message_count s) (reward_score s)
             (last_success s) in
  if new_time <? 500 then apply_reward now s FAST_RESPONSE else s.

Definition record_invalid_message (s : PeerScore) : PeerScore :=
  mkPeerScore (penalty s) (last_penalty_time s) (avg_response_time_ms s) (response_count s)
    (delivered_count s) (failed_count s) (u32 (invalid_message_count s + 1)) (reward_score s)
    (last_success s).

(** A decimal constant of at most two digits: the quotient of two integers is
    correctly rounded. *)
Definition hundredths (n : Z) : f64 := f64_div (f64_of_Z n) (f64_of_Z 100).

Definition score_priority (now : Z) (s : PeerScore) : f64 :=
  let response_factor :=
    if avg_response_time_ms s =? 0 then hundredths 50
    else f64_div f64_one (f64_add f64_one (f64_div (f64_of_Z (avg_response_time_ms s)) (f64_of_Z 1000))) in
  let total_requests := u64 (delivered_count s + failed_count s) in
  let reliability_factor :=
    if total_requests =? 0 then hundredths 50
    else f64_div (f64_of_Z (delivered_count s)) (f64_of_Z total_requests) in
  let penalty_factor :=
    f64_sub f64_one (f64_div (f64_of_Z (current_penalty now s)) (f64_of_Z MAX_PENALTY)) in
  let reward_factor :=
    if reward_score s <=? 0 then hundredths 50
    else f64_add (hundredths 50)
           (f64_mul (f64_div (f64_of_Z (reward_score s)) (f64_of_Z MAX_SCORE)) (hundredths 50)) in
  f64_clamp
    (f64_add (f64_add (f64_add (f64_mul reliability_factor (hundredths 35))
                               (f64_mul response_factor (hundredths 30)))
                      (f64_mul penalty_factor (hundredths 20)))
             (f64_mul reward_factor (hundredths 15)))
    f64_zero f64_one.

Definition delivery_rate (s : PeerScore) : f64 :=
  let total := u64 (delivered_count s + failed_count s) in
  if total =? 0 then f64_zero else f64_div (f64_of_Z (delivered_count s)) (f64_of_Z total).

Definition time_since_success (now : Z) (s : PeerScore) : Z := elapsed now (last_success s).

(** ** The peer manager *)

Inductive PeerState := PS_Disconnected | PS_Connecting | PS_Handshaking | PS_Connected | PS_Banned.

#[export] Instance PeerState_eq_dec : EqDecision PeerState.
Proof. solve_decision. Defined.

Section Manager.
Context {Addr : Type} `{Countable Addr} (fmt_addr : Addr -> bytes).

Record PeerInfo := mkPeerInfo {
  pi_id : bytes;
  pi_addr : Addr;
  pi_state : PeerState;
  pi_version : option (Z * Z * Z);
  pi_agent : option bytes;
  pi_height : Z;
  pi_score : PeerScore;
  pi_last_seen : Z;
  pi_outbound : bool
}.

(** [PeerId::from_addr] is the text of the address. *)
Definition PeerInfo_new (now : Z) (addr : Addr) (outbound : bool) : PeerInfo :=
  mkPeerInfo (fmt_addr addr) addr PS_Disconnected None None 0 (PeerScore_new now) now outbound.

Record PeerManagerConfig := mkPeerManagerConfig {
  max_connections : Z;
  max_outbound : Z;
  ban_duration : Z;
  min_sync_peers : Z
}.
Definition PeerManagerConfig_default : PeerManagerConfig :=
  mkPeerManagerConfig 30 10 (3600 * NANOS_PER_SEC) 5.

Record PeerManager := mkPeerManager {
  pm_config : PeerManagerConfig;
  peers : gmap bytes PeerInfo;
  connected : gset bytes;
  banned : gmap Addr Z
}.

Definition PeerManager_new (config : PeerManagerConfig) : PeerManager :=
  mkPeerManager config ∅ ∅ ∅.

(** Field updates. *)
Definition set_peers (m : PeerManager) ps := mkPeerManager (pm_config m) ps (connected m) (banned m).
Definition set_connected (m : PeerManager) c := mkPeerManager (pm_config m) (peers m) c (banned m).
Definition set_banned (m : PeerManager) b := mkPeerManager (pm_config m) (peers m) (connected m) b.
Definition with_state (p : PeerInfo) st := mkPeerInfo (pi_id p) (pi_addr p) st (pi_version p) (pi_agent p)
  (pi_height p) (pi_score p) (pi_last_seen p) (pi_outbound p).
Definition with_score (p : PeerInfo) s := mkPeerInfo (pi_id p) (pi_addr p) (pi_state p) (pi_version p)
  (pi_agent p) (pi_height p) s (pi_last_seen p) (pi_outbound p).
Definition with_last_seen (p : PeerInfo) t := mkPeerInfo (pi_id p) (pi_addr p) (pi_state p) (pi_version p)
  (pi_agent p) (pi_height p) (pi_score p) t (pi_outbound p).
Definition with_height (p : PeerInfo) h := mkPeerInfo (pi_id p) (pi_addr p) (pi_state p) (pi_version p)
  (pi_agent p) h (pi_score p) (pi_last_seen p) (pi_outbound p).

Definition add_peer (m : PeerManager) (info : PeerInfo) : PeerManager :=
  set_peers m (<[pi_id info := info]> (peers m)).

Definition get_peer (m : PeerManager) (id : bytes) : option PeerInfo := peers m !! id.

Definition set_state (now : Z) (m : PeerManager) (id : bytes) (state : PeerState) : PeerManager :=
  match peers m !! id with
  | None => m
  | Some peer =>
      let m := set_peers m (<[id := with_last_seen (with_state peer state) now]> (peers m)) in
      match state with
      | PS_Connected => set_connected m ({[id]} ∪ connected m)
      | PS_Disconnected | PS_Banned => set_connected m (connected m ∖ {[id]})
      | _ => m
      end
  end.

Definition set_height (now : Z) (m : PeerManager) (id : bytes) (height : Z) : PeerManager :=
  match peers m !! id with
  | None => m
  | Some peer => set_peers m (<[id := with_last_seen (with_height peer height) now]> (peers m))
  end.

Definition penalize_amount (now : Z) (m : PeerManager) (id : bytes) (amount : Z) : bool * PeerManager :=
  match peers m !! id with
  | None => (false, m)
  | Some peer =>
      let '(ban, score) := apply_penalty_amount now (pi_score peer) amount in
      let peer := with_score peer score in
      if ban then
        let m := set_peers m (<[id := with_state peer PS_Banned]> (peers m)) in
        let m := set_connected m (connected m ∖ {[id]}) in
        (true, set_banned m (<[pi_addr peer := now + ban_duration (pm_config m)]> (banned m)))
      else (false, set_peers m (<[id := peer]> (peers m)))
  end.

Definition penalize (now : Z) (m : PeerManager) (id : bytes) (reason : PenaltyReason) : bool * PeerManager :=
  penalize_amount now m id (penalty_of reason).

(** The other updates of a score. *)
Definition update_score (m : PeerManager) (id : bytes) (f : PeerScore -> PeerScore) : PeerManager :=
  match peers m !! id with
  | None => m
  | Some peer => set_peers m (<[id := with_score peer (f (pi_score peer))]> (peers m))
  end.

Definition reward (now : Z) (m : PeerManager) (id : bytes) (amount : Z) : PeerManager :=
  update_score m id (fun s => apply_reward now s amount).
Definition pm_record_delivery (now : Z) (m : PeerManager) (id : bytes) : PeerManager :=
  update_score m id (record_delivery now).
Definition pm_record_failure (m : PeerManager) (id : bytes) : PeerManager :=
  update_score m id record_failure.
Definition pm_record_response_time (now : Z) (m : PeerManager) (id : bytes) (d : Z) : PeerManager :=
  update_score m id (fun s => record_response_time now s d).

(** The code holds the reference it got from [banned] while it removes an
    expired entry from the same map, which dashmap documents as a deadlock: an
    expired ban has no answer. *)
Definition is_banned (now : Z) (m : PeerManager) (addr : Addr) : option bool :=
  match banned m !! addr with
  | Some unban_time => if now <? unban_time then Some true else None
  | None => Some false
  end.

(** [order]: the peers as the map iterates over them. *)
Definition unban (now : Z) (m : PeerManager) (addr : Addr) (order : list bytes) : PeerManager :=
  let m := set_banned m (delete addr (banned m)) in
  match head (omap (fun id => p ← peers m !! id; if decide (pi_addr p = addr) then Some (id, p) else None) order) with
  | None => m
  | Some (id, peer) =>
      let peer := with_score peer (PeerScore_new now) in
      let peer := if decide (pi_state peer = PS_Banned) then with_state peer PS_Disconnected else peer in
      set_peers m (<[id := peer]> (peers m))
  end.

Definition cleanup_expired_bans (now : Z) (m : PeerManager) : PeerManager :=
  set_banned m (base.filter (fun x : Addr * Z => now < x.2) (banned m)).

Definition connected_count (m : PeerManager) : Z := Z.of_nat (size (connected m)).
Definition outbound_count (m : PeerManager) : Z :=
  Z.of_nat (length (base.filter (fun id => match peers m !! id with Some p => pi_outbound p | None => false end = true)
    (elements (connected m)))).
Definition can_accept (m : PeerManager) : bool := connected_count m <? max_connections (pm_config m).
Definition can_connect_outbound (m : PeerManager) : bool := outbound_count m <? max_outbound (pm_config m).

(** Only disconnected peers are asked for, and iteration stops at [count]. *)
Fixpoint get_peers_to_connect (now : Z) (m : PeerManager) (order : list bytes) (count : nat)
    : option (list Addr) :=
  match count, order with
  | S count', id :: order' =>
      match peers m !! id with
      | Some p =>
          if decide (pi_state p = PS_Disconnected) then
            b ← is_banned now m (pi_addr p);
            if (b : bool) then get_peers_to_connect now m order' count
            else addrs ← get_peers_to_connect now m order' count'; Some (pi_addr p :: addrs)
          else get_peers_to_connect now m order' count
      | None => get_peers_to_connect now m order' count
      end
  | _, _ => Some []
  end.

Definition get_connected (m : PeerManager) (order : list bytes) : list PeerInfo := omap (get_peer m) order.

(** A stable sort: [slice::sort_by]. *)
Fixpoint insert_by {A} (le : A -> A -> bool) (x : A) (l : list A) : list A :=
  match l with
  | [] => [x]
  | y :: l' => if le x y then x :: l else y :: insert_by le x l'
  end.
Definition sort_by {A} (le : A -> A -> bool) (l : list A) : list A := foldr (insert_by le) [] l.

(** [max_by_key]: the last of the highest. *)
Definition get_best_peer (m : PeerManager) (order : list bytes) : option PeerInfo :=
  fold_left (fun best p =>
    match best with
    | None => Some p
    | Some b => if pi_height p <? pi_height b then Some b else Some p
    end) (get_connected m order) None.

(** [a] may stay before [b]: not [Greater] in the comparison of the code. *)
Definition by_priority (now : Z) (a b : PeerInfo) : bool :=
  negb (f64_ltb (score_priority now (pi_score a)) (score_priority now (pi_score b))).

Definition get_sync_peers (now : Z) (m : PeerManager) (order : list bytes) (max_count : nat) : list PeerInfo :=
  take max_count (sort_by (by_priority now)
    (base.filter (fun p => should_ban now (pi_score p) = false) (get_connected m order))).

Definition get_peers_with_height (m : PeerManager) (order : list bytes) (min_height : Z) : list PeerInfo :=
  base.filter (fun p => min_height < pi_height p) (get_connected m order).

Definition get_peers_by_height (m : PeerManager) (order : list bytes) (max_count : nat) : list PeerInfo :=
  take max_count (sort_by (fun a b => pi_height b <=? pi_height a) (get_connected m order)).

(** [score_stats].  The sums of penalties and of response times wrap. *)
Record PeerScoreStats := mkPeerScoreStats {
  st_peer_count : nat; st_avg_penalty : Z; st_max_penalty : Z; st_avg_priority : f64;
  st_avg_response_time_ms : Z; st_banned_count : nat }.

Definition score_stats (now : Z) (m : PeerManager) (order : list bytes) : PeerScoreStats :=
  match get_connected m order with
  | [] => mkPeerScoreStats 0 0 0 f64_zero 0 0
  | conns =>
      let penalties := (fun p => current_penalty now (pi_score p)) <$> conns in
      let priorities := (fun p => score_priority now (pi_score p)) <$> conns in
      let response_times := (fun p => avg_response_time_ms (pi_score p)) <$> conns in
      let responded := base.filter (fun t => 0 < t) response_times in
      mkPeerScoreStats (length conns)
        (fold_left (fun acc p => u32 (acc + p)) penalties 0 / u32 (Z.of_nat (length penalties)))
        (fold_left Z.max penalties 0)
        (f64_div (fold_left f64_add priorities f64_zero) (f64_of_Z (Z.of_nat (length priorities))))
        (if bool_decide (responded = []) then 0
         else fold_left (fun acc t => u64 (acc + t)) responded 0 / Z.max (Z.of_nat (length responded)) 1)
        (size (banned m))
  end.

End Manager.

(** ** Declined modifiers *)

Record DeclineEntry := mkDeclineEntry { de_added_at : Z; de_reason : string }.
Record DeclineTable := mkDeclineTable {
  dt_entries : gmap bytes DeclineEntry;
  dt_ttl : Z;
  dt_max_size : Z
}.

Definition DeclineTable_new (max_size ttl : Z) : DeclineTable := mkDeclineTable ∅ ttl max_size.
Definition with_defaults : DeclineTable := DeclineTable_new 10000 (600 * NANOS_PER_SEC).

Definition cleanup (now : Z) (t : DeclineTable) : DeclineTable :=
  mkDeclineTable (base.filter (fun x : bytes * DeclineEntry => elapsed now (de_added_at x.2) < dt_ttl t) (dt_entries t))
    (dt_ttl t) (dt_max_size t).

Definition decline (now : Z) (t : DeclineTable) (id : bytes) (reason : string) : DeclineTable :=
  let t := if Z.of_nat (size (dt_entries t)) >=? dt_max_size t then cleanup now t else t in
  mkDeclineTable (<[id := mkDeclineEntry now reason]> (dt_entries t)) (dt_ttl t) (dt_max_size t).

Definition is_declined (now : Z) (t : DeclineTable) (id : bytes) : option string :=
  match dt_entries t !! id with
  | Some e => if elapsed now (de_added_at e) <? dt_ttl t then Some (de_reason e) else None
  | None => None
  end.
Definition decline_contains (now : Z) (t : DeclineTable) (id : bytes) : bool :=
  match is_declined now t id with Some _ => true | None => false end.
Definition decline_remove (t : DeclineTable) (id : bytes) : DeclineTable :=
  mkDeclineTable (delete id (dt_entries t)) (dt_ttl t) (dt_max_size t).
Definition decline_clear (t : DeclineTable) : DeclineTable := mkDeclineTable ∅ (dt_ttl t) (dt_max_size t).
