(* ===== verification/PeersSpec.v ===== *)
(** * What the peer manager promises

    The invariant of reachable peer managers and whom they select, how penalties add up, what an
    expired ban leaves behind, and the size of the table of declined modifiers. *)

From S2P Require Export Peers.

Local Open Scope Z_scope.

(** ** Scores *)

(** Field bounds: the penalty saturates, the reward is capped. *)
Definition score_ok (s : PeerScore) : Prop :=
  0 <= penalty s <= MAX_PENALTY /\ reward_score s <= MAX_SCORE.

Lemma current_penalty_le now s : 0 <= penalty s -> 0 <= current_penalty now s <= penalty s.
Proof.
  intros Hp. unfold current_penalty, sat_sub.
  assert (0 <= u32 (as_secs (elapsed now (last_penalty_time s)) / 60)) by (apply wrap_range; lia).
  unfold DECAY_PER_MINUTE. lia.
Qed.

Lemma score_new_ok now : score_ok (PeerScore_new now).
Proof. split; cbn; unfold MAX_PENALTY, MAX_SCORE; lia. Qed.

Lemma apply_penalty_ok now s amount : score_ok s -> 0 <= amount -> score_ok (apply_penalty_amount now s amount).2.
Proof.
  intros [Hp Hr] Ha. pose proof (current_penalty_le now s ltac:(lia)). split; cbn; [|done].
  unfold sat_add, MAX_PENALTY in *. lia.
Qed.

Lemma apply_reward_ok now s amount : score_ok s -> score_ok (apply_reward now s amount).
Proof. intros [Hp Hr]. split; cbn; [done|lia]. Qed.

Lemma record_delivery_ok now s : score_ok s -> score_ok (record_delivery now s).
Proof. intros Hs. by apply apply_reward_ok. Qed.

Lemma record_response_ok now s d : score_ok s -> score_ok (record_response_time now s d).
Proof. intros Hs. unfold record_response_time. cbv zeta. destruct (_ <? _); [by apply apply_reward_ok|done]. Qed.

(** Penalties, each with its time. *)
Definition penalise (s : PeerScore) (ta : Z * Z) : PeerScore := (apply_penalty_amount ta.1 s ta.2).2.

(** Each penalty comes less than a minute after the one before. *)
Fixpoint close_together (t0 : Z) (l : list (Z * Z)) : Prop :=
  match l with
  | [] => True
  | (t, _) :: l => t0 <= t < t0 + 60 * NANOS_PER_SEC /\ close_together t l
  end.

Lemma penalise_all_close s l :
  0 <= penalty s <= MAX_PENALTY -> close_together (last_penalty_time s) l -> Forall (fun x => in_u 32 x.2) l ->
  penalty (fold_left penalise l s) = Z.min MAX_PENALTY (penalty s + sumZ (snd <$> l)).
Proof.
  revert s. induction l as [|[t a] l IH]; intros s Hp Hc Ha; cbn [fold_left fmap list_fmap sumZ snd].
  { cbn. unfold MAX_PENALTY in *. lia. }
  destruct Hc as [Ht Hc]. inversion Ha as [|? ? Ha1 Ha2]; subst. cbn [snd] in Ha1. unfold in_u in Ha1.
  assert (current_penalty t s = penalty s) as Hcur.
  { unfold current_penalty, elapsed, sat_sub, as_secs, NANOS_PER_SEC in *.
    rewrite (Z.div_small (_ / _) 60) by
      (split; [apply Z.div_pos; lia|apply Z.div_lt_upper_bound; lia]).
    change (u32 0) with 0. lia. }
  rewrite IH.
  - unfold penalise. cbn. rewrite Hcur. unfold sat_add, MAX_PENALTY in *. 
    assert (0 <= sumZ (snd <$> l)) by (apply sumZ_nonneg; apply Forall_fmap; eapply Forall_impl; [exact Ha2|];
      intros x [? _]; done). lia.
  - unfold penalise. cbn. rewrite Hcur. unfold sat_add, MAX_PENALTY in *. lia.
  - exact Hc.
  - done.
Qed.

Lemma penalise_all_ok s l : score_ok s -> Forall (fun x => 0 <= x.2) l -> score_ok (fold_left penalise l s).
Proof.
  revert s. induction l as [|x l IH]; intros s Hs Hl; [done|]. inversion Hl; subst. cbn [fold_left].
  apply IH; [by apply apply_penalty_ok|done].
Qed.

(** Right after a penalty nothing has decayed. *)
Lemma should_ban_fresh t s a :
  score_ok (penalise s (t, a)) ->
  (apply_penalty_amount t s a).1 = (penalty (penalise s (t, a)) >=? BAN_THRESHOLD).
Proof.
  intros [Hp _]. change ((apply_penalty_amount t s a).1) with (should_ban t (penalise s (t, a))).
  unfold should_ban. f_equal. unfold current_penalty, elapsed, as_secs.
  change (last_penalty_time (penalise s (t, a))) with t. unfold sat_sub at 2. rewrite Z.sub_diag.
  change (u32 (Z.max 0 0 / NANOS_PER_SEC / 60)) with 0. unfold sat_sub. lia.
Qed.

(** A penalty decays by ten points for each full minute since the last
    penalty; the fraction of a minute is lost at every penalty.  Penalties that
    come less than a minute apart therefore never decay: however slowly they
    accumulate over hours, the peer is banned when their sum reaches the
    threshold. *)
Theorem frequent_penalties_never_decay s l t a :
  score_ok s -> close_together (last_penalty_time s) (l ++ [(t, a)]) ->
  Forall (fun x => in_u 32 x.2) (l ++ [(t, a)]) ->
  (apply_penalty_amount t (fold_left penalise l s) a).1 =
    (Z.min MAX_PENALTY (penalty s + sumZ (snd <$> (l ++ [(t, a)]))) >=? BAN_THRESHOLD) /\
  (forall now, last_penalty_time s <= now -> (now - last_penalty_time s) / NANOS_PER_SEC / 60 < 2 ^ 28 ->
     current_penalty now s = Z.max 0 (penalty s - 10 * ((now - last_penalty_time s) / NANOS_PER_SEC / 60))).
Proof.
  intros Hs Hc Ha. pose proof Hs as [Hp _]. split.
  - rewrite <- (penalise_all_close s (l ++ [(t, a)]) Hp Hc Ha). rewrite fold_left_app.
    apply should_ban_fresh. pose proof (penalise_all_ok s (l ++ [(t, a)]) Hs) as Hok.
    rewrite fold_left_app in Hok. apply Hok.
    eapply Forall_impl; [exact Ha|]. by intros x [? _].
  - intros now Hnow Hsmall. unfold current_penalty, elapsed, sat_sub, as_secs, DECAY_PER_MINUTE.
    assert (Z.max 0 (now - last_penalty_time s) = now - last_penalty_time s) as -> by lia.
    assert (0 <= (now - last_penalty_time s) / NANOS_PER_SEC / 60)
      by (apply Z.div_pos; [apply Z.div_pos; [lia|unfold NANOS_PER_SEC; lia]|lia]).
    rewrite wrap_small by (unfold in_u; lia). lia.
Qed.

(** ** Lists *)

Lemma insert_by_perm {A} (le : A -> A -> bool) x l : insert_by le x l ≡ₚ x :: l.
Proof.
  induction l as [|y l IH]; cbn; [done|]. destruct (le x y); [done|]. rewrite IH. apply perm_swap.
Qed.

Lemma sort_by_perm {A} (le : A -> A -> bool) l : sort_by le l ≡ₚ l.
Proof. induction l as [|x l IH]; cbn; [done|]. by rewrite insert_by_perm, IH. Qed.

Lemma omap_length_all {A B} (f : A -> option B) l :
  (forall x, x ∈ l -> is_Some (f x)) -> length (omap f l) = length l.
Proof.
  induction l as [|x l IH]; intros Hf; cbn; [done|]. destruct (Hf x) as [y ->]; [constructor|].
  cbn. f_equal. apply IH. intros. apply Hf. by constructor.
Qed.

(** ** Peer managers *)

Section Manager.
Context {Addr : Type} `{Countable Addr}.

Abbreviation manager := (PeerManager (Addr := Addr)).

(** The operations that neither add a peer nor set a state, at any time. *)
Inductive pm_step (m : manager) : manager -> Prop :=
  | ps_height now id h : pm_step m (set_height now m id h)
  | ps_penalize now id reason : pm_step m (penalize now m id reason).2
  | ps_penalize_amount now id amount : 0 <= amount -> pm_step m (penalize_amount now m id amount).2
  | ps_reward now id amount : pm_step m (reward now m id amount)
  | ps_delivery now id : pm_step m (pm_record_delivery now m id)
  | ps_failure id : pm_step m (pm_record_failure m id)
  | ps_response now id d : pm_step m (pm_record_response_time now m id d)
  | ps_unban now addr order : pm_step m (unban now m addr order)
  | ps_cleanup now : pm_step m (cleanup_expired_bans now m).

(** The managers that any operations lead to, with the identifiers of the peers
    that were added again while they were connected and whose state was not
    set to connected, disconnected or banned since: adding replaces what is
    known of the peer, its state among it, and leaves it in the set of the
    connected ones.  A peer is added as [PeerInfo::new] makes it, disconnected
    and with a score in bounds. *)
Inductive pm_reachable (c : PeerManagerConfig) : gset bytes -> manager -> Prop :=
  | pm_start : pm_reachable c ∅ (PeerManager_new c)
  | pm_add again m info : pm_reachable c again m -> score_ok (pi_score info) -> pi_state info = PS_Disconnected ->
      pm_reachable c (if decide (pi_id info ∈ connected m) then {[pi_id info]} ∪ again else again) (add_peer m info)
  | pm_state again m now id st : pm_reachable c again m ->
      pm_reachable c
        (match st with PS_Connected | PS_Disconnected | PS_Banned => again ∖ {[id]} | _ => again end)
        (set_state now m id st)
  | pm_next again m m' : pm_reachable c again m -> pm_step m m' -> pm_reachable c again m'.

(** What the state of a peer says of the set of the connected ones. *)
Definition state_agrees (again : gset bytes) (m : manager) (id : bytes) (st : PeerState) : Prop :=
  match st with
  | PS_Connected => id ∈ connected m
  | PS_Banned => id ∉ connected m
  | PS_Disconnected => id ∈ connected m -> id ∈ again
  | PS_Connecting | PS_Handshaking => True
  end.

Record pm_inv (again : gset bytes) (m : manager) : Prop := {
  pi_keys : forall id p, peers m !! id = Some p -> pi_id p = id /\ score_ok (pi_score p);
  pi_connected : forall id, id ∈ connected m -> is_Some (peers m !! id);
  pi_states : forall id p, peers m !! id = Some p -> state_agrees again m id (pi_state p)
}.

(** One peer replaced by another with its identifier, and the connected set by
    one that differs at most there. *)
Lemma inv_replace again again' m id p conn b :
  pm_inv again m -> pi_id p = id -> score_ok (pi_score p) ->
  (forall x, x <> id -> (x ∈ conn <-> x ∈ connected m) /\ (x ∈ again -> x ∈ again')) ->
  state_agrees again' (mkPeerManager (pm_config m) (peers m) conn b) id (pi_state p) ->
  pm_inv again' (mkPeerManager (pm_config m) (<[id := p]> (peers m)) conn b).
Proof.
  intros [Hk Hc Hs] Hid Hok Hother Hst. constructor; cbn.
  - intros x q. rewrite lookup_insert. case_decide as Hx; [intros [= <-]; by subst|apply Hk].
  - intros x Hin. rewrite lookup_insert. case_decide as Hx; [done|]. apply Hc. by apply Hother.
  - intros x q. rewrite lookup_insert. case_decide as Hx; [intros [= <-]; by subst|]. intros Hq.
    destruct (Hother x ltac:(congruence)) as [Hin Hag]. specialize (Hs x q Hq). unfold state_agrees in *. cbn.
    destruct (pi_state q); try done; rewrite ?Hin; auto.
Qed.

(** A peer replaced by another in the same state. *)
Lemma inv_insert again m id p q :
  pm_inv again m -> peers m !! id = Some q -> pi_id p = id -> score_ok (pi_score p) -> pi_state p = pi_state q ->
  pm_inv again (set_peers m (<[id := p]> (peers m))).
Proof.
  intros Hm Hq Hid Hok Hst. eapply inv_replace; [exact Hm|done|done|done|]. rewrite Hst.
  exact (pi_states _ _ Hm id q Hq).
Qed.

Lemma inv_add again m info :
  pm_inv again m -> score_ok (pi_score info) -> pi_state info = PS_Disconnected ->
  pm_inv (if decide (pi_id info ∈ connected m) then {[pi_id info]} ∪ again else again) (add_peer m info).
Proof.
  intros Hm Hok Hst. eapply (inv_replace again); [exact Hm|done|done| |].
  - intros x Hx. split; [done|]. case_decide; set_solver.
  - rewrite Hst. cbn. intros Hin. rewrite decide_True by done. set_solver.
Qed.

Lemma inv_banned again m b : pm_inv again m -> pm_inv again (set_banned m b).
Proof. intros [Hk Hc Hs]. by constructor. Qed.

Lemma inv_update again m id f :
  pm_inv again m -> (forall s, score_ok s -> score_ok (f s)) -> pm_inv again (update_score m id f).
Proof.
  intros Hm Hf. unfold update_score. destruct (peers m !! id) as [p|] eqn:E; [|done].
  destruct (pi_keys _ _ Hm id p E) as [Hid Hs]. eapply inv_insert; [done|exact E|done| |done]. by apply Hf.
Qed.

Lemma inv_penalize again now m id amount :
  pm_inv again m -> 0 <= amount -> pm_inv again (penalize_amount now m id amount).2.
Proof.
  intros Hm Ha. unfold penalize_amount. destruct (peers m !! id) as [p|] eqn:E; [|done].
  destruct (pi_keys _ _ Hm id p E) as [Hid Hs].
  pose proof (apply_penalty_ok now (pi_score p) amount Hs Ha) as Hs'.
  destruct (apply_penalty_amount _ _ _) as [[] s]; cbn [snd] in *; [|by eapply inv_insert].
  unfold set_banned, set_connected, set_peers. cbn [pm_config peers connected banned].
  eapply inv_replace; [exact Hm|done|done| |]; cbn; set_solver.
Qed.

Lemma penalty_of_nonneg r : 0 <= penalty_of r.
Proof. by destruct r. Qed.

Lemma inv_state again now m id st :
  pm_inv again m ->
  pm_inv (match st with PS_Connected | PS_Disconnected | PS_Banned => again ∖ {[id]} | _ => again end)
    (set_state now m id st).
Proof.
  intros Hm. unfold set_state. destruct (peers m !! id) as [p|] eqn:E.
  - destruct (pi_keys _ _ Hm id p E) as [Hid Hs]. unfold set_connected, set_peers. cbn [pm_config peers connected banned].
    destruct st; (eapply inv_replace; [exact Hm|done|done| |]); cbn; set_solver.
  - assert (forall x, x ∈ connected m -> x <> id) as Hne.
    { intros x Hx ->. apply (pi_connected _ _ Hm) in Hx. rewrite E in Hx. by destruct Hx. }
    destruct st; try exact Hm; destruct Hm as [Hk Hc Hs]; (constructor; [done|done|]);
      intros x q Hq; specialize (Hs x q Hq); unfold state_agrees in *; destruct (pi_state q); try done; set_solver.
Qed.

(** The peer [unban] finds. *)
Lemma unban_cases now (m : manager) (addr : Addr) order :
  unban now m addr order = set_banned m (delete addr (banned m)) \/
  exists id p st, peers m !! id = Some p /\ pi_addr p = addr /\
    unban now m addr order = set_peers (set_banned m (delete addr (banned m)))
      (<[id := with_state (with_score p (PeerScore_new now)) st]> (peers m)) /\
    st = (if decide (pi_state p = PS_Banned) then PS_Disconnected else pi_state p).
Proof.
  unfold unban. destruct (head _) as [[id p]|] eqn:E; [right|by left].
  apply head_Some_elem_of, list_elem_of_omap in E as (id' & _ & E).
  cbn in E. destruct (peers m !! id') as [p'|] eqn:Ep; [|done]. cbn in E. case_decide as Ha; [|done].
  injection E as <- <-. exists id', p', (if decide (pi_state p' = PS_Banned) then PS_Disconnected else pi_state p').
  split; [done|]. split; [done|]. split; [|done]. cbn. case_decide as Hst; [done|].
  by destruct p'.
Qed.

Lemma pm_inv_step again m m' : pm_inv again m -> pm_step m m' -> pm_inv again m'.
Proof.
  intros Hm Hstep. destruct Hstep as [now id h|now id r|now id a Ha|now id a|now id|id|now id d|now addr order|now].
  - unfold set_height. destruct (peers m !! id) as [p|] eqn:E; [|done].
    destruct (pi_keys _ _ Hm id p E). by eapply inv_insert.
  - apply inv_penalize; [done|apply penalty_of_nonneg].
  - by apply inv_penalize.
  - apply inv_update; [done|]. intros. by apply apply_reward_ok.
  - apply inv_update; [done|]. intros. by apply record_delivery_ok.
  - by apply inv_update.
  - apply inv_update; [done|]. intros. by apply record_response_ok.
  - destruct (unban_cases now m addr order) as [-> |(id & p & st & Hp & _ & -> & Hst)]; [by apply inv_banned|].
    destruct (pi_keys _ _ Hm id p Hp) as [Hid _]. pose proof (pi_states _ _ Hm id p Hp) as Hag.
    unfold set_banned, set_peers. cbn [pm_config peers connected banned].
    eapply inv_replace; [exact Hm|done|apply score_new_ok|done|]. cbn [pi_state with_state]. subst st.
    unfold state_agrees in *. cbn. case_decide as Hb; [|by destruct (pi_state p)]. rewrite Hb in Hag. done.
  - by apply inv_banned.
Qed.

Lemma pm_reachable_inv c again m : pm_reachable c again m -> pm_inv again m.
Proof.
  induction 1 as [|again m info _ IH Hs Hst|again m now id st _ IH|again m m' _ IH Hstep].
  - constructor; cbn; [done|set_solver|done].
  - by apply inv_add.
  - by apply inv_state.
  - by eapply pm_inv_step.
Qed.

(** Sorting puts every element at its place relative to its neighbours when of
    two elements one may stay before the other. *)
Lemma sort_by_sorted {A} (le : A -> A -> bool) l :
  (forall x y, le x y = false -> le y x = true) -> Sorted (fun x y => le x y = true) (sort_by le l).
Proof.
  intros Htot. induction l as [|x l IH]; [constructor|]. change (sort_by le (x :: l)) with (insert_by le x (sort_by le l)).
  induction IH as [|y l' Hl IHl Hhd]; cbn; [by repeat constructor|].
  destruct (le x y) eqn:E; [by repeat constructor|]. constructor; [done|].
  destruct l' as [|z l'']; cbn; [constructor; by apply Htot|].
  inversion Hhd; subst. destruct (le x z); constructor; [by apply Htot|done].
Qed.

Lemma by_priority_total now (p q : PeerInfo (Addr := Addr)) : by_priority now p q = false -> by_priority now q p = true.
Proof.
  unfold by_priority. intros Hlt%negb_false_iff. apply negb_true_iff. by apply f64_ltb_asym.
Qed.

Lemma sort_by_priority_sorted now (l : list (PeerInfo (Addr := Addr))) :
  Sorted (fun p q => f64_ltb (score_priority now (pi_score p)) (score_priority now (pi_score q)) = false)
    (sort_by (by_priority now) l).
Proof.
  induction (sort_by_sorted (by_priority now) l (by_priority_total now)) as [|p l' _ IH Hhd]; constructor; [done|].
  destruct Hhd as [|q l'' Hq]; constructor. by apply negb_true_iff.
Qed.

Lemma sorted_take {A} (R : A -> A -> Prop) n l : Sorted R l -> Sorted R (take n l).
Proof.
  intros Hs. revert n. induction Hs as [|x l Hl IH Hhd]; intros [|n]; cbn; try constructor; [apply IH|].
  destruct n, Hhd; cbn; by constructor.
Qed.

(** The connected peers, each once. *)
Lemma get_connected_elem again (m : manager) order p :
  pm_inv again m -> order ≡ₚ elements (connected m) ->
  p ∈ get_connected m order <-> pi_id p ∈ connected m /\ peers m !! pi_id p = Some p.
Proof.
  intros Hm Hord. unfold get_connected, get_peer. rewrite list_elem_of_omap. split.
  - intros (id & Hid & Hp). rewrite Hord, elem_of_elements in Hid. by destruct (pi_keys _ _ Hm id p Hp) as [-> _].
  - intros [Hin Hp]. exists (pi_id p). by rewrite Hord, elem_of_elements.
Qed.

(** C39: In every peer manager that any operations lead to, the table is keyed
    by the identifiers of its peers, penalties and rewards are within their
    caps, and the connected set is of known peers and agrees with their states:
    a peer in the connected state is in it, a banned one is not, and a
    disconnected one is not unless it was added again while connected.  The
    peers selected for synchronisation are connected, not banned and below the
    ban threshold, at most as many as asked for, in the order of their
    priorities, and all such peers when fewer are selected than asked for. *)
Theorem peer_manager_invariant c again m now order n :
  pm_reachable c again m -> order ≡ₚ elements (connected m) ->
  let selected := get_sync_peers now m order n in
  (forall id p, peers m !! id = Some p -> pi_id p = id /\ score_ok (pi_score p)) /\
  length (get_connected m order) = size (connected m) /\
  (forall id p, peers m !! id = Some p ->
     (pi_state p = PS_Connected -> id ∈ connected m) /\ (pi_state p = PS_Banned -> id ∉ connected m) /\
     (pi_state p = PS_Disconnected -> id ∈ connected m -> id ∈ again)) /\
  (length selected <= n)%nat /\
  (forall p, p ∈ selected -> peers m !! pi_id p = Some p /\ pi_id p ∈ connected m /\ pi_state p <> PS_Banned /\
     current_penalty now (pi_score p) < BAN_THRESHOLD) /\
  Sorted (fun p q => f64_ltb (score_priority now (pi_score p)) (score_priority now (pi_score q)) = false) selected /\
  ((length selected < n)%nat -> forall id p, id ∈ connected m -> peers m !! id = Some p ->
     current_penalty now (pi_score p) < BAN_THRESHOLD -> p ∈ selected).
Proof.
  intros Hm%pm_reachable_inv Hord. cbv zeta. pose proof Hm as [Hk Hc Hs].
  set (fit := base.filter (fun p => should_ban now (pi_score p) = false) (get_connected m order)).
  assert (forall p, p ∈ sort_by (by_priority now) fit <->
    (pi_id p ∈ connected m /\ peers m !! pi_id p = Some p) /\ current_penalty now (pi_score p) < BAN_THRESHOLD) as Hfit.
  { intros p. rewrite sort_by_perm. unfold fit. rewrite list_elem_of_filter, (get_connected_elem again) by done.
    unfold should_ban. rewrite Z.geb_leb, Z.leb_gt. tauto. }
  unfold get_sync_peers. fold fit. split_and!; [done| | | | | |].
  - unfold get_connected. rewrite (omap_length_all (get_peer m)); [by rewrite Hord|].
    intros id Hid. apply Hc. by rewrite Hord, elem_of_elements in Hid.
  - intros id p Hp. specialize (Hs id p Hp). unfold state_agrees in Hs. destruct (pi_state p); naive_solver.
  - rewrite length_take. lia.
  - intros p (i & Hi & _)%elem_of_take. apply list_elem_of_lookup_2, Hfit in Hi as [[Hin Hp] Hlt].
    split_and!; [done..| |done]. intros Hb. specialize (Hs _ _ Hp). by rewrite Hb in Hs.
  - apply sorted_take. apply sort_by_priority_sorted.
  - rewrite length_take. intros Hlen id p Hin Hp Hlt. rewrite take_ge by lia. apply Hfit.
    destruct (Hk id p Hp) as [-> _]. done.
Qed.

(** ** Bans *)

(** An operation that does not lift the ban of a peer by hand. *)
Definition leaves_alone (id : bytes) (addr : Addr) (m m' : manager) : Prop :=
  (exists info, m' = add_peer m info /\ pi_id info <> id) \/
  (exists now id' st, m' = set_state now m id' st /\ id' <> id) \/
  (exists now id' h, m' = set_height now m id' h) \/
  (exists now id' amount, m' = (penalize_amount now m id' amount).2) \/
  (exists id' f, m' = update_score m id' f) \/
  (exists now addr' order, m' = unban now m addr' order /\ addr' <> addr) \/
  (exists now, m' = cleanup_expired_bans now m).

Definition banned_peer (id : bytes) (addr : Addr) (m : manager) : Prop :=
  exists p, peers m !! id = Some p /\ pi_addr p = addr /\ pi_state p = PS_Banned.

Lemma banned_insert id addr (m : manager) id' p :
  banned_peer id addr m -> (id' = id -> pi_addr p = addr /\ pi_state p = PS_Banned) ->
  banned_peer id addr (set_peers m (<[id' := p]> (peers m))).
Proof.
  intros (q & Hq & Ha & Hs) Hp. destruct (decide (id' = id)) as [->|Hne].
  - exists p. cbn. rewrite lookup_insert_eq. split; [done|by apply Hp].
  - exists q. cbn. by rewrite lookup_insert_ne.
Qed.

Lemma banned_step id addr m m' : banned_peer id addr m -> leaves_alone id addr m m' -> banned_peer id addr m'.
Proof.
  intros Hb.
  assert (forall id' (p : PeerInfo), peers m !! id' = Some p -> id' = id -> pi_addr p = addr /\ pi_state p = PS_Banned)
    as Hown.
  { intros id' p Hp ->. destruct Hb as (q & Hq & ?). by simplify_eq. }
  intros [(info & -> & Hne)|[(now & id' & st & -> & Hne)|[(now & id' & h & ->)|[(now & id' & a & ->)|
    [(id' & f & ->)|[(now & addr' & order & -> & Hne)|(now & ->)]]]]]].
  - by apply banned_insert.
  - unfold set_state. destruct (peers m !! id') as [p|]; [|done].
    assert (banned_peer id addr (set_peers m (<[id' := with_last_seen (with_state p st) now]> (peers m)))) as Hi
      by (by apply banned_insert).
    by destruct st.
  - unfold set_height. destruct (peers m !! id') as [p|] eqn:E; [|done]. apply banned_insert; [done|].
    intros He. by destruct (Hown id' p E He).
  - unfold penalize_amount. destruct (peers m !! id') as [p|] eqn:E; [|done].
    destruct (apply_penalty_amount _ _ _) as [[] s]; cbn [snd].
    + assert (banned_peer id addr (set_peers m (<[id' := with_state (with_score p s) PS_Banned]> (peers m)))) as Hi;
        [|done]. apply banned_insert; [done|]. intros He. by destruct (Hown id' p E He).
    + apply banned_insert; [done|]. intros He. by destruct (Hown id' p E He).
  - unfold update_score. destruct (peers m !! id') as [p|] eqn:E; [|done]. apply banned_insert; [done|].
    intros He. by destruct (Hown id' p E He).
  - destruct (unban_cases now m addr' order) as [-> |(id' & p & st & Hp & Ha & -> & _)]; [done|].
    apply (banned_insert id addr (set_banned m (delete addr' (banned m)))); [done|].
    intros ->. destruct (Hown id p Hp eq_refl) as [Ha' _]. by rewrite Ha in Ha'.
  - done.
Qed.

Lemma connect_disconnected now (m : manager) order count addrs :
  get_peers_to_connect now m order count = Some addrs ->
  forall a, a ∈ addrs -> exists id p, peers m !! id = Some p /\ pi_addr p = a /\ pi_state p = PS_Disconnected.
Proof.
  revert count addrs. induction order as [|id order IH]; intros [|count] addrs; cbn [get_peers_to_connect].
  1-3: intros [= <-] a Ha; by apply not_elem_of_nil in Ha.
  destruct (peers m !! id) as [p|] eqn:E; [|apply IH]. case_decide as Hs; [|apply IH].
  destruct (is_banned now m (pi_addr p)) as [[]|]; [apply IH| |done]. cbn.
  destruct (get_peers_to_connect now m order count) as [rest|] eqn:Er; [|done]. cbn.
  intros [= <-] a [->|Ha]%elem_of_cons; [by exists id, p|by eapply IH].
Qed.

(** A ban outlives its duration.  Whatever happens to other peers, and whatever
    penalties, rewards and expired bans are processed, a banned peer keeps its
    banned state until it is unbanned, reconnected or added again by hand, and
    is never the reason an address is offered for a connection; and asking
    whether its expired ban holds has no answer. *)
Theorem expired_ban_not_lifted id addr m m' now order count :
  banned_peer id addr m -> rtc (leaves_alone id addr) m m' ->
  banned_peer id addr m' /\
  (forall t, banned m' !! addr = Some t -> t <= now -> is_banned now m' addr = None) /\
  (forall addrs, get_peers_to_connect now m' order count = Some addrs -> addr ∈ addrs ->
     exists id' p, id' <> id /\ peers m' !! id' = Some p /\ pi_addr p = addr).
Proof.
  intros Hb Hsteps. assert (banned_peer id addr m') as Hb'.
  { revert Hb. induction Hsteps as [m|m1 m2 m3 Hs _ IH]; [done|]. intros Hb. apply IH. by eapply banned_step. }
  split; [done|]. split.
  - intros t Ht Hnow. unfold is_banned. rewrite Ht. destruct (Z.ltb_spec now t); [lia|done].
  - intros addrs Hc Ha. destruct (connect_disconnected _ _ _ _ _ Hc addr Ha) as (id' & p & Hp & Hpa & Hs).
    exists id', p. split; [|done]. intros ->. destruct Hb' as (q & Hq & _ & Hbs). rewrite Hp in Hq. injection Hq as ->. by rewrite Hs in Hbs.
Qed.

End Manager.

(** ** Declined modifiers *)

(** The maximum size of the table of declined modifiers is not enforced: of
    any number of modifiers declined within the lifetime of an entry, all stay
    in the table. *)
Theorem decline_table_unbounded max_size ttl now ids reason :
  0 < ttl -> NoDup ids ->
  let t := fold_left (fun t id => decline now t id reason) ids (DeclineTable_new max_size ttl) in
  size (dt_entries t) = length ids /\
  forall later id, now <= later < now + ttl -> decline_contains later t id = bool_decide (id ∈ ids).
Proof.
  intros Httl Hnd. cbv zeta.
  assert (forall ids0 t, NoDup (ids0 ++ ids) -> dt_ttl t = ttl ->
    dt_entries t = list_to_map ((fun id => (id, mkDeclineEntry now reason)) <$> rev ids0) ->
    dt_entries (fold_left (fun t id => decline now t id reason) ids t) =
    list_to_map ((fun id => (id, mkDeclineEntry now reason)) <$> rev (ids0 ++ ids)) /\
    dt_ttl (fold_left (fun t id => decline now t id reason) ids t) = ttl) as Hgen.
  { clear Hnd. induction ids as [|id ids IH]; intros ids0 t Hnd Ht He; cbn [fold_left].
    { by rewrite app_nil_r. }
    rewrite cons_middle, app_assoc. apply IH; [by rewrite <- app_assoc| |].
    - unfold decline. destruct (_ >=? _); done.
    - rewrite rev_app_distr. cbn [rev app fmap list_fmap list_to_map foldr fst snd].
      assert (dt_entries (cleanup now t) = dt_entries t) as Hcl.
      { cbn. apply map_filter_id. intros i e Hi. rewrite He in Hi. apply elem_of_list_to_map_2 in Hi.
        apply list_elem_of_fmap in Hi as (x & [= <- ->] & _). cbn. unfold elapsed, sat_sub. lia. }
      unfold decline. cbv zeta. destruct (_ >=? _); cbn [dt_entries]; rewrite ?Hcl, He; done. }
  destruct (Hgen [] (DeclineTable_new max_size ttl) Hnd eq_refl eq_refl) as [He Ht]. cbn [app] in He.
  split.
  - rewrite He. rewrite map_size_list_to_map.
    + by rewrite length_fmap, length_rev.
    + rewrite <- list_fmap_compose. rewrite (list_fmap_ext _ id _ (fun _ _ _ => eq_refl)), list_fmap_id.
      by rewrite <- Permutation_rev.
  - intros later id Hl. unfold decline_contains, is_declined. rewrite He, Ht.
    destruct (list_to_map _ !! id) as [e|] eqn:El.
    + apply elem_of_list_to_map_2, list_elem_of_fmap in El as (x & [= <- ->] & Hx).
      rewrite <- Permutation_rev in Hx. rewrite bool_decide_eq_true_2 by done. cbn [de_added_at].
      unfold elapsed, sat_sub. destruct (_ <? _) eqn:E; zify_bool; [done|lia].
    + rewrite bool_decide_eq_false_2; [done|]. intros Hid.
      apply not_elem_of_list_to_map in El. apply El. rewrite <- list_fmap_compose.
      apply list_elem_of_fmap. exists id. split; [done|]. by rewrite <- Permutation_rev.
Qed.

Module PeersExample.

Abbreviation info1 := (PeerInfo_new (Addr := Z) (fun a => [a]) 0 7 true).
Abbreviation m0 := (PeerManager_new (Addr := Z) PeerManagerConfig_default).
Definition m1 : PeerManager (Addr := Z) := add_peer m0 info1.
Definition m2 : PeerManager (Addr := Z) := set_state 0 m1 [7] PS_Connected.
Definition m3 : PeerManager (Addr := Z) := (penalize 0 m2 [7] PR_ProtocolViolation).2.

Lemma m2_reachable : pm_reachable PeerManagerConfig_default ∅ m2.
Proof.
  assert (pm_reachable PeerManagerConfig_default ∅ m1) as H1.
  { apply (pm_add PeerManagerConfig_default ∅ m0 info1); [constructor|apply score_new_ok|done]. }
  apply (pm_state _ _ _ 0 [7] PS_Connected) in H1. rewrite difference_empty_L in H1 || rewrite empty_difference_L in H1. exact H1.
Qed.

(** Five hundred points in three penalties, 59 seconds apart. *)
Lemma frequent_penalties_never_decay_witness :
  let t := 118 * NANOS_PER_SEC in
  (apply_penalty_amount t (fold_left penalise [(0, 200); (59 * NANOS_PER_SEC, 200)] (PeerScore_new 0)) 100).1 = true.
Proof.
  intros t. destruct (frequent_penalties_never_decay (PeerScore_new 0) [(0, 200); (59 * NANOS_PER_SEC, 200)] t 100)
    as [-> _]; [apply score_new_ok| | |vm_compute; reflexivity].
  - cbn. unfold t, NANOS_PER_SEC. lia.
  - repeat constructor; unfold in_u; cbn; lia.
Defined.

Lemma peer_manager_invariant_witness :
  length (get_connected m2 (elements (connected m2))) = 1%nat /\
  with_last_seen (with_state info1 PS_Connected) 0 ∈ get_sync_peers 0 m2 (elements (connected m2)) 5.
Proof.
  destruct (peer_manager_invariant PeerManagerConfig_default ∅ m2 0 (elements (connected m2)) 5 m2_reachable)
    as (_ & Hl & _ & _ & _ & _ & Hall); [reflexivity|]. split; [rewrite Hl; vm_compute; reflexivity|].
  apply (Hall ltac:(vm_compute; lia) [7]); [|reflexivity|vm_compute; reflexivity].
  apply (bool_decide_unpack _). vm_compute. exact I.
Defined.

(** An hour and more after its ban the peer is still banned. *)
Lemma expired_ban_not_lifted_witness :
  is_banned (7200 * NANOS_PER_SEC) m3 7 = None /\
  get_peers_to_connect (7200 * NANOS_PER_SEC) m3 [[7]] 1 = Some [].
Proof.
  split; [|vm_compute; reflexivity].
  destruct (expired_ban_not_lifted [7] 7 m3 m3 (7200 * NANOS_PER_SEC) [[7]] 1) as (_ & Hb & _).
  - eexists. split; [vm_compute; reflexivity|]. split; reflexivity.
  - constructor.
  - apply (Hb (3600 * NANOS_PER_SEC)); [vm_compute; reflexivity|vm_compute; discriminate].
Defined.

(** Three modifiers in a table for two. *)
Lemma decline_table_unbounded_witness :
  size (dt_entries (fold_left (fun t id => decline 0 t id "") [[1]; [2]; [3]] (DeclineTable_new 2 600))) = 3%nat.
Proof.
  refine (proj1 (decline_table_unbounded 2 600 0 [[1]; [2]; [3]] "" _ _)); [lia|].
  apply (bool_decide_unpack _). vm_compute. exact I.
Defined.

End PeersExample.
