(* ===== verification/SyncHeaders.v ===== *)
(** * Headers the synchronisation keeps in memory (crates/ergo-sync/src/protocol.rs)

    [HeaderChain]: the headers received and not applied, with the identifiers
    of their block transactions; [PendingHeadersMap]: the headers that wait for
    their parent, indexed by identifier, parent and height, with the eviction
    of the lowest.  The invariants of both, and what each operation does to
    them. *)

From S2P Require Export ErgoTypes.

Local Open Scope Z_scope.

Definition MAX_CACHED_HEADERS : Z := 50000.
Definition MAX_PENDING_BLOCKS : Z := 10000.

Section SyncHeaders.
Context `{ChainTypes}.

(** ** [HeaderChain] *)

Record HeaderChain := mkHeaderChain {
  hc_headers : list Header;
  hc_missing_blocks : list bytes;
  hc_tx_id_to_header_id : gmap bytes bytes;
  hc_header_id_to_tx_id : gmap bytes bytes;
  hc_headers_by_id : gmap bytes Header
}.

Definition HeaderChain_new : HeaderChain := mkHeaderChain [] [] ∅ ∅ ∅.

(** Adding to the deque and to the three indexes. *)
Definition track_header (header : Header) (transactions_id header_id : bytes) (c : HeaderChain)
    : HeaderChain :=
  mkHeaderChain (hc_headers c ++ [header]) (hc_missing_blocks c)
    (<[transactions_id := header_id]> (hc_tx_id_to_header_id c))
    (<[header_id := transactions_id]> (hc_header_id_to_tx_id c))
    (<[header_id := header]> (hc_headers_by_id c)).

(** A header and its mappings leave the indexes. *)
Definition remove_header (header_id : bytes) (c : HeaderChain) : HeaderChain :=
  mkHeaderChain (hc_headers c) (hc_missing_blocks c)
    (match hc_header_id_to_tx_id c !! header_id with
     | Some tx_id => delete tx_id (hc_tx_id_to_header_id c)
     | None => hc_tx_id_to_header_id c
     end)
    (delete header_id (hc_header_id_to_tx_id c))
    (delete header_id (hc_headers_by_id c)).

Definition get_header_by_id (header_id : bytes) (c : HeaderChain) : option Header :=
  hc_headers_by_id c !! header_id.
Definition get_tx_id (header_id : bytes) (c : HeaderChain) : option bytes :=
  hc_header_id_to_tx_id c !! header_id.

(** The two loops of [enforce_limits]; a step shortens the deque. *)
Fixpoint trim_headers (fuel : nat) (c : HeaderChain) : HeaderChain :=
  match fuel with
  | O => c
  | S fuel' =>
      if Z.of_nat (length (hc_headers c)) >? MAX_CACHED_HEADERS then
        match hc_headers c with
        | old_header :: rest =>
            let c := remove_header (h_id old_header) c in
            trim_headers fuel' (mkHeaderChain rest (hc_missing_blocks c) (hc_tx_id_to_header_id c)
              (hc_header_id_to_tx_id c) (hc_headers_by_id c))
        | [] => c
        end
      else c
  end.

Fixpoint trim_missing (fuel : nat) (c : HeaderChain) : HeaderChain :=
  match fuel with
  | O => c
  | S fuel' =>
      if Z.of_nat (length (hc_missing_blocks c)) >? MAX_PENDING_BLOCKS then
        match hc_missing_blocks c with
        | old_tx_id :: rest =>
            trim_missing fuel'
              (match hc_tx_id_to_header_id c !! old_tx_id with
               | Some header_id =>
                   mkHeaderChain (hc_headers c) rest (delete old_tx_id (hc_tx_id_to_header_id c))
                     (delete header_id (hc_header_id_to_tx_id c))
                     (delete header_id (hc_headers_by_id c))
               | None =>
                   mkHeaderChain (hc_headers c) rest (hc_tx_id_to_header_id c)
                     (hc_header_id_to_tx_id c) (hc_headers_by_id c)
               end)
        | [] => c
        end
      else c
  end.

Definition enforce_limits (c : HeaderChain) : HeaderChain :=
  let c := trim_headers (length (hc_headers c)) c in
  trim_missing (length (hc_missing_blocks c)) c.

Definition add_header (header : Header) (transactions_id header_id : bytes) (c : HeaderChain)
    : HeaderChain := enforce_limits (track_header header transactions_id header_id c).

(** The height of the header that was added last. *)
Definition back_height (c : HeaderChain) : option Z := h_height <$> last (hc_headers c).

(** ** [PendingHeadersMap] *)

Record PendingHeader := mkPendingHeader {
  ph_header : Header;
  ph_raw_bytes : bytes;
  ph_parent_id : bytes
}.

(** [by_height] is a [BTreeSet]: a set read in ascending order. *)
Record PendingHeadersMap := mkPendingHeadersMap {
  by_id : gmap bytes PendingHeader;
  by_parent : gmap bytes (gset bytes);
  by_height : gset (Z * bytes)
}.

Definition PendingHeadersMap_new : PendingHeadersMap := mkPendingHeadersMap ∅ ∅ ∅.

Definition pending_len (m : PendingHeadersMap) : nat := size (by_id m).
Definition pending_is_empty (m : PendingHeadersMap) : bool := (pending_len m =? 0)%nat.

(** The order of pairs, and the first element of the set. *)
Definition entry_ltb (a b : Z * bytes) : bool :=
  match a.1 ?= b.1 with
  | Lt => true
  | Gt => false
  | Eq => match bytes_cmp (a.2) (b.2) with Lt => true | _ => false end
  end.

Definition first_entry (s : gset (Z * bytes)) : option (Z * bytes) :=
  foldr (fun e best =>
    match best with
    | Some b => if entry_ltb b e then Some b else Some e
    | None => Some e
    end) None (elements s).

Definition pending_remove (id : bytes) (m : PendingHeadersMap)
    : option PendingHeader * PendingHeadersMap :=
  match by_id m !! id with
  | Some pending =>
      let parents :=
        match by_parent m !! ph_parent_id pending with
        | Some children =>
            if decide (children ∖ {[id]} = ∅) then delete (ph_parent_id pending) (by_parent m)
            else <[ph_parent_id pending := children ∖ {[id]}]> (by_parent m)
        | None => by_parent m
        end in
      (Some pending,
       mkPendingHeadersMap (delete id (by_id m)) parents
         (by_height m ∖ {[(h_height (ph_header pending), id)]}))
  | None => (None, m)
  end.

(** At capacity the entry of the lowest height leaves first, whether or not
    the identifier is already there. *)
Definition pending_insert (id : bytes) (pending : PendingHeader) (max_size : Z)
    (m : PendingHeadersMap) : option Z * PendingHeadersMap :=
  let '(evicted_height, m) :=
    if Z.of_nat (size (by_id m)) >=? max_size then
      match first_entry (by_height m) with
      | Some (height, evict_id) => (Some height, (pending_remove evict_id m).2)
      | None => (None, m)
      end
    else (None, m) in
  let children := default ∅ (by_parent m !! ph_parent_id pending) in
  (evicted_height,
   mkPendingHeadersMap (<[id := pending]> (by_id m))
     (<[ph_parent_id pending := {[id]} ∪ children]> (by_parent m))
     ({[(h_height (ph_header pending), id)]} ∪ by_height m)).

(** The children of a parent, in the order of the hash set. *)
Context (children_iter : gset bytes -> list bytes).

Definition get_by_parent (parent_id : bytes) (m : PendingHeadersMap)
    : list (bytes * PendingHeader) :=
  match by_parent m !! parent_id with
  | Some child_ids => omap (fun id => (fun ph => (id, ph)) <$> by_id m !! id) (children_iter child_ids)
  | None => []
  end.

Definition pending_clear (m : PendingHeadersMap) : PendingHeadersMap := PendingHeadersMap_new.

End SyncHeaders.
