(* ===== verification/SyncHeadersSpec.v ===== *)
(** * The map of waiting headers is consistent

    The three indexes of [PendingHeadersMap] describe the same entries; what
    [pending_insert], [pending_remove] and [get_by_parent] do to them; the
    bound on their number and the entry that is evicted. *)

From S2P Require Export SyncHeaders.

Local Open Scope Z_scope.

Section Spec.
Context `{ChainTypes}.
Implicit Types (m : PendingHeadersMap) (ph : PendingHeader) (id p : bytes).

Definition ph_height ph : Z := h_height (ph_header ph).

Record pm_ok m : Prop := {
  pm_by_parent id p :
    (exists ch, by_parent m !! p = Some ch /\ id ∈ ch) <->
    exists ph, by_id m !! id = Some ph /\ ph_parent_id ph = p;
  pm_nonempty p ch : by_parent m !! p = Some ch -> ch <> ∅;
  pm_by_height h id : (h, id) ∈ by_height m <-> exists ph, by_id m !! id = Some ph /\ ph_height ph = h
}.

Lemma pm_new : pm_ok PendingHeadersMap_new.
Proof.
  constructor; cbn.
  - intros id p. split; [intros (ch & Hc & _)|intros (ph & Hp & _)]; by rewrite lookup_empty in *.
  - intros p ch Hp. by rewrite lookup_empty in Hp.
  - intros h id. split; [set_solver|]. intros (ph & Hp & _). by rewrite lookup_empty in Hp.
Qed.

(** ** Removing *)

Lemma pending_remove_by_id id m : by_id (pending_remove id m).2 = delete id (by_id m).
Proof.
  unfold pending_remove. destruct (by_id m !! id) eqn:E; cbn; [done|]. by rewrite delete_id.
Qed.

Lemma by_id_delete m id id' ph : id' <> id ->
  delete id (by_id m) !! id' = Some ph <-> by_id m !! id' = Some ph.
Proof. intros Hne. by rewrite lookup_delete_ne. Qed.

Lemma pm_remove id m : pm_ok m -> pm_ok (pending_remove id m).2.
Proof.
  intros [Hpar Hne Hh]. unfold pending_remove. destruct (by_id m !! id) as [ph|] eqn:E; [|done].
  destruct (proj2 (Hpar id (ph_parent_id ph)) (ex_intro _ ph (conj E eq_refl))) as (ch & Hch & Hin).
  rewrite Hch. constructor; cbn.
  - intros id' p. transitivity (id' <> id /\ exists ch0, by_parent m !! p = Some ch0 /\ id' ∈ ch0).
    + destruct (decide (p = ph_parent_id ph)) as [->|Hp].
      * rewrite Hch. case_decide as Hd.
        -- rewrite lookup_delete_eq. split; [naive_solver|]. intros (? & ch0 & [= <-] & ?). set_solver.
        -- rewrite lookup_insert_eq. split; [intros (? & [= <-] & ?); split; [set_solver|];
             exists ch; set_solver|]. intros (? & ch0 & [= <-] & ?). eexists. split; [done|set_solver].
      * match goal with |- context [?par !! p] => assert (par !! p = by_parent m !! p) as -> end.
        { case_decide; by rewrite ?lookup_delete_ne, ?lookup_insert_ne. }
        split; [|naive_solver].
        intros (ch0 & Hc0 & Hi0). split; [|by exists ch0]. intros ->. apply Hp.
        destruct (proj1 (Hpar id p)) as (ph' & E' & <-); [by exists ch0|]. congruence.
    + rewrite Hpar. split.
      * intros (Hn & ph' & Hp' & <-). exists ph'. by rewrite lookup_delete_ne.
      * intros (ph' & [Hn Hp']%lookup_delete_Some & <-). naive_solver.
  - intros p ch'. case_decide as Hd; [intros [_ Hl]%lookup_delete_Some; by eapply Hne|].
    intros [[<- <-]|[_ Hl]]%lookup_insert_Some; [done|by eapply Hne].
  - intros h id'. rewrite elem_of_difference, elem_of_singleton, Hh. split.
    + intros [(ph' & Hp' & <-) Hn]. exists ph'. split; [|done]. apply lookup_delete_Some. split; [|done].
      intros ->. rewrite E in Hp'. injection Hp' as <-. by apply Hn.
    + intros (ph' & [Hn Hp']%lookup_delete_Some & <-). split; [naive_solver|congruence].
Qed.

(** ** Inserting *)

Lemma entry_first (s : gset (Z * bytes)) :
  match first_entry s with
  | Some e => e ∈ s /\ forall e', e' ∈ s -> e.1 <= e'.1
  | None => s = ∅
  end.
Proof.
  unfold first_entry.
  assert (forall l : list (Z * bytes), match foldr (fun e best => match best with
      | Some b => if entry_ltb b e then Some b else Some e | None => Some e end) None l with
    | Some e => e ∈ l /\ forall e', e' ∈ l -> e.1 <= e'.1 | None => l = [] end) as Hl.
  { induction l as [|x l IH]; cbn [foldr]; [done|]. destruct (foldr _ None l) as [b|].
    - destruct IH as [Hin Hmin]. unfold entry_ltb at 1.
      destruct (Z.compare_spec (b.1) (x.1)) as [Heq|Hlt|Hgt];
        [destruct (bytes_cmp _ _)| |]; (split; [set_solver|]);
        (intros e' [->|He]%elem_of_cons; [lia|]); specialize (Hmin e' He); lia.
    - subst l. split; [set_solver|]. intros e' [->|He]%elem_of_cons; [lia|].
      by apply not_elem_of_nil in He. }
  specialize (Hl (elements s)). destruct (foldr _ None (elements s)) as [e|].
  - destruct Hl as [Hin Hmin]. split; [by apply elem_of_elements|].
    intros e' He. apply Hmin. by apply elem_of_elements.
  - apply elements_empty_iff in Hl. by apply leibniz_equiv.
Qed.

(** The entries before the new one is added: without the lowest at capacity. *)
Definition evicted (max_size : Z) m : PendingHeadersMap :=
  if Z.of_nat (size (by_id m)) >=? max_size then
    match first_entry (by_height m) with
    | Some (_, evict_id) => (pending_remove evict_id m).2
    | None => m
    end
  else m.

Definition add_entry id ph m : PendingHeadersMap :=
  mkPendingHeadersMap (<[id := ph]> (by_id m))
    (<[ph_parent_id ph := {[id]} ∪ default ∅ (by_parent m !! ph_parent_id ph)]> (by_parent m))
    ({[(h_height (ph_header ph), id)]} ∪ by_height m).

Lemma pending_insert_eq id ph max_size m :
  (pending_insert id ph max_size m).2 = add_entry id ph (evicted max_size m).
Proof.
  unfold pending_insert, evicted. destruct (_ >=? _); [|done].
  by destruct (first_entry (by_height m)) as [[h e]|].
Qed.

Lemma pm_evicted max_size m : pm_ok m -> pm_ok (evicted max_size m).
Proof.
  intros Hm. unfold evicted. destruct (_ >=? _); [|done].
  destruct (first_entry _) as [[h e]|]; [|done]. by apply pm_remove.
Qed.

(** An entry may only be replaced by one with the same parent and height. *)
Definition compatible id ph m : Prop :=
  forall old, by_id m !! id = Some old ->
    ph_parent_id old = ph_parent_id ph /\ ph_height old = ph_height ph.

Lemma pm_add id ph m : pm_ok m -> compatible id ph m -> pm_ok (add_entry id ph m).
Proof.
  intros [Hpar Hne Hh] Hc. constructor; cbn.
  - intros id' p. transitivity ((id' = id /\ p = ph_parent_id ph) \/
      exists ch0, by_parent m !! p = Some ch0 /\ id' ∈ ch0).
    + destruct (decide (p = ph_parent_id ph)) as [->|Hp].
      * rewrite lookup_insert_eq. destruct (by_parent m !! ph_parent_id ph) as [ch0|]; cbn; split.
        -- intros (ch & [= <-] & Hi). rewrite elem_of_union, elem_of_singleton in Hi. naive_solver.
        -- intros [[-> _]|(? & [= <-] & ?)]; (eexists; split; [done|set_solver]).
        -- intros (ch & [= <-] & Hi). left. set_solver.
        -- intros [[-> _]|(? & ? & ?)]; [|done]. eexists. split; [done|set_solver].
      * rewrite lookup_insert_ne by congruence. naive_solver.
    + rewrite Hpar. destruct (decide (id' = id)) as [->|Hn].
      * rewrite lookup_insert_eq. split.
        -- intros [[_ ->]|(old & Ho & <-)]; [by exists ph|].
           exists ph. split; [done|]. symmetry. by apply Hc.
        -- intros (ph' & [= <-] & <-). by left.
      * rewrite lookup_insert_ne by congruence. naive_solver.
  - intros p ch [[<- <-]|[_ Hl]]%lookup_insert_Some; [set_solver|by eapply Hne].
  - intros h id'. rewrite elem_of_union, elem_of_singleton, Hh.
    destruct (decide (id' = id)) as [->|Hn].
    + rewrite lookup_insert_eq. split.
      * intros [[= ->]|(old & Ho & <-)]; [by exists ph|].
        exists ph. split; [done|]. symmetry. by apply Hc.
      * intros (ph' & [= <-] & <-). by left.
    + rewrite lookup_insert_ne by congruence. naive_solver.
Qed.

Lemma evicted_by_id max_size m id ph :
  by_id (evicted max_size m) !! id = Some ph -> by_id m !! id = Some ph.
Proof.
  unfold evicted. destruct (_ >=? _); [|done]. destruct (first_entry _) as [[h e]|]; [|done].
  rewrite pending_remove_by_id. by intros [_ ?]%lookup_delete_Some.
Qed.

Lemma pm_insert id ph max_size m :
  pm_ok m -> compatible id ph m -> pm_ok (pending_insert id ph max_size m).2.
Proof.
  intros Hm Hc. rewrite pending_insert_eq. apply pm_add; [by apply pm_evicted|].
  intros old Ho. apply evicted_by_id in Ho. by apply Hc.
Qed.

(** Below capacity nothing is evicted; at capacity the number stays. *)
Lemma evicted_below max_size m : Z.of_nat (size (by_id m)) < max_size -> evicted max_size m = m.
Proof. intros Hlt. unfold evicted. destruct (Z.geb_spec (Z.of_nat (size (by_id m))) max_size); [lia|done]. Qed.

Lemma evicted_size max_size m :
  1 <= max_size -> pm_ok m -> Z.of_nat (size (by_id m)) <= max_size ->
  Z.of_nat (size (by_id (evicted max_size m))) < max_size.
Proof.
  intros Hmax Hm Hs. unfold evicted.
  destruct (Z.geb_spec (Z.of_nat (size (by_id m))) max_size) as [Hge|Hlt]; [|lia].
  pose proof (entry_first (by_height m)) as Hf. destruct (first_entry (by_height m)) as [[h e]|].
  - destruct Hf as [He _]. apply (pm_by_height _ Hm) in He as (ph & He & _).
    rewrite pending_remove_by_id, map_size_delete_Some by eauto. lia.
  - assert (by_id m = ∅) as E.
    { apply map_eq. intros id. rewrite lookup_empty. apply eq_None_not_Some. intros [ph Hp].
      assert ((ph_height ph, id) ∈ by_height m) as Hin; [|rewrite Hf in Hin; set_solver].
      apply (pm_by_height _ Hm). eauto. }
    rewrite E, map_size_empty in Hge. lia.
Qed.

Lemma insert_size id ph max_size m :
  1 <= max_size -> pm_ok m -> Z.of_nat (size (by_id m)) <= max_size ->
  Z.of_nat (size (by_id (pending_insert id ph max_size m).2)) <= max_size.
Proof.
  intros Hmax Hm Hs. rewrite pending_insert_eq. pose proof (evicted_size _ _ Hmax Hm Hs).
  unfold add_entry. cbn [by_id]. rewrite map_size_insert. destruct (_ !! id); cbn; lia.
Qed.

(** ** Looking up *)

Context (children_iter : gset bytes -> list bytes)
  (Hiter : forall s, children_iter s ≡ₚ elements s).

Lemma get_by_parent_spec m p id ph :
  pm_ok m -> (id, ph) ∈ get_by_parent children_iter p m <->
  by_id m !! id = Some ph /\ ph_parent_id ph = p.
Proof.
  intros Hm. unfold get_by_parent. split.
  - destruct (by_parent m !! p) as [ch|] eqn:E; [|by intros ?%not_elem_of_nil].
    rewrite list_elem_of_omap. intros (id' & Hin & He). rewrite Hiter, elem_of_elements in Hin.
    destruct (proj1 (pm_by_parent _ Hm id' p)) as (ph' & Hp' & Heq); [by exists ch|].
    rewrite Hp' in He. cbn in He. injection He as -> ->. done.
  - intros [Hid Hp]. destruct (proj2 (pm_by_parent _ Hm id p)) as (ch & Hch & Hin); [by exists ph|].
    rewrite Hch. apply list_elem_of_omap. exists id. rewrite Hiter, elem_of_elements, Hid. done.
Qed.

Lemma get_by_parent_nodup m p : NoDup (get_by_parent children_iter p m).*1.
Proof.
  unfold get_by_parent. destruct (by_parent m !! p) as [ch|]; [|constructor].
  assert (NoDup (children_iter ch)) as Hn by (rewrite Hiter; apply NoDup_elements).
  induction Hn as [|id l Hid _ IH]; cbn; [constructor|].
  destruct (by_id m !! id) as [ph|]; cbn; [|done]. constructor; [|done].
  intros ([id' ph'] & -> & Hin)%list_elem_of_fmap. apply list_elem_of_omap in Hin as (x & Hx & He).
  destruct (by_id m !! x); [|done]. cbn in He. injection He as -> _. done.
Qed.

(** Every listed entry is in the map, whatever the indexes say. *)
Lemma get_by_parent_in m p id ph :
  (id, ph) ∈ get_by_parent children_iter p m -> by_id m !! id = Some ph.
Proof.
  unfold get_by_parent. destruct (by_parent m !! p) as [ch|]; [|by intros ?%not_elem_of_nil].
  rewrite list_elem_of_omap. intros (x & _ & He). destruct (by_id m !! x) eqn:E; [|done].
  cbn in He. by injection He as -> ->.
Qed.
End Spec.
