(* ===== verification/Synchronizer.v ===== *)
(** * The synchroniser (crates/ergo-sync/src/sync.rs)

    The state of synchronisation: our height, the heights peers report, the
    queues of headers and blocks, and the bookkeeping of a UTXO snapshot
    (manifests announced by peers, chunks requested and received).  Each method
    is one function on the record behind the locks.  Peers, the iteration
    order of the manifests and the random choice of a peer are arguments, and
    so is the clock, in milliseconds. *)

From S2P Require Export Prelude Float64.

Local Open Scope Z_scope.

Definition HEADERS_BATCH_SIZE : Z := 100.
Definition MIN_SNAPSHOT_PEERS : Z := 2.
Definition CHUNKS_IN_PARALLEL_MIN : Z := 16.

Section Synchronizer.
Context {PeerId : Type} `{Countable PeerId}.

(** ** Data *)

Inductive SyncState :=
  | Idle
  | AwaitingSnapshotsInfo (requested_from started_at_ms : Z)
  | AwaitingManifest (manifest_id : bytes) (height : Z) (peer : PeerId)
  | DownloadingChunks (manifest_id : bytes) (height total_chunks downloaded_chunks : Z)
  | ApplyingSnapshot (height : Z)
  | SyncingHeaders (from to : Z)
  | SyncingBlocks (pending_count : Z)
  | Synchronized.

Record SyncConfig := mkSyncConfig {
  headers_batch : Z;
  parallel_downloads : Z;
  sync_timeout_secs : Z;
  utxo_bootstrap : bool;
  min_snapshot_peers : Z
}.

Definition SyncConfig_default : SyncConfig :=
  mkSyncConfig HEADERS_BATCH_SIZE 16 60 false MIN_SNAPSHOT_PEERS.

(** The height of a manifest and the peers that have it, by identifier. *)
Local Abbreviation AvailableManifests := (gmap bytes (Z * list PeerId)).

Record Synchronizer := mkSynchronizer {
  sy_config : SyncConfig;
  sy_state : SyncState;
  sy_peer_heights : gmap PeerId Z;
  sy_header_queue : list bytes;
  sy_block_queue : list bytes;
  sy_pending : gmap bytes PeerId;
  sy_our_height : Z;
  sy_utxo_snapshot_applied : bool;
  sy_available_manifests : AvailableManifests;
  sy_snapshot_peers : gset PeerId;
  sy_downloading_chunks : gmap bytes (PeerId * Z);
  sy_downloaded_chunks : gset bytes;
  sy_manifest_request_time : option Z
}.

Definition Synchronizer_new (config : SyncConfig) : Synchronizer :=
  mkSynchronizer config Idle ∅ [] [] ∅ 0 false ∅ ∅ ∅ ∅ None.

(** Writes to one of the locks. *)
Definition put_state (st : SyncState) (s : Synchronizer) : Synchronizer :=
  mkSynchronizer (sy_config s) st (sy_peer_heights s) (sy_header_queue s) (sy_block_queue s)
    (sy_pending s) (sy_our_height s) (sy_utxo_snapshot_applied s) (sy_available_manifests s)
    (sy_snapshot_peers s) (sy_downloading_chunks s) (sy_downloaded_chunks s)
    (sy_manifest_request_time s).
Definition put_peer_heights (p : gmap PeerId Z) (s : Synchronizer) : Synchronizer :=
  mkSynchronizer (sy_config s) (sy_state s) p (sy_header_queue s) (sy_block_queue s)
    (sy_pending s) (sy_our_height s) (sy_utxo_snapshot_applied s) (sy_available_manifests s)
    (sy_snapshot_peers s) (sy_downloading_chunks s) (sy_downloaded_chunks s)
    (sy_manifest_request_time s).
Definition put_header_queue (q : list bytes) (s : Synchronizer) : Synchronizer :=
  mkSynchronizer (sy_config s) (sy_state s) (sy_peer_heights s) q (sy_block_queue s)
    (sy_pending s) (sy_our_height s) (sy_utxo_snapshot_applied s) (sy_available_manifests s)
    (sy_snapshot_peers s) (sy_downloading_chunks s) (sy_downloaded_chunks s)
    (sy_manifest_request_time s).
Definition put_blocks (q : list bytes) (p : gmap bytes PeerId) (s : Synchronizer) : Synchronizer :=
  mkSynchronizer (sy_config s) (sy_state s) (sy_peer_heights s) (sy_header_queue s) q
    p (sy_our_height s) (sy_utxo_snapshot_applied s) (sy_available_manifests s)
    (sy_snapshot_peers s) (sy_downloading_chunks s) (sy_downloaded_chunks s)
    (sy_manifest_request_time s).
Definition put_our_height (height : Z) (s : Synchronizer) : Synchronizer :=
  mkSynchronizer (sy_config s) (sy_state s) (sy_peer_heights s) (sy_header_queue s)
    (sy_block_queue s) (sy_pending s) height (sy_utxo_snapshot_applied s)
    (sy_available_manifests s) (sy_snapshot_peers s) (sy_downloading_chunks s)
    (sy_downloaded_chunks s) (sy_manifest_request_time s).
Definition put_applied (b : bool) (s : Synchronizer) : Synchronizer :=
  mkSynchronizer (sy_config s) (sy_state s) (sy_peer_heights s) (sy_header_queue s)
    (sy_block_queue s) (sy_pending s) (sy_our_height s) b (sy_available_manifests s)
    (sy_snapshot_peers s) (sy_downloading_chunks s) (sy_downloaded_chunks s)
    (sy_manifest_request_time s).
Definition put_manifests (a : AvailableManifests) (s : Synchronizer) : Synchronizer :=
  mkSynchronizer (sy_config s) (sy_state s) (sy_peer_heights s) (sy_header_queue s)
    (sy_block_queue s) (sy_pending s) (sy_our_height s) (sy_utxo_snapshot_applied s) a
    (sy_snapshot_peers s) (sy_downloading_chunks s) (sy_downloaded_chunks s)
    (sy_manifest_request_time s).
Definition put_snapshot_peers (p : gset PeerId) (s : Synchronizer) : Synchronizer :=
  mkSynchronizer (sy_config s) (sy_state s) (sy_peer_heights s) (sy_header_queue s)
    (sy_block_queue s) (sy_pending s) (sy_our_height s) (sy_utxo_snapshot_applied s)
    (sy_available_manifests s) p (sy_downloading_chunks s) (sy_downloaded_chunks s)
    (sy_manifest_request_time s).
Definition put_chunks (downloading : gmap bytes (PeerId * Z)) (downloaded : gset bytes)
    (s : Synchronizer) : Synchronizer :=
  mkSynchronizer (sy_config s) (sy_state s) (sy_peer_heights s) (sy_header_queue s)
    (sy_block_queue s) (sy_pending s) (sy_our_height s) (sy_utxo_snapshot_applied s)
    (sy_available_manifests s) (sy_snapshot_peers s) downloading downloaded
    (sy_manifest_request_time s).
Definition put_manifest_time (t : option Z) (s : Synchronizer) : Synchronizer :=
  mkSynchronizer (sy_config s) (sy_state s) (sy_peer_heights s) (sy_header_queue s)
    (sy_block_queue s) (sy_pending s) (sy_our_height s) (sy_utxo_snapshot_applied s)
    (sy_available_manifests s) (sy_snapshot_peers s) (sy_downloading_chunks s)
    (sy_downloaded_chunks s) t.

(** ** Heights and blocks *)

Definition is_synced (s : Synchronizer) : bool :=
  match sy_state s with Synchronized => true | _ => false end.

(** [values().max()]; the maximum does not depend on the order. *)
Definition best_peer_height (s : Synchronizer) : option Z :=
  map_fold (fun _ h acc => Some (match acc with Some m => Z.max m h | None => h end)) None
    (sy_peer_heights s).

Definition best_or_zero (s : Synchronizer) : Z := default 0 (best_peer_height s).

Definition check_sync_status (s : Synchronizer) : Synchronizer :=
  let our := sy_our_height s in
  let best := best_or_zero s in
  if our >=? best then
    match sy_state s with
    | Synchronized => s
    | _ => put_state Synchronized s
    end
  else
    match sy_state s with
    | Idle | Synchronized | ApplyingSnapshot _ => put_state (SyncingHeaders our best) s
    | _ => s
    end.

Definition set_height (height : Z) (s : Synchronizer) : Synchronizer :=
  check_sync_status (put_our_height height s).

Definition set_peer_height (peer : PeerId) (height : Z) (s : Synchronizer) : Synchronizer :=
  check_sync_status (put_peer_heights (<[peer := height]> (sy_peer_heights s)) s).

Definition remove_peer (peer : PeerId) (s : Synchronizer) : Synchronizer :=
  put_peer_heights (delete peer (sy_peer_heights s)) s.

Definition start_header_sync (from to : Z) (s : Synchronizer) : Synchronizer :=
  put_state (SyncingHeaders from to) s.

Definition queue_headers (header_ids : list bytes) (s : Synchronizer) : Synchronizer :=
  put_header_queue (sy_header_queue s ++ header_ids) s.

Definition queue_blocks (block_ids : list bytes) (s : Synchronizer) : Synchronizer :=
  let queue := sy_block_queue s ++ block_ids in
  put_state (SyncingBlocks (Z.of_nat (length queue))) (put_blocks queue (sy_pending s) s).

Definition get_download_batch (count : nat) (s : Synchronizer) : list bytes * Synchronizer :=
  (take count (sy_block_queue s), put_blocks (drop count (sy_block_queue s)) (sy_pending s) s).

Definition block_received (block_id : bytes) (s : Synchronizer) : Synchronizer :=
  let s := put_blocks (sy_block_queue s) (delete block_id (sy_pending s)) s in
  let pending := Z.of_nat (size (sy_pending s)) in
  let queue := Z.of_nat (length (sy_block_queue s)) in
  if (pending =? 0) && (queue =? 0) then check_sync_status s
  else put_state (SyncingBlocks (pending + queue)) s.

(** The requests of a peer that failed, in the order of the map. *)
Definition handle_failure (pending_iter : gmap bytes PeerId -> list (bytes * PeerId))
    (peer : PeerId) (s : Synchronizer) : Synchronizer :=
  let failed := (base.filter (fun p => p.2 = peer) (pending_iter (sy_pending s))).*1 in
  fold_left (fun s id => put_blocks (sy_block_queue s ++ [id]) (delete id (sy_pending s)) s)
    failed s.

Definition progress (s : Synchronizer) : f64 :=
  let our := f64_of_Z (sy_our_height s) in
  let best := f64_of_Z (best_or_zero s) in
  if best_or_zero s =? 0 then f64_one
  else if f64_ltb (f64_div our best) f64_one then f64_div our best else f64_one.

(** ** Snapshots *)

Definition set_utxo_snapshot_applied (s : Synchronizer) : Synchronizer := put_applied true s.

Definition should_use_snapshot_sync (s : Synchronizer) : bool :=
  utxo_bootstrap (sy_config s) && negb (sy_utxo_snapshot_applied s) && (sy_our_height s =? 0).

Definition register_snapshot_peer (peer : PeerId) (s : Synchronizer) : Synchronizer :=
  put_snapshot_peers ({[peer]} ∪ sy_snapshot_peers s) s.

(** [retain]: the peer leaves every manifest, and manifests without peers go. *)
Definition unregister_snapshot_peer (peer : PeerId) (s : Synchronizer) : Synchronizer :=
  let available :=
    omap (fun '(height, peers) =>
      let peers := base.filter (fun p => p <> peer) peers in
      match peers with [] => None | _ => Some (height, peers) end) (sy_available_manifests s) in
  put_manifests available (put_snapshot_peers (sy_snapshot_peers s ∖ {[peer]}) s).

Definition start_snapshot_info_request (now : Z) (peer_count : Z) (s : Synchronizer)
    : Synchronizer := put_state (AwaitingSnapshotsInfo peer_count now) s.

(** [entry(..).and_modify(..).or_insert(..)]: the height of the first
    announcement stays. *)
Definition announce (peer : PeerId) (available : AvailableManifests) (m : Z * bytes)
    : AvailableManifests :=
  let '(height, manifest_id) := m in
  match available !! manifest_id with
  | Some (h, peers) =>
      <[manifest_id := (h, if decide (peer ∈ peers) then peers else peers ++ [peer])]> available
  | None => <[manifest_id := (height, [peer])]> available
  end.

(** [max_by_key]: the last of the elements with the greatest key. *)
Fixpoint max_by_key {A} (key : A -> Z) (best : option A) (l : list A) : option A :=
  match l with
  | [] => best
  | x :: l' =>
      max_by_key key (match best with
                      | Some b => if key b <=? key x then Some x else Some b
                      | None => Some x
                      end) l'
  end.

Context (manifests_iter : AvailableManifests -> list (bytes * (Z * list PeerId))).

Definition check_manifest_availability (s : Synchronizer) : option (bytes * Z) :=
  let min_peers := min_snapshot_peers (sy_config s) in
  let valid := base.filter (fun m => min_peers <= Z.of_nat (length (m.2.2)))
                 (manifests_iter (sy_available_manifests s)) in
  match valid with
  | [] => None
  | _ => (fun m => (m.1, m.2.1)) <$> max_by_key (fun m => m.2.1) None valid
  end.

Definition process_snapshots_info (peer : PeerId) (manifests : list (Z * bytes))
    (s : Synchronizer) : option (bytes * Z) * Synchronizer :=
  match manifests with
  | [] => (None, s)
  | _ =>
      let s := put_manifests (fold_left (announce peer) manifests (sy_available_manifests s)) s in
      (check_manifest_availability s, s)
  end.

Definition start_manifest_request (now : Z) (manifest_id : bytes) (height : Z) (peer : PeerId)
    (s : Synchronizer) : Synchronizer :=
  put_manifest_time (Some now) (put_state (AwaitingManifest manifest_id height peer) s).

Definition check_manifest_timeout (now timeout : Z) (s : Synchronizer) : option PeerId :=
  match sy_state s with
  | AwaitingManifest _ _ peer =>
      match sy_manifest_request_time s with
      | Some start_time => if sat_sub now start_time >? timeout then Some peer else None
      | None => None
      end
  | _ => None
  end.

Definition clear_manifest_request (s : Synchronizer) : Synchronizer := put_manifest_time None s.

(** [choose] of the [rand] crate. *)
Context (choose : list PeerId -> option PeerId).

Definition get_manifest_peer (manifest_id : bytes) (s : Synchronizer) : option PeerId :=
  match sy_available_manifests s !! manifest_id with
  | Some (_, peers) => choose peers
  | None => None
  end.

Definition start_chunk_download (manifest_id : bytes) (height total_chunks : Z)
    (s : Synchronizer) : Synchronizer :=
  put_chunks ∅ ∅ (put_state (DownloadingChunks manifest_id height total_chunks 0) s).

Definition get_chunks_to_request (expected_chunks : list bytes) (count : nat)
    (s : Synchronizer) : list bytes :=
  take count (base.filter (fun id =>
    (id ∉ sy_downloaded_chunks s) /\ sy_downloading_chunks s !! id = None) expected_chunks).

Definition mark_chunk_downloading (now : Z) (chunk_id : bytes) (peer : PeerId)
    (s : Synchronizer) : Synchronizer :=
  put_chunks (<[chunk_id := (peer, now)]> (sy_downloading_chunks s)) (sy_downloaded_chunks s) s.

Definition mark_chunk_downloaded (chunk_id : bytes) (s : Synchronizer) : bool * Synchronizer :=
  let s := put_chunks (delete chunk_id (sy_downloading_chunks s))
             ({[chunk_id]} ∪ sy_downloaded_chunks s) s in
  let downloaded_count := Z.of_nat (size (sy_downloaded_chunks s)) in
  match sy_state s with
  | DownloadingChunks manifest_id height total_chunks _ =>
      (downloaded_count >=? total_chunks,
       put_state (DownloadingChunks manifest_id height total_chunks downloaded_count) s)
  | _ => (false, s)
  end.

Definition mark_chunk_failed (chunk_id : bytes) (s : Synchronizer) : Synchronizer :=
  put_chunks (delete chunk_id (sy_downloading_chunks s)) (sy_downloaded_chunks s) s.

Definition get_timed_out_chunks
    (chunks_iter : gmap bytes (PeerId * Z) -> list (bytes * (PeerId * Z)))
    (now timeout : Z) (s : Synchronizer) : list (bytes * PeerId) :=
  omap (fun '(id, (peer, start_time)) =>
    if sat_sub now start_time >? timeout then Some (id, peer) else None)
    (chunks_iter (sy_downloading_chunks s)).

Definition needs_more_chunk_downloads (s : Synchronizer) : bool :=
  Z.of_nat (size (sy_downloading_chunks s)) <? CHUNKS_IN_PARALLEL_MIN.

Definition get_random_chunk_peer (peers_iter : gset PeerId -> list PeerId) (s : Synchronizer)
    : option PeerId := choose (peers_iter (sy_snapshot_peers s)).

Definition start_snapshot_application (height : Z) (s : Synchronizer) : Synchronizer :=
  put_state (ApplyingSnapshot height) s.

Definition complete_snapshot_application (height : Z) (s : Synchronizer) : Synchronizer :=
  let s := put_our_height height (set_utxo_snapshot_applied s) in
  check_sync_status (put_chunks ∅ ∅ (put_manifests ∅ s)).

Definition snapshot_progress (s : Synchronizer) : option f64 :=
  match sy_state s with
  | DownloadingChunks _ _ total_chunks downloaded_chunks =>
      if total_chunks =? 0 then Some f64_one
      else Some (f64_div (f64_of_Z downloaded_chunks) (f64_of_Z total_chunks))
  | ApplyingSnapshot _ => Some f64_one
  | _ => None
  end.

Definition clear_snapshot_state (s : Synchronizer) : Synchronizer :=
  put_chunks ∅ ∅ (put_manifests ∅ s).

End Synchronizer.

Arguments SyncState : clear implicits.
Arguments Synchronizer PeerId {_ _}.
