(* ===== verification/SynchronizerSpec.v ===== *)
(** * What the synchroniser guarantees

    The methods of [Synchronizer] as a step relation, the invariant of every
    reachable state (in particular: [Synchronized] only while no known peer is
    ahead), which snapshot manifest is chosen, and when a chunk download is
    complete. *)

From S2P Require Export Synchronizer.

Local Open Scope Z_scope.

(** ** Runs *)

Section Runs.
Context {PeerId : Type} `{Countable PeerId}.
Implicit Types (s : Synchronizer PeerId) (peer : PeerId).

Inductive sync_step : Synchronizer PeerId -> Synchronizer PeerId -> Prop :=
  | ss_height s height : sync_step s (set_height height s)
  | ss_peer_height s peer height : sync_step s (set_peer_height peer height s)
  | ss_remove s peer : sync_step s (remove_peer peer s)
  | ss_header_sync s from to : sync_step s (start_header_sync from to s)
  | ss_queue_headers s ids : sync_step s (queue_headers ids s)
  | ss_queue_blocks s ids : sync_step s (queue_blocks ids s)
  | ss_batch s count : sync_step s (get_download_batch count s).2
  | ss_received s id : sync_step s (block_received id s)
  | ss_failure s it peer : (forall m, it m ≡ₚ map_to_list m) -> sync_step s (handle_failure it peer s)
  | ss_register s peer : sync_step s (register_snapshot_peer peer s)
  | ss_unregister s peer : sync_step s (unregister_snapshot_peer peer s)
  | ss_info_request s now count : sync_step s (start_snapshot_info_request now count s)
  | ss_info s it peer ms : sync_step s (process_snapshots_info it peer ms s).2
  | ss_manifest s now id height peer : sync_step s (start_manifest_request now id height peer s)
  | ss_clear_manifest s : sync_step s (clear_manifest_request s)
  | ss_chunks s id height total : sync_step s (start_chunk_download id height total s)
  | ss_downloading s now id peer : sync_step s (mark_chunk_downloading now id peer s)
  | ss_downloaded s id : sync_step s (mark_chunk_downloaded id s).2
  | ss_chunk_failed s id : sync_step s (mark_chunk_failed id s)
  | ss_apply s height : sync_step s (start_snapshot_application height s)
  | ss_applied s height : sync_step s (complete_snapshot_application height s)
  | ss_set_applied s : sync_step s (set_utxo_snapshot_applied s)
  | ss_clear s : sync_step s (clear_snapshot_state s).

Inductive sync_reachable (cfg : SyncConfig) : Synchronizer PeerId -> Prop :=
  | sr_new : sync_reachable cfg (Synchronizer_new cfg)
  | sr_step s s' : sync_reachable cfg s -> sync_step s s' -> sync_reachable cfg s'.

(** ** The highest peer *)

Definition best_spec (m : gmap PeerId Z) (b : option Z) : Prop :=
  match b with
  | None => m = ∅
  | Some best => (exists p, m !! p = Some best) /\ forall p h, m !! p = Some h -> h <= best
  end.

Lemma best_peer_height_spec s : best_spec (sy_peer_heights s) (best_peer_height s).
Proof.
  unfold best_peer_height. generalize (sy_peer_heights s). clear s. intros m.
  apply (map_fold_weak_ind (fun b m => best_spec m b)); [done|].
  intros k h m' [best|] Hk Hb; cbn [best_spec] in *.
  - destruct Hb as [[p Hp] Hmax]. split.
    + destruct (Z.max_spec best h) as [[_ ->]|[_ ->]]; [exists k|exists p].
      * by rewrite lookup_insert_eq.
      * rewrite lookup_insert_ne by congruence. done.
    + intros p' h' [[-> ->]|[? Hp']]%lookup_insert_Some; [lia|]. specialize (Hmax _ _ Hp'). lia.
  - subst m'. split; [exists k; by rewrite lookup_insert_eq|].
    intros p' h' [[-> ->]|[? Hp']]%lookup_insert_Some; [lia|]. by rewrite lookup_empty in Hp'.
Qed.

Lemma best_or_zero_max s peer h :
  sy_peer_heights s !! peer = Some h -> h <= best_or_zero s.
Proof.
  intros Hp. unfold best_or_zero. pose proof (best_peer_height_spec s) as Hb.
  destruct (best_peer_height s) as [b|]; cbn in *; [by eapply Hb|].
  rewrite Hb in Hp. by rewrite lookup_empty in Hp.
Qed.

(** ** The invariant *)

Definition not_behind s : Prop :=
  sy_state s = Synchronized ->
  forall peer h, sy_peer_heights s !! peer = Some h -> h <= sy_our_height s.

Definition manifests_ok (a : gmap bytes (Z * list PeerId)) : Prop :=
  map_Forall (fun _ m => NoDup (m.2) /\ m.2 <> []) a.

Record sync_inv (cfg : SyncConfig) s : Prop := {
  si_config : sy_config s = cfg;
  si_not_behind : not_behind s;
  si_pending : sy_pending s = ∅;
  si_manifests : manifests_ok (sy_available_manifests s)
}.

(** [check_sync_status] establishes [not_behind] and changes only the state. *)
Lemma check_not_behind s : not_behind (check_sync_status s).
Proof.
  unfold check_sync_status. destruct (Z.geb_spec (sy_our_height s) (best_or_zero s)) as [Hge|Hlt].
  - intros _ p h Hp.
    assert (sy_peer_heights s !! p = Some h) as Hp' by by destruct (sy_state s).
    apply best_or_zero_max in Hp'.
    assert (sy_our_height s = sy_our_height
      match sy_state s with Synchronized => s | _ => put_state Synchronized s end) as <-
      by by destruct (sy_state s). lia.
  - unfold not_behind. destruct (sy_state s) eqn:E; cbn [put_state sy_state]; rewrite ?E; done.
Qed.

Lemma check_frame s :
  let s' := check_sync_status s in
  sy_config s' = sy_config s /\ sy_pending s' = sy_pending s /\
  sy_available_manifests s' = sy_available_manifests s /\
  sy_our_height s' = sy_our_height s /\ sy_peer_heights s' = sy_peer_heights s.
Proof. unfold check_sync_status. by destruct (_ >=? _), (sy_state s). Qed.

Lemma check_inv cfg s :
  sy_config s = cfg -> sy_pending s = ∅ -> manifests_ok (sy_available_manifests s) ->
  sync_inv cfg (check_sync_status s).
Proof.
  intros Hc Hp Hm. destruct (check_frame s) as (E1 & E2 & E3 & _).
  constructor; rewrite ?E1, ?E2, ?E3; auto using check_not_behind.
Qed.

Lemma announce_ok peer a m : manifests_ok a -> manifests_ok (announce peer a m).
Proof.
  intros Ha. destruct m as [height id]. unfold announce.
  destruct (a !! id) as [[h peers]|] eqn:E;
    (apply (map_Forall_insert_2 (M:=gmap bytes)); [|exact Ha]); cbn.
  - destruct (Ha _ _ E) as [Hn Hne]. cbn in *. case_decide; [done|]. split.
    + apply NoDup_app. repeat split; [done|set_solver|apply NoDup_singleton].
    + by destruct peers.
  - split; [apply NoDup_singleton|done].
Qed.

Lemma announce_all_ok peer a ms : manifests_ok a -> manifests_ok (fold_left (announce peer) ms a).
Proof. revert a. induction ms; cbn; auto using announce_ok. Qed.

Lemma unregister_ok peer s : manifests_ok (sy_available_manifests s) ->
  manifests_ok (sy_available_manifests (unregister_snapshot_peer peer s)).
Proof.
  intros Ha id m. cbn [unregister_snapshot_peer put_manifests sy_available_manifests].
  rewrite lookup_omap, bind_Some. intros ([h peers] & Hl & Hm).
  destruct (Ha _ _ Hl) as [Hn _]. cbn in Hn.
  apply (NoDup_filter (fun p => p <> peer)) in Hn.
  destruct (base.filter _ peers); [done|]. injection Hm as <-. done.
Qed.

Lemma sync_inv_step cfg s s' : sync_inv cfg s -> sync_step s s' -> sync_inv cfg s'.
Proof.
  intros [Hc Hb Hp Hm] Hs. destruct Hs as [| | | | | | | |s it peer Hit| | | | | | | | | | | | | |];
    try (constructor; done).
  - apply check_inv; done.
  - apply check_inv; done.
  - constructor; try done. intros Hst p h Hl. apply (lookup_delete_Some (sy_peer_heights s)) in Hl as [_ Hl]. by apply (Hb Hst p).
  - unfold block_received. cbn. rewrite Hp, delete_empty.
    destruct (_ && _); [apply check_inv|constructor]; done.
  - unfold handle_failure. rewrite Hp.
    assert (it ∅ = []) as ->; [|by constructor].
    apply Permutation_nil_r. by rewrite (Hit ∅), map_to_list_empty.
  - constructor; try done. by apply unregister_ok.
  - unfold process_snapshots_info. destruct ms; constructor; try done. by apply (announce_all_ok peer).
  - unfold mark_chunk_downloaded. cbn. destruct (sy_state s) eqn:E; constructor; cbn; done.
  - apply check_inv; try done.
Qed.

Lemma sync_inv_reachable cfg s : sync_reachable cfg s -> sync_inv cfg s.
Proof.
  induction 1 as [|s s' _ IH Hs]; [|by eapply sync_inv_step]. constructor; done.
Qed.
End Runs.

(** ** Manifests: what a sequence of announcements amounts to *)

Section Manifests.
Context {PeerId : Type} `{Countable PeerId}.
Implicit Types (L : list (PeerId * (Z * bytes))) (id : bytes).

(** The announcements of [SnapshotsInfo] messages, one by one. *)
Definition announcements (msgs : list (PeerId * list (Z * bytes))) : list (PeerId * (Z * bytes)) :=
  msgs ≫= fun '(peer, ms) => (fun m => (peer, m)) <$> ms.

Definition first_height L id : option Z :=
  head (omap (fun '(_, (h, id')) => if decide (id' = id) then Some h else None) L).

Definition announcers L id : gset PeerId :=
  list_to_set (omap (fun '(peer, (_, id')) => if decide (id' = id) then Some peer else None) L).

Definition tracks L (a : gmap bytes (Z * list PeerId)) : Prop :=
  forall id, match a !! id with
  | Some (h, peers) => first_height L id = Some h /\ NoDup peers /\ list_to_set peers = announcers L id
  | None => first_height L id = None
  end.

Lemma first_height_snoc L peer h id' id :
  first_height (L ++ [(peer, (h, id'))]) id =
  match first_height L id with
  | Some h0 => Some h0
  | None => if decide (id' = id) then Some h else None
  end.
Proof. unfold first_height. rewrite omap_app. cbn. by destruct (omap _ L), (decide (id' = id)). Qed.

Lemma announcers_snoc L peer h id' id :
  announcers (L ++ [(peer, (h, id'))]) id =
  announcers L id ∪ (if decide (id' = id) then {[peer]} else ∅).
Proof.
  unfold announcers. rewrite omap_app, list_to_set_app_L. f_equal. cbn.
  by destruct (decide (id' = id)); cbn; rewrite ?(right_id_L ∅ (∪)).
Qed.

Lemma announcers_none L id : first_height L id = None -> announcers L id = ∅.
Proof.
  unfold first_height, announcers. induction L as [|[p [h id']] L IH]; cbn; [done|].
  destruct (decide (id' = id)); cbn; [done|exact IH].
Qed.

Lemma tracks_announce L a peer h id' :
  tracks L a -> tracks (L ++ [(peer, (h, id'))]) (announce peer a (h, id')).
Proof.
  intros Ht id. rewrite first_height_snoc, announcers_snoc. specialize (Ht id) as Hid.
  unfold announce. destruct (decide (id' = id)) as [->|Hne].
  - destruct (a !! id) as [[h0 peers]|] eqn:E; rewrite lookup_insert_eq.
    + destruct Hid as (Hf & Hn & Hs). rewrite Hf, <- Hs. split; [done|]. case_decide.
      * split; [done|]. set_solver.
      * split; [|by rewrite list_to_set_app_L, list_to_set_singleton_L].
        apply NoDup_app. repeat split; [done|set_solver|apply NoDup_singleton].
    + rewrite Hid, announcers_none by done. split; [done|]. split; [apply NoDup_singleton|set_solver].
  - rewrite (right_id_L ∅ (∪)).
    destruct (a !! id') as [[h1 peers']|]; rewrite lookup_insert_ne by done;
      (destruct (a !! id) as [[h0 peers]|]; [destruct Hid as (-> & ? & ?)|rewrite Hid]; done).
Qed.

Lemma tracks_all peer ms L a :
  tracks L a -> tracks (L ++ ((fun m => (peer, m)) <$> ms)) (fold_left (announce peer) ms a).
Proof.
  revert L a. induction ms as [|[h id] ms IH]; intros L a Ht; cbn [fmap list_fmap fold_left].
  - by rewrite app_nil_r.
  - rewrite cons_middle, app_assoc. by apply IH, tracks_announce.
Qed.

Context (it : gmap bytes (Z * list PeerId) -> list (bytes * (Z * list PeerId)))
  (Hit : forall m, it m ≡ₚ map_to_list m).

Definition process_all (msgs : list (PeerId * list (Z * bytes))) (s : Synchronizer PeerId)
    : Synchronizer PeerId :=
  fold_left (fun s '(peer, ms) => (process_snapshots_info it peer ms s).2) msgs s.

Lemma process_manifests peer ms s :
  sy_available_manifests (process_snapshots_info it peer ms s).2 =
  fold_left (announce peer) ms (sy_available_manifests s) /\
  sy_config (process_snapshots_info it peer ms s).2 = sy_config s.
Proof. by destruct ms. Qed.

Lemma process_all_tracks msgs L s :
  tracks L (sy_available_manifests s) ->
  tracks (L ++ announcements msgs) (sy_available_manifests (process_all msgs s)) /\
  sy_config (process_all msgs s) = sy_config s.
Proof.
  revert L s. induction msgs as [|[peer ms] msgs IH]; intros L s Ht; cbn.
  - by rewrite app_nil_r.
  - rewrite app_assoc. destruct (process_manifests peer ms s) as [Em <-].
    apply IH. rewrite Em. by apply tracks_all.
Qed.

Lemma max_by_key_spec {A} (key : A -> Z) l best :
  match max_by_key key best l with
  | Some x => (Some x = best \/ x ∈ l) /\ (forall y, y ∈ l -> key y <= key x) /\
              (forall b, best = Some b -> key b <= key x)
  | None => best = None /\ l = []
  end.
Proof.
  revert best. induction l as [|x l IH]; intros best; cbn [max_by_key].
  - destruct best as [b|]; [|done]. split; [by left|]. split; [|intros ? [= ->]; lia].
    intros y Hy. by apply not_elem_of_nil in Hy.
  - set (best' := match best with Some b => _ | None => _ end). specialize (IH best').
    assert (exists b', best' = Some b' /\ key x <= key b' /\ (forall b, best = Some b -> key b <= key b') /\
      (Some b' = best \/ b' = x)) as (b' & Eb & Hx & Hb & Hor).
    { unfold best'. destruct best as [b|]; [destruct (Z.leb_spec (key b) (key x))|]; eexists;
        (split; [reflexivity|]); (split; [lia|]); (split; [intros ? [= <-]; lia|]); auto. }
    rewrite Eb in IH. rewrite Eb. destruct (max_by_key key (Some b') l) as [m|]; [|naive_solver].
    destruct IH as ([Hm|Hm] & Hall & Hbest); specialize (Hbest b' eq_refl); (split; [|split]).
    + injection Hm as ->. destruct Hor as [->| ->]; set_solver.
    + intros y [->|Hy]%elem_of_cons; [lia|auto].
    + intros b Eb'. specialize (Hb b Eb'). lia.
    + right. set_solver.
    + intros y [->|Hy]%elem_of_cons; [lia|auto].
    + intros b Eb'. specialize (Hb b Eb'). lia.
Qed.

(** Which manifests have enough peers, in the map and in the announcements. *)
Lemma tracks_enough L a id h peers min :
  tracks L a -> (id, (h, peers)) ∈ base.filter (fun m => min <= Z.of_nat (length (m.2.2))) (it a) <->
  a !! id = Some (h, peers) /\ min <= Z.of_nat (size (announcers L id)).
Proof.
  intros Ht. rewrite list_elem_of_filter, Hit, elem_of_map_to_list. cbn.
  specialize (Ht id). split; intros [H1 H2].
  - split; [done|]. rewrite H2 in Ht. destruct Ht as (_ & Hn & <-).
    by rewrite size_list_to_set.
  - split; [|done]. rewrite H1 in Ht. destruct Ht as (_ & Hn & Hs).
    rewrite <- Hs, size_list_to_set in H2; done.
Qed.

Lemma check_manifest_spec L s :
  tracks L (sy_available_manifests s) ->
  let min := min_snapshot_peers (sy_config s) in
  match check_manifest_availability it s with
  | Some (id, h) =>
      first_height L id = Some h /\ min <= Z.of_nat (size (announcers L id)) /\
      (forall id' h', first_height L id' = Some h' ->
         min <= Z.of_nat (size (announcers L id')) -> h' <= h)
  | None => forall id' h', first_height L id' = Some h' -> Z.of_nat (size (announcers L id')) < min
  end.
Proof.
  intros Ht min. unfold check_manifest_availability. fold min.
  set (valid := base.filter _ _).
  assert (forall id h peers, (id, (h, peers)) ∈ valid <->
    sy_available_manifests s !! id = Some (h, peers) /\ min <= Z.of_nat (size (announcers L id)))
    as Hv by (intros; by apply tracks_enough).
  assert (forall id h, first_height L id = Some h -> exists peers,
    sy_available_manifests s !! id = Some (h, peers)) as Hf.
  { intros id h Hid. specialize (Ht id).
    destruct (sy_available_manifests s !! id) as [[h0 peers]|]; [|congruence].
    exists peers. destruct Ht as [Ht _]. congruence. }
  pose proof (max_by_key_spec (fun m : bytes * (Z * list PeerId) => m.2.1) valid None) as Hmax.
  clearbody valid. destruct valid as [|v valid].
  - intros id h Hid. destruct (Hf id h Hid) as [peers Hp]. apply Z.nle_gt. intros Hle.
    apply (not_elem_of_nil (id, (h, peers))). apply Hv. done.
  - destruct (max_by_key _ _ _) as [[id [h peers]]|]; [|by destruct Hmax].
    destruct Hmax as ([?|Hin] & Hall & _); [done|]. cbn. apply Hv in Hin as [Hin Hle].
    specialize (Ht id). rewrite Hin in Ht. destruct Ht as (Hfh & _). do 2 (split; [done|]).
    intros id' h' Hid' Hle'. destruct (Hf id' h' Hid') as [peers' Hp'].
    apply (Hall (id', (h', peers'))). by apply Hv.
Qed.
End Manifests.

(** ** Chunks *)

Section Chunks.
Context {PeerId : Type} `{Countable PeerId}.

Definition deliver (ds : list bytes) (s : Synchronizer PeerId) : Synchronizer PeerId :=
  fold_left (fun s c => (mark_chunk_downloaded c s).2) ds s.

(** A chunk download in progress: what was delivered and what is requested. *)
Definition chunk_state (total : Z) (ds : gset bytes) (s : Synchronizer PeerId) : Prop :=
  sy_downloaded_chunks s = ds /\ sy_downloading_chunks s = ∅ /\
  exists id height n, sy_state s = DownloadingChunks id height total n.

Lemma chunk_state_mark total ds s c :
  chunk_state total ds s ->
  chunk_state total ({[c]} ∪ ds) (mark_chunk_downloaded c s).2 /\
  (mark_chunk_downloaded c s).1 = (Z.of_nat (size ({[c]} ∪ ds)) >=? total).
Proof.
  intros (<- & Hd & id & height & n & Hs). unfold mark_chunk_downloaded. cbn. rewrite Hs. cbn.
  split; [|done]. unfold chunk_state. cbn. rewrite Hd, delete_empty. eauto 10.
Qed.

Lemma chunk_state_deliver total l ds s :
  chunk_state total ds s -> chunk_state total (list_to_set l ∪ ds) (deliver l s).
Proof.
  revert ds s. induction l as [|c l IH]; intros ds s Hs; cbn.
  - by rewrite (left_id_L ∅ (∪)).
  - replace ({[c]} ∪ list_to_set l ∪ ds) with (list_to_set l ∪ ({[c]} ∪ ds)) by set_solver.
    by apply IH, chunk_state_mark.
Qed.

Lemma chunk_state_start id height total s :
  chunk_state total ∅ (start_chunk_download id height total s : Synchronizer PeerId).
Proof. unfold chunk_state, start_chunk_download. cbn. eauto 10. Qed.

(** A duplicate-free list has as many elements as a set of some of them only
    when the set has them all. *)
Lemma all_in_size (expected : list bytes) (X : gset bytes) :
  NoDup expected -> X ⊆ list_to_set expected ->
  (length expected <= size X)%nat <-> (forall c, c ∈ expected -> c ∈ X).
Proof.
  intros Hn Hsub. rewrite <- (size_list_to_set (C:=gset bytes) expected) by done. split.
  - intros Hle c Hc. apply (set_subseteq_size_eq X) in Hsub; [|done]. set_solver.
  - intros Hall. apply subseteq_size. set_solver.
Qed.
End Chunks.

(** * Properties *)

(** in every state the synchroniser can reach, being synchronised means
    that no known peer reported more than our height, no request is recorded as
    pending (so a failed peer re-queues nothing), and every announced manifest
    has at least one peer, listed once. *)
Theorem synchronized_not_behind {PeerId : Type} `{Countable PeerId} (cfg : SyncConfig)
    (s : Synchronizer PeerId) it peer :
  sync_reachable cfg s -> (forall m, it m ≡ₚ map_to_list m) ->
  (sy_state s = Synchronized ->
     forall p h, sy_peer_heights s !! p = Some h -> h <= sy_our_height s) /\
  handle_failure it peer s = s /\
  map_Forall (fun _ m => NoDup (m.2) /\ m.2 <> []) (sy_available_manifests s).
Proof.
  intros Hr Hit. destruct (sync_inv_reachable cfg s Hr) as [_ Hb Hp Hm].
  split; [exact Hb|]. split; [|exact Hm]. unfold handle_failure. rewrite Hp.
  assert (it ∅ = []) as ->; [|done]. apply Permutation_nil_r. by rewrite (Hit ∅), map_to_list_empty.
Qed.

(** the manifest chosen after any announcements was announced by at least the
    configured number of different peers, and its height, which is the one its
    first announcement claimed, is the greatest among such manifests; none is
    chosen only when no manifest was announced by that many peers. *)
Theorem manifest_choice_confirmed {PeerId : Type} `{Countable PeerId} it (cfg : SyncConfig)
    (msgs : list (PeerId * list (Z * bytes))) peer m ms :
  (forall m, it m ≡ₚ map_to_list m) ->
  let s := process_all it msgs (Synchronizer_new cfg) in
  let L := announcements (msgs ++ [(peer, m :: ms)]) in
  let min := min_snapshot_peers cfg in
  match (process_snapshots_info it peer (m :: ms) s).1 with
  | Some (id, h) =>
      first_height L id = Some h /\ min <= Z.of_nat (size (announcers L id)) /\
      (forall id' h', first_height L id' = Some h' ->
         min <= Z.of_nat (size (announcers L id')) -> h' <= h)
  | None => forall id' h', first_height L id' = Some h' -> Z.of_nat (size (announcers L id')) < min
  end.
Proof.
  intros Hit s L min.
  destruct (process_all_tracks it (msgs ++ [(peer, m :: ms)]) []
    (Synchronizer_new (PeerId := PeerId) cfg)) as [Ht Hc]; [by intros id|].
  pose proof (check_manifest_spec it Hit _ _ Ht) as Hspec. rewrite Hc in Hspec.
  unfold process_all in Hspec. rewrite fold_left_app in Hspec. exact Hspec.
Qed.

(** while the chunks of a manifest arrive, the chunks to request are those of
    the manifest that have not arrived, none when all have, and receiving a
    chunk reports completion exactly when every chunk of the manifest has
    arrived; without the check that a chunk belongs to the manifest, which is
    not made, completion is reported for as many different chunks of any kind. *)
Theorem chunk_download_progress {PeerId : Type} `{Countable PeerId} (s : Synchronizer PeerId)
    id height expected count ds d :
  NoDup expected -> (0 < count)%nat ->
  let s := deliver ds (start_chunk_download id height (Z.of_nat (length expected)) s) in
  let batch := get_chunks_to_request expected count s in
  NoDup batch /\ (length batch <= count)%nat /\
  (forall c, c ∈ batch -> c ∈ expected /\ c ∉ ds) /\
  (batch = [] <-> (forall c, c ∈ expected -> c ∈ ds)) /\
  ((forall c, c ∈ d :: ds -> c ∈ expected) ->
     (mark_chunk_downloaded d s).1 = true <-> (forall c, c ∈ expected -> c ∈ d :: ds)) /\
  ((mark_chunk_downloaded d s).1 = true <->
     (length expected <= size (list_to_set (d :: ds) : gset bytes))%nat).
Proof.
  intros Hn Hc s0 batch.
  pose proof (chunk_state_deliver (Z.of_nat (length expected)) ds ∅ _
    (chunk_state_start id height (Z.of_nat (length expected)) s)) as Hs.
  fold s0 in Hs. rewrite (right_id_L ∅ (∪)) in Hs.
  destruct (chunk_state_mark _ _ _ d Hs) as [_ Hm]. destruct Hs as (Hds & Hdl & _).
  assert (forall c, c ∈ base.filter (fun id => (id ∉ sy_downloaded_chunks s0) /\
    sy_downloading_chunks s0 !! id = None) expected <-> c ∈ expected /\ c ∉ ds) as Hf.
  { intros c. rewrite list_elem_of_filter, Hds, Hdl, lookup_empty. set_solver. }
  assert ((mark_chunk_downloaded d s0).1 = true <->
    (length expected <= size (list_to_set (d :: ds) : gset bytes))%nat) as Hmark.
  { rewrite Hm, Z.geb_le. cbn [list_to_set]. rewrite <- Nat2Z.inj_le. done. }
  unfold batch, get_chunks_to_request. split; [|split; [|split; [|split; [|split]]]].
  - eapply sublist_NoDup; [|apply sublist_take]. by apply NoDup_filter.
  - rewrite length_take. lia.
  - intros c Hin. apply Hf. eapply elem_of_sublist; [exact Hin|apply sublist_take].
  - split.
    + intros Hnil c Hce. destruct (decide (c ∈ ds)) as [|Hcd]; [done|].
      pose proof (proj2 (Hf c) (conj Hce Hcd)) as Hin.
      destruct (base.filter _ expected) as [|c' l]; [by apply not_elem_of_nil in Hin|].
      destruct count; [lia|done].
    + intros Hall. destruct (base.filter _ expected) as [|c' l]; [apply take_nil|].
      destruct (proj1 (Hf c') ltac:(set_solver)) as [He Hd]. by apply Hall in He.
  - intros Hsub. rewrite Hmark. rewrite all_in_size; [set_solver|done|].
    intros c Hin. apply elem_of_list_to_set. apply Hsub. set_solver.
  - exact Hmark.
Qed.

Module SyncExample.

Definition s1 : Synchronizer Z := set_height 10 (set_peer_height 7 10 (Synchronizer_new SyncConfig_default)).

Lemma s1_reachable : sync_reachable SyncConfig_default s1.
Proof.
  eapply sr_step; [|apply ss_height]. eapply sr_step; [|apply ss_peer_height]. apply sr_new.
Qed.

Lemma synchronized_not_behind_witness : 10 <= sy_our_height s1.
Proof.
  apply (proj1 (synchronized_not_behind SyncConfig_default s1 map_to_list 7 s1_reachable (fun m => reflexivity _)))
    with (p := 7); vm_compute; reflexivity.
Defined.

Lemma manifest_choice_confirmed_witness :
  2 <= Z.of_nat (size (announcers (announcements [(1, [(50, [9])]); (2, [(60, [9])])]) [9])).
Proof.
  pose proof (manifest_choice_confirmed (PeerId := Z) map_to_list SyncConfig_default
    [(1, [(50, [9])])] 2 (60, [9]) [] (fun m => reflexivity _)) as Hc.
  vm_compute in Hc. vm_compute. apply Hc.
Defined.

Lemma chunk_download_progress_witness :
  (mark_chunk_downloaded [2] (deliver [[1]] (start_chunk_download [9] 50 2
     (Synchronizer_new SyncConfig_default : Synchronizer Z)))).1 = true.
Proof.
  apply (chunk_download_progress (Synchronizer_new SyncConfig_default : Synchronizer Z) [9] 50
    [[1]; [2]] 1 [[1]] [2]).
  - apply (bool_decide_unpack _). reflexivity.
  - lia.
  - vm_compute. lia.
Defined.

End SyncExample.
