(* ===== verification/SyncProtocol.v ===== *)
(** * The synchronisation protocol (crates/ergo-sync/src/protocol.rs, error.rs)

    The handlers of peers, inventories, modifiers, applied blocks and ticks.  A
    handler runs on the record of everything behind the locks, emits commands
    for the node and can fail half-way, keeping what it changed: [M] is the
    state and error monad of that.  Whether the channel takes a command and how
    the storage answers a batch are arguments, and so are the iteration orders
    of hash maps, the [lru] crate, and the instant [now] (milliseconds) at
    which a handler runs.  Logging and counters for logs are left out. *)

From S2P Require Export Synchronizer SyncHeaders Downloader Message Block.

Local Open Scope Z_scope.

(** [PeerId] of ergo-network: the bytes of an address. *)
Abbreviation PeerId := bytes.

Definition MAX_V2_HEADERS : Z := 10.
Definition V2_SYNC_OFFSETS : list Z := [0; 16; 128; 512].
Definition HEADER_BATCH_SIZE : Z := 500.
Definition STORED_HEADERS_CACHE_SIZE : Z := 100000.
Definition MAX_PENDING_HEADERS : Z := 10000.
Definition MAX_PENDING_HEADER_INV : Z := 10000.
Definition HEADER_BATCH_TIMEOUT_MS : Z := 500.
Definition MIN_SYNC_INTERVAL : Z := 5000.
Definition PER_PEER_SYNC_LOCK_TIME : Z := 100.
Definition MIN_REQUEST_INTERVAL : Z := 100.
Definition HEADER_TIMEOUT : Z := 10000.
Definition MAX_REQUEST_SIZE : nat := 400.
Definition MAX_TIMEOUTS_PER_TICK : Z := 10.
Definition MAX_BLOCKS_PER_PEER : Z := 32.
Definition MAX_PEERS_TO_USE : nat := 16.

(** error.rs; [OutOfFuel] is the model's own and shown not to occur. *)
Inductive SyncError :=
  | SE_Network (msg : string)
  | SE_State (msg : string)
  | SE_Consensus (msg : string)
  | SE_NoPeers
  | SE_Stalled (msg : string)
  | SE_InvalidChain (msg : string)
  | SE_InvalidData (msg : string)
  | SE_DownloadFailed (msg : string)
  | SE_Internal (msg : string)
  | SE_Timeout
  | SE_OutOfFuel.

(** ** Peers *)

Inductive PeerChainStatus := PCS_Unknown | PCS_Younger | PCS_Older | PCS_Fork | PCS_Equal.

#[export] Instance PeerChainStatus_eq_dec : EqDecision PeerChainStatus.
Proof. solve_decision. Defined.

Record PeerSyncState := mkPeerSyncState {
  ps_height : Z;
  ps_best_headers : list bytes;
  ps_in_flight : Z;
  ps_last_activity : Z;
  ps_last_sync_sent : Z;
  ps_last_request_sent : Z;
  ps_last_sync_received : Z;
  ps_chain_status : PeerChainStatus
}.

(** The instants of a new peer lie a minute back. *)
Definition PeerSyncState_new (now : Z) : PeerSyncState :=
  let epoch := now - 60000 in
  mkPeerSyncState 0 [] 0 now epoch epoch epoch PCS_Unknown.

Definition elapsed (now at_ : Z) : Z := sat_sub now at_.

Definition can_send_sync (now : Z) (p : PeerSyncState) : bool :=
  elapsed now (ps_last_sync_sent p) >=? MIN_SYNC_INTERVAL.
Definition can_process_sync (now : Z) (p : PeerSyncState) : bool :=
  elapsed now (ps_last_sync_received p) >=? PER_PEER_SYNC_LOCK_TIME.
Definition can_send_request (now : Z) (p : PeerSyncState) : bool :=
  elapsed now (ps_last_request_sent p) >=? MIN_REQUEST_INTERVAL.

Definition should_send_sync_response (now : Z) (p : PeerSyncState)
    (old_status new_status : PeerChainStatus) : bool :=
  if decide (old_status <> new_status) then true
  else if bool_decide (new_status = PCS_Older) || bool_decide (new_status = PCS_Fork) then true
  else elapsed now (ps_last_sync_sent p) >=? MIN_SYNC_INTERVAL.

(** Writes to a peer's state. *)
Definition mark_sync_sent (now : Z) (p : PeerSyncState) : PeerSyncState :=
  mkPeerSyncState (ps_height p) (ps_best_headers p) (ps_in_flight p) (ps_last_activity p) now
    (ps_last_request_sent p) (ps_last_sync_received p) (ps_chain_status p).
Definition mark_request_sent (now : Z) (p : PeerSyncState) : PeerSyncState :=
  mkPeerSyncState (ps_height p) (ps_best_headers p) (ps_in_flight p) (ps_last_activity p)
    (ps_last_sync_sent p) now (ps_last_sync_received p) (ps_chain_status p).
Definition mark_dispatched (now count : Z) (p : PeerSyncState) : PeerSyncState :=
  mkPeerSyncState (ps_height p) (ps_best_headers p) (u32 (ps_in_flight p + count))
    (ps_last_activity p) (ps_last_sync_sent p) now (ps_last_sync_received p) (ps_chain_status p).
Definition mark_active (now : Z) (p : PeerSyncState) : PeerSyncState :=
  mkPeerSyncState (ps_height p) (ps_best_headers p) (sat_sub (ps_in_flight p) 1) now
    (ps_last_sync_sent p) (ps_last_request_sent p) (ps_last_sync_received p) (ps_chain_status p).
Definition mark_sync_received (now height : Z) (best : list bytes) (status : PeerChainStatus)
    (p : PeerSyncState) : PeerSyncState :=
  mkPeerSyncState height best (ps_in_flight p) now (ps_last_sync_sent p)
    (ps_last_request_sent p) now status.

(** ** Commands and events *)

Section Commands.
Context `{ChainTypes}.

(** The channels for answers are left out of the commands. *)
Inductive SyncCommand :=
  | SC_SendToPeer (peer : PeerId) (message : Message)
  | SC_Broadcast (message : Message)
  | SC_StoreHeader (header : Header) (raw_bytes : bytes)
  | SC_ApplyBlock (block_id block_data : bytes)
  | SC_StoreExtension (header_id extension_data : bytes)
  | SC_AddTransaction (tx_id tx_data : bytes) (from_peer : PeerId)
  | SC_StoreHeadersBatch (headers : list (Header * bytes)).

Inductive SyncEvent :=
  | SV_PeerConnected (peer : PeerId)
  | SV_PeerDisconnected (peer : PeerId)
  | SV_SyncInfoReceived (peer : PeerId) (info : SyncInfo)
  | SV_InvReceived (peer : PeerId) (inv : InvData)
  | SV_ModifierReceived (peer : PeerId) (type_id : Z) (id data : bytes)
  | SV_BlockApplied (block_id : bytes) (height : Z)
  | SV_BlockFailed (block_id : bytes) (error : string)
  | SV_RequestBlocks (headers : list Header)
  | SV_Tick.

(** The answer to a batch of headers: stored, refused, or never given. *)
Inductive StoreReply := Stored | StoreFailed (msg : string) | ReplyLost.
End Commands.

(** ** The state *)

Section State.
Context `{ChainTypes} {C : Type}.

Record SyncProtocol := mkSyncProtocol {
  sp_synchronizer : Synchronizer PeerId;
  sp_downloader : BlockDownloader PeerId C;
  sp_our_best_headers : list bytes;
  sp_header_chain : HeaderChain;
  sp_v2_sync_headers : list Header;
  sp_sync_peers : gmap PeerId PeerSyncState;
  sp_pending_headers : PendingHeadersMap;
  sp_stored_headers : C;
  sp_pending_header_inv : list bytes;
  sp_in_flight_headers : gmap bytes Z;
  sp_known_transactions : C;
  sp_pending_header_writes : list (Header * bytes);
  sp_pending_header_writes_since : option Z;
  sp_sync_tick : Z;
  sp_sent : list SyncCommand
}.

(** Writes to one of the locks. *)
Definition put_synchronizer (x : Synchronizer PeerId) (s : SyncProtocol) : SyncProtocol :=
  mkSyncProtocol x (sp_downloader s) (sp_our_best_headers s) (sp_header_chain s)
    (sp_v2_sync_headers s) (sp_sync_peers s) (sp_pending_headers s) (sp_stored_headers s)
    (sp_pending_header_inv s) (sp_in_flight_headers s) (sp_known_transactions s)
    (sp_pending_header_writes s) (sp_pending_header_writes_since s) (sp_sync_tick s) (sp_sent s).
Definition put_downloader (x : BlockDownloader PeerId C) (s : SyncProtocol) : SyncProtocol :=
  mkSyncProtocol (sp_synchronizer s) x (sp_our_best_headers s) (sp_header_chain s)
    (sp_v2_sync_headers s) (sp_sync_peers s) (sp_pending_headers s) (sp_stored_headers s)
    (sp_pending_header_inv s) (sp_in_flight_headers s) (sp_known_transactions s)
    (sp_pending_header_writes s) (sp_pending_header_writes_since s) (sp_sync_tick s) (sp_sent s).
Definition put_our_best_headers (x : list bytes) (s : SyncProtocol) : SyncProtocol :=
  mkSyncProtocol (sp_synchronizer s) (sp_downloader s) x (sp_header_chain s)
    (sp_v2_sync_headers s) (sp_sync_peers s) (sp_pending_headers s) (sp_stored_headers s)
    (sp_pending_header_inv s) (sp_in_flight_headers s) (sp_known_transactions s)
    (sp_pending_header_writes s) (sp_pending_header_writes_since s) (sp_sync_tick s) (sp_sent s).
Definition put_header_chain (x : HeaderChain) (s : SyncProtocol) : SyncProtocol :=
  mkSyncProtocol (sp_synchronizer s) (sp_downloader s) (sp_our_best_headers s) x
    (sp_v2_sync_headers s) (sp_sync_peers s) (sp_pending_headers s) (sp_stored_headers s)
    (sp_pending_header_inv s) (sp_in_flight_headers s) (sp_known_transactions s)
    (sp_pending_header_writes s) (sp_pending_header_writes_since s) (sp_sync_tick s) (sp_sent s).
Definition put_v2_sync_headers (x : list Header) (s : SyncProtocol) : SyncProtocol :=
  mkSyncProtocol (sp_synchronizer s) (sp_downloader s) (sp_our_best_headers s)
    (sp_header_chain s) x (sp_sync_peers s) (sp_pending_headers s) (sp_stored_headers s)
    (sp_pending_header_inv s) (sp_in_flight_headers s) (sp_known_transactions s)
    (sp_pending_header_writes s) (sp_pending_header_writes_since s) (sp_sync_tick s) (sp_sent s).
Definition put_sync_peers (x : gmap PeerId PeerSyncState) (s : SyncProtocol) : SyncProtocol :=
  mkSyncProtocol (sp_synchronizer s) (sp_downloader s) (sp_our_best_headers s)
    (sp_header_chain s) (sp_v2_sync_headers s) x (sp_pending_headers s) (sp_stored_headers s)
    (sp_pending_header_inv s) (sp_in_flight_headers s) (sp_known_transactions s)
    (sp_pending_header_writes s) (sp_pending_header_writes_since s) (sp_sync_tick s) (sp_sent s).
Definition put_pending_headers (x : PendingHeadersMap) (s : SyncProtocol) : SyncProtocol :=
  mkSyncProtocol (sp_synchronizer s) (sp_downloader s) (sp_our_best_headers s)
    (sp_header_chain s) (sp_v2_sync_headers s) (sp_sync_peers s) x (sp_stored_headers s)
    (sp_pending_header_inv s) (sp_in_flight_headers s) (sp_known_transactions s)
    (sp_pending_header_writes s) (sp_pending_header_writes_since s) (sp_sync_tick s) (sp_sent s).
Definition put_stored_headers (x : C) (s : SyncProtocol) : SyncProtocol :=
  mkSyncProtocol (sp_synchronizer s) (sp_downloader s) (sp_our_best_headers s)
    (sp_header_chain s) (sp_v2_sync_headers s) (sp_sync_peers s) (sp_pending_headers s) x
    (sp_pending_header_inv s) (sp_in_flight_headers s) (sp_known_transactions s)
    (sp_pending_header_writes s) (sp_pending_header_writes_since s) (sp_sync_tick s) (sp_sent s).
Definition put_pending_header_inv (x : list bytes) (s : SyncProtocol) : SyncProtocol :=
  mkSyncProtocol (sp_synchronizer s) (sp_downloader s) (sp_our_best_headers s)
    (sp_header_chain s) (sp_v2_sync_headers s) (sp_sync_peers s) (sp_pending_headers s)
    (sp_stored_headers s) x (sp_in_flight_headers s) (sp_known_transactions s)
    (sp_pending_header_writes s) (sp_pending_header_writes_since s) (sp_sync_tick s) (sp_sent s).
Definition put_in_flight_headers (x : gmap bytes Z) (s : SyncProtocol) : SyncProtocol :=
  mkSyncProtocol (sp_synchronizer s) (sp_downloader s) (sp_our_best_headers s)
    (sp_header_chain s) (sp_v2_sync_headers s) (sp_sync_peers s) (sp_pending_headers s)
    (sp_stored_headers s) (sp_pending_header_inv s) x (sp_known_transactions s)
    (sp_pending_header_writes s) (sp_pending_header_writes_since s) (sp_sync_tick s) (sp_sent s).
Definition put_known_transactions (x : C) (s : SyncProtocol) : SyncProtocol :=
  mkSyncProtocol (sp_synchronizer s) (sp_downloader s) (sp_our_best_headers s)
    (sp_header_chain s) (sp_v2_sync_headers s) (sp_sync_peers s) (sp_pending_headers s)
    (sp_stored_headers s) (sp_pending_header_inv s) (sp_in_flight_headers s) x
    (sp_pending_header_writes s) (sp_pending_header_writes_since s) (sp_sync_tick s) (sp_sent s).
Definition put_pending_header_writes (x : list (Header * bytes)) (s : SyncProtocol) : SyncProtocol :=
  mkSyncProtocol (sp_synchronizer s) (sp_downloader s) (sp_our_best_headers s)
    (sp_header_chain s) (sp_v2_sync_headers s) (sp_sync_peers s) (sp_pending_headers s)
    (sp_stored_headers s) (sp_pending_header_inv s) (sp_in_flight_headers s)
    (sp_known_transactions s) x (sp_pending_header_writes_since s) (sp_sync_tick s) (sp_sent s).
Definition put_pending_header_writes_since (x : option Z) (s : SyncProtocol) : SyncProtocol :=
  mkSyncProtocol (sp_synchronizer s) (sp_downloader s) (sp_our_best_headers s)
    (sp_header_chain s) (sp_v2_sync_headers s) (sp_sync_peers s) (sp_pending_headers s)
    (sp_stored_headers s) (sp_pending_header_inv s) (sp_in_flight_headers s)
    (sp_known_transactions s) (sp_pending_header_writes s) x (sp_sync_tick s) (sp_sent s).
Definition put_sync_tick (x : Z) (s : SyncProtocol) : SyncProtocol :=
  mkSyncProtocol (sp_synchronizer s) (sp_downloader s) (sp_our_best_headers s)
    (sp_header_chain s) (sp_v2_sync_headers s) (sp_sync_peers s) (sp_pending_headers s)
    (sp_stored_headers s) (sp_pending_header_inv s) (sp_in_flight_headers s)
    (sp_known_transactions s) (sp_pending_header_writes s) (sp_pending_header_writes_since s) x
    (sp_sent s).
Definition put_sent (x : list SyncCommand) (s : SyncProtocol) : SyncProtocol :=
  mkSyncProtocol (sp_synchronizer s) (sp_downloader s) (sp_our_best_headers s)
    (sp_header_chain s) (sp_v2_sync_headers s) (sp_sync_peers s) (sp_pending_headers s)
    (sp_stored_headers s) (sp_pending_header_inv s) (sp_in_flight_headers s)
    (sp_known_transactions s) (sp_pending_header_writes s) (sp_pending_header_writes_since s)
    (sp_sync_tick s) x.

Definition update_synchronizer (f : Synchronizer PeerId -> Synchronizer PeerId) (s : SyncProtocol)
    : SyncProtocol := put_synchronizer (f (sp_synchronizer s)) s.
Definition update_downloader (f : BlockDownloader PeerId C -> BlockDownloader PeerId C)
    (s : SyncProtocol) : SyncProtocol := put_downloader (f (sp_downloader s)) s.
Definition update_chain (f : HeaderChain -> HeaderChain) (s : SyncProtocol) : SyncProtocol :=
  put_header_chain (f (sp_header_chain s)) s.
Definition update_peer (peer : PeerId) (f : PeerSyncState -> PeerSyncState) (s : SyncProtocol)
    : SyncProtocol := put_sync_peers (alter f peer (sp_sync_peers s)) s.

(** ** Handlers that can fail *)

Definition M (A : Type) : Type := SyncProtocol -> result A SyncError * SyncProtocol.

#[global] Instance M_ret : MRet M := fun _ a s => (Ok a, s).
#[global] Instance M_bind : MBind M := fun _ _ f m s =>
  match m s with
  | (Ok a, s') => f a s'
  | (Err e, s') => (Err e, s')
  end.

Definition get_proto : M SyncProtocol := fun s => (Ok s, s).
Definition modify (f : SyncProtocol -> SyncProtocol) : M unit := fun s => (Ok tt, f s).
Definition throw {A} (e : SyncError) : M A := fun s => (Err e, s).

Fixpoint for_each {A} (f : A -> M unit) (l : list A) : M unit :=
  match l with
  | [] => mret tt
  | x :: l' => f x ;; for_each f l'
  end.
End State.

Arguments SyncProtocol {_} C.
Arguments M {_} C A.

(** The iteration orders of the hash maps and sets. *)
Class MapOrders := {
  tasks_iter : gmap bytes (DownloadTask PeerId) -> list (bytes * DownloadTask PeerId);
  flight_iter : gmap bytes PeerId -> list (bytes * PeerId);
  peers_iter : gmap PeerId PeerSyncState -> list (PeerId * PeerSyncState);
  requests_iter : gmap bytes Z -> list (bytes * Z);
  children_iter : gset bytes -> list bytes;
  types_iter : gmap Z (list bytes) -> list (Z * list bytes)
}.

Class MapOrdersLaws `{MapOrders} : Prop := {
  tasks_iter_perm m : tasks_iter m ≡ₚ map_to_list m;
  flight_iter_perm m : flight_iter m ≡ₚ map_to_list m;
  peers_iter_perm m : peers_iter m ≡ₚ map_to_list m;
  requests_iter_perm m : requests_iter m ≡ₚ map_to_list m;
  children_iter_perm s : children_iter s ≡ₚ elements s;
  types_iter_perm m : types_iter m ≡ₚ map_to_list m
}.

(** The other end of the command channel: whether it takes the next command,
    and how the storage answers a batch, after the commands sent so far. *)
Class SyncEnv `{ChainTypes} := {
  env_takes : list SyncCommand -> SyncCommand -> bool;
  env_reply : list SyncCommand -> StoreReply
}.

(** [LruCache::len] and [LruCache::cap]; below its capacity a cache forgets
    nothing. *)
Class LruLen (C : Type) := { lru_len : C -> Z; lru_cap : C -> Z }.

Class LruRetention (C : Type) `{LruCache C} `{!LruLen C} : Prop := {
  lru_cap_new n : lru_cap (lru_new n) = n;
  lru_cap_put c k : lru_cap (lru_put c k) = lru_cap c;
  lru_len_new n : lru_len (lru_new n) = 0;
  lru_len_put c k : lru_len (lru_put c k) <= lru_len c + 1;
  lru_len_pos c k : lru_contains c k = true -> 0 < lru_len c;
  lru_put_keeps c k k' :
    lru_len c < lru_cap c -> lru_contains c k' = true -> lru_contains (lru_put c k) k' = true
}.

(** The parts of the [sigma_ser] and [ergo_merkle_tree] crates that parsing and
    checking block transactions use. *)
Class SectionLib := {
  lib_get_u32 : bytes -> option (Z * nat);
  lib_merkle_root : list bytes -> bytes
}.

Section Protocol.
Context {ErgoBox Ext Tx : Type} `{ErgoBoxOps ErgoBox} `{TransactionOps ErgoBox Ext Tx}
  `{ChainTypes} `{!HeaderCodec} `{Blake2b256} {C : Type} `{LruCache C} `{!LruLen C}
  `{MapOrders} `{!SyncEnv} `{SectionLib}.

Abbreviation proto := (SyncProtocol C).

(** ** Identifiers *)

Definition compute_sync_header_id (data : bytes) : bytes := blake2b256 data.
Definition compute_block_section_id (modifier_type : Z) (header_id section_digest : bytes) : bytes :=
  blake2b256 ([modifier_type] ++ header_id ++ section_digest).

(** [header.id = BlockId(..)]. *)
Definition fix_header_id (h : Header) (id : bytes) : Header :=
  mkHeader (h_version h) id (h_parent_id h) (h_ad_proofs_root h) (h_state_root h)
    (h_transaction_root h) (h_timestamp h) (h_n_bits h) (h_height h) (h_extension_root h)
    (h_autolykos_solution h) (h_votes h) (h_unparsed_bytes h).

Definition transactions_id_of (header : Header) : bytes :=
  compute_block_section_id (to_byte MT_BlockTransactions) (h_id header) (h_transaction_root header).
Definition extension_id_of (header : Header) : bytes :=
  compute_block_section_id (to_byte MT_Extension) (h_id header) (h_extension_root header).

(** The header of raw bytes, under the identifier of the bytes. *)
Definition parse_received_header (data : bytes) : option Header :=
  (fun header =>
     if decide (h_id header <> compute_sync_header_id data)
     then fix_header_id header (compute_sync_header_id data) else header)
  <$> scorex_parse_bytes data.

(** ** Construction *)

Definition genesis_parent_id : bytes := replicate 32 0.

Definition SyncProtocol_new (config : SyncConfig) : proto :=
  mkSyncProtocol (Synchronizer_new config) (BlockDownloader_new DownloadConfig_default) []
    HeaderChain_new [] ∅ PendingHeadersMap_new
    (lru_put (lru_new STORED_HEADERS_CACHE_SIZE) genesis_parent_id) [] ∅ (lru_new 10000) [] None 0 [].

Definition init_from_stored_headers (all_header_ids locator_ids : list bytes)
    (v2_headers : list Header) (s : proto) : proto :=
  match all_header_ids with
  | [] => s
  | _ =>
      let ids_to_load :=
        drop (length all_header_ids - Z.to_nat STORED_HEADERS_CACHE_SIZE) all_header_ids in
      let s := put_stored_headers (fold_left lru_put ids_to_load (sp_stored_headers s)) s in
      let s := put_our_best_headers locator_ids s in
      match v2_headers with [] => s | _ => put_v2_sync_headers v2_headers s end
  end.

Definition set_our_headers (header_ids : list bytes) (s : proto) : proto :=
  put_our_best_headers header_ids s.
Definition sync_set_height (height : Z) (s : proto) : proto :=
  update_synchronizer (set_height height) s.
Definition best_header_height (s : proto) : Z :=
  default (sy_our_height (sp_synchronizer s)) (back_height (sp_header_chain s)).

(** ** Commands *)

Definition send_command (cmd : SyncCommand) : M C unit := fun s =>
  if env_takes (sp_sent s) cmd then (Ok tt, put_sent (sp_sent s ++ [cmd]) s)
  else (Err (SE_Internal "Failed to send command"), s).

Definition send_to_peer (peer : PeerId) (message : Message) : M C unit :=
  send_command (SC_SendToPeer peer message).

(** ** Peers *)

(** Headers that do not serialise are left out; without any, the peer gets the
    identifier of the genesis parent. *)
Definition build_v2_sync_info (s : proto) : SyncInfo :=
  match omap scorex_serialize_bytes (sp_v2_sync_headers s) with
  | [] => SyncInfo_v1 [genesis_parent_id]
  | serialized_headers => SyncInfo_v2 serialized_headers
  end.

Definition on_peer_connected (now : Z) (peer : PeerId) : M C unit :=
  modify (fun s => put_sync_peers
    (<[peer := mark_sync_sent now (PeerSyncState_new now)]> (sp_sync_peers s)) s) ;;
  s ← get_proto;
  send_to_peer peer (M_SyncInfo (build_v2_sync_info s)).

Definition on_peer_disconnected (peer : PeerId) (s : proto) : proto :=
  let s := put_sync_peers (delete peer (sp_sync_peers s)) s in
  let s := update_synchronizer (remove_peer peer) s in
  let in_flight_for_peer := get_in_flight_for_peer flight_iter (sp_downloader s) peer in
  fold_left (fun s id => update_downloader (fun d => Downloader.fail d id peer) s)
    in_flight_for_peer s.

(** The identifiers and the greatest height of a [SyncInfo]. *)
Definition sync_info_headers (info : SyncInfo) : list bytes * option Z :=
  if is_v2 info then
    let headers := omap scorex_parse_bytes (last_headers info) in
    (h_id <$> headers,
     foldl (fun max header => Some (match max with Some h => Z.max h (h_height header)
                                    | None => h_height header end)) None headers)
  else (last_header_ids info, None).

Definition chain_status (our_height estimated_height : Z) (shared : bool) : PeerChainStatus :=
  if (estimated_height =? 0) && (our_height =? 0) then PCS_Unknown
  else if estimated_height >? our_height then PCS_Older
  else if estimated_height <? our_height then PCS_Younger
  else if shared then PCS_Equal else PCS_Fork.

Definition on_sync_info (now : Z) (peer : PeerId) (info : SyncInfo) : M C unit :=
  s ← get_proto;
  let known := sp_sync_peers s !! peer in
  let can_process := match known with Some p => can_process_sync now p | None => true end in
  let old_status := match known with Some p => ps_chain_status p | None => PCS_Unknown end in
  if negb can_process then mret tt
  else
    let '(header_ids, peer_height) := sync_info_headers info in
    let existing_height := match known with Some p => ps_height p | None => 0 end in
    let estimated_height := default existing_height peer_height in
    let our_height := default 0 (back_height (sp_header_chain s)) in
    let shared := existsb (fun h => bool_decide (h ∈ sp_our_best_headers s)) header_ids in
    let new_status := chain_status our_height estimated_height shared in
    let should_send_sync :=
      match known with
      | Some p => should_send_sync_response now p old_status new_status
      | None => true
      end in
    modify (update_peer peer (mark_sync_received now estimated_height header_ids new_status)) ;;
    modify (update_synchronizer (set_peer_height peer estimated_height)) ;;
    if should_send_sync then
      s ← get_proto;
      let sync_info := build_v2_sync_info s in
      modify (update_peer peer (mark_sync_sent now)) ;;
      send_to_peer peer (M_SyncInfo sync_info)
    else mret tt.

(** ** Inventories *)

(** The oldest entries make room for the new ones, as far as there are any. *)
Definition queue_header_inv (remaining : list bytes) (pending : list bytes) : list bytes :=
  drop (length pending + length remaining - Z.to_nat MAX_PENDING_HEADER_INV) pending ++ remaining.

Definition track_requests (now : Z) (ids : list bytes) (s : proto) : proto :=
  put_in_flight_headers (fold_left (fun m id => <[id := now]> m) ids (sp_in_flight_headers s)) s.

Definition filter_known (cache : C) (ids : list bytes) : list bytes :=
  base.filter (fun id => lru_contains cache id = false) ids.

Definition on_inv (now : Z) (peer : PeerId) (inv : InvData) : M C unit :=
  let is_header_inv := inv_type_id inv =? to_byte MT_Header in
  let is_transaction_inv := inv_type_id inv =? to_byte MT_Transaction in
  let is_block_transactions_inv := inv_type_id inv =? to_byte MT_BlockTransactions in
  if is_block_transactions_inv then mret tt
  else
    match inv_ids inv with
    | [] => mret tt
    | _ =>
        s ← get_proto;
        let filtered_ids :=
          if is_header_inv then filter_known (sp_stored_headers s) (inv_ids inv)
          else if is_transaction_inv then filter_known (sp_known_transactions s) (inv_ids inv)
          else inv_ids inv in
        let ids_to_request := take MAX_REQUEST_SIZE filtered_ids in
        let remaining := drop MAX_REQUEST_SIZE filtered_ids in
        (if is_header_inv then
           match remaining with
           | [] => mret tt
           | _ => modify (fun s => put_pending_header_inv
                    (queue_header_inv remaining (sp_pending_header_inv s)) s)
           end
         else mret tt) ;;
        match ids_to_request with
        | [] => mret tt
        | _ =>
            (if is_header_inv then modify (track_requests now ids_to_request) else mret tt) ;;
            modify (update_peer peer (mark_request_sent now)) ;;
            send_to_peer peer (M_RequestModifier
              (mkModifierRequest (inv_type_id inv) ids_to_request))
        end
    end.

(** ** Headers *)

(** Accumulating headers for the next batch. *)
Definition buffer_header_for_storage (now : Z) (header : Header) (raw_bytes : bytes) (s : proto)
    : proto :=
  let since := match sp_pending_header_writes s with
               | [] => Some now
               | _ => sp_pending_header_writes_since s
               end in
  put_pending_header_writes_since since
    (put_pending_header_writes (sp_pending_header_writes s ++ [(header, raw_bytes)]) s).

Definition should_flush_headers (now : Z) (s : proto) : bool :=
  match sp_pending_header_writes s with
  | [] => false
  | pending =>
      if Z.of_nat (length pending) >=? HEADER_BATCH_SIZE then true
      else match sp_pending_header_writes_since s with
           | Some start => elapsed now start >=? HEADER_BATCH_TIMEOUT_MS
           | None => false
           end
  end.

(** The buffer is taken before the command is sent. *)
Definition flush_pending_headers_to_storage : M C (list bytes) :=
  s ← get_proto;
  let headers := sp_pending_header_writes s in
  modify (fun s => put_pending_header_writes_since None (put_pending_header_writes [] s)) ;;
  match headers with
  | [] => mret []
  | _ =>
      send_command (SC_StoreHeadersBatch headers) ;;
      s ← get_proto;
      match env_reply (sp_sent s) with
      | Stored => mret ((fun '(h, _) => h_id h) <$> headers)
      | StoreFailed msg => throw (SE_Internal msg)
      | ReplyLost => throw (SE_Internal "Batch storage response channel closed")
      end
  end.

Definition flush_if_needed (now : Z) : M C unit :=
  s ← get_proto;
  if should_flush_headers now s then flush_pending_headers_to_storage ;; mret tt else mret tt.

(** The new header becomes the best one of the [SyncInfo]. *)
Definition update_v2_headers (header : Header) (v2 : list Header) : list Header :=
  match v2 with [] => [header] | _ :: rest => header :: rest end.

(** What [store_header_and_descendants] does before it looks for descendants. *)
Definition record_header (now : Z) (header : Header) (raw_bytes : bytes) (s : proto) : proto :=
  let header_id := h_id header in
  let s := buffer_header_for_storage now header raw_bytes s in
  let s := put_stored_headers (lru_put (sp_stored_headers s) header_id) s in
  let s := update_chain (add_header header (transactions_id_of header) header_id) s in
  let s := put_v2_sync_headers (update_v2_headers header (sp_v2_sync_headers s)) s in
  update_synchronizer (set_height (h_height header)) s.

(** The headers waiting for a parent, each removed and stored by [store]. *)
Definition try_apply_pending_headers (store : Header -> bytes -> M C unit) (parent_id : bytes)
    : M C unit :=
  s ← get_proto;
  let waiting := get_by_parent children_iter parent_id (sp_pending_headers s) in
  for_each (fun '(id, ph) =>
    modify (fun s => put_pending_headers (pending_remove id (sp_pending_headers s)).2 s) ;;
    store (ph_header ph) (ph_raw_bytes ph)) waiting.

Fixpoint store_header_and_descendants (fuel : nat) (now : Z) (header : Header) (raw_bytes : bytes)
    : M C unit :=
  match fuel with
  | O => throw SE_OutOfFuel
  | S fuel' =>
      modify (record_header now header raw_bytes) ;;
      try_apply_pending_headers (store_header_and_descendants fuel' now) (h_id header) ;;
      flush_if_needed now
  end.

(** One level of recursion for each header that waits. *)
Definition store_fuel (s : proto) : nat := S (size (by_id (sp_pending_headers s))).

Definition on_header_received (now : Z) (id data : bytes) : M C unit :=
  modify (fun s => put_in_flight_headers (delete id (sp_in_flight_headers s)) s) ;;
  let correct_id := compute_sync_header_id data in
  match parse_received_header data with
  | None => throw (SE_InvalidData "Failed to parse header")
  | Some header =>
      let parent_id := h_parent_id header in
      s ← get_proto;
      let already_stored := lru_contains (sp_stored_headers s) correct_id in
      let parent_available := lru_contains (sp_stored_headers s) parent_id in
      if already_stored then mret tt
      else if parent_available then
        store_header_and_descendants (store_fuel s) now header data
      else
        modify (fun s => put_pending_headers
          (pending_insert correct_id (mkPendingHeader header data parent_id) MAX_PENDING_HEADERS
             (sp_pending_headers s)).2 s)
  end.

(** ** Blocks, extensions, transactions *)

(** The peer of a failed parse is the empty identifier. *)
Definition on_block_received (id data : bytes) : M C unit :=
  match BlockTransactions_parse lib_get_u32 data with
  | Err _ =>
      modify (update_downloader (fun d => Downloader.fail d id [])) ;;
      throw (SE_InvalidData "Failed to parse BlockTransactions")
  | Ok block_txs =>
      let header_id_from_block := bt_header_id block_txs in
      s ← get_proto;
      match (match get_header_by_id header_id_from_block (sp_header_chain s) with
             | Some header => validate_against_header lib_merkle_root block_txs header
             | None => Ok tt
             end) with
      | Err _ =>
          modify (update_downloader (fun d => Downloader.fail d id [])) ;;
          throw (SE_InvalidData "Block validation failed")
      | Ok _ =>
          modify (update_downloader (fun d => complete d id)) ;;
          modify (update_synchronizer (block_received id)) ;;
          send_command (SC_ApplyBlock header_id_from_block data) ;;
          modify (update_chain (fun c => mkHeaderChain (hc_headers c) (hc_missing_blocks c)
            (delete id (hc_tx_id_to_header_id c)) (hc_header_id_to_tx_id c) (hc_headers_by_id c)))
      end
  end.

Definition on_extension_received (id data : bytes) : M C unit :=
  match Extension_parse data with
  | Err _ => modify (update_downloader (fun d => complete d id))
  | Ok extension =>
      modify (update_downloader (fun d => complete d id)) ;;
      send_command (SC_StoreExtension (ext_header_id extension) data)
  end.

Definition on_transaction_received (peer : PeerId) (id data : bytes) : M C unit :=
  modify (fun s => put_known_transactions (lru_put (sp_known_transactions s) id) s) ;;
  send_command (SC_AddTransaction id data peer).

Definition on_modifier (now : Z) (peer : PeerId) (type_id : Z) (id data : bytes) : M C unit :=
  modify (update_peer peer (mark_active now)) ;;
  match from_byte type_id with
  | Some MT_Transaction => on_transaction_received peer id data
  | Some MT_Header => on_header_received now id data
  | Some MT_BlockTransactions => on_block_received id data
  | Some MT_Extension => on_extension_received id data
  | _ => mret tt
  end.

(** ** Applied and failed blocks *)

Definition on_block_applied (block_id : bytes) (height : Z) (s : proto) : proto :=
  let s := sync_set_height height s in
  let s := match get_tx_id block_id (sp_header_chain s) with
           | Some tx_id => update_downloader (fun d => uncomplete d tx_id) s
           | None => s
           end in
  let s := update_chain (remove_header block_id) s in
  update_downloader (fun d => uncomplete d block_id) s.

Definition on_block_failed (block_id : bytes) (s : proto) : proto :=
  let s := update_downloader (fun d => uncomplete d block_id) s in
  match get_tx_id block_id (sp_header_chain s) with
  | Some tx_id => update_downloader (fun d => uncomplete d tx_id) s
  | None => s
  end.

(** ** Dispatching downloads *)

Definition in_flight_count (s : proto) : Z := Z.of_nat (size (in_flight (sp_downloader s))).
Definition pending_count (s : proto) : Z := Z.of_nat (size (pending (sp_downloader s))).

(** The tasks of one peer, grouped by type in the order of the tasks. *)
Definition group_by_type (tasks : list (DownloadTask PeerId)) : gmap Z (list bytes) :=
  fold_left (fun m t =>
    <[task_type_id t := default [] (m !! task_type_id t) ++ [task_id t]]> m) tasks ∅.

Definition dispatch_to_peer (now : Z) (peer : PeerId) : M C unit :=
  s ← get_proto;
  let tasks := get_ready_tasks_for_peer tasks_iter (sp_downloader s) MAX_BLOCKS_PER_PEER peer in
  match tasks with
  | [] => mret tt
  | _ =>
      modify (update_downloader (fun d =>
        fold_left (fun d t => dispatch now d (task_id t) peer) tasks d)) ;;
      modify (update_peer peer (mark_dispatched now (Z.of_nat (length tasks)))) ;;
      for_each (fun '(type_id, ids) =>
        send_to_peer peer (M_RequestModifier (mkModifierRequest type_id ids)))
        (types_iter (group_by_type tasks))
  end.

Definition available_peers (now : Z) (s : proto) : list PeerId :=
  (base.filter (fun p => can_send_request now (p.2) = true) (peers_iter (sp_sync_peers s))).*1.

(** Tasks that failed with every peer may be tried again. *)
Definition clear_stuck (s : proto) : proto :=
  let all_peers := (peers_iter (sp_sync_peers s)).*1 in
  let stuck := get_stuck_tasks tasks_iter (sp_downloader s) all_peers in
  fold_left (fun s id => update_downloader (fun d => clear_failed_peers d id) s) stuck s.

Definition dispatch_downloads (now : Z) : M C unit :=
  s ← get_proto;
  if in_flight_count s >=? PARALLEL_DOWNLOADS then mret tt
  else
    match available_peers now s with
    | [] => mret tt
    | peers =>
        modify clear_stuck ;;
        for_each (dispatch_to_peer now) (take MAX_PEERS_TO_USE peers)
    end.

(** Headers whose block transactions are not tracked yet are; every header asks
    for its block transactions and its extension. *)
Definition on_request_blocks (now : Z) (headers : list Header) : M C unit :=
  match headers with
  | [] => mret tt
  | _ =>
      modify (fun s => fold_left (fun s header =>
        if decide (is_Some (hc_tx_id_to_header_id (sp_header_chain s) !! transactions_id_of header))
        then s
        else update_chain (track_header header (transactions_id_of header) (h_id header)) s)
        headers s) ;;
      let tasks := headers ≫= fun header =>
        [DownloadTask_new (transactions_id_of header) (to_byte MT_BlockTransactions);
         DownloadTask_new (extension_id_of header) (to_byte MT_Extension)] in
      modify (update_downloader (fun d => queue d tasks)) ;;
      dispatch_downloads now
  end.

(** ** The tick *)

(** The estimate of the height of the network, and whether headers are still
    far behind it. *)
Definition estimated_network_height (s : proto) : Z :=
  let peer_height := best_or_zero (sp_synchronizer s) in
  if peer_height >? 0 then peer_height else default 0 (back_height (sp_header_chain s)).

Definition queue_block_downloads (s : proto) : proto :=
  let our_height := sy_our_height (sp_synchronizer s) in
  let estimated := estimated_network_height s in
  if (estimated >? 0) && (u32 (our_height + 1000) <? estimated) then s
  else if pending_count s + in_flight_count s >=? PARALLEL_DOWNLOADS then s
  else
    let missing := hc_missing_blocks (sp_header_chain s) in
    let count := Z.to_nat (Z.min (u64 (16 - pending_count s - in_flight_count s))
                             (Z.of_nat (length missing))) in
    let s := update_chain (fun c => mkHeaderChain (hc_headers c) (drop count missing)
      (hc_tx_id_to_header_id c) (hc_header_id_to_tx_id c) (hc_headers_by_id c)) s in
    match take count missing with
    | [] => s
    | blocks_to_queue =>
        update_downloader (fun d => queue d
          ((fun id => DownloadTask_new id (to_byte MT_BlockTransactions)) <$> blocks_to_queue)) s
    end.

(** The first peer, in the order of the map, that may be asked. *)
Definition find_peer_for_request (now : Z) (s : proto) : option PeerId :=
  fst <$> head (base.filter (fun p => can_send_request now (p.2) = true) (peers_iter (sp_sync_peers s))).
Definition find_peer_for_sync (now : Z) (s : proto) : option PeerId :=
  fst <$> head (base.filter (fun p => can_send_sync now (p.2) = true) (peers_iter (sp_sync_peers s))).

(** Popping the queue until enough unknown identifiers are found. *)
Fixpoint take_pending_inv (cache : C) (count : nat) (pending : list bytes)
    : list bytes * list bytes :=
  match count, pending with
  | O, _ => ([], pending)
  | _, [] => ([], [])
  | S count', id :: pending' =>
      if lru_contains cache id then take_pending_inv cache count pending'
      else let '(ids, rest) := take_pending_inv cache count' pending' in (id :: ids, rest)
  end.

Definition request_pending_inv (now : Z) (peer : PeerId) : M C unit :=
  s ← get_proto;
  let '(pending_ids, rest) :=
    take_pending_inv (sp_stored_headers s) MAX_REQUEST_SIZE (sp_pending_header_inv s) in
  modify (put_pending_header_inv rest) ;;
  match pending_ids with
  | [] => mret tt
  | _ =>
      modify (track_requests now pending_ids) ;;
      modify (update_peer peer (mark_request_sent now)) ;;
      send_to_peer peer (M_RequestModifier (mkModifierRequest (to_byte MT_Header) pending_ids))
  end.

Definition send_periodic_sync_info (now : Z) : M C unit :=
  s ← get_proto;
  let our_height := sy_our_height (sp_synchronizer s) in
  let peer_height := best_or_zero (sp_synchronizer s) in
  let sync_tick := sp_sync_tick s in
  let in_flight_count := size (sp_in_flight_headers s) in
  modify (fun s => put_sync_tick (u64 (sync_tick + 1)) s) ;;
  let should_send_sync :=
    negb (bool_decide (sp_sync_peers s = ∅)) &&
    ((our_height <? peer_height) || (peer_height =? 0) ||
     ((in_flight_count =? 0)%nat && (sync_tick mod 5 =? 0))) in
  if should_send_sync then
    match find_peer_for_sync now s with
    | Some peer =>
        modify (update_peer peer (mark_sync_sent now)) ;;
        s ← get_proto;
        send_to_peer peer (M_SyncInfo (build_v2_sync_info s))
    | None => mret tt
    end
  else mret tt.

(** Waiting headers are dropped on a node without any stored one. *)
Definition clear_stuck_headers (s : proto) : proto :=
  if negb (pending_is_empty (sp_pending_headers s)) && (lru_len (sp_stored_headers s) =? 0) then
    match hc_headers (sp_header_chain s) with
    | [] => put_pending_headers (pending_clear (sp_pending_headers s)) s
    | _ => s
    end
  else s.

Definition request_more_headers_if_needed (now : Z) : M C unit :=
  s ← get_proto;
  if (300 <? size (sp_in_flight_headers s))%nat then mret tt
  else
    modify clear_stuck_headers ;;
    match sp_pending_header_inv s with
    | [] => send_periodic_sync_info now
    | _ =>
        match find_peer_for_request now s with
        | Some peer => request_pending_inv now peer
        | None => mret tt
        end
    end.

(** Every timed out download fails; peers with ten timeouts or more go. *)
Definition fail_timed_out (now : Z) (s : proto) : proto :=
  let timed_out := Downloader.check_timeouts tasks_iter now (sp_downloader s) in
  let s := fold_left (fun s '(id, peer) =>
    update_downloader (fun d => Downloader.fail d id peer) s) timed_out s in
  let count (peer : PeerId) : Z :=
    Z.of_nat (length (base.filter (fun t => t.2 = peer) timed_out)) in
  fold_left (fun s peer =>
    if count peer >=? MAX_TIMEOUTS_PER_TICK then
      update_synchronizer (remove_peer peer) (put_sync_peers (delete peer (sp_sync_peers s)) s)
    else s) (remove_dups (timed_out.*2)) s.

(** Timed out header requests go to the front of the queue. *)
Definition requeue_header (s : proto) (id : bytes) : proto :=
  let s := put_in_flight_headers (delete id (sp_in_flight_headers s)) s in
  let pending := sp_pending_header_inv s in
  let pending := if Z.of_nat (length pending) >=? MAX_PENDING_HEADER_INV
                 then take (length pending - 1) pending else pending in
  put_pending_header_inv (id :: pending) s.

Definition requeue_timed_out_headers (now : Z) (s : proto) : proto :=
  let timed_out := (base.filter (fun r => elapsed now (r.2) > HEADER_TIMEOUT)
                      (requests_iter (sp_in_flight_headers s))).*1 in
  fold_left requeue_header timed_out s.

Definition on_tick (now : Z) : M C unit :=
  flush_if_needed now ;;
  modify (fail_timed_out now) ;;
  modify (requeue_timed_out_headers now) ;;
  modify queue_block_downloads ;;
  dispatch_downloads now ;;
  request_more_headers_if_needed now.

(** ** Events *)

Definition handle_event (now : Z) (event : SyncEvent) : M C unit :=
  match event with
  | SV_PeerConnected peer => on_peer_connected now peer
  | SV_PeerDisconnected peer => modify (on_peer_disconnected peer)
  | SV_SyncInfoReceived peer info => on_sync_info now peer info
  | SV_InvReceived peer inv => on_inv now peer inv
  | SV_ModifierReceived peer type_id id data => on_modifier now peer type_id id data
  | SV_BlockApplied block_id height => modify (on_block_applied block_id height)
  | SV_BlockFailed block_id _ => modify (on_block_failed block_id)
  | SV_RequestBlocks headers => on_request_blocks now headers
  | SV_Tick => on_tick now
  end.

(** Events one after another; a failed event leaves what it did, and the next
    one runs. *)
Definition run_events (events : list (Z * SyncEvent)) (s : proto) : proto :=
  fold_left (fun s '(now, event) => (handle_event now event s).2) events s.

End Protocol.

(** ** Reasoning about the handlers of the synchronisation protocol

    What a handler keeps, whether it fails or not: [preserves] and its rules
    for the combinators of [M], used by every invariant of the protocol. *)

Section Facts.
Context `{ChainTypes} {C : Type}.
Implicit Types (s : SyncProtocol C) (P : SyncProtocol C -> Prop).

Lemma bind_eq {A B} (m : M C A) (f : A -> M C B) s :
  (m ≫= f) s = match m s with (Ok a, s') => f a s' | (Err e, s') => (Err e, s') end.
Proof. done. Qed.

Definition preserves {A} P (m : M C A) : Prop := forall s, P s -> P (m s).2.

Lemma preserves_bind {A B} P (m : M C A) (f : A -> M C B) :
  preserves P m -> (forall a, preserves P (f a)) -> preserves P (m ≫= f).
Proof.
  intros Hm Hf s Hs. rewrite bind_eq. specialize (Hm s Hs). destruct (m s) as [[a|e] s']; cbn in *.
  - by apply Hf.
  - done.
Qed.

Lemma preserves_ret {A} P (a : A) : preserves P (mret a).
Proof. by intros s. Qed.
Lemma preserves_get P : preserves P get_proto.
Proof. by intros s. Qed.
Lemma preserves_throw {A} P e : preserves P (@throw _ C A e).
Proof. by intros s. Qed.
Lemma preserves_modify P f : (forall s, P s -> P (f s)) -> preserves P (modify f).
Proof. intros Hf s. apply Hf. Qed.

Lemma preserves_for_each {A} P (f : A -> M C unit) l :
  (forall x, x ∈ l -> preserves P (f x)) -> preserves P (for_each f l).
Proof.
  induction l as [|x l IH]; intros Hf; cbn [for_each]; [apply preserves_ret|].
  apply preserves_bind; [apply Hf, list_elem_of_here|]. intros _. apply IH.
  intros y Hy. by apply Hf, list_elem_of_further.
Qed.

Lemma preserves_fold {A} P (f : SyncProtocol C -> A -> SyncProtocol C) l s :
  (forall s x, P s -> P (f s x)) -> P s -> P (fold_left f l s).
Proof. intros Hf. revert s. induction l; cbn; auto. Qed.

Context `{!SyncEnv}.

Lemma preserves_send P cmd :
  (forall s, P s -> P (put_sent (sp_sent s ++ [cmd]) s)) -> preserves P (send_command cmd).
Proof. intros Hc s Hs. unfold send_command. destruct (env_takes _ _); cbn; auto. Qed.
End Facts.

(** Walks through a handler, leaving its updates of the state as goals. *)
Ltac preserve_step :=
  match goal with
  | |- preserves _ (mbind _ _) => apply preserves_bind; [|intros ?]
  | |- preserves _ (mret _) => apply preserves_ret
  | |- preserves _ get_proto => apply preserves_get
  | |- preserves _ (throw _) => apply preserves_throw
  | |- preserves _ (modify _) => apply preserves_modify; intros ? ?
  | |- preserves _ (for_each _ _) => apply preserves_for_each; intros ? ?
  | |- preserves _ (send_command _) => apply preserves_send; intros ? ?
  | |- preserves _ (send_to_peer _ _) => apply preserves_send; intros ? ?
  | |- preserves _ (match ?x with _ => _ end) => destruct x
  end.
Ltac preserve := repeat preserve_step.
