(* ===== verification/HeaderSync.v ===== *)
(** * Headers reach the storage parents first

    The recursion of [store_header_and_descendants] terminates; what it hands
    to the storage, what it leaves waiting; and, over whole runs with a storage
    that answers, the order in which headers are handed over, whatever the
    order in which they arrive. *)

From S2P Require Export SyncProtocol SyncHeadersSpec.

Local Open Scope Z_scope.

Section HeaderSync.
Context {ErgoBox Ext Tx : Type} `{ErgoBoxOps ErgoBox} `{TransactionOps ErgoBox Ext Tx}
  `{ChainTypes} `{!HeaderCodec} `{Blake2b256} {C : Type} `{LruLaws C} `{!LruLen C}
  `{MapOrdersLaws} `{!SyncEnv} `{SectionLib}.

Abbreviation proto := (SyncProtocol C).
Implicit Types (s : proto) (h : Header) (raw id : bytes) (ph : PendingHeader).

(** ** Termination of the recursion *)

Abbreviation waiting_of s := (by_id (sp_pending_headers s)).

(** A handler that does not run out of fuel and only takes waiting headers away. *)
Definition shrinks {A} (m : M C A) s : Prop :=
  (m s).1 <> Err SE_OutOfFuel /\ waiting_of (m s).2 ⊆ waiting_of s.

(** What a flush amounts to. *)
Definition flushed s : proto := put_pending_header_writes_since None (put_pending_header_writes [] s).
Definition batch_sent s : proto :=
  put_sent (sp_sent s ++ [SC_StoreHeadersBatch (sp_pending_header_writes s)]) (flushed s).

Lemma flush_eq now s :
  flush_if_needed now s =
  if should_flush_headers now s then
    if env_takes (sp_sent s) (SC_StoreHeadersBatch (sp_pending_header_writes s)) then
      match env_reply (sp_sent (batch_sent s)) with
      | Stored => (Ok tt, batch_sent s)
      | StoreFailed msg => (Err (SE_Internal msg), batch_sent s)
      | ReplyLost => (Err (SE_Internal "Batch storage response channel closed"), batch_sent s)
      end
    else (Err (SE_Internal "Failed to send command"), flushed s)
  else (Ok tt, s).
Proof.
  unfold flush_if_needed. rewrite bind_eq. cbn [get_proto].
  destruct (should_flush_headers now s) eqn:Ef; [|done]. rewrite bind_eq.
  unfold flush_pending_headers_to_storage, should_flush_headers, batch_sent in *.
  rewrite bind_eq. cbn [get_proto]. rewrite bind_eq. cbn [modify].
  destruct (sp_pending_header_writes s) as [|p l]; [done|].
  rewrite bind_eq. unfold send_command.
  change (sp_sent (put_pending_header_writes_since None (put_pending_header_writes [] s)))
    with (sp_sent s).
  destruct (env_takes (sp_sent s) (SC_StoreHeadersBatch (p :: l))); [|done].
  rewrite bind_eq. cbn [get_proto].
  change (sp_sent (put_sent ?l _)) with l.
  by destruct (env_reply (sp_sent s ++ [SC_StoreHeadersBatch (p :: l)])).
Qed.

Lemma flush_shrinks now s : shrinks (flush_if_needed now) s.
Proof.
  unfold shrinks. rewrite flush_eq. destruct (should_flush_headers now s); [|done].
  destruct (env_takes (sp_sent s) (SC_StoreHeadersBatch (sp_pending_header_writes s))); [|done].
  by destruct (env_reply (sp_sent (batch_sent s))).
Qed.

Lemma for_each_shrinks {A} (f : A -> M C unit) (l : list A) s (S0 : gmap bytes PendingHeader) :
  waiting_of s ⊆ S0 ->
  (forall x s', x ∈ l -> waiting_of s' ⊆ S0 -> shrinks (f x) s') -> shrinks (for_each f l) s.
Proof.
  revert s. induction l as [|x l IH]; intros s Hs Hf; cbn [for_each]; [done|].
  destruct (Hf x s ltac:(set_solver) Hs) as [Ra Rb].
  unfold shrinks. rewrite bind_eq. destruct (f x s) as [[a|e] s']; cbn in *; [|done].
  destruct (IH s') as [Rc Rd]; [by etrans|intros; apply Hf; set_solver|].
  split; [done|by etrans].
Qed.

Lemma size_delete_lt (S0 m : gmap bytes PendingHeader) id fuel :
  m ⊆ S0 -> is_Some (S0 !! id) -> (size S0 <= fuel)%nat -> (size (delete id m) < fuel)%nat.
Proof.
  intros Hsub [ph Hid] Hle. apply (delete_mono _ _ id) in Hsub. apply map_subseteq_size in Hsub.
  rewrite (map_size_delete_Some id S0) in Hsub by eauto.
  assert (0 < size S0)%nat; [|lia]. rewrite Nat.lt_nge. intros Hz.
  assert (S0 = ∅) as -> by (apply map_size_empty_inv; lia). by rewrite lookup_empty in Hid.
Qed.

Lemma store_shrinks fuel now h raw s :
  (size (waiting_of s) < fuel)%nat -> shrinks (store_header_and_descendants fuel now h raw) s.
Proof.
  revert h raw s. induction fuel as [|fuel IH]; intros h raw s Hlt; [lia|].
  cbn [store_header_and_descendants]. unfold shrinks.
  rewrite bind_eq. cbn [modify]. rewrite bind_eq. set (s1 := record_header now h raw s).
  assert (waiting_of s1 = waiting_of s) as E1 by done.
  assert (shrinks (try_apply_pending_headers (store_header_and_descendants fuel now) (h_id h)) s1)
    as [Rc Rd].
  { unfold try_apply_pending_headers, shrinks. rewrite bind_eq. cbn [get_proto].
    apply (for_each_shrinks _ _ s1 (waiting_of s1)); [done|].
    intros [id ph] s2 Hin%get_by_parent_in Hs2. unfold shrinks. rewrite bind_eq. cbn [modify].
    destruct (IH (ph_header ph) (ph_raw_bytes ph)
      (put_pending_headers (pending_remove id (sp_pending_headers s2)).2 s2)) as [Re Rf].
    - cbn. rewrite pending_remove_by_id. eapply size_delete_lt; [done|by eexists|]. rewrite E1. lia.
    - split; [done|]. etrans; [done|]. cbn. rewrite pending_remove_by_id. apply delete_subseteq. }
  destruct (try_apply_pending_headers _ _ s1) as [[a|e] s2]; cbn in Rc, Rd; [|by rewrite <- E1].
  destruct (flush_shrinks now s2) as [Re Rf]. split; [done|]. rewrite <- E1. by etrans.
Qed.

(** ** What is handed to the storage *)

Definition batches (cmds : list SyncCommand) : list (Header * bytes) :=
  cmds ≫= fun c => match c with SC_StoreHeadersBatch hs => hs | _ => [] end.

(** The headers of the batches sent so far, and those of the next one. *)
Definition handed s : list (Header * bytes) := batches (sp_sent s) ++ sp_pending_header_writes s.

Definition ids_of (l : list (Header * bytes)) : list bytes := (fun x => h_id (x.1)) <$> l.

Lemma ids_app l1 l2 : ids_of (l1 ++ l2) = ids_of l1 ++ ids_of l2.
Proof. apply fmap_app. Qed.

Lemma batches_app l1 l2 : batches (l1 ++ l2) = batches l1 ++ batches l2.
Proof. apply bind_app. Qed.

(** The headers of the next batch wait since one of the times in [T]. *)
Definition waits_since (T : Z -> Prop) s : Prop :=
  sp_pending_header_writes s = [] \/ exists t, sp_pending_header_writes_since s = Some t /\ T t.

(** The part of the state this is about. *)
Definition same_headers s s' : Prop :=
  sp_pending_headers s' = sp_pending_headers s /\ sp_stored_headers s' = sp_stored_headers s /\
  handed s' = handed s /\ forall T, waits_since T s -> waits_since T s'.

#[global] Instance same_headers_refl : Reflexive same_headers.
Proof. done. Qed.
#[global] Instance same_headers_trans : Transitive same_headers.
Proof. intros s1 s2 s3 (? & ? & ? & Hw1) (? & ? & ? & Hw2). repeat split; try congruence. intros T Ht. by apply Hw2, Hw1. Qed.

Lemma handed_record now h raw s : handed (record_header now h raw s) = handed s ++ [(h, raw)].
Proof. unfold handed. cbn. by rewrite app_assoc. Qed.

(** Raw bytes among which the hash has no collisions. *)
Context (U : bytes -> Prop)
  (Hinj : forall d1 d2, U d1 -> U d2 -> blake2b256 d1 = blake2b256 d2 -> d1 = d2).

Definition received h raw : Prop := U raw /\ parse_received_header raw = Some h.

Lemma received_id h raw : received h raw -> h_id h = blake2b256 raw.
Proof.
  intros [_ Hp]. unfold parse_received_header, compute_sync_header_id in Hp.
  destruct (scorex_parse_bytes raw) as [h0|]; [|done]. cbn in Hp. injection Hp as <-.
  case_decide as Hd; [done|]. destruct (decide (h_id h0 = blake2b256 raw)); [done|]. by destruct Hd.
Qed.

Lemma received_inj h1 r1 h2 r2 :
  received h1 r1 -> received h2 r2 -> h_id h1 = h_id h2 -> h1 = h2 /\ r1 = r2.
Proof.
  intros Hr1 Hr2 Hid. rewrite (received_id _ _ Hr1), (received_id _ _ Hr2) in Hid.
  apply Hinj in Hid; [|apply Hr1|apply Hr2]. subst r2. destruct Hr1 as [_ Hp1], Hr2 as [_ Hp2].
  split; [congruence|done].
Qed.

Definition waits_ok id ph : Prop :=
  received (ph_header ph) (ph_raw_bytes ph) /\ id = h_id (ph_header ph) /\
  ph_parent_id ph = h_parent_id (ph_header ph).

(** The cache of stored headers, from its contents at the start. *)
Definition known (c0 : C) (l : list (Header * bytes)) id : Prop :=
  lru_contains c0 id = true \/ id ∈ ids_of l.

Lemma fold_put_known (c0 : C) l k :
  lru_contains (fold_left lru_put l c0) k = true -> lru_contains c0 k = true \/ k ∈ l.
Proof.
  revert c0. induction l as [|x l IH]; intros c0; cbn; [by left|].
  intros [[->|?]%lru_put_only|?]%IH; [right; apply list_elem_of_here|by left|].
  right. by apply list_elem_of_further.
Qed.

(** Every header handed over was received, after its parent, and was put into
    the cache of stored headers when it was. *)
Record hs_inv (c0 : C) s : Prop := {
  hi_map : pm_ok (sp_pending_headers s);
  hi_waits id ph : waiting_of s !! id = Some ph -> waits_ok id ph;
  hi_order l1 h raw l2 : handed s = l1 ++ (h, raw) :: l2 ->
    received h raw /\ known c0 l1 (h_parent_id h);
  hi_cache : sp_stored_headers s = fold_left lru_put (ids_of (handed s)) c0
}.

(** The waiting headers whose parent is in the cache are among [V]. *)
Definition closed_but (V : list bytes) s : Prop :=
  forall id ph, waiting_of s !! id = Some ph ->
    lru_contains (sp_stored_headers s) (ph_parent_id ph) = true -> id ∈ V.

Lemma hs_inv_same c0 s s' : same_headers s s' -> hs_inv c0 s -> hs_inv c0 s'.
Proof. intros (E1 & E2 & E3 & _) [? ? ? ?]. constructor; rewrite ?E1, ?E2, ?E3; done. Qed.

Lemma closed_same V s s' : same_headers s s' -> closed_but V s -> closed_but V s'.
Proof. intros (E1 & E2 & E3 & _) Hc. unfold closed_but. by rewrite E1, E2. Qed.

(** A list that is one element longer, split around an element. *)
Lemma snoc_split {A} (l : list A) x l1 y l2 :
  l ++ [x] = l1 ++ y :: l2 -> (l2 = [] /\ l = l1 /\ x = y) \/ exists l2', l = l1 ++ y :: l2'.
Proof.
  destruct l2 as [|z l2 _] using rev_ind; intros He.
  - apply app_inj_tail in He as [-> ->]. auto.
  - rewrite app_comm_cons, app_assoc in He. apply app_inj_tail in He as [-> _]. eauto.
Qed.

Lemma inv_record c0 now h raw s :
  hs_inv c0 s -> received h raw -> known c0 (handed s) (h_parent_id h) ->
  hs_inv c0 (record_header now h raw s).
Proof.
  intros [Hm Hw Ho Hc] Hr Hp. constructor; [done|done| |].
  - intros l1 h' raw' l2. rewrite handed_record. intros [(-> & <- & [= -> ->])|[l2' He]]%snoc_split.
    + done.
    + by eapply Ho.
  - rewrite handed_record, ids_app, fold_left_app, <- Hc. done.
Qed.

Lemma closed_record c0 V now h raw s :
  hs_inv c0 s -> closed_but V s ->
  closed_but ((get_by_parent children_iter (h_id h) (sp_pending_headers s)).*1 ++ V)
    (record_header now h raw s).
Proof.
  intros Hi Hc id ph Hid [Heq|Hin]%lru_put_only; apply elem_of_app; [left|right; by eapply Hc].
  apply list_elem_of_fmap. exists (id, ph). split; [done|].
  apply get_by_parent_spec; [apply children_iter_perm|apply (hi_map _ _ Hi)|]. by split.
Qed.

Lemma inv_drop c0 id s :
  hs_inv c0 s ->
  hs_inv c0 (put_pending_headers (pending_remove id (sp_pending_headers s)).2 s).
Proof.
  intros [Hm Hw Ho Hc]. constructor; [by apply pm_remove| |done|done].
  intros id' ph. cbn. rewrite pending_remove_by_id. intros [_ ?]%lookup_delete_Some. by apply Hw.
Qed.

Lemma closed_drop V id s :
  closed_but (id :: V) s ->
  closed_but V (put_pending_headers (pending_remove id (sp_pending_headers s)).2 s).
Proof.
  intros Hc id' ph. cbn. rewrite pending_remove_by_id. intros [Hn Hl]%lookup_delete_Some Hs.
  specialize (Hc id' ph Hl Hs). set_solver.
Qed.

(** ** One identifier is handed over once

    As long as the cache has not forgotten a header, no header is both waiting
    and handed over. *)
Definition uniq s : Prop :=
  NoDup (ids_of (handed s)) /\ forall id ph, waiting_of s !! id = Some ph -> id ∉ ids_of (handed s).

(** What storing headers does to the rest of the state: more is handed over, and
    a header that no longer waits was. *)
Record advances s s' : Prop := {
  ad_handed : exists new, handed s' = handed s ++ new;
  ad_sub : waiting_of s' ⊆ waiting_of s;
  ad_kept id ph : waiting_of s !! id = Some ph ->
    waiting_of s' !! id = Some ph \/ id ∈ ids_of (handed s')
}.

Lemma ad_ids s s' id : advances s s' -> id ∈ ids_of (handed s) -> id ∈ ids_of (handed s').
Proof. intros [[new ->] _ _]. rewrite ids_app. set_solver. Qed.

#[global] Instance advances_trans : Transitive advances.
Proof.
  intros s s1 s2 A1 A2. constructor.
  - destruct (ad_handed _ _ A1) as [n1 E1], (ad_handed _ _ A2) as [n2 E2].
    exists (n1 ++ n2). by rewrite E2, E1, app_assoc.
  - etrans; [apply (ad_sub _ _ A2)|apply (ad_sub _ _ A1)].
  - intros id ph Hid. destruct (ad_kept _ _ A1 id ph Hid) as [?|Hin]; [by eapply ad_kept|].
    right. by eapply ad_ids.
Qed.

Lemma advances_same s s' : same_headers s s' -> advances s s'.
Proof.
  intros (E1 & _ & E3 & _). constructor; rewrite ?E1, ?E3; auto. exists []. by rewrite app_nil_r.
Qed.

(** Only children of headers that had not been handed over leave, apart from
    those listed. *)
Definition uniq_post (listed : list bytes) s s' : Prop :=
  uniq s' /\ forall id ph, waiting_of s !! id = Some ph -> waiting_of s' !! id = None ->
    id ∈ listed \/ ph_parent_id ph ∉ ids_of (handed s).

(** The storage takes every command and confirms every batch. *)
Definition answers : Prop :=
  (forall l c, env_takes l c = true) /\ (forall l, env_reply l = Stored).
Context (Hans : answers).

Lemma flush_same now s : exists s', flush_if_needed now s = (Ok tt, s') /\ same_headers s s'.
Proof.
  rewrite flush_eq. destruct (should_flush_headers now s); [|by exists s].
  destruct Hans as [Htakes Hreply]. rewrite Htakes, Hreply. exists (batch_sent s).
  split; [done|]. do 2 (split; [done|]). split; [|intros T _; by left].
  unfold handed. cbn. rewrite batches_app. cbn. by rewrite !app_nil_r.
Qed.

(** The contract of [store_header_and_descendants] on states with fewer than
    [bound] waiting headers. *)
Definition store_spec (c0 : C) (bound : nat) (store : Header -> bytes -> M C unit) : Prop :=
  forall V h raw s,
    hs_inv c0 s -> closed_but V s -> received h raw ->
    known c0 (handed s) (h_parent_id h) -> (size (waiting_of s) < bound)%nat ->
    exists s', store h raw s = (Ok tt, s') /\
      hs_inv c0 s' /\ closed_but V s' /\ advances s s' /\ h_id h ∈ ids_of (handed s') /\
      (uniq s -> waiting_of s !! h_id h = None -> h_id h ∉ ids_of (handed s) -> uniq_post [] s s').

Definition apply_one (store : Header -> bytes -> M C unit) (x : bytes * PendingHeader) : M C unit :=
  let '(id, ph) := x in
  modify (fun s => put_pending_headers (pending_remove id (sp_pending_headers s)).2 s) ;;
  store (ph_header ph) (ph_raw_bytes ph).

Definition dropped id s : proto :=
  put_pending_headers (pending_remove id (sp_pending_headers s)).2 s.

Lemma waiting_dropped id s : waiting_of (dropped id s) = delete id (waiting_of s).
Proof. apply pending_remove_by_id. Qed.

(** One waiting header is removed and stored. *)
Lemma apply_one_ok (c0 : C) (bound : nat) (store : Header -> bytes -> M C unit) id ph (V : list bytes) s (S0 : gmap bytes PendingHeader) :
  store_spec c0 bound store -> hs_inv c0 s -> closed_but (id :: V) s ->
  waiting_of s ⊆ S0 -> (size S0 <= bound)%nat -> is_Some (S0 !! id) -> waits_ok id ph ->
  ph_parent_id ph ∈ ids_of (handed s) ->
  exists s', apply_one store (id, ph) s = (Ok tt, s') /\
    hs_inv c0 s' /\ closed_but V s' /\ advances s s' /\
    (uniq s -> waiting_of s !! id = Some ph -> uniq_post [id] s s').
Proof.
  intros Hst Hi Hc Hs0 Hb Hin (Hr & -> & Hpar) Hp. unfold apply_one. rewrite bind_eq. cbn [modify].
  fold (dropped (h_id (ph_header ph)) s). set (id := h_id (ph_header ph)) in *.
  assert (handed (dropped id s) = handed s) as Eh by done.
  destruct (Hst V (ph_header ph) (ph_raw_bytes ph) (dropped id s))
    as (s2 & E2 & Hi2 & Hc2 & A2 & Hid2 & Hu2).
  - by apply inv_drop.
  - by apply closed_drop.
  - done.
  - right. by rewrite <- Hpar, Eh.
  - rewrite waiting_dropped. by eapply size_delete_lt.
  - exists s2. do 3 (split; [done|]). split.
    + constructor.
      * exact (ad_handed _ _ A2).
      * etrans; [apply (ad_sub _ _ A2)|]. rewrite waiting_dropped. apply delete_subseteq.
      * intros id' ph' Hid'. destruct (decide (id' = id)) as [->|Hne]; [by right|].
        apply (ad_kept _ _ A2). by rewrite waiting_dropped, lookup_delete_ne.
    + intros [Hnd Hdis] Hw. destruct Hu2 as [Hu2 Hrm].
      * split; [done|]. intros id' ph'. rewrite waiting_dropped. intros [_ ?]%lookup_delete_Some.
        by eapply Hdis.
      * by rewrite waiting_dropped, lookup_delete_eq.
      * rewrite Eh. by eapply Hdis.
      * split; [done|]. intros id' ph' Hid' Hnone.
        destruct (decide (id' = id)) as [->|Hne]; [left; set_solver|right].
        destruct (Hrm id' ph') as [Habs|Hpar']; [by rewrite waiting_dropped, lookup_delete_ne|done| |done].
        by apply not_elem_of_nil in Habs.
Qed.

(** Membership in lists by their constructors. *)
Ltac mem := solve [apply list_elem_of_here | apply list_elem_of_further; assumption
  | rewrite ?elem_of_app, ?elem_of_cons, ?list_elem_of_singleton in *; tauto].

Lemma for_each_cons {A} (f : A -> M C unit) x l s s1 :
  f x s = (Ok tt, s1) -> for_each f (x :: l) s = for_each f l s1.
Proof. intros E. cbn [for_each]. by rewrite bind_eq, E. Qed.

Lemma apply_all_ok (c0 : C) (bound : nat) (store : Header -> bytes -> M C unit) (V : list bytes)
    (S0 : gmap bytes PendingHeader) (ws : list (bytes * PendingHeader)) s :
  store_spec c0 bound store -> hs_inv c0 s -> closed_but (ws.*1 ++ V) s ->
  waiting_of s ⊆ S0 -> (size S0 <= bound)%nat ->
  (forall id ph, (id, ph) ∈ ws ->
     is_Some (S0 !! id) /\ waits_ok id ph /\ ph_parent_id ph ∈ ids_of (handed s)) ->
  exists s', for_each (apply_one store) ws s = (Ok tt, s') /\
    hs_inv c0 s' /\ closed_but V s' /\ advances s s' /\
    (uniq s -> NoDup (ws.*1) -> (forall id ph, (id, ph) ∈ ws -> waiting_of s !! id = Some ph) ->
     uniq_post (ws.*1) s s').
Proof.
  intros Hst. revert s. induction ws as [|[id ph] ws IH]; intros s Hi Hc Hs0 Hb Hws.
  - exists s. split; [done|]. split; [done|]. split; [done|]. split; [by apply advances_same|].
    intros Hu _ _. split; [done|]. intros. simplify_eq.
  - destruct (Hws id ph ltac:(mem)) as (Hin & Hok & Hp).
    destruct (apply_one_ok c0 bound store id ph (ws.*1 ++ V) s S0)
      as (s1 & E1 & Hi1 & Hc1 & A1 & Hu1); try done.
    destruct (IH s1) as (s2 & E2 & Hi2 & Hc2 & A2 & Hu2); try done.
    + etrans; [apply (ad_sub _ _ A1)|done].
    + intros id' ph' Hin'. destruct (Hws id' ph' ltac:(mem)) as (? & ? & ?).
      split; [done|]. split; [done|]. by eapply ad_ids.
    + exists s2. rewrite (for_each_cons _ _ _ _ _ E1). do 3 (split; [done|]).
      split; [by etrans|]. intros Hu [Hnid Hnd]%NoDup_cons Hall.
      destruct (Hu1 Hu (Hall id ph ltac:(mem))) as [Hus1 Hrm1].
      destruct (Hu2 Hus1 Hnd) as [Hus2 Hrm2].
      * intros id' ph' Hin'. pose proof (Hall id' ph' ltac:(mem)) as Hid'.
        destruct (Hws id' ph' ltac:(mem)) as (_ & _ & Hp').
        assert (id' <> id) as Hne by (intros ->; apply Hnid, (list_elem_of_fmap_2 fst _ _ Hin')).
        destruct (waiting_of s1 !! id') as [ph''|] eqn:Ew.
        -- pose proof (lookup_weaken _ _ _ _ Ew (ad_sub _ _ A1)) as Ew'. congruence.
        -- destruct (Hrm1 id' ph' Hid' Ew) as [->%list_elem_of_singleton|]; done.
      * split; [done|]. intros id' ph' Hid' Hnone.
        destruct (waiting_of s1 !! id') as [ph''|] eqn:Ew.
        -- pose proof (lookup_weaken _ _ _ _ Ew (ad_sub _ _ A1)) as Ew'.
           destruct (Hrm2 id' ph'' Ew Hnone) as [?|Hn]; [left; mem|right].
           intros Hin'. apply Hn. replace ph'' with ph' by congruence. by eapply ad_ids.
        -- destruct (Hrm1 id' ph' Hid' Ew) as [->%list_elem_of_singleton|]; [left; mem|by right].
Qed.

Lemma store_ok c0 fuel now : store_spec c0 fuel (store_header_and_descendants fuel now).
Proof.
  induction fuel as [|fuel IH]; intros V h raw s Hi Hc Hr Hp Hlt; [lia|].
  set (s1 := record_header now h raw s).
  set (ws := get_by_parent children_iter (h_id h) (sp_pending_headers s)).
  assert (ids_of (handed s1) = ids_of (handed s) ++ [h_id h]) as Eids.
  { unfold s1. by rewrite handed_record, ids_app. }
  assert (forall id ph, (id, ph) ∈ ws <-> waiting_of s !! id = Some ph /\ ph_parent_id ph = h_id h) as Hws.
  { intros id ph. apply get_by_parent_spec; [apply children_iter_perm|apply (hi_map _ _ Hi)]. }
  destruct (apply_all_ok c0 fuel (store_header_and_descendants fuel now) V (waiting_of s) ws s1)
    as (s2 & E2 & Hi2 & Hc2 & A2 & Hu2); try done.
  - by apply inv_record.
  - by eapply closed_record.
  - lia.
  - intros id ph [Hw Hpar]%Hws. split; [eauto|]. split; [by apply (hi_waits _ _ Hi)|].
    rewrite Hpar, Eids. mem.
  - destruct (flush_same now s2) as (s3 & E3 & S3).
    assert (advances s s3) as A3.
    { etrans; [|apply (advances_same _ _ S3)]. constructor; try apply A2.
      - destruct (ad_handed _ _ A2) as [new E]. rewrite E. unfold s1. rewrite handed_record.
        rewrite <- app_assoc. by eexists. }
    exists s3. split; [|split; [|split; [|split; [|split]]]]; try done.
    + cbn [store_header_and_descendants]. rewrite bind_eq. cbn [modify]. fold s1. rewrite bind_eq.
      unfold try_apply_pending_headers. rewrite bind_eq. cbn [get_proto].
      change (get_by_parent children_iter (h_id h) (sp_pending_headers s1)) with ws.
      change (for_each _ ws s1) with (for_each (apply_one (store_header_and_descendants fuel now)) ws s1).
      by rewrite E2.
    + by eapply hs_inv_same.
    + by eapply closed_same.
    + destruct S3 as (_ & _ & -> & _). eapply (ad_ids _ _ _ A2). rewrite Eids. mem.
    + intros [Hnd Hdis] Hnone Hnew. destruct S3 as (Ep & _ & Eh & _).
      destruct Hu2 as [[Hnd2 Hdis2] Hrm].
      * split; [rewrite Eids; apply NoDup_app; split_and!; [done|intros ? ? ->%list_elem_of_singleton; done|apply NoDup_singleton]|].
        intros id ph Hid. rewrite Eids.
        change (waiting_of s1) with (waiting_of s) in Hid. specialize (Hdis id ph Hid).
        assert (id <> h_id h) by (intros ->; congruence). rewrite elem_of_app, list_elem_of_singleton. tauto.
      * apply get_by_parent_nodup, children_iter_perm.
      * intros id ph Hin. by apply Hws in Hin as [? _].
      * split; [split; [by rewrite Eh|intros id ph; rewrite Ep, Eh; apply Hdis2]|].
        intros id ph Hid. rewrite Ep. intros Hn. right.
        destruct (Hrm id ph Hid Hn) as [Hin|Hin]; [|contradict Hin; rewrite Eids; mem].
        apply list_elem_of_fmap in Hin as ([id' ph'] & -> & Hin). apply Hws in Hin as [Hw Hpar].
        cbn in *. assert (ph' = ph) as -> by congruence. by rewrite Hpar.
Qed.
End HeaderSync.
