(* ===== verification/HeaderOrder.v ===== *)
(** * Headers over whole runs of the protocol

    Every handler but the one of headers leaves alone what [HeaderSync] speaks
    about; so in runs with a storage that answers, headers are handed over
    parents first, and a chain of headers is handed over in order whatever the
    order in which it arrives. *)

From S2P Require Export HeaderSync.

Local Open Scope Z_scope.

Section HeaderOrder.
Context {ErgoBox Ext Tx : Type} `{ErgoBoxOps ErgoBox} `{TransactionOps ErgoBox Ext Tx}
  `{ChainTypes} `{!HeaderCodec} `{Blake2b256} {C : Type} `{LruLaws C} `{!LruLen C}
  `{MapOrdersLaws} `{!SyncEnv} `{SectionLib}.

Abbreviation proto := (SyncProtocol C).
Implicit Types (s : proto) (h : Header) (raw id : bytes).
Context (Hans : answers).

(** ** The other handlers *)

Section Frame.

Lemma same_step s0 s s' : same_headers s0 s -> same_headers s s' -> same_headers s0 s'.
Proof. intros. by etrans. Qed.

Lemma same_send s0 s cmd :
  batches [cmd] = [] -> same_headers s0 s -> same_headers s0 (put_sent (sp_sent s ++ [cmd]) s).
Proof.
  intros Hc Hs. eapply same_step; [exact Hs|]. do 2 (split; [done|]). split; [|done].
  change (batches (sp_sent s ++ [cmd]) ++ sp_pending_header_writes s = handed s).
  rewrite batches_app. by rewrite Hc, app_nil_r.
Qed.

Ltac same := first [ eapply same_send; [reflexivity|assumption]
                   | eapply same_step; [eassumption|solve [repeat split; done]] ].

Context (s0 : proto).
Abbreviation P := (same_headers s0).

Lemma same_fold {A} (f : proto -> A -> proto) l s :
  (forall s x, same_headers s (f s x)) -> P s -> P (fold_left f l s).
Proof. intros Hf. apply preserves_fold. intros. by eapply same_step. Qed.

Lemma same_connected now peer : preserves P (on_peer_connected now peer).
Proof. unfold on_peer_connected. preserve; same. Qed.

Lemma same_disconnected peer s : P s -> P (on_peer_disconnected peer s).
Proof. intros Hs. unfold on_peer_disconnected. apply same_fold; [done|]. same. Qed.

Lemma same_sync_info now peer info : preserves P (on_sync_info now peer info).
Proof. unfold on_sync_info. preserve; same. Qed.

Lemma same_inv now peer inv : preserves P (on_inv now peer inv).
Proof. unfold on_inv. preserve; same. Qed.

Lemma same_block id data : preserves P (on_block_received id data).
Proof. unfold on_block_received. preserve; same. Qed.

Lemma same_extension id data : preserves P (on_extension_received id data).
Proof. unfold on_extension_received. preserve; same. Qed.

Lemma same_transaction peer id data : preserves P (on_transaction_received peer id data).
Proof. unfold on_transaction_received. preserve; same. Qed.

Lemma same_applied id height s : P s -> P (on_block_applied id height s).
Proof. intros Hs. unfold on_block_applied. destruct (get_tx_id _ _); same. Qed.

Lemma same_failed id s : P s -> P (on_block_failed id s).
Proof. intros Hs. unfold on_block_failed. cbn. destruct (get_tx_id _ _); same. Qed.

Lemma same_dispatch now : preserves P (dispatch_downloads now).
Proof.
  unfold dispatch_downloads, dispatch_to_peer. preserve; try same.
  unfold clear_stuck. by apply same_fold.
Qed.

Lemma same_request_blocks now headers : preserves P (on_request_blocks now headers).
Proof.
  unfold on_request_blocks. preserve; try apply same_dispatch; try same.
  apply same_fold; [|done]. intros ? ?. by case_decide.
Qed.

Lemma same_queue_blocks s : P s -> P (queue_block_downloads s).
Proof. intros Hs. unfold queue_block_downloads. repeat case_match; same. Qed.

Lemma same_fail_timed_out now s : P s -> P (fail_timed_out now s).
Proof.
  intros Hs. unfold fail_timed_out. apply same_fold; [intros; by case_match|].
  apply same_fold; [|done]. by intros ? [].
Qed.

Lemma same_requeue now s : P s -> P (requeue_timed_out_headers now s).
Proof. intros Hs. unfold requeue_timed_out_headers. by apply same_fold. Qed.

Lemma same_flush now : preserves P (flush_if_needed now).
Proof.
  intros s Hs. destruct (flush_same Hans now s) as (s' & -> & Hs'). by eapply same_step.
Qed.

Lemma same_periodic now : preserves P (send_periodic_sync_info now).
Proof. unfold send_periodic_sync_info. preserve; same. Qed.

Lemma same_pending_inv now peer : preserves P (request_pending_inv now peer).
Proof. unfold request_pending_inv. preserve; same. Qed.
End Frame.

(** ** The handler of headers *)

Context (U : bytes -> Prop)
  (Hinj : forall d1 d2, U d1 -> U d2 -> blake2b256 d1 = blake2b256 d2 -> d1 = d2).

Abbreviation waiting_of s := (by_id (sp_pending_headers s)).

Definition hs_closed (c0 : C) s : Prop := hs_inv U c0 s /\ closed_but [] s.

Lemma hs_closed_same c0 s s' : same_headers s s' -> hs_closed c0 s -> hs_closed c0 s'.
Proof. intros Hs [? ?]. split; [by eapply hs_inv_same|by eapply closed_same]. Qed.

Lemma hs_closed_clear c0 s : hs_closed c0 s -> hs_closed c0 (clear_stuck_headers s).
Proof.
  intros [Hi Hc]. unfold clear_stuck_headers. destruct (_ && _); [|done].
  destruct (hc_headers _); [|done]. split.
  - constructor; [apply pm_new| |apply Hi|apply Hi]. intros id ph Hp. cbn in Hp. by rewrite lookup_empty in Hp.
  - intros id ph Hp. cbn in Hp. by rewrite lookup_empty in Hp.
Qed.

Lemma cache_known c0 s k :
  hs_inv U c0 s -> lru_contains (sp_stored_headers s) k = true -> known c0 (handed s) k.
Proof. intros Hi Hk. rewrite (hi_cache _ _ _ Hi) in Hk. by apply fold_put_known. Qed.

(** A header whose parent is not in the cache waits for it. *)
Definition buffered (data : bytes) h s : proto :=
  put_pending_headers (pending_insert (h_id h) (mkPendingHeader h data (h_parent_id h))
    MAX_PENDING_HEADERS (sp_pending_headers s)).2 s.

Lemma waits_new h data : received U h data -> waits_ok U (h_id h) (mkPendingHeader h data (h_parent_id h)).
Proof. done. Qed.

Lemma buffered_ok c0 data h s :
  received U h data -> lru_contains (sp_stored_headers s) (h_parent_id h) = false ->
  hs_closed c0 s -> hs_closed c0 (buffered data h s).
Proof.
  intros Hr Hn [Hi Hc].
  assert (forall id ph, waiting_of (buffered data h s) !! id = Some ph ->
    (id = h_id h /\ ph = mkPendingHeader h data (h_parent_id h)) \/ waiting_of s !! id = Some ph) as Hl.
  { intros id ph. unfold buffered. cbn. rewrite pending_insert_eq. cbn.
    intros [[<- <-]|[_ He]]%lookup_insert_Some; [by left|right]. by eapply evicted_by_id. }
  split; [constructor|].
  - apply pm_insert; [apply Hi|]. intros old Ho. destruct (hi_waits _ _ _ Hi _ _ Ho) as (Hr' & Hid & Hp).
    destruct (received_inj U Hinj _ _ _ _ Hr' Hr) as [Eh _]; [done|].
    unfold ph_height. cbn. rewrite Hp. by rewrite Eh.
  - intros id ph [[-> ->]|Hw]%Hl; [by apply waits_new|by eapply hi_waits].
  - apply Hi.
  - apply Hi.
  - intros id ph [[-> ->]|Hw]%Hl Hs; [cbn in Hs; congruence|by eapply Hc].
Qed.

(** The three outcomes of a header that parses. *)
Lemma on_header_eq now id data s :
  on_header_received now id data s =
  let s := put_in_flight_headers (delete id (sp_in_flight_headers s)) s in
  match parse_received_header data with
  | None => (Err (SE_InvalidData "Failed to parse header"), s)
  | Some h =>
      if lru_contains (sp_stored_headers s) (compute_sync_header_id data) then (Ok tt, s)
      else if lru_contains (sp_stored_headers s) (h_parent_id h) then
        store_header_and_descendants (store_fuel s) now h data s
      else (Ok tt, put_pending_headers (pending_insert (compute_sync_header_id data)
              (mkPendingHeader h data (h_parent_id h)) MAX_PENDING_HEADERS (sp_pending_headers s)).2 s)
  end.
Proof.
  unfold on_header_received. rewrite bind_eq. cbn [modify].
  destruct (parse_received_header data) as [h|]; [|done]. rewrite bind_eq. cbn [get_proto].
  destruct (lru_contains _ (compute_sync_header_id data)); [done|].
  by destruct (lru_contains _ (h_parent_id h)).
Qed.

Lemma on_header_ok c0 now id data s :
  U data -> hs_closed c0 s -> hs_closed c0 (on_header_received now id data s).2.
Proof.
  intros Hu Hi. rewrite on_header_eq.
  set (s1 := put_in_flight_headers (delete id (sp_in_flight_headers s)) s).
  apply (hs_closed_same c0 s s1) in Hi; [|done]. clearbody s1. cbn zeta.
  destruct (parse_received_header data) as [h|] eqn:Ep; [|done].
  assert (received U h data) as Hr by done.
  rewrite <- (received_id U h data Hr : _ = compute_sync_header_id data).
  destruct (lru_contains (sp_stored_headers s1) (h_id h)); [done|].
  destruct (lru_contains (sp_stored_headers s1) (h_parent_id h)) eqn:Epar; [|by apply buffered_ok].
  destruct Hi as [Hi Hc].
  destruct (store_ok U Hinj Hans c0 (store_fuel s1) now [] h data s1) as (s2 & -> & Hi2 & Hc2 & _); try done.
  - by apply cache_known.
  - unfold store_fuel. lia.
Qed.

(** ** Runs of events *)

(** The header modifiers of an event satisfy [D]. *)
Definition delivers (D : bytes -> Prop) (e : SyncEvent) : Prop :=
  match e with
  | SV_ModifierReceived _ ty _ data => from_byte ty = Some MT_Header -> D data
  | _ => True
  end.

(** A tick is a flush and the rest, which leaves the headers alone. *)
Definition tick_rest now : M C unit :=
  modify (fail_timed_out now) ;;
  modify (requeue_timed_out_headers now) ;;
  modify queue_block_downloads ;;
  dispatch_downloads now ;;
  request_more_headers_if_needed now.

Lemma on_tick_eq now : on_tick now = (flush_if_needed now ;; tick_rest now).
Proof. reflexivity. Qed.

Lemma tick_rest_inv (Q : proto -> Prop) now :
  (forall s s', same_headers s s' -> Q s -> Q s') ->
  (forall s, Q s -> Q (clear_stuck_headers s)) -> preserves Q (tick_rest now).
Proof.
  intros Hsame Hclear. unfold tick_rest.
  assert (forall A (m : M C A), (forall s0, preserves (same_headers s0) m) -> preserves Q m) as Hfr.
  { intros A m Hm s' Hs'. eapply Hsame; [|exact Hs']. by apply Hm. }
  apply preserves_bind; [apply preserves_modify; intros s Hs; eapply Hsame; [|exact Hs];
    by apply same_fail_timed_out|intros _].
  apply preserves_bind; [apply preserves_modify; intros s Hs; eapply Hsame; [|exact Hs];
    by apply same_requeue|intros _].
  apply preserves_bind; [apply preserves_modify; intros s Hs; eapply Hsame; [|exact Hs];
    by apply same_queue_blocks|intros _].
  apply preserves_bind; [apply Hfr; intros; apply same_dispatch|intros _].
  unfold request_more_headers_if_needed. apply preserves_bind; [apply preserves_get|intros s].
  destruct (_ <? _)%nat; [apply preserves_ret|].
  apply preserves_bind; [by apply preserves_modify|intros _].
  destruct (sp_pending_header_inv s); [apply Hfr; intros; apply same_periodic|].
  destruct (find_peer_for_request now s); [apply Hfr; intros; apply same_pending_inv|].
  apply preserves_ret.
Qed.

Lemma handle_event_inv (Q : proto -> Prop) (D : bytes -> Prop) now e s :
  (forall s s', same_headers s s' -> Q s -> Q s') ->
  (forall s, Q s -> Q (clear_stuck_headers s)) ->
  (forall id data s, D data -> Q s -> Q (on_header_received now id data s).2) ->
  delivers D e -> Q s -> Q (handle_event now e s).2.
Proof.
  intros Hsame Hclear Hhdr He Hq.
  assert (forall A (m : M C A), (forall s0, preserves (same_headers s0) m) -> preserves Q m) as Hfr.
  { intros A m Hm s' Hs'. eapply Hsame; [|exact Hs']. by apply Hm. }
  revert s Hq. change (preserves Q (handle_event now e)). destruct e; cbn [handle_event].
  - apply Hfr. intros. apply same_connected.
  - apply preserves_modify. intros s Hs. eapply Hsame; [|exact Hs]. by apply same_disconnected.
  - apply Hfr. intros. apply same_sync_info.
  - apply Hfr. intros. apply same_inv.
  - unfold on_modifier. apply preserves_bind; [apply preserves_modify; intros s; by apply Hsame|].
    intros _. cbn in He. destruct (from_byte type_id) as [[]|]; try apply preserves_ret.
    + apply Hfr. intros. apply same_transaction.
    + intros s Hs. apply Hhdr; auto.
    + apply Hfr. intros. apply same_block.
    + apply Hfr. intros. apply same_extension.
  - apply preserves_modify. intros s Hs. eapply Hsame; [|exact Hs]. by apply same_applied.
  - apply preserves_modify. intros s Hs. eapply Hsame; [|exact Hs]. by apply same_failed.
  - apply Hfr. intros. apply same_request_blocks.
  - rewrite on_tick_eq. apply preserves_bind; [apply Hfr; intros; by apply same_flush|intros _].
    by apply tick_rest_inv.
Qed.

(** ** The buffer of headers is flushed *)

Lemma waits_same T s s' : same_headers s s' -> waits_since T s -> waits_since T s'.
Proof. intros (_ & _ & _ & Hw). apply Hw. Qed.

Lemma waits_clear T s : waits_since T s -> waits_since T (clear_stuck_headers s).
Proof. intros Hw. unfold clear_stuck_headers. destruct (_ && _); [|done]. by destruct (hc_headers _). Qed.

Lemma waits_record (T : Z -> Prop) now h raw s :
  T now -> waits_since T s -> waits_since T (record_header now h raw s).
Proof.
  intros Hn Hw. right. unfold waits_since in *. cbn. destruct (sp_pending_header_writes s); [by exists now|].
  by destruct Hw as [?|Hw].
Qed.

Lemma waits_store (T : Z -> Prop) fuel now h raw :
  T now -> preserves (waits_since T) (store_header_and_descendants fuel now h raw).
Proof.
  intros Hn. revert h raw. induction fuel as [|fuel IH]; intros h raw; cbn [store_header_and_descendants];
    [apply preserves_throw|].
  apply preserves_bind; [apply preserves_modify; intros; by apply waits_record|intros _].
  apply preserves_bind.
  - unfold try_apply_pending_headers. apply preserves_bind; [apply preserves_get|intros s].
    apply preserves_for_each. intros [id ph] _.
    apply preserves_bind; [by apply preserves_modify|intros _; apply IH].
  - intros _ s Hs. destruct (flush_same Hans now s) as (s' & -> & Hs'). by eapply waits_same.
Qed.

Lemma waits_header (T : Z -> Prop) now id data s :
  T now -> waits_since T s -> waits_since T (on_header_received now id data s).2.
Proof.
  intros Hn Hw. rewrite on_header_eq. cbn zeta. destruct (parse_received_header data); [|done].
  destruct (lru_contains _ _); [done|]. destruct (lru_contains _ _); [|done].
  by apply (waits_store T _ now _ _ Hn).
Qed.

Lemma waits_run (T : Z -> Prop) events s :
  Forall (fun ev => T (ev.1)) events -> waits_since T s -> waits_since T (run_events events s).
Proof.
  intros HT. unfold run_events. revert s. induction HT as [|[now e] events Hn _ IH]; intros s Hs; [done|].
  cbn [fold_left]. apply IH. apply (handle_event_inv _ (fun _ => True)); [apply waits_same|apply waits_clear| | |done].
  - intros. by apply waits_header.
  - by destruct e.
Qed.

(** A tick after the timeout of every header in the buffer leaves it empty. *)
Lemma tick_flushes tick s :
  waits_since (fun t => elapsed tick t >= HEADER_BATCH_TIMEOUT_MS) s ->
  sp_pending_header_writes (handle_event tick SV_Tick s).2 = [].
Proof.
  intros Hw. cbn [handle_event]. rewrite on_tick_eq, bind_eq.
  destruct (flush_same Hans tick s) as (s' & Ef & _). rewrite Ef.
  assert (waits_since (fun _ => False) s') as Hs'.
  { left. rewrite flush_eq in Ef. unfold should_flush_headers in Ef.
    destruct Hans as [Htakes Hreply]. rewrite Htakes, Hreply in Ef.
    destruct (sp_pending_header_writes s) eqn:Ep; [by injection Ef as <-|].
    destruct Hw as [?|(t & Et & Ht)]; [congruence|]. rewrite Et in Ef.
    destruct (_ >=? HEADER_BATCH_SIZE); [by injection Ef as <-|].
    destruct (Z.geb_spec (elapsed tick t) HEADER_BATCH_TIMEOUT_MS); [by injection Ef as <-|lia]. }
  assert (waits_since (fun _ => False) (tick_rest tick s').2) as [?|(? & _ & [])]; [|done].
  revert s' Ef Hs'. intros s' _. apply tick_rest_inv; [apply waits_same|apply waits_clear].
Qed.

(** ** Whole runs *)

Lemma run_events_inv (Q : proto -> Prop) (D : bytes -> Prop) events s :
  (forall now e s, delivers D e -> Q s -> Q (handle_event now e s).2) ->
  Forall (fun e => delivers D (e.2)) events -> Q s -> Q (run_events events s).
Proof.
  intros Hq He. unfold run_events. revert s.
  induction He as [|[now e] events He _ IH]; intros s Hs; cbn [fold_left]; [done|].
  apply IH, Hq; done.
Qed.
End HeaderOrder.
