(* ===== verification/SyncRuns.v ===== *)
(** * Runs of the synchronisation protocol: headers

    The theorems on [HeaderOrder]'s runs: headers reach the storage parents
    first, a chain is handed over in order whatever the order of arrival, and
    what happens to headers when a batch is not stored. *)

From S2P Require Export HeaderOrder.

Local Open Scope Z_scope.

Section Runs.
Context {ErgoBox Ext Tx : Type} `{ErgoBoxOps ErgoBox} `{TransactionOps ErgoBox Ext Tx}
  `{ChainTypes} `{!HeaderCodec} `{Blake2b256} {C : Type} `{LruLaws C} `{!LruLen C}
  `{MapOrdersLaws} `{!SyncEnv} `{SectionLib}.

Abbreviation proto := (SyncProtocol C).
Implicit Types (s : proto) (h : Header) (raw id : bytes).
Abbreviation waiting_of s := (by_id (sp_pending_headers s)).

(** The header modifiers among the events. *)
Definition deliveries (events : list (Z * SyncEvent)) : list bytes :=
  omap (fun '(_, e) =>
    match e with
    | SV_ModifierReceived _ ty _ data =>
        if decide (from_byte ty = Some MT_Header) then Some data else None
    | _ => None
    end) events.

Lemma deliveries_delivers (D : bytes -> Prop) events :
  (forall data, data ∈ deliveries events -> D data) ->
  Forall (fun e => delivers D (e.2)) events.
Proof.
  intros Hd. apply Forall_forall. intros [now e] Hin. destruct e; cbn; try done.
  intros Hty. apply Hd. apply list_elem_of_omap. eexists. split; [exact Hin|]. cbn.
  by rewrite decide_True.
Qed.

Lemma ids_in (x : Header * bytes) l : x ∈ l -> h_id (x.1) ∈ ids_of l.
Proof. intros Hx. by apply (list_elem_of_fmap_2 (fun x : Header * bytes => h_id (x.1))). Qed.

(** ** The start *)

Lemma start_inv U (config : SyncConfig) :
  hs_closed U (sp_stored_headers (SyncProtocol_new config : proto)) (SyncProtocol_new config).
Proof.
  split.
  - constructor; [apply pm_new| | |done].
    + intros id ph Hp. cbn in Hp. by rewrite lookup_empty in Hp.
    + intros l1 h raw l2 Hh. cbn in Hh. by destruct l1.
  - intros id ph Hp. cbn in Hp. by rewrite lookup_empty in Hp.
Qed.

Lemma init_inv U ids locators v2 s :
  handed s = [] -> waiting_of s = ∅ -> sp_pending_headers s = PendingHeadersMap_new ->
  let s' := init_from_stored_headers ids locators v2 s in
  hs_closed U (sp_stored_headers s') s' /\
  (forall k, lru_contains (sp_stored_headers s') k = true ->
     lru_contains (sp_stored_headers s) k = true \/ k ∈ ids).
Proof.
  intros Hh Hw Hp s'.
  assert (handed s' = [] /\ sp_pending_headers s' = PendingHeadersMap_new) as [Hh' Hp'].
  { unfold s', init_from_stored_headers. destruct ids; [done|]. by destruct v2. }
  split; [split|].
  - constructor; rewrite ?Hp', ?Hh'; [apply pm_new| | |done].
    + intros id ph He. cbn in He. by rewrite lookup_empty in He.
    + intros l1 h raw l2 He. by destruct l1.
  - intros id ph. rewrite Hp'. cbn. by rewrite lookup_empty.
  - unfold s', init_from_stored_headers. intros k. destruct ids as [|i ids]; [by left|].
    assert (forall s, lru_contains (sp_stored_headers
      (match v2 with [] => s | _ => put_v2_sync_headers v2 s end)) k =
      lru_contains (sp_stored_headers s) k) as E by by destruct v2.
    rewrite E. intros [?|Hk]%fold_put_known; [by left|right].
    apply (elem_of_sublist _ _ _ Hk), sublist_drop.
Qed.

(** ** Caches that forget nothing *)

Context `{!LruRetention C}.

Lemma fold_put_keeps (c : C) l k :
  lru_len c + Z.of_nat (length l) <= lru_cap c ->
  lru_contains c k = true \/ k ∈ l -> lru_contains (fold_left lru_put l c) k = true.
Proof.
  revert c. induction l as [|x l IH]; intros c Hle Hk; cbn [fold_left length] in *.
  - destruct Hk as [?|Hk]; [done|]. by apply not_elem_of_nil in Hk.
  - apply IH.
    + rewrite lru_cap_put. pose proof (lru_len_put c x). lia.
    + destruct Hk as [Hk|[->|Hk]%elem_of_cons]; [|left; apply lru_contains_put|by right].
      left. apply lru_put_keeps; [lia|done].
Qed.

(** ** A chain, arriving in any order *)

(** Each header names the one before it as its parent. *)
Fixpoint linked (parent : bytes) (chain : list (Header * bytes)) : Prop :=
  match chain with
  | [] => True
  | (h, _) :: rest => h_parent_id h = parent /\ linked (h_id h) rest
  end.

Lemma linked_parent p chain i h raw :
  linked p chain -> chain !! i = Some (h, raw) ->
  match i with
  | O => h_parent_id h = p
  | S j => exists h' raw', chain !! j = Some (h', raw') /\ h_parent_id h = h_id h'
  end.
Proof.
  revert p i. induction chain as [|[h0 r0] chain IH]; intros p i Hl Hi; [done|].
  destruct Hl as [Hp Hl]. destruct i as [|i]; cbn in Hi; [congruence|].
  specialize (IH _ _ Hl Hi). destruct i as [|i]; cbn; [by exists h0, r0|done].
Qed.

Record chain_ok (chain : list (Header * bytes)) : Prop := {
  co_parse h raw : (h, raw) ∈ chain -> parse_received_header raw = Some h;
  co_nodup : NoDup (ids_of chain);
  co_linked : linked genesis_parent_id chain;
  co_genesis : genesis_parent_id ∉ ids_of chain;
  co_length : Z.of_nat (length chain) < MAX_PENDING_HEADERS
}.

Context (Hans : answers) (chain : list (Header * bytes)) (Hchain : chain_ok chain).

Abbreviation U := (fun raw => raw ∈ chain.*2).
Abbreviation cache0 := (sp_stored_headers (SyncProtocol_new SyncConfig_default : proto)).

Lemma chain_received raw : U raw -> exists h, (h, raw) ∈ chain /\ received U h raw /\ h_id h = blake2b256 raw.
Proof.
  intros Hu. pose proof Hu as ([h raw'] & -> & Hin)%list_elem_of_fmap. exists h. split; [done|].
  assert (received U h raw') as Hr by (split; [done|by apply (co_parse _ Hchain)]).
  split; [done|]. by eapply received_id.
Qed.

Lemma chain_inj d1 d2 : U d1 -> U d2 -> blake2b256 d1 = blake2b256 d2 -> d1 = d2.
Proof.
  intros (h1 & Hin1 & _ & E1)%chain_received (h2 & Hin2 & _ & E2)%chain_received Hd.
  apply list_elem_of_lookup in Hin1 as [i Hi], Hin2 as [j Hj].
  assert (ids_of chain !! i = Some (h_id h1)) as Hi' by (unfold ids_of; by rewrite list_lookup_fmap, Hi).
  assert (ids_of chain !! j = Some (h_id h2)) as Hj' by (unfold ids_of; by rewrite list_lookup_fmap, Hj).
  rewrite E1, Hd, <- E2 in Hi'. rewrite (NoDup_lookup _ _ _ _ (co_nodup _ Hchain) Hi' Hj') in Hi.
  congruence.
Qed.

Lemma received_chain h raw : received U h raw -> (h, raw) ∈ chain.
Proof.
  intros [Hu Hp]. destruct (chain_received raw Hu) as (h' & Hin & [_ Hp'] & _). congruence.
Qed.

(** The state of a run that has seen the raw headers [ds]. *)
Definition chain_inv (ds : list bytes) s : Prop :=
  hs_closed U cache0 s /\ uniq s /\
  forall raw, raw ∈ ds -> blake2b256 raw ∈ ids_of (handed s) \/ is_Some (waiting_of s !! blake2b256 raw).

Lemma handed_in_chain s x : hs_closed U cache0 s -> x ∈ handed s -> x ∈ chain.
Proof.
  intros [Hi _] (l1 & l2 & E)%list_elem_of_split. destruct x as [h raw].
  apply received_chain. by apply (hi_order _ _ _ Hi l1 h raw l2).
Qed.

Lemma handed_short s : hs_closed U cache0 s -> uniq s -> (length (handed s) <= length chain)%nat.
Proof.
  intros Hi [Hn _].
  assert (ids_of (handed s) ⊆ ids_of chain) as Hsub.
  { intros id (x & -> & Hx)%list_elem_of_fmap. apply ids_in. by eapply handed_in_chain. }
  pose proof (NoDup_submseteq _ _ Hn Hsub) as Hl. apply submseteq_length in Hl.
  unfold ids_of in Hl. by rewrite !length_fmap in Hl.
Qed.

(** The cache holds the genesis parent and everything handed over. *)
Lemma cache_has s id :
  hs_closed U cache0 s -> uniq s ->
  (lru_contains (sp_stored_headers s) id = true <-> id = genesis_parent_id \/ id ∈ ids_of (handed s)).
Proof.
  intros Hi Hu. pose proof (handed_short _ Hi Hu) as Hlen. destruct Hi as [Hi _].
  rewrite (hi_cache _ _ _ Hi). split.
  - intros [Hk|Hk]%fold_put_known; [left|by right]. cbn in Hk.
    apply lru_put_only in Hk as [->|Hk]; [done|]. by rewrite lru_contains_new in Hk.
  - intros Hk. apply fold_put_keeps.
    + change cache0 with (lru_put (lru_new STORED_HEADERS_CACHE_SIZE : C) genesis_parent_id).
      rewrite lru_cap_put, lru_cap_new.
      pose proof (lru_len_put (lru_new STORED_HEADERS_CACHE_SIZE : C) genesis_parent_id) as Hl.
      rewrite lru_len_new in Hl. unfold ids_of. rewrite length_fmap.
      pose proof (co_length _ Hchain). unfold MAX_PENDING_HEADERS, STORED_HEADERS_CACHE_SIZE in *. lia.
    + destruct Hk as [->|Hk]; [left; apply lru_contains_put|by right].
Qed.

Lemma waiting_in_chain s id ph :
  hs_closed U cache0 s -> waiting_of s !! id = Some ph ->
  (ph_header ph, ph_raw_bytes ph) ∈ chain /\ id = h_id (ph_header ph) /\
  ph_parent_id ph = h_parent_id (ph_header ph).
Proof.
  intros [Hi _] Hw. destruct (hi_waits _ _ _ Hi _ _ Hw) as (Hr & -> & Hp).
  split; [by apply received_chain|done].
Qed.

(** Fewer headers wait than the map can hold. *)
Lemma waiting_short s :
  hs_closed U cache0 s -> Z.of_nat (size (waiting_of s)) < MAX_PENDING_HEADERS.
Proof.
  intros Hi. pose proof (co_length _ Hchain).
  assert (size (waiting_of s) <= length chain)%nat; [|lia].
  assert (length chain = size (list_to_set (ids_of chain) : gset bytes)) as ->.
  { rewrite size_list_to_set by apply Hchain. unfold ids_of. by rewrite length_fmap. }
  rewrite <- (size_dom (D := gset bytes)).
  apply subseteq_size. intros id [ph Hw]%elem_of_dom.
  destruct (waiting_in_chain _ _ _ Hi Hw) as (Hin & -> & _).
  apply elem_of_list_to_set. by apply ids_in in Hin.
Qed.

Lemma chain_inv_same ds s s' : same_headers s s' -> chain_inv ds s -> chain_inv ds s'.
Proof.
  intros Hs (Hi & Hu & Hd). split; [by eapply hs_closed_same|].
  destruct Hs as (E1 & _ & E3 & _). split; [by unfold uniq; rewrite E1, E3|]. by rewrite E1, E3.
Qed.

Lemma clear_nothing ds s : chain_inv ds s -> clear_stuck_headers s = s.
Proof.
  intros (Hi & Hu & _). unfold clear_stuck_headers.
  assert (lru_contains (sp_stored_headers s) genesis_parent_id = true) as Hg
    by (apply cache_has; auto).
  apply lru_len_pos in Hg. destruct (Z.eqb_spec (lru_len (sp_stored_headers s)) 0); [lia|].
  by rewrite andb_false_r.
Qed.

(** The parent of a chain's header is the genesis parent or one of the chain. *)
Lemma not_waiting_stored s h raw :
  hs_closed U cache0 s -> (h, raw) ∈ chain ->
  lru_contains (sp_stored_headers s) (h_parent_id h) = true -> waiting_of s !! h_id h = None.
Proof.
  intros Hi Hin Hp. apply eq_None_not_Some. intros [ph Hw].
  destruct (waiting_in_chain _ _ _ Hi Hw) as (Hin' & Hid & Hpar).
  assert (ph_header ph = h) as Eh.
  { assert (forall x, x ∈ chain -> received U (x.1) (x.2)) as Hrec.
    { intros [h0 r0] Hx. split; [by apply (list_elem_of_fmap_2 snd _ _ Hx)|by apply (co_parse _ Hchain)]. }
    by destruct (received_inj U chain_inj _ _ _ _ (Hrec _ Hin') (Hrec _ Hin)). }
  destruct Hi as [_ Hc]. apply (Hc _ _) in Hw; [by apply not_elem_of_nil in Hw|].
  by rewrite Hpar, Eh.
Qed.

Lemma chain_header_step ds now id data s :
  U data -> chain_inv ds s -> chain_inv (data :: ds) (on_header_received now id data s).2.
Proof.
  intros Hu Hs. destruct (chain_received data Hu) as (h & Hin & Hr & Hid).
  rewrite on_header_eq. set (s1 := put_in_flight_headers (delete id (sp_in_flight_headers s)) s).
  apply (chain_inv_same ds s s1) in Hs; [|done]. clearbody s1. cbn zeta.
  rewrite (proj2 Hr). change (compute_sync_header_id data) with (blake2b256 data). rewrite <- Hid.
  destruct Hs as (Hi & Hun & Hd). pose proof (cache_has s1 (h_id h) Hi Hun) as Hcache.
  pose proof (ids_in _ _ Hin) as Hidc. cbn in Hidc. pose proof (co_genesis _ Hchain) as Hg.
  destruct (lru_contains (sp_stored_headers s1) (h_id h)) eqn:Est.
  { split; [done|]. split; [done|]. intros raw [->|Hraw]%elem_of_cons; [|by apply Hd].
    left. rewrite <- Hid. destruct (proj1 Hcache eq_refl) as [Eg|?]; [by rewrite Eg in Hidc|done]. }
  assert (h_id h ∉ ids_of (handed s1)) as Hnew by (intros Hx; discriminate (proj2 Hcache (or_intror Hx))).
  destruct (lru_contains (sp_stored_headers s1) (h_parent_id h)) eqn:Epar.
  - destruct Hi as [Hi Hc].
    destruct (store_ok U chain_inj Hans cache0 (store_fuel s1) now [] h data s1)
      as (s2 & -> & Hi2 & Hc2 & A2 & Hid2 & Hu2); try done.
    { by eapply cache_known. }
    { unfold store_fuel. lia. }
    cbn [snd]. destruct Hu2 as [Hu2 _]; [done|by apply (not_waiting_stored s1 h data (conj Hi Hc))|done|].
    split; [by split|]. split; [done|]. intros raw [->|Hraw]%elem_of_cons.
    + left. by rewrite <- Hid.
    + destruct (Hd raw Hraw) as [?|[ph Hw]]; [left; by apply (ad_ids U chain_inj _ _ _ A2)|].
      destruct (ad_kept _ _ A2 _ _ Hw) as [?|?]; [right; by eexists|by left].
  - pose proof (buffered_ok U chain_inj cache0 data h s1 Hr Epar Hi) as Hb.
    change (put_pending_headers _ s1) with (buffered data h s1). cbn [snd].
    assert (waiting_of (buffered data h s1) =
      <[h_id h := mkPendingHeader h data (h_parent_id h)]> (waiting_of s1)) as Ew.
    { unfold buffered. cbn [sp_pending_headers put_pending_headers]. rewrite pending_insert_eq.
      rewrite evicted_below by by apply waiting_short. done. }
    split; [done|]. split.
    + split; [apply Hun|]. intros id' ph. rewrite Ew.
      intros [[<- _]|[_ Hw]]%lookup_insert_Some; [done|]. by apply (proj2 Hun _ _ Hw).
    + intros raw. rewrite Ew. intros [->|Hraw]%elem_of_cons.
      * right. rewrite <- Hid, lookup_insert_eq. by eexists.
      * destruct (Hd raw Hraw) as [?|Hw]; [by left|right]. rewrite lookup_insert_is_Some'. by right.
Qed.

Lemma chain_event ds now e s :
  delivers U e -> chain_inv ds s ->
  chain_inv (deliveries [(now, e)] ++ ds) (handle_event now e s).2.
Proof.
  intros He Hs.
  assert (deliveries [(now, e)] = [] -> chain_inv ds (handle_event now e s).2) as Hother.
  { intros Hnil. apply (handle_event_inv Hans (chain_inv ds) (fun _ => False)); try done.
    - intros ? ?. apply chain_inv_same.
    - intros s' Hs'. by rewrite (clear_nothing ds).
    - destruct e; cbn in *; try done. intros Hty. by rewrite decide_True in Hnil. }
  destruct e; try by apply Hother. cbn in *.
  destruct (decide (from_byte type_id = Some MT_Header)) as [Hty|Hty]; [|by apply Hother].
  cbn. unfold on_modifier. rewrite bind_eq. cbn [modify]. rewrite Hty.
  apply chain_header_step; [by apply He|]. eapply chain_inv_same; [|exact Hs]; done.
Qed.

Lemma chain_run ds events s :
  Forall (fun e => delivers U (e.2)) events -> chain_inv ds s ->
  chain_inv (reverse (deliveries events) ++ ds) (run_events events s).
Proof.
  intros He. revert ds s. induction He as [|[now e] events Hd _ IH]; intros ds s Hs; [done|].
  change (run_events ((now, e) :: events) s) with (run_events events (handle_event now e s).2).
  assert (deliveries ((now, e) :: events) = deliveries [(now, e)] ++ deliveries events) as ->
    by (unfold deliveries; by rewrite <- omap_app).
  rewrite reverse_app, <- app_assoc. apply IH.
  replace (reverse (deliveries [(now, e)])) with (deliveries [(now, e)]); [by apply chain_event|].
  unfold deliveries. cbn. by destruct e as [| | | |? ty| | | |]; try done; destruct (decide _).
Qed.

(** ** Once all have arrived *)

Lemma all_handed ds s h raw :
  chain_inv ds s -> chain.*2 ⊆ ds -> (h, raw) ∈ chain -> h_id h ∈ ids_of (handed s).
Proof.
  intros (Hi & Hu & Hd) Hall (i & Hl)%list_elem_of_lookup.
  revert h raw Hl. induction i as [i IH] using lt_wf_ind. intros h raw Hl.
  pose proof (list_elem_of_lookup_2 _ _ _ Hl) as Hin.
  assert (U raw) as Hraw by apply (list_elem_of_fmap_2 snd _ _ Hin).
  destruct (chain_received raw Hraw) as (h' & Hin' & [_ Hp'] & Hid).
  assert (h' = h) as -> by (apply (co_parse _ Hchain) in Hin; congruence).
  destruct (Hd raw) as [?|[ph Hw]]; [by apply Hall|by rewrite Hid|]. exfalso.
  rewrite <- Hid in Hw. enough (waiting_of s !! h_id h = None) by congruence.
  apply (not_waiting_stored s h raw Hi Hin). apply cache_has; [done|done|].
  pose proof (linked_parent _ _ _ _ _ (co_linked _ Hchain) Hl) as Hpar.
  destruct i as [|j]; [by left|right]. destruct Hpar as (h' & raw' & Hj & ->). by apply (IH j ltac:(lia) h' raw').
Qed.

Lemma handed_prefix s k :
  hs_closed U cache0 s -> uniq s -> (k <= length (handed s))%nat -> take k (handed s) = take k chain.
Proof.
  intros Hi Hu. induction k as [|k IH]; intros Hk; [done|]. specialize (IH ltac:(lia)).
  destruct (lookup_lt_is_Some_2 (handed s) k ltac:(lia)) as [[h raw] Hl].
  pose proof (handed_in_chain _ _ Hi (list_elem_of_lookup_2 _ _ _ Hl)) as (j & Hj)%list_elem_of_lookup.
  rewrite (take_S_r _ _ _ Hl), IH.
  enough (j = k) as -> by (by rewrite (take_S_r _ _ _ Hj)).
  assert (handed s = take k (handed s) ++ (h, raw) :: drop (S k) (handed s)) as Esplit
    by (symmetry; by apply take_drop_middle).
  destruct (hi_order _ _ _ (proj1 Hi) _ _ _ _ Esplit) as [_ Hknown]. rewrite IH in Hknown.
  assert (forall i x, chain !! i = Some x -> ids_of chain !! i = Some (h_id (x.1))) as Hids.
  { intros i x Hx. unfold ids_of. by rewrite list_lookup_fmap, Hx. }
  assert (k <= j)%nat as Hge.
  { apply Nat.nlt_ge. intros Hlt. destruct Hu as [Hnd _].
    assert (handed s !! j = Some (h, raw)) as Hl'.
    { rewrite <- (lookup_take_lt (handed s) k j) by done. rewrite IH.
      by rewrite (lookup_take_lt chain k j) by done. }
    enough (j = k) by lia. apply (NoDup_lookup _ j k (h_id h) Hnd); unfold ids_of;
      rewrite list_lookup_fmap, ?Hl, ?Hl'; done. }
  pose proof (linked_parent _ _ _ _ _ (co_linked _ Hchain) Hj) as Hpar.
  destruct Hknown as [Hc|Hc].
  - assert (h_parent_id h = genesis_parent_id) as Eg.
    { apply lru_put_only in Hc as [?|Hc]; [done|]. by rewrite lru_contains_new in Hc. }
    destruct j as [|j]; [lia|]. destruct Hpar as (h' & raw' & Hj' & Hp'). exfalso.
    apply (co_genesis _ Hchain). rewrite <- Eg, Hp'. by apply (ids_in (h', raw')), (list_elem_of_lookup_2 _ j).
  - apply list_elem_of_fmap in Hc as ([h' raw'] & Ep & Hin').
    apply list_elem_of_lookup in Hin' as [i Hi']. apply lookup_take_Some in Hi' as [Hi' Hik]. cbn in Ep.
    destruct j as [|j].
    + exfalso. apply (co_genesis _ Hchain). rewrite <- Hpar, Ep.
      by apply (ids_in (h', raw')), (list_elem_of_lookup_2 _ i).
    + destruct Hpar as (h'' & raw'' & Hj' & Hp').
      enough (i = j) by lia. apply (NoDup_lookup _ i j (h_id h') (co_nodup _ Hchain)).
      * by apply (Hids i (h', raw')).
      * rewrite <- Ep, Hp'. by apply (Hids j (h'', raw'')).
Qed.
End Runs.

(** ** Handlers return *)

Section Total.
Context {ErgoBox Ext Tx : Type} `{ErgoBoxOps ErgoBox} `{TransactionOps ErgoBox Ext Tx}
  `{ChainTypes} `{!HeaderCodec} `{Blake2b256} {C : Type} `{LruLaws C} `{!LruLen C}
  `{MapOrdersLaws} `{!SyncEnv} `{SectionLib}.

(** A handler that never runs out of the model's fuel. *)
Definition total {A} (m : M C A) : Prop := forall s, (m s).1 <> Err SE_OutOfFuel.

Lemma total_bind {A B} (m : M C A) (f : A -> M C B) : total m -> (forall a, total (f a)) -> total (m ≫= f).
Proof.
  intros Hm Hf s. rewrite bind_eq. specialize (Hm s). destruct (m s) as [[a|e] s']; cbn in *; [apply Hf|congruence].
Qed.

Lemma total_for_each {A} (f : A -> M C unit) l : (forall x, total (f x)) -> total (for_each f l).
Proof. intros Hf. induction l; cbn [for_each]; [done|]. by apply total_bind. Qed.

Lemma total_send cmd : total (send_command (C := C) cmd).
Proof. intros s. unfold send_command. by destruct (env_takes _ _). Qed.

Lemma total_flush now : total (flush_if_needed (C := C) now).
Proof. intros s. apply (flush_shrinks now s). Qed.

Lemma total_header now id data : total (on_header_received (C := C) now id data).
Proof.
  intros s. rewrite on_header_eq. cbn zeta. destruct (parse_received_header data); [|done].
  destruct (lru_contains _ (compute_sync_header_id data)); [done|].
  destruct (lru_contains _ (h_parent_id _)); [|done].
  apply store_shrinks. unfold store_fuel. lia.
Qed.
End Total.

Ltac total_step :=
  match goal with
  | |- total (mbind _ _) => apply total_bind; [|intros ?]
  | |- total (for_each _ _) => apply total_for_each; intros ?
  | |- total (send_command _) => apply total_send
  | |- total (send_to_peer _ _) => apply total_send
  | |- total (flush_if_needed _) => apply total_flush
  | |- total (on_header_received _ _ _) => apply total_header
  | |- total (match ?x with _ => _ end) => destruct x
  | |- total _ => by intros ?
  end.

(** * Properties *)

Section Properties.
Context {ErgoBox Ext Tx : Type} `{ErgoBoxOps ErgoBox} `{TransactionOps ErgoBox Ext Tx}
  `{ChainTypes} `{!HeaderCodec} `{Blake2b256} {C : Type} `{LruLaws C} `{!LruLen C}
  `{MapOrdersLaws} `{!SyncEnv} `{SectionLib}.
Implicit Types (s : SyncProtocol C).

(** C35: every handler returns: the recursion of a stored header through the
    headers that waited for it ends, whatever waits and whatever the channel
    and the storage answer. *)
Theorem handlers_return now e s : (handle_event now e s).1 <> Err SE_OutOfFuel.
Proof.
  revert s. change (total (C := C) (handle_event now e)).
  unfold handle_event, on_peer_connected, on_sync_info, on_inv, on_modifier, on_block_received,
    on_extension_received, on_transaction_received, on_request_blocks, on_tick, dispatch_downloads,
    dispatch_to_peer, request_more_headers_if_needed, send_periodic_sync_info, request_pending_inv.
  repeat total_step.
Qed.

(** C9: as long as the storage confirms its batches, every header handed to it,
    in the order of the batches, was parsed from the bytes it comes with, under
    the hash of those bytes, and its parent was handed over before it, was
    stored at the start, or is the genesis parent; and no header waits for a
    parent in the cache. *)
Theorem headers_parents_first (U : bytes -> Prop) config ids locators v2 events l1 h raw l2 :
  answers ->
  (forall d1 d2, U d1 -> U d2 -> blake2b256 d1 = blake2b256 d2 -> d1 = d2) ->
  (forall data, data ∈ deliveries events -> U data) ->
  let s := run_events events (init_from_stored_headers ids locators v2 (SyncProtocol_new config)) in
  (batches (sp_sent s) ++ sp_pending_header_writes s = l1 ++ (h, raw) :: l2 ->
   parse_received_header raw = Some h /\ h_id h = blake2b256 raw /\
   h_parent_id h ∈ genesis_parent_id :: ids ++ ids_of l1) /\
  (forall id ph, by_id (sp_pending_headers s) !! id = Some ph ->
     lru_contains (sp_stored_headers s : C) (ph_parent_id ph) = false).
Proof.
  intros Hans Hinj Hdel s.
  destruct (init_inv U ids locators v2 (SyncProtocol_new config : SyncProtocol C)) as [Hi Hc0]; [done..|].
  set (s1 := init_from_stored_headers ids locators v2 (SyncProtocol_new config)) in *.
  assert (hs_closed U (sp_stored_headers s1) s) as [Hi' Hc'].
  { apply (run_events_inv _ U); [|by apply deliveries_delivers|done]. intros now e s' He Hs'.
    apply (handle_event_inv Hans _ U); try done.
    - apply hs_closed_same.
    - apply hs_closed_clear.
    - intros. by apply (on_header_ok Hans U Hinj). }
  split.
  - intros Hsplit. destruct (hi_order _ _ _ Hi' _ _ _ _ Hsplit) as [Hr Hk].
    split; [apply Hr|]. split; [by eapply received_id|].
    rewrite elem_of_cons, elem_of_app. destruct Hk as [Hk|Hk]; [|by right; right].
    apply Hc0 in Hk as [Hk|Hk]; [|by right; left].
    apply lru_put_only in Hk as [->|Hk]; [by left|]. by rewrite lru_contains_new in Hk.
  - intros id ph Hw. destruct (lru_contains _ _) eqn:E; [|done]. exfalso.
    by apply (not_elem_of_nil id), (Hc' id ph).
Qed.

(** What is handed over of a chain, the buffered headers included. *)
Lemma chain_handed `{!LruRetention C} config chain events :
  answers -> chain_ok chain ->
  (forall data, data ∈ deliveries events <-> data ∈ chain.*2) ->
  let s : SyncProtocol C := run_events events (SyncProtocol_new config) in
  handed s = chain /\ by_id (sp_pending_headers s) = ∅.
Proof.
  intros Hans Hchain Hdel s.
  assert (chain_inv chain (reverse (deliveries events) ++ []) s) as Hinv.
  { apply (chain_run Hans); [done|apply deliveries_delivers; intros; by apply Hdel|].
    split; [exact (start_inv _ config)|]. split; [|intros raw Hraw; by apply not_elem_of_nil in Hraw].
    split; [constructor|]. intros id ph Hw. cbn in Hw. by rewrite lookup_empty in Hw. }
  assert (forall h raw, (h, raw) ∈ chain -> h_id h ∈ ids_of (handed s)) as Hall.
  { intros h raw. apply (all_handed chain Hchain _ _ _ _ Hinv). intros raw' Hr.
    rewrite app_nil_r. apply elem_of_reverse. by apply Hdel. }
  destruct Hinv as (Hi & Hu & _). split.
  - pose proof (handed_prefix chain Hchain s _ Hi Hu (le_n _)) as Hp.
    rewrite (firstn_all (handed s)) in Hp. rewrite Hp. apply take_ge.
    assert (ids_of chain ⊆ ids_of (handed s)) as Hsub.
    { intros id ([h raw] & -> & Hx)%list_elem_of_fmap. by apply (Hall h raw). }
    pose proof (submseteq_length _ _ (NoDup_submseteq _ _ (co_nodup _ Hchain) Hsub)) as Hl.
    unfold ids_of in Hl. by rewrite !length_fmap in Hl.
  - apply map_eq. intros id. rewrite lookup_empty. apply eq_None_not_Some. intros [ph Hw].
    destruct (waiting_in_chain chain Hchain _ _ _ Hi Hw) as (Hin & Hid & _).
    apply (proj2 Hu _ _ Hw). rewrite Hid. by eapply Hall.
Qed.

Lemma deliveries_app l1 l2 : deliveries (l1 ++ l2) = deliveries l1 ++ deliveries l2.
Proof. apply omap_app. Qed.

(** C4: if a fresh node's header modifiers are those of a chain from the genesis
    parent, shorter than MAX_PENDING_HEADERS, each at least once, in any order, from any peers, among any other
    events, and the storage confirms its batches, then with the first tick a
    batch timeout after the last event the batches sent to the storage are
    exactly the chain: each header once, in the order of the chain, none left in
    the buffer of the next batch and none waiting for its parent.  Until then
    the batches sent and that buffer are the chain. *)
Theorem chain_in_any_order `{!LruRetention C} config chain events tick :
  answers -> chain_ok chain ->
  (forall data, data ∈ deliveries events <-> data ∈ chain.*2) ->
  Forall (fun ev => elapsed tick (ev.1) >= HEADER_BATCH_TIMEOUT_MS) events ->
  let s : SyncProtocol C := run_events events (SyncProtocol_new config) in
  let s' := (handle_event tick SV_Tick s).2 in
  batches (sp_sent s') = chain /\ sp_pending_header_writes s' = [] /\ by_id (sp_pending_headers s') = ∅ /\
  batches (sp_sent s) ++ sp_pending_header_writes s = chain.
Proof.
  intros Hans Hchain Hdel Htime s s'.
  assert (sp_pending_header_writes s' = []) as Hw.
  { apply (tick_flushes Hans). apply (waits_run Hans); [exact Htime|by left]. }
  destruct (chain_handed config chain (events ++ [(tick, SV_Tick)]) Hans Hchain) as [Hh Hp].
  { intros data. by rewrite deliveries_app, app_nil_r. }
  unfold run_events in Hh, Hp. rewrite fold_left_app in Hh, Hp.
  change (handed s' = chain) in Hh. change (by_id (sp_pending_headers s') = ∅) in Hp.
  unfold handed in Hh. rewrite Hw, app_nil_r in Hh. repeat split; [done..|].
  exact (proj1 (chain_handed config chain events Hans Hchain Hdel)).
Qed.

Lemma no_children p : get_by_parent children_iter p PendingHeadersMap_new = [].
Proof. unfold get_by_parent, PendingHeadersMap_new. cbn [by_parent]. by rewrite lookup_empty. Qed.

Lemma store_fuel_eq s : store_fuel s = S (size (by_id (sp_pending_headers s))).
Proof. done. Qed.
Lemma stored_put_flight x s : sp_stored_headers (put_in_flight_headers x s) = sp_stored_headers s.
Proof. done. Qed.

(** Storing a header nobody waits for, on a state where nothing waits. *)
Lemma store_alone fuel now h data s :
  sp_pending_headers s = PendingHeadersMap_new ->
  store_header_and_descendants (S fuel) now h data s = flush_if_needed now (record_header now h data s).
Proof.
  intros Hp. cbn [store_header_and_descendants]. rewrite bind_eq. cbn [modify]. rewrite bind_eq.
  unfold try_apply_pending_headers. rewrite bind_eq. cbn [get_proto].
  change (sp_pending_headers (record_header now h data s)) with (sp_pending_headers s).
  rewrite Hp, no_children. cbn [for_each]. unfold mret, M_ret. cbv beta iota. reflexivity.
Qed.

Lemma flush_due now s :
  HEADER_BATCH_SIZE <= Z.of_nat (length (sp_pending_header_writes s)) ->
  should_flush_headers now s = true.
Proof.
  unfold should_flush_headers. destruct (sp_pending_header_writes s) as [|x l].
  - unfold HEADER_BATCH_SIZE. cbn [length]. lia.
  - intros Hle. by destruct (Z.geb_spec (Z.of_nat (length (x :: l))) HEADER_BATCH_SIZE); [|lia].
Qed.

Lemma parse_id data h : parse_received_header data = Some h -> h_id h = compute_sync_header_id data.
Proof. intros Hp. by apply (received_id (fun _ => True)). Qed.

Lemma flush_not_due now h data s :
  sp_pending_header_writes s = [] ->
  flush_if_needed now (record_header now h data s) = (Ok tt, record_header now h data s) /\
  sp_pending_header_writes (record_header now h data s) = [(h, data)].
Proof.
  intros Hw.
  assert (sp_pending_header_writes (record_header now h data s) = [(h, data)]) as Ew
    by (change (sp_pending_header_writes s ++ [(h, data)] = [(h, data)]); by rewrite Hw).
  split; [|done]. rewrite flush_eq. unfold should_flush_headers. rewrite Ew.
  assert (sp_pending_header_writes_since (record_header now h data s) = Some now) as ->.
  { change (match sp_pending_header_writes s with [] => Some now | _ => sp_pending_header_writes_since s end
      = Some now). by rewrite Hw. }
  unfold elapsed, sat_sub. by rewrite Z.sub_diag.
Qed.

(** A header that fills the batch, on a storage that refuses it. *)
Lemma refused now id data h s msg :
  parse_received_header data = Some h ->
  lru_contains (sp_stored_headers s) (h_id h) = false ->
  lru_contains (sp_stored_headers s) (h_parent_id h) = true ->
  sp_pending_headers s = PendingHeadersMap_new ->
  HEADER_BATCH_SIZE <= Z.of_nat (length (sp_pending_header_writes s)) + 1 ->
  (forall l c, env_takes l c = true) -> (forall l, env_reply l = StoreFailed msg) ->
  exists s', on_header_received now id data s = (Err (SE_Internal msg), s') /\
    sp_stored_headers s' = lru_put (sp_stored_headers s) (h_id h) /\
    sp_pending_header_writes s' = [] /\ sp_pending_headers s' = PendingHeadersMap_new.
Proof.
  intros Hp Hnew Hpar Hw Hlen Htakes Hreply.
  exists (batch_sent (record_header now h data (put_in_flight_headers (delete id (sp_in_flight_headers s)) s))).
  split; [|by rewrite <- Hw].
  rewrite on_header_eq. cbn zeta. rewrite Hp, <- (parse_id _ _ Hp), stored_put_flight, Hnew, Hpar.
  rewrite store_fuel_eq, store_alone by done. rewrite flush_eq, Htakes, Hreply.
  rewrite flush_due; [done|].
  change (sp_pending_header_writes (record_header now h data ?x))
    with (sp_pending_header_writes s ++ [(h, data)]).
  rewrite length_app. cbn [length]. lia.
Qed.

(** when the storage refuses a batch, the headers of the batch are gone from
    the buffer and stay in the cache of stored headers: the last of them is
    neither requested when it is announced again nor stored when it arrives
    again, and a child of it is buffered for the storage without it. *)
Theorem failed_batch_forgets now id data h s msg now' id' data' h' :
  parse_received_header data = Some h ->
  lru_contains (sp_stored_headers s) (h_id h) = false ->
  lru_contains (sp_stored_headers s) (h_parent_id h) = true ->
  sp_pending_headers s = PendingHeadersMap_new ->
  HEADER_BATCH_SIZE <= Z.of_nat (length (sp_pending_header_writes s)) + 1 ->
  (forall l c, env_takes l c = true) -> (forall l, env_reply l = StoreFailed msg) ->
  parse_received_header data' = Some h' -> h_parent_id h' = h_id h -> h_id h' <> h_id h ->
  lru_contains (sp_stored_headers s) (h_id h') = false ->
  let r := on_header_received now id data s in
  r.1 = Err (SE_Internal msg) /\ sp_pending_header_writes (C := C) r.2 = [] /\
  filter_known (sp_stored_headers r.2) [h_id h] = [] /\
  (on_header_received now' id' data r.2).1 = Ok tt /\
  sp_pending_header_writes (C := C) (on_header_received now' id' data r.2).2 = [] /\
  (on_header_received now' id' data' r.2).1 = Ok tt /\
  sp_pending_header_writes (C := C) (on_header_received now' id' data' r.2).2 = [(h', data')].
Proof.
  intros Hp Hnew Hpar Hw Hlen Htakes Hreply Hp' Hpar' Hne Hnew' r.
  destruct (refused now id data h s msg) as (s2 & Er & Es & Ew & Ep); try done.
  unfold r. rewrite Er. cbn [fst snd]. clear r Er. split; [done|]. split; [done|]. split.
  { unfold filter_known. rewrite Es. rewrite filter_cons_False; [done|]. by rewrite lru_contains_put. }
  rewrite !on_header_eq. cbn zeta. rewrite Hp, Hp', <- (parse_id _ _ Hp), <- (parse_id _ _ Hp').
  set (s3 := put_in_flight_headers (delete id' (sp_in_flight_headers s2)) s2).
  assert (sp_stored_headers s3 = lru_put (sp_stored_headers s) (h_id h)) as Es3
    by (unfold s3; by rewrite stored_put_flight).
  rewrite Es3, lru_contains_put.
  split; [done|]. split; [done|].
  assert (lru_contains (lru_put (sp_stored_headers s) (h_id h)) (h_id h') = false) as ->.
  { destruct (lru_contains (lru_put _ _) _) eqn:E; [|done].
    apply lru_put_only in E as [?|?]; congruence. }
  rewrite Hpar', lru_contains_put. rewrite store_fuel_eq, store_alone by done.
  by destruct (flush_not_due now' h' data' s3 Ew) as [-> ?].
Qed.
End Properties.

Module RunExample.
Export Toy.

(** A cache with its capacity, which forgets nothing. *)
#[export] Instance cap_lru : LruCache (Z * list bytes) := {
  lru_new n := (n, []);
  lru_contains c k := bool_decide (k ∈ c.2);
  lru_put c k := (c.1, k :: c.2);
  lru_pop c k := (c.1, base.filter (fun x => x <> k) (c.2))
}.
#[export] Instance cap_len : LruLen (Z * list bytes) := {
  lru_len c := Z.of_nat (length (c.2)); lru_cap := fst }.

#[export] Instance cap_lru_laws : LruLaws (Z * list bytes).
Proof.
  constructor; cbn.
  - done.
  - intros. apply bool_decide_eq_true, list_elem_of_here.
  - intros c k k' Hin. apply bool_decide_eq_true in Hin. rewrite elem_of_cons in Hin.
    rewrite bool_decide_eq_true. exact Hin.
  - intros. rewrite !bool_decide_eq_true, list_elem_of_filter. done.
Qed.

#[export] Instance cap_retention : LruRetention (Z * list bytes).
Proof.
  constructor; cbn; try done.
  - intros. lia.
  - intros c k Hk. apply bool_decide_eq_true in Hk. destruct (c.2); [|cbn; lia].
    by apply not_elem_of_nil in Hk.
  - intros c k k' _ Hk. apply bool_decide_eq_true in Hk. by apply bool_decide_eq_true, list_elem_of_further.
Qed.

#[export] Instance orders : MapOrders := {
  tasks_iter := map_to_list; flight_iter := map_to_list; peers_iter := map_to_list;
  requests_iter := map_to_list; children_iter := elements; types_iter := map_to_list }.
#[export] Instance orders_laws : MapOrdersLaws.
Proof. by constructor. Qed.

#[export] Instance section_lib : SectionLib := {
  lib_get_u32 bs := match bs with [] => None | b :: _ => Some (b, 1%nat) end;
  lib_merkle_root leaves := blake2b256 (List.concat leaves) }.

(** A header is its parent's identifier and its height. *)
#[export] Instance run_codec : HeaderCodec := {
  scorex_serialize_bytes h := Some (h_parent_id h ++ [h_height h]);
  scorex_parse_bytes bs :=
    if (length bs =? 33)%nat then
      Some (mkHeader 1 [] (take 32 bs) [] [] [] 0 0 (nth 32 bs 0) []
              (mkAutolykosSolution 0 None [] None) [] [])
    else None
}.

(** A storage that confirms, and one that refuses. *)
Definition good_env : SyncEnv := {| env_takes _ _ := true; env_reply _ := Stored |}.
Definition bad_env : SyncEnv := {| env_takes _ _ := true; env_reply _ := StoreFailed "full" |}.

Definition raw1 : bytes := replicate 32 0 ++ [1].
Definition raw2 : bytes := blake2b256 raw1 ++ [2].
Definition header_of (raw : bytes) : Header :=
  default (mkHeader 0 [] [] [] [] [] 0 0 0 [] (mkAutolykosSolution 0 None [] None) [] [])
    (parse_received_header raw).
Definition chain2 : list (Header * bytes) := [(header_of raw1, raw1); (header_of raw2, raw2)].

(** The child arrives first. *)
Definition events2 : list (Z * SyncEvent) :=
  [(10, SV_ModifierReceived [7] 101 (blake2b256 raw2) raw2);
   (20, SV_Tick);
   (30, SV_ModifierReceived [8] 101 (blake2b256 raw1) raw1)].

Lemma chain2_ok : chain_ok chain2.
Proof.
  constructor.
  - intros h raw Hin. unfold chain2 in Hin.
    apply elem_of_cons in Hin as [E|Hin]; [|apply list_elem_of_singleton in Hin as E];
      injection E as -> ->; vm_compute; reflexivity.
  - apply (bool_decide_unpack _). vm_compute. reflexivity.
  - vm_compute. repeat split.
  - apply (bool_decide_unpack _). vm_compute. reflexivity.
  - vm_compute. reflexivity.
Qed.

Abbreviation start := (SyncProtocol_new SyncConfig_default : SyncProtocol (Z * list bytes)).

Section Good.
#[local] Existing Instance good_env.

Lemma handlers_return_witness :
  (handle_event
     0 SV_Tick start).1 <> Err SE_OutOfFuel.
Proof. apply (handlers_return). Defined.

Lemma chain_in_any_order_witness :
  batches (sp_sent (handle_event 10000 SV_Tick (run_events events2 start)).2) = chain2.
Proof.
  refine (proj1 (chain_in_any_order (C := Z * list bytes) SyncConfig_default chain2 events2 10000 _ _ _ _)).
  - by split.
  - apply chain2_ok.
  - intros data. assert (deliveries events2 = [raw2; raw1]) as -> by reflexivity.
    assert (chain2.*2 = [raw1; raw2]) as -> by reflexivity. rewrite !elem_of_cons, elem_of_nil. tauto.
  - repeat constructor; vm_compute; discriminate.
Defined.

(** What the two headers' run hands over. *)
Lemma events2_handed :
  let s := run_events events2 (init_from_stored_headers [] [] [] start) in
  batches (sp_sent s) ++ sp_pending_header_writes s =
  [(header_of raw1, raw1)] ++ (header_of raw2, raw2) :: [].
Proof. vm_compute. reflexivity. Qed.

Lemma headers_parents_first_witness :
  h_parent_id (header_of raw2) ∈ genesis_parent_id :: [] ++ ids_of [(header_of raw1, raw1)].
Proof.
  assert (deliveries events2 = [raw2; raw1]) as Hd by reflexivity.
  apply (headers_parents_first (C := Z * list bytes) (fun raw => raw ∈ chain2.*2) SyncConfig_default [] [] []
    events2 [(header_of raw1, raw1)] (header_of raw2) raw2 []).
  - by split.
  - apply chain_inj, chain2_ok.
  - rewrite Hd. assert (chain2.*2 = [raw1; raw2]) as -> by reflexivity.
    intros data. rewrite !elem_of_cons. tauto.
  - exact events2_handed.
Defined.
End Good.

(** A node whose buffer is one short of a batch. *)
Definition full : SyncProtocol (Z * list bytes) :=
  put_pending_header_writes (replicate 499 (header_of raw1, raw1)) start.

Section Bad.
#[local] Existing Instance bad_env.

#[local] Opaque on_header_received.

Lemma failed_batch_forgets_witness :
  (on_header_received 5 (blake2b256 raw1) raw1 full).1 = Err (SE_Internal "full").
Proof.
  assert (HEADER_BATCH_SIZE <= Z.of_nat (length (sp_pending_header_writes full)) + 1) as Hlen.
  { unfold full, HEADER_BATCH_SIZE. cbn [sp_pending_header_writes put_pending_header_writes].
    rewrite length_replicate. lia. }
  destruct (failed_batch_forgets 5 (blake2b256 raw1) raw1 (header_of raw1) full "full"
    6 (blake2b256 raw2) raw2 (header_of raw2)) as [He _].
  - vm_compute. reflexivity.
  - vm_compute. reflexivity.
  - vm_compute. reflexivity.
  - reflexivity.
  - exact Hlen.
  - reflexivity.
  - reflexivity.
  - vm_compute. reflexivity.
  - vm_compute. reflexivity.
  - vm_compute. discriminate.
  - vm_compute. reflexivity.
  - exact He.
Defined.

End Bad.

End RunExample.
