(* ===== verification/SyncSpec.v ===== *)
(** * The protocol, the synchroniser and the downloader together

    Every handler runs the downloader and the synchroniser through their own
    operations, so their invariants hold along every run of the protocol; the
    number of requests in flight stays within its bound, and a dispatch asks
    each peer for what it records as in flight with that peer. *)

From S2P Require Export SyncRuns SynchronizerSpec.

Local Open Scope Z_scope.

Section Spec.
Context {ErgoBox Ext Tx : Type} `{ErgoBoxOps ErgoBox} `{TransactionOps ErgoBox Ext Tx}
  `{ChainTypes} `{!HeaderCodec} `{Blake2b256} {C : Type} `{LruLaws C} `{!LruLen C}
  `{MapOrdersLaws} `{!SyncEnv} `{SectionLib}.

Abbreviation proto := (SyncProtocol C).
Abbreviation downloader := (BlockDownloader PeerId C).
Implicit Types (s : proto) (d : downloader).

(** ** The downloader along a run *)

Definition dl_ok d : Prop :=
  reachable DownloadConfig_default d /\ Z.of_nat (size (in_flight d)) <= PARALLEL_DOWNLOADS.

Lemma dl_step d d' :
  step d d' -> (size (in_flight d') <= size (in_flight d))%nat -> dl_ok d -> dl_ok d'.
Proof. intros Hs Hle [Hr Hb]. split; [by eapply reachable_step|lia]. Qed.

Lemma dl_inv d : dl_ok d -> inv DownloadConfig_default d.
Proof.
  intros [Hr _]. induction Hr as [|d d' _ IH Hs]; [apply inv_new|]. eapply inv_step; [|exact IH|exact Hs].
  cbn. lia.
Qed.

Lemma size_delete_le {A} (m : gmap bytes A) k : (size (delete k m) <= size m)%nat.
Proof. apply map_subseteq_size, delete_subseteq. Qed.

Lemma dl_complete d id : dl_ok d -> dl_ok (complete d id).
Proof. apply dl_step; [constructor|]. apply size_delete_le. Qed.
Lemma dl_uncomplete d id : dl_ok d -> dl_ok (uncomplete d id).
Proof. apply dl_step; [constructor|done]. Qed.
Lemma dl_clear d id : dl_ok d -> dl_ok (clear_failed_peers d id).
Proof.
  apply dl_step; [constructor|]. unfold clear_failed_peers. by destruct (pending d !! id).
Qed.
Lemma dl_fail d id peer : dl_ok d -> dl_ok (Downloader.fail d id peer).
Proof.
  apply dl_step; [constructor|]. unfold Downloader.fail.
  destruct (pending d !! id); [case_match|]; apply size_delete_le.
Qed.

Lemma queue_one_flight force d t : in_flight (queue_one force d t) = in_flight d.
Proof. unfold queue_one. by repeat case_match. Qed.

Lemma dl_queue d ids :
  dl_ok d -> dl_ok (queue d ((fun '(id, ty) => DownloadTask_new id ty) <$> ids)).
Proof.
  apply dl_step; [constructor|]. unfold queue, queue_inner. apply Nat.eq_le_incl. f_equal.
  generalize ((fun '(id, ty) => DownloadTask_new (PeerId := PeerId) id ty) <$> ids). clear.
  intros l. revert d. induction l as [|t l IH]; intros d; cbn; [done|].
  by rewrite IH, queue_one_flight.
Qed.

(** Dispatching the tasks handed out for a peer. *)
Lemma dispatch_all_reachable now d ts peer :
  reachable DownloadConfig_default d -> reachable DownloadConfig_default (dispatch_all now d ts peer).
Proof.
  unfold dispatch_all. revert d. induction ts as [|t ts IH]; intros d Hd; cbn; [done|].
  apply IH. eapply reachable_step; [exact Hd|constructor].
Qed.

Lemma ready_length count d peer :
  dl_ok d ->
  (Z.of_nat (length (get_ready_tasks_for_peer tasks_iter d count peer)) <= Z.max 0 count) /\
  Z.of_nat (size (in_flight d)) +
    Z.of_nat (length (get_ready_tasks_for_peer tasks_iter d count peer)) <= PARALLEL_DOWNLOADS.
Proof.
  intros Hd. pose proof (dl_inv _ Hd) as [Hc _]. destruct Hd as [_ Hb].
  unfold get_ready_tasks_for_peer, available. rewrite length_take, Hc.
  unfold sat_sub. cbn [max_parallel DownloadConfig_default]. lia.
Qed.

Lemma dl_dispatch now count d peer :
  dl_ok d -> dl_ok (dispatch_all now d (get_ready_tasks_for_peer tasks_iter d count peer) peer).
Proof.
  intros Hd. pose proof (ready_length count d peer Hd) as [_ Hl].
  pose proof (dispatch_all_size now d (get_ready_tasks_for_peer tasks_iter d count peer) peer).
  split; [apply dispatch_all_reachable, Hd|lia].
Qed.

(** ** The protocol along a run *)

Record proto_inv (config : SyncConfig) s : Prop := {
  pi_downloader : dl_ok (sp_downloader s);
  pi_sync : sync_reachable config (sp_synchronizer s);
  pi_missing : hc_missing_blocks (sp_header_chain s) = []
}.

Context (config : SyncConfig).
Abbreviation P := (proto_inv config).

Lemma pi_same s s' :
  sp_downloader s' = sp_downloader s -> sp_synchronizer s' = sp_synchronizer s ->
  sp_header_chain s' = sp_header_chain s -> P s -> P s'.
Proof. intros E1 E2 E3 [? ? ?]. constructor; by rewrite ?E1, ?E2, ?E3. Qed.

Lemma pi_update_downloader f s : (forall d, dl_ok d -> dl_ok (f d)) -> P s -> P (update_downloader f s).
Proof. intros Hf [? ? ?]. constructor; [by apply Hf|done|done]. Qed.

Lemma pi_update_sync f s : (forall y, sync_step y (f y)) -> P s -> P (update_synchronizer f s).
Proof. intros Hf [? ? ?]. constructor; [done| |done]. eapply sr_step; [done|apply Hf]. Qed.

Lemma pi_update_chain f s :
  (forall c, hc_missing_blocks c = [] -> hc_missing_blocks (f c) = []) -> P s -> P (update_chain f s).
Proof. intros Hf [? ? ?]. constructor; [done|done|by apply Hf]. Qed.

Lemma trim_headers_missing fuel c : hc_missing_blocks (trim_headers fuel c) = hc_missing_blocks c.
Proof.
  revert c. induction fuel as [|fuel IH]; intros c; cbn [trim_headers]; [done|].
  destruct (_ >? _); [|done]. destruct (hc_headers c); [done|]. by rewrite IH.
Qed.

Lemma add_header_missing h tx id c :
  hc_missing_blocks c = [] -> hc_missing_blocks (add_header h tx id c) = [].
Proof.
  intros Hc. unfold add_header, enforce_limits.
  assert (hc_missing_blocks (trim_headers (length (hc_headers (track_header h tx id c)))
    (track_header h tx id c)) = []) as E by (rewrite trim_headers_missing; exact Hc).
  rewrite E. cbn [length trim_missing]. exact E.
Qed.

Lemma pi_record now h raw s : P s -> P (record_header now h raw s).
Proof.
  intros Hs. unfold record_header. apply pi_update_sync; [constructor|].
  eapply pi_same; [| | |apply (pi_update_chain (add_header h (transactions_id_of h) (h_id h)))];
    [done|done|done|intros; by apply add_header_missing|].
  eapply pi_same; [| | |exact Hs]; done.
Qed.

Lemma pi_fold {A} (f : proto -> A -> proto) l s :
  (forall s x, P s -> P (f s x)) -> P s -> P (fold_left f l s).
Proof. apply preserves_fold. Qed.
End Spec.

(** Closes the goals [preserve] leaves for [proto_inv]. *)
#[export] Hint Resolve dl_complete dl_uncomplete dl_clear dl_fail dl_queue : ergo.
#[export] Hint Constructors sync_step : ergo.

Ltac pi :=
  first [ eapply pi_same; [ | | |eassumption]; reflexivity
        | apply pi_update_downloader; [solve [eauto with ergo]|eassumption]
        | apply pi_update_sync; [solve [eauto with ergo]|eassumption]
        | apply pi_update_chain; [done|eassumption] ].

Section Handlers.
Context {ErgoBox Ext Tx : Type} `{ErgoBoxOps ErgoBox} `{TransactionOps ErgoBox Ext Tx}
  `{ChainTypes} `{!HeaderCodec} `{Blake2b256} {C : Type} `{LruLaws C} `{!LruLen C}
  `{MapOrdersLaws} `{!SyncEnv} `{SectionLib}.

Abbreviation proto := (SyncProtocol C).
Implicit Types (s : proto).
Context (config : SyncConfig).
Abbreviation P := (proto_inv config).

Lemma pi_flush now : preserves P (flush_if_needed now).
Proof.
  intros s Hs. rewrite flush_eq. destruct (should_flush_headers now s); [|done].
  destruct (env_takes _ _); [|pi]. destruct (env_reply _); pi.
Qed.

Lemma pi_store fuel now h raw : preserves P (store_header_and_descendants fuel now h raw).
Proof.
  revert h raw. induction fuel as [|fuel IH]; intros h raw; cbn [store_header_and_descendants];
    [apply preserves_throw|].
  apply preserves_bind; [apply preserves_modify; intros; by apply pi_record|intros _].
  apply preserves_bind; [|intros _; apply pi_flush].
  unfold try_apply_pending_headers. apply preserves_bind; [apply preserves_get|intros s].
  apply preserves_for_each. intros [id ph] _.
  apply preserves_bind; [apply preserves_modify; intros; pi|intros _; apply IH].
Qed.

Lemma pi_header now id data : preserves P (on_header_received now id data).
Proof. unfold on_header_received. preserve; try apply pi_store; pi. Qed.

Lemma pi_block id data : preserves P (on_block_received id data).
Proof. unfold on_block_received. preserve; pi. Qed.

Lemma pi_modifier now peer ty id data : preserves P (on_modifier now peer ty id data).
Proof.
  unfold on_modifier, on_extension_received, on_transaction_received.
  preserve; try apply pi_header; try apply pi_block; pi.
Qed.

Lemma pi_dispatch_to_peer now peer : preserves P (dispatch_to_peer now peer).
Proof.
  intros s Hs. unfold dispatch_to_peer. rewrite bind_eq. cbn [get_proto].
  pose proof (dl_dispatch now MAX_BLOCKS_PER_PEER _ peer (pi_downloader _ _ Hs)) as Hd.
  fold (dispatch_all now (sp_downloader s)
    (get_ready_tasks_for_peer tasks_iter (sp_downloader s) MAX_BLOCKS_PER_PEER peer) peer).
  set (tasks := get_ready_tasks_for_peer _ _ _ _) in *. destruct tasks as [|t ts]; [done|].
  rewrite bind_eq. cbn [modify]. rewrite bind_eq. cbn [modify].
  match goal with |- P (for_each ?f ?l ?s1).2 => assert (P s1) as Hs1 end.
  { constructor; [exact Hd|apply Hs|apply Hs]. }
  revert Hs1. match goal with |- P ?s1 -> _ => generalize s1 end.
  match goal with |- forall s1, P s1 -> P (?m s1).2 => change (preserves P m) end.
  preserve; pi.
Qed.

Lemma pi_dispatch now : preserves P (dispatch_downloads now).
Proof.
  unfold dispatch_downloads. preserve; try apply pi_dispatch_to_peer.
  unfold clear_stuck. apply pi_fold; [intros; pi|done].
Qed.

Lemma pi_queue_tasks ids s : P s ->
  P (update_downloader (fun d => queue d ((fun '(id, ty) => DownloadTask_new id ty) <$> ids)) s).
Proof. intros Hs. apply pi_update_downloader; [intros; by apply dl_queue|done]. Qed.

Lemma pi_request_blocks now headers : preserves P (on_request_blocks now headers).
Proof.
  unfold on_request_blocks. preserve; try apply pi_dispatch.
  - apply pi_fold; [|done]. intros ? ? ?. case_decide; [done|pi].
  - set (hs := h :: headers) in *.
    assert ((hs ≫= fun header =>
      [DownloadTask_new (PeerId := PeerId) (transactions_id_of header) (to_byte MT_BlockTransactions);
       DownloadTask_new (extension_id_of header) (to_byte MT_Extension)]) =
      ((fun '(id, ty) => DownloadTask_new id ty) <$>
       (hs ≫= fun header => [(transactions_id_of header, to_byte MT_BlockTransactions);
                             (extension_id_of header, to_byte MT_Extension)]))) as ->.
    { generalize hs. intros l0. induction l0 as [|x l0 IH]; [done|].
      by rewrite !bind_cons, fmap_app, IH. }
    by apply pi_queue_tasks.
Qed.

(** Nothing is ever added to [missing_blocks], so nothing is queued from it. *)
Lemma queue_block_downloads_nothing s : P s -> queue_block_downloads s = s.
Proof.
  intros Hs. unfold queue_block_downloads. rewrite (pi_missing _ _ Hs).
  destruct (_ && _); [done|]. destruct (_ >=? _); [done|]. rewrite drop_nil, take_nil.
  destruct s as [sy dl ob hc ? ? ? ? ? ? ? ? ? ? ?]. destruct Hs as [_ _ Hm]. cbn in Hm.
  unfold update_chain, put_header_chain. cbn. f_equal. destruct hc; cbn in *. by subst.
Qed.

Lemma pi_tick now : preserves P (on_tick now).
Proof.
  unfold on_tick, request_more_headers_if_needed, send_periodic_sync_info, request_pending_inv.
  preserve; try apply pi_flush; try apply pi_dispatch; try pi.
  - unfold fail_timed_out. apply pi_fold; [intros ? ? ?; case_match; [|done]|].
    + apply pi_update_sync; [eauto with ergo|]. pi.
    + apply pi_fold; [intros ? [] ?; pi|done].
  - unfold requeue_timed_out_headers. apply pi_fold; [|done]. intros ? ? ?. unfold requeue_header. pi.
  - by rewrite queue_block_downloads_nothing.
  - unfold clear_stuck_headers. destruct (_ && _); [|done]. destruct (hc_headers _); [pi|done].
Qed.

Lemma pi_event now e : preserves P (handle_event now e).
Proof.
  destruct e; cbn [handle_event].
  - unfold on_peer_connected. preserve; pi.
  - apply preserves_modify. intros s Hs. unfold on_peer_disconnected.
    apply pi_fold; [intros; pi|]. apply pi_update_sync; [eauto with ergo|]. pi.
  - unfold on_sync_info. preserve; pi.
  - unfold on_inv. preserve; pi.
  - apply pi_modifier.
  - apply preserves_modify. intros s Hs. unfold on_block_applied, sync_set_height.
    apply pi_update_downloader; [eauto with ergo|]. apply pi_update_chain; [done|].
    destruct (get_tx_id _ _); [apply pi_update_downloader; [eauto with ergo|]|];
      apply pi_update_sync; eauto with ergo.
  - apply preserves_modify. intros s Hs. unfold on_block_failed.
    destruct (get_tx_id _ _); [apply pi_update_downloader; [eauto with ergo|]|]; pi.
  - apply pi_request_blocks.
  - apply pi_tick.
Qed.

Lemma pi_start : P (SyncProtocol_new config).
Proof.
  constructor; [|apply sr_new|done]. split; [apply reachable_new|]. cbn. rewrite map_size_empty.
  unfold PARALLEL_DOWNLOADS. lia.
Qed.

Lemma pi_run events s : P s -> P (run_events events s).
Proof.
  unfold run_events. apply preserves_fold. intros s' [now e]. apply pi_event.
Qed.
End Handlers.

(** ** What a dispatch asks for *)

Section Dispatch.
Context {ErgoBox Ext Tx : Type} `{ErgoBoxOps ErgoBox} `{TransactionOps ErgoBox Ext Tx}
  `{ChainTypes} `{!HeaderCodec} `{Blake2b256} {C : Type} `{LruLaws C} `{!LruLen C}
  `{MapOrdersLaws} `{!SyncEnv} `{SectionLib}.

Abbreviation proto := (SyncProtocol C).
Implicit Types (s : proto) (ts : list (DownloadTask PeerId)).

Lemma group_by_type_spec ts ty ids :
  group_by_type ts !! ty = Some ids ->
  ids <> [] /\ (length ids <= length ts)%nat /\
  (forall id, id ∈ ids -> exists t, t ∈ ts /\ task_id t = id /\ task_type_id t = ty).
Proof.
  unfold group_by_type. revert ids. induction ts as [|t ts IH] using rev_ind; intros ids.
  - cbn. by rewrite lookup_empty.
  - rewrite fold_left_app. cbn [fold_left]. rewrite length_app. cbn [length].
    set (m := fold_left _ ts ∅) in *. intros [[<- <-]|[_ Hl]]%lookup_insert_Some.
    + split; [by destruct (default _ _)|].
      destruct (m !! task_type_id t) as [ids|]; cbn [default] in *.
      * destruct (IH ids eq_refl) as (_ & Hlen & Hin). rewrite length_app. split; [cbn; lia|].
        intros id [Hi| ->%list_elem_of_singleton]%elem_of_app.
        -- destruct (Hin id Hi) as (t' & ? & ? & ?). exists t'. rewrite elem_of_app. auto.
        -- exists t. rewrite elem_of_app, list_elem_of_singleton. auto.
      * split; [cbn; lia|]. intros id ->%list_elem_of_singleton. exists t.
        rewrite elem_of_app, list_elem_of_singleton. auto.
    + destruct (IH ids Hl) as (Hn & Hlen & Hin). split; [done|]. split; [lia|].
      intros id Hi. destruct (Hin id Hi) as (t' & ? & ? & ?). exists t'. rewrite elem_of_app. auto.
Qed.

(** A request of a dispatch: for at most 32 of the peer's identifiers in
    flight. *)
Definition request_ok (flight : gmap bytes PeerId) (cmd : SyncCommand) : Prop :=
  exists peer req, cmd = SC_SendToPeer peer (M_RequestModifier req) /\
    mr_ids req <> [] /\ Z.of_nat (length (mr_ids req)) <= MAX_BLOCKS_PER_PEER /\
    forall id, id ∈ mr_ids req -> flight !! id = Some peer.

Definition extends (m m' : gmap bytes PeerId) : Prop := m ⊆ m'.

Lemma request_ok_mono m m' cmd : m ⊆ m' -> request_ok m cmd -> request_ok m' cmd.
Proof.
  intros Hm (peer & req & -> & Hn & Hl & Hf). exists peer, req. do 3 (split; [done|]).
  intros id Hi. eapply lookup_weaken; [by apply Hf|done].
Qed.

(** A handler that only sends such requests, and to peers in [to]. *)
Definition requests_from (to : PeerId -> Prop) s s' : Prop :=
  in_flight (sp_downloader s) ⊆ in_flight (sp_downloader s') /\
  exists new, sp_sent s' = sp_sent s ++ new /\
    Forall (fun cmd => request_ok (in_flight (sp_downloader s')) cmd /\
              exists peer m, cmd = SC_SendToPeer peer m /\ to peer) new.

Lemma requests_trans to s1 s2 s3 :
  requests_from to s1 s2 -> requests_from to s2 s3 -> requests_from to s1 s3.
Proof.
  intros (Hf1 & n1 & E1 & Hn1) (Hf2 & n2 & E2 & Hn2). split; [by etrans|].
  exists (n1 ++ n2). split; [by rewrite E2, E1, app_assoc|]. apply Forall_app. split; [|done].
  eapply Forall_impl; [exact Hn1|]. intros cmd [Hr Ht]. split; [|done]. by eapply request_ok_mono.
Qed.

Lemma requests_same (to : PeerId -> Prop) s s' :
  in_flight (sp_downloader s') = in_flight (sp_downloader s) -> sp_sent s' = sp_sent s ->
  requests_from to s s'.
Proof.
  intros E1 E2. split; [by rewrite E1|]. exists []. rewrite E2, app_nil_r. split; [done|constructor].
Qed.

(** Tasks handed out are not in flight, so recording them keeps what is. *)
Lemma dispatch_extends (now : Z) (d : BlockDownloader PeerId C) ts (peer : PeerId) :
  (forall t, t ∈ ts -> in_flight d !! task_id t = None) ->
  in_flight d ⊆ in_flight (dispatch_all now d ts peer).
Proof.
  intros Hts. apply map_subseteq_spec. intros id p Hp. unfold dispatch_all.
  assert (forall ts d, (forall t, t ∈ ts -> task_id t <> id) -> in_flight d !! id = Some p ->
    in_flight (fold_left (fun (d : BlockDownloader PeerId C) t => dispatch now d (task_id t) peer) ts d) !! id = Some p) as Hgen.
  { clear. intros ts. induction ts as [|t ts IH]; intros d Hne Hd; cbn [fold_left]; [done|].
    apply IH; [intros; apply Hne; by apply list_elem_of_further|]. unfold dispatch. cbn [in_flight].
    rewrite lookup_insert_ne; [done|]. apply Hne, list_elem_of_here. }
  apply Hgen; [|done]. intros t Ht <-. rewrite (Hts t Ht) in Hp. done.
Qed.

Lemma ready_not_in_flight (d : BlockDownloader PeerId C) (count : Z) (peer : PeerId) t :
  dl_ok d -> t ∈ get_ready_tasks_for_peer tasks_iter d count peer -> in_flight d !! task_id t = None.
Proof.
  intros Hd (i & Hl & _)%elem_of_take. apply list_elem_of_lookup_2 in Hl.
  apply list_elem_of_filter in Hl as [[Hp _] Hl].
  apply list_elem_of_fmap in Hl as ([id t'] & -> & Hl). cbn in *.
  rewrite tasks_iter_perm, elem_of_map_to_list in Hl.
  destruct (proj2 (dl_inv _ Hd) id t' Hl) as (-> & Hpeer & _). congruence.
Qed.

Lemma for_each_requests {A} (P : proto -> Prop) (to : PeerId -> Prop) (f : A -> M C unit) l s :
  (forall x, x ∈ l -> preserves P (f x)) ->
  (forall x s, x ∈ l -> P s -> requests_from to s (f x s).2) -> P s ->
  requests_from to s (for_each f l s).2.
Proof.
  intros Hp Hf. revert s. induction l as [|x l IH]; intros s Hs; cbn [for_each]; [by apply requests_same|].
  rewrite bind_eq. pose proof (Hf x s (list_elem_of_here _ _) Hs) as Hr.
  pose proof (Hp x (list_elem_of_here _ _) s Hs) as Hs'.
  destruct (f x s) as [[a|e] s']; cbn in Hr, Hs'; [|done].
  eapply requests_trans; [exact Hr|]. apply IH; [| |done]; intros; (apply Hp || apply Hf); auto;
    by apply list_elem_of_further.
Qed.

Context (config : SyncConfig).

Lemma dispatch_to_peer_requests now peer (to : PeerId -> Prop) s :
  to peer -> proto_inv config s -> requests_from to s (dispatch_to_peer now peer s).2.
Proof.
  intros Hto Hs. unfold dispatch_to_peer. rewrite bind_eq. cbn [get_proto].
  set (d := sp_downloader s).
  pose proof (ready_length MAX_BLOCKS_PER_PEER d peer (pi_downloader _ _ Hs)) as [Hlen _].
  pose proof (fun t => ready_not_in_flight d MAX_BLOCKS_PER_PEER peer t (pi_downloader _ _ Hs)) as Hnone.
  set (ts := get_ready_tasks_for_peer tasks_iter d MAX_BLOCKS_PER_PEER peer) in *.
  clearbody ts. destruct ts as [|t0 ts]; [by apply requests_same|].
  set (all := t0 :: ts) in *. clearbody all. clear ts. rename all into ts.
  rewrite bind_eq. cbn [modify]. rewrite bind_eq. cbn [modify].
  set (s1 := update_peer _ _ _).
  assert (sp_downloader s1 = dispatch_all now d ts peer) as Ed by done.
  assert (sp_sent s1 = sp_sent s) as Es by done. clearbody s1.
  apply (requests_trans _ _ s1).
  { split; [rewrite Ed; by apply dispatch_extends|]. exists []. rewrite Es, app_nil_r.
    split; [done|constructor]. }
  apply (for_each_requests (fun s' => sp_downloader s' = sp_downloader s1)); [| |done].
  - intros [ty ids] _. apply preserves_send. done.
  - intros [ty ids] s2 Hin Hs2. unfold send_to_peer, send_command.
    destruct (env_takes _ _); [|by apply requests_same]. split; [done|].
    eexists. split; [reflexivity|]. apply Forall_singleton.
    rewrite types_iter_perm, elem_of_map_to_list in Hin.
    destruct (group_by_type_spec _ _ _ Hin) as (Hn & Hle & Hids). split; [|eauto].
    exists peer, (mkModifierRequest ty ids). split; [done|]. split; [done|].
    split; [cbn [mr_ids]; unfold MAX_BLOCKS_PER_PEER in *; lia|].
    intros id Hid. change (in_flight (sp_downloader s2) !! id = Some peer).
    rewrite Hs2, Ed. apply dispatch_all_in. right. destruct (Hids id Hid) as (t' & Ht' & <- & _).
    by apply list_elem_of_fmap_2.
Qed.

Lemma dispatch_requests now s :
  proto_inv config s ->
  requests_from (fun peer => exists p, sp_sync_peers s !! peer = Some p /\ can_send_request now p = true)
    s (dispatch_downloads now s).2.
Proof.
  intros Hs. unfold dispatch_downloads. rewrite bind_eq. cbn [get_proto].
  destruct (_ >=? _); [by apply requests_same|].
  destruct (available_peers now s) as [|p0 ps] eqn:Eav; [by apply requests_same|]. rewrite <- Eav.
  rewrite bind_eq. cbn [modify].
  assert (forall l s', in_flight (sp_downloader (fold_left (fun s id =>
      update_downloader (fun d => clear_failed_peers d id) s) l s' : proto)) = in_flight (sp_downloader s') /\
    sp_sent (fold_left (fun s id => update_downloader (fun d => clear_failed_peers d id) s) l s') = sp_sent s')
    as Hclear.
  { intros l. induction l as [|x l IH]; intros s'; [done|]. cbn [fold_left].
    destruct (IH (update_downloader (fun d => clear_failed_peers d x) s')) as [-> ->]. split; [|done].
    cbn. unfold clear_failed_peers. by destruct (pending _ !! x). }
  eapply requests_trans; [apply requests_same; apply Hclear|].
  apply (for_each_requests (proto_inv config)).
  - intros peer _. apply pi_dispatch_to_peer.
  - intros peer s' (i & Hl & _)%elem_of_take Hs'. apply dispatch_to_peer_requests; [|done].
    apply list_elem_of_lookup_2 in Hl. unfold available_peers in Hl.
    apply list_elem_of_fmap in Hl as ([peer' p] & -> & Hl). apply list_elem_of_filter in Hl as [Hc Hl].
    rewrite peers_iter_perm, elem_of_map_to_list in Hl. by exists p.
  - unfold clear_stuck. apply preserves_fold; [|done]. intros. pi.
Qed.
End Dispatch.

(** * Properties *)

Section Properties.
Context {ErgoBox Ext Tx : Type} `{ErgoBoxOps ErgoBox} `{TransactionOps ErgoBox Ext Tx}
  `{ChainTypes} `{!HeaderCodec} `{Blake2b256} {C : Type} `{LruLaws C} `{!LruLen C}
  `{MapOrdersLaws} `{!SyncEnv} `{SectionLib}.

(** C10: after any events, whatever the channel and the storage answer: at most
    512 requests are in flight; a pending download is assigned exactly to the
    peer its request is in flight with; the node is synchronised only when no
    known peer reported a greater height; and no block ever waits in
    [missing_blocks], so the tick never queues a block download. *)
Theorem protocol_invariant config events :
  let s : SyncProtocol C := run_events events (SyncProtocol_new config) in
  Z.of_nat (size (in_flight (sp_downloader s))) <= 512 /\
  (forall id t, pending (sp_downloader s) !! id = Some t -> task_peer t = in_flight (sp_downloader s) !! id) /\
  (sy_state (sp_synchronizer s) = Synchronized ->
     forall p h, sy_peer_heights (sp_synchronizer s) !! p = Some h -> h <= sy_our_height (sp_synchronizer s)) /\
  hc_missing_blocks (sp_header_chain s) = [] /\ queue_block_downloads s = s.
Proof.
  intros s. pose proof (pi_run config events _ (pi_start config)) as Hs. fold s in Hs.
  split; [apply Hs|]. split.
  { intros id t Ht. by apply (proj2 (dl_inv _ (pi_downloader _ _ Hs)) id t Ht). }
  split; [apply (si_not_behind _ _ (sync_inv_reachable _ _ (pi_sync _ _ Hs)))|].
  split; [apply Hs|]. by eapply queue_block_downloads_nothing.
Qed.

(** from any state a run reaches, a dispatch only sends requests, to peers
    that were not asked within the last 100 ms, each for at least one and at
    most 32 identifiers, all of them in flight with that peer afterwards; what
    was in flight stays so, and no more than 512 requests are. *)
Theorem dispatch_requests_recorded config events now :
  let s : SyncProtocol C := run_events events (SyncProtocol_new config) in
  let s' := (dispatch_downloads now s).2 in
  in_flight (sp_downloader s) ⊆ in_flight (sp_downloader s') /\
  Z.of_nat (size (in_flight (sp_downloader s'))) <= 512 /\
  exists new, sp_sent s' = sp_sent s ++ new /\
    forall cmd, cmd ∈ new -> exists peer p req,
      cmd = SC_SendToPeer peer (M_RequestModifier req) /\
      sp_sync_peers s !! peer = Some p /\ MIN_REQUEST_INTERVAL <= elapsed now (ps_last_request_sent p) /\
      (1 <= length (mr_ids req) <= 32)%nat /\
      forall id, id ∈ mr_ids req -> in_flight (sp_downloader s') !! id = Some peer.
Proof.
  intros s s'. pose proof (pi_run config events _ (pi_start config)) as Hs. fold s in Hs.
  destruct (dispatch_requests config now s Hs) as (Hf & new & Hsent & Hnew). fold s' in Hf, Hsent, Hnew.
  split; [done|]. split; [apply (pi_downloader _ _ (pi_dispatch config now s Hs))|].
  exists new. split; [done|]. intros cmd Hc. rewrite Forall_forall in Hnew.
  destruct (Hnew cmd Hc) as [(peer & req & -> & Hn & Hl & Hin) (peer' & m & [= <- _] & p & Hp & Hcan)].
  exists peer, p, req. split; [done|]. split; [done|]. split.
  { unfold can_send_request in Hcan. apply Z.geb_le in Hcan. lia. }
  split; [|done]. unfold MAX_BLOCKS_PER_PEER in Hl. destruct (mr_ids req); [done|cbn [length] in *; lia].
Qed.
End Properties.

Module SpecExample.
Import RunExample.

(** A peer, two headers asked for, and their downloads. *)
Definition events3 : list (Z * SyncEvent) :=
  [(10, SV_PeerConnected [7]); (20, SV_RequestBlocks [header_of raw1; header_of raw2])].

Section Good.
#[local] Existing Instance good_env.

Lemma protocol_invariant_witness :
  queue_block_downloads (run_events events3 start) = run_events events3 start.
Proof. apply (protocol_invariant SyncConfig_default events3). Defined.

Lemma dispatch_requests_recorded_witness :
  in_flight (sp_downloader (run_events events3 start)) ⊆
  in_flight (sp_downloader (dispatch_downloads 500 (run_events events3 start)).2).
Proof. apply (dispatch_requests_recorded SyncConfig_default events3 500). Defined.

(** The sections were requested from the peer at once; the toy hash gives the
    two of a header one identifier. *)
Example events3_in_flight : size (in_flight (sp_downloader (run_events events3 start))) = 2%nat.
Proof. vm_compute. reflexivity. Qed.
End Good.
End SpecExample.
