(* ===== verification/IndexCodec.v ===== *)
(** * Records of the extra indexer (crates/ergo-storage/src/indexer)

    [balance.rs], [state.rs], [indexed_box.rs], [indexed_transaction.rs],
    [indexed_address.rs] and [indexed_token.rs]: the records, their updates and
    their byte formats, with the round trip of each format.  The parsers index
    their input directly, so an input that ends early is a panic. *)

From S2P Require Export Utf8.

Local Open Scope Z_scope.

Inductive IndexError :=
  | IndexTooShort
  | IndexPanic
  | IndexDeadlock.

(** ** Reading at a position *)

Definition Reader (A : Type) : Type := bytes -> nat -> result (A * nat) IndexError.

#[export] Instance Reader_ret : MRet Reader := fun _ a _ pos => Ok (a, pos).
#[export] Instance Reader_bind : MBind Reader := fun _ _ f r data pos =>
  match r data pos with Ok (a, pos') => f a data pos' | Err e => Err e end.

(** [data[pos..pos + n]] followed by [pos += n]. *)
Definition read_n (n : nat) : Reader bytes := fun data pos =>
  if (length data <? pos + n)%nat then Err IndexPanic
  else Ok (slice pos (pos + n) data, (pos + n)%nat).
Definition read_uint (n : nat) : Reader Z := bs ← read_n n; mret (be_val bs).
Definition read_i64 : Reader Z := z ← read_uint 8; mret (i64 z).

Fixpoint read_many {A} (r : Reader A) (n : nat) : Reader (list A) :=
  match n with
  | O => mret []
  | S n' => x ← r; xs ← read_many r n'; mret (x :: xs)
  end.

(** A count of [k] bytes and that many items. *)
Definition read_counted {A} (k : nat) (r : Reader A) : Reader (list A) :=
  n ← read_uint k; read_many r (Z.to_nat n).

(** A flag byte, 1 when the value follows. *)
Definition read_option {A} (r : Reader A) : Reader (option A) :=
  flag ← read_uint 1; if flag =? 1 then x ← r; mret (Some x) else mret None.

(** A string behind a 16-bit length; zero stands for no string. *)
Definition read_string : Reader (option bytes) :=
  n ← read_uint 2;
  if 0 <? n then s ← read_n (Z.to_nat n); mret (Some (from_utf8_lossy s)) else mret None.

Definition read_token : Reader (bytes * Z) := id ← read_n 32; amount ← read_uint 8; mret (id, amount).

(** Parsing from the start; bytes after the record are ignored. *)
Definition run_reader {A} (r : Reader A) (data : bytes) : result A IndexError :=
  match r data 0%nat with Ok (a, _) => Ok a | Err e => Err e end.

Definition put_option {A} (f : A -> bytes) (o : option A) : bytes :=
  match o with Some a => 1 :: f a | None => [0] end.
Definition put_string (o : option bytes) : bytes :=
  match o with
  | Some s => be_bytes 2 (u16 (Z.of_nat (length s))) ++ s
  | None => be_bytes 2 0
  end.
(** [(v.len() as uN).to_be_bytes()] and the items. *)
Definition put_counted {A} (k : nat) (f : A -> bytes) (l : list A) : bytes :=
  be_bytes k (Z.of_nat (length l)) ++ concat (f <$> l).
Definition put_token (t : bytes * Z) : bytes := t.1 ++ be_bytes 8 t.2.

(** ** [BalanceInfo] *)

Record BalanceInfo := mkBalanceInfo { nano_ergs : Z; bal_tokens : gmap bytes Z }.

Definition BalanceInfo_new : BalanceInfo := mkBalanceInfo 0 ∅.

(** [*entry += amount as i64], from zero when the entry is absent. *)
Definition token_add (m : gmap bytes Z) (t : bytes * Z) : gmap bytes Z :=
  <[t.1 := i64 (default 0 (m !! t.1) + i64 t.2)]> m.
Definition token_subtract (m : gmap bytes Z) (t : bytes * Z) : gmap bytes Z :=
  let v := i64 (default 0 (m !! t.1) - i64 t.2) in
  if v =? 0 then delete t.1 m else <[t.1 := v]> m.

Definition balance_add (b : BalanceInfo) (value : Z) (tokens : list (bytes * Z)) : BalanceInfo :=
  mkBalanceInfo (i64 (nano_ergs b + i64 value)) (foldl token_add (bal_tokens b) tokens).
Definition balance_subtract (b : BalanceInfo) (value : Z) (tokens : list (bytes * Z)) : BalanceInfo :=
  mkBalanceInfo (i64 (nano_ergs b - i64 value)) (foldl token_subtract (bal_tokens b) tokens).

Definition balance_serialize `{HashOrder} (b : BalanceInfo) : bytes :=
  be_bytes 8 (nano_ergs b)
  ++ be_bytes 4 (Z.of_nat (size (bal_tokens b)))
  ++ concat (put_token <$> hash_iter Z (bal_tokens b)).

Definition balance_deserialize (data : bytes) : result BalanceInfo IndexError :=
  if (length data <? 12)%nat then Err IndexTooShort else
  let nano_ergs := i64 (be_val (slice 0 8 data)) in
  let token_count := Z.to_nat (be_val (slice 8 12 data)) in
  let expected_len := (12 + token_count * 40)%nat in
  if (length data <? expected_len)%nat then Err IndexTooShort else
  match read_many (id ← read_n 32; amount ← read_i64; mret (id, amount)) token_count data 12%nat with
  | Ok (items, _) =>
      Ok (mkBalanceInfo nano_ergs (foldl (fun m '(id, amount) => <[id := amount]> m) ∅ items))
  | Err e => Err e
  end.

(** ** [IndexerState] *)

Record IndexerState := mkIndexerState {
  indexed_height : Z; global_box_index : Z; global_tx_index : Z }.

Definition IndexerState_default : IndexerState := mkIndexerState 0 0 0.

Definition state_serialize (s : IndexerState) : bytes :=
  be_bytes 4 (indexed_height s) ++ be_bytes 8 (global_box_index s) ++ be_bytes 8 (global_tx_index s).
Definition state_deserialize (data : bytes) : result IndexerState IndexError :=
  if (length data <? 20)%nat then Err IndexTooShort
  else Ok (mkIndexerState (be_val (slice 0 4 data)) (be_val (slice 4 12 data)) (be_val (slice 12 20 data))).

(** ** [IndexedErgoBox] *)

Record IndexedErgoBox := mkIndexedErgoBox {
  ieb_box_id : bytes; inclusion_height : Z; spending_tx_id : option bytes;
  spending_height : option Z; ieb_global_index : Z; box_bytes : bytes; ieb_value : Z;
  ergo_tree_hash : bytes; ieb_tokens : list (bytes * Z) }.

Definition IndexedErgoBox_new (box_id : bytes) (inclusion_height global_index : Z)
    (box_bytes : bytes) (value : Z) (ergo_tree_hash : bytes) (tokens : list (bytes * Z))
    : IndexedErgoBox :=
  mkIndexedErgoBox box_id inclusion_height None None global_index box_bytes value ergo_tree_hash tokens.

Definition mark_spent (b : IndexedErgoBox) (tx_id : bytes) (height : Z) : IndexedErgoBox :=
  mkIndexedErgoBox (ieb_box_id b) (inclusion_height b) (Some tx_id) (Some height)
    (ieb_global_index b) (box_bytes b) (ieb_value b) (ergo_tree_hash b) (ieb_tokens b).
Definition is_spent (b : IndexedErgoBox) : bool :=
  match spending_tx_id b with Some _ => true | None => false end.

Definition box_record_serialize (b : IndexedErgoBox) : bytes :=
  ieb_box_id b ++ be_bytes 4 (inclusion_height b)
  ++ put_option id (spending_tx_id b) ++ put_option (be_bytes 4) (spending_height b)
  ++ be_bytes 8 (ieb_global_index b) ++ be_bytes 8 (ieb_value b) ++ ergo_tree_hash b
  ++ put_counted 4 put_token (ieb_tokens b)
  ++ be_bytes 4 (Z.of_nat (length (box_bytes b))) ++ box_bytes b.

Definition read_box_record : Reader IndexedErgoBox :=
  box_id ← read_n 32;
  inclusion_height ← read_uint 4;
  spending_tx_id ← read_option (read_n 32);
  spending_height ← read_option (read_uint 4);
  global_index ← read_uint 8;
  value ← read_uint 8;
  ergo_tree_hash ← read_n 32;
  tokens ← read_counted 4 read_token;
  len ← read_uint 4;
  box_bytes ← read_n (Z.to_nat len);
  mret (mkIndexedErgoBox box_id inclusion_height spending_tx_id spending_height global_index
          box_bytes value ergo_tree_hash tokens).

Definition box_record_deserialize (data : bytes) : result IndexedErgoBox IndexError :=
  if (length data <? 32 + 4 + 1)%nat then Err IndexTooShort else run_reader read_box_record data.

(** ** [IndexedErgoTransaction] *)

Record IndexedErgoTransaction := mkIndexedErgoTransaction {
  itx_tx_id : bytes; itx_tx_index : Z; itx_height : Z; itx_size : Z; itx_global_index : Z;
  input_indexes : list Z; output_indexes : list Z; itx_data_inputs : list bytes }.

Definition tx_record_serialize (t : IndexedErgoTransaction) : bytes :=
  itx_tx_id t ++ be_bytes 2 (itx_tx_index t) ++ be_bytes 4 (itx_height t)
  ++ be_bytes 4 (itx_size t) ++ be_bytes 8 (itx_global_index t)
  ++ put_counted 2 (be_bytes 8) (input_indexes t)
  ++ put_counted 2 (be_bytes 8) (output_indexes t)
  ++ put_counted 2 id (itx_data_inputs t).

Definition read_tx_record : Reader IndexedErgoTransaction :=
  tx_id ← read_n 32;
  tx_index ← read_uint 2;
  height ← read_uint 4;
  size ← read_uint 4;
  global_index ← read_uint 8;
  inputs ← read_counted 2 (read_uint 8);
  outputs ← read_counted 2 (read_uint 8);
  data_inputs ← read_counted 2 (read_n 32);
  mret (mkIndexedErgoTransaction tx_id tx_index height size global_index inputs outputs data_inputs).

Definition tx_record_deserialize (data : bytes) : result IndexedErgoTransaction IndexError :=
  if (length data <? 32 + 2 + 4 + 4 + 8 + 2 + 2 + 2)%nat then Err IndexTooShort
  else run_reader read_tx_record data.

(** ** [IndexedErgoAddress] *)

Record IndexedErgoAddress := mkIndexedErgoAddress {
  tree_hash : bytes; tx_indexes : list Z; ia_box_indexes : list Z; balance : BalanceInfo }.

Definition IndexedErgoAddress_new (tree_hash : bytes) : IndexedErgoAddress :=
  mkIndexedErgoAddress tree_hash [] [] BalanceInfo_new.

(** [add_tx]: not repeated when it is the last entry. *)
Definition address_add_tx (a : IndexedErgoAddress) (global_tx_index : Z) : IndexedErgoAddress :=
  if decide (last (tx_indexes a) = Some global_tx_index) then a
  else mkIndexedErgoAddress (tree_hash a) (tx_indexes a ++ [global_tx_index]) (ia_box_indexes a) (balance a).

Definition address_add_box (a : IndexedErgoAddress) (global_box_index value : Z)
    (tokens : list (bytes * Z)) : IndexedErgoAddress :=
  mkIndexedErgoAddress (tree_hash a) (tx_indexes a) (ia_box_indexes a ++ [i64 global_box_index])
    (balance_add (balance a) value tokens).

(** The loop that negates the first entry equal to the index. *)
Fixpoint negate_index (l : list Z) (global_box_index : Z) : list Z :=
  match l with
  | [] => []
  | idx :: l' => if idx =? i64 global_box_index then i64 (- idx) :: l' else idx :: negate_index l' global_box_index
  end.

Definition address_spend_box (a : IndexedErgoAddress) (global_box_index value : Z)
    (tokens : list (bytes * Z)) : IndexedErgoAddress :=
  mkIndexedErgoAddress (tree_hash a) (tx_indexes a) (negate_index (ia_box_indexes a) global_box_index)
    (balance_subtract (balance a) value tokens).

Definition tx_count (a : IndexedErgoAddress) : nat := length (tx_indexes a).
Definition address_box_count (a : IndexedErgoAddress) : nat := length (ia_box_indexes a).
Definition address_unspent_count (a : IndexedErgoAddress) : nat :=
  length (filter (fun idx => 0 < idx) (ia_box_indexes a)).
Definition unspent_boxes (a : IndexedErgoAddress) : list Z :=
  u64 <$> filter (fun idx => 0 < idx) (ia_box_indexes a).

Definition address_serialize `{HashOrder} (a : IndexedErgoAddress) : bytes :=
  let balance_bytes := balance_serialize (balance a) in
  tree_hash a ++ be_bytes 4 (Z.of_nat (length balance_bytes)) ++ balance_bytes
  ++ put_counted 4 (be_bytes 8) (tx_indexes a) ++ put_counted 4 (be_bytes 8) (ia_box_indexes a).

(** [BalanceInfo::deserialize(&data[pos..pos + balance_len])?]. *)
Definition read_balance (balance_len : nat) : Reader BalanceInfo := fun data pos =>
  match read_n balance_len data pos with
  | Ok (bs, pos') => let? b := balance_deserialize bs in Ok (b, pos')
  | Err e => Err e
  end.

Definition read_address : Reader IndexedErgoAddress :=
  tree_hash ← read_n 32;
  balance_len ← read_uint 4;
  balance ← read_balance (Z.to_nat balance_len);
  tx_indexes ← read_counted 4 (read_uint 8);
  box_indexes ← read_counted 4 read_i64;
  mret (mkIndexedErgoAddress tree_hash tx_indexes box_indexes balance).

Definition address_deserialize (data : bytes) : result IndexedErgoAddress IndexError :=
  if (length data <? 32 + 4)%nat then Err IndexTooShort else run_reader read_address data.

(** ** [IndexedToken] *)

Record IndexedToken := mkIndexedToken {
  it_token_id : bytes; creation_box_id : option bytes; it_amount : option Z;
  it_name : option bytes; it_description : option bytes; it_decimals : option Z;
  it_box_indexes : list Z }.

Definition IndexedToken_new (token_id : bytes) : IndexedToken :=
  mkIndexedToken token_id None None None None None [].

Definition with_creation_info (token_id creation_box_id : bytes) (amount : Z)
    (name description : bytes) (decimals : Z) : IndexedToken :=
  mkIndexedToken token_id (Some creation_box_id) (Some amount) (Some name) (Some description)
    (Some decimals) [].

Definition token_add_box (t : IndexedToken) (global_box_index : Z) : IndexedToken :=
  mkIndexedToken (it_token_id t) (creation_box_id t) (it_amount t) (it_name t) (it_description t)
    (it_decimals t) (it_box_indexes t ++ [i64 global_box_index]).
Definition token_spend_box (t : IndexedToken) (global_box_index : Z) : IndexedToken :=
  mkIndexedToken (it_token_id t) (creation_box_id t) (it_amount t) (it_name t) (it_description t)
    (it_decimals t) (negate_index (it_box_indexes t) global_box_index).
Definition add_emission (t : IndexedToken) (additional : Z) : IndexedToken :=
  mkIndexedToken (it_token_id t) (creation_box_id t)
    (Some (u64 (default 0 (it_amount t) + additional))) (it_name t) (it_description t)
    (it_decimals t) (it_box_indexes t).
Definition token_box_count (t : IndexedToken) : nat := length (it_box_indexes t).
Definition token_unspent_count (t : IndexedToken) : nat :=
  length (filter (fun idx => 0 < idx) (it_box_indexes t)).

Definition token_serialize (t : IndexedToken) : bytes :=
  it_token_id t ++ put_option id (creation_box_id t) ++ put_option (be_bytes 8) (it_amount t)
  ++ put_string (it_name t) ++ put_string (it_description t)
  ++ put_option (be_bytes 1) (it_decimals t)
  ++ put_counted 4 (be_bytes 8) (it_box_indexes t).

Definition read_token_record : Reader IndexedToken :=
  token_id ← read_n 32;
  creation_box_id ← read_option (read_n 32);
  amount ← read_option (read_uint 8);
  name ← read_string;
  description ← read_string;
  decimals ← read_option (read_uint 1);
  box_indexes ← read_counted 4 read_i64;
  mret (mkIndexedToken token_id creation_box_id amount name description decimals box_indexes).

Definition token_deserialize (data : bytes) : result IndexedToken IndexError :=
  if (length data <? 32 + 1)%nat then Err IndexTooShort else run_reader read_token_record data.

(** ** Readers and the bytes they read *)

(** [r] reads exactly the bytes [e], wherever they are, and returns [v]. *)
Definition reads {A} (r : Reader A) (e : bytes) (v : A) : Prop :=
  forall pre post, r (pre ++ e ++ post) (length pre) = Ok (v, length (pre ++ e)).

Lemma reads_ret {A} (v : A) : reads (mret v) [] v.
Proof. intros pre post. by rewrite app_nil_r. Qed.

Lemma reads_bind {A B} (r : Reader A) (f : A -> Reader B) e1 e2 a b :
  reads r e1 a -> reads (f a) e2 b -> reads (r ≫= f) (e1 ++ e2) b.
Proof.
  intros H1 H2 pre post. unfold mbind, Reader_bind. rewrite <- (app_assoc e1), H1.
  rewrite (app_assoc pre), H2. by rewrite <- !app_assoc.
Qed.

Lemma reads_last {A B} (r : Reader A) (f : A -> B) e a :
  reads r e a -> reads (x ← r; mret (f x)) e (f a).
Proof. intros Hr. rewrite <- (app_nil_r e). eapply reads_bind; [done|apply reads_ret]. Qed.

Lemma reads_last_eq {A B} (r : Reader A) (f : A -> B) e a b :
  reads r e a -> f a = b -> reads (x ← r; mret (f x)) e b.
Proof. intros Hr <-. by apply reads_last. Qed.

Lemma reads_n n e : length e = n -> reads (read_n n) e e.
Proof.
  intros <- pre post. unfold read_n. rewrite !length_app.
  destruct (Nat.ltb_spec (length pre + (length e + length post)) (length pre + length e)); [lia|].
  by rewrite (slice_mid _ _ pre e post).
Qed.

Lemma reads_uint n z : 0 <= z < 256 ^ Z.of_nat n -> reads (read_uint n) (be_bytes n z) z.
Proof.
  intros Hz. unfold read_uint. rewrite <- (be_val_bytes n z) at 2 by done.
  apply reads_last, reads_n, be_bytes_length.
Qed.

Lemma reads_i64 z : in_i 64 z -> reads read_i64 (be_bytes 8 z) z.
Proof.
  intros Hz. unfold read_i64, read_uint. rewrite <- (swrap_small 64 eq_refl z Hz) at 2.
  replace (i64 z) with (i64 (be_val (be_bytes 8 z))).
  - apply reads_last, reads_last, reads_n, be_bytes_length.
  - rewrite be_val_bytes_mod. change (256 ^ Z.of_nat 8) with (2 ^ 64). apply swrap_cong; [lia|].
    by rewrite Z.mod_mod.
Qed.

Lemma reads_many {A} (r : Reader A) (f : A -> bytes) l :
  Forall (fun v => reads r (f v) v) l -> reads (read_many r (length l)) (concat (f <$> l)) l.
Proof.
  induction 1 as [|v l Hv _ IH]; cbn [read_many length fmap list_fmap concat]; [apply reads_ret|].
  eapply reads_bind; [done|]. by apply (reads_last _ (cons v)).
Qed.

Lemma reads_counted {A} k (r : Reader A) (f : A -> bytes) l :
  Z.of_nat (length l) < 256 ^ Z.of_nat k -> Forall (fun v => reads r (f v) v) l ->
  reads (read_counted k r) (put_counted k f l) l.
Proof.
  intros Hk Hl. unfold read_counted, put_counted.
  eapply reads_bind; [apply reads_uint; lia|]. rewrite Nat2Z.id. by apply reads_many.
Qed.

Lemma reads_option {A} (r : Reader A) (f : A -> bytes) o :
  (forall v, o = Some v -> reads r (f v) v) -> reads (read_option r) (put_option f o) o.
Proof.
  intros Ho. unfold read_option. destruct o as [v|]; cbn [put_option].
  - change (1 :: f v) with (be_bytes 1 1 ++ f v). eapply reads_bind; [apply reads_uint; lia|].
    cbn [Z.eqb]. apply reads_last. by apply Ho.
  - change [0] with (be_bytes 1 0 ++ []). eapply reads_bind; [apply reads_uint; lia|]. apply reads_ret.
Qed.

(** A string survives when it is not empty and its length fits 16 bits. *)
Definition string_ok (o : option bytes) : Prop :=
  forall s, o = Some s -> 0 < Z.of_nat (length s) < 2 ^ 16 /\ utf8 s.

Lemma reads_string o : string_ok o -> reads read_string (put_string o) o.
Proof.
  intros Ho. unfold read_string. destruct o as [s|]; cbn [put_string].
  - destruct (Ho s eq_refl) as [Hl Hu]. rewrite wrap_small by (unfold in_u; lia).
    eapply reads_bind; [apply reads_uint; lia|]. rewrite (proj2 (Z.ltb_lt _ _)) by lia.
    rewrite Nat2Z.id. replace (Some s) with (Some (from_utf8_lossy s)) by (by rewrite from_utf8_lossy_id).
    by apply (reads_last _ (fun s => Some (from_utf8_lossy s))), reads_n.
  - rewrite <- (app_nil_r (be_bytes 2 0)). eapply reads_bind; [apply reads_uint; lia|]. apply reads_ret.
Qed.

Lemma run_reader_ok {A} (r : Reader A) e v : reads r e v -> run_reader r e = Ok v.
Proof. intros Hr. unfold run_reader. specialize (Hr [] []). rewrite app_nil_r in Hr. cbn in Hr. by rewrite Hr. Qed.

(** ** Values the formats can hold *)

Definition id_ok (id : bytes) : Prop := length id = 32%nat.
Definition token_pair_ok (t : bytes * Z) : Prop := id_ok t.1 /\ in_u 64 t.2.

Lemma reads_token t : token_pair_ok t -> reads read_token (put_token t) t.
Proof.
  intros [Hid Ha]. destruct t as [id amount]. unfold read_token, put_token. cbn [fst snd] in *.
  eapply reads_bind; [by apply reads_n|]. apply (reads_last _ (pair id)), reads_uint, Ha.
Qed.

Definition box_record_ok (b : IndexedErgoBox) : Prop :=
  id_ok (ieb_box_id b) /\ in_u 32 (inclusion_height b)
  /\ (forall id, spending_tx_id b = Some id -> id_ok id)
  /\ (forall h, spending_height b = Some h -> in_u 32 h)
  /\ in_u 64 (ieb_global_index b) /\ in_u 64 (ieb_value b) /\ id_ok (ergo_tree_hash b)
  /\ Forall token_pair_ok (ieb_tokens b) /\ in_u 32 (Z.of_nat (length (ieb_tokens b)))
  /\ in_u 32 (Z.of_nat (length (box_bytes b))).

Definition tx_record_ok (t : IndexedErgoTransaction) : Prop :=
  id_ok (itx_tx_id t) /\ in_u 16 (itx_tx_index t) /\ in_u 32 (itx_height t) /\ in_u 32 (itx_size t)
  /\ in_u 64 (itx_global_index t)
  /\ Forall (in_u 64) (input_indexes t) /\ in_u 16 (Z.of_nat (length (input_indexes t)))
  /\ Forall (in_u 64) (output_indexes t) /\ in_u 16 (Z.of_nat (length (output_indexes t)))
  /\ Forall id_ok (itx_data_inputs t) /\ in_u 16 (Z.of_nat (length (itx_data_inputs t))).

Definition balance_ok (b : BalanceInfo) : Prop :=
  in_i 64 (nano_ergs b)
  /\ map_Forall (fun id amount => id_ok id /\ in_i 64 amount) (bal_tokens b)
  /\ 12 + 40 * Z.of_nat (size (bal_tokens b)) < 2 ^ 32.

Definition address_ok (a : IndexedErgoAddress) : Prop :=
  id_ok (tree_hash a) /\ balance_ok (balance a)
  /\ Forall (in_u 64) (tx_indexes a) /\ in_u 32 (Z.of_nat (length (tx_indexes a)))
  /\ Forall (in_i 64) (ia_box_indexes a) /\ in_u 32 (Z.of_nat (length (ia_box_indexes a))).

Definition token_record_ok (t : IndexedToken) : Prop :=
  id_ok (it_token_id t) /\ (forall id, creation_box_id t = Some id -> id_ok id)
  /\ (forall a, it_amount t = Some a -> in_u 64 a) /\ string_ok (it_name t)
  /\ string_ok (it_description t) /\ (forall d, it_decimals t = Some d -> in_u 8 d)
  /\ Forall (in_i 64) (it_box_indexes t) /\ in_u 32 (Z.of_nat (length (it_box_indexes t))).

Definition state_ok (s : IndexerState) : Prop :=
  in_u 32 (indexed_height s) /\ in_u 64 (global_box_index s) /\ in_u 64 (global_tx_index s).

(** Each field of a record is read by its own lemma. *)
Ltac read_fields :=
  repeat (eapply reads_bind;
    [ first [ apply reads_n; by unfold id_ok in *
            | apply reads_uint; unfold in_u in *; lia
            | apply reads_option; intros ? Heq
            | by apply reads_string
            | apply reads_counted; [unfold in_u in *; lia|] ] | ]).

Lemma box_record_roundtrip b :
  box_record_ok b -> box_record_deserialize (box_record_serialize b) = Ok b.
Proof.
  intros (Hid & Hh & Hs & Hsh & Hg & Hv & Ht & Htok & Hn & Hb). unfold box_record_deserialize.
  assert (37 <= length (box_record_serialize b))%nat as Hlen.
  { unfold box_record_serialize. rewrite !length_app, !be_bytes_length, Hid, Ht. lia. }
  destruct (Nat.ltb_spec (length (box_record_serialize b)) (32 + 4 + 1)); [lia|].
  apply run_reader_ok. unfold box_record_serialize, read_box_record.
  read_fields.
  - apply reads_n. by apply Hs.
  - apply reads_uint. by apply Hsh.
  - eapply Forall_impl; [exact Htok|]. apply reads_token.
  - rewrite Nat2Z.id. eapply reads_last_eq; [by apply reads_n|by destruct b].
Qed.

Lemma tx_record_roundtrip t :
  tx_record_ok t -> tx_record_deserialize (tx_record_serialize t) = Ok t.
Proof.
  intros (Hid & Hi & Hh & Hs & Hg & Hin & Hn & Hout & Hm & Hd & Hk). unfold tx_record_deserialize.
  assert (56 <= length (tx_record_serialize t))%nat as Hlen.
  { unfold tx_record_serialize, put_counted. rewrite !length_app, !be_bytes_length, Hid. lia. }
  destruct (Nat.ltb_spec (length (tx_record_serialize t)) (32 + 2 + 4 + 4 + 8 + 2 + 2 + 2)); [lia|].
  apply run_reader_ok. unfold tx_record_serialize, read_tx_record. read_fields.
  1,2: eapply Forall_impl; [eassumption|]; intros z Hz; apply reads_uint, Hz.
  eapply reads_last_eq; [apply reads_counted; [unfold in_u in *; lia|]|by destruct t].
  eapply Forall_impl; [exact Hd|]. intros id' Hz. by apply reads_n.
Qed.

Lemma token_roundtrip t :
  token_record_ok t -> token_deserialize (token_serialize t) = Ok t.
Proof.
  intros (Hid & Hc & Ha & Hn & Hd & Hdec & Hb & Hk). unfold token_deserialize.
  assert (33 <= length (token_serialize t))%nat as Hlen.
  { unfold token_serialize, put_counted. rewrite !length_app, !be_bytes_length, Hid. lia. }
  destruct (Nat.ltb_spec (length (token_serialize t)) (32 + 1)); [lia|].
  apply run_reader_ok. unfold token_serialize, read_token_record. read_fields.
  - apply reads_n. by apply Hc.
  - apply reads_uint. by apply Ha.
  - apply reads_uint. by apply Hdec.
  - eapply reads_last_eq; [apply reads_counted; [unfold in_u in *; lia|]|by destruct t].
    eapply Forall_impl; [exact Hb|]. apply reads_i64.
Qed.

Lemma state_roundtrip s : state_ok s -> state_deserialize (state_serialize s) = Ok s.
Proof.
  intros (Hh & Hb & Ht). unfold state_deserialize, state_serialize.
  rewrite !length_app, !be_bytes_length. cbn [Nat.ltb Nat.leb Nat.add].
  rewrite (slice_head 4) by apply be_bytes_length.
  rewrite (slice_mid 4 12) by (by rewrite ?be_bytes_length).
  rewrite app_assoc, <- (app_nil_r (be_bytes 8 (global_tx_index s))).
  rewrite (slice_mid 12 20) by (by rewrite ?length_app, ?be_bytes_length).
  rewrite !be_val_bytes by (unfold in_u in *; lia). by destruct s.
Qed.

Section Order.
Context `{HashOrderLaws}.

(** Inserting the items of a map, in any order, gives the map. *)
Lemma insert_items_union (l : list (bytes * Z)) acc :
  NoDup l.*1 ->
  foldl (fun m '(k, v) => <[k := v]> m) acc l = (list_to_map l : gmap bytes Z) ∪ acc.
Proof.
  revert acc. induction l as [|[k v] l IH]; intros acc; cbn [foldl fmap list_fmap fst list_to_map foldr].
  - intros _. by rewrite (left_id_L ∅ (∪)).
  - intros [Hk Hl]%NoDup_cons. rewrite IH by done. cbn.
    rewrite <- insert_union_r by (by apply not_elem_of_list_to_map). by rewrite insert_union_l.
Qed.

Lemma insert_all_items (m : gmap bytes Z) :
  foldl (fun m '(k, v) => <[k := v]> m) ∅ (hash_iter Z m) = m.
Proof.
  rewrite insert_items_union by apply hash_iter_keys. rewrite (right_id_L ∅ (∪)).
  rewrite (list_to_map_proper _ (map_to_list m)) by (apply hash_iter_keys || apply hash_iter_perm).
  apply list_to_map_to_list.
Qed.

Lemma put_token_length t : id_ok t.1 -> length (put_token t) = 40%nat.
Proof. intros Ht. unfold put_token. by rewrite length_app, be_bytes_length, Ht. Qed.

Lemma put_tokens_length l :
  Forall (fun t : bytes * Z => id_ok t.1) l -> length (concat (put_token <$> l)) = (length l * 40)%nat.
Proof.
  induction 1 as [|t l Ht _ IH]; [done|]. cbn [fmap list_fmap concat length].
  rewrite length_app, put_token_length, IH by done. lia.
Qed.

Lemma balance_items_ok b :
  balance_ok b -> Forall (fun t : bytes * Z => id_ok t.1 /\ in_i 64 t.2) (hash_iter Z (bal_tokens b)).
Proof.
  intros (_ & Hm & _). apply Forall_forall. intros [k v] Hkv%hash_iter_elem. by apply (Hm k v).
Qed.

Lemma balance_serialize_length b :
  balance_ok b -> length (balance_serialize b) = (12 + size (bal_tokens b) * 40)%nat.
Proof.
  intros Hb. unfold balance_serialize. rewrite !length_app, !be_bytes_length, put_tokens_length.
  - by rewrite hash_iter_size.
  - eapply Forall_impl; [by apply balance_items_ok|]. by intros t [? _].
Qed.

Lemma balance_roundtrip b :
  balance_ok b -> balance_deserialize (balance_serialize b) = Ok b.
Proof.
  intros Hb. pose proof (balance_serialize_length b Hb) as Hl. pose proof (balance_items_ok b Hb) as Hi.
  destruct Hb as (He & Hm & Hn). unfold balance_deserialize. rewrite Hl.
  destruct (Nat.ltb_spec (12 + size (bal_tokens b) * 40) 12); [lia|].
  unfold balance_serialize in *. clear Hl.
  set (e := be_bytes 8 (nano_ergs b)). set (n := be_bytes 4 (Z.of_nat (size (bal_tokens b)))).
  set (items := hash_iter Z (bal_tokens b)) in *.
  rewrite (slice_head 8) by apply be_bytes_length.
  rewrite (slice_mid 8 12 e n) by (unfold e, n; by rewrite ?be_bytes_length).
  assert (be_val n = Z.of_nat (size (bal_tokens b))) as -> by (apply be_val_bytes; lia).
  rewrite Nat2Z.id.
  destruct (Nat.ltb_spec (12 + size (bal_tokens b) * 40) (12 + size (bal_tokens b) * 40)); [lia|].
  assert (i64 (be_val e) = nano_ergs b) as ->.
  { unfold e. rewrite be_val_bytes_mod. change (256 ^ Z.of_nat 8) with (2 ^ 64).
    rewrite (swrap_cong 64 eq_refl _ (nano_ergs b)) by (by rewrite Z.mod_mod).
    by apply swrap_small. }
  set (r := read_many _ _).
  assert (reads r (concat (put_token <$> items)) items) as Hr.
  { unfold r. rewrite <- hash_iter_size. apply reads_many. eapply Forall_impl; [exact Hi|].
    intros [k v] [Hk Hv]. eapply reads_bind; [by apply reads_n|].
    apply (reads_last _ (pair k)), reads_i64, Hv. }
  specialize (Hr (e ++ n) []). rewrite app_nil_r, <- app_assoc in Hr.
  replace (length (e ++ n)) with 12%nat in Hr
    by (unfold e, n; by rewrite length_app, !be_bytes_length).
  rewrite Hr. unfold items. rewrite insert_all_items. by destruct b.
Qed.

Lemma reads_balance b :
  balance_ok b ->
  reads (read_balance (length (balance_serialize b))) (balance_serialize b) b.
Proof.
  intros Hb pre post. unfold read_balance. rewrite (reads_n _ (balance_serialize b)) by done.
  by rewrite balance_roundtrip.
Qed.

Lemma address_roundtrip a :
  address_ok a -> address_deserialize (address_serialize a) = Ok a.
Proof.
  intros (Hid & Hb & Ht & Hn & Hi & Hk). unfold address_deserialize.
  assert (36 <= length (address_serialize a))%nat as Hlen.
  { unfold address_serialize. rewrite !length_app, !be_bytes_length, Hid. lia. }
  destruct (Nat.ltb_spec (length (address_serialize a)) (32 + 4)); [lia|].
  pose proof (balance_serialize_length _ Hb) as Hl. pose proof Hb as (_ & _ & Hs).
  apply run_reader_ok. unfold address_serialize, read_address. cbv zeta. read_fields.
  rewrite Nat2Z.id. eapply reads_bind; [by apply reads_balance|]. read_fields.
  - eapply Forall_impl; [exact Ht|]. intros z Hz. apply reads_uint, Hz.
  - eapply reads_last_eq; [apply reads_counted; [unfold in_u in *; lia|]|by destruct a].
    eapply Forall_impl; [exact Hi|]. apply reads_i64.
Qed.
End Order.
