(* ===== verification/Indexer.v ===== *)
(** * The extra indexer (crates/ergo-storage/src/indexer/mod.rs)

    [ExtraIndexer]: boxes, transactions, addresses and tokens are buffered in
    maps and flushed to the store in one batch; lookups read the buffers and
    then the store.  The locks are fields of one record.  A thread that locks
    again what it holds never returns: that is [IndexDeadlock]. *)

From S2P Require Export IndexCodec Storage ErgoTypes.

Local Open Scope Z_scope.

(** ** Types *)

Inductive ExtraIndexType := IndexBox | IndexTransaction | IndexAddress | IndexToken.

Definition index_type_code (t : ExtraIndexType) : Z :=
  match t with IndexBox => 5 | IndexTransaction => 10 | IndexAddress => 15 | IndexToken => 35 end.
Definition index_type_try_from (value : Z) : option ExtraIndexType :=
  if value =? 5 then Some IndexBox
  else if value =? 10 then Some IndexTransaction
  else if value =? 15 then Some IndexAddress
  else if value =? 35 then Some IndexToken
  else None.

Record IndexerConfig := mkIndexerConfig {
  ic_enabled : bool; save_limit : nat; segment_threshold : nat }.
Definition IndexerConfig_default : IndexerConfig := mkIndexerConfig false 500 512.

Record ExtraIndexer (DB : Type) := mkExtraIndexer {
  ix_config : IndexerConfig; ix_storage : DB; ix_state : IndexerState;
  ix_boxes : gmap bytes IndexedErgoBox; ix_addresses : gmap bytes IndexedErgoAddress;
  ix_tokens : gmap bytes IndexedToken; ix_transactions : list IndexedErgoTransaction }.
Arguments mkExtraIndexer {DB}.
Arguments ix_config {DB}.
Arguments ix_storage {DB}.
Arguments ix_state {DB}.
Arguments ix_boxes {DB}.
Arguments ix_addresses {DB}.
Arguments ix_tokens {DB}.
Arguments ix_transactions {DB}.

Section Indexer.
Context {DB : Type} `{Storage DB} `{Blake2b256} `{HashOrder}.

Abbreviation indexer := (ExtraIndexer DB).

Definition ExtraIndexer_new (storage : DB) (config : IndexerConfig) : indexer :=
  mkExtraIndexer config storage IndexerState_default ∅ ∅ ∅ [].

Definition is_enabled (ix : indexer) : bool := ic_enabled (ix_config ix).

Definition put_ix_state (s : IndexerState) (ix : indexer) : indexer :=
  mkExtraIndexer (ix_config ix) (ix_storage ix) s (ix_boxes ix) (ix_addresses ix) (ix_tokens ix)
    (ix_transactions ix).
Definition put_ix_boxes (m : gmap bytes IndexedErgoBox) (ix : indexer) : indexer :=
  mkExtraIndexer (ix_config ix) (ix_storage ix) (ix_state ix) m (ix_addresses ix) (ix_tokens ix)
    (ix_transactions ix).
Definition put_ix_addresses (m : gmap bytes IndexedErgoAddress) (ix : indexer) : indexer :=
  mkExtraIndexer (ix_config ix) (ix_storage ix) (ix_state ix) (ix_boxes ix) m (ix_tokens ix)
    (ix_transactions ix).
Definition put_ix_tokens (m : gmap bytes IndexedToken) (ix : indexer) : indexer :=
  mkExtraIndexer (ix_config ix) (ix_storage ix) (ix_state ix) (ix_boxes ix) (ix_addresses ix) m
    (ix_transactions ix).
Definition put_ix_transactions (l : list IndexedErgoTransaction) (ix : indexer) : indexer :=
  mkExtraIndexer (ix_config ix) (ix_storage ix) (ix_state ix) (ix_boxes ix) (ix_addresses ix)
    (ix_tokens ix) l.

(** ** Lookups *)

(** [.ok().flatten().and_then(|data| T::deserialize(&data).ok())]: what is not
    there or does not parse is absent, and a parser that panics panics. *)
Definition parse_stored {A} (deserialize : bytes -> result A IndexError) (data : option bytes)
    : result (option A) IndexError :=
  match data with
  | None => Ok None
  | Some data =>
      match deserialize data with
      | Ok a => Ok (Some a)
      | Err IndexTooShort => Ok None
      | Err e => Err e
      end
  end.

Definition get_box (ix : indexer) (box_id : bytes) : result (option IndexedErgoBox) IndexError :=
  match ix_boxes ix !! box_id with
  | Some ieb => Ok (Some ieb)
  | None => parse_stored box_record_deserialize (st_get (ix_storage ix) ExtraIndex box_id)
  end.

Definition get_box_by_index (ix : indexer) (global_index : Z)
    : result (option IndexedErgoBox) IndexError :=
  match st_get (ix_storage ix) BoxIndex (be_bytes 8 global_index) with
  | None => Ok None
  | Some box_id => if (length box_id =? 32)%nat then get_box ix box_id else Ok None
  end.

Definition get_transaction (ix : indexer) (tx_id : bytes)
    : result (option IndexedErgoTransaction) IndexError :=
  match list_find (fun tx => itx_tx_id tx = tx_id) (ix_transactions ix) with
  | Some (_, tx) => Ok (Some tx)
  | None => parse_stored tx_record_deserialize (st_get (ix_storage ix) ExtraIndex tx_id)
  end.

Definition get_address (ix : indexer) (tree_hash : bytes)
    : result (option IndexedErgoAddress) IndexError :=
  match ix_addresses ix !! tree_hash with
  | Some addr => Ok (Some addr)
  | None => parse_stored address_deserialize (st_get (ix_storage ix) ExtraIndex tree_hash)
  end.

Definition token_unique_id (token_id : bytes) : bytes := blake2b256 (token_id ++ str_bytes "token").
Definition hash_ergo_tree (ergo_tree_bytes : bytes) : bytes := blake2b256 ergo_tree_bytes.

Definition get_token (ix : indexer) (token_id : bytes) : result (option IndexedToken) IndexError :=
  let unique_id := token_unique_id token_id in
  match ix_tokens ix !! unique_id with
  | Some token => Ok (Some token)
  | None => parse_stored token_deserialize (st_get (ix_storage ix) ExtraIndex unique_id)
  end.

(** ** Indexing *)

(** One token of an output: its entry, or a new one, gets the box. *)
Definition token_output (global_index : Z) (m : gmap bytes IndexedToken) (t : bytes * Z)
    : gmap bytes IndexedToken :=
  let unique_id := token_unique_id t.1 in
  <[unique_id := token_add_box (default (IndexedToken_new t.1) (m !! unique_id)) global_index]> m.

Definition index_output (ix : indexer) (box_id : bytes) (height : Z) (box_bytes : bytes) (value : Z)
    (ergo_tree_bytes : bytes) (tokens : list (bytes * Z)) : Z * indexer :=
  let state := ix_state ix in
  let global_index := global_box_index state in
  let tree_hash := hash_ergo_tree ergo_tree_bytes in
  let ieb := IndexedErgoBox_new box_id height global_index box_bytes value tree_hash tokens in
  let ix := put_ix_boxes (<[box_id := ieb]> (ix_boxes ix)) ix in
  let addr := default (IndexedErgoAddress_new tree_hash) (ix_addresses ix !! tree_hash) in
  let ix := put_ix_addresses (<[tree_hash := address_add_box addr global_index value tokens]> (ix_addresses ix)) ix in
  let ix := put_ix_tokens (foldl (token_output global_index) (ix_tokens ix) tokens) ix in
  (global_index,
   put_ix_state (mkIndexerState (indexed_height state) (u64 (global_index + 1)) (global_tx_index state)) ix).

(** Spending in the address table, whose lock is held: an address that is not
    buffered is looked up by [get_address], which locks the table again. *)
Definition spend_address (m : gmap bytes IndexedErgoAddress) (ieb : IndexedErgoBox)
    : result (gmap bytes IndexedErgoAddress) IndexError :=
  match m !! ergo_tree_hash ieb with
  | Some addr =>
      Ok (<[ergo_tree_hash ieb :=
              address_spend_box addr (ieb_global_index ieb) (ieb_value ieb) (ieb_tokens ieb)]> m)
  | None => Err IndexDeadlock
  end.

(** One token of a spent box, with the lock of the token table held. *)
Definition spend_token (global_index : Z) (m : gmap bytes IndexedToken) (t : bytes * Z)
    : result (gmap bytes IndexedToken) IndexError :=
  let unique_id := token_unique_id t.1 in
  match m !! unique_id with
  | Some token => Ok (<[unique_id := token_spend_box token global_index]> m)
  | None => Err IndexDeadlock
  end.

Definition spend_box (ix : indexer) (box_id spending_tx_id : bytes) (spending_height : Z)
    : result (option Z * indexer) IndexError :=
  let? found := get_box ix box_id in
  match found with
  | None => Ok (None, ix)
  | Some ieb =>
      let global_index := ieb_global_index ieb in
      let ix := put_ix_boxes (<[box_id := mark_spent ieb spending_tx_id spending_height]> (ix_boxes ix)) ix in
      let? addresses := spend_address (ix_addresses ix) ieb in
      let ix := put_ix_addresses addresses ix in
      let? tokens := rfold (spend_token global_index) (ix_tokens ix) (ieb_tokens ieb) in
      Ok (Some global_index, put_ix_tokens tokens ix)
  end.

Definition index_transaction (ix : indexer) (tx_id : bytes) (tx_index height size : Z)
    (input_indexes output_indexes : list Z) (data_inputs : list bytes) : Z * indexer :=
  let state := ix_state ix in
  let global_index := global_tx_index state in
  let itx := mkIndexedErgoTransaction tx_id tx_index height size global_index
               input_indexes output_indexes data_inputs in
  let ix := put_ix_transactions (ix_transactions ix ++ [itx]) ix in
  (global_index,
   put_ix_state (mkIndexerState (indexed_height state) (global_box_index state) (u64 (global_index + 1))) ix).

Definition register_token (ix : indexer) (token_id creation_box_id : bytes) (amount : Z)
    (name description : bytes) (decimals : Z) : indexer :=
  let unique_id := token_unique_id token_id in
  put_ix_tokens
    (<[unique_id :=
        match ix_tokens ix !! unique_id with
        | Some existing => add_emission existing amount
        | None => with_creation_info token_id creation_box_id amount name description decimals
        end]> (ix_tokens ix)) ix.

(** ** Flushing *)

Definition indexer_state_key : bytes := str_bytes "indexer_state".

Definition clear_buffers (ix : indexer) : indexer :=
  mkExtraIndexer (ix_config ix) (ix_storage ix) (ix_state ix) ∅ ∅ ∅ [].

Definition flush_batch (ix : indexer) : WriteBatch :=
  let batch := batch_put [] Metadata indexer_state_key (state_serialize (ix_state ix)) in
  let batch := foldl (fun batch '(box_id, ieb) =>
    let batch := batch_put batch ExtraIndex box_id (box_record_serialize ieb) in
    batch_put batch BoxIndex (be_bytes 8 (ieb_global_index ieb)) box_id)
    batch (hash_iter IndexedErgoBox (ix_boxes ix)) in
  let batch := foldl (fun batch itx =>
    let batch := batch_put batch ExtraIndex (itx_tx_id itx) (tx_record_serialize itx) in
    batch_put batch TxNumericIndex (be_bytes 8 (itx_global_index itx)) (itx_tx_id itx))
    batch (ix_transactions ix) in
  let batch := foldl (fun batch '(tree_hash, addr) =>
    batch_put batch ExtraIndex tree_hash (address_serialize addr))
    batch (hash_iter IndexedErgoAddress (ix_addresses ix)) in
  foldl (fun batch '(unique_id, token) =>
    batch_put batch ExtraIndex unique_id (token_serialize token))
    batch (hash_iter IndexedToken (ix_tokens ix)).

Definition flush (ix : indexer) : indexer :=
  clear_buffers
    (mkExtraIndexer (ix_config ix) (st_write_batch (ix_storage ix) (flush_batch ix)) (ix_state ix)
       (ix_boxes ix) (ix_addresses ix) (ix_tokens ix) (ix_transactions ix)).

Definition should_flush (ix : indexer) : bool :=
  (save_limit (ix_config ix) <=? size (ix_boxes ix) + length (ix_transactions ix))%nat.
Definition maybe_flush (ix : indexer) : bool * indexer :=
  if should_flush ix then (true, flush ix) else (false, ix).

Definition buffer_count (ix : indexer) : nat :=
  (size (ix_boxes ix) + length (ix_transactions ix) + size (ix_addresses ix) + size (ix_tokens ix))%nat.

Definition set_indexed_height (ix : indexer) (height : Z) : indexer :=
  put_ix_state (mkIndexerState height (global_box_index (ix_state ix)) (global_tx_index (ix_state ix))) ix.

(** A state that does not parse leaves the indexer as it is. *)
Definition load_state (ix : indexer) : indexer :=
  match st_get (ix_storage ix) Metadata indexer_state_key with
  | Some data => match state_deserialize data with Ok state => put_ix_state state ix | Err _ => ix end
  | None => ix
  end.
End Indexer.
