(* ===== verification/IndexerSpec.v ===== *)
(** * What the extra indexer promises

    A ledger of the outputs indexed so far, in order, each with the transaction
    that spent it, is the specification: until the buffers are flushed the
    boxes, addresses, balances and tokens are those of the ledger.  A flush
    changes no lookup and a restart finds what was flushed; but the indexer
    does not go on from flushed records. *)

From S2P Require Export Indexer.

Local Open Scope Z_scope.

(** ** The ledger *)

Record Entry := mkEntry {
  e_id : bytes; e_height : Z; e_bytes : bytes; e_value : Z; e_hash : bytes;
  e_tokens : list (bytes * Z); e_spent : option (bytes * Z) }.

Definition spend_entry (tx_id : bytes) (height : Z) (e : Entry) : Entry :=
  mkEntry (e_id e) (e_height e) (e_bytes e) (e_value e) (e_hash e) (e_tokens e) (Some (tx_id, height)).
Definition unspent (e : Entry) : bool := match e_spent e with None => true | Some _ => false end.

(** The record of the entry at a position. *)
Definition entry_record (i : nat) (e : Entry) : IndexedErgoBox :=
  mkIndexedErgoBox (e_id e) (e_height e) (fst <$> e_spent e) (snd <$> e_spent e) (Z.of_nat i)
    (e_bytes e) (e_value e) (e_hash e) (e_tokens e).

(** A position, negative when the box is spent. *)
Definition signed (i : nat) (e : Entry) : Z := if unspent e then Z.of_nat i else - Z.of_nat i.

(** The signed positions of the entries, each as often as [mult] says. *)
Fixpoint positions_from (mult : Entry -> nat) (k : nat) (l : list Entry) : list Z :=
  match l with
  | [] => []
  | e :: l' => replicate (mult e) (signed k e) ++ positions_from mult (S k) l'
  end.
Definition positions (mult : Entry -> nat) (l : list Entry) : list Z := positions_from mult 0 l.
Definition at_address (th : bytes) (e : Entry) : nat := if decide (e_hash e = th) then 1%nat else 0%nat.

(** The sum of [f] over the unspent entries. *)
Definition unspent_sum (f : Entry -> Z) (l : list Entry) : Z :=
  sumZ ((fun e => if unspent e then f e else 0) <$> l).
Definition amount_of (t : bytes) (tokens : list (bytes * Z)) : Z :=
  sumZ (snd <$> filter (fun p => p.1 = t) tokens).
Definition value_at (th : bytes) (e : Entry) : Z := if decide (e_hash e = th) then e_value e else 0.
Definition tokens_at (th t : bytes) (e : Entry) : Z :=
  if decide (e_hash e = th) then amount_of t (e_tokens e) else 0.

(** ** Positions and sums under a step *)

Lemma at_own_address e t :
  at_address (e_hash e) e = 1%nat /\ value_at (e_hash e) e = e_value e
  /\ tokens_at (e_hash e) t e = amount_of t (e_tokens e).
Proof. unfold at_address, value_at, tokens_at. by rewrite !decide_True. Qed.

Lemma at_other_address th e t :
  e_hash e <> th -> at_address th e = 0%nat /\ value_at th e = 0 /\ tokens_at th t e = 0.
Proof. intros. unfold at_address, value_at, tokens_at. by rewrite !decide_False. Qed.

Lemma positions_from_app mult k l1 l2 :
  positions_from mult k (l1 ++ l2) = positions_from mult k l1 ++ positions_from mult (k + length l1) l2.
Proof.
  revert k. induction l1 as [|e l1 IH]; intros k; cbn [positions_from app length].
  - by rewrite Nat.add_0_r.
  - by rewrite IH, <- app_assoc, Nat.add_succ_r.
Qed.

Lemma positions_snoc mult l e :
  positions mult (l ++ [e]) = positions mult l ++ replicate (mult e) (signed (length l) e).
Proof. unfold positions. rewrite positions_from_app. cbn. by rewrite app_nil_r. Qed.

Lemma positions_from_bound mult k l x :
  x ∈ positions_from mult k l -> Z.of_nat k <= Z.abs x < Z.of_nat (k + length l).
Proof.
  revert k. induction l as [|e l IH]; intros k; cbn [positions_from length]; [intros Hx; by apply not_elem_of_nil in Hx|].
  intros [Hx|Hx]%elem_of_app.
  - apply elem_of_replicate in Hx as [-> _]. unfold signed. destruct (unspent e); lia.
  - specialize (IH _ Hx). lia.
Qed.

Lemma positions_nil mult k l : Forall (fun e => mult e = 0%nat) l -> positions_from mult k l = [].
Proof.
  intros Hl. revert k. induction Hl as [|e l He _ IH]; intros k; [done|].
  cbn [positions_from]. by rewrite He, IH.
Qed.

Lemma unspent_sum_snoc f l e :
  unspent_sum f (l ++ [e]) = unspent_sum f l + (if unspent e then f e else 0).
Proof. unfold unspent_sum. rewrite fmap_app, sumZ_app. cbn. lia. Qed.

Lemma unspent_sum_spend f l i e tx h :
  l !! i = Some e -> unspent e = true ->
  unspent_sum f (<[i := spend_entry tx h e]> l) = unspent_sum f l - f e.
Proof.
  intros Hi Hu. unfold unspent_sum. rewrite insert_take_drop by (by eapply lookup_lt_Some).
  rewrite <- (take_drop_middle l i e Hi) at 3. rewrite !fmap_app, !sumZ_app. cbn. rewrite Hu. lia.
Qed.

(** Negating an index as often as it occurs. *)
Lemma negate_skip A L i :
  (forall x, x ∈ A -> x <> i64 i) -> negate_index (A ++ L) i = A ++ negate_index L i.
Proof.
  induction A as [|x A IH]; intros HA; [done|]. cbn [app negate_index].
  rewrite (proj2 (Z.eqb_neq _ _)) by (apply HA; by left).
  f_equal. apply IH. intros y Hy. apply HA. by right.
Qed.

Lemma negate_zero L : negate_index L 0 = L.
Proof.
  induction L as [|x L IH]; [done|]. cbn [negate_index]. change (i64 0) with 0.
  destruct (Z.eqb_spec x 0) as [->|]; [done|]. by f_equal.
Qed.

Lemma negate_all A B m i :
  0 <= i < 2 ^ 63 -> (forall x, x ∈ A \/ x ∈ B -> Z.abs x <> i) ->
  Nat.iter m (fun L => negate_index L i) (A ++ replicate m i ++ B) = A ++ replicate m (- i) ++ B.
Proof.
  intros Hi HAB. assert (i64 i = i /\ i64 (- i) = - i) as [E E'].
  { split; apply swrap_small; unfold in_i; lia. }
  destruct (decide (i = 0)) as [->|Hn0].
  { replace (- 0) with 0 by lia. generalize (A ++ replicate m 0 ++ B). intros L.
    induction m as [|m IH]; [done|]. rewrite Nat.iter_succ, IH. apply negate_zero. }
  assert (forall j k, Nat.iter k (fun L => negate_index L i)
    (A ++ replicate j (- i) ++ replicate k i ++ B) = A ++ replicate (j + k) (- i) ++ B) as Hgen.
  { intros j k. revert j. induction k as [|k IH]; intros j; [by rewrite Nat.add_0_r|].
    rewrite Nat.iter_succ_r. cbn [replicate]. rewrite (app_assoc A).
    rewrite negate_skip.
    - cbn [app negate_index]. rewrite E, Z.eqb_refl, E'. rewrite <- app_assoc.
      replace (replicate j (- i) ++ - i :: replicate k i ++ B)
        with (replicate (S j) (- i) ++ replicate k i ++ B)
        by (rewrite replicate_S_end, <- app_assoc; done).
      rewrite IH. by rewrite Nat.add_succ_r.
    - intros x [Hx|[-> _]%elem_of_replicate]%elem_of_app; rewrite E; [|lia].
      intros ->. apply (HAB i); [by left|]. lia. }
  apply (Hgen 0%nat m).
Qed.

Lemma positions_spend mult l i e tx h :
  l !! i = Some e -> unspent e = true -> Z.of_nat (length l) < 2 ^ 63 ->
  mult (spend_entry tx h e) = mult e ->
  positions mult (<[i := spend_entry tx h e]> l) =
  Nat.iter (mult e) (fun L => negate_index L (Z.of_nat i)) (positions mult l).
Proof.
  intros Hi Hu Hl Hm. pose proof (lookup_lt_Some _ _ _ Hi) as Hlt. unfold positions.
  rewrite insert_take_drop by done. rewrite <- (take_drop_middle l i e Hi) at 3.
  rewrite !positions_from_app. cbn [positions_from]. rewrite Hm, length_take, Nat.min_l by lia.
  unfold signed. rewrite Hu. cbn [unspent spend_entry e_spent]. rewrite Nat.add_0_l.
  rewrite negate_all; [done|lia|].
  intros x [Hx|Hx]; apply positions_from_bound in Hx; rewrite ?length_take, ?length_drop in Hx; lia.
Qed.

(** *** Balances *)

Lemma tokens_add_spec (m : gmap bytes Z) tokens t s :
  default 0 (m !! t) = i64 s ->
  default 0 (foldl token_add m tokens !! t) = i64 (s + amount_of t tokens).
Proof.
  revert m s. induction tokens as [|[k v] tokens IH]; intros m s Hm; cbn [foldl].
  - unfold amount_of. cbn. by rewrite Z.add_0_r.
  - unfold amount_of. rewrite filter_cons. cbn [fst].
    assert (default 0 (token_add m (k, v) !! t) = i64 (s + (if decide (k = t) then v else 0))) as H1.
    { unfold token_add. cbn [fst snd]. case_decide as Hk; [subst k|].
      - rewrite lookup_insert_eq. cbn [default from_option id]. rewrite Hm.
        apply swrap_cong; [lia|]. by rewrite Zplus_mod, !swrap_mod, <- Zplus_mod by lia.
      - by rewrite lookup_insert_ne, Z.add_0_r. }
    rewrite (IH _ _ H1). fold (amount_of t tokens). case_decide; cbn [fmap list_fmap sumZ snd]; f_equal; unfold amount_of; lia.
Qed.

Lemma tokens_subtract_spec (m : gmap bytes Z) tokens t s :
  default 0 (m !! t) = i64 s ->
  default 0 (foldl token_subtract m tokens !! t) = i64 (s - amount_of t tokens).
Proof.
  revert m s. induction tokens as [|[k v] tokens IH]; intros m s Hm; cbn [foldl].
  - unfold amount_of. cbn. by rewrite Z.sub_0_r.
  - unfold amount_of. rewrite filter_cons. cbn [fst].
    assert (default 0 (token_subtract m (k, v) !! t) = i64 (s - (if decide (k = t) then v else 0))) as H1.
    { unfold token_subtract. cbn [fst snd]. case_decide as Hk; [subst k|].
      - rewrite Hm. assert (i64 (i64 s - i64 v) = i64 (s - v)) as E.
        { apply swrap_cong; [lia|]. by rewrite Zminus_mod, !swrap_mod, <- Zminus_mod by lia. }
        rewrite E. destruct (Z.eqb_spec (i64 (s - v)) 0) as [H0|].
        + rewrite lookup_delete_eq. cbn. by rewrite H0.
        + by rewrite lookup_insert_eq.
      - rewrite Z.sub_0_r. destruct (_ =? 0); by rewrite ?lookup_delete_ne, ?lookup_insert_ne. }
    rewrite (IH _ _ H1). case_decide; cbn [fmap list_fmap sumZ snd]; f_equal; unfold amount_of; lia.
Qed.

(** ** Actions *)

Inductive Action :=
  | AOutput (box_id : bytes) (height : Z) (box_bytes : bytes) (value : Z) (tree : bytes)
      (tokens : list (bytes * Z))
  | ASpend (box_id tx_id : bytes) (height : Z)
  | ATransaction (tx_id : bytes) (tx_index height size : Z) (inputs outputs : list Z)
      (data_inputs : list bytes)
  | ARegister (token_id creation_box_id : bytes) (amount : Z) (name description : bytes) (decimals : Z)
  | AHeight (height : Z).

Section Ledger.
Context `{Blake2b256}.

Definition with_token (uid : bytes) (e : Entry) : nat :=
  length (filter (fun t => token_unique_id t.1 = uid) (e_tokens e)).

(** Outputs are new and a box is spent once, as in a valid chain. *)
Definition ledger_step (l : list Entry) (a : Action) : option (list Entry) :=
  match a with
  | AOutput id height bs value tree tokens =>
      if decide (id ∈ e_id <$> l) then None
      else Some (l ++ [mkEntry id height bs value (hash_ergo_tree tree) tokens None])
  | ASpend id tx_id height =>
      match list_find (fun e => e_id e = id) l with
      | Some (i, e) => if unspent e then Some (<[i := spend_entry tx_id height e]> l) else None
      | None => None
      end
  | _ => Some l
  end.

Fixpoint ledger_run (l : list Entry) (acts : list Action) : option (list Entry) :=
  match acts with
  | [] => Some l
  | a :: acts' => match ledger_step l a with Some l' => ledger_run l' acts' | None => None end
  end.
End Ledger.

Section Refinement.
Context {DB : Type} `{Storage DB} `{Blake2b256}.

Abbreviation indexer := (ExtraIndexer DB).

Definition index_step (ix : indexer) (a : Action) : result indexer IndexError :=
  match a with
  | AOutput id height bs value tree tokens => Ok (snd (index_output ix id height bs value tree tokens))
  | ASpend id tx_id height => let? r := spend_box ix id tx_id height in Ok (snd r)
  | ATransaction tx_id i height size ins outs data =>
      Ok (snd (index_transaction ix tx_id i height size ins outs data))
  | ARegister id cb amount name desc dec => Ok (register_token ix id cb amount name desc dec)
  | AHeight height => Ok (set_indexed_height ix height)
  end.

(** An address record shows the boxes and the balance of the ledger. *)
Definition address_agrees (l : list Entry) (th : bytes) (a : IndexedErgoAddress) : Prop :=
  tree_hash a = th /\ ia_box_indexes a = positions (at_address th) l
  /\ nano_ergs (balance a) = i64 (unspent_sum (value_at th) l)
  /\ forall t, default 0 (bal_tokens (balance a) !! t) = i64 (unspent_sum (tokens_at th t) l).

Record represents (ix : indexer) (l : list Entry) : Prop := {
  rep_count : global_box_index (ix_state ix) = Z.of_nat (length l);
  rep_boxes id b : ix_boxes ix !! id = Some b <->
    exists i e, l !! i = Some e /\ e_id e = id /\ b = entry_record i e;
  rep_ids : NoDup (e_id <$> l);
  rep_address th a : ix_addresses ix !! th = Some a -> address_agrees l th a;
  rep_no_address th : ix_addresses ix !! th = None -> th ∉ e_hash <$> l;
  rep_token uid t : ix_tokens ix !! uid = Some t -> it_box_indexes t = positions (with_token uid) l;
  rep_no_token uid : ix_tokens ix !! uid = None -> Forall (fun e => with_token uid e = 0%nat) l
}.

(** ** Each action *)

Definition indexes_of (o : option IndexedToken) : list Z := default [] (it_box_indexes <$> o).

Lemma tokens_output_spec (i : Z) (m : gmap bytes IndexedToken) tokens uid :
  let c := length (filter (fun t => token_unique_id t.1 = uid) tokens) in
  match foldl (token_output i) m tokens !! uid with
  | Some t => it_box_indexes t = indexes_of (m !! uid) ++ replicate c (i64 i)
  | None => m !! uid = None /\ c = 0%nat
  end.
Proof.
  cbv zeta. revert m. induction tokens as [|t tokens IH]; intros m; cbn [foldl].
  - cbn. destruct (m !! uid) as [t|]; [|done]. cbn. by rewrite app_nil_r.
  - specialize (IH (token_output i m t)). rewrite filter_cons.
    assert (token_output i m t !! uid = if decide (token_unique_id t.1 = uid)
      then Some (token_add_box (default (IndexedToken_new t.1) (m !! uid)) i) else m !! uid) as Hl.
    { unfold token_output. cbv zeta. rewrite lookup_insert. repeat case_decide; by subst. }
    rewrite Hl in IH. case_decide as Ht; [|done].
    destruct (foldl _ _ _ !! uid) as [t'|]; [|naive_solver]. rewrite IH. unfold indexes_of.
    cbn [token_add_box it_box_indexes length replicate default from_option fmap option_fmap option_map id].
    rewrite <- app_assoc. cbn [app]. f_equal. by destruct (m !! uid).
Qed.

Lemma tokens_spend_spec (i : Z) (m : gmap bytes IndexedToken) tokens :
  (forall t, t ∈ tokens -> is_Some (m !! token_unique_id t.1)) ->
  exists m', rfold (spend_token i) m tokens = Ok m' /\
    forall uid, m' !! uid =
      Nat.iter (length (filter (fun t => token_unique_id t.1 = uid) tokens))
        (fun t => token_spend_box t i) <$> m !! uid.
Proof.
  revert m. induction tokens as [|t tokens IH]; intros m Hm; cbn [rfold].
  - exists m. split; [done|]. intros uid. cbn. by destruct (m !! uid).
  - destruct (Hm t) as [t0 Ht0]; [by left|].
    assert (spend_token i m t = Ok (<[token_unique_id t.1 := token_spend_box t0 i]> m)) as ->
      by (unfold spend_token; cbv zeta; by rewrite Ht0).
    cbn [rbind].
    destruct (IH (<[token_unique_id t.1 := token_spend_box t0 i]> m)) as (m' & Hr & Hl).
    { intros t' Ht'. rewrite lookup_insert. case_decide; [done|]. apply Hm. by right. }
    exists m'. split; [done|]. intros uid. rewrite Hl, filter_cons.
    case_decide as Hu; [subst uid|by rewrite lookup_insert_ne].
    rewrite lookup_insert_eq, Ht0. cbn [fmap option_fmap option_map length].
    f_equal. by rewrite Nat.iter_succ_r.
Qed.

Lemma iter_spend_indexes n t i :
  it_box_indexes (Nat.iter n (fun t => token_spend_box t i) t) =
  Nat.iter n (fun L => negate_index L i) (it_box_indexes t).
Proof. induction n as [|n IH]; [done|]. rewrite !Nat.iter_succ. cbn [token_spend_box it_box_indexes]. by rewrite IH. Qed.

Lemma output_represents ix l id height bs value tree tokens :
  represents ix l -> id ∉ e_id <$> l -> Z.of_nat (length l) + 1 < 2 ^ 63 ->
  represents (snd (index_output ix id height bs value tree tokens))
    (l ++ [mkEntry id height bs value (hash_ergo_tree tree) tokens None]).
Proof.
  intros [Rc Rb Rn Ra Rna Rt Rnt] Hid Hl.
  set (e := mkEntry id height bs value (hash_ergo_tree tree) tokens None).
  assert (i64 (Z.of_nat (length l)) = Z.of_nat (length l)) as Ei by (apply swrap_small; unfold in_i; lia).
  constructor; unfold index_output; cbn [snd put_ix_state put_ix_tokens put_ix_addresses put_ix_boxes
    ix_state ix_boxes ix_addresses ix_tokens global_box_index].
  - rewrite Rc, length_app. cbn [length]. rewrite u64_id; lia.
  - intros id' b. rewrite lookup_insert. case_decide as Hi; [subst id'|].
    + split.
      * intros [= <-]. exists (length l), e. split_and!; [by apply list_lookup_middle|done|].
        unfold entry_record, e. cbn. by rewrite Rc.
      * intros (i & e' & Hi & He & ->). apply lookup_app_Some in Hi as [Hi|[Hge Hi]].
        { exfalso. apply Hid. rewrite <- He. apply list_elem_of_fmap_2. by eapply list_elem_of_lookup_2. }
        apply list_lookup_singleton_Some in Hi as [Hlen <-]. replace i with (length l) by lia.
        unfold entry_record, e. cbn. by rewrite Rc.
    + rewrite Rb. split; intros (i & e' & Hi' & He & ->); exists i, e'.
      * split_and!; [by apply lookup_app_l_Some|done..].
      * apply lookup_app_Some in Hi' as [?|[_ Hx]]; [done|].
        apply list_lookup_singleton_Some in Hx as [_ <-]. by cbn in He.
  - rewrite fmap_app. apply NoDup_app. split_and!; [done| |apply NoDup_singleton].
    intros x Hx ->%list_elem_of_singleton. by apply Hid.
  - intros th a. rewrite lookup_insert. case_decide as Hth; [subst th|].
    + intros [= <-]. unfold address_agrees. cbn [address_add_box tree_hash ia_box_indexes balance].
      set (old := default _ _).
      assert (address_agrees l (hash_ergo_tree tree) old) as (Ht & Hp & Hn & Htok).
      { unfold old. destruct (ix_addresses ix !! hash_ergo_tree tree) as [a|] eqn:Ea; [by apply Ra|].
        apply Rna in Ea. assert (Forall (fun e' => e_hash e' <> hash_ergo_tree tree) l) as Hno.
        { apply Forall_forall. intros e' He' Heq. apply Ea. rewrite <- Heq. by apply list_elem_of_fmap_2. }
        assert (forall f, (forall e', e_hash e' <> hash_ergo_tree tree -> f e' = 0) -> unspent_sum f l = 0) as Hz.
        { intros f Hf. unfold unspent_sum. clear -Hno Hf. induction Hno as [|e' l He' _ IH]; [done|].
          cbn. rewrite IH. cbn in *. rewrite (Hf e' He'). by destruct (unspent e'). }
        unfold address_agrees. cbn. split_and!; [done| | |].
        - symmetry. apply positions_nil. eapply Forall_impl; [exact Hno|]. intros e' He'.
          unfold at_address. by rewrite decide_False.
        - rewrite Hz; [done|]. intros e' He'. unfold value_at. by rewrite decide_False.
        - intros t. rewrite lookup_empty, Hz; [done|]. intros e' He'. unfold tokens_at. by rewrite decide_False. }
      rewrite Rc, Ei, positions_snoc, Hp. split_and!; [done| | |].
      * replace (at_address _ e) with 1%nat by (unfold at_address; by rewrite decide_True). done.
      * cbn [balance_add nano_ergs]. rewrite Hn, unspent_sum_snoc.
        replace (value_at _ e) with value by (unfold value_at; by rewrite decide_True).
        cbn [unspent e e_spent]. apply swrap_cong; [lia|].
        by rewrite Zplus_mod, !swrap_mod, <- Zplus_mod by lia.
      * intros t. cbn [balance_add bal_tokens]. rewrite (tokens_add_spec _ tokens t _ (Htok t)).
        rewrite unspent_sum_snoc.
        replace (tokens_at _ t e) with (amount_of t tokens) by (unfold tokens_at; by rewrite decide_True).
        done.
    + intros Ha. destruct (Ra _ _ Ha) as (Ht & Hp & Hn & Htok).
      assert (e_hash e <> th) as Hne by done.
      unfold address_agrees. split_and!; [done| | |].
      * rewrite positions_snoc.
        replace (at_address th e) with 0%nat by (unfold at_address; by rewrite decide_False). by rewrite app_nil_r.
      * rewrite unspent_sum_snoc.
        replace (value_at th e) with 0 by (unfold value_at; by rewrite decide_False).
        by destruct (unspent e); rewrite Z.add_0_r.
      * intros t. rewrite unspent_sum_snoc.
        replace (tokens_at th t e) with 0 by (unfold tokens_at; by rewrite decide_False).
        by destruct (unspent e); rewrite Z.add_0_r.
  - intros th. rewrite lookup_insert. case_decide as Hth; [done|]. intros Hnone%Rna.
    rewrite fmap_app. intros [?|Hin%list_elem_of_singleton]%elem_of_app; [done|]. by apply Hth.
  - intros uid t Ht. pose proof (tokens_output_spec (global_box_index (ix_state ix)) (ix_tokens ix) tokens uid) as Hs.
    cbv zeta in Hs. rewrite Ht in Hs. rewrite Hs, Rc, Ei, positions_snoc. f_equal. unfold indexes_of.
    destruct (ix_tokens ix !! uid) as [t0|] eqn:E0; cbn.
    + by apply Rt.
    + symmetry. by apply positions_nil, Rnt.
  - intros uid Ht. pose proof (tokens_output_spec (global_box_index (ix_state ix)) (ix_tokens ix) tokens uid) as Hs.
    cbv zeta in Hs. rewrite Ht in Hs. destruct Hs as [Hm0 Hc]. apply Forall_app. split; [by apply Rnt|].
    by apply Forall_singleton.
Qed.

Lemma spend_record i e tx h :
  mark_spent (entry_record i e) tx h = entry_record i (spend_entry tx h e).
Proof. done. Qed.

Lemma spend_represents ix l id tx h i e :
  represents ix l -> Z.of_nat (length l) < 2 ^ 63 ->
  l !! i = Some e -> e_id e = id -> unspent e = true ->
  exists ix', spend_box ix id tx h = Ok (Some (Z.of_nat i), ix') /\
    represents ix' (<[i := spend_entry tx h e]> l).
Proof.
  intros [Rc Rb Rn Ra Rna Rt Rnt] Hl Hi He Hu.
  assert (ix_boxes ix !! id = Some (entry_record i e)) as Hb by (apply Rb; eauto).
  assert (e_hash e ∈ e_hash <$> l) as Hhash by (by eapply list_elem_of_fmap_2, list_elem_of_lookup_2).
  destruct (ix_addresses ix !! e_hash e) as [a|] eqn:Ea; [|by apply Rna in Ea].
  destruct (tokens_spend_spec (Z.of_nat i) (ix_tokens ix) (e_tokens e)) as (m' & Hm & Hml).
  { intros t Ht. destruct (ix_tokens ix !! token_unique_id t.1) eqn:Et; [done|]. exfalso.
    apply Rnt in Et. rewrite Forall_lookup in Et. specialize (Et _ _ Hi). unfold with_token in Et.
    apply length_zero_iff_nil in Et. assert (t ∈ filter (fun t' => token_unique_id t'.1 = token_unique_id t.1) (e_tokens e)) as Hin
      by (by apply list_elem_of_filter). rewrite Et in Hin. by apply not_elem_of_nil in Hin. }
  eexists. split.
  { unfold spend_box, get_box. rewrite Hb. cbn [rbind]. unfold spend_address.
    cbn [put_ix_boxes ix_addresses ergo_tree_hash entry_record]. rewrite Ea. cbn [rbind].
    cbn [put_ix_addresses put_ix_boxes ix_tokens ieb_tokens entry_record ieb_global_index].
    rewrite Hm. cbn [rbind]. done. }
  pose proof (lookup_lt_Some _ _ _ Hi) as Hlt.
  assert (forall f, (forall e', f (spend_entry tx h e') = f e') -> f <$> <[i := spend_entry tx h e]> l = f <$> l :> list bytes) as Hf.
  { intros f Hf. rewrite list_fmap_insert, Hf. apply list_insert_id. by rewrite list_lookup_fmap, Hi. }
  constructor; cbn [put_ix_tokens put_ix_addresses put_ix_boxes ix_state ix_boxes ix_addresses ix_tokens].
  - by rewrite length_insert.
  - intros id' b. rewrite spend_record, lookup_insert. case_decide as Hid; [subst id'|].
    + split.
      * intros [= <-]. exists i, (spend_entry tx h e). split_and!; [by apply list_lookup_insert_eq|done..].
      * intros (j & e' & Hj & He' & ->). rewrite list_lookup_insert in Hj by done.
        case_decide as Hij; [naive_solver|]. exfalso. apply Hij. split; [|done].
        apply (NoDup_lookup _ _ _ id Rn); rewrite list_lookup_fmap, ?Hi, ?Hj; cbn; congruence.
    + rewrite Rb. split; intros (j & e' & Hj & He' & ->); exists j, e'.
      * split_and!; [|done..]. rewrite list_lookup_insert_ne; [done|]. intros ->. naive_solver.
      * split_and!; [|done..]. rewrite list_lookup_insert in Hj by done.
        case_decide; [|done]. naive_solver.
  - by rewrite Hf.
  - intros th a'. cbn [ergo_tree_hash entry_record]. rewrite lookup_insert. case_decide as Hth; [subst th|].
    + intros [= <-]. destruct (Ra _ _ Ea) as (Ht & Hp & Hn & Htok).
      unfold address_agrees. cbn [address_spend_box tree_hash ia_box_indexes balance balance_subtract
        nano_ergs bal_tokens ieb_global_index ieb_value ieb_tokens entry_record]. split_and!; [done| | |].
      * rewrite positions_spend by done. by rewrite Hp, (proj1 (at_own_address e [])).
      * rewrite Hn, unspent_sum_spend by done. rewrite (proj1 (proj2 (at_own_address e []))).
        apply swrap_cong; [lia|]. by rewrite Zminus_mod, !swrap_mod, <- Zminus_mod by lia.
      * intros t. rewrite (tokens_subtract_spec _ _ t _ (Htok t)), unspent_sum_spend by done.
        by rewrite (proj2 (proj2 (at_own_address e t))).
    + intros Ha. destruct (Ra _ _ Ha) as (Ht & Hp & Hn & Htok).
      unfold address_agrees. split_and!; [done| | |].
      * by rewrite positions_spend, (proj1 (at_other_address th e [] Hth)).
      * by rewrite unspent_sum_spend, (proj1 (proj2 (at_other_address th e [] Hth))), Z.sub_0_r.
      * intros t. by rewrite unspent_sum_spend, (proj2 (proj2 (at_other_address th e t Hth))), Z.sub_0_r.
  - intros th. cbn [ergo_tree_hash entry_record]. rewrite lookup_insert. case_decide; [done|].
    intros Hnone%Rna. by rewrite Hf.
  - intros uid t. rewrite Hml. intros (t0 & Ht0 & ->)%fmap_Some_1.
    rewrite iter_spend_indexes, (Rt _ _ Ht0). symmetry. by apply positions_spend.
  - intros uid. rewrite Hml, fmap_None. intros Hnone%Rnt. apply Forall_insert; [done|].
    rewrite Forall_lookup in Hnone. by apply (Hnone i e).
Qed.


Lemma new_represents storage config : represents (ExtraIndexer_new storage config) [].
Proof.
  constructor; cbn [ExtraIndexer_new ix_state ix_boxes ix_addresses ix_tokens].
  - done.
  - intros id b. rewrite lookup_empty. split; [done|]. by intros (i & e & Hi & _).
  - constructor.
  - intros th a. by rewrite lookup_empty.
  - intros th _ Hin. by apply not_elem_of_nil in Hin.
  - intros uid t. by rewrite lookup_empty.
  - intros uid _. constructor.
Qed.

Lemma register_represents ix l id cb amount name desc dec :
  represents ix l -> represents (register_token ix id cb amount name desc dec) l.
Proof.
  intros [Rc Rb Rn Ra Rna Rt Rnt]. constructor; try done.
  - intros uid t. unfold register_token. cbn [put_ix_tokens ix_tokens]. rewrite lookup_insert.
    case_decide as Hu; [subst uid|by apply Rt]. intros [= <-].
    destruct (ix_tokens ix !! token_unique_id id) as [t0|] eqn:Et; cbn [add_emission with_creation_info it_box_indexes].
    + by apply Rt.
    + symmetry. by apply positions_nil, Rnt.
  - intros uid. unfold register_token. cbn [put_ix_tokens ix_tokens]. rewrite lookup_insert.
    case_decide; [done|apply Rnt].
Qed.

Lemma ledger_step_length l a l' : ledger_step l a = Some l' -> (length l <= length l')%nat.
Proof.
  destruct a; cbn [ledger_step]; try (intros [= <-]; lia).
  - case_decide; intros [= <-]. rewrite length_app. lia.
  - destruct (list_find _ l) as [[i e]|]; [|done]. destruct (unspent e); [|done].
    intros [= <-]. by rewrite length_insert.
Qed.

Lemma ledger_run_length l acts l' : ledger_run l acts = Some l' -> (length l <= length l')%nat.
Proof.
  revert l. induction acts as [|a acts IH]; intros l; cbn [ledger_run]; [intros [= <-]; lia|].
  destruct (ledger_step l a) as [l1|] eqn:E; [|done]. intros Hr%IH.
  apply ledger_step_length in E. lia.
Qed.

Lemma step_represents ix l a l' :
  represents ix l -> ledger_step l a = Some l' -> Z.of_nat (length l') < 2 ^ 63 ->
  exists ix', index_step ix a = Ok ix' /\ represents ix' l'.
Proof.
  intros Hr Hs Hl. destruct a as [id h bs v tree tokens|id tx h|tx i h sz ins outs data|id cb amt n d dec|h];
    cbn [ledger_step index_step] in *.
  - case_decide as Hid; [done|]. injection Hs as <-. eexists. split; [done|].
    rewrite length_app in Hl. cbn [length] in Hl. apply output_represents; [done|done|lia].
  - destruct (list_find _ l) as [[i e]|] eqn:Ef; [|done]. apply list_find_Some in Ef as (Hi & He & _).
    destruct (unspent e) eqn:Hu; [|done]. injection Hs as <-. rewrite length_insert in Hl.
    destruct (spend_represents ix l id tx h i e Hr Hl Hi He Hu) as (ix' & -> & Hr').
    by exists ix'.
  - injection Hs as <-. eexists. split; [done|]. by destruct Hr; constructor.
  - injection Hs as <-. eexists. split; [done|]. by apply register_represents.
  - injection Hs as <-. eexists. split; [done|]. by destruct Hr; constructor.
Qed.

(** ** Main theorems *)

(** C28: Refinement of the ledger, from a new indexer until its first flush.
    Whatever outputs (with new identifiers), spendings (of boxes not yet spent),
    transactions, token registrations and heights are indexed, in any order, no
    operation fails or blocks, and the indexer shows exactly the ledger of those
    actions: every box with its position and its spending, every address with
    the positions of its boxes (negative when spent) and the 64-bit sums of its
    unspent coins and tokens, every token with the positions of the boxes that
    hold it.  It ends with the first flush: afterwards the spending of a flushed
    box deadlocks and an address starts a new record
    (IndexerFlush.flushed_history_unused). *)
Theorem index_refines_ledger storage config acts l :
  ledger_run [] acts = Some l -> Z.of_nat (length l) < 2 ^ 63 ->
  exists ix, rfold index_step (ExtraIndexer_new storage config) acts = Ok ix /\ represents ix l.
Proof.
  pose proof (new_represents storage config) as Hr. revert Hr.
  generalize (ExtraIndexer_new storage config : indexer) ([] : list Entry).
  induction acts as [|a acts IH]; intros ix l0 Hr; cbn [ledger_run rfold].
  - intros [= <-] _. by exists ix.
  - destruct (ledger_step l0 a) as [l1|] eqn:E; [|done]. intros Hrun Hl.
    destruct (step_represents ix l0 a l1 Hr E) as (ix1 & -> & Hr1).
    { apply ledger_run_length in Hrun. lia. }
    by apply (IH ix1 l1).
Qed.
End Refinement.

Module IndexExample.
#[local] Existing Instances Mem.mem_storage Toy.toy_hash Toy.toy_order.

Definition ex_id (z : Z) : bytes := replicate 32 z.

(** Two outputs to one address, a transaction, and the second is spent. *)
Definition acts : list Action :=
  [AOutput (ex_id 1) 5 [1; 2; 3] 1000 [9] [(ex_id 7, 30)];
   AOutput (ex_id 2) 5 [4] 500 [9] [(ex_id 7, 12); (ex_id 8, 1)];
   ATransaction (ex_id 3) 0 5 200 [] [0; 1] [];
   AHeight 5;
   ASpend (ex_id 2) (ex_id 4) 6].

Definition ledger : list Entry := default [] (ledger_run [] acts).

Lemma index_refines_ledger_witness :
  ledger_run [] acts = Some ledger /\ Z.of_nat (length ledger) < 2 ^ 63 /\
  exists ix, rfold index_step (ExtraIndexer_new Mem.empty IndexerConfig_default) acts = Ok ix
    /\ represents ix ledger.
Proof.
  split_and!; [vm_compute; reflexivity|vm_compute; reflexivity|].
  apply (index_refines_ledger Mem.empty IndexerConfig_default acts ledger); vm_compute; reflexivity.
Defined.

(** The address holds the first box and owns nothing of the second. *)
Lemma ledger_shown :
  positions (at_address (hash_ergo_tree [9])) ledger = [0; -1]
  /\ unspent_sum (value_at (hash_ergo_tree [9])) ledger = 1000
  /\ unspent_sum (tokens_at (hash_ergo_tree [9]) (ex_id 7)) ledger = 30.
Proof. by vm_compute. Qed.
End IndexExample.
