(* ===== verification/IndexerFlush.v ===== *)
(** * Flushing and restarting the extra indexer

    What a flush writes, that no lookup changes, that a restart finds the
    flushed indexer, and what indexing after a flush does: a known address
    starts again from nothing, and spending a flushed box never returns. *)

From S2P Require Export IndexerSpec.

Local Open Scope Z_scope.

(** ** Batches of puts *)

Definition put_op (cf : ColumnFamily) (k v : bytes) : BatchOperation := mkBatchOperation cf k (OpPut v).

Lemma fold_puts {A} (f : WriteBatch -> A -> WriteBatch) (g : A -> list BatchOperation) l b :
  (forall b x, f b x = b ++ g x) -> foldl f b l = b ++ (l ≫= g).
Proof.
  intros Hf. revert b. induction l as [|x l IH]; intros b; cbn [foldl]; [by rewrite app_nil_r|].
  rewrite IH, Hf. cbn. by rewrite <- app_assoc.
Qed.

Lemma batch_last_op b cf k :
  match batch_last b cf k with
  | Some x => mkBatchOperation cf k x ∈ b
  | None => forall x, mkBatchOperation cf k x ∉ b
  end.
Proof.
  induction b as [|[cf' k' x'] b IH]; cbn [batch_last op_cf op_key op_kind].
  - intros x Hx. by apply not_elem_of_nil in Hx.
  - destruct (batch_last b cf k) as [x|]; [by right|]. case_decide as Hk.
    + destruct Hk as [-> ->]. by left.
    + intros x [Heq|Hin]%elem_of_cons; [naive_solver|]. by apply (IH x).
Qed.

(** One value per key: that value is what the batch leaves. *)
Lemma batch_last_put_only b cf k v :
  put_op cf k v ∈ b -> (forall x, mkBatchOperation cf k x ∈ b -> x = OpPut v) ->
  batch_last b cf k = Some (OpPut v).
Proof.
  intros Hin Hun. pose proof (batch_last_op b cf k) as Hb.
  destruct (batch_last b cf k) as [x|]; [by rewrite (Hun x Hb)|]. by apply Hb in Hin.
Qed.

Lemma batch_last_absent b cf k :
  (forall x, mkBatchOperation cf k x ∉ b) -> batch_last b cf k = None.
Proof.
  intros Hno. apply batch_last_untouched, Forall_forall. intros [c k' x] Hin [Hc Hk]. cbn in Hc, Hk. subst.
  by apply Hno in Hin.
Qed.

Section Flush.
Context {DB : Type} `{StorageLaws DB} `{Blake2b256} `{HashOrderLaws}.

Abbreviation indexer := (ExtraIndexer DB).

Definition box_ops (p : bytes * IndexedErgoBox) : list BatchOperation :=
  [put_op ExtraIndex p.1 (box_record_serialize p.2);
   put_op BoxIndex (be_bytes 8 (ieb_global_index p.2)) p.1].
Definition tx_ops (t : IndexedErgoTransaction) : list BatchOperation :=
  [put_op ExtraIndex (itx_tx_id t) (tx_record_serialize t);
   put_op TxNumericIndex (be_bytes 8 (itx_global_index t)) (itx_tx_id t)].
Definition address_ops (p : bytes * IndexedErgoAddress) : list BatchOperation :=
  [put_op ExtraIndex p.1 (address_serialize p.2)].
Definition token_ops (p : bytes * IndexedToken) : list BatchOperation :=
  [put_op ExtraIndex p.1 (token_serialize p.2)].

Lemma flush_batch_ops (ix : indexer) :
  flush_batch ix =
    [put_op Metadata indexer_state_key (state_serialize (ix_state ix))]
    ++ (hash_iter _ (ix_boxes ix) ≫= box_ops) ++ (ix_transactions ix ≫= tx_ops)
    ++ (hash_iter _ (ix_addresses ix) ≫= address_ops) ++ (hash_iter _ (ix_tokens ix) ≫= token_ops).
Proof.
  unfold flush_batch. cbv zeta.
  rewrite (fold_puts _ token_ops) by by intros b [k t].
  rewrite (fold_puts _ address_ops) by by intros b [k a].
  rewrite (fold_puts _ tx_ops) by (intros b t; unfold batch_put; by rewrite <- app_assoc).
  rewrite (fold_puts _ box_ops) by (intros b [k t]; unfold batch_put; by rewrite <- app_assoc).
  unfold batch_put. by rewrite <- !app_assoc.
Qed.

(** What a flush puts under the keys of [ExtraIndex], and which box each
    position names. *)
Definition extra_items (ix : indexer) : list (bytes * bytes) :=
  (prod_map id box_record_serialize <$> hash_iter _ (ix_boxes ix))
  ++ ((fun t => (itx_tx_id t, tx_record_serialize t)) <$> ix_transactions ix)
  ++ (prod_map id address_serialize <$> hash_iter _ (ix_addresses ix))
  ++ (prod_map id token_serialize <$> hash_iter _ (ix_tokens ix)).

Lemma extra_ops (ix : indexer) k x :
  mkBatchOperation ExtraIndex k x ∈ flush_batch ix <->
  exists v, x = OpPut v /\ (k, v) ∈ extra_items ix.
Proof.
  rewrite flush_batch_ops. unfold extra_items. rewrite !elem_of_app, list_elem_of_singleton.
  rewrite !list_elem_of_bind. split.
  - intros [Hs|[([k' b] & Hx & Hin)|[(t & Hx & Hin)|[([k' a] & Hx & Hin)|([k' t] & Hx & Hin)]]]]; [done|..];
      unfold box_ops, tx_ops, address_ops, token_ops in Hx; cbn [fst snd] in Hx;
      rewrite ?elem_of_cons in Hx; destruct_or?; try (by apply not_elem_of_nil in Hx); try done;
      injection Hx as -> ->; eexists; (split; [done|]); rewrite !elem_of_app.
    + left. apply list_elem_of_fmap. by exists (k', b).
    + right; left. apply list_elem_of_fmap. by exists t.
    + right; right; left. apply list_elem_of_fmap. by exists (k', a).
    + right; right; right. apply list_elem_of_fmap. by exists (k', t).
  - intros (v & -> & Hin). rewrite !elem_of_app, !list_elem_of_fmap in Hin. right.
    destruct Hin as [([k' b] & [= -> ->] & Hin)|[(t & [= -> ->] & Hin)|[([k' a] & [= -> ->] & Hin)|([k' t] & [= -> ->] & Hin)]]].
    + left. eexists. split; [|done]. by left.
    + right; left. eexists. split; [|done]. by left.
    + right; right; left. eexists. split; [|done]. by left.
    + right; right; right. eexists. split; [|done]. by left.
Qed.

Lemma position_ops (ix : indexer) k x :
  mkBatchOperation BoxIndex k x ∈ flush_batch ix <->
  exists id b, ix_boxes ix !! id = Some b /\ k = be_bytes 8 (ieb_global_index b) /\ x = OpPut id.
Proof.
  rewrite flush_batch_ops, !elem_of_app, list_elem_of_singleton, !list_elem_of_bind. split.
  - intros [Hs|[([k' b] & Hx & Hin)|[(t & Hx & Hin)|[([k' a] & Hx & Hin)|([k' t] & Hx & Hin)]]]]; [done|..];
      unfold box_ops, tx_ops, address_ops, token_ops in Hx; cbn [fst snd] in Hx;
      rewrite ?elem_of_cons in Hx; destruct_or?; try (by apply not_elem_of_nil in Hx); try done.
    injection Hx as -> ->. apply hash_iter_elem in Hin. by exists k', b.
  - intros (id & b & Hb & -> & ->). right; left. exists (id, b). split; [by right; left|].
    by apply hash_iter_elem.
Qed.

Lemma state_op (ix : indexer) x :
  mkBatchOperation Metadata indexer_state_key x ∈ flush_batch ix <->
  x = OpPut (state_serialize (ix_state ix)).
Proof.
  rewrite flush_batch_ops, !elem_of_app, list_elem_of_singleton, !list_elem_of_bind. split.
  - intros [Hs|[([k' b] & Hx & Hin)|[(t & Hx & Hin)|[([k' a] & Hx & Hin)|([k' t] & Hx & Hin)]]]];
      [by injection Hs|..];
      unfold box_ops, tx_ops, address_ops, token_ops in Hx; cbn [fst snd] in Hx;
      rewrite ?elem_of_cons in Hx; destruct_or?; try (by apply not_elem_of_nil in Hx); done.
  - intros ->. by left.
Qed.

(** ** Buffers that can be written *)

(** The records fit their formats, and no two of them share a key: box and
    transaction identifiers, script hashes and token keys are distinct hashes. *)
Record buffers_ok (ix : indexer) : Prop := {
  bo_state : state_ok (ix_state ix);
  bo_boxes id b : ix_boxes ix !! id = Some b -> id_ok id /\ box_record_ok b;
  bo_txs : Forall tx_record_ok (ix_transactions ix);
  bo_addresses th a : ix_addresses ix !! th = Some a -> address_ok a;
  bo_tokens uid t : ix_tokens ix !! uid = Some t -> token_record_ok t;
  bo_positions id id' b b' : ix_boxes ix !! id = Some b -> ix_boxes ix !! id' = Some b' ->
    ieb_global_index b = ieb_global_index b' -> id = id';
  bo_keys : NoDup (extra_items ix).*1
}.

Lemma flushed_item (ix : indexer) k v :
  buffers_ok ix -> (k, v) ∈ extra_items ix -> st_get (ix_storage (flush ix)) ExtraIndex k = Some v.
Proof.
  intros Hok Hin. unfold flush. cbn [clear_buffers ix_storage]. rewrite st_get_write_batch.
  rewrite (batch_last_put_only _ _ _ v); [done|by apply extra_ops; eauto|].
  intros x (v' & -> & Hin')%extra_ops. f_equal.
  apply (elem_of_list_to_map (M := gmap bytes)) in Hin, Hin'; [congruence|apply bo_keys, Hok..].
Qed.

Lemma unflushed_item (ix : indexer) k :
  k ∉ (extra_items ix).*1 -> st_get (ix_storage (flush ix)) ExtraIndex k = st_get (ix_storage ix) ExtraIndex k.
Proof.
  intros Hk. unfold flush. cbn [clear_buffers ix_storage]. rewrite st_get_write_batch.
  rewrite batch_last_absent; [done|]. intros x (v & _ & Hin)%extra_ops. apply Hk.
  apply list_elem_of_fmap. by exists (k, v).
Qed.

Lemma flushed_position (ix : indexer) id b :
  buffers_ok ix -> ix_boxes ix !! id = Some b ->
  st_get (ix_storage (flush ix)) BoxIndex (be_bytes 8 (ieb_global_index b)) = Some id.
Proof.
  intros Hok Hb. unfold flush. cbn [clear_buffers ix_storage]. rewrite st_get_write_batch.
  rewrite (batch_last_put_only _ _ _ id); [done|apply position_ops; eauto|].
  intros x (id' & b' & Hb' & Hk & ->)%position_ops. f_equal.
  apply (bo_positions ix Hok id' id b' b Hb' Hb).
  destruct (bo_boxes ix Hok _ _ Hb) as [_ (_ & _ & _ & _ & Hg & _)].
  destruct (bo_boxes ix Hok _ _ Hb') as [_ (_ & _ & _ & _ & Hg' & _)].
  symmetry. apply (be_bytes_inj 8); [exact Hg|exact Hg'|done].
Qed.

Lemma flushed_state (ix : indexer) :
  st_get (ix_storage (flush ix)) Metadata indexer_state_key = Some (state_serialize (ix_state ix)).
Proof.
  unfold flush. cbn [clear_buffers ix_storage]. rewrite st_get_write_batch.
  rewrite (batch_last_put_only _ _ _ (state_serialize (ix_state ix))); [done|by apply state_op|].
  by intros x ->%state_op.
Qed.

(** A key no buffered record uses. *)
Definition other_key (ix : indexer) (k : bytes) : Prop := k ∉ (extra_items ix).*1.

Lemma flush_get_box (ix : indexer) id :
  buffers_ok ix -> is_Some (ix_boxes ix !! id) \/ other_key ix id ->
  get_box (flush ix) id = get_box ix id.
Proof.
  intros Hok Hk. unfold get_box. unfold flush at 1. cbn [clear_buffers ix_boxes]. rewrite lookup_empty.
  destruct (ix_boxes ix !! id) as [b|] eqn:Eb.
  - rewrite (flushed_item _ _ (box_record_serialize b) Hok).
    + cbn [parse_stored]. by rewrite box_record_roundtrip by by apply (bo_boxes ix Hok id).
    + unfold extra_items. rewrite !elem_of_app. left. apply list_elem_of_fmap.
      exists (id, b). by rewrite hash_iter_elem.
  - destruct Hk as [[]|Hk]; [done|]. by rewrite unflushed_item.
Qed.

Lemma flush_get_address (ix : indexer) th :
  buffers_ok ix -> is_Some (ix_addresses ix !! th) \/ other_key ix th ->
  get_address (flush ix) th = get_address ix th.
Proof.
  intros Hok Hk. unfold get_address. unfold flush at 1. cbn [clear_buffers ix_addresses]. rewrite lookup_empty.
  destruct (ix_addresses ix !! th) as [a|] eqn:Ea.
  - rewrite (flushed_item _ _ (address_serialize a) Hok).
    + cbn [parse_stored]. by rewrite address_roundtrip by by apply (bo_addresses ix Hok th).
    + unfold extra_items. rewrite !elem_of_app. right; right; left. apply list_elem_of_fmap.
      exists (th, a). by rewrite hash_iter_elem.
  - destruct Hk as [[]|Hk]; [done|]. by rewrite unflushed_item.
Qed.

Lemma flush_get_token (ix : indexer) id :
  buffers_ok ix -> is_Some (ix_tokens ix !! token_unique_id id) \/ other_key ix (token_unique_id id) ->
  get_token (flush ix) id = get_token ix id.
Proof.
  intros Hok Hk. unfold get_token. cbv zeta. unfold flush at 1. cbn [clear_buffers ix_tokens]. rewrite lookup_empty.
  destruct (ix_tokens ix !! token_unique_id id) as [t|] eqn:Et.
  - rewrite (flushed_item _ _ (token_serialize t) Hok).
    + cbn [parse_stored]. by rewrite token_roundtrip by by apply (bo_tokens ix Hok (token_unique_id id)).
    + unfold extra_items. rewrite !elem_of_app. right; right; right. apply list_elem_of_fmap.
      exists (token_unique_id id, t). by rewrite hash_iter_elem.
  - destruct Hk as [[]|Hk]; [done|]. by rewrite unflushed_item.
Qed.

Lemma flush_get_transaction (ix : indexer) id :
  buffers_ok ix -> id ∈ itx_tx_id <$> ix_transactions ix \/ other_key ix id ->
  get_transaction (flush ix) id = get_transaction ix id.
Proof.
  intros Hok Hk. unfold get_transaction. unfold flush at 1. cbn [clear_buffers ix_transactions list_find].
  destruct (list_find _ (ix_transactions ix)) as [[i t]|] eqn:Et.
  - apply list_find_Some in Et as (Hi & <- & _).
    rewrite (flushed_item _ _ (tx_record_serialize t) Hok).
    + cbn [parse_stored]. rewrite tx_record_roundtrip; [done|].
      pose proof (bo_txs ix Hok) as Ht. rewrite Forall_lookup in Ht. by apply (Ht i).
    + unfold extra_items. rewrite !elem_of_app. right; left. apply list_elem_of_fmap.
      exists t. split; [done|]. by eapply list_elem_of_lookup_2.
  - destruct Hk as [Hin|Hk]; [|by rewrite unflushed_item].
    apply list_elem_of_fmap in Hin as (t & -> & Hin). apply list_find_None in Et.
    rewrite Forall_forall in Et. by destruct (Et t Hin).
Qed.

(** The positions of the flushed boxes. *)
Lemma flush_get_position (ix : indexer) id b :
  buffers_ok ix -> ix_boxes ix !! id = Some b -> get_box_by_index (flush ix) (ieb_global_index b) = Ok (Some b).
Proof.
  intros Hok Hb. unfold get_box_by_index. rewrite (flushed_position ix id b Hok Hb).
  destruct (bo_boxes ix Hok _ _ Hb) as [-> _]. cbn [Nat.eqb].
  rewrite flush_get_box by (eauto || by left). unfold get_box. by rewrite Hb.
Qed.

(** A flush changes no answer.  When the buffered records fit their formats
    and their keys are distinct, every box, transaction, address and token
    looked up after the flush is what it was before, each buffered box is found
    by its position, and an indexer started on the flushed store is the flushed
    indexer. *)
Theorem flush_keeps_lookups (ix : indexer) :
  buffers_ok ix ->
  (forall id, is_Some (ix_boxes ix !! id) \/ other_key ix id -> get_box (flush ix) id = get_box ix id)
  /\ (forall id, id ∈ itx_tx_id <$> ix_transactions ix \/ other_key ix id ->
        get_transaction (flush ix) id = get_transaction ix id)
  /\ (forall th, is_Some (ix_addresses ix !! th) \/ other_key ix th ->
        get_address (flush ix) th = get_address ix th)
  /\ (forall id, is_Some (ix_tokens ix !! token_unique_id id) \/ other_key ix (token_unique_id id) ->
        get_token (flush ix) id = get_token ix id)
  /\ (forall id b, ix_boxes ix !! id = Some b ->
        get_box_by_index (flush ix) (ieb_global_index b) = Ok (Some b))
  /\ load_state (ExtraIndexer_new (ix_storage (flush ix)) (ix_config ix)) = flush ix.
Proof.
  intros Hok. split_and!.
  - intros. by apply flush_get_box.
  - intros. by apply flush_get_transaction.
  - intros. by apply flush_get_address.
  - intros. by apply flush_get_token.
  - intros id b. by apply flush_get_position.
  - unfold load_state. cbn [ExtraIndexer_new ix_storage]. rewrite flushed_state.
    by rewrite state_roundtrip by apply bo_state, Hok.
Qed.

(** Indexing does not go on from what was flushed.  After a flush, the
    first output to an address leaves a record with that box alone, whatever
    the store holds for the address, and spending any box of the flush blocks
    for ever on the lock of the address table. *)
Theorem flushed_history_unused (ix : indexer) :
  buffers_ok ix ->
  (forall id height bs value tree tokens,
    let ix' := snd (index_output (flush ix) id height bs value tree tokens) in
    get_address ix' (hash_ergo_tree tree) =
      Ok (Some (address_add_box (IndexedErgoAddress_new (hash_ergo_tree tree))
                  (global_box_index (ix_state ix)) value tokens)))
  /\ (forall id b tx_id height, ix_boxes ix !! id = Some b ->
        spend_box (flush ix) id tx_id height = Err IndexDeadlock).
Proof.
  intros Hok. split.
  - intros id height bs value tree tokens ix'. unfold ix', get_address, index_output, flush.
    cbn [snd put_ix_state put_ix_tokens put_ix_addresses put_ix_boxes ix_addresses clear_buffers ix_state].
    by rewrite lookup_insert_eq, lookup_empty.
  - intros id b tx_id height Hb. unfold spend_box. rewrite flush_get_box by (eauto || by left).
    unfold get_box. rewrite Hb. cbn [rbind]. unfold spend_address, flush.
    cbn [put_ix_boxes ix_addresses clear_buffers]. by rewrite lookup_empty.
Qed.
End Flush.

Module FlushExample.
#[local] Existing Instances Mem.mem_storage Mem.mem_laws Toy.toy_hash Toy.toy_order Toy.toy_order_laws.
Import IndexExample.

Definition ix : ExtraIndexer Mem.t :=
  snd (index_output (ExtraIndexer_new Mem.empty IndexerConfig_default) (ex_id 1) 5 [1; 2; 3] 1000 [9]
         [(ex_id 7, 30)]).

Lemma ix_ok : buffers_ok ix.
Proof.
  constructor.
  - vm_compute. split_and!; done.
  - intros id b. unfold ix, index_output. cbn [snd put_ix_state put_ix_tokens put_ix_addresses put_ix_boxes ix_boxes].
    rewrite lookup_insert_Some. intros [[<- <-]|[_ Hno]]; [|done]. split; [done|].
    unfold box_record_ok. split_and!; try done. repeat constructor; done.
  - constructor.
  - intros th a. unfold ix, index_output. cbn [snd put_ix_state put_ix_tokens put_ix_addresses put_ix_boxes ix_addresses].
    rewrite lookup_insert_Some. intros [[<- <-]|[_ Hno]]; [|done].
    unfold address_ok, balance_ok. split_and!; try done; [|by repeat constructor].
    change (map_Forall (fun id amount => id_ok id /\ in_i 64 amount) ({[ex_id 7 := 30]} : gmap bytes Z)).
    apply map_Forall_singleton. done.
  - intros uid t. unfold ix, index_output. cbn [snd put_ix_state put_ix_tokens put_ix_addresses put_ix_boxes ix_tokens foldl].
    unfold token_output. cbv zeta. rewrite lookup_insert_Some. intros [[<- <-]|[_ Hno]]; [|done].
    unfold token_record_ok. split_and!; try done. by repeat constructor.
  - intros id id' b b'. unfold ix, index_output.
    cbn [snd put_ix_state put_ix_tokens put_ix_addresses put_ix_boxes ix_boxes].
    rewrite !lookup_insert_Some. intros [[<- _]|[_ Hno]]; [|done]. by intros [[<- _]|[_ Hno]].
  - apply (bool_decide_unpack _). vm_compute. exact I.
Qed.

Lemma flush_keeps_lookups_witness :
  buffers_ok ix /\ get_box_by_index (flush ix) 0 = get_box ix (ex_id 1)
  /\ load_state (ExtraIndexer_new (ix_storage (flush ix)) (ix_config ix)) = flush ix.
Proof.
  split; [exact ix_ok|].
  destruct (flush_keeps_lookups ix ix_ok) as (_ & _ & _ & _ & Hpos & Hload). split; [|exact Hload].
  assert (exists b, ix_boxes ix !! ex_id 1 = Some b /\ ieb_global_index b = 0) as (b & Hb & H0)
    by (eexists; by split).
  rewrite <- H0, (Hpos _ _ Hb). unfold get_box. by rewrite Hb.
Defined.

Lemma flushed_history_unused_witness :
  buffers_ok ix /\ spend_box (flush ix) (ex_id 1) (ex_id 5) 6 = Err IndexDeadlock
  /\ (address_unspent_count <$> from_ok None
        (get_address (snd (index_output (flush ix) (ex_id 2) 6 [] 7 [9] [])) (hash_ergo_tree [9])))
     = Some 1%nat.
Proof.
  split; [exact ix_ok|]. destruct (flushed_history_unused ix ix_ok) as [Hout Hspend]. split.
  - assert (exists b, ix_boxes ix !! ex_id 1 = Some b) as [b Hb] by by eexists.
    exact (Hspend _ b _ _ Hb).
  - rewrite (Hout (ex_id 2) 6 [] 7 [9] []). reflexivity.
Defined.
End FlushExample.
