(* ===== verification/Wallet.v ===== *)
(** * The wallet (crates/ergo-wallet/src/wallet.rs, keystore.rs)

    The key store (an encrypted seed, in memory and in its file, and the keys
    derived from it while it is unlocked) and the wallet over it.  Operations
    change the state before they fail, so they are in a state and error monad.
    Key derivation, addresses, encryption and JSON are interfaces; the file
    system answers through [FileEnv]. *)

From S2P Require Export ErgoTypes.

Local Open Scope Z_scope.

(** ** Box tracking of the wallet (crates/ergo-wallet/src/tracker.rs)

    Addresses, the boxes known for each of them, and the balance computed from
    the boxes that are not spent in the memory pool. *)

Record WalletBox := mkWalletBox {
  wb_box_id : bytes; wb_value : Z; wb_tokens : list (bytes * Z); wb_creation_height : Z;
  wb_address : bytes; pending_spent : bool }.

Record WalletBalance := mkWalletBalance {
  total_erg : Z; confirmed_erg : Z; pending_erg : Z; wallet_tokens : gmap bytes Z }.
Definition WalletBalance_default : WalletBalance := mkWalletBalance 0 0 0 ∅.

Record BoxTracker := mkBoxTracker {
  tracked : gset bytes; tracker_boxes : gmap bytes (list WalletBox); scanned_height : Z }.

Definition BoxTracker_new : BoxTracker := mkBoxTracker ∅ ∅ 0.

(** [hex::encode]. *)
Definition hex_digit (d : Z) : Z := if d <? 10 then 48 + d else 87 + d.
Definition hex_encode (bs : bytes) : bytes :=
  concat ((fun b => [hex_digit (b / 16); hex_digit (b mod 16)]) <$> bs).

Definition track_address_str (t : BoxTracker) (address : bytes) : BoxTracker :=
  if decide (address ∈ tracked t) then t
  else mkBoxTracker ({[address]} ∪ tracked t) (<[address := []]> (tracker_boxes t)) (scanned_height t).
Definition track_address (t : BoxTracker) (address : bytes) : BoxTracker :=
  track_address_str t (hex_encode address).
Definition is_tracked (t : BoxTracker) (address : bytes) : bool := bool_decide (address ∈ tracked t).
Definition get_boxes_for_address (t : BoxTracker) (address : bytes) : list WalletBox :=
  default [] (tracker_boxes t !! address).

Definition mark_pending (b : WalletBox) : WalletBox :=
  mkWalletBox (wb_box_id b) (wb_value b) (wb_tokens b) (wb_creation_height b) (wb_address b) true.

(** The inner loop of [mark_spent]: the first box with the identifier. *)
Fixpoint mark_in (l : list WalletBox) (box_id : bytes) : option (list WalletBox) :=
  match l with
  | [] => None
  | b :: l' =>
      if decide (wb_box_id b = box_id) then Some (mark_pending b :: l')
      else (cons b) <$> mark_in l' box_id
  end.

Definition add_box (t : BoxTracker) (address : bytes) (b : WalletBox) : BoxTracker :=
  match tracker_boxes t !! address with
  | Some l => mkBoxTracker (tracked t) (<[address := l ++ [b]]> (tracker_boxes t)) (scanned_height t)
  | None => mkBoxTracker ({[address]} ∪ tracked t) (<[address := [b]]> (tracker_boxes t)) (scanned_height t)
  end.

Definition remove_spent (t : BoxTracker) (box_ids : list bytes) : BoxTracker :=
  mkBoxTracker (tracked t) (filter (fun b => wb_box_id b ∉ box_ids) <$> tracker_boxes t) (scanned_height t).

Definition tracker_clear (t : BoxTracker) : BoxTracker := BoxTracker_new.

(** [scan] only records the height: no block is read. *)
Definition scan (t : BoxTracker) (current_height : Z) : Z * BoxTracker :=
  if current_height <=? scanned_height t then (0, t)
  else (current_height - scanned_height t, mkBoxTracker (tracked t) (tracker_boxes t) current_height).

(** One box in [balance]. *)
Definition balance_token (m : gmap bytes Z) (p : bytes * Z) : gmap bytes Z :=
  <[p.1 := u64 (default 0 (m !! p.1) + p.2)]> m.
Definition balance_box (acc : WalletBalance) (b : WalletBox) : WalletBalance :=
  mkWalletBalance (u64 (total_erg acc + wb_value b)) (u64 (confirmed_erg acc + wb_value b))
    (pending_erg acc) (foldl balance_token (wallet_tokens acc) (wb_tokens b)).

Section Order.
Context `{HashOrder}.

Definition addresses (t : BoxTracker) : list bytes :=
  (hash_iter unit (gset_to_gmap tt (tracked t))).*1.

Definition get_unspent (t : BoxTracker) : list WalletBox :=
  filter (fun b => pending_spent b = false) (concat (hash_iter _ (tracker_boxes t)).*2).

Definition balance (t : BoxTracker) : WalletBalance :=
  foldl balance_box WalletBalance_default (get_unspent t).

(** The outer loop of [mark_spent] returns at the first list that has the box. *)
Fixpoint mark_first (l : list (bytes * list WalletBox)) (box_id : bytes)
    : option (bytes * list WalletBox) :=
  match l with
  | [] => None
  | (address, bs) :: l' =>
      match mark_in bs box_id with Some bs' => Some (address, bs') | None => mark_first l' box_id end
  end.
Definition tracker_mark_spent (t : BoxTracker) (box_id : bytes) : BoxTracker :=
  match mark_first (hash_iter _ (tracker_boxes t)) box_id with
  | Some (address, bs) =>
      mkBoxTracker (tracked t) (<[address := bs]> (tracker_boxes t)) (scanned_height t)
  | None => t
  end.
End Order.

(** ** State and errors *)

Inductive WalletError :=
  | NotInitialized
  | Locked
  | InvalidPassword
  | InvalidMnemonic (word_count : Z)
  | KeyDerivation
  | AddressNotFound (address : bytes)
  | TxBuildError
  | WalletIo
  | WalletPanic.

Definition ST (S A : Type) : Type := S -> result A WalletError * S.

#[export] Instance ST_ret S : MRet (ST S) := fun _ a s => (Ok a, s).
#[export] Instance ST_bind S : MBind (ST S) := fun _ _ f m s =>
  match m s with
  | (Ok a, s') => f a s'
  | (Err e, s') => (Err e, s')
  end.

Definition get_st {S} : ST S S := fun s => (Ok s, s).
Definition modify_st {S} (f : S -> S) : ST S unit := fun s => (Ok tt, f s).
Definition fail_with {S A} (e : WalletError) : ST S A := fun s => (Err e, s).
(** [r?] for a computation that does not touch the state. *)
Definition lift {S A} (r : result A WalletError) : ST S A := fun s => (r, s).

Record EncryptedKey := mkEncryptedKey {
  ek_version : Z; encrypted_seed : bytes; ek_salt : bytes; ek_nonce : bytes;
  memory_cost : Z; time_cost : Z; parallelism : Z }.

Definition ENCRYPTION_VERSION : Z := 1.
Definition default_version : Z := 1.
Definition default_memory_cost : Z := 65536.
Definition default_time_cost : Z := 3.
Definition default_parallelism : Z := 4.

(** ** Interfaces

    Keys and addresses of sigma-rust, the [argon2] and [aes-gcm] crates and
    [serde_json].  Argon2 returns 32 bytes, so the cipher takes the key. *)
Class WalletLib := {
  Address : Type;
  Address_eq_dec :: EqDecision Address;
  SecretKey : Type;
  ExtSecretKey : Type;
  DerivationPath : Type;
  to_seed : bytes -> bytes -> bytes;
  derive_master : bytes -> option ExtSecretKey;
  parse_path : bytes -> option DerivationPath;
  ext_derive : ExtSecretKey -> DerivationPath -> option ExtSecretKey;
  ext_secret_key : ExtSecretKey -> SecretKey;
  ext_address : ExtSecretKey -> option Address;
  to_base58 : NetworkPrefix -> Address -> bytes;
  argon2id : bytes -> bytes -> Z -> Z -> Z -> option bytes;
  aes_encrypt : bytes -> bytes -> bytes -> option bytes;
  aes_decrypt : bytes -> bytes -> bytes -> option bytes;
  key_to_json : EncryptedKey -> option bytes;
  key_from_json : bytes -> option EncryptedKey
}.

(** BIP39 seeds have 64 bytes, decryption undoes encryption, JSON round trips. *)
Class WalletLibLaws `{WalletLib} : Prop := {
  to_seed_length m p : length (to_seed m p) = 64%nat;
  aes_decrypt_encrypt k n p c : aes_encrypt k n p = Some c -> aes_decrypt k n c = Some p;
  key_json_roundtrip e j : key_to_json e = Some j -> key_from_json j = Some e
}.

(** Whether the file system performs an operation. *)
Class FileEnv := { fs_create_dir : bool; fs_write : bytes -> bool; fs_read : bytes -> bool }.

Record DerivedKey `{WalletLib} := mkDerivedKey {
  dk_secret_key : SecretKey; dk_path : DerivationPath; dk_address : Address; address_str : bytes }.

(** [ks_path] says whether the store has a path, and [ks_file] is the content
    of the file there. *)
Record KeyStore `{WalletLib} := mkKeyStore {
  ks_path : bool; ks_file : option bytes; ks_encrypted : option EncryptedKey;
  ks_seed : option bytes; ks_master_key : option ExtSecretKey; ks_network : NetworkPrefix;
  ks_derived_keys : list DerivedKey }.

Section KeyStore.
Context `{WalletLib} `{FileEnv}.

Definition with_network (network : NetworkPrefix) : KeyStore :=
  mkKeyStore _ false None None None None network [].
Definition KeyStore_new : KeyStore := with_network Mainnet.
Definition with_path_and_network (file : option bytes) (network : NetworkPrefix) : KeyStore :=
  mkKeyStore _ true file None None None network [].
Definition with_path (file : option bytes) : KeyStore := with_path_and_network file Mainnet.

Definition is_initialized (ks : KeyStore) : bool :=
  match ks_encrypted ks with Some _ => true | None => false end.
Definition is_unlocked (ks : KeyStore) : bool :=
  match ks_seed ks with Some _ => true | None => false end.

Definition put_encrypted (e : option EncryptedKey) (ks : KeyStore) : KeyStore :=
  mkKeyStore _ (ks_path ks) (ks_file ks) e (ks_seed ks) (ks_master_key ks) (ks_network ks) (ks_derived_keys ks).
Definition put_file (f : option bytes) (ks : KeyStore) : KeyStore :=
  mkKeyStore _ (ks_path ks) f (ks_encrypted ks) (ks_seed ks) (ks_master_key ks) (ks_network ks) (ks_derived_keys ks).
Definition put_secrets (seed : bytes) (master : ExtSecretKey) (ks : KeyStore) : KeyStore :=
  mkKeyStore _ (ks_path ks) (ks_file ks) (ks_encrypted ks) (Some seed) (Some master) (ks_network ks) (ks_derived_keys ks).
Definition put_derived_keys (l : list DerivedKey) (ks : KeyStore) : KeyStore :=
  mkKeyStore _ (ks_path ks) (ks_file ks) (ks_encrypted ks) (ks_seed ks) (ks_master_key ks) (ks_network ks) l.

(** [char::is_whitespace] and [split_whitespace().count()] on the characters
    of a phrase. *)
Definition is_whitespace (c : Z) : bool :=
  ((9 <=? c) && (c <=? 13)) || (c =? 32) || (c =? 0x85) || (c =? 0xA0) || (c =? 0x1680)
  || ((0x2000 <=? c) && (c <=? 0x200A)) || (c =? 0x2028) || (c =? 0x2029) || (c =? 0x202F)
  || (c =? 0x205F) || (c =? 0x3000).
Fixpoint count_words (in_word : bool) (s : list Z) : Z :=
  match s with
  | [] => 0
  | c :: s' =>
      if is_whitespace c then count_words false s'
      else (if in_word then 0 else 1) + count_words true s'
  end.

Definition derive_key_argon2id (password salt : bytes) (memory_cost time_cost parallelism : Z)
    : result bytes WalletError :=
  ok_or (argon2id password salt memory_cost time_cost parallelism) KeyDerivation.

(** [encrypt_and_store_seed]; the random salt and nonce are arguments. *)
Definition encrypt_and_store_seed (salt nonce seed password : bytes) : ST KeyStore unit :=
  key ← lift (derive_key_argon2id password salt 65536 3 4);
  encrypted_seed ← lift (ok_or (aes_encrypt key nonce seed) KeyDerivation);
  let encrypted := mkEncryptedKey ENCRYPTION_VERSION encrypted_seed salt nonce 65536 3 4 in
  modify_st (put_encrypted (Some encrypted)) ;;
  ks ← get_st;
  if ks_path ks then
    json ← lift (ok_or (key_to_json encrypted) WalletIo);
    if fs_write json then modify_st (put_file (Some json)) else fail_with WalletIo
  else mret tt.

Definition initialize_from_seed (salt nonce seed encryption_password : bytes) : ST KeyStore unit :=
  master_key ← lift (ok_or (derive_master seed) KeyDerivation);
  encrypt_and_store_seed salt nonce seed encryption_password ;;
  modify_st (put_secrets seed master_key).

Definition initialize_from_mnemonic (salt nonce mnemonic mnemonic_password encryption_password : bytes)
    : ST KeyStore unit :=
  let word_count := count_words false mnemonic in
  if bool_decide (word_count ∈ [12; 15; 18; 21; 24]) then
    let seed := to_seed mnemonic mnemonic_password in
    master_key ← lift (ok_or (derive_master seed) KeyDerivation);
    encrypt_and_store_seed salt nonce seed encryption_password ;;
    modify_st (put_secrets seed master_key)
  else fail_with (InvalidMnemonic word_count).

Definition ks_load : ST KeyStore unit :=
  ks ← get_st;
  if negb (ks_path ks) then fail_with WalletIo else
  match ks_file ks with
  | None => fail_with NotInitialized
  | Some json =>
      if negb (fs_read json) then fail_with WalletIo else
      encrypted ← lift (ok_or (key_from_json json) WalletIo);
      modify_st (put_encrypted (Some encrypted))
  end.

(** [unlock]: a stored nonce of another length panics. *)
Definition ks_unlock (password : bytes) : ST KeyStore unit :=
  ks ← get_st;
  encrypted ← lift (ok_or (ks_encrypted ks) NotInitialized);
  key ← lift (derive_key_argon2id password (ek_salt encrypted) (memory_cost encrypted)
                (time_cost encrypted) (parallelism encrypted));
  if negb (length (ek_nonce encrypted) =? 12)%nat then fail_with WalletPanic else
  decrypted ← lift (ok_or (aes_decrypt key (ek_nonce encrypted) (encrypted_seed encrypted)) InvalidPassword);
  if negb (length decrypted =? 64)%nat then fail_with InvalidPassword else
  master_key ← lift (ok_or (derive_master decrypted) InvalidPassword);
  modify_st (put_secrets decrypted master_key).

Definition ks_lock (ks : KeyStore) : KeyStore :=
  mkKeyStore _ (ks_path ks) (ks_file ks) (ks_encrypted ks) None None (ks_network ks) [].

Definition seed (ks : KeyStore) : result bytes WalletError := ok_or (ks_seed ks) Locked.
Definition master_key (ks : KeyStore) : result ExtSecretKey WalletError := ok_or (ks_master_key ks) Locked.

Definition derive_key (ks : KeyStore) (path : bytes) : result DerivedKey WalletError :=
  let? master := master_key ks in
  let? derivation_path := ok_or (parse_path path) KeyDerivation in
  let? derived := ok_or (ext_derive master derivation_path) KeyDerivation in
  let? address := ok_or (ext_address derived) KeyDerivation in
  Ok (mkDerivedKey _ (ext_secret_key derived) derivation_path address
        (to_base58 (ks_network ks) address)).

(** Decimal digits of a [u32]: ten are enough. *)
Fixpoint decimal_digits (fuel : nat) (z : Z) : bytes :=
  match fuel with
  | O => []
  | S fuel' => (if z <? 10 then [] else decimal_digits fuel' (z / 10)) ++ [48 + z mod 10]
  end.
Definition decimal (z : Z) : bytes := decimal_digits 10 z.

(** [format!("m/44'/429'/{}'/0/{}", account, index)]. *)
Definition index_path (account index : Z) : bytes :=
  str_bytes "m/44'/429'/" ++ decimal account ++ str_bytes "'/0/" ++ decimal index.
Definition derive_key_for_index (ks : KeyStore) (account index : Z) : result DerivedKey WalletError :=
  derive_key ks (index_path account index).

Definition derive_keys (ks : KeyStore) (account start_index : Z) (count : nat)
    : result (list DerivedKey) WalletError :=
  rmap (fun i => derive_key_for_index ks account (u32 (start_index + Z.of_nat i))) (seq 0 count).

Definition get_derived_keys (ks : KeyStore) : list DerivedKey := ks_derived_keys ks.
Definition cache_derived_key (key : DerivedKey) (ks : KeyStore) : KeyStore :=
  put_derived_keys (ks_derived_keys ks ++ [key]) ks.

Definition find_secret_key (ks : KeyStore) (address : Address) : option SecretKey :=
  (dk_secret_key ∘ snd) <$> list_find (fun k => dk_address k = address) (ks_derived_keys ks).
Definition find_secret_key_by_str (ks : KeyStore) (address : bytes) : option SecretKey :=
  (dk_secret_key ∘ snd) <$> list_find (fun k => address_str k = address) (ks_derived_keys ks).
End KeyStore.

(** ** The wallet *)

Record WalletConfig := mkWalletConfig {
  pre_generate : nat; default_account : Z; wc_network : NetworkPrefix }.
Definition WalletConfig_default : WalletConfig := mkWalletConfig 20 0 Mainnet.
Definition WalletConfig_testnet : WalletConfig := mkWalletConfig 20 0 Testnet.

Record WalletStatus := mkWalletStatus {
  initialized : bool; unlocked : bool; ws_height : Z; address_count : nat; ws_network : NetworkPrefix }.

Record Wallet `{WalletLib} := mkWallet {
  wa_config : WalletConfig; wa_keystore : KeyStore; wa_tracker : BoxTracker; next_index : Z }.

(** The words [generate_random_mnemonic] chooses from. *)
Definition WORDS : list string :=
  ["abandon"; "ability"; "able"; "about"; "above"; "absent"; "absorb"; "abstract"; "absurd";
   "abuse"; "access"; "accident"; "account"; "accuse"; "achieve"; "acid"; "acoustic";
   "acquire"; "across"; "act"; "action"; "actor"; "actress"; "actual"; "adapt"; "add";
   "addict"; "address"; "adjust"; "admit"; "adult"; "advance"; "advice"; "aerobic"; "affair";
   "afford"; "afraid"; "again"; "age"; "agent"; "agree"; "ahead"; "aim"; "air"; "airport";
   "aisle"; "alarm"; "album"; "alcohol"; "alert"; "alien"; "all"; "alley"; "allow"; "almost";
   "alone"; "alpha"; "already"; "also"; "alter"; "always"; "amateur"; "amazing"; "among";
   "amount"; "amused"; "analyst"; "anchor"; "ancient"; "anger"; "angle"; "angry"; "animal";
   "ankle"; "announce"; "annual"; "another"; "answer"; "antenna"; "antique"; "anxiety"; "any";
   "apart"; "apology"; "appear"; "apple"; "approve"; "april"; "arch"; "arctic"; "area";
   "arena"; "argue"; "arm"; "armed"; "armor"; "army"; "around"; "arrange"; "arrest"].

(** [phrase.join(" ")]. *)
Fixpoint join_words (l : list bytes) : bytes :=
  match l with
  | [] => []
  | [w] => w
  | w :: l' => w ++ 32 :: join_words l'
  end.
(** The twelve random numbers are arguments. *)
Definition generate_random_mnemonic (random : nat -> nat) : bytes :=
  join_words ((fun i => str_bytes (nth (random i mod length WORDS) WORDS EmptyString)) <$> seq 0 12).

Section Wallet.
Context `{WalletLib} `{FileEnv} `{HashOrder}.

Definition Wallet_new (config : WalletConfig) (file : option bytes) : Wallet :=
  mkWallet _ config (with_path_and_network file (wc_network config)) BoxTracker_new 0.

Definition put_keystore (ks : KeyStore) (w : Wallet) : Wallet :=
  mkWallet _ (wa_config w) ks (wa_tracker w) (next_index w).
Definition put_tracker (t : BoxTracker) (w : Wallet) : Wallet :=
  mkWallet _ (wa_config w) (wa_keystore w) t (next_index w).
Definition put_next_index (i : Z) (w : Wallet) : Wallet :=
  mkWallet _ (wa_config w) (wa_keystore w) (wa_tracker w) i.

Definition on_keystore {A} (m : ST KeyStore A) : ST Wallet A := fun w =>
  let '(r, ks) := m (wa_keystore w) in (r, put_keystore ks w).

(** [cache_derived_key] and [track_address_str]. *)
Definition keep_key (key : DerivedKey) (w : Wallet) : Wallet :=
  put_tracker (track_address_str (wa_tracker w) (address_str key))
    (put_keystore (cache_derived_key key (wa_keystore w)) w).

(** The loop of [generate_addresses]. *)
Fixpoint generate_loop (start_index : Z) (js : list nat) : ST Wallet unit :=
  match js with
  | [] => mret tt
  | i :: js' =>
      w ← get_st;
      key ← lift (derive_key_for_index (wa_keystore w) (default_account (wa_config w))
                    (u32 (start_index + u32 (Z.of_nat i))));
      modify_st (keep_key key) ;;
      generate_loop start_index js'
  end.
Definition generate_addresses (count : nat) : ST Wallet unit :=
  w ← get_st;
  let start_index := next_index w in
  generate_loop start_index (seq 0 count) ;;
  modify_st (put_next_index (u32 (start_index + u32 (Z.of_nat count)))).

Definition init (salt nonce mnemonic mnemonic_password encryption_password : bytes) : ST Wallet bytes :=
  w ← get_st;
  if is_initialized (wa_keystore w) then fail_with TxBuildError else
  if negb fs_create_dir then fail_with WalletIo else
  on_keystore (initialize_from_mnemonic salt nonce mnemonic mnemonic_password encryption_password) ;;
  generate_addresses (pre_generate (wa_config w)) ;;
  mret mnemonic.

Definition init_new (random : nat -> nat) (salt nonce encryption_password : bytes) : ST Wallet bytes :=
  let mnemonic := generate_random_mnemonic random in
  init salt nonce mnemonic [] encryption_password ;;
  mret mnemonic.

Definition load : ST Wallet unit := on_keystore ks_load.

Definition unlock (password : bytes) : ST Wallet unit :=
  on_keystore (ks_unlock password) ;;
  w ← get_st;
  generate_addresses (pre_generate (wa_config w)).

Definition lock (w : Wallet) : Wallet := put_next_index 0 (put_keystore (ks_lock (wa_keystore w)) w).

(** [height] is that of the UTXO state. *)
Definition status (height : Z) (w : Wallet) : WalletStatus :=
  mkWalletStatus (is_initialized (wa_keystore w)) (is_unlocked (wa_keystore w)) height
    (length (get_derived_keys (wa_keystore w))) (wc_network (wa_config w)).

(** [if !self.keystore.is_unlocked() { return Err(Locked) }]. *)
Definition require_unlocked : ST Wallet unit :=
  w ← get_st; if is_unlocked (wa_keystore w) then mret tt else fail_with Locked.

Definition wallet_balance (height : Z) : ST Wallet WalletBalance :=
  require_unlocked ;;
  modify_st (fun w => put_tracker (scan (wa_tracker w) height).2 w) ;;
  w ← get_st;
  mret (balance (wa_tracker w)).

Definition wallet_addresses : ST Wallet (list bytes) :=
  require_unlocked ;;
  w ← get_st; mret (address_str <$> get_derived_keys (wa_keystore w)).

Definition derived_keys : ST Wallet (list DerivedKey) :=
  require_unlocked ;;
  w ← get_st; mret (get_derived_keys (wa_keystore w)).

Definition new_address : ST Wallet bytes :=
  require_unlocked ;;
  w ← get_st;
  let index := next_index w in
  key ← lift (derive_key_for_index (wa_keystore w) (default_account (wa_config w)) index);
  modify_st (keep_key key) ;;
  modify_st (put_next_index (u32 (index + 1))) ;;
  mret (address_str key).

Definition derive_address (path : bytes) : ST Wallet bytes :=
  require_unlocked ;;
  w ← get_st;
  key ← lift (derive_key (wa_keystore w) path);
  modify_st (keep_key key) ;;
  mret (address_str key).

Definition get_secret_key (address : bytes) : ST Wallet SecretKey :=
  require_unlocked ;;
  w ← get_st;
  lift (ok_or (find_secret_key_by_str (wa_keystore w) address) (AddressNotFound address)).

Definition get_all_secret_keys : ST Wallet (list SecretKey) :=
  require_unlocked ;;
  w ← get_st; mret (dk_secret_key <$> get_derived_keys (wa_keystore w)).

Definition get_unspent_boxes : ST Wallet (list WalletBox) :=
  require_unlocked ;;
  w ← get_st; mret (get_unspent (wa_tracker w)).
End Wallet.
