(* ===== verification/WalletSpec.v ===== *)
(** * What the wallet promises

    Secrets exist only while the wallet is unlocked (or were handed to it
    since), and belong to the addresses they are returned for unless the tracker
    was cleared; unlocking with the password, or restarting
    on the file, gives back the addresses of the initialisation; the balance is
    that of the boxes not yet spent. *)

From S2P Require Export Wallet.
From S2P Require ErgoTypes.

Local Open Scope Z_scope.

(** ** The tracker *)

Section Tracker.
Context `{HashOrderLaws}.

Definition all_boxes (t : BoxTracker) : list WalletBox := concat (map_to_list (tracker_boxes t)).*2.
Definition unspent_of (t : BoxTracker) : list WalletBox :=
  filter (fun b => pending_spent b = false) (all_boxes t).

Lemma get_unspent_perm t : get_unspent t ≡ₚ unspent_of t.
Proof. unfold get_unspent, unspent_of, all_boxes. by rewrite hash_iter_perm. Qed.

Lemma all_boxes_insert t a bs s h :
  all_boxes (mkBoxTracker s (<[a := bs]> (tracker_boxes t)) h) ≡ₚ
  bs ++ concat (map_to_list (delete a (tracker_boxes t))).*2.
Proof.
  unfold all_boxes. cbn [tracker_boxes]. rewrite <- insert_delete_eq.
  rewrite map_to_list_insert by apply lookup_delete_eq. done.
Qed.

Lemma all_boxes_lookup t a bs :
  tracker_boxes t !! a = Some bs ->
  all_boxes t ≡ₚ bs ++ concat (map_to_list (delete a (tracker_boxes t))).*2.
Proof.
  intros Ha. unfold all_boxes. rewrite <- (insert_delete_id (tracker_boxes t) a bs) at 1 by done.
  rewrite map_to_list_insert by apply lookup_delete_eq. done.
Qed.

(** *** Sums *)

Lemma balance_tokens_spec (m : gmap bytes Z) tokens t s :
  default 0 (m !! t) = u64 s ->
  default 0 (foldl balance_token m tokens !! t) =
  u64 (s + sumZ (snd <$> filter (fun p => p.1 = t) tokens)).
Proof.
  revert m s. induction tokens as [|[k v] tokens IH]; intros m s Hm; cbn [foldl].
  - cbn. by rewrite Z.add_0_r.
  - rewrite filter_cons. cbn [fst].
    assert (default 0 (balance_token m (k, v) !! t) = u64 (s + (if decide (k = t) then v else 0))) as H1.
    { unfold balance_token. cbn [fst snd]. case_decide as Hk; [subst k|].
      - rewrite lookup_insert_eq. cbn [default from_option id]. rewrite Hm. unfold wrap.
        by rewrite Z.add_mod_idemp_l.
      - by rewrite lookup_insert_ne, Z.add_0_r. }
    rewrite (IH _ _ H1). case_decide; cbn [fmap list_fmap sumZ snd]; f_equal; lia.
Qed.

Definition held (t : bytes) (b : WalletBox) : Z := sumZ (snd <$> filter (fun p => p.1 = t) (wb_tokens b)).

Lemma balance_boxes_spec l acc v :
  total_erg acc = u64 v -> confirmed_erg acc = u64 v ->
  let r := foldl balance_box acc l in
  total_erg r = u64 (v + sumZ (wb_value <$> l)) /\ confirmed_erg r = total_erg r
  /\ pending_erg r = pending_erg acc
  /\ forall t s, default 0 (wallet_tokens acc !! t) = u64 s ->
       default 0 (wallet_tokens r !! t) = u64 (s + sumZ (held t <$> l)).
Proof.
  cbv zeta. revert acc v. induction l as [|b l IH]; intros acc v Ht Hc; cbn [foldl fmap list_fmap sumZ].
  - rewrite Z.add_0_r. split_and!; [done|congruence|done|]. intros t s Hs. by rewrite Z.add_0_r.
  - destruct (IH (balance_box acc b) (v + wb_value b)) as (E1 & E2 & E3 & E4).
    1,2: cbn [balance_box total_erg confirmed_erg]; rewrite ?Ht, ?Hc; unfold wrap; by rewrite Z.add_mod_idemp_l.
    rewrite E1, E2, E3, E1. split_and!; [f_equal; lia|f_equal; lia|done|].
    intros t s Hs. rewrite (E4 t (s + held t b)).
    + f_equal. lia.
    + cbn [balance_box wallet_tokens]. by apply balance_tokens_spec.
Qed.

(** *** Operations *)

Lemma mark_in_spec l id l' :
  mark_in l id = Some l' ->
  exists l1 b l2, l = l1 ++ b :: l2 /\ wb_box_id b = id /\ l' = l1 ++ mark_pending b :: l2.
Proof.
  revert l'. induction l as [|b l IH]; intros l'; cbn [mark_in]; [done|]. case_decide as Hb.
  - intros [= <-]. by exists [], b, l.
  - intros (l1 & Hl1 & ->)%fmap_Some_1. destruct (IH _ Hl1) as (p & c & q & -> & Hc & ->).
    by exists (b :: p), c, q.
Qed.

Lemma mark_in_none l id : mark_in l id = None -> Forall (fun b => wb_box_id b <> id) l.
Proof.
  induction l as [|b l IH]; cbn [mark_in]; [constructor|]. case_decide as Hb; [done|].
  intros Hn%fmap_None. constructor; auto.
Qed.

Lemma mark_first_spec l id :
  match mark_first l id with
  | Some (a, bs') => exists bs, (a, bs) ∈ l /\ mark_in bs id = Some bs'
  | None => Forall (fun b => wb_box_id b <> id) (concat l.*2)
  end.
Proof.
  induction l as [|[a bs] l IH]; cbn [mark_first fmap list_fmap concat snd]; [constructor|].
  destruct (mark_in bs id) as [bs'|] eqn:E.
  - exists bs. split; [by left|done].
  - destruct (mark_first l id) as [[a' bs']|].
    + destruct IH as (bs0 & Hin & Hm). exists bs0. split; [by right|done].
    + apply Forall_app. split; [by apply mark_in_none|done].
Qed.

Lemma filter_all {A} (P : A -> Prop) `{forall x, Decision (P x)} l : Forall P l -> filter P l = l.
Proof. induction 1 as [|x l Hx _ IH]; [done|]. by rewrite filter_cons_True, IH. Qed.

Lemma unspent_mark t id :
  NoDup (wb_box_id <$> all_boxes t) ->
  unspent_of (tracker_mark_spent t id) ≡ₚ filter (fun b => wb_box_id b <> id) (unspent_of t).
Proof.
  intros Hnd. unfold tracker_mark_spent. pose proof (mark_first_spec (hash_iter _ (tracker_boxes t)) id) as Hm.
  destruct (mark_first _ id) as [[a bs']|].
  - destruct Hm as (bs & Hin%hash_iter_elem & (l1 & b & l2 & -> & Hb & ->)%mark_in_spec).
    unfold unspent_of. rewrite all_boxes_insert. rewrite (all_boxes_lookup t a _ Hin) in Hnd |- *.
    set (rest := concat _) in *. clearbody rest. revert Hnd.
    rewrite <- !app_assoc. cbn [app]. intros Hnd.
    assert (Forall (fun c => wb_box_id c <> id) (l1 ++ l2 ++ rest)) as Hno.
    { rewrite <- Permutation_middle in Hnd. cbn in Hnd. apply NoDup_cons in Hnd as [Hn _].
      apply Forall_forall. intros c Hc Heq. apply Hn. rewrite Hb, <- Heq. by apply list_elem_of_fmap_2. }
    rewrite <- !Permutation_middle. rewrite filter_cons_False by done.
    assert (Forall (fun c => wb_box_id c <> id) (filter (fun c => pending_spent c = false) (l1 ++ l2 ++ rest))) as Hf.
    { apply Forall_forall. intros c [_ Hc]%list_elem_of_filter. rewrite Forall_forall in Hno. by apply Hno. }
    rewrite (filter_cons _ b). case_decide; [rewrite filter_cons_False by naive_solver|]; by rewrite (filter_all _ _ Hf).
  - rewrite filter_all; [done|]. apply Forall_forall. intros c [_ Hc]%list_elem_of_filter.
    rewrite Forall_forall in Hm. apply Hm. revert Hc. unfold all_boxes.
    by rewrite hash_iter_perm.
Qed.

Lemma unspent_add t a b :
  unspent_of (add_box t a b) ≡ₚ (if pending_spent b then [] else [b]) ++ unspent_of t.
Proof.
  unfold unspent_of, add_box. destruct (tracker_boxes t !! a) as [bs|] eqn:E.
  - rewrite all_boxes_insert, (all_boxes_lookup t a bs E), <- app_assoc, !filter_app.
    rewrite filter_cons, filter_nil.
    destruct (pending_spent b); case_decide; try done.
    cbn [app]. by rewrite <- Permutation_middle.
  - rewrite all_boxes_insert, filter_app, filter_cons, filter_nil. unfold all_boxes.
    rewrite delete_id by done. by destruct (pending_spent b); case_decide.
Qed.

Lemma unspent_remove t ids :
  unspent_of (remove_spent t ids) = filter (fun b => wb_box_id b ∉ ids) (unspent_of t).
Proof.
  unfold unspent_of, all_boxes, remove_spent. cbn [tracker_boxes]. rewrite map_to_list_fmap.
  induction (map_to_list (tracker_boxes t)) as [|[a bs] l IH]; [done|].
  cbn [fmap list_fmap concat snd prod_map] in *. rewrite !filter_app, IH. f_equal.
  rewrite !list_filter_filter. apply list_filter_iff. naive_solver.
Qed.

(** The balance of the wallet.  The coins and each token of [balance] are
    the sums, modulo 2^64, over the boxes of the tracker not marked as spent;
    adding a box adds it, marking a box takes exactly that box away when
    identifiers are distinct, and removing boxes takes away those removed. *)
Theorem tracker_balance_exact t :
  total_erg (balance t) = u64 (sumZ (wb_value <$> unspent_of t))
  /\ confirmed_erg (balance t) = total_erg (balance t) /\ pending_erg (balance t) = 0
  /\ (forall token, default 0 (wallet_tokens (balance t) !! token) =
        u64 (sumZ (held token <$> unspent_of t)))
  /\ (forall a b, unspent_of (add_box t a b) ≡ₚ (if pending_spent b then [] else [b]) ++ unspent_of t)
  /\ (forall id, NoDup (wb_box_id <$> all_boxes t) ->
        unspent_of (tracker_mark_spent t id) ≡ₚ filter (fun b => wb_box_id b <> id) (unspent_of t))
  /\ (forall ids, unspent_of (remove_spent t ids) = filter (fun b => wb_box_id b ∉ ids) (unspent_of t)).
Proof.
  destruct (balance_boxes_spec (get_unspent t) WalletBalance_default 0) as (E1 & E2 & E3 & E4); [done..|].
  unfold balance. rewrite E1, E2, E3, E1. rewrite (sumZ_perm _ _ (fmap_Permutation wb_value _ _ (get_unspent_perm t))).
  split_and!; [done..| | | |].
  - intros token. rewrite (E4 token 0) by done. f_equal. apply sumZ_perm, fmap_Permutation, get_unspent_perm.
  - intros. apply unspent_add.
  - intros id. apply unspent_mark.
  - intros. apply unspent_remove.
Qed.
End Tracker.

(** ** The key store and the wallet *)

Section WalletInv.
Context `{WalletLib} `{FileEnv} `{HashOrder}.

(** The secret, the address and its string belong together. *)
Definition key_of (network : NetworkPrefix) (key : DerivedKey) : Prop :=
  exists master ext, ext_derive master (dk_path key) = Some ext
    /\ dk_secret_key key = ext_secret_key ext /\ ext_address ext = Some (dk_address key)
    /\ address_str key = to_base58 network (dk_address key).

(** The keys callers put into the cache of the key store themselves, and whether
    a caller cleared the tracker. *)
Context (handed : list DerivedKey) (cleared : bool).

Record wallet_ok (w : Wallet) : Prop := {
  wo_locked : ks_seed (wa_keystore w) = None ->
    ks_master_key (wa_keystore w) = None /\ ks_derived_keys (wa_keystore w) ⊆ handed;
  wo_keys : Forall (fun key => key_of (ks_network (wa_keystore w)) key \/ key ∈ handed) (ks_derived_keys (wa_keystore w));
  wo_tracked key : cleared = false -> key ∈ ks_derived_keys (wa_keystore w) ->
    key ∈ handed \/ address_str key ∈ tracked (wa_tracker w)
}.

(** An operation of the key store that leaves the derived keys alone, and the
    secrets alone or present. *)
Definition secrets_kept (ks ks' : KeyStore) : Prop :=
  ks_derived_keys ks' = ks_derived_keys ks /\ ks_network ks' = ks_network ks
  /\ ((ks_seed ks' = ks_seed ks /\ ks_master_key ks' = ks_master_key ks) \/ is_Some (ks_seed ks')).

Lemma secrets_kept_refl ks : secrets_kept ks ks.
Proof. unfold secrets_kept. auto. Qed.

Lemma encrypt_kept salt nonce sd pw ks :
  let ks' := (encrypt_and_store_seed salt nonce sd pw ks).2 in
  ks_derived_keys ks' = ks_derived_keys ks /\ ks_network ks' = ks_network ks
  /\ ks_seed ks' = ks_seed ks /\ ks_master_key ks' = ks_master_key ks.
Proof.
  cbv zeta. unfold encrypt_and_store_seed, derive_key_argon2id.
  unfold mbind, mret, ST_bind, ST_ret, lift, get_st, modify_st, fail_with.
  destruct (argon2id _ _ _ _ _) as [key|]; cbn; [|done].
  destruct (aes_encrypt key nonce sd) as [c|]; cbn; [|done].
  destruct (ks_path ks); cbn; [|done]. destruct (key_to_json _) as [j|]; cbn; [|done].
  by destruct (fs_write j).
Qed.

Lemma init_mnemonic_kept salt nonce m mp pw ks :
  secrets_kept ks (initialize_from_mnemonic salt nonce m mp pw ks).2.
Proof.
  unfold initialize_from_mnemonic. cbv zeta.
  unfold mbind, ST_bind, lift, modify_st, fail_with.
  destruct (bool_decide _); [|apply secrets_kept_refl].
  destruct (derive_master _) as [mk|]; cbn [ok_or]; [|apply secrets_kept_refl].
  pose proof (encrypt_kept salt nonce (to_seed m mp) pw ks) as Hk. cbv zeta in Hk.
  destruct (encrypt_and_store_seed _ _ _ _ ks) as [[[]|e] ks1]; cbn [snd] in *; unfold secrets_kept; naive_solver.
Qed.

Lemma init_seed_kept salt nonce sd pw ks : secrets_kept ks (initialize_from_seed salt nonce sd pw ks).2.
Proof.
  unfold initialize_from_seed, mbind, ST_bind, lift, modify_st.
  destruct (derive_master _) as [mk|]; cbn [ok_or]; [|apply secrets_kept_refl].
  pose proof (encrypt_kept salt nonce sd pw ks) as Hk. cbv zeta in Hk.
  destruct (encrypt_and_store_seed _ _ _ _ ks) as [[[]|e] ks1]; cbn [snd] in *; unfold secrets_kept; naive_solver.
Qed.

Lemma load_kept ks : secrets_kept ks (ks_load ks).2.
Proof.
  unfold ks_load, mbind, ST_bind, lift, get_st, modify_st, fail_with.
  destruct (negb _); [apply secrets_kept_refl|]. destruct (ks_file ks); [|apply secrets_kept_refl].
  destruct (negb _); [apply secrets_kept_refl|].
  destruct (key_from_json _); cbn; unfold secrets_kept; auto.
Qed.

Lemma unlock_kept pw ks : secrets_kept ks (ks_unlock pw ks).2.
Proof.
  unfold ks_unlock, derive_key_argon2id, mbind, ST_bind, lift, get_st, modify_st, fail_with.
  destruct (ks_encrypted ks) as [e|]; cbn; [|apply secrets_kept_refl].
  destruct (argon2id _ _ _ _ _) as [key|]; cbn; [|apply secrets_kept_refl].
  destruct (negb _); [apply secrets_kept_refl|].
  destruct (aes_decrypt _ _ _) as [d|]; cbn; [|apply secrets_kept_refl].
  destruct (negb _); [apply secrets_kept_refl|].
  destruct (derive_master d); cbn; unfold secrets_kept; cbn; eauto.
Qed.

Lemma keystore_ok (w : Wallet) ks' :
  wallet_ok w -> secrets_kept (wa_keystore w) ks' -> wallet_ok (put_keystore ks' w).
Proof.
  intros [Hl Hk Ht] (Hd & Hn & Hs). constructor; cbn [put_keystore wa_keystore wa_tracker].
  - rewrite Hd. intros Hnone. destruct Hs as [[E1 E2]|[x Hx]]; [|congruence]. rewrite E2. apply Hl. congruence.
  - by rewrite Hd, Hn.
  - by rewrite Hd.
Qed.

Lemma derive_key_ok ks path key :
  derive_key ks path = Ok key -> is_Some (ks_master_key ks) /\ key_of (ks_network ks) key.
Proof.
  unfold derive_key, master_key.
  destruct (ks_master_key ks) as [m|]; cbn [ok_or rbind]; [|done].
  destruct (parse_path path) as [p|]; cbn [ok_or rbind]; [|done].
  destruct (ext_derive m p) as [x|] eqn:Ex; cbn [ok_or rbind]; [|done].
  destruct (ext_address x) as [a|] eqn:Ea; cbn [ok_or rbind]; [|done].
  intros [= <-]. split; [done|]. by exists m, x.
Qed.

Lemma track_mono t a : tracked t ⊆ tracked (track_address_str t a) /\ a ∈ tracked (track_address_str t a).
Proof. unfold track_address_str. case_decide; cbn; set_solver. Qed.

Lemma keep_key_ok (w : Wallet) path key :
  wallet_ok w -> derive_key (wa_keystore w) path = Ok key -> wallet_ok (keep_key key w).
Proof.
  intros [Hl Hk Ht] [[m Hm] Hkey]%derive_key_ok. destruct (track_mono (wa_tracker w) (address_str key)) as [Hsub Hin].
  constructor; unfold keep_key; cbn [put_tracker put_keystore cache_derived_key put_derived_keys wa_keystore
    wa_tracker ks_seed ks_master_key ks_derived_keys ks_network].
  - intros [E _]%Hl. congruence.
  - apply Forall_app. split; [done|]. apply Forall_singleton. by left.
  - intros k Hcl [Hkk|Hkk%list_elem_of_singleton]%elem_of_app; [|subst k; by right].
    destruct (Ht k Hcl Hkk); [by left|right; by apply Hsub].
Qed.

Lemma index_ok (w : Wallet) i : wallet_ok w -> wallet_ok (put_next_index i w).
Proof. by intros [Hl Hk Ht]. Qed.

Lemma tracker_ok (w : Wallet) t :
  tracked (wa_tracker w) ⊆ tracked t -> wallet_ok w -> wallet_ok (put_tracker t w).
Proof.
  intros Hsub [Hl Hk Ht]. constructor; [done|done|]. intros key Hcl Hkey.
  destruct (Ht key Hcl Hkey); [by left|right; by apply Hsub].
Qed.

Lemma cache_ok (w : Wallet) key :
  key ∈ handed -> wallet_ok w -> wallet_ok (put_keystore (cache_derived_key key (wa_keystore w)) w).
Proof.
  intros Hin [Hl Hk Ht]. constructor; cbn [put_keystore cache_derived_key put_derived_keys wa_keystore wa_tracker
    ks_seed ks_master_key ks_derived_keys ks_network].
  - intros [Hm Hd]%Hl. split; [done|]. set_solver.
  - apply Forall_app. split; [done|]. apply Forall_singleton. by right.
  - intros k Hcl [Hkk|Hkk%list_elem_of_singleton]%elem_of_app; [by apply Ht|subst k; by left].
Qed.

Lemma ks_lock_ok (w : Wallet) : wallet_ok (put_keystore (ks_lock (wa_keystore w)) w).
Proof. constructor; cbn; [set_solver|constructor|]. intros key _ Hkey. by apply not_elem_of_nil in Hkey. Qed.

Lemma generate_loop_ok start js (w : Wallet) : wallet_ok w -> wallet_ok (generate_loop start js w).2.
Proof.
  revert w. induction js as [|i js IH]; intros w Hw; [done|].
  cbn [generate_loop]. unfold mbind, ST_bind, get_st, lift, modify_st.
  destruct (derive_key_for_index _ _ _) as [key|e] eqn:Ek; [|done]. apply IH. by eapply keep_key_ok.
Qed.

Lemma generate_ok count (w : Wallet) : wallet_ok w -> wallet_ok (generate_addresses count w).2.
Proof.
  intros Hw. unfold generate_addresses, mbind, ST_bind, get_st, modify_st. cbv zeta.
  pose proof (generate_loop_ok (next_index w) (seq 0 count) w Hw) as Hg.
  destruct (generate_loop _ _ w) as [[[]|e] w']; [by apply index_ok|done].
Qed.

Lemma init_ok salt nonce m mp pw (w : Wallet) : wallet_ok w -> wallet_ok (init salt nonce m mp pw w).2.
Proof.
  intros Hw. unfold init, on_keystore, mbind, ST_bind, get_st, fail_with, mret, ST_ret.
  destruct (is_initialized _); [done|]. destruct (negb _); [done|].
  pose proof (init_mnemonic_kept salt nonce m mp pw (wa_keystore w)) as Hk.
  destruct (initialize_from_mnemonic _ _ _ _ _ _) as [[[]|e] ks]; cbn [snd] in *; [|by apply keystore_ok].
  pose proof (generate_ok (pre_generate (wa_config w)) _ (keystore_ok w ks Hw Hk)) as Hg.
  by destruct (generate_addresses _ _) as [[[]|e] w'].
Qed.

Lemma unlock_ok pw (w : Wallet) : wallet_ok w -> wallet_ok (unlock pw w).2.
Proof.
  intros Hw. unfold unlock, on_keystore, mbind, ST_bind, get_st.
  pose proof (unlock_kept pw (wa_keystore w)) as Hk.
  destruct (ks_unlock pw _) as [[[]|e] ks]; cbn [snd] in *; [|by apply keystore_ok].
  by apply generate_ok, keystore_ok.
Qed.

Lemma lock_ok (w : Wallet) : wallet_ok w -> wallet_ok (lock w).
Proof. intros _. apply index_ok, ks_lock_ok. Qed.

(** ** Operations in any order *)

(** The operations of the wallet, and those of the key store and the tracker it
    lends to its callers. *)
Inductive WalletOp :=
  | OpInit (salt nonce mnemonic mnemonic_password encryption_password : bytes)
  | OpInitNew (random : nat -> nat) (salt nonce encryption_password : bytes)
  | OpLoad
  | OpUnlock (password : bytes)
  | OpLock
  | OpNewAddress
  | OpDeriveAddress (path : bytes)
  | OpBalance (height : Z)
  | OpTrack (address : bytes)
  | OpAddBox (address : bytes) (b : WalletBox)
  | OpMarkSpent (box_id : bytes)
  | OpRemoveSpent (box_ids : list bytes)
  | OpScan (height : Z)
  | OpTrackerClear
  | OpCacheKey (key : DerivedKey)
  | OpKeystoreLock
  | OpKeystoreUnlock (password : bytes)
  | OpKeystoreMnemonic (salt nonce mnemonic mnemonic_password encryption_password : bytes)
  | OpKeystoreSeed (salt nonce seed encryption_password : bytes).

Definition wallet_step (w : Wallet) (op : WalletOp) : Wallet :=
  match op with
  | OpInit salt nonce m mp pw => (init salt nonce m mp pw w).2
  | OpInitNew random salt nonce pw => (init_new random salt nonce pw w).2
  | OpLoad => (load w).2
  | OpUnlock pw => (unlock pw w).2
  | OpLock => lock w
  | OpNewAddress => (new_address w).2
  | OpDeriveAddress path => (derive_address path w).2
  | OpBalance height => (wallet_balance height w).2
  | OpTrack address => put_tracker (track_address_str (wa_tracker w) address) w
  | OpAddBox address b => put_tracker (add_box (wa_tracker w) address b) w
  | OpMarkSpent box_id => put_tracker (tracker_mark_spent (wa_tracker w) box_id) w
  | OpRemoveSpent box_ids => put_tracker (remove_spent (wa_tracker w) box_ids) w
  | OpScan height => put_tracker (scan (wa_tracker w) height).2 w
  | OpTrackerClear => put_tracker (tracker_clear (wa_tracker w)) w
  | OpCacheKey key => put_keystore (cache_derived_key key (wa_keystore w)) w
  | OpKeystoreLock => put_keystore (ks_lock (wa_keystore w)) w
  | OpKeystoreUnlock pw => (on_keystore (ks_unlock pw) w).2
  | OpKeystoreMnemonic salt nonce m mp pw => (on_keystore (initialize_from_mnemonic salt nonce m mp pw) w).2
  | OpKeystoreSeed salt nonce seed pw => (on_keystore (initialize_from_seed salt nonce seed pw) w).2
  end.

(** The keys handed to the cache by some operations, and whether one clears the
    tracker. *)
Definition keys_handed (ops : list WalletOp) : list DerivedKey :=
  omap (fun op => match op with OpCacheKey key => Some key | _ => None end) ops.
Definition clears_tracker (op : WalletOp) : bool := match op with OpTrackerClear => true | _ => false end.

End WalletInv.

Section WalletRuns.
Context `{WalletLib} `{FileEnv} `{HashOrder} (handed : list DerivedKey) (cleared : bool).

Abbreviation wallet_ok := (wallet_ok handed cleared).

Lemma keystore_step_ok {A} (f : ST KeyStore A) (w : Wallet) :
  (forall ks, secrets_kept ks (f ks).2) -> wallet_ok w -> wallet_ok (on_keystore f w).2.
Proof.
  intros Hf Hw. unfold on_keystore. pose proof (Hf (wa_keystore w)) as Hk.
  destruct (f (wa_keystore w)) as [r ks]. by apply keystore_ok.
Qed.

Lemma step_ok (w : Wallet) op :
  keys_handed [op] ⊆ handed -> (clears_tracker op = true -> cleared = true) -> wallet_ok w -> wallet_ok (wallet_step w op).
Proof.
  intros Hh Hcl Hw. destruct op as [salt nonce m mp pw|random salt nonce pw| |pw| | |path|height|a|a b|id|ids
    |height| |key| |pw|salt nonce m mp pw|salt nonce sd pw]; cbn [wallet_step].
  - by apply init_ok.
  - unfold init_new, mbind, ST_bind. cbv zeta.
    pose proof (init_ok handed cleared salt nonce (generate_random_mnemonic random) [] pw w Hw) as Hi.
    by destruct (init _ _ _ _ _ w) as [[]].
  - apply keystore_step_ok; [apply load_kept|done].
  - by apply unlock_ok.
  - by apply lock_ok.
  - unfold new_address, require_unlocked, mbind, ST_bind, get_st, lift, modify_st, fail_with, mret, ST_ret. cbv zeta.
    destruct (is_unlocked _); [|done]. destruct (derive_key_for_index _ _ _) as [key|e] eqn:Ek; [|done].
    by eapply index_ok, keep_key_ok.
  - unfold derive_address, require_unlocked, mbind, ST_bind, get_st, lift, modify_st, fail_with, mret, ST_ret.
    destruct (is_unlocked _); [|done]. destruct (derive_key _ _) as [key|e] eqn:Ek; [|done].
    by eapply keep_key_ok.
  - unfold wallet_balance, require_unlocked, mbind, ST_bind, get_st, modify_st, fail_with, mret, ST_ret.
    destruct (is_unlocked _); [|done]. apply tracker_ok; [|done]. unfold scan. by destruct (_ <=? _).
  - apply tracker_ok; [|done]. apply track_mono.
  - apply tracker_ok; [|done]. unfold add_box. destruct (tracker_boxes _ !! a); cbn; set_solver.
  - apply tracker_ok; [|done]. unfold tracker_mark_spent. by destruct (mark_first _ id) as [[]|].
  - by apply tracker_ok.
  - apply tracker_ok; [|done]. unfold scan. by destruct (_ <=? _).
  - destruct Hw as [Hl Hk Ht]. constructor; [done|done|]. intros key Hc. by rewrite Hcl in Hc.
  - apply cache_ok; [|done]. apply Hh. by left.
  - by apply ks_lock_ok.
  - apply keystore_step_ok; [apply unlock_kept|done].
  - apply keystore_step_ok; [apply init_mnemonic_kept|done].
  - apply keystore_step_ok; [apply init_seed_kept|done].
Qed.

Lemma new_ok config file : wallet_ok (Wallet_new config file).
Proof. constructor; cbn; [set_solver|constructor|]. intros key _ Hkey. by apply not_elem_of_nil in Hkey. Qed.

Lemma run_ok ops (w : Wallet) :
  keys_handed ops ⊆ handed -> (existsb clears_tracker ops = true -> cleared = true) -> wallet_ok w ->
  wallet_ok (foldl wallet_step w ops).
Proof.
  revert w. induction ops as [|op ops IH]; intros w Hh Hc Hw; [done|].
  assert (keys_handed (op :: ops) = keys_handed [op] ++ keys_handed ops) as Heq by (by destruct op).
  rewrite Heq in Hh. cbn [existsb] in Hc. apply IH; [set_solver| |apply step_ok; [set_solver| |done]];
    intros He; apply Hc, orb_true_iff; auto.
Qed.

End WalletRuns.

Section WalletInv.
Context `{WalletLib} `{FileEnv} `{HashOrder}.

(** C38: The secrets of the wallet.  After any operations in any order, those of
    its key store and its tracker included, a locked wallet holds no seed, no
    master key and no derived key but keys a caller put into the cache itself,
    and gives no address, no key and no balance; and whenever a secret key is
    returned for an address string, it is the secret of a key with that address
    string, which was derived so that the address encodes it or was put into
    the cache by a caller.  The address of a derived key is tracked unless a
    caller cleared the tracker. *)
Theorem wallet_secrets (config : WalletConfig) (file : option bytes) (ops : list WalletOp) :
  let w := foldl wallet_step (Wallet_new config file) ops in
  let handed := keys_handed ops in
  (is_unlocked (wa_keystore w) = false ->
    ks_seed (wa_keystore w) = None /\ ks_master_key (wa_keystore w) = None
    /\ ks_derived_keys (wa_keystore w) ⊆ handed
    /\ wallet_addresses w = (Err Locked, w) /\ get_all_secret_keys w = (Err Locked, w)
    /\ new_address w = (Err Locked, w) /\ (forall height, wallet_balance height w = (Err Locked, w))
    /\ forall address, get_secret_key address w = (Err Locked, w))
  /\ forall address sk, (get_secret_key address w).1 = Ok sk ->
      exists key, dk_secret_key key = sk /\ address_str key = address
        /\ (key_of (ks_network (wa_keystore w)) key \/ key ∈ handed)
        /\ (existsb clears_tracker ops = false -> key ∈ handed \/ is_tracked (wa_tracker w) address = true).
Proof.
  cbv zeta. set (handed := keys_handed ops).
  pose proof (run_ok handed (existsb clears_tracker ops) ops _ ltac:(done) ltac:(done) (new_ok _ _ config file)) as Hw.
  set (w := foldl wallet_step _ ops) in *. clearbody w. split.
  - intros Hu. assert (ks_seed (wa_keystore w) = None) as Hs
      by (unfold is_unlocked in Hu; by destruct (ks_seed _)).
    destruct (wo_locked _ _ w Hw Hs) as [Hm Hd]. split_and!; [done..| | | |intros height|intros address];
      unfold wallet_addresses, get_all_secret_keys, new_address, wallet_balance, get_secret_key, require_unlocked,
        mbind, ST_bind, get_st, fail_with; by rewrite Hu.
  - intros address sk. unfold get_secret_key, require_unlocked, mbind, ST_bind, get_st, fail_with, lift, mret, ST_ret.
    destruct (is_unlocked _); [|done]. unfold find_secret_key_by_str.
    destruct (list_find _ _) as [[i key]|] eqn:Ef; cbn; [|done]. intros [= <-].
    apply list_find_Some in Ef as (Hi & <- & _). apply list_elem_of_lookup_2 in Hi.
    exists key. split_and!; [done|done| |].
    + pose proof (wo_keys _ _ w Hw) as Hk. rewrite Forall_forall in Hk. by apply Hk.
    + intros Hc. destruct (wo_tracked _ _ w Hw key Hc Hi); [by left|right]. by apply bool_decide_eq_true.
Qed.
End WalletInv.

(** ** Unlocking and restarting *)

Section Restore.
Context `{WalletLibLaws} `{FileEnv} `{HashOrder}.

(** Derivation depends on the master key and the network alone. *)
Lemma derive_key_same ks ks' path :
  ks_master_key ks = ks_master_key ks' -> ks_network ks = ks_network ks' ->
  derive_key ks path = derive_key ks' path.
Proof. unfold derive_key, master_key. by intros -> ->. Qed.

Lemma generate_loop_keys start js (w : Wallet) ks :
  ks_master_key ks = ks_master_key (wa_keystore w) -> ks_network ks = ks_network (wa_keystore w) ->
  let gen := rmap (fun i => derive_key_for_index ks (default_account (wa_config w)) (u32 (start + u32 (Z.of_nat i)))) js in
  match gen with
  | Ok keys => exists w', generate_loop start js w = (Ok tt, w') /\ wa_config w' = wa_config w
      /\ wa_keystore w' = put_derived_keys (ks_derived_keys (wa_keystore w) ++ keys) (wa_keystore w)
  | Err e => exists w', generate_loop start js w = (Err e, w')
  end.
Proof.
  cbv zeta. revert w. induction js as [|i js IH]; intros w Hm Hn; cbn [rmap generate_loop].
  - exists w. split_and!; [done|done|]. rewrite app_nil_r. by destruct (wa_keystore w).
  - unfold mbind, ST_bind, get_st, lift, modify_st.
    unfold derive_key_for_index at 1. rewrite (derive_key_same ks (wa_keystore w)) by done.
    fold (derive_key_for_index (wa_keystore w) (default_account (wa_config w)) (u32 (start + u32 (Z.of_nat i)))).
    destruct (derive_key_for_index (wa_keystore w) _ _) as [key|e] eqn:Ek; cbn [rbind]; [|by eexists].
    specialize (IH (keep_key key w) Hm Hn). cbn [keep_key put_tracker put_keystore wa_config] in IH.
    destruct (rmap _ js) as [keys'|e]; cbn [rbind].
    + destruct IH as (w' & Hg & Hc & Hks). exists w'. split_and!; [exact Hg|exact Hc|].
      rewrite Hks. unfold put_derived_keys, cache_derived_key. cbn. by rewrite <- app_assoc.
    + exact IH.
Qed.

(** What the file and the memory keep of an initialised wallet. *)
Definition sealed (e : EncryptedKey) (j : bytes) (config : WalletConfig) (w : Wallet) : Prop :=
  ks_encrypted (wa_keystore w) = Some e /\ ks_path (wa_keystore w) = true
  /\ ks_file (wa_keystore w) = Some j /\ ks_network (wa_keystore w) = wc_network config
  /\ wa_config w = config.

Lemma unlock_sealed e j c pw (w : Wallet) ks r :
  sealed e j c w -> ks_unlock pw (wa_keystore w) = (r, ks) -> sealed e j c (put_keystore ks w).
Proof.
  intros Hw Hu. assert (ks = (ks_unlock pw (wa_keystore w)).2) as -> by by rewrite Hu. clear Hu.
  unfold ks_unlock, derive_key_argon2id, mbind, ST_bind, lift, get_st, modify_st, fail_with.
  destruct (ks_encrypted (wa_keystore w)) as [e'|]; cbn; [|done].
  destruct (argon2id _ _ _ _ _) as [key|]; cbn; [|done].
  destruct (negb _); [done|].
  destruct (aes_decrypt _ _ _) as [d|]; cbn; [|done].
  destruct (negb _); [done|]. by destruct (derive_master d).
Qed.

Lemma generate_loop_sealed e j c start js (w : Wallet) :
  sealed e j c w -> sealed e j c (generate_loop start js w).2.
Proof.
  revert w. induction js as [|i js IH]; intros w Hw; [done|].
  cbn [generate_loop]. unfold mbind, ST_bind, get_st, lift, modify_st.
  destruct (derive_key_for_index _ _ _) as [key|e'] eqn:Ek; [|done]. by apply IH.
Qed.

Lemma generate_sealed e j c count (w : Wallet) :
  sealed e j c w -> sealed e j c (generate_addresses count w).2.
Proof.
  intros Hw. unfold generate_addresses, mbind, ST_bind, get_st, modify_st. cbv zeta.
  pose proof (generate_loop_sealed e j c (next_index w) (seq 0 count) w Hw) as Hg.
  by destruct (generate_loop _ _ w) as [[[]|e'] w'].
Qed.

Lemma init_refused salt nonce m mp pw e j c (w : Wallet) :
  sealed e j c w -> init salt nonce m mp pw w = (Err TxBuildError, w).
Proof.
  intros (He & _). unfold init, mbind, ST_bind, get_st, is_initialized. by rewrite He.
Qed.

(** The operations of the key store that encrypt another seed. *)
Definition reseals (op : WalletOp) : bool :=
  match op with OpKeystoreMnemonic _ _ _ _ _ | OpKeystoreSeed _ _ _ _ => true | _ => false end.

Lemma step_sealed e j c (w : Wallet) op :
  key_to_json e = Some j -> reseals op = false -> sealed e j c w -> sealed e j c (wallet_step w op).
Proof.
  intros Hj Hr Hw. destruct op as [salt nonce m mp pw|random salt nonce pw| |pw| | |path|height|a|a b|id|ids
    |height| |key| |pw|salt nonce m mp pw|salt nonce sd pw]; cbn [wallet_step]; try exact Hw; try done.
  - by rewrite (init_refused _ _ _ _ _ _ _ _ _ Hw).
  - unfold init_new, mbind, ST_bind. cbv zeta. by rewrite (init_refused _ _ _ _ _ _ _ _ _ Hw).
  - unfold load, on_keystore, ks_load, mbind, ST_bind, get_st, lift, modify_st, fail_with.
    destruct Hw as (He & Hp & Hf & Hn & Hc). rewrite Hp, Hf. cbn [negb].
    destruct (negb (fs_read j)); [by destruct w as [? []]|].
    rewrite (key_json_roundtrip e j Hj). done.
  - unfold unlock, on_keystore, mbind, ST_bind, get_st.
    destruct (ks_unlock pw (wa_keystore w)) as [[[]|e'] ks] eqn:Eu;
      pose proof (unlock_sealed _ _ _ _ _ _ _ Hw Eu) as Hu; [|exact Hu]. by apply generate_sealed.
  - unfold new_address, require_unlocked, mbind, ST_bind, get_st, lift, modify_st, fail_with, mret, ST_ret. cbv zeta.
    destruct (is_unlocked _); [|done]. by destruct (derive_key_for_index _ _ _) as [key|e'].
  - unfold derive_address, require_unlocked, mbind, ST_bind, get_st, lift, modify_st, fail_with, mret, ST_ret.
    destruct (is_unlocked _); [|done]. by destruct (derive_key _ _) as [key|e'].
  - unfold wallet_balance, require_unlocked, mbind, ST_bind, get_st, modify_st, fail_with, mret, ST_ret.
    by destruct (is_unlocked _).
  - unfold on_keystore. destruct (ks_unlock pw (wa_keystore w)) as [r ks] eqn:Eu.
    exact (unlock_sealed _ _ _ _ _ _ _ Hw Eu).
Qed.

Lemma run_sealed e j c ops (w : Wallet) :
  key_to_json e = Some j -> Forall (fun op => reseals op = false) ops -> sealed e j c w ->
  sealed e j c (foldl wallet_step w ops).
Proof.
  intros Hj Hr. revert w. induction Hr as [|op ops Hop _ IH]; intros w Hw; [done|]. by apply IH, step_sealed.
Qed.

(** The keys a wallet with a given master key generates at first. *)
Definition first_keys (c : WalletConfig) (master : ExtSecretKey) : result (list DerivedKey) WalletError :=
  rmap (fun i => derive_key_for_index (mkKeyStore _ true None None None (Some master) (wc_network c) [])
    (default_account c) (u32 (0 + u32 (Z.of_nat i)))) (seq 0 (pre_generate c)).

(** [unlock] from a state with no derived key and no index, as [lock] and a
    restart leave it. *)
Lemma unlock_fresh e j c (w : Wallet) pw key sd master keys :
  sealed e j c w -> ks_derived_keys (wa_keystore w) = [] -> next_index w = 0 ->
  argon2id pw (ek_salt e) (memory_cost e) (time_cost e) (parallelism e) = Some key ->
  length (ek_nonce e) = 12%nat -> aes_decrypt key (ek_nonce e) (encrypted_seed e) = Some sd ->
  length sd = 64%nat -> derive_master sd = Some master -> first_keys c master = Ok keys ->
  exists w', unlock pw w = (Ok tt, w') /\ ks_derived_keys (wa_keystore w') = keys
    /\ next_index w' = u32 (0 + u32 (Z.of_nat (pre_generate c))).
Proof.
  intros (He & Hp & Hf & Hn & Hc) Hd Hi Ha Hno Hde Hl Hm Hk.
  unfold unlock, on_keystore, mbind, ST_bind, get_st.
  assert (ks_unlock pw (wa_keystore w) = (Ok tt, put_secrets sd master (wa_keystore w))) as ->.
  { unfold ks_unlock, derive_key_argon2id, mbind, ST_bind, lift, get_st, modify_st, fail_with.
    rewrite He. cbn [ok_or]. rewrite Ha. cbn [ok_or]. rewrite Hno. cbn [Nat.eqb negb]. rewrite Hde. cbn [ok_or].
    rewrite Hl. cbn [Nat.eqb negb]. by rewrite Hm. }
  unfold generate_addresses, mbind, ST_bind, get_st, modify_st. cbv zeta.
  cbn [put_keystore wa_config next_index]. rewrite Hi, Hc.
  pose proof (generate_loop_keys 0 (seq 0 (pre_generate c)) (put_keystore (put_secrets sd master (wa_keystore w)) w)
    (mkKeyStore _ true None None None (Some master) (wc_network c) [])) as Hg.
  cbv zeta in Hg. cbn [put_keystore wa_config] in Hg. rewrite Hc in Hg. unfold first_keys in Hk. rewrite Hk in Hg.
  destruct Hg as (w' & -> & Hc' & Hks'); [done|done|].
  eexists. split; [done|]. cbn [put_next_index wa_keystore next_index]. rewrite Hks'. split; [|done].
  cbn. by rewrite Hd.
Qed.

(** What a successful initialisation leaves. *)
Lemma encrypt_facts salt nonce sd pw (ks ks' : KeyStore) :
  ks_path ks = true -> encrypt_and_store_seed salt nonce sd pw ks = (Ok tt, ks') ->
  exists key c j, let e := mkEncryptedKey ENCRYPTION_VERSION c salt nonce 65536 3 4 in
    argon2id pw salt 65536 3 4 = Some key /\ aes_encrypt key nonce sd = Some c
    /\ key_to_json e = Some j /\ ks' = put_file (Some j) (put_encrypted (Some e) ks).
Proof.
  intros Hp. unfold encrypt_and_store_seed, derive_key_argon2id, mbind, ST_bind, get_st, lift, modify_st,
    fail_with, mret, ST_ret. cbv zeta.
  destruct (argon2id pw salt 65536 3 4) as [key|]; cbn [ok_or]; [|done].
  destruct (aes_encrypt key nonce sd) as [c|] eqn:Ec; cbn [ok_or put_encrypted ks_path]; [|done]. rewrite Hp.
  destruct (key_to_json _) as [j|] eqn:Ej; cbn [ok_or]; [|done].
  destruct (fs_write j); intros Hr; cbn in Hr; [|done]. injection Hr as <-. by exists key, c, j.
Qed.

Lemma mnemonic_facts salt nonce m mp pw (ks ks' : KeyStore) :
  ks_path ks = true -> initialize_from_mnemonic salt nonce m mp pw ks = (Ok tt, ks') ->
  exists master key c j, let e := mkEncryptedKey ENCRYPTION_VERSION c salt nonce 65536 3 4 in
    derive_master (to_seed m mp) = Some master /\ argon2id pw salt 65536 3 4 = Some key
    /\ aes_encrypt key nonce (to_seed m mp) = Some c /\ key_to_json e = Some j
    /\ ks' = put_secrets (to_seed m mp) master (put_file (Some j) (put_encrypted (Some e) ks)).
Proof.
  intros Hp. unfold initialize_from_mnemonic. cbv zeta. destruct (bool_decide _); [|done].
  unfold mbind at 1, ST_bind at 1, lift. destruct (derive_master (to_seed m mp)) as [master|] eqn:Em; cbn [ok_or]; [|done].
  unfold mbind, ST_bind. destruct (encrypt_and_store_seed salt nonce (to_seed m mp) pw ks) as [[[]|e] ks1] eqn:Ee; [|done].
  destruct (encrypt_facts _ _ _ _ _ _ Hp Ee) as (key & c & j & Ha & Hc & Hj & ->).
  intros [= <-]. by exists master, key, c, j.
Qed.

Lemma init_facts config file salt nonce m mp pw phrase (w : Wallet) :
  init salt nonce m mp pw (Wallet_new config file) = (Ok phrase, w) ->
  exists e j key master keys,
    sealed e j config w /\ key_to_json e = Some j
    /\ argon2id pw (ek_salt e) (memory_cost e) (time_cost e) (parallelism e) = Some key
    /\ ek_nonce e = nonce /\ aes_decrypt key (ek_nonce e) (encrypted_seed e) = Some (to_seed m mp)
    /\ derive_master (to_seed m mp) = Some master
    /\ first_keys config master = Ok keys /\ ks_derived_keys (wa_keystore w) = keys.
Proof.
  unfold init, on_keystore, mbind, ST_bind, get_st, fail_with, mret, ST_ret.
  set (w0 := Wallet_new config file). change (is_initialized (wa_keystore w0)) with false. cbv iota.
  destruct (negb _); [done|].
  destruct (initialize_from_mnemonic salt nonce m mp pw (wa_keystore w0)) as [[[]|e] ks1] eqn:Ei; [|done].
  destruct (mnemonic_facts salt nonce m mp pw (wa_keystore w0) ks1 eq_refl Ei) as (master & key & c & j & Hm & Ha & Hc & Hj & ->).
  set (e := mkEncryptedKey _ _ _ _ _ _ _) in *. set (w1 := put_keystore _ w0).
  change (pre_generate (wa_config w0)) with (pre_generate config).
  unfold generate_addresses, mbind, ST_bind, get_st, modify_st. cbv zeta. change (next_index w1) with 0.
  pose proof (generate_loop_keys 0 (seq 0 (pre_generate config)) w1
    (mkKeyStore _ true None None None (Some master) (wc_network config) []) eq_refl eq_refl) as Hg.
  cbv zeta in Hg. change (wa_config w1) with config in Hg.
  fold (first_keys config master) in Hg. destruct (first_keys config master) as [keys|err] eqn:Ek.
  - destruct Hg as (w' & -> & Hc' & Hks). intros [= <- <-].
    exists e, j, key, master, keys. unfold sealed. cbn [put_next_index wa_keystore wa_config]. rewrite Hks, Hc'.
    split_and!; try done. by apply aes_decrypt_encrypt.
  - destruct Hg as [w' ->]. done.
Qed.

(** Unlocking gives back the wallet.  After a successful initialisation and
    any operations (but initialising the key store again), locking and unlocking
    with the password, or restarting on the file and unlocking, derives exactly
    the keys and addresses of the initialisation (and forgets those asked for
    later); a password whose key
    does not decrypt the seed is refused and leaves the wallet locked. *)
Theorem unlock_restores config file salt nonce m mp pw phrase (w1 : Wallet) ops :
  init salt nonce m mp pw (Wallet_new config file) = (Ok phrase, w1) -> length nonce = 12%nat ->
  Forall (fun op => reseals op = false) ops ->
  let w := foldl wallet_step w1 ops in
  let keys := ks_derived_keys (wa_keystore w1) in
  (exists w', unlock pw (lock w) = (Ok tt, w') /\ ks_derived_keys (wa_keystore w') = keys)
  /\ (exists j, ks_file (wa_keystore w) = Some j /\
        (fs_read j = true ->
         exists w', unlock pw (load (Wallet_new config (Some j))).2 = (Ok tt, w')
           /\ ks_derived_keys (wa_keystore w') = keys))
  /\ (forall e p key, ks_encrypted (wa_keystore w1) = Some e ->
        argon2id p (ek_salt e) (memory_cost e) (time_cost e) (parallelism e) = Some key ->
        aes_decrypt key (ek_nonce e) (encrypted_seed e) = None ->
        unlock p (lock w) = (Err InvalidPassword, lock w)).
Proof.
  intros Hinit Hnonce Hops. cbv zeta.
  destruct (init_facts _ _ _ _ _ _ _ _ _ Hinit) as (e & j & key & master & keys & Hs & Hj & Ha & Hn & Hd & Hm & Hk & Hkeys).
  rewrite Hkeys. pose proof (run_sealed e j config ops w1 Hj Hops Hs) as Hw.
  set (w := foldl wallet_step w1 ops) in *. clearbody w.
  assert (length (ek_nonce e) = 12%nat) as Hlen by by rewrite Hn.
  assert (sealed e j config (lock w)) as Hlock by exact Hw. split_and!.
  - destruct (unlock_fresh e j config (lock w) pw key (to_seed m mp) master keys Hlock eq_refl eq_refl Ha Hlen Hd
      (to_seed_length m mp) Hm Hk) as (w' & Hu & Hkw & _). by exists w'.
  - exists j. destruct Hw as (_ & _ & Hf & _). split; [done|]. intros Hread.
    assert (sealed e j config (load (Wallet_new config (Some j))).2) as Hl.
    { unfold load, on_keystore, ks_load, mbind, ST_bind, get_st, lift, modify_st, fail_with. cbn.
      rewrite Hread. cbn. by rewrite (key_json_roundtrip e j Hj). }
    destruct (unlock_fresh e j config (load (Wallet_new config (Some j))).2 pw key (to_seed m mp) master keys Hl)
      as (w' & Hu & Hkw & _); try done; [| | |by exists w'].
    + unfold load, on_keystore, ks_load, mbind, ST_bind, get_st, lift, modify_st, fail_with. cbn.
      rewrite Hread. cbn. by rewrite (key_json_roundtrip e j Hj).
    + unfold load, on_keystore, ks_load, mbind, ST_bind, get_st, lift, modify_st, fail_with. cbn.
      rewrite Hread. cbn. by rewrite (key_json_roundtrip e j Hj).
    + apply to_seed_length.
  - intros e' p k He Hp Hdec. destruct Hs as (He' & _). rewrite He' in He. injection He as <-.
    destruct Hlock as (Hle & _). unfold unlock, on_keystore, ks_unlock, derive_key_argon2id,
      mbind, ST_bind, get_st, lift, modify_st, fail_with.
    rewrite Hle. cbn [ok_or]. rewrite Hp. cbn [ok_or]. rewrite Hlen. cbn [Nat.eqb negb]. rewrite Hdec. cbn [ok_or].
    done.
Qed.
End Restore.

Module WalletExample.
#[local] Existing Instances ErgoTypes.Toy.toy_order ErgoTypes.Toy.toy_order_laws.

Definition toy_json (e : EncryptedKey) : bytes :=
  [ek_version e; memory_cost e; time_cost e; parallelism e;
   Z.of_nat (length (ek_salt e)); Z.of_nat (length (ek_nonce e))]
  ++ ek_salt e ++ ek_nonce e ++ encrypted_seed e.
Definition toy_unjson (j : bytes) : option EncryptedKey :=
  match j with
  | v :: m :: t :: p :: s :: n :: rest =>
      Some (mkEncryptedKey v (drop (Z.to_nat n) (drop (Z.to_nat s) rest)) (take (Z.to_nat s) rest)
              (take (Z.to_nat n) (drop (Z.to_nat s) rest)) m t p)
  | _ => None
  end.

(** Keys are paths after the seed, a password is its own key, and encryption
    puts the key before the text. *)
#[export] Instance toy_lib : WalletLib := {
  Address := bytes; Address_eq_dec := _; SecretKey := bytes; ExtSecretKey := bytes; DerivationPath := bytes;
  to_seed m p := take 64 (m ++ p ++ replicate 64 0);
  derive_master sd := Some sd;
  parse_path p := if decide (p = []) then None else Some p;
  ext_derive m p := Some (m ++ p);
  ext_secret_key x := x;
  ext_address x := Some (drop 78 x);
  to_base58 net a := (match net with Mainnet => 57 | Testnet => 51 end) :: a;
  argon2id p salt _ _ _ := Some p;
  aes_encrypt k _ p := Some (k ++ p);
  aes_decrypt k _ c := if decide (take (length k) c = k) then Some (drop (length k) c) else None;
  key_to_json e := Some (toy_json e);
  key_from_json := toy_unjson
}.

#[export] Instance toy_lib_laws : WalletLibLaws.
Proof.
  constructor.
  - intros m p. cbn [to_seed toy_lib]. rewrite length_take, !length_app, length_replicate. lia.
  - intros k n p c. cbn [aes_encrypt aes_decrypt toy_lib]. intros [= <-].
    by rewrite take_app_length, decide_True, drop_app_length.
  - intros e j. cbn [key_to_json key_from_json toy_lib]. intros [= <-]. unfold toy_json, toy_unjson. cbn [app].
    rewrite !Nat2Z.id, take_app_length, drop_app_length, take_app_length, drop_app_length. by destruct e.
Qed.

#[export] Instance toy_fs : FileEnv := { fs_create_dir := true; fs_write _ := true; fs_read _ := true }.

Definition config : WalletConfig := mkWalletConfig 2 0 Mainnet.
Definition phrase : bytes := join_words (replicate 12 (str_bytes "able")).
Definition nonce : bytes := replicate 12 7.
Definition first : Wallet := (init [1] nonce phrase [] [9; 9] (Wallet_new config None)).2.
Definition ops : list WalletOp :=
  [OpNewAddress; OpLock; OpUnlock [3]; OpUnlock [9; 9]; OpDeriveAddress (str_bytes "m/1"); OpNewAddress].

Lemma first_init : init [1] nonce phrase [] [9; 9] (Wallet_new config None) = (Ok phrase, first).
Proof.
  assert ((init [1] nonce phrase [] [9; 9] (Wallet_new config None)).1 = Ok phrase) as <- by by vm_compute.
  apply surjective_pairing.
Qed.

Lemma unlock_restores_witness :
  init [1] nonce phrase [] [9; 9] (Wallet_new config None) = (Ok phrase, first)
  /\ exists w', unlock [9; 9] (lock (foldl wallet_step first ops)) = (Ok tt, w')
       /\ ks_derived_keys (wa_keystore w') = ks_derived_keys (wa_keystore first).
Proof.
  split; [exact first_init|].
  exact (proj1 (unlock_restores config None [1] nonce phrase [] [9; 9] phrase first ops first_init eq_refl ltac:(repeat constructor))).
Defined.

Lemma wallet_secrets_witness :
  is_unlocked (wa_keystore (foldl wallet_step (Wallet_new config None) [OpInit [1] nonce phrase [] [9; 9]; OpLock])) = false
  /\ ks_seed (wa_keystore (foldl wallet_step (Wallet_new config None) [OpInit [1] nonce phrase [] [9; 9]; OpLock])) = None.
Proof.
  assert (is_unlocked (wa_keystore (foldl wallet_step (Wallet_new config None)
    [OpInit [1] nonce phrase [] [9; 9]; OpLock])) = false) as Hu by (vm_compute; reflexivity).
  split; [exact Hu|].
  exact (proj1 (proj1 (wallet_secrets config None [OpInit [1] nonce phrase [] [9; 9]; OpLock]) Hu)).
Defined.

(** Two boxes of 2^63 make a balance of zero. *)
Definition rich (id : Z) : WalletBox := mkWalletBox [id] (2 ^ 63) [] 1 [] false.
Lemma balance_wraps :
  total_erg (balance (add_box (add_box BoxTracker_new [1] (rich 1)) [1] (rich 2))) = 0.
Proof. by vm_compute. Qed.

Definition two : BoxTracker :=
  add_box (add_box BoxTracker_new [1] (mkWalletBox [10] 1000 [([5], 100)] 1 [1] false))
    [2] (mkWalletBox [20] 2000 [([5], 200)] 2 [2] false).

Lemma tracker_balance_exact_witness :
  total_erg (balance two) = 3000 /\ default 0 (wallet_tokens (balance two) !! [5]) = 300
  /\ NoDup (wb_box_id <$> all_boxes two)
  /\ unspent_of (tracker_mark_spent two [10]) ≡ₚ filter (fun b => wb_box_id b <> [10]) (unspent_of two).
Proof.
  destruct (tracker_balance_exact two) as (He & _ & _ & Ht & _ & Hm & _).
  assert (NoDup (wb_box_id <$> all_boxes two)) as Hn by (apply (bool_decide_unpack _); vm_compute; exact I).
  split_and!; [rewrite He; vm_compute; reflexivity|rewrite Ht; vm_compute; reflexivity|exact Hn|exact (Hm [10] Hn)].
Defined.
End WalletExample.
