(* ===== verification/WalletTx.v ===== *)
(** * Transaction building (crates/ergo-wallet/src/tx_builder.rs)

    The order in which [WalletTxBuilder::build] checks and assembles a payment;
    addresses, box selection and the builders of sigma-rust are an interface. *)

From S2P Require Export Wallet.

Local Open Scope Z_scope.

Definition MIN_BOX_VALUE : Z := 1000000.
Definition DEFAULT_FEE : Z := 1000000.

Inductive TxBuildFailure :=
  | BuildNoInputs
  | BuildNoChangeAddress
  | BuildInvalidAddress (address : bytes)
  | BuildInvalidAmount
  | BuildBoxSelection
  | BuildScriptParsing
  | BuildBoxCandidate
  | BuildTxBuilder
  | BuildTxContext
  | BuildSigning.

Class TxBuildLib := {
  TbAddress : Type; TbBox : Type; TbTree : Type; TbCandidate : Type; TbSelection : Type;
  TbUnsigned : Type; TbContext : Type; TbState : Type; TbWallet : Type; TbSigned : Type;
  parse_address_from_str : NetworkPrefix -> bytes -> option TbAddress;
  box_value_try_from : Z -> option Z;
  address_script : TbAddress -> option TbTree;
  candidate_build : Z -> TbTree -> Z -> list (bytes * Z) -> option TbCandidate;
  select_boxes : list TbBox -> Z -> list (bytes * Z) -> option TbSelection;
  tx_build : TbSelection -> list TbCandidate -> Z -> Z -> TbAddress -> option TbUnsigned;
  tx_context_new : TbUnsigned -> list TbBox -> list TbBox -> option TbContext;
  sign_transaction : TbWallet -> TbContext -> TbState -> option TbSigned
}.

Record PaymentRequest := mkPaymentRequest {
  recipient : bytes; pr_amount : Z; pr_tokens : list (bytes * Z) }.
Definition PaymentRequest_new (recipient : bytes) (amount : Z) : PaymentRequest :=
  mkPaymentRequest recipient amount [].
Definition with_tokens (p : PaymentRequest) (tokens : list (bytes * Z)) : PaymentRequest :=
  mkPaymentRequest (recipient p) (pr_amount p) tokens.

Section Builder.
Context `{TxBuildLib}.

Record WalletTxBuilder := mkWalletTxBuilder {
  tb_network : NetworkPrefix; tb_current_height : Z; tb_fee : Z; tb_inputs : list TbBox;
  tb_outputs : list PaymentRequest; tb_change_address : option bytes }.

Definition WalletTxBuilder_new (network : NetworkPrefix) (current_height : Z) : WalletTxBuilder :=
  mkWalletTxBuilder network current_height DEFAULT_FEE [] [] None.
Definition fee (b : WalletTxBuilder) (f : Z) : WalletTxBuilder :=
  mkWalletTxBuilder (tb_network b) (tb_current_height b) f (tb_inputs b) (tb_outputs b) (tb_change_address b).
Definition inputs (b : WalletTxBuilder) (boxes : list TbBox) : WalletTxBuilder :=
  mkWalletTxBuilder (tb_network b) (tb_current_height b) (tb_fee b) boxes (tb_outputs b) (tb_change_address b).
Definition add_output (b : WalletTxBuilder) (request : PaymentRequest) : WalletTxBuilder :=
  mkWalletTxBuilder (tb_network b) (tb_current_height b) (tb_fee b) (tb_inputs b) (tb_outputs b ++ [request]) (tb_change_address b).
Definition outputs (b : WalletTxBuilder) (requests : list PaymentRequest) : WalletTxBuilder :=
  mkWalletTxBuilder (tb_network b) (tb_current_height b) (tb_fee b) (tb_inputs b) (tb_outputs b ++ requests) (tb_change_address b).
Definition change_address (b : WalletTxBuilder) (address : bytes) : WalletTxBuilder :=
  mkWalletTxBuilder (tb_network b) (tb_current_height b) (tb_fee b) (tb_inputs b) (tb_outputs b) (Some address).

(** The sum of 64-bit amounts, without overflow checks. *)
Definition total_output_amount (b : WalletTxBuilder) : Z :=
  foldl (fun acc o => u64 (acc + pr_amount o)) 0 (tb_outputs b).

Definition parse_address (b : WalletTxBuilder) (address : bytes) : result TbAddress TxBuildFailure :=
  ok_or (parse_address_from_str (tb_network b) address) (BuildInvalidAddress address).

Definition build_output_candidate (b : WalletTxBuilder) (output : PaymentRequest)
    : result TbCandidate TxBuildFailure :=
  let? address := parse_address b (recipient output) in
  let? value := ok_or (box_value_try_from (pr_amount output)) BuildInvalidAmount in
  let? tree := ok_or (address_script address) BuildScriptParsing in
  ok_or (candidate_build value tree (tb_current_height b) (pr_tokens output)) BuildBoxCandidate.
Definition build_output_candidates (b : WalletTxBuilder) : result (list TbCandidate) TxBuildFailure :=
  rmap (build_output_candidate b) (tb_outputs b).

Definition build (b : WalletTxBuilder) : result TbUnsigned TxBuildFailure :=
  if decide (tb_inputs b = [] :> list TbBox) then Err BuildNoInputs else
  let? change_address_str := ok_or (tb_change_address b) BuildNoChangeAddress in
  let? change_address := parse_address b change_address_str in
  let total_needed := u64 (total_output_amount b + tb_fee b) in
  let needed_tokens := concat (pr_tokens <$> tb_outputs b) in
  let? target_value := ok_or (box_value_try_from total_needed) BuildInvalidAmount in
  let? box_selection := ok_or (select_boxes (tb_inputs b) target_value needed_tokens) BuildBoxSelection in
  let? output_candidates := build_output_candidates b in
  let? fee_value := ok_or (box_value_try_from (tb_fee b)) BuildInvalidAmount in
  ok_or (tx_build box_selection output_candidates (tb_current_height b) fee_value change_address) BuildTxBuilder.

Definition sign_tx (unsigned_tx : TbUnsigned) (input_boxes data_boxes : list TbBox)
    (state_context : TbState) (wallet : TbWallet) : result TbSigned TxBuildFailure :=
  let? tx_context := ok_or (tx_context_new unsigned_tx input_boxes data_boxes) BuildTxContext in
  ok_or (sign_transaction wallet tx_context state_context) BuildSigning.

Definition create_send_tx (from_boxes : list TbBox) (to_address : bytes) (amount : Z)
    (change_addr : bytes) (current_height : Z) (network : NetworkPrefix) : result TbUnsigned TxBuildFailure :=
  build (change_address (add_output (inputs (WalletTxBuilder_new network current_height) from_boxes)
    (PaymentRequest_new to_address amount)) change_addr).

Lemma total_output_amount_sum b :
  total_output_amount b = u64 (sumZ (pr_amount <$> tb_outputs b)).
Proof. apply u64_fold_sum. Qed.

(** What a built payment went through: boxes selected for the total of the
    amounts and the fee modulo 2^64, and one candidate per request, to the
    address and with the amount and tokens of the request. *)
Lemma build_ok b tx :
  build b = Ok tx ->
  tb_inputs b <> [] /\ exists addr change target sel cands feev,
    tb_change_address b = Some addr /\ parse_address_from_str (tb_network b) addr = Some change
    /\ box_value_try_from (u64 (sumZ (pr_amount <$> tb_outputs b) + tb_fee b)) = Some target
    /\ select_boxes (tb_inputs b) target (concat (pr_tokens <$> tb_outputs b)) = Some sel
    /\ Forall2 (fun o c => exists a v t, parse_address_from_str (tb_network b) (recipient o) = Some a
         /\ box_value_try_from (pr_amount o) = Some v /\ address_script a = Some t
         /\ candidate_build v t (tb_current_height b) (pr_tokens o) = Some c) (tb_outputs b) cands
    /\ box_value_try_from (tb_fee b) = Some feev
    /\ tx_build sel cands (tb_current_height b) feev change = Some tx.
Proof.
  assert (forall A E (o : option A) (e : E) (a : A), ok_or o e = Ok a -> o = Some a) as Hok by by intros ? ? [] ? ? [= ->].
  unfold build. case_decide as Hin; [done|]. cbv zeta.
  intros (addr & Ha%Hok & (change & Hc%Hok & (target & Ht%Hok & (sel & Hs%Hok & (cands & Hcs & (feev & Hf%Hok & Htx%Hok)%rbind_ok)%rbind_ok)%rbind_ok)%rbind_ok)%rbind_ok)%rbind_ok.
  split; [done|]. exists addr, change, target, sel, cands, feev. split_and!; try done.
  - rewrite total_output_amount_sum in Ht. unfold wrap in *. by rewrite Z.add_mod_idemp_l in Ht.
  - clear -Hcs Hok. revert cands Hcs. unfold build_output_candidates.
    induction (tb_outputs b) as [|o l IH]; cbn [rmap]; [intros cands [= <-]; constructor|].
    intros cands (c & Hc & (cs & Hcs & [= <-])%rbind_ok)%rbind_ok. constructor; [|by apply IH].
    revert Hc. unfold build_output_candidate, parse_address.
    intros (a & Ha%Hok & (v & Hv%Hok & (t & Ht%Hok & Hb%Hok)%rbind_ok)%rbind_ok)%rbind_ok.
    by exists a, v, t.
Qed.
End Builder.
