(* ===== verification/Mining.v ===== *)
(** * Block candidates and the solver (crates/ergo-mining/src/coinbase.rs,
      candidate.rs, solver.rs)

    Rewards, the assembly of a candidate from the state manager and the memory
    pool, and the search for a nonce.  The state manager and the pool are shared
    with the rest of the node, so an operation takes their current value; the
    system clock and random numbers are arguments.  The two clocks of
    [get_or_generate] are read one after the other. *)

From S2P Require Export Manager Difficulty Emission.
From S2P Require Mempool.

Local Open Scope Z_scope.

Inductive MiningError :=
  | NoRewardAddress
  | InvalidSolution
  | CandidateFailed (msg : string)
  | ME_State (e : StateError)
  | ME_Consensus (e : ConsensusError)
  | ME_Mempool (e : Mempool.MempoolError).

Definition MAX_TRANSACTIONS_PER_BLOCK : nat := 1000.

(** ** Rewards *)

Record EmissionParams := mkEmissionParams {
  initial_reward : Z; blocks_per_year : Z; fixed_rate_years : Z; yearly_reduction : Z;
  min_reward : Z }.

Definition EmissionParams_default : EmissionParams :=
  let erg := 1000000000 in
  mkEmissionParams (75 * erg) 262800 2 (3 * erg) (3 * erg).

Definition reward_at_height (p : EmissionParams) (height : Z) : Z :=
  let fixed_blocks := u32 (fixed_rate_years p * blocks_per_year p) in
  if height <=? fixed_blocks then initial_reward p
  else
    let years_after_fixed := (height - fixed_blocks) / blocks_per_year p in
    let reduction := u64 (years_after_fixed * yearly_reduction p) in
    Z.max (sat_sub (initial_reward p) reduction) (min_reward p).

Definition mining_rules : ReemissionRules := ReemissionRules_new mainnet.

Definition calculate_total_reward (height total_fees : Z) : Z :=
  u64 (miner_reward_at_height mining_rules height + total_fees).
Definition block_reward_at_height (height : Z) : Z := miner_reward_at_height mining_rules height.
Definition mining_emission_at_height (height : Z) : Z := emission_at_height height.
Definition mining_reemission_at_height (height : Z) : Z := reemission_for_height mining_rules height.

(** Addresses, box values and scripts of sigma-rust. *)
Class RewardLib `{ChainTypes} := {
  RwAddress : Type;
  RwTree : Type;
  rw_parse_address : NetworkPrefix -> bytes -> option RwAddress;
  rw_script : RwAddress -> option RwTree;
  rw_box_value : Z -> option Z;
  (** The point of an [Address::P2Pk], nothing for the other addresses. *)
  rw_p2pk : RwAddress -> option EcPoint
}.

Record CoinbaseBuilder := mkCoinbaseBuilder {
  cb_rules : ReemissionRules; cb_network : NetworkPrefix }.

Definition with_reemission (settings : ReemissionSettings) (network : NetworkPrefix) : CoinbaseBuilder :=
  mkCoinbaseBuilder (ReemissionRules_new settings) network.
Definition CoinbaseBuilder_new (network : NetworkPrefix) : CoinbaseBuilder :=
  let settings := match network with Mainnet => mainnet | Testnet => testnet end in
  with_reemission settings network.
Definition CoinbaseBuilder_default : CoinbaseBuilder := CoinbaseBuilder_new Mainnet.
Definition with_emission (_emission : EmissionParams) (network : NetworkPrefix) : CoinbaseBuilder :=
  CoinbaseBuilder_new network.

Definition cb_miner_reward (b : CoinbaseBuilder) (height : Z) : Z :=
  miner_reward_at_height (cb_rules b) height.
Definition cb_reemission (b : CoinbaseBuilder) (height : Z) : Z :=
  reemission_for_height (cb_rules b) height.
Definition cb_claimable (b : CoinbaseBuilder) (height : Z) : Z :=
  claimable_reemission_at_height (cb_rules b) height.
Definition cb_total_income (b : CoinbaseBuilder) (height : Z) : Z :=
  total_miner_income_at_height (cb_rules b) height.
Definition calculate_reward (b : CoinbaseBuilder) (height total_fees : Z) : Z :=
  u64 (cb_miner_reward b height + total_fees).
Definition legacy_emission (b : CoinbaseBuilder) : EmissionParams := EmissionParams_default.

(** [ErgoBoxCandidate] without tokens and registers. *)
Record RewardBox `{RewardLib} := mkRewardBox {
  rb_value : Z; rb_tree : RwTree; rb_creation_height : Z }.

Definition build_reward_box `{RewardLib} (b : CoinbaseBuilder) (height : Z) (reward_address : bytes)
    (total_fees : Z) : result RewardBox MiningError :=
  let block_reward := cb_miner_reward b height in
  let total_reward := u64 (block_reward + total_fees) in
  let? address := ok_or (rw_parse_address (cb_network b) reward_address)
                    (CandidateFailed "Invalid reward address") in
  let? ergo_tree := ok_or (rw_script address) (CandidateFailed "Failed to get script") in
  let? box_value := ok_or (rw_box_value total_reward) (CandidateFailed "Invalid box value") in
  Ok (mkRewardBox _ _ box_value ergo_tree height).

(** ** Candidates *)

Record BlockCandidate := mkBlockCandidate {
  bc_parent_id : option bytes;
  bc_height : Z;
  bc_timestamp : Z;
  bc_n_bits : Z;
  bc_transactions_root : bytes;
  bc_state_root : bytes;
  bc_extension_hash : bytes;
  bc_header_bytes : bytes;
  bc_transaction_ids : list bytes;
  bc_reward : Z
}.

Definition mining_message (c : BlockCandidate) : bytes := bc_header_bytes c.

Record CandidateGenerator := mkCandidateGenerator {
  cg_reward_address : option bytes;
  cg_cached : option BlockCandidate
}.

Definition CandidateGenerator_new : CandidateGenerator := mkCandidateGenerator None None.

Definition set_reward_address (g : CandidateGenerator) (address : bytes) : CandidateGenerator :=
  mkCandidateGenerator (Some address) None.
Definition invalidate (g : CandidateGenerator) : CandidateGenerator :=
  mkCandidateGenerator (cg_reward_address g) None.
Definition cache_candidate (g : CandidateGenerator) (c : BlockCandidate) : CandidateGenerator :=
  mkCandidateGenerator (cg_reward_address g) (Some c).

(** A field of 32 bytes: cut, or filled with zeros. *)
Definition field32 (bs : bytes) : bytes :=
  if (32 <=? length bs)%nat then slice 0 32 bs else bs ++ replicate (32 - length bs) 0.

Definition serialize_header_for_mining (parent_id : option bytes) (height timestamp n_bits : Z)
    (transactions_root state_root extension_hash : bytes) : bytes :=
  [2] ++
  match parent_id with Some parent => parent | None => replicate 32 0 end ++
  replicate 32 0 ++
  field32 state_root ++
  field32 transactions_root ++
  be_bytes 8 timestamp ++
  be_bytes 4 n_bits ++
  be_bytes 4 height ++
  field32 extension_hash ++
  replicate 3 0.

Definition compute_extension_hash : bytes := replicate 32 0.

Section Candidate.
Context {ErgoBox Ext Tx : Type} `{ErgoBoxOps ErgoBox} `{TransactionOps ErgoBox Ext Tx}
  `{ChainTypes} `{!HeaderCodec} `{Blake2b256} `{BigUintBytes} {DB : Type} `{Storage DB}.

Definition compute_transactions_root (tx_ids : list bytes) : bytes :=
  match tx_ids with
  | [] => replicate 32 0
  | _ => blake2b256 (concat tx_ids)
  end.

(** The stored headers of the heights below [next_height]; heights without a
    header and failed reads are skipped. *)
Definition header_for_difficulty (s : DB) (height : Z) : option HeaderForDifficulty :=
  match get_by_height s height with
  | Ok (Some header) => Some (mkHeaderForDifficulty (h_height header) (h_timestamp header) (h_n_bits header))
  | _ => None
  end.

Definition calculate_difficulty (s : DB) (next_height : Z) : result Z MiningError :=
  let headers_needed := 8 * 1024 in
  let start_height := sat_sub next_height headers_needed in
  let headers_for_diff :=
    omap (header_for_difficulty s) (seqZ start_height (next_height - start_height)) in
  if decide (headers_for_diff = []) then Ok 0x1f00ffff
  else
    match calculate_next_difficulty DifficultyAdjustment_new headers_for_diff next_height with
    | Ok n_bits => Ok n_bits
    | Err _ => Ok (match last headers_for_diff with Some h => hd_n_bits h | None => 0x1f00ffff end)
    end.

(** The state manager and the memory pool as an operation finds them. *)
Record MiningEnv := mkMiningEnv {
  me_state : StateManager DB; me_mempool : Mempool.Mempool }.

Definition generate (env : MiningEnv) (now : Z) (g : CandidateGenerator)
    : result BlockCandidate MiningError * CandidateGenerator :=
  match cg_reward_address g with
  | None => (Err NoRewardAddress, g)
  | Some _reward_addr =>
      let '(_utxo_height, header_height) := heights (me_state env) in
      let best_header := best_header_id (sm_history (me_state env)) in
      let state_root := us_state_root (sm_utxo (me_state env)) in
      let new_height := u32 (header_height + 1) in
      let mempool_txs := Mempool.get_by_fee (me_mempool env) MAX_TRANSACTIONS_PER_BLOCK in
      let tx_ids := Mempool.ptx_id <$> mempool_txs in
      let total_fees := foldl (fun acc tx => u64 (acc + Mempool.ptx_fee tx)) 0 mempool_txs in
      let block_reward := block_reward_at_height new_height in
      let total_reward := u64 (block_reward + total_fees) in
      match calculate_difficulty (sm_storage (me_state env)) new_height with
      | Err e => (Err e, g)
      | Ok n_bits =>
          let transactions_root := compute_transactions_root tx_ids in
          let extension_hash := compute_extension_hash in
          let header_bytes := serialize_header_for_mining best_header new_height now n_bits
                                transactions_root state_root extension_hash in
          let candidate := mkBlockCandidate best_header new_height now n_bits transactions_root
                             state_root extension_hash header_bytes tx_ids total_reward in
          (Ok candidate, cache_candidate g candidate)
      end
  end.

(** The cache is used for the next height and for thirty seconds; the
    difference of the timestamps wraps. *)
Definition cache_fresh (env : MiningEnv) (now : Z) (cached : BlockCandidate) : bool :=
  let '(_, current_height) := heights (me_state env) in
  (bc_height cached =? u32 (current_height + 1)) && (u64 (now - bc_timestamp cached) <? 30000).

Definition get_or_generate (env : MiningEnv) (now now' : Z) (g : CandidateGenerator)
    : result BlockCandidate MiningError * CandidateGenerator :=
  match cg_cached g with
  | Some cached => if cache_fresh env now cached then (Ok cached, g) else generate env now' g
  | None => generate env now' g
  end.

End Candidate.

#[global] Arguments MiningEnv DB : clear implicits.

(** ** The solver *)

Module Solver.
Section Solver.
Context `{Blake2b256} `{BigUintBytes} `{ChainTypes}.

Definition DEFAULT_BATCH_SIZE : Z := 10000.

Record AutolykosSolver := mkAutolykosSolver { so_k : Z; so_verifier : AutolykosV2 }.

Definition solver_new : AutolykosSolver := mkAutolykosSolver 32 AutolykosV2_new.

Definition msg_hash (header_bytes nonce : bytes) : bytes := blake2b256 (header_bytes ++ nonce).

Definition seed_hash (msg pk : bytes) : bytes := blake2b256 (msg ++ pk).

(** One index: the first four bytes of [H(seed || i)], modulo [n]. *)
Definition solver_index (seed : bytes) (n i : Z) : Z :=
  let hash := blake2b256 (seed ++ be_bytes 4 i) in
  let idx := be_val (slice 0 4 hash) mod n in
  idx.

Definition indices (s : AutolykosSolver) (seed : bytes) (n : Z) : list Z :=
  (fun i => solver_index seed n (Z.of_nat i)) <$> seq 0 (Z.to_nat (so_k s)).

Fixpoint f_sum_from (sum : Z) (indices : list Z) (msg pk : bytes) : Z :=
  match indices with
  | [] => sum
  | idx :: indices' =>
      let hash_buf := blake2b256 (be_bytes 4 idx ++ msg ++ pk) in
      f_sum_from (sum + be_val hash_buf) indices' msg pk
  end.
Definition f_sum (indices : list Z) (msg pk : bytes) : bytes :=
  to_bytes_be (f_sum_from 0 indices msg pk).

Definition hit_hash (f_sum : bytes) : bytes := blake2b256 f_sum.

Definition try_nonce (s : AutolykosSolver) (header_bytes nonce : bytes) (target n : Z)
    (pk_bytes : bytes) (miner_pk : EcPoint) : option AutolykosSolution :=
  let msg := msg_hash header_bytes nonce in
  let seed := seed_hash msg pk_bytes in
  let indices := indices s seed n in
  let f_sum := f_sum indices msg pk_bytes in
  let hit := hit_hash f_sum in
  let hit_value := be_val hit in
  if hit_value <=? target then Some (mkAutolykosSolution miner_pk None nonce None)
  else None.

(** The nonce of an attempt. *)
Definition nonce_at (start_nonce attempt : Z) : bytes := be_bytes 8 (u64 (start_nonce + attempt)).

(** The attempts from [attempt] on, [n] of them: the solution found with the
    number of attempts, or nothing. *)
Fixpoint batch_loop (s : AutolykosSolver) (header_bytes : bytes) (target n : Z) (pk_bytes : bytes)
    (miner_pk : EcPoint) (start_nonce : Z) (attempts : nat) (offset : Z)
    : option (AutolykosSolution * Z) :=
  match attempts with
  | O => None
  | S attempts' =>
      match try_nonce s header_bytes (nonce_at start_nonce offset) target n pk_bytes miner_pk with
      | Some solution => Some (solution, offset + 1)
      | None => batch_loop s header_bytes target n pk_bytes miner_pk start_nonce attempts' (offset + 1)
      end
  end.

(** The result and the new value of the hash counter. *)
Definition try_solve_batch (s : AutolykosSolver) (header_bytes : bytes) (n_bits height : Z)
    (miner_pk : EcPoint) (start_nonce batch_size hash_counter : Z) : option AutolykosSolution * Z :=
  let target := nbits_to_target n_bits in
  let n := n_for_height height in
  match ec_serialize miner_pk with
  | None => (None, hash_counter)
  | Some pk_bytes =>
      match batch_loop s header_bytes target n pk_bytes miner_pk start_nonce (Z.to_nat batch_size) 0 with
      | Some (solution, hashes) => (Some solution, u64 (hash_counter + hashes))
      | None => (None, u64 (hash_counter + batch_size))
      end
  end.

Inductive Search := Cancelled | Found (solution : AutolykosSolution) (hashes : Z) | Exhausted.

(** [cancel attempt] is the flag as read before that attempt. *)
Fixpoint solve_loop (s : AutolykosSolver) (header_bytes : bytes) (target n : Z) (pk_bytes : bytes)
    (miner_pk : EcPoint) (cancel : Z -> bool) (start_nonce : Z) (attempts : nat) (attempt : Z) : Search :=
  match attempts with
  | O => Exhausted
  | S attempts' =>
      if (attempt mod 1000 =? 0) && cancel attempt then Cancelled
      else
        match try_nonce s header_bytes (nonce_at start_nonce attempt) target n pk_bytes miner_pk with
        | Some solution => Found solution (attempt + 1)
        | None => solve_loop s header_bytes target n pk_bytes miner_pk cancel start_nonce attempts' (attempt + 1)
        end
  end.

Definition try_solve (s : AutolykosSolver) (header_bytes : bytes) (n_bits height : Z)
    (miner_pk : EcPoint) (max_attempts : Z) (cancel : Z -> bool) (start_nonce hash_counter : Z)
    : option AutolykosSolution * Z :=
  let target := nbits_to_target n_bits in
  let n := n_for_height height in
  match ec_serialize miner_pk with
  | None => (None, hash_counter)
  | Some pk_bytes =>
      match solve_loop s header_bytes target n pk_bytes miner_pk cancel start_nonce (Z.to_nat max_attempts) 0 with
      | Cancelled => (None, hash_counter)
      | Found solution hashes => (Some solution, u64 (hash_counter + hashes))
      | Exhausted => (None, u64 (hash_counter + max_attempts))
      end
  end.

Definition verify (s : AutolykosSolver) (header_bytes : bytes) (solution : AutolykosSolution)
    (n_bits height : Z) : bool :=
  let target := nbits_to_target n_bits in
  match verify_solution (so_verifier s) header_bytes solution target height with
  | Ok valid => valid
  | Err _ => false
  end.

Definition default_batch_size : Z := DEFAULT_BATCH_SIZE.

End Solver.
End Solver.
