(* ===== verification/Miner.v ===== *)
(** * The miner and its workers (crates/ergo-mining/src/miner.rs, worker.rs)

    A worker is a thread: one step is one turn of its loops.  Workers share the
    watch channel with the task (a value and its version) and the bounded
    channel for solutions; a worker whose solution does not fit waits in its
    send.  The random number of a worker is an argument of its start.

    The miner is shared: [get_candidate], [submit_solution] and [on_new_block]
    take one lock or atomic after another, and other calls run in between.  A
    call is therefore a phase (where it is in the method's text) and one step
    per access of the shared state.  The loop of [start_internal_mining] makes
    such calls too; each turn of its loops, each step of a call and of a worker
    is an event.  Times are in nanoseconds of the monotonic clock. *)

From S2P Require Export Mining.

Local Open Scope Z_scope.

Definition BATCH_SIZE : Z := 10000.
Definition MAX_NONCE_PARTITIONS : Z := 256.

Section Workers.
Context `{Blake2b256} `{BigUintBytes} `{ChainTypes}.

Record MiningTask := mkMiningTask {
  mt_header_bytes : bytes; mt_n_bits : Z; mt_height : Z; mt_miner_pk : EcPoint; mt_created_at : Z }.

Record FoundSolution := mkFoundSolution {
  fs_solution : AutolykosSolution; fs_task : MiningTask; fs_worker_id : Z; fs_hashes_computed : Z }.

(** Where the thread is: at the head of the outer loop; in the inner loop on a
    task (with the version it has seen) and its next nonce; in
    [blocking_send]; gone. *)
Inductive WorkerPhase :=
  | Fetching
  | Working (seen : Z) (task : MiningTask) (local_nonce : Z)
  | Sending (found : FoundSolution)
  | Finished.

Record MiningWorker := mkMiningWorker {
  mw_id : Z; mw_running : bool; mw_hash_count : Z; mw_nonce_offset : Z; mw_phase : WorkerPhase }.

Definition partition_size : Z := (2 ^ 64 - 1) / MAX_NONCE_PARTITIONS.

Definition nonce_offset (id random : Z) : Z :=
  let partition := id mod MAX_NONCE_PARTITIONS in
  let base_offset := partition * partition_size in
  let random_offset := random mod (partition_size / 2) in
  u64 (base_offset + random_offset).

Definition spawn (id random : Z) : MiningWorker :=
  mkMiningWorker id true 0 (nonce_offset id random) Fetching.

Definition set_phase (w : MiningWorker) (p : WorkerPhase) : MiningWorker :=
  mkMiningWorker (mw_id w) (mw_running w) (mw_hash_count w) (mw_nonce_offset w) p.
Definition add_hashes (w : MiningWorker) (hashes : Z) : MiningWorker :=
  mkMiningWorker (mw_id w) (mw_running w) (u64 (mw_hash_count w + hashes)) (mw_nonce_offset w) (mw_phase w).

Definition worker_stop (w : MiningWorker) : MiningWorker :=
  mkMiningWorker (mw_id w) false (mw_hash_count w) (mw_nonce_offset w) (mw_phase w).
Definition reset_hash_count (w : MiningWorker) : Z * MiningWorker :=
  (mw_hash_count w, mkMiningWorker (mw_id w) (mw_running w) 0 (mw_nonce_offset w) (mw_phase w)).

(** A batch on a task: the search, the counters, and what comes next. *)
Definition worker_batch (w : MiningWorker) (seen : Z) (task : MiningTask) (local_nonce : Z) : MiningWorker :=
  let '(result, batch_hashes) :=
    Solver.try_solve_batch Solver.solver_new (mt_header_bytes task) (mt_n_bits task)
      (mt_height task) (mt_miner_pk task) local_nonce BATCH_SIZE 0 in
  match result with
  | Some solution =>
      set_phase (add_hashes w batch_hashes)
        (Sending (mkFoundSolution solution task (mw_id w) batch_hashes))
  | None =>
      set_phase (add_hashes w BATCH_SIZE) (Working seen task (u64 (local_nonce + BATCH_SIZE)))
  end.

(** The channel to the workers, and one turn of a worker's loop with the
    solution it hands over, if there is [room] for it. *)
Definition worker_step (version : Z) (current : option MiningTask) (room : bool) (w : MiningWorker)
    : MiningWorker * option FoundSolution :=
  match mw_phase w with
  | Fetching =>
      if negb (mw_running w) then (set_phase w Finished, None)
      else
        match current with
        | Some task =>
            (set_phase w (Working version task (u64 (mw_nonce_offset w + mw_hash_count w))), None)
        | None => (w, None)
        end
  | Working seen task local_nonce =>
      if negb (mw_running w) then (set_phase w Fetching, None)
      else if negb (version =? seen) then (set_phase w Fetching, None)
      else (worker_batch w seen task local_nonce, None)
  | Sending found => if room then (set_phase w Fetching, Some found) else (w, None)
  | Finished => (w, None)
  end.

(** ** The pool *)

Record WorkerPool := mkWorkerPool {
  wp_workers : list MiningWorker;
  wp_version : Z;
  wp_task : option MiningTask;
  wp_solutions : list FoundSolution;
  wp_running : bool
}.

Definition num_workers (p : WorkerPool) : Z := Z.of_nat (length (wp_workers p)).

(** One random number per worker. *)
Definition WorkerPool_new (randoms : list Z) : WorkerPool :=
  mkWorkerPool (imap (fun id random => spawn (Z.of_nat id) random) randoms) 0 None [] true.

Definition set_workers (p : WorkerPool) (ws : list MiningWorker) : WorkerPool :=
  mkWorkerPool ws (wp_version p) (wp_task p) (wp_solutions p) (wp_running p).

(** The capacity of the solution channel. *)
Definition has_room (p : WorkerPool) : bool :=
  Z.of_nat (length (wp_solutions p)) <? num_workers p * 2.

Definition pool_step (p : WorkerPool) (i : nat) : WorkerPool :=
  match wp_workers p !! i with
  | None => p
  | Some w =>
      let '(w', sent) := worker_step (wp_version p) (wp_task p) (has_room p) w in
      mkWorkerPool (<[i := w']> (wp_workers p)) (wp_version p) (wp_task p)
        (wp_solutions p ++ option_list sent) (wp_running p)
  end.

(** A worker holds its receiver until its thread ends. *)
Definition subscribed (w : MiningWorker) : bool :=
  match mw_phase w with Finished => false | _ => true end.

(** [watch::Sender::send], which needs a receiver. *)
Definition watch_send (p : WorkerPool) (task : option MiningTask) : WorkerPool :=
  if existsb subscribed (wp_workers p) then
    mkWorkerPool (wp_workers p) (wp_version p + 1) task (wp_solutions p) (wp_running p)
  else p.

Definition broadcast_task (p : WorkerPool) (task : MiningTask) : WorkerPool := watch_send p (Some task).
Definition clear_task (p : WorkerPool) : WorkerPool := watch_send p None.

(** The next solution; [recv_solution] waits for it. *)
Definition try_recv_solution (p : WorkerPool) : option FoundSolution * WorkerPool :=
  match wp_solutions p with
  | [] => (None, p)
  | found :: rest =>
      (Some found, mkWorkerPool (wp_workers p) (wp_version p) (wp_task p) rest (wp_running p))
  end.

Definition total_hash_count (p : WorkerPool) : Z :=
  foldl (fun acc w => u64 (acc + mw_hash_count w)) 0 (wp_workers p).
Definition reset_hash_counts (p : WorkerPool) : Z * WorkerPool :=
  (foldl (fun acc w => u64 (acc + (reset_hash_count w).1)) 0 (wp_workers p),
   set_workers p ((fun w => (reset_hash_count w).2) <$> wp_workers p)).

Definition pool_stop (p : WorkerPool) : WorkerPool :=
  mkWorkerPool (worker_stop <$> wp_workers p) (wp_version p) (wp_task p) (wp_solutions p) false.

(** [shutdown] stops the workers and returns once every thread has ended. *)
Definition joined (p : WorkerPool) : bool := forallb (fun w => negb (subscribed w)) (wp_workers p).

End Workers.

Definition CANDIDATE_REFRESH_SECS : Z := 30.

Record MinerConfig := mkMinerConfig {
  internal_mining : bool; external_mining : bool; mc_reward_address : bytes; threads : Z;
  mc_network : NetworkPrefix }.

Definition MinerConfig_default : MinerConfig := mkMinerConfig false true [] 0 Mainnet.

(** [cpus] is the number of processors. *)
Definition effective_threads (c : MinerConfig) (cpus : Z) : Z :=
  if threads c =? 0 then Z.max cpus 1 else threads c.

Record MiningStats := mkMiningStats {
  candidates_generated : Z; solutions_received : Z; valid_solutions : Z; invalid_solutions : Z;
  blocks_mined : Z; hash_rate : f64; total_hashes : Z }.

Definition MiningStats_default : MiningStats := mkMiningStats 0 0 0 0 0 f64_zero 0.

Section Miner.
Context {ErgoBox Ext Tx : Type} `{ErgoBoxOps ErgoBox} `{TransactionOps ErgoBox Ext Tx}
  `{ChainTypes} `{!HeaderCodec} `{Blake2b256} `{BigUintBytes} {DB : Type} `{Storage DB}
  `{!RewardLib}.

Record Miner := mkMiner {
  mn_config : MinerConfig;
  mn_candidate_gen : CandidateGenerator;
  mn_enabled : bool;
  mn_internal_running : bool;
  mn_current : option BlockCandidate;
  mn_stats : MiningStats;
  mn_hash_count : Z;
  mn_last_rate_calc : Z
}.

Definition set_gen (m : Miner) (g : CandidateGenerator) : Miner :=
  mkMiner (mn_config m) g (mn_enabled m) (mn_internal_running m) (mn_current m) (mn_stats m)
    (mn_hash_count m) (mn_last_rate_calc m).
Definition set_flags (m : Miner) (enabled running : bool) : Miner :=
  mkMiner (mn_config m) (mn_candidate_gen m) enabled running (mn_current m) (mn_stats m)
    (mn_hash_count m) (mn_last_rate_calc m).
Definition set_current (m : Miner) (c : option BlockCandidate) : Miner :=
  mkMiner (mn_config m) (mn_candidate_gen m) (mn_enabled m) (mn_internal_running m) c (mn_stats m)
    (mn_hash_count m) (mn_last_rate_calc m).
Definition set_stats (m : Miner) (s : MiningStats) : Miner :=
  mkMiner (mn_config m) (mn_candidate_gen m) (mn_enabled m) (mn_internal_running m) (mn_current m) s
    (mn_hash_count m) (mn_last_rate_calc m).
Definition set_rate (m : Miner) (hashes last : Z) : Miner :=
  mkMiner (mn_config m) (mn_candidate_gen m) (mn_enabled m) (mn_internal_running m) (mn_current m)
    (mn_stats m) hashes last.

(** Increments of the statistics. *)
Definition count_candidate (s : MiningStats) : MiningStats :=
  mkMiningStats (u64 (candidates_generated s + 1)) (solutions_received s) (valid_solutions s)
    (invalid_solutions s) (blocks_mined s) (hash_rate s) (total_hashes s).
Definition count_received (s : MiningStats) : MiningStats :=
  mkMiningStats (candidates_generated s) (u64 (solutions_received s + 1)) (valid_solutions s)
    (invalid_solutions s) (blocks_mined s) (hash_rate s) (total_hashes s).
Definition count_valid (s : MiningStats) : MiningStats :=
  mkMiningStats (candidates_generated s) (solutions_received s) (u64 (valid_solutions s + 1))
    (invalid_solutions s) (blocks_mined s) (hash_rate s) (total_hashes s).
Definition count_mined (s : MiningStats) : MiningStats :=
  mkMiningStats (candidates_generated s) (solutions_received s) (valid_solutions s)
    (invalid_solutions s) (u64 (blocks_mined s + 1)) (hash_rate s) (total_hashes s).
Definition count_invalid (s : MiningStats) : MiningStats :=
  mkMiningStats (candidates_generated s) (solutions_received s) (valid_solutions s)
    (u64 (invalid_solutions s + 1)) (blocks_mined s) (hash_rate s) (total_hashes s).

(** ** Operations *)

Definition Miner_new (config : MinerConfig) (gen : CandidateGenerator) (now : Z) : Miner :=
  let gen := if decide (mc_reward_address config = []) then gen
             else set_reward_address gen (mc_reward_address config) in
  mkMiner config gen false false None MiningStats_default 0 now.

Definition start (m : Miner) : Miner := set_flags m true (mn_internal_running m).
Definition stop (m : Miner) : Miner := set_flags m false false.
Definition stop_internal_mining (m : Miner) : Miner := set_flags m (mn_enabled m) false.

(** [get_or_generate] access by access: look into the cache (its read lock is
    held while the height is read), make a candidate, write the cache. *)
Inductive GenPhase :=
  | GP_Look
  | GP_Make
  | GP_Made (candidate : BlockCandidate)
  | GP_Done (answer : result BlockCandidate MiningError).

Definition generate_step (env : MiningEnv DB) (now : Z) (p : GenPhase) (g : CandidateGenerator)
    : GenPhase * CandidateGenerator :=
  match p with
  | GP_Look =>
      match cg_cached g with
      | Some cached => (if cache_fresh env now cached then GP_Done (Ok cached) else GP_Make, g)
      | None => (GP_Make, g)
      end
  | GP_Make =>
      match (generate env now g).1 with
      | Ok candidate => (GP_Made candidate, g)
      | Err e => (GP_Done (Err e), g)
      end
  | GP_Made candidate => (GP_Done (Ok candidate), cache_candidate g candidate)
  | GP_Done _ => (p, g)
  end.

(** [get_candidate]: the flag, the generator, the current candidate, the
    counter. *)
Inductive AskPhase :=
  | AP_Enter
  | AP_Generating (p : GenPhase)
  | AP_Have (candidate : BlockCandidate)
  | AP_Shown (candidate : BlockCandidate)
  | AP_Done (answer : result BlockCandidate MiningError).

Definition candidate_step (env : MiningEnv DB) (now : Z) (p : AskPhase) (m : Miner) : AskPhase * Miner :=
  match p with
  | AP_Enter =>
      if negb (mn_enabled m) then (AP_Done (Err (CandidateFailed "Mining not enabled")), m)
      else (AP_Generating GP_Look, m)
  | AP_Generating gp =>
      let '(gp', g) := generate_step env now gp (mn_candidate_gen m) in
      (match gp' with
       | GP_Done (Ok candidate) => AP_Have candidate
       | GP_Done (Err e) => AP_Done (Err e)
       | _ => AP_Generating gp'
       end, set_gen m g)
  | AP_Have candidate => (AP_Shown candidate, set_current m (Some candidate))
  | AP_Shown candidate => (AP_Done (Ok candidate), set_stats m (count_candidate (mn_stats m)))
  | AP_Done _ => (p, m)
  end.

(** [submit_solution]: the flag, the counter of received solutions, the current
    candidate; then, on what the verifier says of it, the counters, the cache
    and the current candidate again.  The answer comes with the candidate the
    solution was checked against. *)
Inductive SubmitPhase :=
  | SP_Enter
  | SP_Enabled
  | SP_Counted
  | SP_Checking (candidate : BlockCandidate)
  | SP_Valid (candidate : BlockCandidate)
  | SP_Mined (candidate : BlockCandidate)
  | SP_Uncached (candidate : BlockCandidate)
  | SP_Done (checked : option BlockCandidate) (answer : result bool MiningError).

Definition submit_step (solution : AutolykosSolution) (p : SubmitPhase) (m : Miner)
    : SubmitPhase * Miner :=
  match p with
  | SP_Enter =>
      if negb (mn_enabled m) then (SP_Done None (Err (CandidateFailed "Mining not enabled")), m)
      else (SP_Enabled, m)
  | SP_Enabled => (SP_Counted, set_stats m (count_received (mn_stats m)))
  | SP_Counted =>
      match mn_current m with
      | None => (SP_Done None (Err InvalidSolution), m)
      | Some candidate => (SP_Checking candidate, m)
      end
  | SP_Checking candidate =>
      let target := nbits_to_target (bc_n_bits candidate) in
      match verify_solution AutolykosV2_new (bc_header_bytes candidate) solution target
              (bc_height candidate) with
      | Err e => (SP_Done (Some candidate) (Err (ME_Consensus e)), m)
      | Ok true => (SP_Valid candidate, set_stats m (count_valid (mn_stats m)))
      | Ok false => (SP_Done (Some candidate) (Ok false), set_stats m (count_invalid (mn_stats m)))
      end
  | SP_Valid candidate => (SP_Mined candidate, set_stats m (count_mined (mn_stats m)))
  | SP_Mined candidate => (SP_Uncached candidate, set_gen m (invalidate (mn_candidate_gen m)))
  | SP_Uncached candidate => (SP_Done (Some candidate) (Ok true), set_current m None)
  | SP_Done _ _ => (p, m)
  end.

(** The call when nothing runs in between: seven steps end it. *)
Definition submit_solution (solution : AutolykosSolution) (m : Miner) : SubmitPhase * Miner :=
  Nat.iter 7 (fun '(p, m) => submit_step solution p m) (SP_Enter, m).

(** [on_new_block]: the cache, then the current candidate. *)
Inductive ClearPhase :=
  | CP_Enter
  | CP_Uncached
  | CP_Done.

Definition on_new_block (p : ClearPhase) (m : Miner) : ClearPhase * Miner :=
  match p with
  | CP_Enter => (CP_Uncached, set_gen m (invalidate (mn_candidate_gen m)))
  | CP_Uncached => (CP_Done, set_current m None)
  | CP_Done => (CP_Done, m)
  end.

Definition miner_reward_address (m : Miner) : option bytes := cg_reward_address (mn_candidate_gen m).
Definition miner_set_reward_address (m : Miner) (address : bytes) : Miner :=
  set_gen m (set_reward_address (mn_candidate_gen m) address).

(** [Duration::as_secs_f64]: whole seconds and the fraction. *)
Definition as_secs_f64 (nanos : Z) : f64 :=
  f64_add (f64_of_Z (nanos / 1000000000)) (f64_div (f64_of_Z (nanos mod 1000000000)) (f64_of_Z 1000000000)).

Definition update_hash_rate (new_hashes now : Z) (m : Miner) : Miner :=
  let hash_count := u64 (mn_hash_count m + new_hashes) in
  let total := u64 (mn_hash_count m + new_hashes) in
  let elapsed := now - mn_last_rate_calc m in
  let s := mn_stats m in
  if elapsed >=? 100000000 then
    let rate := f64_div (f64_of_Z new_hashes) (as_secs_f64 elapsed) in
    set_rate (set_stats m (mkMiningStats (candidates_generated s) (solutions_received s)
      (valid_solutions s) (invalid_solutions s) (blocks_mined s) rate total)) hash_count now
  else
    set_rate (set_stats m (mkMiningStats (candidates_generated s) (solutions_received s)
      (valid_solutions s) (invalid_solutions s) (blocks_mined s) (hash_rate s) total))
      hash_count (mn_last_rate_calc m).

Definition get_miner_pk (m : Miner) : result EcPoint MiningError :=
  let? address_str := ok_or (miner_reward_address m) NoRewardAddress in
  let? address := ok_or (rw_parse_address (mc_network (mn_config m)) address_str)
                    (CandidateFailed "Invalid reward address") in
  ok_or (rw_p2pk address) (CandidateFailed "Reward address must be a P2PK address for mining").

(** ** Internal mining *)

(** The checks before the loop: the running flag is set before the address is
    looked up, and stays set when that fails. *)
Definition begin_internal_mining (m : Miner) : result EcPoint MiningError * Miner :=
  if negb (internal_mining (mn_config m)) then
    (Err (CandidateFailed "Internal mining not enabled in config"), m)
  else if mn_internal_running m then
    (Err (CandidateFailed "Internal mining already running"), m)
  else
    let m := set_flags m (mn_enabled m) true in
    match get_miner_pk m with
    | Ok pk => (Ok pk, m)
    | Err e => (Err e, m)
    end.

Definition task_of (pk : EcPoint) (c : BlockCandidate) : MiningTask :=
  mkMiningTask (bc_header_bytes c) (bc_n_bits c) (bc_height c) pk (bc_timestamp c).

(** A call of the miner and how far it is. *)
Inductive MinerCall :=
  | Submitting (solution : AutolykosSolution) (p : SubmitPhase)
  | Asking (p : AskPhase)
  | Clearing (p : ClearPhase).

Definition call_step (env : MiningEnv DB) (now : Z) (c : MinerCall) (m : Miner) : MinerCall * Miner :=
  match c with
  | Submitting solution p =>
      let '(p', m') := submit_step solution p m in (Submitting solution p', m')
  | Asking p => let '(p', m') := candidate_step env now p m in (Asking p', m')
  | Clearing p => let '(p', m') := on_new_block p m in (Clearing p', m')
  end.

(** Where the mining task is: not started; at the head of the outer loop; in
    its call of [get_candidate]; waiting on a candidate until a deadline; in
    [handle_found_solution], in its call of [submit_solution]; after the loop,
    in [shutdown]. *)
Inductive LoopPhase :=
  | Idle
  | Top (pk : EcPoint)
  | Getting (pk : EcPoint) (call : nat)
  | Waiting (pk : EcPoint) (candidate : BlockCandidate) (deadline : Z)
  | Handling (pk : EcPoint) (candidate : BlockCandidate) (deadline : Z) (call : nat)
  | Closing.

(** The calls in the order they were made, the loop's among them. *)
Record MiningSystem := mkMiningSystem {
  ms_miner : Miner;
  ms_pool : WorkerPool;
  ms_calls : list MinerCall;
  ms_loop : LoopPhase
}.

Definition set_miner (s : MiningSystem) (m : Miner) : MiningSystem :=
  mkMiningSystem m (ms_pool s) (ms_calls s) (ms_loop s).
Definition set_loop (s : MiningSystem) (l : LoopPhase) : MiningSystem :=
  mkMiningSystem (ms_miner s) (ms_pool s) (ms_calls s) l.

(** A new call, and an access by the call of number [i]. *)
Definition add_call (s : MiningSystem) (c : MinerCall) : MiningSystem :=
  mkMiningSystem (ms_miner s) (ms_pool s) (ms_calls s ++ [c]) (ms_loop s).
Definition step_call (i : nat) (env : MiningEnv DB) (now : Z) (s : MiningSystem) : MiningSystem :=
  match ms_calls s !! i with
  | Some c =>
      let '(c', m') := call_step env now c (ms_miner s) in
      mkMiningSystem m' (ms_pool s) (<[i := c']> (ms_calls s)) (ms_loop s)
  | None => s
  end.

(** The flags of the loops. *)
Definition keep_mining (m : Miner) : bool := mn_enabled m && mn_internal_running m.

(** The start of the task, with a random number per worker.  The node spawns
    the task once; a start while an earlier task runs is not a step. *)
Definition step_begin (randoms : list Z) (s : MiningSystem) : MiningSystem :=
  match ms_loop s with
  | Idle =>
      match begin_internal_mining (ms_miner s) with
      | (Err _, m) => set_miner s m
      | (Ok pk, m) => mkMiningSystem m (WorkerPool_new randoms) (ms_calls s) (Top pk)
      end
  | _ => s
  end.

(** One turn of the outer loop: the call of [get_candidate], *)
Definition step_top (s : MiningSystem) : MiningSystem :=
  match ms_loop s with
  | Top pk =>
      if keep_mining (ms_miner s) then
        set_loop (add_call s (Asking AP_Enter)) (Getting pk (length (ms_calls s)))
      else mkMiningSystem (ms_miner s) (pool_stop (ms_pool s)) (ms_calls s) Closing
  | _ => s
  end.

(** and what follows its answer, up to the wait; [instant] is the monotonic
    clock. *)
Definition step_got (instant : Z) (s : MiningSystem) : MiningSystem :=
  match ms_loop s with
  | Getting pk call =>
      match ms_calls s !! call with
      | Some (Asking (AP_Done (Ok candidate))) =>
          mkMiningSystem (ms_miner s) (broadcast_task (ms_pool s) (task_of pk candidate)) (ms_calls s)
            (Waiting pk candidate (instant + CANDIDATE_REFRESH_SECS * 1000000000))
      | Some (Asking (AP_Done (Err _))) => set_loop s (Top pk)
      | _ => s
      end
  | _ => s
  end.

(** The end of a turn of the inner loop. *)
Definition after_turn (pk : EcPoint) (s : MiningSystem) : MiningSystem :=
  if keep_mining (ms_miner s) then s else set_loop s (Top pk).

(** A received solution: one for another height is dropped, the others are
    submitted. *)
Definition handle_found_solution (pk : EcPoint) (candidate : BlockCandidate) (deadline : Z)
    (found : FoundSolution) (s : MiningSystem) : MiningSystem :=
  if negb (mt_height (fs_task found) =? bc_height candidate) then after_turn pk s
  else
    set_loop (add_call s (Submitting (fs_solution found) SP_Enter))
      (Handling pk candidate deadline (length (ms_calls s))).

(** A turn of the inner loop in which a solution is received, *)
Definition step_solution (instant : Z) (s : MiningSystem) : MiningSystem :=
  match ms_loop s with
  | Waiting pk candidate deadline =>
      if deadline <=? instant then set_loop s (Top pk)
      else
        match try_recv_solution (ms_pool s) with
        | (None, _) => s
        | (Some found, pool) =>
            let '(hashes, pool) := reset_hash_counts pool in
            handle_found_solution pk candidate deadline found
              (mkMiningSystem (update_hash_rate hashes instant (ms_miner s)) pool (ms_calls s) (ms_loop s))
        end
  | _ => s
  end.

(** and what follows the answer of its submission. *)
Definition step_handled (s : MiningSystem) : MiningSystem :=
  match ms_loop s with
  | Handling pk candidate deadline call =>
      match ms_calls s !! call with
      | Some (Submitting _ (SP_Done _ (Ok true))) => set_loop s (Top pk)
      | Some (Submitting _ (SP_Done _ _)) => after_turn pk (set_loop s (Waiting pk candidate deadline))
      | _ => s
      end
  | _ => s
  end.

(** A turn in which the five seconds pass. *)
Definition step_tick (instant : Z) (s : MiningSystem) : MiningSystem :=
  match ms_loop s with
  | Waiting pk candidate deadline =>
      if deadline <=? instant then set_loop s (Top pk)
      else
        let '(hashes, pool) := reset_hash_counts (ms_pool s) in
        let m := update_hash_rate hashes instant (ms_miner s) in
        let s' := mkMiningSystem m pool (ms_calls s) (ms_loop s) in
        match mn_current m with
        | None => set_loop s' (Top pk)
        | Some _ => after_turn pk s'
        end
  | _ => s
  end.

(** [shutdown] returns once the workers have ended. *)
Definition step_close (s : MiningSystem) : MiningSystem :=
  match ms_loop s with
  | Closing =>
      if joined (ms_pool s) then
        mkMiningSystem (set_flags (ms_miner s) (mn_enabled (ms_miner s)) false) (ms_pool s) (ms_calls s) Idle
      else s
  | _ => s
  end.

Definition step_worker (i : nat) (s : MiningSystem) : MiningSystem :=
  mkMiningSystem (ms_miner s) (pool_step (ms_pool s) i) (ms_calls s) (ms_loop s).

(** Everything that can happen: the turns of the loop, the steps of the
    workers, calls from outside ([MESubmit], [MECandidate], [MENewBlock]) and the
    accesses of the calls. *)
Inductive MiningEvent :=
  | MEBegin (randoms : list Z)
  | METop
  | MEGot (instant : Z)
  | MESolution (instant : Z)
  | MEHandled
  | METick (instant : Z)
  | MEClose
  | MEWorker (i : nat)
  | MEStart
  | MEStop
  | MEStopInternal
  | MESetAddress (address : bytes)
  | MENewBlock
  | MECandidate
  | MESubmit (solution : AutolykosSolution)
  | MECall (i : nat) (env : MiningEnv DB) (now : Z).

Definition mining_step (s : MiningSystem) (ev : MiningEvent) : MiningSystem :=
  match ev with
  | MEBegin randoms => step_begin randoms s
  | METop => step_top s
  | MEGot instant => step_got instant s
  | MESolution instant => step_solution instant s
  | MEHandled => step_handled s
  | METick instant => step_tick instant s
  | MEClose => step_close s
  | MEWorker i => step_worker i s
  | MEStart => set_miner s (start (ms_miner s))
  | MEStop => set_miner s (stop (ms_miner s))
  | MEStopInternal => set_miner s (stop_internal_mining (ms_miner s))
  | MESetAddress address => set_miner s (miner_set_reward_address (ms_miner s) address)
  | MENewBlock => add_call s (Clearing CP_Enter)
  | MECandidate => add_call s (Asking AP_Enter)
  | MESubmit solution => add_call s (Submitting solution SP_Enter)
  | MECall i env now => step_call i env now s
  end.

Definition mining_run (events : list MiningEvent) (s : MiningSystem) : MiningSystem :=
  foldl mining_step s events.

(** A miner before its internal mining is started. *)
Definition mining_init (config : MinerConfig) (now : Z) : MiningSystem :=
  mkMiningSystem (Miner_new config CandidateGenerator_new now) (WorkerPool_new []) [] Idle.

End Miner.
