(* ===== verification/MiningSpec.v ===== *)
(** * Properties of mining

    The solver finds exactly what the verifier accepts; candidates extend the
    tip and their header bytes commit to them; workers of different partitions
    never try the same nonce; what the miner counts and answers, whatever the
    order in which the accesses of its callers interleave. *)

From S2P Require Export Miner.

Local Open Scope Z_scope.

(** ** The solver *)

Section SolverFacts.
Context `{Blake2b256} `{BigUintBytes} `{ChainTypes}.
Import Solver.

Lemma f_sum_from_fold idxs msg pk sum :
  f_sum_from sum idxs msg pk =
  fold_left (fun sum idx => sum + be_val (blake2b256 (be_bytes 4 idx ++ msg ++ pk))) idxs sum.
Proof. revert sum. induction idxs as [|i idxs IH]; intros sum; cbn; [done|apply IH]. Qed.

(** The solver's own copies of the hash functions are the verifier's. *)
Lemma try_nonce_verifies header_bytes nonce n_bits height pk_bytes pk :
  ec_serialize pk = Some pk_bytes -> length nonce = 8%nat ->
  try_nonce solver_new header_bytes nonce (nbits_to_target n_bits) (n_for_height height) pk_bytes pk =
  if verify solver_new header_bytes (mkAutolykosSolution pk None nonce None) n_bits height
  then Some (mkAutolykosSolution pk None nonce None) else None.
Proof.
  intros Hpk Hn. unfold verify, verify_solution.
  cbn [ErgoTypes.nonce ErgoTypes.miner_pk].
  rewrite Hn, Hpk. cbn [Nat.eqb negb ok_or rbind]. unfold try_nonce, f_sum, calculate_f_sum.
  by rewrite f_sum_from_fold.
Qed.

Lemma nonce_at_length start attempt : length (nonce_at start attempt) = 8%nat.
Proof. apply be_bytes_length. Qed.

(** The solution a nonce of a search would give. *)
Definition solution_at (pk : EcPoint) (start attempt : Z) : AutolykosSolution :=
  mkAutolykosSolution pk None (nonce_at start attempt) None.

Section Search.
Context (header_bytes : bytes) (n_bits height : Z) (pk : EcPoint) (pk_bytes : bytes)
  (Hpk : ec_serialize pk = Some pk_bytes).
Abbreviation good start attempt :=
  (verify solver_new header_bytes (solution_at pk start attempt) n_bits height).

Lemma batch_loop_spec start attempts offset :
  match batch_loop solver_new header_bytes (nbits_to_target n_bits) (n_for_height height) pk_bytes
          pk start attempts offset with
  | Some (solution, hashes) =>
      solution = solution_at pk start (hashes - 1) /\ good start (hashes - 1) = true /\
      offset < hashes <= offset + Z.of_nat attempts /\
      forall o, offset <= o < hashes - 1 -> good start o = false
  | None => forall o, offset <= o < offset + Z.of_nat attempts -> good start o = false
  end.
Proof.
  revert offset. induction attempts as [|n IH]; intros offset; cbn [batch_loop]; [lia|].
  rewrite (try_nonce_verifies _ _ _ _ _ _ Hpk (nonce_at_length _ _)).
  change (mkAutolykosSolution pk None (nonce_at start offset) None) with (solution_at pk start offset).
  destruct (good start offset) eqn:Eg.
  - replace (offset + 1 - 1) with offset by lia. repeat split; [done|lia|lia|lia].
  - specialize (IH (offset + 1)). destruct (batch_loop _ _ _ _ _ _ _ _) as [[sol hashes]|].
    + destruct IH as (-> & Hg & Hr & Hb). repeat split; [done|lia|lia|].
      intros o Ho. destruct (decide (o = offset)) as [->|]; [done|]. apply Hb. lia.
    + intros o Ho. destruct (decide (o = offset)) as [->|]; [done|]. apply IH. lia.
Qed.

(** Without a cancellation the two searches are the same. *)
Lemma solve_loop_batch cancel start attempts attempt :
  (forall a, cancel a = false) ->
  solve_loop solver_new header_bytes (nbits_to_target n_bits) (n_for_height height) pk_bytes pk cancel
    start attempts attempt =
  match batch_loop solver_new header_bytes (nbits_to_target n_bits) (n_for_height height) pk_bytes
          pk start attempts attempt with
  | Some (solution, hashes) => Found solution hashes
  | None => Exhausted
  end.
Proof.
  intros Hc. revert attempt. induction attempts as [|n IH]; intros attempt; [done|].
  cbn [solve_loop batch_loop]. rewrite Hc, andb_false_r. by destruct (try_nonce _ _ _ _ _ _ _).
Qed.
End Search.

Lemma try_solve_batch_found header_bytes n_bits height pk start size counter sol counter' :
  0 <= size ->
  try_solve_batch solver_new header_bytes n_bits height pk start size counter = (Some sol, counter') ->
  verify solver_new header_bytes sol n_bits height = true /\
  exists hashes, 0 < hashes <= size /\ counter' = u64 (counter + hashes) /\
    sol = solution_at pk start (hashes - 1).
Proof.
  unfold try_solve_batch. intros Hs. destruct (ec_serialize pk) as [pk_bytes|] eqn:Epk; [|done].
  pose proof (batch_loop_spec header_bytes n_bits height pk pk_bytes Epk start (Z.to_nat size) 0) as Hb.
  destruct (batch_loop _ _ _ _ _ _ _ _) as [[sol' hashes]|]; [|done]. intros [= <- <-].
  destruct Hb as (-> & Hg & Hr & _). split; [done|]. exists hashes. repeat split; [lia|lia].
Qed.

(** C31: a batch of the solver returns the solution of the first nonce in it
    that the block verifier accepts, and nothing exactly when the verifier
    accepts none of them (or the key does not serialise); the counter grows by
    the nonces tried.  The search of [try_solve] is the same while it is not
    cancelled. *)
Theorem solver_agrees_with_verifier header_bytes n_bits height pk pk_bytes start size counter :
  ec_serialize pk = Some pk_bytes -> 0 <= size ->
  let verifies attempt := verify solver_new header_bytes (solution_at pk start attempt) n_bits height in
  (forall sol counter',
     try_solve_batch solver_new header_bytes n_bits height pk start size counter = (Some sol, counter') <->
     exists attempt, 0 <= attempt < size /\ verifies attempt = true /\
       (forall earlier, 0 <= earlier < attempt -> verifies earlier = false) /\
       sol = solution_at pk start attempt /\ counter' = u64 (counter + attempt + 1)) /\
  (forall counter',
     try_solve_batch solver_new header_bytes n_bits height pk start size counter = (None, counter') <->
     (forall attempt, 0 <= attempt < size -> verifies attempt = false) /\
     counter' = u64 (counter + size)) /\
  (forall cancel, (forall a, cancel a = false) ->
     try_solve solver_new header_bytes n_bits height pk size cancel start counter =
     try_solve_batch solver_new header_bytes n_bits height pk start size counter).
Proof.
  intros Hpk Hs verifies. unfold try_solve_batch, try_solve. rewrite Hpk.
  pose proof (batch_loop_spec header_bytes n_bits height pk pk_bytes Hpk start (Z.to_nat size) 0) as Hb.
  split; [|split].
  - intros sol counter'. destruct (batch_loop _ _ _ _ _ _ _ _) as [[sol' hashes]|]; split.
    + intros [= <- <-]. destruct Hb as (-> & Hg & Hr & Hf). exists (hashes - 1).
      repeat split; [lia|lia|exact Hg|exact Hf|f_equal; lia].
    + intros (a & Ha & Hg & Hf & -> & ->). destruct Hb as (-> & Hg' & Hr & Hf').
      assert (a = hashes - 1) as ->; [|by replace (counter + (hashes - 1) + 1) with (counter + hashes) by lia].
      destruct (Z.lt_trichotomy a (hashes - 1)) as [Hl|[Hl|Hl]]; [|done|].
      * specialize (Hf' a ltac:(lia)). unfold verifies in Hg. congruence.
      * specialize (Hf (hashes - 1) ltac:(lia)). unfold verifies in Hf. congruence.
    + done.
    + intros (a & Ha & Hg & _). specialize (Hb a ltac:(lia)). unfold verifies in Hg. congruence.
  - intros counter'. destruct (batch_loop _ _ _ _ _ _ _ _) as [[sol' hashes]|]; split.
    + done.
    + intros [Hf _]. destruct Hb as (_ & Hg & Hr & _). specialize (Hf (hashes - 1) ltac:(lia)).
      unfold verifies in Hf. congruence.
    + intros [= <-]. split; [|done]. intros a Ha. exact (Hb a ltac:(lia)).
    + by intros [_ ->].
  - intros cancel Hc. rewrite solve_loop_batch by done. by destruct (batch_loop _ _ _ _ _ _ _ _) as [[]|].
Qed.
End SolverFacts.

(** ** Candidates *)

Lemma field32_length bs : length (field32 bs) = 32%nat.
Proof.
  unfold field32. destruct (Nat.leb_spec 32 (length bs)).
  - rewrite slice_length; lia.
  - rewrite length_app, length_replicate. lia.
Qed.

Lemma field32_id bs : length bs = 32%nat -> field32 bs = bs.
Proof. intros Hl. unfold field32, slice. rewrite Hl. cbn [Nat.leb]. by rewrite drop_0, take_ge by lia. Qed.

(** What two candidates with the same bytes to mine have in common. *)
Lemma header_for_mining_inj p p' h h' t t' nb nb' tr tr' sr sr' eh eh' :
  length p = 32%nat -> length p' = 32%nat -> in_u 32 h -> in_u 32 h' -> in_u 64 t -> in_u 64 t' ->
  in_u 32 nb -> in_u 32 nb' ->
  serialize_header_for_mining (Some p) h t nb tr sr eh =
  serialize_header_for_mining (Some p') h' t' nb' tr' sr' eh' ->
  p = p' /\ h = h' /\ t = t' /\ nb = nb' /\ field32 tr = field32 tr' /\ field32 sr = field32 sr' /\
  field32 eh = field32 eh'.
Proof.
  intros Hp Hp' Hh Hh' Ht Ht' Hnb Hnb'. unfold serialize_header_for_mining, in_u in *.
  assert (forall a b : bytes, length (field32 a) = length (field32 b)) as Hf
    by (intros; by rewrite !field32_length).
  assert (forall n a b, length (be_bytes n a) = length (be_bytes n b)) as Hbe
    by (intros; by rewrite !be_bytes_length).
  intros He. apply app_inj_1 in He as [_ He]; [|done].
  apply app_inj_1 in He as [-> He]; [|congruence]. apply app_inj_1 in He as [_ He]; [|done].
  apply app_inj_1 in He as [-> He]; [|apply Hf]. apply app_inj_1 in He as [-> He]; [|apply Hf].
  apply app_inj_1 in He as [Et He]; [|apply Hbe]. apply app_inj_1 in He as [En He]; [|apply Hbe].
  apply app_inj_1 in He as [Eh He]; [|apply Hbe]. apply app_inj_1 in He as [-> _]; [|apply Hf].
  apply be_bytes_inj in Et; [|cbn; lia|cbn; lia]. apply be_bytes_inj in En; [|cbn; lia|cbn; lia].
  apply be_bytes_inj in Eh; [|cbn; lia|cbn; lia]. done.
Qed.

Lemma header_for_mining_length p h t nb tr sr eh :
  (forall parent, p = Some parent -> length parent = 32%nat) ->
  length (serialize_header_for_mining p h t nb tr sr eh) = 180%nat.
Proof.
  intros Hp. unfold serialize_header_for_mining.
  rewrite !length_app, !be_bytes_length, !field32_length.
  destruct p as [parent|]; [rewrite (Hp parent eq_refl)|]; done.
Qed.

Section CandidateFacts.
Context {ErgoBox Ext Tx : Type} `{ErgoBoxOps ErgoBox} `{TransactionOps ErgoBox Ext Tx}
  `{ChainTypes} `{!HeaderCodec} `{Blake2b256} `{BigUintBytes} {DB : Type} `{Storage DB}.

(** The headers the difficulty of a height is computed from. *)
Definition difficulty_headers (s : DB) (next_height : Z) : list HeaderForDifficulty :=
  omap (header_for_difficulty s)
    (seqZ (sat_sub next_height 8192) (next_height - sat_sub next_height 8192)).

(** The consensus rule over those headers, and what stands in when it has no
    answer. *)
Lemma calculate_difficulty_spec s next_height :
  let headers := difficulty_headers s next_height in
  calculate_difficulty s next_height =
  Ok (match calculate_required_difficulty headers next_height with
      | Ok n_bits => n_bits
      | Err _ => match last headers with Some h => hd_n_bits h | None => 0x1f00ffff end
      end).
Proof.
  cbn. unfold calculate_difficulty, calculate_required_difficulty, difficulty_headers.
  change (8 * 1024) with 8192. destruct (omap _ _) as [|h hs]; [|rewrite decide_False by done].
  - rewrite decide_True by done. unfold calculate_next_difficulty. destruct (_ <=? _); [done|].
    by destruct (negb _).
  - by destruct (calculate_next_difficulty _ _ _).
Qed.

(** A candidate whose bytes to mine are those of its own fields. *)
Definition candidate_sealed (c : BlockCandidate) : Prop :=
  bc_header_bytes c = serialize_header_for_mining (bc_parent_id c) (bc_height c) (bc_timestamp c)
    (bc_n_bits c) (bc_transactions_root c) (bc_state_root c) (bc_extension_hash c).

Lemma generate_cases env now g :
  match generate env now g with
  | (Err e, g') => e = NoRewardAddress /\ cg_reward_address g = None /\ g' = g
  | (Ok c, g') =>
      g' = cache_candidate g c /\ is_Some (cg_reward_address g) /\ candidate_sealed c /\
      let m := me_state env in
      let height := u32 (best_height (sm_history m) + 1) in
      let txs := Mempool.get_by_fee (me_mempool env) MAX_TRANSACTIONS_PER_BLOCK in
      bc_height c = height /\ bc_parent_id c = best_header_id (sm_history m) /\
      bc_timestamp c = now /\ bc_state_root c = us_state_root (sm_utxo m) /\
      bc_transaction_ids c = Mempool.ptx_id <$> txs /\
      bc_reward c = u64 (block_reward_at_height height + sumZ (Mempool.ptx_fee <$> txs)) /\
      (forall n_bits, calculate_required_difficulty (difficulty_headers (sm_storage m) height) height
         = Ok n_bits -> bc_n_bits c = n_bits)
  end.
Proof.
  unfold generate. destruct (cg_reward_address g) as [a|] eqn:Ea; [|done].
  unfold heights. rewrite calculate_difficulty_spec, u64_fold_sum. split; [done|].
  split; [by eexists|]. split; [done|].
  cbn [bc_height bc_parent_id bc_timestamp bc_state_root bc_transaction_ids bc_reward bc_n_bits].
  repeat split.
  - unfold wrap. by rewrite Z.add_mod_idemp_r.
  - by intros n_bits ->.
Qed.


End CandidateFacts.

(** ** Workers *)

Section WorkerFacts.
Context `{Blake2b256} `{BigUintBytes} `{ChainTypes}.

(** What happens to a worker: a turn of its loop, a reset of its counter, a
    stop. *)
Inductive WorkerEvent :=
  | WETurn (version : Z) (current : option MiningTask) (room : bool)
  | WEReset
  | WEStop.

Definition worker_event (w : MiningWorker) (ev : WorkerEvent) : MiningWorker :=
  match ev with
  | WETurn version current room => (worker_step version current room w).1
  | WEReset => (reset_hash_count w).2
  | WEStop => worker_stop w
  end.

(** The nonces of the batch a worker on a task is about to try. *)
Definition next_nonces (w : MiningWorker) : list Z :=
  match mw_phase w with
  | Working _ _ local_nonce => (fun o => u64 (local_nonce + o)) <$> seqZ 0 BATCH_SIZE
  | _ => []
  end.

(** At most [budget] nonces past the offset, in the counter and on the way. *)
Definition within_budget (budget : Z) (w : MiningWorker) : Prop :=
  0 <= mw_hash_count w <= budget /\
  match mw_phase w with
  | Working _ _ local_nonce => mw_nonce_offset w <= local_nonce <= mw_nonce_offset w + budget
  | _ => True
  end.

Lemma worker_batch_fields w seen task local_nonce :
  mw_nonce_offset (worker_batch w seen task local_nonce) = mw_nonce_offset w /\
  mw_id (worker_batch w seen task local_nonce) = mw_id w /\
  (exists hashes, 0 <= hashes <= BATCH_SIZE /\
     mw_hash_count (worker_batch w seen task local_nonce) = u64 (mw_hash_count w + hashes)) /\
  match mw_phase (worker_batch w seen task local_nonce) with
  | Working seen' task' local' =>
      seen' = seen /\ task' = task /\ local' = u64 (local_nonce + BATCH_SIZE)
  | Sending found =>
      fs_task found = task /\
      Solver.verify Solver.solver_new (mt_header_bytes task) (fs_solution found) (mt_n_bits task)
        (mt_height task) = true
  | _ => False
  end.
Proof.
  unfold worker_batch. destruct (Solver.try_solve_batch _ _ _ _ _ _ _ _) as [[sol|] hashes] eqn:E.
  - apply try_solve_batch_found in E as (Hv & n & Hn & -> & ->); [|unfold BATCH_SIZE; lia].
    repeat split; [|exact Hv]. exists n. split; [lia|]. unfold set_phase, add_hashes.
    cbn [mw_hash_count]. rewrite Z.add_0_l. unfold wrap. by rewrite Z.add_mod_idemp_r.
  - repeat split. exists BATCH_SIZE. split; [unfold BATCH_SIZE; lia|done].
Qed.

Lemma nonce_offset_range id random :
  0 <= id -> 
  id mod MAX_NONCE_PARTITIONS * partition_size <= nonce_offset id random <
  id mod MAX_NONCE_PARTITIONS * partition_size + partition_size / 2.
Proof.
  intros Hid. unfold nonce_offset.
  pose proof (Z.mod_pos_bound id MAX_NONCE_PARTITIONS ltac:(done)) as Hp.
  pose proof (Z.mod_pos_bound random (partition_size / 2) ltac:(done)) as Hr.
  unfold MAX_NONCE_PARTITIONS in *. change partition_size with 72057594037927935 in *.
  change (72057594037927935 / 2) with 36028797018963967 in *. rewrite u64_id by lia. lia.
Qed.

Lemma within_budget_step id random budget w ev :
  0 <= id -> budget + BATCH_SIZE <= partition_size / 2 - BATCH_SIZE ->
  mw_nonce_offset w = nonce_offset id random -> within_budget budget w ->
  mw_nonce_offset (worker_event w ev) = nonce_offset id random /\
  within_budget (budget + BATCH_SIZE) (worker_event w ev).
Proof.
  intros Hid Hb Ho [Hc Hw]. pose proof (nonce_offset_range id random Hid) as Hr.
  pose proof (Z.mod_pos_bound id MAX_NONCE_PARTITIONS ltac:(done)) as Hp.
  unfold MAX_NONCE_PARTITIONS, BATCH_SIZE in *. change partition_size with 72057594037927935 in *.
  change (72057594037927935 / 2) with 36028797018963967 in *. rewrite <- Ho in *.
  assert (within_budget (budget + 10000) w) as Hsame.
  { split; [lia|]. destruct (mw_phase w); [done|lia|done|done]. }
  destruct ev as [version current room| |]; cbn [worker_event].
  - unfold worker_step. destruct (mw_phase w) as [|seen task l|found|] eqn:Ep; cbn [fst].
    + destruct (negb _); [by split; [|split; [cbn; lia|]]|]. destruct current as [task|]; [|done].
      split; [done|]. split; cbn [fst set_phase mw_hash_count mw_phase mw_nonce_offset]; [lia|].
      rewrite u64_id by lia. lia.
    + destruct (negb _); [by split; [|split; [cbn; lia|]]|].
      destruct (negb _); [by split; [|split; [cbn; lia|]]|]. cbn [fst].
      destruct (worker_batch_fields w seen task l) as (-> & _ & (n & Hn & Ec) & Hph).
      split; [done|]. split; [unfold BATCH_SIZE in *; rewrite Ec, u64_id by lia; lia|].
      destruct (worker_batch_fields w seen task l) as (-> & _).
      destruct (mw_phase (worker_batch w seen task l)) as [|s' t' l'| |]; try done.
      destruct Hph as (_ & _ & ->). unfold BATCH_SIZE. rewrite u64_id by lia. lia.
    + destruct room; cbn [fst]; [by split; [|split; [cbn; lia|]]|done].
    + done.
  - split; [done|]. split; cbn [reset_hash_count snd mw_hash_count mw_phase mw_nonce_offset]; [lia|].
    destruct (mw_phase w); [done|lia|done|done].
  - done.
Qed.

(** from its start, and for the first 3.6 * 10^12 events whatever they
    are (turns on any tasks, resets of the counter, stops), a worker only tries
    nonces of the partition of its number modulo 256, so two workers of
    different partitions never try the same nonce. *)
Theorem workers_never_overlap id id' random random' events events' :
  0 <= id -> 0 <= id' -> Z.of_nat (length events) <= 3602879701895 ->
  Z.of_nat (length events') <= 3602879701895 ->
  id mod MAX_NONCE_PARTITIONS <> id' mod MAX_NONCE_PARTITIONS ->
  forall nonce, nonce ∈ next_nonces (foldl worker_event (spawn id random) events) ->
    nonce / partition_size = id mod MAX_NONCE_PARTITIONS /\
    nonce ∉ next_nonces (foldl worker_event (spawn id' random') events').
Proof.
  assert (forall id random events n, 0 <= id -> Z.of_nat (length events) <= 3602879701895 ->
    n ∈ next_nonces (foldl worker_event (spawn id random) events) ->
    n / partition_size = id mod MAX_NONCE_PARTITIONS) as Hone.
  { clear. intros id random events n Hid Hl.
    assert (mw_nonce_offset (foldl worker_event (spawn id random) events) = nonce_offset id random /\
      within_budget (BATCH_SIZE * Z.of_nat (length events))
        (foldl worker_event (spawn id random) events)) as [Ho [_ Hw]].
    { induction events as [|ev events IH] using rev_ind; [done|].
      rewrite length_app in Hl |- *. cbn [length] in Hl |- *. destruct IH as [Ho Hw]; [lia|].
      rewrite foldl_app. cbn [foldl].
      replace (BATCH_SIZE * Z.of_nat (length events + 1))
        with (BATCH_SIZE * Z.of_nat (length events) + BATCH_SIZE) by lia.
      apply within_budget_step; [done| |done|done].
      unfold BATCH_SIZE. change (partition_size / 2) with 36028797018963967. lia. }
    unfold next_nonces. destruct (mw_phase _) as [|? ? l| |]; try (by intros Hn; apply not_elem_of_nil in Hn).
    intros (o & -> & Ho')%list_elem_of_fmap. apply elem_of_seqZ in Ho'.
    pose proof (nonce_offset_range id random Hid) as Hr.
    pose proof (Z.mod_pos_bound id MAX_NONCE_PARTITIONS ltac:(done)) as Hp. rewrite Ho in Hw.
    unfold MAX_NONCE_PARTITIONS, BATCH_SIZE in *. change partition_size with 72057594037927935 in *.
    change (72057594037927935 / 2) with 36028797018963967 in *.
    rewrite u64_id by lia. symmetry.
    apply (Z.div_unique_pos _ _ _ (l + o - id mod 256 * 72057594037927935)); lia. }
  intros Hid Hid' Hl Hl' Hne n Hn. split; [exact (Hone _ _ _ _ Hid Hl Hn)|]. intros Hn'.
  apply Hne. rewrite <- (Hone _ _ _ _ Hid Hl Hn). exact (Hone _ _ _ _ Hid' Hl' Hn').
Qed.
End WorkerFacts.

(** ** Runs of the miner *)





Section Runs.
Context {ErgoBox Ext Tx : Type} `{ErgoBoxOps ErgoBox} `{TransactionOps ErgoBox Ext Tx}
  `{ChainTypes} `{!HeaderCodec} `{Blake2b256} `{BigUintBytes} {DB : Type} `{Storage DB}
  `{!RewardLib}.

Abbreviation verifies header n_bits height sol :=
  (Solver.verify Solver.solver_new header sol n_bits height).

(** *** The workers' side *)









(** *** The calls *)



(** The answer of a submission checked against a candidate. *)
Definition verdict (sol : AutolykosSolution) (c : BlockCandidate) : result bool MiningError :=
  match verify_solution AutolykosV2_new (bc_header_bytes c) sol (nbits_to_target (bc_n_bits c))
          (bc_height c) with
  | Ok b => Ok b
  | Err e => Err (ME_Consensus e)
  end.













(** *** The steps of the system *)
















(** *** Calls that nothing interrupts *)

(** The generator, access by access. *)
Lemma generate_step_uninterrupted env now now' g :
  let '(p1, g1) := generate_step env now GP_Look g in
  let '(p2, g2) := generate_step env now' p1 g1 in
  let '(p3, g3) := generate_step env now' p2 g2 in
  let '(r, g') := get_or_generate env now now' g in
  p3 = GP_Done r /\ g3 = g'.
Proof.
  assert (let '(p2, g2) := generate_step env now' GP_Make g in
    let '(p3, g3) := generate_step env now' p2 g2 in
    let '(r, g') := generate env now' g in p3 = GP_Done r /\ g3 = g') as Hmake.
  { pose proof (generate_cases env now' g) as Hg. cbn [generate_step].
    destruct (generate env now' g) as [[c|e] g']; cbn [fst generate_step].
    - by destruct Hg as (-> & _).
    - by destruct Hg as (_ & _ & ->). }
  unfold get_or_generate. cbn [generate_step] in *. destruct (cg_cached g) as [c|]; [|exact Hmake].
  by destruct (cache_fresh env now c).
Qed.

(** A submission, its counters and what it leaves. *)
Lemma submit_solution_uninterrupted sol m :
  submit_solution sol m =
  if negb (mn_enabled m) then (SP_Done None (Err (CandidateFailed "Mining not enabled")), m)
  else
    let m1 := set_stats m (count_received (mn_stats m)) in
    match mn_current m with
    | None => (SP_Done None (Err InvalidSolution), m1)
    | Some c =>
        (SP_Done (Some c) (verdict sol c),
         match verdict sol c with
         | Ok true =>
             set_current (set_gen (set_stats m1 (count_mined (count_valid (mn_stats m1))))
               (invalidate (mn_candidate_gen m))) None
         | Ok false => set_stats m1 (count_invalid (mn_stats m1))
         | Err _ => m1
         end)
    end.
Proof.
  destruct m as [cfg g [] run [c|] st hc lr]; [|done..]. unfold submit_solution, verdict.
  simpl. destruct (verify_solution _ _ _ _ _) as [[]|e]; reflexivity.
Qed.

(** *** Every call ends *)









End Runs.
