(* ===== verification/MiningRounds.v ===== *)
(** * The miner and its workers over time

    What a worker does after a solution: the same solution again.  A shutdown
    that waits for ever.  The miner at concrete inputs: a round of mining, and
    interleavings of calls in which one candidate counts as two blocks and a
    stale candidate stays current. *)

From S2P Require Export MiningSpec.

Local Open Scope Z_scope.

Section Rounds.
Context {ErgoBox Ext Tx : Type} `{ErgoBoxOps ErgoBox} `{TransactionOps ErgoBox Ext Tx}
  `{ChainTypes} `{!HeaderCodec} `{Blake2b256} `{BigUintBytes} {DB : Type} `{Storage DB}
  `{!RewardLib}.

Abbreviation verifies header n_bits height sol :=
  (Solver.verify Solver.solver_new header sol n_bits height).

(** ** One worker *)

(** A nonce of the worker's first batch on a task, counted from its offset and
    its counter. *)
Definition has_nonce (w : MiningWorker) (task : MiningTask) : Prop :=
  is_Some (ec_serialize (mt_miner_pk task)) /\
  exists attempt, 0 <= attempt < BATCH_SIZE /\
    verifies (mt_header_bytes task) (mt_n_bits task) (mt_height task)
      (solution_at (mt_miner_pk task) (u64 (mw_nonce_offset w + mw_hash_count w)) attempt) = true.

(** Two turns of an idle worker: it takes the task and finds a solution. *)
Lemma two_turns version task room w :
  mw_running w = true -> mw_phase w = Fetching -> has_nonce w task ->
  let turn := fun w => (worker_step version (Some task) room w).1 in
  exists found hashes,
    turn (turn w) = set_phase (add_hashes w hashes) (Sending found) /\
    fs_task found = task /\
    verifies (mt_header_bytes task) (mt_n_bits task) (mt_height task) (fs_solution found) = true.
Proof.
  intros Hr Hp [[pkb Hpk] (a & Ha & Hv)] turn. unfold turn, worker_step. rewrite Hp, Hr.
  cbn [negb fst set_phase mw_phase mw_running]. rewrite Hr, Z.eqb_refl. cbn [negb fst].
  unfold worker_batch. destruct (Solver.try_solve_batch _ _ _ _ _ _ _ _) as [[sol|] hashes] eqn:E.
  - apply try_solve_batch_found in E as (Hsol & _); [|unfold BATCH_SIZE; lia].
    exists (mkFoundSolution sol task (mw_id w) hashes), hashes. by repeat split.
  - exfalso. unfold Solver.try_solve_batch in E. rewrite Hpk in E.
    pose proof (batch_loop_spec (mt_header_bytes task) (mt_n_bits task) (mt_height task)
      (mt_miner_pk task) pkb Hpk (u64 (mw_nonce_offset w + mw_hash_count w)) (Z.to_nat BATCH_SIZE) 0) as Hb.
    destruct (Solver.batch_loop _ _ _ _ _ _ _ _) as [[]|]; [done|].
    rewrite (Hb a) in Hv; [done|]. unfold BATCH_SIZE in *. lia.
Qed.

(** a worker does not wait for new work after a solution: once its counter
    is reset, as the miner does on every solution it receives, it searches the
    same task from the same nonce and hands over the same solution again. *)
Theorem solution_sent_again version task w :
  mw_running w = true -> mw_phase w = Fetching -> mw_hash_count w = 0 -> has_nonce w task ->
  let turn := worker_step version (Some task) true in
  let sent w := (turn (turn (turn w).1).1).2 in
  let next w := (reset_hash_count (turn (turn (turn w).1).1).1).2 in
  exists found, fs_task found = task /\
    verifies (mt_header_bytes task) (mt_n_bits task) (mt_height task) (fs_solution found) = true /\
    next w = w /\ forall n, sent (Nat.iter n next w) = Some found.
Proof.
  intros Hr Hp Hc Hn turn sent next.
  destruct (two_turns version task true w Hr Hp Hn) as (found & hashes & Et & Hf & Hv).
  cbv beta zeta in Et.
  assert (next w = w) as Hnext.
  { unfold next, turn. rewrite Et. destruct w. cbn in Hc, Hp. by subst. }
  exists found. split; [done|]. split; [done|]. split; [done|]. intros n.
  assert (Nat.iter n next w = w) as ->; [|unfold sent, turn; by rewrite Et].
  induction n as [|n IH]; [done|].
  change (next (Nat.iter n next w) = w). by rewrite IH.
Qed.

(** ** A shutdown *)

(** A worker waits in its send while the channel is full. *)
Definition stuck_sender (i : nat) (p : WorkerPool) : Prop :=
  has_room p = false /\
  exists w found, wp_workers p !! i = Some w /\ mw_phase w = Sending found.

Lemma stuck_sender_step i j p : stuck_sender i p -> stuck_sender i (pool_step p j).
Proof.
  intros [Hroom (w & f & Hw & Hp)]. unfold pool_step. destruct (wp_workers p !! j) as [w'|] eqn:Ej; [|by split; [|exists w, f]].
  rewrite Hroom. destruct (worker_step _ _ false w') as [w1 sent] eqn:E.
  assert (sent = None) as ->.
  { clear - E. unfold worker_step in E. destruct (mw_phase w') as [|v t l|f'|].
    - destruct (negb _); [congruence|]. destruct (wp_task p); congruence.
    - destruct (negb _); [congruence|]. destruct (negb _); congruence.
    - congruence.
    - congruence. }
  split.
  - revert Hroom. unfold has_room, num_workers. cbn [wp_solutions wp_workers option_list].
    by rewrite app_nil_r, length_insert.
  - cbn [wp_workers]. destruct (decide (i = j)) as [->|].
    + assert (w' = w) as -> by congruence. exists w, f. split; [|done].
      unfold worker_step in E. rewrite Hp in E. injection E as <-.
      apply list_lookup_insert_eq. by eapply lookup_lt_Some.
    + exists w, f. by rewrite list_lookup_insert_ne.
Qed.

Lemma stuck_not_joined i p : stuck_sender i p -> joined p = false.
Proof.
  intros [_ (w & f & Hw & Hp)]. apply not_true_iff_false. unfold joined. rewrite forallb_forall.
  intros Hall. specialize (Hall w (proj1 (list_elem_of_In _ _) (list_elem_of_lookup_2 _ _ _ Hw))).
  unfold subscribed in Hall. by rewrite Hp in Hall.
Qed.

(** when the miner stops while a worker waits in its send on a full
    channel, nothing empties the channel any more and the shutdown waits for
    that worker for ever, whatever happens. *)
Theorem shutdown_blocks s i events :
  ms_loop s = Closing -> stuck_sender i (ms_pool s) ->
  let s' := mining_run events s in
  ms_loop s' = Closing /\ joined (ms_pool s') = false.
Proof.
  intros Hl Hs s'. assert (ms_loop s' = Closing /\ stuck_sender i (ms_pool s')) as [Hl' Hs'].
  2:{ split; [done|]. by eapply stuck_not_joined. }
  subst s'. unfold mining_run. induction events as [|ev events IH] using rev_ind; [done|].
  rewrite foldl_app. cbn [foldl]. destruct IH as [Hl' Hs']. set (t := foldl mining_step s events) in *.
  destruct ev; cbn [mining_step]; unfold step_begin, step_top, step_got, step_solution, step_handled,
    step_tick, step_close, step_call; try rewrite Hl'; try done.
  - by rewrite (stuck_not_joined i).
  - split; [done|]. by apply stuck_sender_step.
  - destruct (ms_calls t !! i0) as [c|]; [|done]. by destruct (call_step _ _ c _).
Qed.

(** A start that fails on the address leaves the running flag set, and every
    later start fails on the flag, even with a good address. *)
Lemma failed_start_sticks m e m' address :
  internal_mining (mn_config m) = true -> mn_internal_running m = false ->
  begin_internal_mining m = (Err e, m') ->
  (begin_internal_mining (miner_set_reward_address m' address)).1
  = Err (CandidateFailed "Internal mining already running").
Proof.
  intros Hc Hr. unfold begin_internal_mining. rewrite Hc, Hr. cbn [negb].
  destruct (get_miner_pk _); intros [= <- <-]. cbn [miner_set_reward_address set_gen set_flags mn_config
    mn_internal_running]. by rewrite Hc.
Qed.
End Rounds.

(** ** Mining at concrete inputs

    A miner over an empty chain with one worker and a hash that meets every
    target, and the theorems about mining applied to it. *)

Module MiningExample.
Import Mem Toy.

(** A hash whose hits are below every target, headers without a codec, and
    addresses that are keys. *)
#[local] Instance easy_hash : Blake2b256 | 0 := fun _ => replicate 32 0.
#[local] Instance no_headers : HeaderCodec :=
  { scorex_serialize_bytes _ := None; scorex_parse_bytes _ := None }.
#[local] Instance toy_rewards : RewardLib := {
  RwAddress := Z; RwTree := Z;
  rw_parse_address _ bs := head bs;
  rw_script := Some;
  rw_box_value v := if v <? 1 then None else Some v;
  rw_p2pk a := Some (a : EcPoint)
}.

Definition env : MiningEnv Mem.t :=
  mkMiningEnv (manager_new Mem.empty) (Mempool.Mempool_new Mempool.MempoolConfig_default).

Definition key : @EcPoint toy_chain := 7.
Definition config : MinerConfig := mkMinerConfig true false [7] 1 Mainnet.

Abbreviation run := (mining_run (DB := Mem.t)).
Abbreviation event := (MiningEvent (DB := Mem.t)).

Definition s0 : MiningSystem := mining_init config 0.
(** Mining is enabled and the task started with one worker. *)
Definition starting : list event := [MEStart; MEBegin [5]].
Definition s1 : MiningSystem := run starting s0.

Definition worker : MiningWorker := spawn 0 5.
Definition task : MiningTask := mkMiningTask [1; 2] 0x1f00ffff 1 key 100.

Lemma any_nonce w t : is_Some (ec_serialize (mt_miner_pk t)) -> mt_n_bits t = 0x1f00ffff -> has_nonce w t.
Proof.
  intros Hpk Hn. split; [done|]. exists 0. split; [by unfold BATCH_SIZE|]. rewrite Hn. reflexivity.
Qed.

Lemma solver_agrees_with_verifier_witness :
  Solver.try_solve_batch Solver.solver_new [1; 2] 0x1f00ffff 1 key 40 10 3
  = (Some (solution_at key 40 0), 4).
Proof.
  apply (solver_agrees_with_verifier [1; 2] 0x1f00ffff 1 key [7] 40 10 3);
    [reflexivity|lia|].
  exists 0. split; [lia|]. split; [reflexivity|]. split; [lia|]. by split.
Defined.

Lemma workers_never_overlap_witness :
  5 ∉ next_nonces (foldl worker_event (spawn 1 5) [WETurn 1 (Some task) true]).
Proof.
  apply (workers_never_overlap 0 1 5 5 [WETurn 1 (Some task) true] [WETurn 1 (Some task) true]);
    [lia|lia|cbn; lia|cbn; lia|done|].
  unfold next_nonces. cbn [foldl worker_event worker_step worker fst].
  apply list_elem_of_fmap. exists 0. split; [reflexivity|]. apply elem_of_seqZ. unfold BATCH_SIZE. lia.
Defined.

Lemma solution_sent_again_witness :
  let turn := worker_step 1 (Some task) true in
  (reset_hash_count (turn (turn (turn worker).1).1).1).2 = worker.
Proof.
  destruct (solution_sent_again 1 task worker) as (_ & _ & _ & Hnext & _);
    [done|done|done|by apply any_nonce; [eexists|]|exact Hnext].
Defined.

(** The accesses of the call of number [i], one after another. *)
Definition accesses_of (i n : nat) : list event := replicate n (MECall i env 100).

(** The loop gets a candidate, the worker finds a solution for it, and the loop
    receives and submits it: call 0 asks, call 1 submits. *)
Definition solution_found : list event :=
  starting ++ [METop] ++ accesses_of 0 6 ++ [MEGot 200; MEWorker 0; MEWorker 0; MEWorker 0].
Definition round : list event := solution_found ++ [MESolution 300] ++ accesses_of 1 7 ++ [MEHandled].

Definition good_solution : AutolykosSolution :=
  match ms_calls (run round s0) !! 1%nat with
  | Some (Submitting sol _) => sol
  | _ => solution_at key 0 0
  end.



(** Two callers read the candidate before either drops it: both submissions
    answer success, and one candidate counts as two blocks. *)
Example two_submissions_one_candidate :
  let ask := [MEStart; MESetAddress [7]; MECandidate] ++ accesses_of 0 6 in
  let s := run (ask ++ [MESubmit good_solution; MESubmit good_solution] ++
    accesses_of 1 3 ++ accesses_of 2 3 ++ accesses_of 1 4 ++ accesses_of 2 4) s0 in
  blocks_mined (mn_stats (ms_miner s)) = 2 /\ candidates_generated (mn_stats (ms_miner s)) = 1.
Proof. vm_compute. by split. Qed.

(** A new block arrives while a candidate is made: the candidate of the old
    height is cached and current afterwards. *)
Example stale_candidate_stays :
  let s := run ([MEStart; MESetAddress [7]; MECandidate] ++ accesses_of 0 3 ++
    [MENewBlock] ++ accesses_of 1 2 ++ accesses_of 0 3) s0 in
  ms_calls s !! 1%nat = Some (Clearing CP_Done) /\
  (bc_height <$> mn_current (ms_miner s)) = Some 1 /\
  (bc_height <$> cg_cached (mn_candidate_gen (ms_miner s))) = Some 1.
Proof. vm_compute. by repeat split. Qed.

(** The worker fills the channel, and the miner is stopped. *)
Definition full_channel : list event :=
  starting ++ [METop] ++ accesses_of 0 6 ++ [MEGot 200] ++ replicate 8 (MEWorker 0) ++
  [MEStop; METick 300; METop].
Definition s2 : MiningSystem := run full_channel s0.
Definition sender : MiningWorker := default worker (wp_workers (ms_pool s2) !! 0%nat).
Definition sending : FoundSolution :=
  match mw_phase sender with
  | Sending found => found
  | _ => mkFoundSolution (solution_at key 0 0) task 0 0
  end.

Lemma shutdown_blocks_witness :
  joined (ms_pool (run [MEClose; MEWorker 0; MESolution 400; MEStart; MEClose] s2)) = false.
Proof.
  apply (shutdown_blocks s2 0).
  - vm_compute. reflexivity.
  - split; [vm_compute; reflexivity|]. exists sender, sending.
    split; vm_compute; reflexivity.
Defined.

End MiningExample.
