(* ===== verification/Scan.v ===== *)
(** * Scans (crates/ergo-storage/src/scan/)

    Predicates over boxes, registered scans and the boxes they track, over the
    [Storage] interface.  Records are stored as JSON, which is an interface; an
    encoding that fails gives the empty byte string, as in the code. *)

From S2P Require Export Storage.

Local Open Scope Z_scope.

(** ** Predicates (predicate.rs) *)

Inductive ScanningPredicate :=
  | ContainsAsset (asset_id : bytes)
  | Equals (reg_id : Z) (value : bytes)
  | Contains (reg_id : Z) (value : bytes)
  | And (args : list ScanningPredicate)
  | Or (args : list ScanningPredicate).

(** [haystack.windows(n)] for [n <= haystack.len()]. *)
Definition windows (n : nat) (haystack : bytes) : list bytes :=
  (fun i => slice i (i + n) haystack) <$> seq 0 (length haystack - n + 1).

Definition contains_slice (haystack needle : bytes) : bool :=
  if (length needle =? 0)%nat then true
  else if (length haystack <? length needle)%nat then false
  else existsb (fun w => bool_decide (w = needle)) (windows (length needle) haystack).

Fixpoint matches (p : ScanningPredicate) (box_tokens : list (bytes * Z))
    (box_registers : gmap Z bytes) : bool :=
  match p with
  | ContainsAsset asset_id => existsb (fun '(tid, _) => bool_decide (tid = asset_id)) box_tokens
  | Equals reg_id value =>
      match box_registers !! reg_id with Some v => bool_decide (v = value) | None => false end
  | Contains reg_id value =>
      match box_registers !! reg_id with Some v => contains_slice v value | None => false end
  | And args => forallb (fun p => matches p box_tokens box_registers) args
  | Or args => existsb (fun p => matches p box_tokens box_registers) args
  end.

(** ** Records (types.rs) *)

Inductive ScanWalletInteraction := SWOff | SWShared | SWForced.

Definition ScanWalletInteraction_default : ScanWalletInteraction := SWShared.
Definition sw_to_byte (w : ScanWalletInteraction) : Z :=
  match w with SWOff => -1 | SWShared => -2 | SWForced => -3 end.
Definition sw_from_byte (b : Z) : ScanWalletInteraction :=
  if b =? -1 then SWOff else if b =? -2 then SWShared else if b =? -3 then SWForced else SWOff.
Definition interacts_with_wallet (w : ScanWalletInteraction) : bool :=
  match w with SWShared | SWForced => true | SWOff => false end.

Definition MAX_SCAN_NAME_LENGTH : Z := 255.

Record Scan := mkScan {
  scan_id : Z; scan_name : bytes; tracking_rule : ScanningPredicate;
  wallet_interaction : ScanWalletInteraction; remove_offchain : bool }.

Record ScanRequest := mkScanRequest {
  rq_scan_name : bytes; rq_tracking_rule : ScanningPredicate;
  rq_wallet_interaction : option ScanWalletInteraction; rq_remove_offchain : option bool }.

Inductive ScanError := ScanNameTooLong (name : bytes) | ScanNotFound (id : Z).

Definition to_scan (r : ScanRequest) (id : Z) : result Scan ScanError :=
  if Z.of_nat (length (rq_scan_name r)) >? MAX_SCAN_NAME_LENGTH then
    Err (ScanNameTooLong (rq_scan_name r))
  else Ok (mkScan id (rq_scan_name r) (rq_tracking_rule r)
             (default SWShared (rq_wallet_interaction r)) (default true (rq_remove_offchain r))).

Record ScanBox := mkScanBox {
  sb_box_id : bytes; sb_scan_ids : list Z; sb_spent : bool; sb_spending_tx_id : option bytes;
  sb_spending_height : option Z; sb_inclusion_height : Z; sb_confirmations_num : Z;
  sb_box_data : bytes }.

Definition ScanBox_new (box_id : bytes) (scan_ids : list Z) (inclusion_height confirmations_num : Z)
    (box_data : bytes) : ScanBox :=
  mkScanBox box_id scan_ids false None None inclusion_height confirmations_num box_data.

Definition mark_spent (b : ScanBox) (spending_tx_id : bytes) (spending_height : Z) : ScanBox :=
  mkScanBox (sb_box_id b) (sb_scan_ids b) true (Some spending_tx_id) (Some spending_height)
    (sb_inclusion_height b) (sb_confirmations_num b) (sb_box_data b).
Definition set_scan_ids (b : ScanBox) (ids : list Z) : ScanBox :=
  mkScanBox (sb_box_id b) ids (sb_spent b) (sb_spending_tx_id b) (sb_spending_height b)
    (sb_inclusion_height b) (sb_confirmations_num b) (sb_box_data b).

(** [serde_json] on the two records. *)
Class ScanJson := {
  scan_to_json : Scan -> option bytes;
  scan_of_json : bytes -> option Scan;
  scan_box_to_json : ScanBox -> option bytes;
  scan_box_of_json : bytes -> option ScanBox
}.

(** Documented: these records always have an encoding, and it is read back. *)
Class ScanJsonLaws `{ScanJson} : Prop := {
  scan_json_roundtrip s : exists bs, scan_to_json s = Some bs /\ scan_of_json bs = Some s;
  scan_box_json_roundtrip b : exists bs, scan_box_to_json b = Some bs /\ scan_box_of_json bs = Some b
}.

Definition scan_serialize `{ScanJson} (s : Scan) : bytes := default [] (scan_to_json s).
Definition scan_deserialize `{ScanJson} (data : bytes) : option Scan := scan_of_json data.
Definition scan_box_serialize `{ScanJson} (b : ScanBox) : bytes := default [] (scan_box_to_json b).
Definition scan_box_deserialize `{ScanJson} (data : bytes) : option ScanBox := scan_box_of_json data.

(** ** Storage (storage.rs) *)

Section ScanStorage.
Context {DB : Type} `{Storage DB} `{ScanJson}.

Record ScanStorage := mkScanStorage {
  ss_storage : DB; ss_scans : gmap Z Scan; ss_next_scan_id : Z }.

Definition ss_set_storage (s : ScanStorage) (db : DB) : ScanStorage :=
  mkScanStorage db (ss_scans s) (ss_next_scan_id s).

(** [scan_id.to_be_bytes()] of an [i16]. *)
Definition scan_key (id : Z) : bytes := be_bytes 2 id.
Definition scan_box_key (box_id : bytes) : bytes := box_id.

Definition load_scan (acc : gmap Z Scan * Z) (kv : bytes * bytes) : gmap Z Scan * Z :=
  let '(scans, max_id) := acc in
  match scan_deserialize kv.2 with
  | Some scan =>
      let max_id := if scan_id scan >? max_id then scan_id scan else max_id in
      (<[scan_id scan := scan]> scans, max_id)
  | None => (scans, max_id)
  end.

Definition load_scans (s : ScanStorage) : ScanStorage :=
  let '(scans, max_id) := foldl load_scan (ss_scans s, 0) (st_iter (ss_storage s) Scans) in
  mkScanStorage (ss_storage s) scans (swrap 16 (max_id + 1)).

Definition ScanStorage_new (db : DB) : ScanStorage := load_scans (mkScanStorage db ∅ 1).

Definition register (s : ScanStorage) (request : ScanRequest) : result Scan ScanError * ScanStorage :=
  let id := ss_next_scan_id s in
  let s := mkScanStorage (ss_storage s) (ss_scans s) (swrap 16 (ss_next_scan_id s + 1)) in
  match to_scan request id with
  | Err e => (Err e, s)
  | Ok scan =>
      let db := st_put (ss_storage s) Scans (scan_key id) (scan_serialize scan) in
      (Ok scan, mkScanStorage db (<[id := scan]> (ss_scans s)) (ss_next_scan_id s))
  end.

Definition retain_other (id : Z) (ids : list Z) : list Z := filter (fun i => i <> id) ids.

(** What removing a scan does to one stored box. *)
Definition remove_scan_box (id : Z) (batch : WriteBatch) (kv : bytes * bytes) : WriteBatch :=
  match scan_box_deserialize kv.2 with
  | Some scan_box =>
      if decide (id ∈ sb_scan_ids scan_box) then
        let scan_box := set_scan_ids scan_box (retain_other id (sb_scan_ids scan_box)) in
        if decide (sb_scan_ids scan_box = []) then batch_delete batch ScanBoxes kv.1
        else batch_put batch ScanBoxes kv.1 (scan_box_serialize scan_box)
      else batch
  | None => batch
  end.

Definition remove_scan_boxes (s : ScanStorage) (id : Z) : ScanStorage :=
  let batch := foldl (remove_scan_box id) [] (st_iter (ss_storage s) ScanBoxes) in
  ss_set_storage s (st_write_batch (ss_storage s) batch).

Definition deregister (s : ScanStorage) (id : Z) : result unit ScanError * ScanStorage :=
  if decide (is_Some (ss_scans s !! id)) then
    let s := ss_set_storage s (st_delete (ss_storage s) Scans (scan_key id)) in
    let s := remove_scan_boxes s id in
    (Ok tt, mkScanStorage (ss_storage s) (delete id (ss_scans s)) (ss_next_scan_id s))
  else (Err (ScanNotFound id), s).

(** In the order of the map. *)
Definition list_all (s : ScanStorage) : list Scan := (map_to_list (ss_scans s)).*2.
Definition get_scan (s : ScanStorage) (id : Z) : option Scan := ss_scans s !! id.

Definition add_box (s : ScanStorage) (scan_box : ScanBox) : ScanStorage :=
  ss_set_storage s (st_put (ss_storage s) ScanBoxes (scan_box_key (sb_box_id scan_box))
    (scan_box_serialize scan_box)).

Definition add_box_to_scans (s : ScanStorage) (box_id : bytes) (scan_ids : list Z)
    (inclusion_height confirmations_num : Z) (box_data : bytes) : ScanStorage :=
  add_box s (ScanBox_new box_id scan_ids inclusion_height confirmations_num box_data).

Definition get_box (s : ScanStorage) (box_id : bytes) : option ScanBox :=
  match st_get (ss_storage s) ScanBoxes (scan_box_key box_id) with
  | Some data => scan_box_deserialize data
  | None => None
  end.

Definition get_boxes (keep : ScanBox -> bool) (s : ScanStorage) : list ScanBox :=
  omap (fun kv => match scan_box_deserialize kv.2 with
                  | Some scan_box => if keep scan_box then Some scan_box else None
                  | None => None
                  end) (st_iter (ss_storage s) ScanBoxes).

Definition get_unspent_boxes (s : ScanStorage) (id : Z) : list ScanBox :=
  get_boxes (fun b => negb (sb_spent b) && bool_decide (id ∈ sb_scan_ids b)) s.
Definition get_spent_boxes (s : ScanStorage) (id : Z) : list ScanBox :=
  get_boxes (fun b => sb_spent b && bool_decide (id ∈ sb_scan_ids b)) s.

Definition stop_tracking (s : ScanStorage) (id : Z) (box_id : bytes) : ScanStorage :=
  let key := scan_box_key box_id in
  match st_get (ss_storage s) ScanBoxes key with
  | None => s
  | Some data =>
      match scan_box_deserialize data with
      | None => s
      | Some scan_box =>
          let scan_box := set_scan_ids scan_box (retain_other id (sb_scan_ids scan_box)) in
          if decide (sb_scan_ids scan_box = []) then
            ss_set_storage s (st_delete (ss_storage s) ScanBoxes key)
          else ss_set_storage s (st_put (ss_storage s) ScanBoxes key (scan_box_serialize scan_box))
      end
  end.

Definition mark_box_spent (s : ScanStorage) (box_id spending_tx_id : bytes) (spending_height : Z)
    : ScanStorage :=
  let key := scan_box_key box_id in
  match st_get (ss_storage s) ScanBoxes key with
  | None => s
  | Some data =>
      match scan_box_deserialize data with
      | None => s
      | Some scan_box =>
          let scan_box := mark_spent scan_box spending_tx_id spending_height in
          ss_set_storage s (st_put (ss_storage s) ScanBoxes key (scan_box_serialize scan_box))
      end
  end.

Definition process_block (s : ScanStorage) (_height : Z) (_created_boxes : list (bytes * bytes))
    (spent_box_ids : list bytes) (spending_tx_id : bytes) : ScanStorage :=
  foldl (fun s box_id =>
    match get_box s box_id with
    | Some _ => mark_box_spent s box_id spending_tx_id 0
    | None => s
    end) s spent_box_ids.

End ScanStorage.
#[global] Arguments ScanStorage DB : clear implicits.
