(* ===== verification/ScanSpec.v ===== *)
(** * Properties of scans

    The scan storage refines two maps: the registered scans and the tracked
    boxes, in every run of its operations and of restarts. *)

From S2P Require Export Scan.

Local Open Scope Z_scope.

(** ** Predicates *)

Lemma contains_slice_spec haystack needle :
  contains_slice haystack needle = true <-> exists pre post, haystack = pre ++ needle ++ post.
Proof.
  unfold contains_slice. destruct (Nat.eqb_spec (length needle) 0) as [Hn|Hn].
  { apply length_zero_iff_nil in Hn as ->. split; [|done]. by exists [], haystack. }
  destruct (Nat.ltb_spec (length haystack) (length needle)) as [Hl|Hl].
  { split; [done|]. intros (pre & post & ->). rewrite !length_app in Hl. lia. }
  rewrite existsb_exists. unfold windows. split.
  - intros (w & Hw & <-%bool_decide_eq_true). apply list_elem_of_In, list_elem_of_fmap in Hw as (i & Ew & _).
    unfold slice in Ew. replace (i + length w - i)%nat with (length w) in Ew by lia.
    exists (take i haystack), (drop (length w) (drop i haystack)). rewrite Ew at 1.
    by rewrite take_drop, take_drop.
  - intros (pre & post & ->). exists needle. split; [|by apply bool_decide_eq_true].
    apply list_elem_of_In, list_elem_of_fmap. exists (length pre). split.
    + symmetry. by apply slice_mid.
    + apply elem_of_seq. rewrite !length_app. lia.
Qed.

(** ** The specification *)

Record ScanSpec := mkScanSpec {
  sp_scans : gmap Z Scan; sp_next : Z; sp_boxes : gmap bytes ScanBox }.

Definition spec_empty : ScanSpec := mkScanSpec ∅ 1 ∅.

(** A box without one of its scans; a box of no scan is forgotten. *)
Definition untrack (id : Z) (b : ScanBox) : option ScanBox :=
  let ids := retain_other id (sb_scan_ids b) in
  if decide (ids = []) then None else Some (set_scan_ids b ids).

Definition max_scan_id (scans : gmap Z Scan) : Z := foldr Z.max 0 (map_to_list scans).*1.

Definition set_boxes (a : ScanSpec) (boxes : gmap bytes ScanBox) : ScanSpec :=
  mkScanSpec (sp_scans a) (sp_next a) boxes.

Definition spec_register (a : ScanSpec) (request : ScanRequest) : result Scan ScanError * ScanSpec :=
  let next := swrap 16 (sp_next a + 1) in
  match to_scan request (sp_next a) with
  | Err e => (Err e, mkScanSpec (sp_scans a) next (sp_boxes a))
  | Ok scan => (Ok scan, mkScanSpec (<[sp_next a := scan]> (sp_scans a)) next (sp_boxes a))
  end.

Definition spec_deregister (a : ScanSpec) (id : Z) : result unit ScanError * ScanSpec :=
  if decide (is_Some (sp_scans a !! id)) then
    (Ok tt, mkScanSpec (delete id (sp_scans a)) (sp_next a)
       (omap (fun b => if decide (id ∈ sb_scan_ids b) then untrack id b else Some b) (sp_boxes a)))
  else (Err (ScanNotFound id), a).

Definition spec_add (a : ScanSpec) (b : ScanBox) : ScanSpec :=
  set_boxes a (<[sb_box_id b := b]> (sp_boxes a)).
Definition spec_stop (a : ScanSpec) (id : Z) (box_id : bytes) : ScanSpec :=
  set_boxes a (partial_alter (fun b => b ≫= untrack id) box_id (sp_boxes a)).
Definition spec_mark (a : ScanSpec) (box_id tx : bytes) (height : Z) : ScanSpec :=
  set_boxes a (alter (fun b => mark_spent b tx height) box_id (sp_boxes a)).
Definition spec_restart (a : ScanSpec) : ScanSpec :=
  mkScanSpec (sp_scans a) (swrap 16 (max_scan_id (sp_scans a) + 1)) (sp_boxes a).

(** ** Runs *)

Inductive ScanEvent :=
  | SERegister (request : ScanRequest)
  | SEDeregister (id : Z)
  | SEAdd (b : ScanBox)
  | SEStop (id : Z) (box_id : bytes)
  | SEMark (box_id tx : bytes) (height : Z)
  | SEBlock (height : Z) (created : list (bytes * bytes)) (spent : list bytes) (tx : bytes)
  | SERestart.

Inductive ScanReply :=
  | SRScan (r : result Scan ScanError)
  | SRUnit (r : result unit ScanError)
  | SRNone.

Definition spec_step (a : ScanSpec) (ev : ScanEvent) : ScanReply * ScanSpec :=
  match ev with
  | SERegister request => let '(r, a') := spec_register a request in (SRScan r, a')
  | SEDeregister id => let '(r, a') := spec_deregister a id in (SRUnit r, a')
  | SEAdd b => (SRNone, spec_add a b)
  | SEStop id box_id => (SRNone, spec_stop a id box_id)
  | SEMark box_id tx height => (SRNone, spec_mark a box_id tx height)
  | SEBlock _ _ spent tx => (SRNone, foldl (fun a box_id => spec_mark a box_id tx 0) a spent)
  | SERestart => (SRNone, spec_restart a)
  end.

Section ScanFacts.
Context {DB : Type} `{StorageLaws DB} `{ScanJsonLaws}.

Definition scan_step (s : ScanStorage DB) (ev : ScanEvent) : ScanReply * ScanStorage DB :=
  match ev with
  | SERegister request => let '(r, s') := register s request in (SRScan r, s')
  | SEDeregister id => let '(r, s') := deregister s id in (SRUnit r, s')
  | SEAdd b => (SRNone, add_box s b)
  | SEStop id box_id => (SRNone, stop_tracking s id box_id)
  | SEMark box_id tx height => (SRNone, mark_box_spent s box_id tx height)
  | SEBlock height created spent tx => (SRNone, process_block s height created spent tx)
  | SERestart => (SRNone, ScanStorage_new (ss_storage s))
  end.

(** The replies of a run and its final state. *)
Definition runs {S} (step : S -> ScanEvent -> ScanReply * S) (events : list ScanEvent) (s : S)
    : list ScanReply * S :=
  foldl (fun '(rs, s) ev => let '(r, s') := step s ev in (rs ++ [r], s')) ([], s) events.

Lemma scan_box_decode b : scan_box_deserialize (scan_box_serialize b) = Some b.
Proof.
  unfold scan_box_deserialize, scan_box_serialize.
  by destruct (scan_box_json_roundtrip b) as (bs & -> & Hb).
Qed.

Lemma scan_decode sc : scan_deserialize (scan_serialize sc) = Some sc.
Proof.
  unfold scan_deserialize, scan_serialize. by destruct (scan_json_roundtrip sc) as (bs & -> & Hb).
Qed.

Lemma scan_key_inj i j : in_i 16 i -> in_i 16 j -> scan_key i = scan_key j -> i = j.
Proof.
  unfold scan_key, in_i. intros Hi Hj E.
  assert (forall z, be_bytes 2 z = be_bytes 2 (z mod 65536)) as Hm.
  { intros z. rewrite (Z.div_mod z 65536) at 1 by lia.
    rewrite Z.mul_comm. apply (be_bytes_high 2 (z / 65536) (z mod 65536)). }
  rewrite (Hm i), (Hm j) in E.
  pose proof (Z.mod_pos_bound i 65536 ltac:(lia)). pose proof (Z.mod_pos_bound j 65536 ltac:(lia)).
  apply be_bytes_inj in E; [|cbn; lia|cbn; lia].
  pose proof (Z.div_mod i 65536 ltac:(lia)). pose proof (Z.div_mod j 65536 ltac:(lia)).
  cbn in Hi, Hj. nia.
Qed.

(** What the storage and the cache hold. *)
Record scan_refines (s : ScanStorage DB) (a : ScanSpec) : Prop := {
  sr_scans : ss_scans s = sp_scans a;
  sr_next : ss_next_scan_id s = sp_next a;
  sr_range : in_i 16 (sp_next a);
  sr_ids id sc : sp_scans a !! id = Some sc -> scan_id sc = id /\ in_i 16 id;
  sr_boxes k : st_get (ss_storage s) ScanBoxes k = scan_box_serialize <$> sp_boxes a !! k;
  sr_stored id : in_i 16 id -> st_get (ss_storage s) Scans (scan_key id) = scan_serialize <$> sp_scans a !! id;
  sr_only k v : st_get (ss_storage s) Scans k = Some v ->
    exists id sc, sp_scans a !! id = Some sc /\ k = scan_key id /\ v = scan_serialize sc
}.

Lemma get_box_refines s a box_id : scan_refines s a -> get_box s box_id = sp_boxes a !! box_id.
Proof.
  intros Hr. unfold get_box, scan_box_key. rewrite (sr_boxes _ _ Hr).
  destruct (sp_boxes a !! box_id) as [b|]; cbn [fmap option_fmap option_map]; [apply scan_box_decode|done].
Qed.

(** Changing only the boxes. *)
Lemma refines_boxes s a db boxes :
  scan_refines s a ->
  (forall k, st_get db ScanBoxes k = scan_box_serialize <$> boxes !! k) ->
  (forall k, st_get db Scans k = st_get (ss_storage s) Scans k) ->
  scan_refines (ss_set_storage s db) (set_boxes a boxes).
Proof.
  intros [Hs Hn Hg Hi Hb Hst Ho] Hk Hsc. constructor; try done; cbn [ss_set_storage ss_storage set_boxes sp_scans].
  - intros id Hid. rewrite Hsc. by apply Hst.
  - intros k v. rewrite Hsc. apply Ho.
Qed.

Lemma refines_put_box s a k b :
  scan_refines s a ->
  scan_refines (ss_set_storage s (st_put (ss_storage s) ScanBoxes k (scan_box_serialize b)))
    (set_boxes a (<[k := b]> (sp_boxes a))).
Proof.
  intros Hr. apply refines_boxes; [done| |].
  - intros k'. rewrite st_get_put. destruct (decide (k = k')) as [<-|Hk].
    + by rewrite decide_True, lookup_insert_eq by done.
    + rewrite decide_False by naive_solver. rewrite lookup_insert_ne by done. apply (sr_boxes _ _ Hr).
  - intros k'. apply st_get_put_other. by left.
Qed.

Lemma set_boxes_same a boxes : boxes = sp_boxes a -> set_boxes a boxes = a.
Proof. intros ->. by destruct a. Qed.

Lemma stop_refines s a id box_id :
  scan_refines s a -> scan_refines (stop_tracking s id box_id) (spec_stop a id box_id).
Proof.
  intros Hr. unfold stop_tracking, spec_stop, scan_box_key. rewrite (sr_boxes _ _ Hr).
  destruct (sp_boxes a !! box_id) as [b|] eqn:Eb; cbn [fmap option_fmap option_map].
  2:{ rewrite set_boxes_same; [done|]. apply map_eq. intros k. destruct (decide (k = box_id)) as [->|].
      - by rewrite lookup_partial_alter_eq, Eb.
      - by rewrite lookup_partial_alter_ne. }
  rewrite scan_box_decode. cbn [set_scan_ids sb_scan_ids].
  assert (forall o, untrack id b = o -> partial_alter (fun b => b ≫= untrack id) box_id (sp_boxes a)
    = match o with Some b' => <[box_id := b']> (sp_boxes a) | None => delete box_id (sp_boxes a) end) as Hp.
  { intros o Ho. apply map_eq. intros k. destruct (decide (k = box_id)) as [->|Hk].
    - rewrite lookup_partial_alter_eq, Eb. cbn [mbind option_bind]. rewrite Ho.
      destruct o; [by rewrite lookup_insert_eq|by rewrite lookup_delete_eq].
    - rewrite lookup_partial_alter_ne by done.
      destruct o; [by rewrite lookup_insert_ne|by rewrite lookup_delete_ne]. }
  destruct (decide (retain_other id (sb_scan_ids b) = [])) as [E|E].
  - rewrite (Hp None) by (unfold untrack; by rewrite decide_True).
    apply refines_boxes; [done| |].
    + intros k. rewrite st_get_delete. destruct (decide (box_id = k)) as [<-|Hk].
      * by rewrite decide_True, lookup_delete_eq by done.
      * rewrite decide_False by naive_solver. rewrite lookup_delete_ne by done. apply (sr_boxes _ _ Hr).
    + intros k. rewrite st_get_delete. by rewrite decide_False by naive_solver.
  - rewrite (Hp (Some (set_scan_ids b (retain_other id (sb_scan_ids b)))))
      by (unfold untrack; by rewrite decide_False).
    by apply refines_put_box.
Qed.

Lemma mark_refines s a box_id tx height :
  scan_refines s a -> scan_refines (mark_box_spent s box_id tx height) (spec_mark a box_id tx height).
Proof.
  intros Hr. unfold mark_box_spent, spec_mark, scan_box_key. rewrite (sr_boxes _ _ Hr).
  destruct (sp_boxes a !! box_id) as [b|] eqn:Eb; cbn [fmap option_fmap option_map].
  - rewrite scan_box_decode.
    assert (alter (fun b => mark_spent b tx height) box_id (sp_boxes a)
      = <[box_id := mark_spent b tx height]> (sp_boxes a)) as ->; [|by apply refines_put_box].
    apply map_eq. intros k. destruct (decide (k = box_id)) as [->|Hk].
    + by rewrite lookup_alter_eq, Eb, lookup_insert_eq.
    + by rewrite lookup_alter_ne, lookup_insert_ne.
  - rewrite set_boxes_same; [done|]. by apply alter_id'.
Qed.

Lemma block_refines s a height created spent tx :
  scan_refines s a ->
  scan_refines (process_block s height created spent tx)
    (foldl (fun a box_id => spec_mark a box_id tx 0) a spent).
Proof.
  unfold process_block. revert s a. induction spent as [|k spent IH]; intros s a Hr; [done|].
  cbn [foldl]. apply IH. rewrite (get_box_refines _ _ _ Hr).
  destruct (sp_boxes a !! k) as [b|] eqn:Eb; [by apply mark_refines|].
  unfold spec_mark. rewrite set_boxes_same; [done|]. by apply alter_id'.
Qed.

Lemma register_refines s a request :
  scan_refines s a ->
  (register s request).1 = (spec_register a request).1 /\
  scan_refines (register s request).2 (spec_register a request).2.
Proof.
  intros [Hs Hn Hg Hi Hb Hst Ho]. unfold register, spec_register. rewrite Hn.
  pose proof (swrap_range 16 ltac:(lia) (sp_next a + 1)) as Hnext.
  destruct (to_scan request (sp_next a)) as [sc|e] eqn:E.
  - assert (scan_id sc = sp_next a) as Hid.
    { unfold to_scan in E. destruct (_ >? _); [done|]. by injection E as <-. }
    split; [done|]. cbn [snd]. constructor; cbn [ss_scans ss_next_scan_id ss_storage sp_scans sp_next sp_boxes];
      [by rewrite Hs|done|done| | | |].
    + intros id sc'. rewrite lookup_insert_Some. intros [[<- <-]|[_ Hsc]]; [done|by apply Hi].
    + intros k. rewrite st_get_put_other by (by left). apply Hb.
    + intros id Hid'. rewrite st_get_put. destruct (decide (id = sp_next a)) as [->|Hne].
      * by rewrite decide_True, lookup_insert_eq by done.
      * rewrite decide_False; [rewrite lookup_insert_ne by done; by apply Hst|].
        intros [_ Hk]. apply Hne. symmetry. by apply scan_key_inj.
    + intros k v. rewrite st_get_put. case_decide as Hk.
      * destruct Hk as [_ <-]. intros [= <-]. exists (sp_next a), sc. by rewrite lookup_insert_eq.
      * intros Hv. destruct (Ho k v Hv) as (id & sc' & Hsc & -> & ->). exists id, sc'.
        rewrite lookup_insert_ne; [done|]. intros <-. by apply Hk.
  - split; [done|]. by constructor.
Qed.

(** ** Deregistration *)

Lemma remove_scan_box_app id b kv : remove_scan_box id b kv = b ++ remove_scan_box id [] kv.
Proof.
  unfold remove_scan_box. destruct (scan_box_deserialize kv.2) as [sb|]; [|by rewrite app_nil_r].
  destruct (decide _); [|by rewrite app_nil_r]. by destruct (decide _).
Qed.

Lemma remove_scan_boxes_concat id l b :
  foldl (remove_scan_box id) b l = b ++ concat (remove_scan_box id [] <$> l).
Proof.
  revert b. induction l as [|kv l IH]; intros b; cbn [foldl fmap list_fmap concat]; [by rewrite app_nil_r|].
  by rewrite IH, remove_scan_box_app, app_assoc.
Qed.

Lemma remove_scan_box_keys id kv : Forall (fun o => op_cf o = ScanBoxes /\ op_key o = kv.1) (remove_scan_box id [] kv).
Proof.
  unfold remove_scan_box. destruct (scan_box_deserialize kv.2) as [sb|]; [|done].
  destruct (decide _); [|done]. destruct (decide _); by repeat constructor.
Qed.

(** The batch decides a key by the only entry with it. *)
Lemma batch_last_entry id l k v :
  NoDup l.*1 -> (k, v) ∈ l ->
  batch_last (concat (remove_scan_box id [] <$> l)) ScanBoxes k
  = batch_last (remove_scan_box id [] (k, v)) ScanBoxes k.
Proof.
  induction l as [|kv l IH]; intros Hnd He; [by apply not_elem_of_nil in He|].
  cbn [fmap list_fmap concat] in *. apply NoDup_cons in Hnd as [Hni Hnd]. rewrite batch_last_app.
  apply elem_of_cons in He as [<-|He].
  - rewrite batch_last_untouched; [done|]. apply Forall_concat, Forall_fmap, Forall_forall.
    intros kv' Hkv. eapply Forall_impl; [apply remove_scan_box_keys|].
    intros o [_ Ek] [_ Ek']. apply Hni. cbn [fst]. rewrite <- Ek', Ek. by apply (list_elem_of_fmap_2 fst).
  - rewrite IH by done.
    rewrite (batch_last_untouched (remove_scan_box id [] kv));
      [by destruct (batch_last (remove_scan_box id [] (k, v)) ScanBoxes k)|]. eapply Forall_impl; [apply remove_scan_box_keys|].
    intros o [_ Ek] [_ Ek']. apply Hni. rewrite <- Ek, Ek'. by apply (list_elem_of_fmap_2 fst _ (k, v)).
Qed.

Lemma removed_boxes (s : ScanStorage DB) (boxes : gmap bytes ScanBox) (id : Z) (k : bytes) :
  (forall k, st_get (ss_storage s) ScanBoxes k = scan_box_serialize <$> boxes !! k) ->
  st_get (ss_storage (remove_scan_boxes s id)) ScanBoxes k
  = scan_box_serialize <$>
      (omap (fun b => if decide (id ∈ sb_scan_ids b) then untrack id b else Some b) boxes) !! k.
Proof.
  intros Hr. unfold remove_scan_boxes. cbn [ss_set_storage ss_storage].
  rewrite st_get_write_batch, remove_scan_boxes_concat. cbn [app]. rewrite lookup_omap.
  pose proof (Hr k) as Hk. destruct (boxes !! k) as [b|] eqn:Eb;
    cbn [fmap option_fmap option_map mbind option_bind] in *.
  - rewrite Hk. rewrite (batch_last_entry id _ k (scan_box_serialize b));
      [|apply st_iter_keys|by apply st_iter_get].
    unfold remove_scan_box. cbn [snd fst]. rewrite scan_box_decode. unfold untrack.
    destruct (decide (id ∈ sb_scan_ids b)); [|done]. cbn [set_scan_ids sb_scan_ids].
    destruct (decide (retain_other id (sb_scan_ids b) = [])).
    + by rewrite (batch_last_delete []), decide_True.
    + by rewrite (batch_last_put []), decide_True.
  - rewrite Hk, batch_last_untouched; [done|]. apply Forall_concat, Forall_fmap, Forall_forall.
    intros [k' v'] Hkv. eapply Forall_impl; [apply remove_scan_box_keys|].
    intros o [_ Ek] [_ Ek']. apply st_iter_get in Hkv. cbn [fst] in Ek. congruence.
Qed.

Lemma deregister_refines s a id :
  scan_refines s a ->
  (deregister s id).1 = (spec_deregister a id).1 /\
  scan_refines (deregister s id).2 (spec_deregister a id).2.
Proof.
  intros Hr. pose proof Hr as [Hs Hn Hg Hi Hb Hst Ho]. unfold deregister, spec_deregister. rewrite Hs.
  destruct (decide (is_Some (sp_scans a !! id))) as [[sc Hsc]|]; [|done].
  split; [done|]. cbn [snd]. set (s1 := ss_set_storage s (st_delete (ss_storage s) Scans (scan_key id))).
  assert (forall k, st_get (ss_storage s1) ScanBoxes k = st_get (ss_storage s) ScanBoxes k) as Hsame.
  { intros k. cbn [s1 ss_set_storage ss_storage]. rewrite st_get_delete. by rewrite decide_False by naive_solver. }
  assert (forall k, st_get (ss_storage (remove_scan_boxes s1 id)) Scans k
    = if decide (k = scan_key id) then None else st_get (ss_storage s) Scans k) as Hscans.
  { intros k. unfold remove_scan_boxes. cbn [ss_set_storage ss_storage].
    rewrite st_get_write_batch, remove_scan_boxes_concat. cbn [app]. rewrite batch_last_untouched.
    - cbn [op_result s1 ss_set_storage ss_storage]. rewrite st_get_delete. repeat case_decide; naive_solver.
    - apply Forall_concat, Forall_fmap, Forall_forall. intros kv _.
      eapply Forall_impl; [apply remove_scan_box_keys|]. intros o [Ecf _] [Ecf' _]. congruence. }
  assert (in_i 16 id) as Hid by (by apply (Hi id sc)).
  constructor; cbn [ss_scans ss_next_scan_id ss_storage sp_scans sp_next sp_boxes]; [change (delete id (ss_scans s) = delete id (sp_scans a)); by rewrite Hs|done|done| | | |].
  - intros id' sc'. rewrite lookup_delete_Some. intros [_ Hsc']. by apply Hi.
  - intros k. apply (removed_boxes s1). intros k'. rewrite Hsame. apply Hb.
  - intros id' Hid'. rewrite Hscans. destruct (decide (id' = id)) as [->|Hne].
    + by rewrite decide_True, lookup_delete_eq.
    + rewrite decide_False by (intros Hk; by apply Hne, scan_key_inj).
      rewrite lookup_delete_ne by done. by apply Hst.
  - intros k v. rewrite Hscans. case_decide as Hk; [done|]. intros Hv.
    destruct (Ho k v Hv) as (id' & sc' & Hsc' & -> & ->). exists id', sc'.
    rewrite lookup_delete_ne; [done|]. by intros ->.
Qed.

(** ** Restart *)

Lemma foldr_max_shift x a l : foldr Z.max (Z.max x a) l = Z.max a (foldr Z.max x l).
Proof. induction l as [|b l IH]; cbn [foldr]; [lia|]. rewrite IH. lia. Qed.

(** Loading is inserting the decoded scans and taking the greatest identifier. *)
Lemma load_scan_fold m x l :
  foldl load_scan (m, x) l =
  let scs := omap (fun kv => scan_deserialize kv.2) l in
  (foldl (fun m sc => <[scan_id sc := sc]> m) m scs, foldr Z.max x (scan_id <$> scs)).
Proof.
  revert m x. induction l as [|kv l IH]; intros m x; [done|]. cbn [foldl omap list_omap load_scan].
  destruct (scan_deserialize kv.2) as [sc|]; [|apply IH]. rewrite IH.
  cbn zeta. cbn [foldl fmap list_fmap foldr]. f_equal.
  rewrite <- foldr_max_shift. f_equal. destruct (Z.gtb_spec (scan_id sc) x); lia.
Qed.

Lemma foldr_max_perm l l' : l ≡ₚ l' -> foldr Z.max 0 l = foldr Z.max 0 l'.
Proof. induction 1; cbn [foldr]; lia. Qed.

(** The decoded scans of the storage are the registered ones. *)
Lemma stored_scans s a :
  scan_refines s a ->
  let scs := omap (fun kv => scan_deserialize kv.2) (st_iter (ss_storage s) Scans) in
  NoDup (scan_id <$> scs) /\ forall sc, sc ∈ scs <-> sp_scans a !! scan_id sc = Some sc.
Proof.
  intros [_ _ _ Hi _ Hst Ho] scs.
  assert (forall kv, kv ∈ st_iter (ss_storage s) Scans ->
    exists sc, scan_deserialize kv.2 = Some sc /\ kv.1 = scan_key (scan_id sc) /\
      sp_scans a !! scan_id sc = Some sc) as Hdec.
  { intros [k v] Hkv%st_iter_get. destruct (Ho k v Hkv) as (id & sc & Hsc & -> & ->).
    exists sc. destruct (Hi id sc Hsc) as [Hid _]. rewrite Hid. split; [apply scan_decode|done]. }
  split.
  - assert (forall l, (forall kv, kv ∈ l -> exists sc, scan_deserialize kv.2 = Some sc /\
        kv.1 = scan_key (scan_id sc) /\ sp_scans a !! scan_id sc = Some sc) ->
      l.*1 = scan_key <$> (scan_id <$> omap (fun kv => scan_deserialize kv.2) l)) as Hk.
    { induction l as [|kv l IH]; intros Hl; [done|]. cbn [fmap list_fmap omap list_omap].
      destruct (Hl kv) as (sc & -> & -> & _); [by left|]. cbn [fmap list_fmap]. f_equal.
      apply IH. intros kv' Hkv. apply Hl. by right. }
    apply (NoDup_fmap_1 scan_key). unfold scs. rewrite <- Hk by done. apply st_iter_keys.
  - intros sc. unfold scs. rewrite list_elem_of_omap. split.
    + intros (kv & Hkv & Hd). destruct (Hdec kv Hkv) as (sc' & Hd' & _ & Hsc). congruence.
    + intros Hsc. exists (scan_key (scan_id sc), scan_serialize sc). split; [|by apply scan_decode].
      apply st_iter_get. rewrite Hst by (by apply (Hi _ sc)). by rewrite Hsc.
Qed.

Lemma registered_ids (scans : gmap Z Scan) :
  (forall id sc, scans !! id = Some sc -> scan_id sc = id) ->
  scan_id <$> (map_to_list scans).*2 = (map_to_list scans).*1.
Proof.
  intros Hi. rewrite <- list_fmap_compose. apply list_fmap_ext. intros i [id sc] Hl.
  apply list_elem_of_lookup_2, elem_of_map_to_list in Hl. by apply Hi.
Qed.

Lemma restart_refines s a : scan_refines s a -> scan_refines (ScanStorage_new (ss_storage s)) (spec_restart a).
Proof.
  intros Hr. pose proof Hr as [Hs Hn Hg Hi Hb Hst Ho]. pose proof (stored_scans s a Hr) as [Hnd Hin].
  unfold ScanStorage_new, load_scans. cbn [ss_scans ss_storage]. rewrite load_scan_fold. cbn zeta.
  set (scs := omap _ _) in *.
  constructor; cbn [ss_scans ss_next_scan_id ss_storage spec_restart sp_scans sp_next sp_boxes]; try done.
  - apply map_eq. intros id. apply option_eq. intros sc.
    rewrite (fold_insert_lookup scan_id (fun sc => sc)) by done. rewrite lookup_empty. split.
    + intros [(sc' & Hsc & <- & ->)|[? _]]; [by apply Hin|done].
    + intros Hsc. left. exists sc. destruct (Hi id sc Hsc) as [<- _]. by rewrite Hin.
  - f_equal. f_equal. unfold max_scan_id. apply foldr_max_perm.
    assert (scan_id <$> (map_to_list (sp_scans a)).*2 = (map_to_list (sp_scans a)).*1) as Hids
      by (apply registered_ids; intros id sc Hsc; by apply (Hi id sc)).
    rewrite <- Hids. apply fmap_Permutation, NoDup_Permutation.
    + by apply (NoDup_fmap_1 scan_id).
    + apply (NoDup_fmap_1 scan_id). rewrite Hids. apply NoDup_fst_map_to_list.
    + intros sc. rewrite Hin, list_elem_of_fmap. split.
      * intros Hsc. exists (scan_id sc, sc). split; [done|]. by apply elem_of_map_to_list.
      * intros ([id sc'] & -> & Hsc%elem_of_map_to_list). cbn [snd]. by destruct (Hi _ _ Hsc) as [-> _].
  - apply swrap_range. lia.
Qed.

(** ** Queries and the theorem *)

Lemma stored_boxes s a :
  scan_refines s a ->
  st_iter (ss_storage s) ScanBoxes ≡ₚ (fun kb => (kb.1, scan_box_serialize kb.2)) <$> map_to_list (sp_boxes a).
Proof.
  intros Hr. apply NoDup_Permutation.
  - apply (NoDup_fmap_1 fst), st_iter_keys.
  - apply (NoDup_fmap_1 fst). rewrite <- list_fmap_compose. apply NoDup_fst_map_to_list.
  - intros [k v]. rewrite st_iter_get, (sr_boxes _ _ Hr), list_elem_of_fmap. split.
    + intros (b & Hb & ->)%fmap_Some. exists (k, b). split; [done|]. by apply elem_of_map_to_list.
    + intros ([k' b] & [= -> ->] & Hb%elem_of_map_to_list). by rewrite Hb.
Qed.

Lemma get_boxes_refines s a keep :
  scan_refines s a -> get_boxes keep s ≡ₚ filter (fun b => keep b = true) (map_to_list (sp_boxes a)).*2.
Proof.
  intros Hr. unfold get_boxes. rewrite (stored_boxes s a Hr).
  induction (map_to_list (sp_boxes a)) as [|[k b] l IH]; [done|].
  cbn [fmap list_fmap omap list_omap fst snd] in *. rewrite scan_box_decode.
  destruct (keep b) eqn:E.
  - rewrite filter_cons_True by done. by constructor.
  - rewrite filter_cons_False by congruence. done.
Qed.

Lemma scan_step_refines s a ev :
  scan_refines s a ->
  (scan_step s ev).1 = (spec_step a ev).1 /\ scan_refines (scan_step s ev).2 (spec_step a ev).2.
Proof.
  intros Hr. destruct ev as [rq|id|b|id k|k tx h|h created spent tx|]; cbn [scan_step spec_step].
  - destruct (register_refines s a rq Hr) as [E1 E2].
    destruct (register s rq), (spec_register a rq). cbn [fst snd] in *. by subst.
  - destruct (deregister_refines s a id Hr) as [E1 E2].
    destruct (deregister s id), (spec_deregister a id). cbn [fst snd] in *. by subst.
  - split; [done|]. by apply refines_put_box.
  - split; [done|]. by apply stop_refines.
  - split; [done|]. by apply mark_refines.
  - split; [done|]. by apply block_refines.
  - split; [done|]. by apply restart_refines.
Qed.

(** A storage without scans. *)
Definition no_scans (db : DB) : Prop :=
  forall k, st_get db Scans k = None /\ st_get db ScanBoxes k = None.

Lemma new_refines db : no_scans db -> scan_refines (ScanStorage_new db) spec_empty.
Proof.
  intros Hdb. assert (scan_refines (mkScanStorage db ∅ 1) spec_empty) as Hr.
  { constructor; cbn [ss_storage]; try done.
    - intros k. by destruct (Hdb k) as [_ ->].
    - intros id _. by destruct (Hdb (scan_key id)) as [-> _].
    - intros k v. by destruct (Hdb k) as [-> _]. }
  apply (restart_refines _ _ Hr).
Qed.

Lemma runs_refine db events :
  no_scans db ->
  (runs scan_step events (ScanStorage_new db)).1 = (runs spec_step events spec_empty).1 /\
  scan_refines (runs scan_step events (ScanStorage_new db)).2 (runs spec_step events spec_empty).2.
Proof.
  intros Hdb. unfold runs. induction events as [|ev events IH] using rev_ind.
  - split; [done|]. by apply new_refines.
  - rewrite !foldl_app. cbn [foldl]. destruct IH as [IH1 IH2].
    destruct (foldl _ ([], ScanStorage_new db) events) as [rs s].
    destruct (foldl _ ([], spec_empty) events) as [rs' a]. cbn [fst snd] in *. subst rs'.
    destruct (scan_step_refines s a ev IH2) as [E1 E2].
    destruct (scan_step s ev), (spec_step a ev). cbn [fst snd] in *. by subst.
Qed.

(** C33: from a storage without scans, every sequence of registrations,
    deregistrations, box additions, untracking, spendings, blocks and restarts
    gives the replies of the specification (two maps in memory, where a restart
    only recomputes the next identifier), and every query the answer of the
    maps: the scans, a box, the unspent and the spent boxes of a scan. *)
Theorem scans_refine db events :
  no_scans db ->
  let s := (runs scan_step events (ScanStorage_new db)).2 in
  let a := (runs spec_step events spec_empty).2 in
  (runs scan_step events (ScanStorage_new db)).1 = (runs spec_step events spec_empty).1 /\
  (forall id, get_scan s id = sp_scans a !! id) /\
  (forall box_id, get_box s box_id = sp_boxes a !! box_id) /\
  (forall id, get_unspent_boxes s id ≡ₚ
     filter (fun b => sb_spent b = false /\ id ∈ sb_scan_ids b) (map_to_list (sp_boxes a)).*2) /\
  (forall id, get_spent_boxes s id ≡ₚ
     filter (fun b => sb_spent b = true /\ id ∈ sb_scan_ids b) (map_to_list (sp_boxes a)).*2).
Proof.
  intros Hdb s a. destruct (runs_refine db events Hdb) as [Hreply Hr]. fold s a in Hr.
  split; [done|]. split; [|split; [|split]].
  - intros id. unfold get_scan. by rewrite (sr_scans _ _ Hr).
  - intros box_id. by apply get_box_refines.
  - intros id. unfold get_unspent_boxes. rewrite (get_boxes_refines s a _ Hr).
    rewrite (list_filter_iff _ (fun b => sb_spent b = false /\ id ∈ sb_scan_ids b)); [done|].
    intros b. rewrite andb_true_iff, negb_true_iff. by rewrite bool_decide_eq_true.
  - intros id. unfold get_spent_boxes. rewrite (get_boxes_refines s a _ Hr).
    rewrite (list_filter_iff _ (fun b => sb_spent b = true /\ id ∈ sb_scan_ids b)); [done|].
    intros b. rewrite andb_true_iff. by rewrite bool_decide_eq_true.
Qed.

(** ** Identifiers *)

Definition registration (ev : ScanEvent) : Z := match ev with SERegister _ => 1 | _ => 0 end.
Definition registrations (events : list ScanEvent) : Z := sumZ (registration <$> events).

(** After [n] registrations: identifiers are positive and below the next. *)
Definition ids_below (n : Z) (a : ScanSpec) : Prop :=
  1 <= sp_next a <= n + 1 /\ forall id, is_Some (sp_scans a !! id) -> 0 < id < sp_next a.

Lemma max_scan_id_below n a : ids_below n a -> 0 <= max_scan_id (sp_scans a) < sp_next a.
Proof.
  intros [Hn Hids]. unfold max_scan_id.
  assert (forall l, (forall id, id ∈ l -> 0 < id < sp_next a) -> 0 <= foldr Z.max 0 l < sp_next a) as Hl.
  { induction l as [|x l IH]; intros Hl; cbn [foldr]; [lia|].
    pose proof (Hl x ltac:(by left)). pose proof (IH (fun id Hid => Hl id ltac:(by right))). lia. }
  apply Hl. intros id ([id' sc] & -> & Hsc%elem_of_map_to_list)%list_elem_of_fmap. apply Hids. by exists sc.
Qed.

Lemma max_scan_id_above (scans : gmap Z Scan) id : is_Some (scans !! id) -> id <= max_scan_id scans.
Proof.
  intros [sc Hsc]. unfold max_scan_id.
  assert (forall l, id ∈ l -> id <= foldr Z.max 0 l) as Hl.
  { induction l as [|x l IH]; intros Hin; [by apply not_elem_of_nil in Hin|]. cbn [foldr].
    apply elem_of_cons in Hin as [->|Hin]; [lia|]. specialize (IH Hin). lia. }
  apply Hl, (list_elem_of_fmap_2 fst _ (id, sc)). by apply elem_of_map_to_list.
Qed.

Lemma mark_all_scans spent tx a :
  sp_scans (foldl (fun a k => spec_mark a k tx 0) a spent) = sp_scans a /\
  sp_next (foldl (fun a k => spec_mark a k tx 0) a spent) = sp_next a.
Proof. revert a. induction spent as [|k spent IH]; intros a; [done|].
  cbn [foldl]. by destruct (IH (spec_mark a k tx 0)) as [-> ->].
Qed.

Lemma ids_below_step n a ev :
  n + 1 < 32767 -> ids_below n a -> ids_below (n + registration ev) (spec_step a ev).2.
Proof.
  intros Hlim Ha. pose proof Ha as [Hn Hids].
  destruct ev as [rq|id|b|id k|k tx h|h created spent tx|]; cbn [spec_step registration];
    rewrite ?Z.add_0_r; try done.
  - assert (swrap 16 (sp_next a + 1) = sp_next a + 1) as Hnext by (apply swrap_small; unfold in_i; lia).
    unfold spec_register. destruct (to_scan rq (sp_next a)) as [sc|e]; cbn [snd]; rewrite Hnext.
    + split; cbn [sp_next sp_scans]; [lia|]. intros id [sc' Hsc]. apply lookup_insert_Some in Hsc as [[<- _]|[_ Hsc]]; [lia|].
      specialize (Hids id ltac:(by exists sc')). lia.
    + split; cbn [sp_next sp_scans]; [lia|]. intros id Hsc. specialize (Hids id Hsc). lia.
  - unfold spec_deregister. destruct (decide _); [|done]. split; cbn [snd sp_next sp_scans]; [lia|].
    intros id' [sc Hsc]. apply lookup_delete_Some in Hsc as [_ Hsc]. apply Hids. by exists sc.
  - cbn [snd]. unfold ids_below. by destruct (mark_all_scans spent tx a) as [-> ->].
  - pose proof (max_scan_id_below n a Ha). unfold ids_below, spec_restart. cbn [snd sp_next sp_scans].
    rewrite swrap_small by (unfold in_i; lia). split; [lia|]. intros id Hsc.
    pose proof (max_scan_id_above _ _ Hsc). specialize (Hids id Hsc). lia.
Qed.

Lemma runs_ids_below events :
  registrations events + 1 < 32767 ->
  ids_below (registrations events) (runs spec_step events spec_empty).2.
Proof.
  unfold runs, registrations. induction events as [|ev events IH] using rev_ind; intros Hl.
  - split; [done|]. intros id [sc Hsc]. cbn in Hsc. by apply lookup_empty_Some in Hsc.
  - rewrite fmap_app, sumZ_app in Hl |- *. cbn [fmap list_fmap sumZ] in Hl |- *. rewrite Z.add_0_r in Hl |- *.
    assert (0 <= registration ev) by (by destruct ev). specialize (IH ltac:(lia)).
    rewrite foldl_app. cbn [foldl].
    destruct (foldl _ ([], spec_empty) events) as [rs a]. cbn [fst snd] in IH.
    apply (ids_below_step _ a ev) in IH; [|lia].
    by destruct (spec_step a ev) as [r a'].
Qed.

(** after fewer than 32766 registrations, interleaved with anything else
    and any number of restarts, a registration gives a positive identifier that
    no registered scan has (so no scan is ever overwritten), and adds that scan
    and nothing else; a deregistration leaves the scan without unspent and
    spent boxes, and every other scan with the boxes it had. *)
Theorem scan_ids_fresh db events :
  no_scans db -> registrations events + 1 < 32767 ->
  let s := (runs scan_step events (ScanStorage_new db)).2 in
  (forall request sc s', register s request = (Ok sc, s') ->
     0 < scan_id sc /\ get_scan s (scan_id sc) = None /\
     forall id, get_scan s' id = if decide (id = scan_id sc) then Some sc else get_scan s id) /\
  (forall id s', deregister s id = (Ok tt, s') ->
     get_scan s' id = None /\ get_unspent_boxes s' id = [] /\ get_spent_boxes s' id = [] /\
     forall id', id' <> id -> get_scan s' id' = get_scan s id' /\
       forall k b, get_box s k = Some b -> id' ∈ sb_scan_ids b ->
         exists b', get_box s' k = Some b' /\ id' ∈ sb_scan_ids b' /\ sb_spent b' = sb_spent b).
Proof.
  intros Hdb Hl s. destruct (runs_refine db events Hdb) as [_ Hr]. fold s in Hr.
  pose proof (runs_ids_below events Hl) as [Hn Hids]. set (a := (runs spec_step events spec_empty).2) in *.
  unfold get_scan. split.
  - intros request sc s' E. destruct (register_refines s a request Hr) as [E1 Hr'].
    rewrite E in E1, Hr'. cbn [fst snd] in E1, Hr'. rewrite (sr_scans _ _ Hr), (sr_scans _ _ Hr').
    unfold spec_register in E1 |- *. destruct (to_scan request (sp_next a)) as [sc'|e] eqn:Esc; [|done].
    injection E1 as ->. cbn [snd sp_scans].
    assert (scan_id sc' = sp_next a) as Hid.
    { unfold to_scan in Esc. destruct (_ >? _); [done|]. by injection Esc as <-. }
    rewrite Hid. split; [lia|]. split.
    + apply eq_None_not_Some. intros Hsome. specialize (Hids _ Hsome). lia.
    + intros id. case_decide as Hx; [by subst; rewrite lookup_insert_eq|by rewrite lookup_insert_ne].
  - intros id s' E. destruct (deregister_refines s a id Hr) as [E1 Hr'].
    rewrite E in E1, Hr'. cbn [fst snd] in E1, Hr'. unfold spec_deregister in E1, Hr'.
    destruct (decide (is_Some (sp_scans a !! id))) as [Hsome|]; [|done]. cbn [fst snd] in E1, Hr'.
    set (boxes := omap _ (sp_boxes a)) in *.
    assert (forall keep, (forall b, keep b = true -> id ∈ sb_scan_ids b) -> get_boxes keep s' = []) as Hnone.
    { intros keep Hkeep. apply Permutation_nil. symmetry. rewrite (get_boxes_refines _ _ keep Hr').
      cbn [sp_boxes]. destruct (filter _ _) as [|b l] eqn:Ef; [done|]. exfalso.
      assert (b ∈ filter (fun b => keep b = true) (map_to_list boxes).*2) as Hb by (rewrite Ef; by left).
      apply list_elem_of_filter in Hb as [Hk ([k b'] & -> & Hb%elem_of_map_to_list)%list_elem_of_fmap].
      cbn [snd] in *. apply Hkeep in Hk. revert Hb. unfold boxes. rewrite lookup_omap.
      intros (b0 & _ & Hb0)%bind_Some. case_decide as Hin; [|by injection Hb0 as ->].
      unfold untrack in Hb0. case_decide; [done|]. injection Hb0 as <-. cbn [set_scan_ids sb_scan_ids] in Hk.
      by apply list_elem_of_filter in Hk as [? _]. }
    rewrite (sr_scans _ _ Hr), (sr_scans _ _ Hr'). cbn [sp_scans].
    split; [apply lookup_delete_eq|]. split; [|split].
    + apply Hnone. intros b Hk. apply andb_true_iff in Hk as [_ Hk]. by apply bool_decide_eq_true in Hk.
    + apply Hnone. intros b Hk. apply andb_true_iff in Hk as [_ Hk]. by apply bool_decide_eq_true in Hk.
    + intros id' Hne. split; [by apply lookup_delete_ne|]. intros k b.
      rewrite (get_box_refines _ _ _ Hr), (get_box_refines _ _ _ Hr'). cbn [sp_boxes].
      intros Hb Hin. unfold boxes. rewrite lookup_omap, Hb. cbn [mbind option_bind].
      case_decide as Hid; [|by exists b]. unfold untrack.
      assert (id' ∈ retain_other id (sb_scan_ids b)) as Hin' by (by apply list_elem_of_filter).
      rewrite decide_False by (intros E0; rewrite E0 in Hin'; by apply not_elem_of_nil in Hin').
      by eexists.
Qed.
End ScanFacts.

(** ** Scans at concrete inputs

    Records encoded as one number instead of JSON, and the theorems about scans
    applied to a run over the in-memory storage. *)

Module ScanExample.
Import Mem.

(** ** An encoding of the records *)

Fixpoint predicate_tree (p : ScanningPredicate) : gen_tree (Z * Z * bytes) :=
  match p with
  | ContainsAsset a => GenLeaf (0, 0, a)
  | Equals r v => GenLeaf (1, r, v)
  | Contains r v => GenLeaf (2, r, v)
  | And args => GenNode 0 (predicate_tree <$> args)
  | Or args => GenNode 1 (predicate_tree <$> args)
  end.

Fixpoint tree_predicate (t : gen_tree (Z * Z * bytes)) : ScanningPredicate :=
  match t with
  | GenLeaf (0, _, a) => ContainsAsset a
  | GenLeaf (1, r, v) => Equals r v
  | GenLeaf (_, r, v) => Contains r v
  | GenNode O ts => And (tree_predicate <$> ts)
  | GenNode _ ts => Or (tree_predicate <$> ts)
  end.

Lemma predicate_tree_decode : forall p, tree_predicate (predicate_tree p) = p.
Proof.
  fix IH 1. intros [a|r v|r v|args|args]; cbn [predicate_tree tree_predicate]; try done; f_equal;
    induction args as [|p args IHargs]; cbn [fmap list_fmap]; f_equal; auto.
Qed.

#[export] Instance predicate_eq_dec : EqDecision ScanningPredicate.
Proof.
  intros p q. destruct (decide (predicate_tree p = predicate_tree q)) as [E|E].
  - left. by rewrite <- (predicate_tree_decode p), <- (predicate_tree_decode q), E.
  - right. by intros ->.
Defined.
#[export] Instance predicate_countable : Countable ScanningPredicate :=
  inj_countable' predicate_tree tree_predicate predicate_tree_decode.

Lemma wire_from_to_byte w : sw_from_byte (sw_to_byte w) = w.
Proof. by destruct w. Qed.

Definition scan_code (s : Scan) : Z * bytes * ScanningPredicate * Z * bool :=
  (scan_id s, scan_name s, tracking_rule s, sw_to_byte (wallet_interaction s), remove_offchain s).
Definition code_scan (c : Z * bytes * ScanningPredicate * Z * bool) : Scan :=
  let '(id, name, rule, w, r) := c in mkScan id name rule (sw_from_byte w) r.
Definition box_code (b : ScanBox) : bytes * list Z * bool * option bytes * option Z * Z * Z * bytes :=
  (sb_box_id b, sb_scan_ids b, sb_spent b, sb_spending_tx_id b, sb_spending_height b,
   sb_inclusion_height b, sb_confirmations_num b, sb_box_data b).
Definition code_box (c : bytes * list Z * bool * option bytes * option Z * Z * Z * bytes) : ScanBox :=
  let '(k, ids, spent, tx, h, ih, cn, d) := c in mkScanBox k ids spent tx h ih cn d.

(** One number of the record's code. *)
Definition of_bytes {A} `{Countable A} (bs : bytes) : option A :=
  match bs with [Zpos p] => decode p | _ => None end.

#[export] Instance toy_json : ScanJson := {
  scan_to_json s := Some [Zpos (encode (scan_code s))];
  scan_of_json bs := code_scan <$> of_bytes bs;
  scan_box_to_json b := Some [Zpos (encode (box_code b))];
  scan_box_of_json bs := code_box <$> of_bytes bs
}.

#[export] Instance toy_json_laws : ScanJsonLaws.
Proof.
  split.
  - intros s. eexists. split; [done|]. cbn [scan_of_json toy_json of_bytes]. rewrite decode_encode.
    destruct s. cbn. by rewrite wire_from_to_byte.
  - intros b. eexists. split; [done|]. cbn [scan_box_of_json toy_json of_bytes]. rewrite decode_encode.
    by destruct b.
Qed.

(** ** A run *)

Definition request : ScanRequest := mkScanRequest [65] (Or [ContainsAsset [1]; Equals 4 [2]]) None None.
Definition tracked : ScanBox := ScanBox_new [9] [1; 2] 10 0 [].
Definition history : list ScanEvent :=
  [SERegister request; SERegister request; SEAdd tracked; SEMark [9] [7] 11; SEDeregister 1; SERestart].

Lemma empty_no_scans : no_scans Mem.empty.
Proof. intros k. done. Qed.

Lemma scans_refine_witness :
  get_box (runs scan_step history (ScanStorage_new Mem.empty)).2 [9]
  = Some (mkScanBox [9] [2] true (Some [7]) (Some 11) 10 0 []).
Proof.
  destruct (scans_refine Mem.empty history empty_no_scans) as (_ & _ & Hb & _).
  rewrite Hb. vm_compute. reflexivity.
Defined.

Definition short : list ScanEvent := [SERegister request; SEAdd tracked].

Lemma scan_ids_fresh_witness :
  let s := (runs scan_step short (ScanStorage_new Mem.empty)).2 in
  get_scan s 2 = None /\ get_scan (register s request).2 2 = Some (mkScan 2 [65] (rq_tracking_rule request) SWShared true).
Proof.
  intros s. destruct (scan_ids_fresh Mem.empty short empty_no_scans ltac:(reflexivity)) as [Hreg _].
  fold s in Hreg. pose (sc := mkScan 2 [65] (rq_tracking_rule request) SWShared true).
  assert (ss_next_scan_id s = 2) as Hnext by (vm_compute; reflexivity).
  assert (register s request = (Ok sc, (register s request).2)) as E.
  { unfold register. rewrite Hnext. done. }
  destruct (Hreg request sc _ E) as (_ & Hnone & Hall).
  split; [exact Hnone|]. by rewrite Hall, decide_True.
Defined.

End ScanExample.
