(* ===== verification/Snapshots.v ===== *)
(** * UTXO set snapshots (crates/ergo-state/src/snapshots.rs)

    The list of available snapshots and its encoding, the plan of a snapshot
    download, and the database of manifests and chunks.  The clock is an
    argument; the size of an allocation is not modelled. *)

From S2P Require Export Utxo Vlq Float64.

Local Open Scope Z_scope.

Definition MAINNET_MANIFEST_DEPTH : Z := 14.
Definition MIN_SNAPSHOT_PEERS : Z := 2.
Definition CHUNKS_IN_PARALLEL_MIN : Z := 16.
Definition CHUNKS_PER_PEER : Z := 4.
Definition CHUNK_TIMEOUT_MULTIPLIER : Z := 4.

Definition DOWNLOADED_CHUNKS_PREFIX : bytes :=
  [0x8a; 0x7b; 0x3c; 0x5d; 0x2e; 0x1f; 0x00; 0x91; 0x82; 0x73; 0x64; 0x55; 0x46; 0x37; 0x28; 0x19;
   0x0a; 0xfb; 0xec; 0xdd; 0xce; 0xbf; 0xa0; 0x91; 0x82; 0x73; 0x64; 0x55].

(** ** The available snapshots *)

(** [available_manifests]: height to manifest identifier. *)
Abbreviation SnapshotsInfo := (gmap Z bytes).

Definition info_empty : SnapshotsInfo := ∅.
Definition info_is_empty (i : SnapshotsInfo) : bool := bool_decide (i = ∅).
Definition info_len (i : SnapshotsInfo) : nat := size i.
Definition with_manifest (i : SnapshotsInfo) (height : Z) (manifest_id : bytes) : SnapshotsInfo :=
  <[height := manifest_id]> i.
Definition info_get (i : SnapshotsInfo) (height : Z) : option bytes := i !! height.
Definition highest_height (i : SnapshotsInfo) : option Z :=
  match (map_to_list i).*1 with [] => None | h :: hs => Some (foldr Z.max h hs) end.

(** The entries sorted by height. *)
Definition by_height (a b : Z * bytes) : Prop := a.1 <= b.1.
#[export] Instance by_height_dec : RelDecision by_height := fun a b => Z_le_dec a.1 b.1.
Definition sorted_entries (i : SnapshotsInfo) : list (Z * bytes) := merge_sort by_height (map_to_list i).

Definition entry_bytes (e : Z * bytes) : bytes := be_bytes 4 e.1 ++ e.2.
Definition info_serialize (i : SnapshotsInfo) : bytes :=
  put_vlq (Z.of_nat (info_len i)) ++ concat (entry_bytes <$> sorted_entries i).

(** [count] entries; every one consumes 36 bytes of the data, so its length is
    enough fuel. *)
Fixpoint parse_entries (fuel : nat) (count : Z) (data : bytes) (acc : SnapshotsInfo)
    : result SnapshotsInfo StateError :=
  if count <=? 0 then Ok acc
  else if (length data <? 36)%nat then Err (Serialization "Truncated snapshots info")
  else
    match fuel with
    | O => Err (Serialization "Truncated snapshots info")
    | S fuel' =>
        let height := be_val (slice 0 4 data) in
        let manifest_id := slice 4 36 data in
        parse_entries fuel' (count - 1) (drop 36 data) (<[height := manifest_id]> acc)
    end.

Definition info_parse (data : bytes) : result SnapshotsInfo StateError :=
  match data with
  | [] => Ok info_empty
  | _ =>
      match vlq_decode data with
      | Err _ => Err (Serialization "Failed to decode count")
      | Ok (count, pos) => parse_entries (length data) count (drop pos data) ∅
      end
  end.

(** ** The download plan *)

Record DownloadPlan := mkDownloadPlan {
  created_time : Z;
  latest_update_time : Z;
  snapshot_height : Z;
  utxo_set_root_hash : bytes;
  utxo_set_tree_height : Z;
  expected_chunk_ids : list bytes;
  downloaded_chunk_ids : list bool;
  downloading_chunks : Z;
  next_chunk_index : nat
}.

Definition plan_new (now height : Z) (root_hash : bytes) (tree_height : Z) (ids : list bytes) : DownloadPlan :=
  mkDownloadPlan now now height root_hash tree_height ids (replicate (length ids) false) 0 0.

Definition update_time (now : Z) (p : DownloadPlan) : DownloadPlan :=
  mkDownloadPlan (created_time p) now (snapshot_height p) (utxo_set_root_hash p) (utxo_set_tree_height p)
    (expected_chunk_ids p) (downloaded_chunk_ids p) (downloading_chunks p) (next_chunk_index p).
Definition set_progress (p : DownloadPlan) (downloaded : list bool) (downloading : Z) (next : nat) : DownloadPlan :=
  mkDownloadPlan (created_time p) (latest_update_time p) (snapshot_height p) (utxo_set_root_hash p)
    (utxo_set_tree_height p) (expected_chunk_ids p) downloaded downloading next.

Definition plan_id (p : DownloadPlan) : bytes := utxo_set_root_hash p.
Definition total_chunks (p : DownloadPlan) : nat := length (expected_chunk_ids p).
Definition downloaded_count (p : DownloadPlan) : nat :=
  length (filter (fun d => d = true) (downloaded_chunk_ids p)).
Definition is_fully_downloaded (p : DownloadPlan) : bool :=
  (downloading_chunks p =? 0) && forallb (fun d => d) (downloaded_chunk_ids p).
Definition progress (p : DownloadPlan) : f64 :=
  match expected_chunk_ids p with
  | [] => f64_one
  | _ => f64_div (f64_of_Z (Z.of_nat (downloaded_count p))) (f64_of_Z (Z.of_nat (total_chunks p)))
  end.

(** The loop over the chunks from the next index: what is left of the plan, the
    identifiers collected so far, the number wanted. *)
Fixpoint collect_chunks (ids : list bytes) (downloaded : list bool) (how_many : nat)
    (downloading : Z) (next : nat) : list bytes * Z * nat :=
  match how_many, ids, downloaded with
  | S how_many', id :: ids', d :: downloaded' =>
      if d then collect_chunks ids' downloaded' how_many downloading (S next)
      else
        let '(result, downloading', next') :=
          collect_chunks ids' downloaded' how_many' (u64 (downloading + 1)) (S next) in
        (id :: result, downloading', next')
  | _, _, _ => ([], downloading, next)
  end.

Definition get_chunk_ids_to_download (now : Z) (p : DownloadPlan) (how_many : nat)
    : list bytes * DownloadPlan :=
  let '(result, downloading, next) :=
    collect_chunks (drop (next_chunk_index p) (expected_chunk_ids p))
      (drop (next_chunk_index p) (downloaded_chunk_ids p)) how_many (downloading_chunks p)
      (next_chunk_index p) in
  let p := set_progress p (downloaded_chunk_ids p) downloading next in
  (result, if decide (result = []) then p else update_time now p).

(** [iter().position()]: the first index of a chunk. *)
Definition position (id : bytes) (ids : list bytes) : option nat := fst <$> list_find (fun i => i = id) ids.

Definition decrement (n : Z) : Z := if n >? 0 then n - 1 else n.

Definition mark_chunk_downloaded (now : Z) (p : DownloadPlan) (id : bytes) : bool * DownloadPlan :=
  match position id (expected_chunk_ids p) with
  | None => (false, p)
  | Some idx =>
      if nth idx (downloaded_chunk_ids p) true then (false, p)
      else (true, update_time now (set_progress p (<[idx := true]> (downloaded_chunk_ids p))
                    (decrement (downloading_chunks p)) (next_chunk_index p)))
  end.

Definition mark_chunk_failed (now : Z) (p : DownloadPlan) (id : bytes) : DownloadPlan :=
  match position id (expected_chunk_ids p) with
  | None => p
  | Some idx =>
      update_time now (set_progress p (downloaded_chunk_ids p) (decrement (downloading_chunks p))
        (if (idx <? next_chunk_index p)%nat then idx else next_chunk_index p))
  end.

Definition pending_chunk_ids (p : DownloadPlan) : list bytes :=
  (filter (fun '(_, downloaded) => downloaded = false)
    (zip (expected_chunk_ids p) (downloaded_chunk_ids p))).*1.

(** ** The database *)

Section SnapshotsDb.
Context {DB : Type} `{Storage DB}.

Record SnapshotsDb := mkSnapshotsDb { sd_storage : DB; cached_info : option SnapshotsInfo }.

Definition SNAPSHOTS_INFO_KEY : bytes := str_bytes "snapshots_info".
Definition MANIFEST_PREFIX : bytes := str_bytes "manifest:".

Definition SnapshotsDb_new (db : DB) : SnapshotsDb := mkSnapshotsDb db None.
Definition sd_set_storage (s : SnapshotsDb) (db : DB) : SnapshotsDb := mkSnapshotsDb db (cached_info s).

Definition manifest_key (id : bytes) : bytes := MANIFEST_PREFIX ++ id.
Definition chunk_key (index : Z) : bytes := DOWNLOADED_CHUNKS_PREFIX ++ be_bytes 4 (u32 index).

Definition read_snapshots_info (s : SnapshotsDb) : result SnapshotsInfo StateError * SnapshotsDb :=
  match cached_info s with
  | Some info => (Ok info, s)
  | None =>
      match match st_get (sd_storage s) UtxoSnapshots SNAPSHOTS_INFO_KEY with
            | Some data => info_parse data
            | None => Ok info_empty
            end with
      | Err e => (Err e, s)
      | Ok info => (Ok info, mkSnapshotsDb (sd_storage s) (Some info))
      end
  end.

Definition write_snapshots_info (s : SnapshotsDb) (info : SnapshotsInfo) : SnapshotsDb :=
  mkSnapshotsDb (st_put (sd_storage s) UtxoSnapshots SNAPSHOTS_INFO_KEY (info_serialize info)) (Some info).

Definition read_manifest (s : SnapshotsDb) (id : bytes) : option bytes :=
  st_get (sd_storage s) UtxoSnapshots (manifest_key id).
Definition write_manifest (s : SnapshotsDb) (id data : bytes) : SnapshotsDb :=
  sd_set_storage s (st_put (sd_storage s) UtxoSnapshots (manifest_key id) data).
Definition delete_manifest (s : SnapshotsDb) (id : bytes) : SnapshotsDb :=
  sd_set_storage s (st_delete (sd_storage s) UtxoSnapshots (manifest_key id)).

Definition read_chunk (s : SnapshotsDb) (index : Z) : option bytes :=
  st_get (sd_storage s) UtxoSnapshots (chunk_key index).
Definition write_chunk (s : SnapshotsDb) (index : Z) (data : bytes) : SnapshotsDb :=
  sd_set_storage s (st_put (sd_storage s) UtxoSnapshots (chunk_key index) data).
Definition clear_chunks (s : SnapshotsDb) (total : Z) : SnapshotsDb :=
  foldl (fun s i => sd_set_storage s (st_delete (sd_storage s) UtxoSnapshots (chunk_key i)))
    s (seqZ 0 total).
Definition chunks_iter (s : SnapshotsDb) (total : Z) : list (Z * bytes) :=
  omap (fun i => (fun data => (i, data)) <$> read_chunk s i) (seqZ 0 total).

Definition add_snapshot (s : SnapshotsDb) (height : Z) (id data : bytes) : result unit StateError * SnapshotsDb :=
  let s := write_manifest s id data in
  match read_snapshots_info s with
  | (Err e, s) => (Err e, s)
  | (Ok info, s) => (Ok tt, write_snapshots_info s (with_manifest info height id))
  end.

Definition prune_snapshots (s : SnapshotsDb) (keep_count : nat) : result unit StateError * SnapshotsDb :=
  match read_snapshots_info s with
  | (Err e, s) => (Err e, s)
  | (Ok info, s) =>
      if (info_len info <=? keep_count)%nat then (Ok tt, s)
      else
        let entries := sorted_entries info in
        let to_remove := (length entries - keep_count)%nat in
        let s := foldl (fun s e => delete_manifest s e.2) s (take to_remove entries) in
        let new_manifests := foldl (fun acc e => <[e.1 := e.2]> acc) ∅ (drop to_remove entries) in
        (Ok tt, write_snapshots_info s new_manifests)
  end.

End SnapshotsDb.
#[global] Arguments SnapshotsDb DB : clear implicits.
