(* ===== verification/SnapshotsSpec.v ===== *)
(** * Properties of snapshots

    The list of snapshots survives its encoding; the database refines maps of
    snapshots, manifests and chunks; a listed snapshot can be read; what a
    failed chunk does to a download plan. *)

From S2P Require Export Snapshots.

Local Open Scope Z_scope.

(** ** The list of snapshots *)

Definition info_ok (i : SnapshotsInfo) : Prop :=
  Z.of_nat (size i) < 2 ^ 64 /\
  forall h id, i !! h = Some id -> in_u 32 h /\ length id = 32%nat.

Lemma by_height_total : Total by_height.
Proof. intros a b. unfold by_height. lia. Qed.

Lemma sorted_entries_perm i : sorted_entries i ≡ₚ map_to_list i.
Proof. apply merge_sort_Permutation. Qed.

Lemma sorted_entries_sorted i : StronglySorted by_height (sorted_entries i).
Proof.
  apply StronglySorted_merge_sort; [|apply by_height_total].
  intros a b c. unfold by_height. lia.
Qed.

Lemma entry_bytes_length e : length e.2 = 32%nat -> length (entry_bytes e) = 36%nat.
Proof. intros Hl. unfold entry_bytes. by rewrite length_app, be_bytes_length, Hl. Qed.

Lemma parse_entries_spec l rest fuel acc :
  Forall (fun e => in_u 32 e.1 /\ length e.2 = 32%nat) l -> (length l <= fuel)%nat ->
  parse_entries fuel (Z.of_nat (length l)) (concat (entry_bytes <$> l) ++ rest) acc
  = Ok (foldl (fun acc e => <[e.1 := e.2]> acc) acc l).
Proof.
  revert fuel acc. induction l as [|[h id] l IH]; intros fuel acc Hl Hf; [by destruct fuel|].
  inversion Hl as [|?? [Hh Hid] Hl']; subst. cbn [fst snd] in *. destruct fuel as [|fuel]; [cbn in Hf; lia|].
  cbn [fmap list_fmap concat foldl fst snd]. rewrite <- app_assoc. cbn [parse_entries].
  destruct (Z.leb_spec (Z.of_nat (length ((h, id) :: l))) 0); [cbn in *; lia|].
  pose proof (entry_bytes_length (h, id) Hid) as Hlen.
  destruct (Nat.ltb_spec (length (entry_bytes (h, id) ++ concat (entry_bytes <$> l) ++ rest)) 36) as [Hlt|_];
    [rewrite length_app in Hlt; lia|].
  rewrite drop_app_length' by done.
  replace (Z.of_nat (length ((h, id) :: l)) - 1) with (Z.of_nat (length l)) by (cbn [length]; lia).
  assert (be_val (slice 0 4 (entry_bytes (h, id) ++ concat (entry_bytes <$> l) ++ rest)) = h) as ->.
  { unfold entry_bytes at 1. rewrite <- app_assoc. transitivity (be_val (be_bytes 4 h)).
    - done.
    - apply be_val_bytes. exact Hh. }
  assert (slice 4 36 (entry_bytes (h, id) ++ concat (entry_bytes <$> l) ++ rest) = id) as ->.
  { unfold entry_bytes at 1. rewrite <- app_assoc. cbn [fst snd].
    apply slice_mid; [apply be_bytes_length|lia]. }
  apply IH; [done|cbn [length] in Hf; lia].
Qed.

Lemma entries_length l : (length l <= length (concat (entry_bytes <$> l)))%nat.
Proof.
  induction l as [|e l IH]; [done|]. cbn [fmap list_fmap concat length].
  rewrite length_app. unfold entry_bytes at 1. rewrite length_app, be_bytes_length. lia.
Qed.

(** An encoded list is read back, whatever bytes follow it. *)
Lemma info_roundtrip i rest : info_ok i -> info_parse (info_serialize i ++ rest) = Ok i.
Proof.
  intros [Hsize Hi]. unfold info_serialize. rewrite <- app_assoc. unfold info_len.
  rewrite put_vlq_encode by (unfold in_u; lia).
  assert (Z.of_nat (size i) = Z.of_nat (length (sorted_entries i))) as Hlen
    by (by rewrite (sorted_entries_perm i), length_map_to_list).
  assert (vlq_encode (Z.of_nat (size i)) <> []) as Hne.
  { unfold vlq_encode. cbn [vlq_bytes]. by destruct (_ <? 128). }
  unfold info_parse. destruct (vlq_encode (Z.of_nat (size i)) ++ _) as [|b bs] eqn:E.
  { apply app_eq_nil in E as [E _]. done. }
  rewrite <- E. rewrite vlq_decode_encode by lia. rewrite drop_app_length, Hlen.
  rewrite parse_entries_spec.
  - f_equal. apply fold_insert_entries, sorted_entries_perm.
  - apply Forall_forall. intros [h id] He. rewrite sorted_entries_perm, elem_of_map_to_list in He. by apply Hi.
  - rewrite !length_app. pose proof (entries_length (sorted_entries i)) as Hc. lia.
Qed.

(** ** The specification of the database *)

Record SnapshotSpec := mkSnapshotSpec {
  sn_info : gmap Z bytes; sn_manifests : gmap bytes bytes; sn_chunks : gmap Z bytes }.

Definition snapshots_empty : SnapshotSpec := mkSnapshotSpec ∅ ∅ ∅.

Definition sn_add (a : SnapshotSpec) (height : Z) (id data : bytes) : SnapshotSpec :=
  mkSnapshotSpec (<[height := id]> (sn_info a)) (<[id := data]> (sn_manifests a)) (sn_chunks a).

(** The entries a pruning removes and keeps. *)
Definition removed (i : gmap Z bytes) (keep : nat) : list (Z * bytes) :=
  take (size i - keep) (sorted_entries i).
Definition kept (i : gmap Z bytes) (keep : nat) : list (Z * bytes) :=
  drop (size i - keep) (sorted_entries i).

Definition sn_prune (a : SnapshotSpec) (keep : nat) : SnapshotSpec :=
  mkSnapshotSpec (list_to_map (kept (sn_info a) keep))
    (foldl (fun m e => delete e.2 m) (sn_manifests a) (removed (sn_info a) keep)) (sn_chunks a).

Definition sn_write_chunk (a : SnapshotSpec) (index : Z) (data : bytes) : SnapshotSpec :=
  mkSnapshotSpec (sn_info a) (sn_manifests a) (<[u32 index := data]> (sn_chunks a)).
Definition sn_clear (a : SnapshotSpec) (total : Z) : SnapshotSpec :=
  mkSnapshotSpec (sn_info a) (sn_manifests a)
    (foldl (fun m i => delete (u32 i) m) (sn_chunks a) (seqZ 0 total)).

Inductive SnapshotEvent :=
  | SnAdd (height : Z) (id data : bytes)
  | SnPrune (keep : nat)
  | SnWriteChunk (index : Z) (data : bytes)
  | SnClear (total : Z)
  | SnRead
  | SnRestart.

(** Heights are [u32] and identifiers have 32 bytes. *)
Definition event_typed (ev : SnapshotEvent) : Prop :=
  match ev with SnAdd height id _ => in_u 32 height /\ length id = 32%nat | _ => True end.

Definition sn_step (a : SnapshotSpec) (ev : SnapshotEvent) : SnapshotSpec :=
  match ev with
  | SnAdd height id data => sn_add a height id data
  | SnPrune keep => sn_prune a keep
  | SnWriteChunk index data => sn_write_chunk a index data
  | SnClear total => sn_clear a total
  | SnRead | SnRestart => a
  end.

(** Fewer than [2^32] heights. *)
Lemma heights_bound (i : gmap Z bytes) :
  (forall h id, i !! h = Some id -> in_u 32 h /\ length id = 32%nat) -> info_ok i.
Proof.
  intros Hi. split; [|done].
  assert (length (map_to_list i).*1 <= length (seqZ 0 (2 ^ 32)))%nat as Hle.
  { apply submseteq_length, NoDup_submseteq; [apply NoDup_fst_map_to_list|].
    intros h ([h' id] & -> & He%elem_of_map_to_list)%list_elem_of_fmap.
    apply elem_of_seqZ. destruct (Hi _ _ He) as [Hh _]. unfold in_u in Hh. cbn [fst]. lia. }
  rewrite length_fmap, length_map_to_list, length_seqZ in Hle. lia.
Qed.

Lemma kept_small (a : SnapshotSpec) keep : (size (sn_info a) <= keep)%nat -> sn_prune a keep = a.
Proof.
  intros Hs. unfold sn_prune, removed, kept. replace (size (sn_info a) - keep)%nat with 0%nat by lia.
  rewrite drop_0. cbn [take foldl]. destruct a as [i ms cs]. f_equal.
  rewrite (list_to_map_proper _ (map_to_list i)); [apply list_to_map_to_list| |apply sorted_entries_perm].
  rewrite sorted_entries_perm. apply NoDup_fst_map_to_list.
Qed.

Lemma sorted_entries_NoDup (i : gmap Z bytes) : NoDup (sorted_entries i).*1.
Proof. rewrite sorted_entries_perm. apply NoDup_fst_map_to_list. Qed.

Lemma kept_NoDup (i : gmap Z bytes) keep : NoDup (kept i keep).*1.
Proof.
  unfold kept. rewrite fmap_drop. apply (sublist_NoDup _ (sorted_entries i).*1); [|apply sublist_drop].
  apply sorted_entries_NoDup.
Qed.

Lemma kept_lookup (i : gmap Z bytes) keep h id :
  list_to_map (M := gmap Z bytes) (kept i keep) !! h = Some id -> i !! h = Some id.
Proof.
  intros He%elem_of_list_to_map_2. unfold kept in He.
  apply elem_of_map_to_list. rewrite <- sorted_entries_perm.
  rewrite <- (take_drop (size i - keep) (sorted_entries i)). apply elem_of_app. by right.
Qed.

Section DbFacts.
Context {DB : Type} `{StorageLaws DB}.

Record snapshots_refine_rel (s : SnapshotsDb DB) (a : SnapshotSpec) : Prop := {
  rr_typed h id : sn_info a !! h = Some id -> in_u 32 h /\ length id = 32%nat;
  rr_info : match st_get (sd_storage s) UtxoSnapshots SNAPSHOTS_INFO_KEY with
            | Some data => info_parse data = Ok (sn_info a)
            | None => sn_info a = ∅
            end;
  rr_cached i : cached_info s = Some i -> i = sn_info a;
  rr_manifests id : st_get (sd_storage s) UtxoSnapshots (manifest_key id) = sn_manifests a !! id;
  rr_chunks n : st_get (sd_storage s) UtxoSnapshots (chunk_key n) = sn_chunks a !! u32 n
}.

Lemma chunk_key_inj n k : chunk_key n = chunk_key k <-> u32 n = u32 k.
Proof.
  unfold chunk_key. split; [|by intros ->]. intros E. apply app_inv_head in E.
  pose proof (wrap_range 32 ltac:(lia) n). pose proof (wrap_range 32 ltac:(lia) k).
  apply be_bytes_inj in E; [done|cbn; unfold in_u in *; lia|cbn; unfold in_u in *; lia].
Qed.

Lemma manifest_key_inj i j : manifest_key i = manifest_key j <-> i = j.
Proof. split; [apply app_inv_head|by intros ->]. Qed.

Lemma keys_apart id n :
  manifest_key id <> SNAPSHOTS_INFO_KEY /\ chunk_key n <> SNAPSHOTS_INFO_KEY /\ manifest_key id <> chunk_key n.
Proof. by repeat split. Qed.

Lemma read_info_refines s a :
  snapshots_refine_rel s a ->
  (read_snapshots_info s).1 = Ok (sn_info a) /\ snapshots_refine_rel (read_snapshots_info s).2 a /\
  sd_storage (read_snapshots_info s).2 = sd_storage s.
Proof.
  intros Hr. pose proof Hr as [Ht Hi Hc Hm Hk]. unfold read_snapshots_info.
  destruct (cached_info s) as [i|] eqn:Ec; [by rewrite (Hc i)|].
  destruct (st_get _ _ _) as [data|] eqn:Ed.
  - rewrite Hi. split; [done|]. split; [|done]. constructor; cbn [fst snd sd_storage cached_info]; try done.
    + by rewrite Ed.
    + by intros ? [= <-].
  - rewrite Hi. split; [done|]. split; [|done]. constructor; cbn [fst snd sd_storage cached_info]; try done.
    + by rewrite Ed.
    + by intros ? [= <-].
Qed.

Lemma write_info_refines s a i :
  snapshots_refine_rel s a -> (forall h id, i !! h = Some id -> in_u 32 h /\ length id = 32%nat) ->
  snapshots_refine_rel (write_snapshots_info s i) (mkSnapshotSpec i (sn_manifests a) (sn_chunks a)).
Proof.
  intros [Ht Hi Hc Hm Hk] Hty. constructor; cbn [write_snapshots_info sd_storage cached_info sn_info sn_manifests sn_chunks].
  - done.
  - rewrite st_get_put, decide_True by done.
    rewrite <- (app_nil_r (info_serialize i)). by apply info_roundtrip, heights_bound.
  - by intros ? [= <-].
  - intros id. rewrite st_get_put_other by (right; apply not_eq_sym, (keys_apart id 0)). apply Hm.
  - intros n. rewrite st_get_put_other by (right; apply not_eq_sym, (keys_apart [] n)). apply Hk.
Qed.

Lemma write_manifest_refines s a id data :
  snapshots_refine_rel s a ->
  snapshots_refine_rel (write_manifest s id data)
    (mkSnapshotSpec (sn_info a) (<[id := data]> (sn_manifests a)) (sn_chunks a)).
Proof.
  intros [Ht Hi Hc Hm Hk]. constructor; cbn [write_manifest sd_set_storage sd_storage cached_info sn_info sn_manifests sn_chunks].
  - done.
  - rewrite st_get_put_other by (right; apply (keys_apart id 0)). done.
  - done.
  - intros id'. rewrite st_get_put. destruct (decide (id = id')) as [<-|Hne].
    + by rewrite decide_True, lookup_insert_eq.
    + rewrite decide_False by (rewrite manifest_key_inj; naive_solver). by rewrite lookup_insert_ne.
  - intros n. rewrite st_get_put_other by (right; apply (keys_apart id n)). apply Hk.
Qed.

Lemma delete_manifest_refines s a id :
  snapshots_refine_rel s a ->
  snapshots_refine_rel (delete_manifest s id)
    (mkSnapshotSpec (sn_info a) (delete id (sn_manifests a)) (sn_chunks a)).
Proof.
  intros [Ht Hi Hc Hm Hk]. constructor; cbn [delete_manifest sd_set_storage sd_storage cached_info sn_info sn_manifests sn_chunks].
  - done.
  - rewrite st_get_delete, decide_False by (intros [_ E]; by apply (keys_apart id 0)). done.
  - done.
  - intros id'. rewrite st_get_delete. destruct (decide (id = id')) as [<-|Hne].
    + by rewrite decide_True, lookup_delete_eq.
    + rewrite decide_False by (rewrite manifest_key_inj; naive_solver). by rewrite lookup_delete_ne.
  - intros n. rewrite st_get_delete, decide_False by (intros [_ E]; by apply (keys_apart id n)). apply Hk.
Qed.

(** One chunk is written or deleted. *)
Lemma chunk_refines s a n db v :
  snapshots_refine_rel s a ->
  (forall k, st_get db UtxoSnapshots k
     = if decide (k = chunk_key n) then v else st_get (sd_storage s) UtxoSnapshots k) ->
  snapshots_refine_rel (sd_set_storage s db)
    (mkSnapshotSpec (sn_info a) (sn_manifests a) (partial_alter (fun _ => v) (u32 n) (sn_chunks a))).
Proof.
  intros [Ht Hi Hc Hm Hk] Hdb. constructor; cbn [sd_set_storage sd_storage cached_info sn_info sn_manifests sn_chunks].
  - done.
  - rewrite Hdb, decide_False by (apply not_eq_sym, (keys_apart [] n)). done.
  - done.
  - intros id. rewrite Hdb, decide_False by apply (keys_apart id n). apply Hm.
  - intros k. rewrite Hdb. case_decide as E.
    + apply chunk_key_inj in E as ->. by rewrite lookup_partial_alter_eq.
    + rewrite lookup_partial_alter_ne; [apply Hk|]. intros E'. by apply E, chunk_key_inj.
Qed.

Lemma delete_all_refines s a (es : list (Z * bytes)) :
  snapshots_refine_rel s a ->
  snapshots_refine_rel (foldl (fun s e => delete_manifest s e.2) s es)
    (mkSnapshotSpec (sn_info a) (foldl (fun m e => delete e.2 m) (sn_manifests a) es) (sn_chunks a)).
Proof.
  revert s a. induction es as [|e es IH]; intros s a Hr; [by destruct a|]. cbn [foldl].
  exact (IH _ _ (delete_manifest_refines s a e.2 Hr)).
Qed.

Lemma add_refines s a height id data :
  in_u 32 height -> length id = 32%nat -> snapshots_refine_rel s a ->
  (add_snapshot s height id data).1 = Ok tt /\
  snapshots_refine_rel (add_snapshot s height id data).2 (sn_add a height id data).
Proof.
  intros Hh Hid Hr. unfold add_snapshot. apply (write_manifest_refines s a id data) in Hr.
  destruct (read_info_refines _ _ Hr) as (E & Hr' & _).
  destruct (read_snapshots_info _) as [r s']. cbn [fst snd sn_info] in *. subst r. split; [done|].
  apply (write_info_refines s' _ (with_manifest (sn_info a) height id) Hr').
  intros h i. unfold with_manifest. rewrite lookup_insert_Some. intros [[<- <-]|[_ Hi]]; [done|].
  apply (rr_typed _ _ Hr h i Hi).
Qed.

Lemma prune_refines s a keep :
  snapshots_refine_rel s a ->
  (prune_snapshots s keep).1 = Ok tt /\ snapshots_refine_rel (prune_snapshots s keep).2 (sn_prune a keep).
Proof.
  intros Hr. unfold prune_snapshots. destruct (read_info_refines _ _ Hr) as (E & Hr' & _).
  destruct (read_snapshots_info s) as [r s']. cbn [fst snd] in *. subst r. unfold info_len.
  destruct (Nat.leb_spec (size (sn_info a)) keep) as [Hle|Hgt]; [by rewrite kept_small|].
  split; [done|]. cbn [snd].
  assert (length (sorted_entries (sn_info a)) = size (sn_info a)) as ->
    by (by rewrite sorted_entries_perm, length_map_to_list).
  fold (removed (sn_info a) keep) (kept (sn_info a) keep).
  apply (delete_all_refines _ _ (removed (sn_info a) keep)) in Hr'.
  assert (foldl (fun acc e => <[e.1:=e.2]> acc) ∅ (kept (sn_info a) keep)
    = list_to_map (M := gmap Z bytes) (kept (sn_info a) keep)) as ->.
  { apply fold_insert_entries. by rewrite map_to_list_to_map by apply kept_NoDup. }
  apply (write_info_refines _ _ _ Hr'). intros h id Hk%kept_lookup. by apply (rr_typed _ _ Hr).
Qed.

Lemma clear_refines s a total :
  snapshots_refine_rel s a -> snapshots_refine_rel (clear_chunks s total) (sn_clear a total).
Proof.
  unfold clear_chunks, sn_clear. revert s a. induction (seqZ 0 total) as [|n l IH]; intros s a Hr; [by destruct a|].
  cbn [foldl]. assert (snapshots_refine_rel
    (sd_set_storage s (st_delete (sd_storage s) UtxoSnapshots (chunk_key n)))
    (mkSnapshotSpec (sn_info a) (sn_manifests a) (delete (u32 n) (sn_chunks a)))) as Hr'.
  { apply (chunk_refines s a n _ None Hr). intros k. rewrite st_get_delete. repeat case_decide; naive_solver. }
  exact (IH _ _ Hr').
Qed.

Definition snap_step (s : SnapshotsDb DB) (ev : SnapshotEvent) : SnapshotsDb DB :=
  match ev with
  | SnAdd height id data => (add_snapshot s height id data).2
  | SnPrune keep => (prune_snapshots s keep).2
  | SnWriteChunk index data => write_chunk s index data
  | SnClear total => clear_chunks s total
  | SnRead => (read_snapshots_info s).2
  | SnRestart => SnapshotsDb_new (sd_storage s)
  end.

Lemma snap_step_refines s a ev :
  event_typed ev -> snapshots_refine_rel s a -> snapshots_refine_rel (snap_step s ev) (sn_step a ev).
Proof.
  intros Hty Hr. destruct ev as [h id d|keep|n d|total| |]; cbn [snap_step sn_step].
  - destruct Hty. by apply add_refines.
  - by apply prune_refines.
  - apply (chunk_refines s a n _ (Some d) Hr). intros k. rewrite st_get_put. repeat case_decide; naive_solver.
  - by apply clear_refines.
  - by apply read_info_refines.
  - destruct Hr as [Ht Hi Hc Hm Hk]. by constructor.
Qed.

(** A storage without snapshots. *)
Definition no_snapshots (db : DB) : Prop := forall k, st_get db UtxoSnapshots k = None.

Lemma snap_run_refines db events :
  no_snapshots db -> Forall event_typed events ->
  snapshots_refine_rel (foldl snap_step (SnapshotsDb_new db) events) (foldl sn_step snapshots_empty events).
Proof.
  intros Hdb Hty. assert (snapshots_refine_rel (SnapshotsDb_new db) snapshots_empty) as Hr.
  { constructor; cbn [SnapshotsDb_new sd_storage cached_info snapshots_empty sn_info sn_manifests sn_chunks].
    - done.
    - by rewrite Hdb.
    - done.
    - intros id. by rewrite Hdb.
    - intros n. by rewrite Hdb. }
  revert Hr. generalize (SnapshotsDb_new db) snapshots_empty.
  induction Hty as [|ev events Hev _ IH]; intros s a Hr; [done|]. cbn [foldl].
  by apply IH, snap_step_refines.
Qed.

(** ** Listed snapshots *)

(** Every listed snapshot has its manifest, and no manifest is listed at two
    heights. *)
Definition listed_ok (where_ : bytes -> Z) (a : SnapshotSpec) : Prop :=
  forall h id, sn_info a !! h = Some id -> h = where_ id /\ is_Some (sn_manifests a !! id).

Lemma delete_all_lookup (m : gmap bytes bytes) (es : list (Z * bytes)) id :
  id ∉ es.*2 -> foldl (fun m e => delete e.2 m) m es !! id = m !! id.
Proof.
  revert m. induction es as [|e es IH]; intros m Hni; [done|]. cbn [fmap list_fmap] in Hni.
  apply not_elem_of_cons in Hni as [Hne Hni]. cbn [foldl]. rewrite IH by done. by rewrite lookup_delete_ne.
Qed.

Lemma removed_not_kept (i : gmap Z bytes) keep h id :
  (h, id) ∈ removed i keep -> (h, id) ∉ kept i keep.
Proof.
  unfold removed, kept. intros Ht Hd.
  assert (NoDup (sorted_entries i)) as Hnd by (rewrite sorted_entries_perm; apply NoDup_map_to_list).
  rewrite <- (take_drop (size i - keep) (sorted_entries i)) in Hnd.
  apply NoDup_app in Hnd as (_ & Hx & _). by apply (Hx (h, id)).
Qed.

Lemma listed_step where_ a ev :
  (forall h id d, ev = SnAdd h id d -> h = where_ id) -> listed_ok where_ a -> listed_ok where_ (sn_step a ev).
Proof.
  intros Hw Ha. destruct ev as [h id d|keep|n d|total| |]; cbn [sn_step]; try exact Ha.
  - intros h' id'. cbn [sn_add sn_info sn_manifests]. rewrite lookup_insert_Some.
    intros [[<- <-]|[Hne Hi]]; [split; [by apply (Hw h id d)|by rewrite lookup_insert_eq]|].
    destruct (Ha h' id' Hi) as [-> Hm]. split; [done|]. apply lookup_insert_is_Some'. by right.
  - intros h id Hk. cbn [sn_prune sn_info sn_manifests] in *. pose proof (kept_lookup _ _ _ _ Hk) as Hi.
    destruct (Ha h id Hi) as [Hwh Hm]. split; [done|]. rewrite delete_all_lookup; [done|].
    intros ([h' id'] & E & Hrem)%list_elem_of_fmap. cbn [snd] in E. subst id'.
    pose proof Hrem as Hin. unfold removed in Hin.
    assert ((h', id) ∈ sorted_entries (sn_info a)) as Hs.
    { rewrite <- (take_drop (size (sn_info a) - keep) (sorted_entries (sn_info a))). apply elem_of_app. by left. }
    rewrite sorted_entries_perm, elem_of_map_to_list in Hs. destruct (Ha h' id Hs) as [Hwh' _].
    assert (h' = h) as -> by congruence. apply elem_of_list_to_map_2 in Hk.
    by apply (removed_not_kept _ _ _ _ Hrem).
Qed.

(** C34: from a storage without snapshots, after any additions, prunings, chunk
    writes, clearings, reads and restarts: the list of snapshots, the manifests
    and the chunks read are those of three maps in memory; reading the list
    never fails; and while no manifest was added at two heights every listed
    snapshot has its manifest. *)
Theorem snapshots_refine db events :
  no_snapshots db -> Forall event_typed events ->
  let s := foldl snap_step (SnapshotsDb_new db) events in
  let a := foldl sn_step snapshots_empty events in
  (read_snapshots_info s).1 = Ok (sn_info a) /\
  (forall id, read_manifest s id = sn_manifests a !! id) /\
  (forall n, read_chunk s n = sn_chunks a !! u32 n) /\
  (forall where_, (forall h id d, SnAdd h id d ∈ events -> h = where_ id) ->
     forall h id, sn_info a !! h = Some id -> is_Some (read_manifest s id)).
Proof.
  intros Hdb Hty s a. pose proof (snap_run_refines db events Hdb Hty) as Hr. fold s a in Hr.
  split; [by apply read_info_refines|]. split; [apply (rr_manifests _ _ Hr)|].
  split; [apply (rr_chunks _ _ Hr)|]. intros where_ Hw h id Hi.
  unfold read_manifest. rewrite (rr_manifests _ _ Hr).
  assert (forall b, listed_ok where_ b -> listed_ok where_ (foldl sn_step b events)) as Hl.
  { clear -Hw. induction events as [|ev events IH]; intros b Hb; [done|]. cbn [foldl].
    apply IH; [intros h id d Hin; apply (Hw h id d); by right|].
    apply listed_step; [|done]. intros h id d ->. apply (Hw h id d). by left. }
  by apply (Hl snapshots_empty ltac:(done) h id).
Qed.

(** a pruning keeps as many of the listed snapshots as it is told to, the
    most recent ones, and deletes the manifests of the others. *)
Theorem pruning_keeps_newest s a keep :
  snapshots_refine_rel s a ->
  let s' := (prune_snapshots s keep).2 in
  exists info', (read_snapshots_info s').1 = Ok info' /\ size info' = (size (sn_info a) `min` keep)%nat /\
    (forall h id, info' !! h = Some id -> sn_info a !! h = Some id) /\
    (forall h h' id id', info' !! h = Some id -> sn_info a !! h' = Some id' -> info' !! h' = None ->
       h' < h /\ read_manifest s' id' = None).
Proof.
  intros Hr s'. destruct (prune_refines s a keep Hr) as [_ Hr']. fold s' in Hr'.
  exists (list_to_map (kept (sn_info a) keep)). split; [by apply (read_info_refines _ _ Hr')|].
  assert (length (sorted_entries (sn_info a)) = size (sn_info a)) as Hlen
    by (by rewrite sorted_entries_perm, length_map_to_list).
  pose proof (kept_NoDup (sn_info a) keep) as Hndk.
  split; [|split].
  - rewrite map_size_list_to_map by done. unfold kept. rewrite length_drop, Hlen. lia.
  - intros h id. apply kept_lookup.
  - intros h h' id id' Hk Hi Hn. apply elem_of_list_to_map_2 in Hk.
    assert ((h', id') ∈ removed (sn_info a) keep) as Hrem.
    { apply elem_of_map_to_list in Hi. rewrite <- sorted_entries_perm in Hi.
      rewrite <- (take_drop (size (sn_info a) - keep) (sorted_entries (sn_info a))) in Hi.
      apply elem_of_app in Hi as [Hi|Hi]; [done|]. exfalso.
      apply (elem_of_list_to_map_1 _ _ _ Hndk) in Hi. unfold kept in Hi, Hn. congruence. }
    split.
    + pose proof (sorted_entries_sorted (sn_info a)) as Hs.
      rewrite <- (take_drop (size (sn_info a) - keep) (sorted_entries (sn_info a))) in Hs.
      apply (StronglySorted_app_1_elem_of _ _ _ (h', id') (h, id)) in Hs; [|done|done].
      unfold by_height in Hs. cbn [fst] in Hs.
      assert (h' <> h); [|lia]. intros ->. apply (elem_of_list_to_map_1 _ _ _ Hndk) in Hk. congruence.
    + unfold read_manifest. rewrite (rr_manifests _ _ Hr'). cbn [sn_prune sn_manifests].
      clear -Hrem. revert Hrem. generalize (sn_manifests a).
      induction (removed (sn_info a) keep) as [|e es IH]; intros m Hrem; [by apply not_elem_of_nil in Hrem|].
      cbn [foldl]. apply elem_of_cons in Hrem as [<-|Hrem]; [|by apply IH]. cbn [snd].
      clear IH. assert (delete id' m !! id' = None) as Hnone by apply lookup_delete_eq.
      revert Hnone. generalize (delete id' m). induction es as [|e es IH]; intros m' Hm'; [done|]. cbn [foldl].
      apply IH. apply lookup_delete_None. by right.
Qed.
End DbFacts.

(** ** Download plans *)

Inductive PlanEvent :=
  | PRequest (how_many : nat)
  | PDelivered (id : bytes)
  | PFailed (id : bytes).

Definition plan_step (now : Z) (p : DownloadPlan) (ev : PlanEvent) : DownloadPlan :=
  match ev with
  | PRequest how_many => (get_chunk_ids_to_download now p how_many).2
  | PDelivered id => (mark_chunk_downloaded now p id).2
  | PFailed id => mark_chunk_failed now p id
  end.
Definition no_failure (ev : PlanEvent) : Prop := match ev with PFailed _ => False | _ => True end.

(** The chunks not downloaded. *)
Fixpoint missing (ds : list bool) : Z :=
  match ds with [] => 0 | d :: ds' => (if d then 0 else 1) + missing ds' end.

Lemma missing_app l1 l2 : missing (l1 ++ l2) = missing l1 + missing l2.
Proof. induction l1 as [|d l1 IH]; cbn [app missing]; lia. Qed.

Lemma missing_range ds : 0 <= missing ds <= Z.of_nat (length ds).
Proof. induction ds as [|[] ds IH]; cbn [missing length]; lia. Qed.

Lemma missing_none ds : forallb (fun d => d) ds = true <-> missing ds = 0.
Proof.
  induction ds as [|[] ds IH]; cbn [forallb missing andb]; [done|rewrite IH; lia|].
  pose proof (missing_range ds). split; [done|lia].
Qed.

Lemma missing_insert ds idx :
  nth idx ds true = false -> missing (<[idx := true]> ds) = missing ds - 1.
Proof.
  revert idx. induction ds as [|d ds IH]; intros [|idx] Hn; cbn in Hn; try done.
  - subst d. cbn [insert list_insert missing]. lia.
  - change (<[S idx := true]> (d :: ds)) with (d :: <[idx := true]> ds). cbn [missing].
    rewrite (IH idx Hn). lia.
Qed.

(** At most the requested chunks that did not arrive are counted as on their
    way. *)
Definition plan_ok (p : DownloadPlan) : Prop :=
  length (downloaded_chunk_ids p) = length (expected_chunk_ids p) /\
  0 <= downloading_chunks p <= missing (take (next_chunk_index p) (downloaded_chunk_ids p)).

Lemma collect_chunks_spec ids ds how_many downloading next :
  length ds = length ids -> 0 <= downloading -> downloading + Z.of_nat (length ids) < 2 ^ 64 ->
  let '(result, downloading', next') := collect_chunks ids ds how_many downloading next in
  downloading <= downloading' /\ exists k, next' = (next + k)%nat /\ (k <= length ds)%nat /\
    downloading' = downloading + missing (take k ds) /\
    result = (filter (fun '(_, d) => d = false) (zip (take k ids) (take k ds))).*1.
Proof.
  revert ds how_many downloading next. induction ids as [|id ids IH]; intros ds how_many downloading next Hl Hd Hb;
    destruct ds as [|d ds]; try done.
  { destruct how_many; (split; [lia|]); exists 0%nat; (split; [lia|]); cbn [take missing]; (split; [lia|]);
      (split; [lia|]); done. }
  destruct how_many as [|how_many].
  { split; [lia|]. exists 0%nat. cbn [take missing]. repeat split; lia. }
  cbn [collect_chunks length] in *. destruct d.
  - specialize (IH ds (S how_many) downloading (S next) ltac:(lia) Hd ltac:(lia)).
    destruct (collect_chunks _ _ _ _ _) as [[result d'] n']. destruct IH as (Hle & k & -> & Hk & -> & ->).
    split; [done|]. exists (S k). cbn [take missing zip zip_with]. rewrite filter_cons_False by done.
    repeat split; lia.
  - rewrite u64_id by lia.
    specialize (IH ds how_many (downloading + 1) (S next) ltac:(lia) ltac:(lia) ltac:(lia)).
    destruct (collect_chunks _ _ _ _ _) as [[result d'] n']. destruct IH as (Hle & k & -> & Hk & -> & ->).
    split; [lia|]. exists (S k). cbn [take missing zip zip_with]. rewrite filter_cons_True by done.
    cbn [fmap list_fmap fst]. repeat split; lia.
Qed.

Lemma plan_step_ok now p ev :
  Z.of_nat (length (expected_chunk_ids p)) < 2 ^ 63 -> no_failure ev -> plan_ok p ->
  plan_ok (plan_step now p ev) /\ expected_chunk_ids (plan_step now p ev) = expected_chunk_ids p.
Proof.
  intros Hb Hev [Hl [Hd Hm]]. pose proof (missing_range (take (next_chunk_index p) (downloaded_chunk_ids p))) as Hr.
  rewrite length_take in Hr.
  destruct ev as [how_many|id|id]; cbn [plan_step]; [| |done].
  - unfold get_chunk_ids_to_download.
    pose proof (collect_chunks_spec (drop (next_chunk_index p) (expected_chunk_ids p))
      (drop (next_chunk_index p) (downloaded_chunk_ids p)) how_many (downloading_chunks p)
      (next_chunk_index p) ltac:(rewrite !length_drop; lia) Hd ltac:(rewrite length_drop; lia)) as Hc.
    destruct (collect_chunks _ _ _ _ _) as [[result d'] n']. destruct Hc as (Hle & k & -> & Hk & -> & _).
    assert (plan_ok (set_progress p (downloaded_chunk_ids p)
      (downloading_chunks p + missing (take k (drop (next_chunk_index p) (downloaded_chunk_ids p))))
      (next_chunk_index p + k))) as Hok.
    { split; [done|]. cbn [set_progress downloading_chunks next_chunk_index downloaded_chunk_ids].
      rewrite <- take_take_drop, missing_app. lia. }
    cbn [snd]. by destruct (decide (result = [])).
  - unfold mark_chunk_downloaded. destruct (position id (expected_chunk_ids p)) as [idx|]; [|done].
    destruct (nth idx (downloaded_chunk_ids p) true) eqn:En; [done|]. split; [|done].
    split; cbn [snd update_time set_progress downloaded_chunk_ids expected_chunk_ids downloading_chunks next_chunk_index];
      [by rewrite length_insert|].
    unfold decrement. destruct (Z.gtb_spec (downloading_chunks p) 0).
    + destruct (Nat.lt_ge_cases idx (next_chunk_index p)) as [Hlt|Hge].
      * rewrite take_insert_lt by done. rewrite missing_insert; [lia|].
        rewrite <- En. rewrite <- (take_drop (next_chunk_index p) (downloaded_chunk_ids p)) at 2.
        destruct (Nat.lt_ge_cases idx (length (downloaded_chunk_ids p))) as [Hi|Hi].
        -- rewrite app_nth1; [done|]. rewrite length_take. lia.
        -- rewrite nth_overflow in En by lia. done.
      * rewrite take_insert_ge by done. lia.
    + pose proof (missing_range (take (next_chunk_index p) (<[idx := true]> (downloaded_chunk_ids p)))). lia.
Qed.

Lemma plan_run_ok now p events :
  Z.of_nat (length (expected_chunk_ids p)) < 2 ^ 63 -> Forall no_failure events -> plan_ok p ->
  plan_ok (foldl (plan_step now) p events).
Proof.
  intros Hb Hev. revert p Hb. induction Hev as [|ev events He _ IH]; intros p Hb Hp; [done|]. cbn [foldl].
  destruct (plan_step_ok now p ev Hb He Hp) as [Hp' Hids]. apply IH; [by rewrite Hids|done].
Qed.

(** What can never end: chunks counted as on their way that nobody sends,
    because all chunks are there. *)
Definition stuck (p : DownloadPlan) : Prop :=
  length (downloaded_chunk_ids p) = length (expected_chunk_ids p) /\
  missing (downloaded_chunk_ids p) = 0 /\ 0 < downloading_chunks p.

Lemma collect_none ids ds how_many downloading next :
  missing ds = 0 ->
  (collect_chunks ids ds how_many downloading next).1 = ([], downloading).
Proof.
  revert ds how_many next. induction ids as [|id ids IH]; intros [|d ds] [|n] next Hm; try done.
  cbn [collect_chunks]. cbn [missing] in Hm. pose proof (missing_range ds).
  destruct d; [|lia]. apply IH. lia.
Qed.

Lemma stuck_plan_step now p ev : no_failure ev -> stuck p -> stuck (plan_step now p ev).
Proof.
  intros Hev (Hl & Hm & Hd). destruct ev as [n|id|id]; cbn [plan_step]; [| |done].
  - unfold get_chunk_ids_to_download.
    assert (missing (drop (next_chunk_index p) (downloaded_chunk_ids p)) = 0) as Hm'.
    { pose proof (missing_range (drop (next_chunk_index p) (downloaded_chunk_ids p))).
      pose proof (missing_range (take (next_chunk_index p) (downloaded_chunk_ids p))).
      rewrite <- (take_drop (next_chunk_index p) (downloaded_chunk_ids p)), missing_app in Hm. lia. }
    pose proof (collect_none (drop (next_chunk_index p) (expected_chunk_ids p)) _ n
      (downloading_chunks p) (next_chunk_index p) Hm') as Hc.
    destruct (collect_chunks _ _ _ _ _) as [[result d] next]. injection Hc as -> ->. cbn [snd].
    by rewrite decide_True.
  - unfold mark_chunk_downloaded. destruct (position id (expected_chunk_ids p)) as [idx|]; [|done].
    destruct (nth idx (downloaded_chunk_ids p) true) eqn:En; [done|]. exfalso.
    pose proof (missing_insert _ _ En).
    pose proof (missing_range (<[idx := true]> (downloaded_chunk_ids p))). lia.
Qed.

(** while no chunk is reported as failed, a plan is complete exactly when
    every chunk has arrived, in whatever order they were requested and came,
    asked for or not.  After a failure the chunks behind it are requested and
    counted a second time: with two chunks, a request, a failure of the first,
    a second request and both deliveries, everything has arrived and nothing is
    left to request, but the plan never becomes complete. *)
Theorem plan_complete_iff_arrived now height root tree_height ids events :
  Z.of_nat (length ids) < 2 ^ 63 -> Forall no_failure events ->
  let p := foldl (plan_step now) (plan_new now height root tree_height ids) events in
  (is_fully_downloaded p = true <-> missing (downloaded_chunk_ids p) = 0) /\
  (forall a b, a <> b ->
     let q := foldl (plan_step now) (plan_new now height root tree_height [a; b])
                ([PRequest 2; PFailed a; PRequest 2; PDelivered a; PDelivered b] ++ events) in
     missing (downloaded_chunk_ids q) = 0 /\ is_fully_downloaded q = false).
Proof.
  intros Hb Hev p. split.
  - assert (plan_ok p) as [Hl [Hd Hm]].
    { apply plan_run_ok; [done|done|]. split; [apply length_replicate|done]. }
    unfold is_fully_downloaded. rewrite andb_true_iff, Z.eqb_eq, missing_none.
    split; [by intros [_ ?]|]. intros H0m. split; [|done].
    rewrite <- (take_drop (next_chunk_index p) (downloaded_chunk_ids p)), missing_app in H0m.
    pose proof (missing_range (drop (next_chunk_index p) (downloaded_chunk_ids p))).
    pose proof (missing_range (take (next_chunk_index p) (downloaded_chunk_ids p))). lia.
  - intros a b Hab q. subst q. rewrite foldl_app. set (q0 := foldl _ _ [_; _; _; _; _]).
    assert (stuck q0) as Hq.
    { assert (position a [a; b] = Some 0%nat) as Ha.
      { unfold position. cbn [list_find]. by rewrite decide_True. }
      assert (position b [a; b] = Some 1%nat) as Hb'.
      { unfold position. cbn [list_find]. by rewrite decide_False, decide_True. }
      pose (at_ d n k := mkDownloadPlan now now height root tree_height [a; b] d n k).
      assert (forall d n k, mark_chunk_failed now (at_ d n k) a = at_ d (decrement n) (if (0 <? k)%nat then 0%nat else k)) as Hfail.
      { intros d n k. unfold mark_chunk_failed, at_. cbn [expected_chunk_ids]. by rewrite Ha. }
      assert (forall d n k c idx, position c [a; b] = Some idx -> nth idx d true = false ->
        (mark_chunk_downloaded now (at_ d n k) c).2 = at_ (<[idx := true]> d) (decrement n) k) as Hgot.
      { intros d n k c idx Hc Hn. unfold mark_chunk_downloaded, at_.
        cbn [expected_chunk_ids downloaded_chunk_ids]. by rewrite Hc, Hn. }
      subst q0. cbn [foldl plan_step]. change (plan_new _ _ _ _ _) with (at_ [false; false] 0 0%nat).
      change (get_chunk_ids_to_download now (at_ [false; false] 0 0%nat) 2).2 with (at_ [false; false] 2 2%nat).
      rewrite Hfail.
      change (get_chunk_ids_to_download now _ 2).2 with (at_ [false; false] 3 2%nat).
      rewrite (Hgot [false; false] _ _ a 0%nat Ha eq_refl), (Hgot [true; false] _ _ b 1%nat Hb' eq_refl). done. }
    assert (stuck (foldl (plan_step now) q0 events)) as (_ & Hm & Hd).
    { revert Hq. generalize q0. clear -Hev. induction Hev as [|ev events He _ IH]; intros q Hq; [done|].
      cbn [foldl]. by apply IH, stuck_plan_step. }
    split; [done|]. unfold is_fully_downloaded. by rewrite (proj2 (Z.eqb_neq _ 0)) by lia.
Qed.

Module Example.
Import Mem.

Definition id (n : Z) : bytes := be_bytes 32 n.
Definition history : list SnapshotEvent :=
  [SnAdd 10 (id 1) [1]; SnAdd 30 (id 3) [3]; SnRestart; SnAdd 20 (id 2) [2]; SnWriteChunk 0 [7]].

Lemma history_typed : Forall event_typed history.
Proof. repeat constructor; try (cbn; unfold in_u; lia). Qed.

Lemma empty_no_snapshots : no_snapshots Mem.empty.
Proof. intros k. done. Qed.

Definition db : SnapshotsDb Mem.t := foldl snap_step (SnapshotsDb_new Mem.empty) history.

Lemma snapshots_refine_witness : read_manifest db (id 2) = Some [2].
Proof.
  destruct (snapshots_refine Mem.empty history empty_no_snapshots history_typed) as (_ & Hm & _).
  fold db in Hm. rewrite Hm. vm_compute. reflexivity.
Defined.

Lemma pruning_keeps_newest_witness :
  exists info', (read_snapshots_info (prune_snapshots db 2).2).1 = Ok info' /\ size info' = 2%nat.
Proof.
  destruct (pruning_keeps_newest db (foldl sn_step snapshots_empty history) 2) as (i & Hi & Hs & _).
  - exact (snap_run_refines Mem.empty history empty_no_snapshots history_typed).
  - exists i. split; [exact Hi|]. rewrite Hs. vm_compute. reflexivity.
Defined.

Lemma plan_complete_iff_arrived_witness :
  is_fully_downloaded (foldl (plan_step 5) (plan_new 5 100 [] 3 [[1]; [2]])
    [PRequest 1; PDelivered [2]; PRequest 1; PDelivered [1]]) = true.
Proof.
  destruct (plan_complete_iff_arrived 5 100 [] 3 [[1]; [2]]
    [PRequest 1; PDelivered [2]; PRequest 1; PDelivered [1]]) as [Hiff _]; [cbn; lia|by repeat constructor|].
  apply Hiff. vm_compute. reflexivity.
Defined.

End Example.
