(* ===== verification/NodePeers.v ===== *)
(** * The peers of the event router (crates/ergo-node/src/node.rs)

    The tables of connected, lost and discovered peers that the event router of
    the node keeps, and its handlers of connections and of messages.  Instants
    are milliseconds; one handler reads one instant.  Logging is left out. *)

From S2P Require Export SyncProtocol.

Local Open Scope Z_scope.

(** ** Socket addresses *)

#[export] Instance IpAddr_eq_dec : EqDecision IpAddr.
Proof. solve_decision. Defined.

#[export] Instance IpAddr_countable : Countable IpAddr.
Proof.
  refine (inj_countable' (fun ip => match ip with IP_V4 o => inl o | IP_V6 o => inr o end)
            (fun s => match s with inl o => IP_V4 o | inr o => IP_V6 o end) _).
  by intros [].
Defined.

(** [SocketAddr], without the flow label and scope of an IPv6 address. *)
Record SocketAddr := mkSocketAddr { sa_ip : IpAddr; sa_port : Z }.

#[export] Instance SocketAddr_eq_dec : EqDecision SocketAddr.
Proof. solve_decision. Defined.

#[export] Instance SocketAddr_countable : Countable SocketAddr.
Proof.
  refine (inj_countable' (fun a => (sa_ip a, sa_port a)) (fun p => mkSocketAddr p.1 p.2) _).
  by intros [].
Defined.

(** ** Reconnection *)

Record ReconnectInfo := mkReconnectInfo {
  ri_addr : SocketAddr;
  ri_attempts : Z;
  ri_last_attempt : Z;
  ri_next_attempt : Z
}.

Definition ReconnectInfo_new (now : Z) (addr : SocketAddr) : ReconnectInfo :=
  mkReconnectInfo addr 0 now now.

Definition backoff_duration (i : ReconnectInfo) : Z :=
  let base_secs := 5 in
  let max_secs := 300 in
  let secs := Z.min (base_secs * Z.shiftl 1 (Z.min (ri_attempts i) 6)) (2 ^ 64 - 1) in
  Z.min secs max_secs.

Definition mark_failed (now : Z) (i : ReconnectInfo) : ReconnectInfo :=
  let i := mkReconnectInfo (ri_addr i) (u32 (ri_attempts i + 1)) now (ri_next_attempt i) in
  mkReconnectInfo (ri_addr i) (ri_attempts i) (ri_last_attempt i) (now + 1000 * backoff_duration i).

Definition can_attempt (now : Z) (i : ReconnectInfo) : bool := now >=? ri_next_attempt i.

Definition ri_reset (i : ReconnectInfo) : ReconnectInfo :=
  mkReconnectInfo (ri_addr i) 0 (ri_last_attempt i) (ri_next_attempt i).

Definition MAX_RECONNECT_ATTEMPTS : Z := 10.
Definition min_connections : nat := 3.
Definition max_connections : nat := 25.

(** ** Commands to the network service and events from it *)

Inductive NetworkCommand :=
  | NC_Connect (addr : SocketAddr)
  | NC_Disconnect (peer : PeerId)
  | NC_SendMessage (peer : PeerId) (message : Message)
  | NC_Broadcast (message : Message)
  | NC_Shutdown.

Inductive NetworkEvent :=
  | NE_PeerConnected (peer : PeerId) (addr : SocketAddr) (handshake : MHandshake)
  | NE_PeerDisconnected (peer : PeerId)
  | NE_MessageReceived (peer : PeerId) (message : Message)
  | NE_ConnectionFailed (addr : SocketAddr) (error : string).

(** ** The tables *)

Record PeerTables := mkPeerTables {
  peer_addresses : gmap PeerId SocketAddr;
  peer_handshakes : gmap PeerId MHandshake;
  reconnect_queue : gmap SocketAddr ReconnectInfo;
  discovered_peers : gset SocketAddr
}.

Definition PeerTables_empty : PeerTables := mkPeerTables ∅ ∅ ∅ ∅.

(** The iteration orders of the hash map of addresses to reconnect to and of
    the hash set of discovered addresses. *)
Class AddressOrders := {
  queue_iter : gmap SocketAddr ReconnectInfo -> list (SocketAddr * ReconnectInfo);
  discovered_iter : gset SocketAddr -> list SocketAddr
}.

Class AddressOrdersLaws `{AddressOrders} : Prop := {
  queue_iter_perm m : queue_iter m ≡ₚ map_to_list m;
  discovered_iter_perm s : discovered_iter s ≡ₚ elements s
}.

(** [peer_addresses.values().any(..)]. *)
Definition is_connected (t : PeerTables) (addr : SocketAddr) : bool :=
  existsb (fun p => bool_decide (p.2 = addr)) (map_to_list (peer_addresses t)).

Section Tables.
Context `{HashOrder} `{AddressOrders}.

(** The loop over the queue: the commands, and the addresses given up on. *)
Definition reconnect_entry (now : Z) (acc : list NetworkCommand * list SocketAddr)
    (p : SocketAddr * ReconnectInfo) : list NetworkCommand * list SocketAddr :=
  let '(cmds, to_remove) := acc in
  let '(addr, info) := p in
  if ri_attempts info >=? MAX_RECONNECT_ATTEMPTS then (cmds, to_remove ++ [addr])
  else if can_attempt now info then (cmds ++ [NC_Connect addr], to_remove)
  else acc.

Definition try_reconnect (now : Z) (t : PeerTables) : list NetworkCommand * PeerTables :=
  let '(cmds, to_remove) := fold_left (reconnect_entry now) (queue_iter (reconnect_queue t)) ([], []) in
  (cmds, mkPeerTables (peer_addresses t) (peer_handshakes t)
           (fold_left (fun q addr => delete addr q) to_remove (reconnect_queue t)) (discovered_peers t)).

(** Up to three discovered peers. *)
Definition peers_to_try (t : PeerTables) : list SocketAddr :=
  take 3 (base.filter (fun addr => negb (is_connected t addr) && bool_decide (reconnect_queue t !! addr = None))
            (discovered_iter (discovered_peers t))).

Definition try_discovered (t : PeerTables) : list NetworkCommand * PeerTables :=
  let tried := peers_to_try t in
  (NC_Connect <$> tried,
   mkPeerTables (peer_addresses t) (peer_handshakes t) (reconnect_queue t)
     (fold_left (fun s addr => s ∖ {[addr]}) tried (discovered_peers t))).

(** The tick of the reconnection interval. *)
Definition reconnect_tick (now : Z) (t : PeerTables) : list NetworkCommand * PeerTables :=
  let connected_count := size (peer_addresses t) in
  let '(cmds1, t) := if (connected_count <? min_connections)%nat then try_reconnect now t else ([], t) in
  let '(cmds2, t) := if (connected_count <? max_connections)%nat && negb (bool_decide (discovered_peers t = ∅))
                     then try_discovered t else ([], t) in
  (cmds1 ++ cmds2, t).

(** [NetworkEvent::PeerConnected]; the entry is reset and then removed. *)
Definition peer_connected (peer : PeerId) (addr : SocketAddr) (handshake : MHandshake) (t : PeerTables)
    : PeerTables :=
  let queue := alter ri_reset addr (reconnect_queue t) in
  mkPeerTables (<[peer := addr]> (peer_addresses t)) (<[peer := handshake]> (peer_handshakes t))
    (delete addr queue) (discovered_peers t ∖ {[addr]}).

(** [NetworkEvent::PeerDisconnected]. *)
Definition peer_disconnected (now : Z) (peer : PeerId) (t : PeerTables) : PeerTables :=
  let queue :=
    match peer_addresses t !! peer with
    | Some addr =>
        match reconnect_queue t !! addr with
        | None => <[addr := ReconnectInfo_new now addr]> (reconnect_queue t)
        | Some _ => reconnect_queue t
        end
    | None => reconnect_queue t
    end in
  mkPeerTables (delete peer (peer_addresses t)) (delete peer (peer_handshakes t)) queue (discovered_peers t).

(** [NetworkEvent::ConnectionFailed]. *)
Definition connection_failed (now : Z) (addr : SocketAddr) (t : PeerTables) : PeerTables :=
  let info :=
    match reconnect_queue t !! addr with
    | Some info => mark_failed now info
    | None => mark_failed now (ReconnectInfo_new now addr)
    end in
  mkPeerTables (peer_addresses t) (peer_handshakes t) (<[addr := info]> (reconnect_queue t))
    (discovered_peers t).

(** ** Messages *)

(** What a peer that asks for peers is told. *)
Definition spec_of (t : PeerTables) (p : PeerId * SocketAddr) : option PeerSpec :=
  let '(id, addr) := p in
  (fun handshake =>
     PeerSpec_new (mh_agent_name handshake) (mh_version handshake) (mh_node_name handshake)
       (Some (mkDeclaredAddress (sa_ip addr) (sa_port addr)))) <$> (peer_handshakes t !! id).

Definition known_peers (t : PeerTables) (peer : PeerId) : list PeerSpec :=
  take 20 (omap (spec_of t) (base.filter (fun p => p.1 <> peer) (hash_iter _ (peer_addresses t)))).

Definition peers_reply (t : PeerTables) (peer : PeerId) : list NetworkCommand :=
  let peer_specs := known_peers t peer in
  if negb (bool_decide (peer_specs = [])) then [NC_SendMessage peer (M_Peers peer_specs)] else [].

(** [Message::Peers]. *)
Definition discover (t : PeerTables) (peers : list PeerSpec) : PeerTables :=
  mkPeerTables (peer_addresses t) (peer_handshakes t) (reconnect_queue t)
    (fold_left (fun s spec =>
       match ps_declared_addr spec with
       | Some d =>
           let addr := mkSocketAddr (da_ip d) (da_port d) in
           if is_connected t addr then s else {[addr]} ∪ s
       | None => s
       end) peers (discovered_peers t)).

End Tables.
