(* ===== verification/NodeBlocks.v ===== *)
(** * The block pipeline of the node (crates/ergo-node/src/node.rs)

    What the event router does with a downloaded block: the buffer of blocks
    that arrive out of order, the validation of a run of consecutive blocks
    against the state and the boxes the run created, and the batches in which
    they are applied.  A Rust panic of the router's task is [Panicked]. *)

From S2P Require Export NodePeers Manager BlockValidation MempoolFacts.

Local Open Scope Z_scope.

(** The libraries the node calls, the texts of errors, and the clock and the
    hash-set order of the pool. *)
Class NodeLib (ErgoBox Ext PreHeader : Type) `{ChainTypes} := {
  nl_script_verify : ErgoBox -> ScriptContext ErgoBox Ext PreHeader -> bytes -> bytes -> option (bool * Z);
  nl_tx_io_max : nat;
  nl_pre_header : Header -> PreHeader;
  nl_miner_fee_bytes : bytes;
  nl_error_text : StateError -> string;
  nl_elapsed_ms : nat -> Z;
  nl_hash_order : nat -> gset bytes -> list bytes
}.

Inductive Panic := Panicked.

(** What the router sends: events to the synchronisation protocol, commands to
    the network service, answers to the protocol's storage requests. *)
Inductive RouterOutput `{ChainTypes} :=
  | RO_Event (e : SyncEvent)
  | RO_Command (c : NetworkCommand)
  | RO_Reply (r : result unit string).

Definition BATCH_WRITE_SIZE : nat := 64.
Definition MAX_PENDING_BLOCKS : nat := 2048.
Definition MIN_HEIGHT_FOR_SYNC_COMPLETE : Z := 1000000.

(** [<[u8; 32]>::try_from(..).unwrap_or([0u8; 32])]. *)
Definition header_id_of (block_id : bytes) : bytes :=
  if (length block_id =? 32)%nat then block_id else replicate 32 0.

(** [sort] and [dedup] of identifiers. *)
Definition id_le (a b : bytes) : Prop := bytes_cmp a b <> Gt.

#[export] Instance id_le_dec a b : Decision (id_le a b).
Proof. unfold id_le. apply _. Defined.

Fixpoint dedup (l : list bytes) : list bytes :=
  match l with
  | x :: (y :: _) as l' => if decide (x = y) then dedup l' else x :: dedup l'
  | _ => l
  end.

(** The blocks of the buffer from a height on, as long as none is missing;
    [fuel] is the number of blocks buffered. *)
Fixpoint drain (fuel : nat) (pending : gmap Z (bytes * bytes)) (next_height : Z)
    : list (bytes * bytes) * gmap Z (bytes * bytes) :=
  match fuel with
  | O => ([], pending)
  | S fuel' =>
      match pending !! next_height with
      | Some block =>
          let '(blocks, rest) := drain fuel' (delete next_height pending) (u32 (next_height + 1)) in
          (block :: blocks, rest)
      | None => ([], pending)
      end
  end.

Section Blocks.
Context {ErgoBox Ext Tx PreHeader : Type} `{ErgoBoxOps ErgoBox} `{ExtensionOps Ext}
  `{TransactionOps ErgoBox Ext Tx} `{ChainTypes} `{!HeaderCodec} `{Blake2b256} `{BigUintBytes}
  {DB : Type} `{Storage DB} `{HashOrder} `{SectionLib} `{!NodeLib ErgoBox Ext PreHeader}.

(** ** The state of the router *)

Record Router := mkRouter {
  rt_tables : PeerTables;
  rt_manager : StateManager DB;
  rt_mempool : Mempool;
  rt_storage_sync_mode : bool;
  rt_pending_blocks : gmap Z (bytes * bytes);
  rt_out : list RouterOutput
}.

Definition put_tables (t : PeerTables) (r : Router) : Router :=
  mkRouter t (rt_manager r) (rt_mempool r) (rt_storage_sync_mode r) (rt_pending_blocks r) (rt_out r).
Definition put_manager (m : StateManager DB) (r : Router) : Router :=
  mkRouter (rt_tables r) m (rt_mempool r) (rt_storage_sync_mode r) (rt_pending_blocks r) (rt_out r).
Definition put_mempool (p : Mempool) (r : Router) : Router :=
  mkRouter (rt_tables r) (rt_manager r) p (rt_storage_sync_mode r) (rt_pending_blocks r) (rt_out r).
Definition put_pending_blocks (b : gmap Z (bytes * bytes)) (r : Router) : Router :=
  mkRouter (rt_tables r) (rt_manager r) (rt_mempool r) (rt_storage_sync_mode r) b (rt_out r).
Definition emit (outs : list RouterOutput) (r : Router) : Router :=
  mkRouter (rt_tables r) (rt_manager r) (rt_mempool r) (rt_storage_sync_mode r) (rt_pending_blocks r)
    (rt_out r ++ outs).

(** [utxo.set_sync_mode(b); storage.set_sync_mode(b)]. *)
Definition manager_sync_mode (enabled : bool) (m : StateManager DB) : StateManager DB :=
  mkStateManager (set_sync_mode (sm_utxo m) enabled) (sm_history m) (sm_verification m) (sm_parameters m).
Definition put_sync_mode (enabled : bool) (r : Router) : Router :=
  mkRouter (rt_tables r) (manager_sync_mode enabled (rt_manager r)) (rt_mempool r) enabled
    (rt_pending_blocks r) (rt_out r).

(** ** The validation of one block *)

(** Whether [BlockFailed] is sent, or the router's task panics. *)
Inductive BlockFailure := BF_Reported (msg : string) | BF_Silent | BF_Panic.

Definition parent_of (m : StateManager DB) (hdr : Header) : result Header BlockFailure :=
  if h_height hdr >? 1 then
    match get_header (sm_storage m) (h_parent_id hdr) with
    | Ok (Some h) => Ok h
    | _ => Err BF_Silent
    end
  else Ok genesis_parent_header.

(** The ten headers below a height, newest first, padded at the end. *)
Definition last_ten_headers (m : StateManager DB) (height : Z) : list Header :=
  let end_height := if height >? 10 then height - 10 else 1 in
  let headers := omap (fun h => match get_by_height (sm_storage m) h with
                                | Ok (Some hdr) => Some hdr
                                | _ => None
                                end) (rev (seqZ end_height (height - end_height))) in
  headers ++ replicate (10 - length headers) genesis_parent_header.

(** The boxes read ahead: inputs and data inputs not created in this run. *)
Definition prefetch_ids (batch_created_boxes : gmap bytes ErgoBox) (block : FullBlock Tx) : list bytes :=
  let txs := bt_txs (fb_transactions block) in
  let fresh := base.filter (fun id => batch_created_boxes !! id = None) in
  let input_ids := fresh (txs ≫= fun tx => ti_box_id <$> tx_inputs tx) in
  let data_input_ids := fresh (omap tx_data_inputs txs ≫= fun ids => ids) in
  dedup (merge_sort id_le (input_ids ++ data_input_ids)).

Definition prefetched_boxes (m : StateManager DB) (batch_created_boxes : gmap bytes ErgoBox)
    (block : FullBlock Tx) : gmap bytes ErgoBox :=
  let all_ids := prefetch_ids batch_created_boxes block in
  let fetched := match get_boxes_batch (sm_utxo m) all_ids with Ok l => l | Err _ => [] end in
  fold_left (fun boxes '(id, opt) =>
    match opt with Some entry => <[id := be_box entry]> boxes | None => boxes end)
    (zip all_ids fetched) ∅.

Definition stored_box (m : StateManager DB) (id : bytes) : option ErgoBox :=
  match get_box (sm_utxo m) id with Ok (Some entry) => Some (be_box entry) | _ => None end.

Definition utxo_lookup (m : StateManager DB) (batch_created_boxes prefetched : gmap bytes ErgoBox)
    (id : bytes) : option ErgoBox :=
  match batch_created_boxes !! id with
  | Some b => Some b
  | None => match prefetched !! id with Some b => Some b | None => stored_box m id end
  end.

(** [FullBlockValidator::with_parameters(..).validate_block(..)]. *)
Definition validation_of (m : StateManager DB) (batch_created_boxes : gmap bytes ErgoBox)
    (block : FullBlock Tx) (parent_header : Header) : BlockValidationResult (ErgoBox := ErgoBox) :=
  validate_block nl_script_verify nl_tx_io_max lib_merkle_root nl_pre_header (hash_iter Z)
    (with_parameters (sm_parameters m)) block parent_header
    (utxo_lookup m batch_created_boxes (prefetched_boxes m batch_created_boxes block))
    (last_ten_headers m (h_height (fb_header block))).

(** From the bytes of a block to its validated change. *)
Definition validate_next (m : StateManager DB) (batch_created_boxes : gmap bytes ErgoBox)
    (bid bdata : bytes) : result (FullBlock Tx * ValidatedStateChange ErgoBox) BlockFailure :=
  match BlockTransactions_parse lib_get_u32 bdata with
  | Err SlicePanic => Err BF_Panic
  | Err _ => Err (BF_Reported "Parse error")
  | Ok block_txs =>
      match get_header (sm_storage m) (header_id_of bid) with
      | Ok (Some hdr) =>
          let? parent_header := parent_of m hdr in
          let full_block := mkFullBlock hdr block_txs (Extension_empty (header_id_of bid)) None in
          let validation_result := validation_of m batch_created_boxes full_block parent_header in
          if negb (bvr_valid validation_result) then
            Err (BF_Reported (from_option id "Unknown validation error"%string (bvr_error validation_result)))
          else
            match bvr_state_change validation_result with
            | Some change => Ok (full_block, change)
            | None => Err BF_Panic
            end
      | _ => Err BF_Silent
      end
  end.

Definition state_change_of (height : Z) (c : ValidatedStateChange ErgoBox) : StateChange ErgoBox :=
  mkStateChange
    ((fun cb => mkBoxEntry (cb_ergo_box cb) height (cb_tx_id cb) (cb_output_index cb)) <$> vsc_created c)
    (spent_box_ids c).

Definition track_boxes (boxes : gmap bytes ErgoBox) (c : ValidatedStateChange ErgoBox) : gmap bytes ErgoBox :=
  let boxes := fold_left (fun mp cb => <[box_id (cb_ergo_box cb) := cb_ergo_box cb]> mp) (vsc_created c) boxes in
  fold_left (fun mp sb => delete (sb_box_id sb) mp) (vsc_spent c) boxes.

(** ** Applying validated blocks *)

Abbreviation validated := (FullBlock Tx * StateChange ErgoBox * bytes)%type.

Definition confirmed_tx_ids (blocks : list (FullBlock Tx * StateChange ErgoBox)) : list bytes :=
  blocks ≫= fun b => tx_id <$> bt_txs (fb_transactions b.1).
Definition spent_inputs (blocks : list (FullBlock Tx * StateChange ErgoBox)) : list bytes :=
  blocks ≫= fun b => sc_spent b.2.

Definition height_of (b : validated) : Z := h_height (fb_header b.1.1).

(** A batch, its events, and whether it was applied. *)
Definition apply_batch (batch : list validated) (r : Router) : bool * Router :=
  let first_h := from_option height_of 0 (head batch) in
  let last_h := from_option height_of 0 (last batch) in
  let blocks := batch.*1 in
  let block_ids := batch.*2 in
  match apply_blocks_batched (rt_manager r) blocks with
  | Ok (_, m) =>
      let m := update_parameters_for_height_range (Tx := Tx) m first_h last_h in
      let '(_, pool) := remove_confirmed nl_elapsed_ms nl_hash_order (rt_mempool r)
                          (confirmed_tx_ids blocks) (spent_inputs blocks) in
      (true,
       emit (imap (fun i bid => RO_Event (SV_BlockApplied bid (u32 (first_h + Z.of_nat i)))) block_ids)
         (put_mempool pool (put_manager m r)))
  | Err e => (false, emit ((fun bid => RO_Event (SV_BlockFailed bid (nl_error_text e))) <$> block_ids) r)
  end.

(** The loop over the blocks of a run. *)
Record Pipeline := mkPipeline {
  pl_router : Router;
  pl_validated : list validated;
  pl_failed : bool;
  pl_created : gmap bytes ErgoBox
}.

Definition rebuffer (r : Router) (bid bdata : bytes) : Router :=
  match get_header (sm_storage (rt_manager r)) (header_id_of bid) with
  | Ok (Some hdr) => put_pending_blocks (<[h_height hdr := (bid, bdata)]> (rt_pending_blocks r)) r
  | _ => r
  end.

Definition process_block (pl : Pipeline) (b : bytes * bytes) : result Pipeline Panic :=
  let '(bid, bdata) := b in
  let r := pl_router pl in
  if pl_failed pl then Ok (mkPipeline (rebuffer r bid bdata) (pl_validated pl) true (pl_created pl))
  else
    match validate_next (rt_manager r) (pl_created pl) bid bdata with
    | Err BF_Panic => Err Panicked
    | Err BF_Silent => Ok (mkPipeline r (pl_validated pl) true (pl_created pl))
    | Err (BF_Reported msg) =>
        Ok (mkPipeline (emit [RO_Event (SV_BlockFailed bid msg)] r) (pl_validated pl) true (pl_created pl))
    | Ok (full_block, change) =>
        let state_change := state_change_of (h_height (fb_header full_block)) change in
        let created := track_boxes (pl_created pl) change in
        let validated_blocks := pl_validated pl ++ [(full_block, state_change, bid)] in
        if (BATCH_WRITE_SIZE <=? length validated_blocks)%nat then
          let '(applied, r) := apply_batch validated_blocks r in
          Ok (mkPipeline r [] (negb applied) ∅)
        else Ok (mkPipeline r validated_blocks false created)
    end.

(** The whole run; what is validated but not yet written is applied at the end
    unless a later block failed. *)
Definition process_blocks (r : Router) (blocks : list (bytes * bytes)) : result Router Panic :=
  let? pl := rfold process_block (mkPipeline r [] false ∅) blocks in
  if negb (bool_decide (length (pl_validated pl) = 0%nat)) && negb (pl_failed pl)
  then Ok (apply_batch (pl_validated pl) (pl_router pl)).2
  else Ok (pl_router pl).

(** ** Asking for more blocks *)

(** Headers from above the UTXO height, if any is found. *)
Definition request_blocks (count : Z) (header_height : Z) (r : Router) : Router :=
  let utxo_height := (heights (rt_manager r)).1 in
  match get_range (sm_storage (rt_manager r)) (u32 (utxo_height + 1))
          (Z.min count (header_height - utxo_height)) with
  | Ok (hd :: tl) => emit [RO_Event (SV_RequestBlocks (hd :: tl))] r
  | _ => r
  end.

Definition after_blocks (r : Router) : Router :=
  let '(utxo_height, header_height) := heights (rt_manager r) in
  let is_reasonably_synced :=
    is_synced (rt_manager r) && (header_height >? MIN_HEIGHT_FOR_SYNC_COMPLETE) in
  let r := if us_sync_mode (sm_utxo (rt_manager r)) && is_reasonably_synced
           then put_sync_mode false r else r in
  if utxo_height <? header_height then request_blocks 256 header_height r else r.

(** ** [SyncCommand::ApplyBlock] *)

Definition apply_block_command (block_id block_data : bytes) (r : Router) : result Router Panic :=
  let m := rt_manager r in
  match get_header (sm_storage m) (header_id_of block_id) with
  | Ok (Some header) =>
      let block_height := h_height header in
      let current_utxo_height := (heights m).1 in
      if block_height =? u32 (current_utxo_height + 1) then
        let '(blocks, pending) :=
          drain (size (rt_pending_blocks r)) (rt_pending_blocks r) (u32 (current_utxo_height + 2)) in
        let? r := process_blocks (put_pending_blocks pending r) ((block_id, block_data) :: blocks) in
        Ok (after_blocks r)
      else if block_height >? u32 (current_utxo_height + 1) then
        if (MAX_PENDING_BLOCKS <=? size (rt_pending_blocks r))%nat then Ok r
        else Ok (put_pending_blocks (<[block_height := (block_id, block_data)]> (rt_pending_blocks r)) r)
      else Ok r
  | _ => Ok r
  end.

End Blocks.

Arguments Router {_} DB.
Arguments Pipeline {_ _ _} DB.
