(* ===== verification/Node.v ===== *)
(** * The event router of the node (crates/ergo-node/src/node.rs)

    The task that joins the network service, the synchronisation protocol, the
    state and the pool: one step per event of its [select!] loop.  Sends that
    wait are delivered; whether [try_send] finds room in the event channel is
    an argument. *)

From S2P Require Export NodeBlocks.

Local Open Scope Z_scope.

(** Whether the channel to the protocol takes an event, after what was sent. *)
Class EventChannel `{ChainTypes} := event_taken : list RouterOutput -> SyncEvent -> bool.

(** What the loop reacts to. [RI_BlockSync] carries the best header height of
    the protocol, read when the interval ticks. *)
Inductive RouterInput `{ChainTypes} :=
  | RI_Tick
  | RI_BlockSync (protocol_header_height : Z)
  | RI_Reconnect
  | RI_Network (e : NetworkEvent)
  | RI_Command (c : SyncCommand).

Section Node.
Context {ErgoBox Ext Tx PreHeader : Type} `{ErgoBoxOps ErgoBox} `{ExtensionOps Ext}
  `{TransactionOps ErgoBox Ext Tx} `{ChainTypes} `{!HeaderCodec} `{Blake2b256} `{BigUintBytes}
  {DB : Type} `{Storage DB} `{HashOrder} `{SectionLib} `{!NodeLib ErgoBox Ext PreHeader}
  `{AddressOrders} `{!EventChannel}.

Abbreviation router := (Router DB).

(** ** Ticks *)

(** [try_send]: whether the event was taken. *)
Definition try_send (e : SyncEvent) (r : router) : bool * router :=
  if event_taken (rt_out r) e then (true, emit [RO_Event e] r) else (false, r).

Definition on_sync_tick (r : router) : router := (try_send SV_Tick r).2.

Definition block_sync_check (protocol_header_height : Z) (r : router) : router :=
  let '(utxo_height, db_header_height) := heights (rt_manager r) in
  let header_height := Z.max db_header_height protocol_header_height in
  if (header_height >? utxo_height) && (header_height >? 0) then request_blocks 512 header_height r else r.

Definition on_reconnect_tick (now : Z) (r : router) : router :=
  let '(cmds, t) := reconnect_tick now (rt_tables r) in
  emit (RO_Command <$> cmds) (put_tables t r).

(** ** Messages *)

(** The loop over the modifiers of a message: it stops when the channel is
    full. *)
Fixpoint forward_modifiers (peer : PeerId) (type_id : Z) (items : list ModifierItem) (r : router) : router :=
  match items with
  | [] => r
  | item :: items' =>
      match try_send (SV_ModifierReceived peer type_id (mi_id item) (mi_data item)) r with
      | (true, r') => forward_modifiers peer type_id items' r'
      | (false, r') => r'
      end
  end.

Definition handle_message (peer : PeerId) (message : Message) (r : router) : router :=
  match message with
  | M_SyncInfo info => (try_send (SV_SyncInfoReceived peer info) r).2
  | M_Inv inv => (try_send (SV_InvReceived peer inv) r).2
  | M_Modifier modifier => forward_modifiers peer (md_type_id modifier) (md_modifiers modifier) r
  | M_GetPeers => emit (RO_Command <$> peers_reply (rt_tables r) peer) r
  | M_Peers peers => put_tables (discover (rt_tables r) peers) r
  | M_RequestModifier _ | M_Handshake _ | M_GetSnapshotsInfo | M_SnapshotsInfo _ | M_GetManifest _
  | M_Manifest _ | M_GetUtxoSnapshotChunk _ | M_UtxoSnapshotChunk _ => r
  end.

Definition handle_network_event (now : Z) (e : NetworkEvent) (r : router) : router :=
  match e with
  | NE_PeerConnected peer addr handshake =>
      emit [RO_Command (NC_SendMessage peer M_GetPeers); RO_Event (SV_PeerConnected peer)]
        (put_tables (peer_connected peer addr handshake (rt_tables r)) r)
  | NE_PeerDisconnected peer =>
      emit [RO_Event (SV_PeerDisconnected peer)]
        (put_tables (peer_disconnected now peer (rt_tables r)) r)
  | NE_MessageReceived peer message => handle_message peer message r
  | NE_ConnectionFailed addr _ => put_tables (connection_failed now addr (rt_tables r)) r
  end.

(** ** Storing headers and extensions *)

Definition reply_of {A} (result_ : result A StateError) : RouterOutput :=
  RO_Reply (match result_ with Ok _ => Ok tt | Err e => Err (nl_error_text e) end).

Definition store_header (header : Header) (raw_bytes : bytes) (r : router) : router :=
  let '(result_, m) := apply_header_with_bytes (rt_manager r) header raw_bytes in
  emit [reply_of result_] (put_manager m r).

Definition store_headers_batch (headers : list (Header * bytes)) (r : router) : router :=
  match headers with
  | [] => emit [RO_Reply (Ok tt)] r
  | _ =>
      let '(result_, m) := apply_headers_batched (rt_manager r) headers in
      let r := put_manager m r in
      let r :=
        match result_ with
        | Ok _ =>
            let '(utxo_height, header_height) := heights m in
            if negb (us_sync_mode (sm_utxo m)) && (header_height >? u32 (utxo_height + 1000))
            then put_sync_mode true r else r
        | Err _ => r
        end in
      emit [reply_of result_] r
  end.

(** The extension is not compared with any header. *)
Definition store_extension (extension_data : bytes) (r : router) : result router Panic :=
  match Extension_parse extension_data with
  | Err PE_CapacityOverflow => Err Panicked
  | Err (PE_Invalid _) => Ok r
  | Ok extension =>
      let m := rt_manager r in
      Ok (put_manager (share_history m (set_storage (sm_history m) (put_extension (sm_storage m) extension))) r)
  end.

(** ** Transactions *)

(** The boxes of the inputs, [None] when one is not found. *)
Fixpoint input_boxes_of (m : StateManager DB) (inputs : list (TxInput Ext)) : option (list ErgoBox) :=
  match inputs with
  | [] => Some []
  | input :: inputs' =>
      match stored_box m (ti_box_id input) with
      | Some b => (fun bs => b :: bs) <$> input_boxes_of m inputs'
      | None => None
      end
  end.

Definition miner_fee (tx : Tx) : Z :=
  sum_u64 (box_value <$> base.filter (fun out => box_tree_bytes out = Some nl_miner_fee_bytes) (tx_outputs tx)).

(** The checks of [AddTransaction]. *)
Definition admit_transaction (m : StateManager DB) (tx_data : bytes) : option Tx :=
  match tx_parse tx_data with
  | None => None
  | Some tx =>
      match input_boxes_of m (tx_inputs tx) with
      | None => None
      | Some input_boxes =>
          if is_ok (validate_data_inputs_exist tx (stored_box m)) &&
             is_ok (validate_erg_conservation tx input_boxes) &&
             is_ok (validate_token_conservation (hash_iter Z) tx input_boxes false)
          then Some tx else None
      end
  end.

(** The pooled transaction keeps the identifier the peer gave. *)
Definition pooled_of (now : Z) (id tx_data : bytes) (tx : Tx) : PooledTransaction :=
  mkPooledTransaction id tx_data (miner_fee tx) (ti_box_id <$> tx_inputs tx) (box_id <$> tx_outputs tx)
    (u64 now) None.

Definition add_transaction (now : Z) (id tx_data : bytes) (r : router) : router :=
  match admit_transaction (rt_manager r) tx_data with
  | None => r
  | Some tx =>
      match add nl_elapsed_ms nl_hash_order (rt_mempool r) (pooled_of now id tx_data tx) with
      | (Ok _, pool) =>
          emit [RO_Command (NC_Broadcast (M_Inv (mkInvData (to_byte MT_Transaction) [id])))]
            (put_mempool pool r)
      | (Err _, pool) => put_mempool pool r
      end
  end.

(** ** The loop *)

Definition handle_command (now : Z) (c : SyncCommand) (r : router) : result router Panic :=
  match c with
  | SC_SendToPeer peer message => Ok (emit [RO_Command (NC_SendMessage peer message)] r)
  | SC_Broadcast message => Ok (emit [RO_Command (NC_Broadcast message)] r)
  | SC_StoreHeader header raw_bytes => Ok (store_header header raw_bytes r)
  | SC_StoreHeadersBatch headers => Ok (store_headers_batch headers r)
  | SC_ApplyBlock block_id block_data => apply_block_command block_id block_data r
  | SC_AddTransaction id tx_data _ => Ok (add_transaction now id tx_data r)
  | SC_StoreExtension _ extension_data => store_extension extension_data r
  end.

Definition router_step (r : router) (input : Z * RouterInput) : result router Panic :=
  let '(now, i) := input in
  match i with
  | RI_Tick => Ok (on_sync_tick r)
  | RI_BlockSync protocol_header_height => Ok (block_sync_check protocol_header_height r)
  | RI_Reconnect => Ok (on_reconnect_tick now r)
  | RI_Network e => Ok (handle_network_event now e r)
  | RI_Command c => handle_command now c r
  end.

(** A run of the loop, from its start. *)
Definition router_run (r : router) (inputs : list (Z * RouterInput)) : result router Panic :=
  rfold router_step r inputs.

(** ** Start-up *)

(** [far_behind], and both sync modes set when it holds. *)
Definition start_router (m : StateManager DB) (pool : Mempool) : router :=
  let '(utxo_height, header_height) := heights m in
  let far_behind := (header_height >? u32 (utxo_height + 1000))
                    || ((utxo_height =? 0) && (header_height >? 0)) in
  let r := mkRouter PeerTables_empty m pool false ∅ [] in
  if far_behind then put_sync_mode true r else r.

Definition HEADER_IDS_TO_LOAD : Z := 50000.

(** The headers at the offsets of a V2 [SyncInfo] that are found. *)
Definition stored_v2_headers (m : StateManager DB) (header_height : Z) : list Header :=
  omap (fun offset =>
    let target_height := sat_sub header_height offset in
    if target_height >? 0 then
      match get_range (sm_storage m) target_height 1 with Ok l => head l | Err _ => None end
    else None) V2_SYNC_OFFSETS.

(** The locator, or the last identifiers when it fails. [None] only for want of
    fuel of the model of the locator. *)
Definition locator_ids (m : StateManager DB) (all_header_ids : list bytes) : list bytes :=
  match get_header_locator (sm_history m) with
  | Some (Ok ids) => ids
  | _ => take 21 (rev all_header_ids)
  end.

(** The protocol that [start_networking] starts with. *)
Definition start_protocol {C : Type} `{LruCache C} (m : StateManager DB) (s : SyncProtocol C)
    : SyncProtocol C :=
  let header_height := (heights m).2 in
  if header_height >? 0 then
    let s := sync_set_height header_height s in
    let start_height := Z.max (sat_sub header_height HEADER_IDS_TO_LOAD) 1 in
    let count := header_height - start_height + 1 in
    match get_ids_range (sm_storage m) start_height count with
    | Ok (id :: ids) =>
        let all_header_ids := id :: ids in
        init_from_stored_headers all_header_ids (locator_ids m all_header_ids)
          (stored_v2_headers m header_height) s
    | _ => s
    end
  else s.

End Node.
