(* ===== verification/NodeBlocksSpec.v ===== *)
(** * What the block pipeline promises

    Reading boxes ahead changes no lookup; every block that reaches the state
    was validated against it, extends its stored parent and is applied at the
    next height; the buffer of early blocks stays bounded; and valid blocks in
    front of an invalid one are dropped with it. *)

From S2P Require Export NodeBlocks BlockSpec ManagerSpec MempoolSpec.

Local Open Scope Z_scope.

Section Spec.
Context {ErgoBox Ext Tx PreHeader : Type} `{ErgoBoxOps ErgoBox} `{ExtensionOps Ext}
  `{TransactionOps ErgoBox Ext Tx} `{ChainTypes} `{!HeaderCodec} `{Blake2b256} `{BigUintBytes}
  {DB : Type} `{Storage DB} `{HashOrder} `{SectionLib} `{!NodeLib ErgoBox Ext PreHeader}.

Abbreviation manager := (StateManager DB).
Abbreviation router := (Router DB).
Abbreviation vblock := (FullBlock Tx * StateChange ErgoBox * bytes)%type.

(** ** Reading ahead *)

Lemma get_boxes_batch_lookup (m : manager) ids fetched i id opt :
  get_boxes_batch (ErgoBox := ErgoBox) (sm_utxo m) ids = Ok fetched ->
  ids !! i = Some id -> fetched !! i = Some opt -> get_box (sm_utxo m) id = Ok opt.
Proof.
  unfold get_boxes_batch, st_multi_get. revert fetched i.
  induction ids as [|x ids IH]; intros fetched i; cbn [fmap list_fmap rmap]; [done|].
  intros (o & Ho & (rest & Hrest & <-%Ok_inj)%rbind_ok)%rbind_ok. destruct i as [|i]; cbn.
  - intros [= ->] [= ->]. unfold get_box. by destruct (st_get _ _ id).
  - intros Hi Ho'. by eapply IH.
Qed.

Lemma prefetched_sound (m : manager) created (block : FullBlock Tx) id b :
  prefetched_boxes m created block !! id = Some b -> stored_box m id = Some b.
Proof.
  unfold prefetched_boxes. destruct (get_boxes_batch _ _) as [fetched|e] eqn:Hf.
  2:{ rewrite zip_with_nil_r. cbn [fold_left]. by rewrite lookup_empty. }
  assert (forall id opt, (id, opt) ∈ zip (prefetch_ids created block) fetched ->
    get_box (sm_utxo m) id = Ok opt) as Hin.
  { intros x opt (i & (y & z & [= -> ->] & ? & ?)%lookup_zip_with_Some)%list_elem_of_lookup.
    by eapply get_boxes_batch_lookup. }
  assert (forall (acc : gmap bytes ErgoBox), (forall x y, acc !! x = Some y -> stored_box m x = Some y) ->
    forall x y, fold_left (fun boxes '(id, opt) => match opt with Some entry => <[id := be_box entry]> boxes
      | None => boxes end) (zip (prefetch_ids created block) fetched) acc !! x = Some y ->
    stored_box m x = Some y) as Hg.
  { clear Hf. induction (zip _ fetched) as [|[x opt] l IH]; intros acc Hacc; cbn [fold_left]; [done|].
    apply IH; [intros; apply Hin; by right|]. intros y z. destruct opt as [entry|]; [|apply Hacc].
    rewrite lookup_insert. case_decide; [|apply Hacc]. intros [= <-]. subst.
    unfold stored_box. by rewrite (Hin y (Some entry)) by left. }
  apply Hg. intros x y. by rewrite lookup_empty.
Qed.

(** C21: reading the boxes of a block ahead in one batch is transparent:
    whatever it fetched, or when it fails, a lookup finds the box a previous
    block of the run created and otherwise the stored one. *)
Theorem prefetch_transparent (m : manager) created (block : FullBlock Tx) id :
  utxo_lookup m created (prefetched_boxes m created block) id =
  match created !! id with Some b => Some b | None => stored_box m id end.
Proof.
  unfold utxo_lookup. destruct (created !! id); [done|].
  destruct (prefetched_boxes m created block !! id) eqn:E; [|done]. symmetry. by eapply prefetched_sound.
Qed.

Lemma delete_spent_lookup (l : list (SpentBox ErgoBox)) (mp : gmap bytes ErgoBox) id :
  fold_left (fun mp sb => delete (sb_box_id sb) mp) l mp !! id =
  if decide (id ∈ sb_box_id <$> l) then None else mp !! id.
Proof.
  revert mp. induction l as [|x l IH]; intros mp; cbn [fold_left fmap list_fmap].
  - rewrite decide_False; [done|]. apply not_elem_of_nil.
  - rewrite IH, lookup_delete. repeat case_decide; set_solver.
Qed.

(** A stored box that an earlier block of the run spends is still found. *)
Lemma spent_box_still_found (m : manager) created change (block : FullBlock Tx) id :
  id ∈ sb_box_id <$> vsc_spent change ->
  utxo_lookup m (track_boxes created change) (prefetched_boxes m (track_boxes created change) block) id =
  stored_box m id.
Proof.
  intros Hin. unfold utxo_lookup, track_boxes at 1. rewrite delete_spent_lookup, decide_True by done.
  destruct (prefetched_boxes _ _ _ !! _) eqn:E; [|done]. symmetry. by eapply prefetched_sound.
Qed.

(** ** Validated runs and applied batches *)

(** Blocks validated one after the other in a state, with the boxes they leave. *)
Inductive validates (m : manager) : list (bytes * bytes) -> list vblock -> gmap bytes ErgoBox -> Prop :=
  | V_nil : validates m [] [] ∅
  | V_snoc bs vs created bid bdata block change :
      validates m bs vs created ->
      validate_next m created bid bdata = Ok (block, change) ->
      validates m (bs ++ [(bid, bdata)])
        (vs ++ [(block, state_change_of (h_height (fb_header block)) change, bid)])
        (track_boxes created change).

(** Batches validated in the state they are applied to, one after the other. *)
Inductive applies (m : manager) : list (list vblock) -> manager -> Prop :=
  | A_nil : applies m [] m
  | A_snoc batches m1 bs batch created sel m2 :
      applies m batches m1 -> validates m1 bs batch created ->
      batch <> [] -> (length batch <= BATCH_WRITE_SIZE)%nat ->
      apply_blocks_batched m1 batch.*1 = Ok (sel, m2) ->
      applies m (batches ++ [batch])
        (update_parameters_for_height_range (Tx := Tx) m2 (from_option height_of 0 (head batch))
           (from_option height_of 0 (last batch))).

(** The blocks reported as applied. *)
Definition applied_events (outs : list RouterOutput) : list (bytes * Z) :=
  omap (fun o => match o with RO_Event (SV_BlockApplied id h) => Some (id, h) | _ => None end) outs.

Lemma applied_events_app l1 l2 : applied_events (l1 ++ l2) = applied_events l1 ++ applied_events l2.
Proof. apply omap_app. Qed.

Lemma applied_events_failed (f : bytes -> string) ids :
  applied_events ((fun bid => RO_Event (SV_BlockFailed bid (f bid))) <$> ids) = [].
Proof. by induction ids. Qed.

(** ** The heights of a batch *)

Lemma contiguous_heights (vs : list vblock) expected :
  contiguous (u32 expected) vs.*1 = true ->
  imap (fun i bid => RO_Event (SV_BlockApplied bid (u32 (expected + Z.of_nat i)))) vs.*2 =
    (fun v => RO_Event (SV_BlockApplied v.2 (height_of v))) <$> vs /\
  height_of <$> vs = (fun i => u32 (expected + i)) <$> seqZ 0 (Z.of_nat (length vs)).
Proof.
  revert expected. induction vs as [|[[block change] bid] vs IH]; intros expected; cbn [fmap list_fmap contiguous]; [done|].
  intros [Hh Hc]%andb_true_iff. apply Z.eqb_eq in Hh.
  assert (u32 (u32 expected + 1) = u32 (expected + 1)) as Hu.
  { unfold wrap. by rewrite Zplus_mod_idemp_l. }
  rewrite Hu in Hc. specialize (IH _ Hc) as [IH1 IH2]. cbn [imap length]. split.
  - rewrite Z.add_0_r. unfold height_of at 1. cbn [fst snd]. rewrite Hh. f_equal.
    rewrite <- IH1. apply imap_ext. intros i x _. cbn. do 3 f_equal. lia.
  - rewrite Nat2Z.inj_succ, seqZ_cons by lia. cbn [fmap list_fmap]. unfold height_of at 1. cbn [fst].
    rewrite Hh, Z.add_0_r. f_equal. rewrite IH2.
    replace (Z.pred (Z.succ (Z.of_nat (length vs)))) with (Z.of_nat (length vs)) by lia.
    rewrite <- (fmap_add_seqZ 1 0), <- list_fmap_compose. apply list_fmap_ext. intros ? i _. cbn. f_equal. lia.
Qed.

(** ** One batch *)

Lemma update_at_fields (m : manager) h :
  sm_utxo (update_parameters_at (Tx := Tx) m h) = sm_utxo m /\
  sm_history (update_parameters_at (Tx := Tx) m h) = sm_history m.
Proof. unfold update_parameters_at, update_parameters_from_block. by repeat case_match. Qed.

Lemma update_range_fields (m : manager) a b :
  sm_utxo (update_parameters_for_height_range (Tx := Tx) m a b) = sm_utxo m /\
  sm_history (update_parameters_for_height_range (Tx := Tx) m a b) = sm_history m.
Proof.
  unfold update_parameters_for_height_range. revert m. induction (seqZ _ _) as [|h l IH]; intros m; [done|].
  cbn [fold_left]. destruct (IH (update_parameters_at m h)) as [-> ->]. apply update_at_fields.
Qed.

Lemma batched_ok (m : manager) (vs : list vblock) sel m' :
  vs <> [] -> apply_blocks_batched m vs.*1 = Ok (sel, m') ->
  from_option height_of 0 (head vs) = u32 (us_height (sm_utxo m) + 1) /\
  contiguous (u32 (us_height (sm_utxo m) + 1)) vs.*1 = true /\
  us_height (sm_utxo m') = from_option height_of 0 (last vs) /\
  us_sync_mode (sm_utxo m') = us_sync_mode (sm_utxo m).
Proof.
  intros Hne. destruct vs as [|[[block change] bid] vs]; [done|]. unfold apply_blocks_batched.
  cbn [fmap list_fmap fst].
  destruct (_ =? _) eqn:Eh; [|done]. apply Z.eqb_eq in Eh.
  destruct (contiguous _ _) eqn:Ec; [|done]. cbn [rbind].
  intros ([[batch cum] mp] & _ & Hm'%Ok_inj)%rbind_ok. injection Hm' as _ <-.
  cbn [head from_option]. unfold height_of at 1. cbn [fst]. split; [done|].
  split; [by rewrite <- Eh|]. cbn. split; [|done].
  change ((block, change) :: vs.*1) with (((block, change), bid) :: vs).*1.
  rewrite fmap_last. destruct (last _) as [[[? ?] ?]|] eqn:El; [done|].
  by apply last_None in El.
Qed.

(** A batch that was applied, and one that was not. *)
Lemma apply_batch_cases batch (r r' : router) ok :
  batch <> [] -> apply_batch batch r = (ok, r') ->
  rt_tables r' = rt_tables r /\ rt_pending_blocks r' = rt_pending_blocks r /\
  rt_storage_sync_mode r' = rt_storage_sync_mode r /\
  us_sync_mode (sm_utxo (rt_manager r')) = us_sync_mode (sm_utxo (rt_manager r)) /\
  if ok then
    exists sel m2, apply_blocks_batched (rt_manager r) batch.*1 = Ok (sel, m2) /\
      rt_manager r' = update_parameters_for_height_range (Tx := Tx) m2
        (from_option height_of 0 (head batch)) (from_option height_of 0 (last batch)) /\
      rt_out r' = rt_out r ++ ((fun v => RO_Event (SV_BlockApplied v.2 (height_of v))) <$> batch) /\
      rt_mempool r' = (remove_confirmed nl_elapsed_ms nl_hash_order (rt_mempool r)
                         (confirmed_tx_ids batch.*1) (spent_inputs batch.*1)).2
  else rt_manager r' = rt_manager r /\ rt_mempool r' = rt_mempool r /\
    exists msg, rt_out r' = rt_out r ++ ((fun bid => RO_Event (SV_BlockFailed bid msg)) <$> batch.*2).
Proof.
  intros Hne. unfold apply_batch. destruct (apply_blocks_batched _ _) as [[sel m2]|e] eqn:Hb.
  - destruct (remove_confirmed _ _ _ _ _) as [n pool] eqn:Hp. intros [= <- <-]. cbn.
    destruct (batched_ok _ _ _ _ Hne Hb) as (Hhd & Hc & _ & Hs).
    destruct (update_range_fields m2 (from_option height_of 0 (head batch))
      (from_option height_of 0 (last batch))) as [-> _].
    repeat (split; [done|]). exists sel, m2. repeat (split; [done|]). split; [|done]. f_equal.
    apply contiguous_heights in Hc as [<- _]. rewrite Hhd. apply imap_ext. intros i x _. cbn. do 2 f_equal.
    unfold wrap. by rewrite Zplus_mod_idemp_l.
  - intros [= <- <-]. cbn. repeat (split; [done|]). by exists (nl_error_text e).
Qed.

Lemma last_seqZ n : 0 < n -> last (seqZ 0 n) = Some (n - 1).
Proof.
  intros Hn. replace n with (n - 1 + 1) at 1 by lia. rewrite seqZ_app by lia.
  rewrite (seqZ_cons (0 + (n - 1))) by lia.
  change (seqZ (Z.succ (0 + (n - 1))) (Z.pred 1)) with (@nil Z). by rewrite last_snoc.
Qed.

(** The heights of the batches applied so far. *)
Lemma applies_heights (m m' : manager) batches :
  applies m batches m' ->
  let n := Z.of_nat (length (concat batches)) in
  height_of <$> concat batches = (fun i => u32 (us_height (sm_utxo m) + 1 + i)) <$> seqZ 0 n /\
  us_height (sm_utxo m') = if n =? 0 then us_height (sm_utxo m) else u32 (us_height (sm_utxo m) + n).
Proof.
  induction 1 as [|batches m1 bs batch created sel m2 _ [IHh IHu] _ Hne _ Hb]; [done|].
  cbn zeta in *. destruct (batched_ok _ _ _ _ Hne Hb) as (_ & Hc & Hu & _).
  rewrite concat_app. cbn [concat]. rewrite app_nil_r, length_app, fmap_app, IHh.
  apply contiguous_heights in Hc as [_ Hhs].
  set (k := Z.of_nat (length (concat batches))) in *.
  assert (height_of <$> batch = (fun i => u32 (us_height (sm_utxo m) + 1 + (k + i))) <$> seqZ 0 (Z.of_nat (length batch))) as Hhs'.
  { rewrite Hhs. apply list_fmap_ext. intros ? i _. cbn. rewrite IHu. destruct (Z.eqb_spec k 0) as [->|_].
    - done.
    - replace (us_height (sm_utxo m) + 1 + (k + i)) with (us_height (sm_utxo m) + k + (1 + i)) by lia.
      replace (u32 (us_height (sm_utxo m) + k) + 1 + i) with (u32 (us_height (sm_utxo m) + k) + (1 + i)) by lia.
      unfold wrap. by rewrite Zplus_mod_idemp_l. }
  assert (0 < length batch)%nat as Hpos by (destruct batch; [done|cbn; lia]).
  rewrite Nat2Z.inj_add. fold k. split.
  - rewrite (seqZ_app 0 k), fmap_app by lia. f_equal. rewrite Hhs', Z.add_0_l.
    replace (seqZ k) with (seqZ (k + 0)) by (f_equal; lia). rewrite <- (fmap_add_seqZ k 0), <- list_fmap_compose. done.
  - destruct (update_range_fields m2 (from_option height_of 0 (head batch))
      (from_option height_of 0 (last batch))) as [-> _]. rewrite Hu.
    destruct (Z.eqb_spec (k + Z.of_nat (length batch)) 0); [lia|].
    assert (height_of <$> last batch = Some (u32 (us_height (sm_utxo m) + (k + Z.of_nat (length batch))))) as Hl.
    { rewrite <- fmap_last, Hhs', fmap_last, last_seqZ by lia. cbn. do 2 f_equal. lia. }
    by destruct (last batch); simplify_eq/=.
Qed.

(** ** The loop over a run *)

(** The pool after the batches. *)
Definition pool_after (pool : Mempool) (batches : list (list vblock)) : Mempool :=
  fold_left (fun p batch => (remove_confirmed nl_elapsed_ms nl_hash_order p (confirmed_tx_ids batch.*1)
                               (spent_inputs batch.*1)).2) batches pool.

(** What the loop leaves of the router. *)
Record kept (r r' : router) : Prop := {
  kept_tables : rt_tables r' = rt_tables r;
  kept_storage_sync : rt_storage_sync_mode r' = rt_storage_sync_mode r;
  kept_utxo_sync : us_sync_mode (sm_utxo (rt_manager r')) = us_sync_mode (sm_utxo (rt_manager r))
}.

Lemma kept_trans r1 r2 r3 : kept r1 r2 -> kept r2 r3 -> kept r1 r3.
Proof. intros [] []. constructor; congruence. Qed.

(** The batches applied on the way from one router to another. *)
Record advanced (r r' : router) (batches : list (list vblock)) : Prop := {
  adv_applies : applies (rt_manager r) batches (rt_manager r');
  adv_events : applied_events (rt_out r') =
    applied_events (rt_out r) ++ ((fun v => (v.2, height_of v)) <$> concat batches);
  adv_pool : rt_mempool r' = pool_after (rt_mempool r) batches
}.

Lemma advanced_refl r : advanced r r [].
Proof. constructor; [constructor|by rewrite app_nil_r|done]. Qed.

Lemma apply_batch_kept batch (r r' : router) ok :
  batch <> [] -> apply_batch batch r = (ok, r') -> kept r r'.
Proof. intros Hne (? & _ & ? & ? & _)%apply_batch_cases; done. Qed.

(** Events other than [BlockApplied]. *)
Lemma applied_events_other (r : router) outs :
  applied_events outs = [] -> applied_events (rt_out r ++ outs) = applied_events (rt_out r).
Proof. intros Ho. by rewrite applied_events_app, Ho, app_nil_r. Qed.

Lemma advanced_step r0 (r r' : router) batches bs batch created ok :
  advanced r0 r batches -> validates (rt_manager r) bs batch created ->
  batch <> [] -> (length batch <= BATCH_WRITE_SIZE)%nat -> apply_batch batch r = (ok, r') ->
  advanced r0 r' (batches ++ (if ok then [batch] else [])).
Proof.
  intros [Ha He Hp] Hv Hne Hlen Hb.
  destruct (apply_batch_cases _ _ _ _ Hne Hb) as (_ & _ & _ & _ & Hc). destruct ok.
  - destruct Hc as (sel & m2 & Hm2 & Hm & Hout & Hpool). constructor.
    + rewrite Hm. by eapply A_snoc.
    + rewrite Hout, applied_events_app, He, concat_app, fmap_app, <- app_assoc. f_equal. f_equal.
      cbn [concat]. rewrite app_nil_r. clear. induction batch as [|v batch IH]; [done|].
      cbn. unfold applied_events in IH. by rewrite IH.
    + rewrite Hpool, Hp. unfold pool_after. by rewrite fold_left_app.
  - destruct Hc as (Hm & Hpool & msg & Hout). rewrite app_nil_r. constructor; [by rewrite Hm| |congruence].
    rewrite Hout, applied_events_other; [done|]. apply (applied_events_failed (fun _ => msg)).
Qed.

Lemma advanced_frame r0 (r r' : router) batches :
  advanced r0 r batches -> rt_manager r' = rt_manager r -> rt_mempool r' = rt_mempool r ->
  applied_events (rt_out r') = applied_events (rt_out r) -> advanced r0 r' batches.
Proof. intros [Ha He Hp] Hm Hpool Ho. constructor; [by rewrite Hm|by rewrite Ho|by rewrite Hpool]. Qed.

Record pipe_inv (r0 : router) (pre : list (bytes * bytes)) (pl : Pipeline DB) : Prop := {
  pi_batches : exists batches bs created rest,
    advanced r0 (pl_router pl) batches /\
    validates (rt_manager (pl_router pl)) bs (pl_validated pl) created /\
    pre.*1 = (concat batches).*2 ++ (pl_validated pl).*2 ++ rest /\
    (pl_failed pl = false -> pl_created pl = created /\ rest = []);
  pi_length : (length (pl_validated pl) < BATCH_WRITE_SIZE)%nat;
  pi_pending : (size (rt_pending_blocks (pl_router pl)) <= size (rt_pending_blocks r0) + pred (length pre))%nat;
  pi_untouched : pl_failed pl = false -> rt_pending_blocks (pl_router pl) = rt_pending_blocks r0;
  pi_nonempty : pl_failed pl = true -> pre <> [];
  pi_kept : kept r0 (pl_router pl)
}.

Lemma pipe_start r0 : pipe_inv r0 [] (mkPipeline r0 [] false ∅).
Proof.
  constructor; cbn; try done; [|unfold BATCH_WRITE_SIZE; lia|lia].
  exists [], [], ∅, []. split; [apply advanced_refl|]. by split; [constructor|].
Qed.

Lemma rebuffer_fields (r : router) bid bdata :
  rt_manager (rebuffer r bid bdata) = rt_manager r /\ rt_mempool (rebuffer r bid bdata) = rt_mempool r /\
  rt_out (rebuffer r bid bdata) = rt_out r /\ kept r (rebuffer r bid bdata) /\
  (size (rt_pending_blocks (rebuffer r bid bdata)) <= S (size (rt_pending_blocks r)))%nat.
Proof.
  unfold rebuffer. repeat case_match; cbn; repeat split; try lia.
  rewrite map_size_insert. case_match; cbn; lia.
Qed.

(** A block that is not validated leaves the run failed. *)
Lemma pipe_failed r0 pre (pl : Pipeline DB) bid bdata outs created :
  pipe_inv r0 pre pl -> pl_failed pl = false -> applied_events outs = [] ->
  pipe_inv r0 (pre ++ [(bid, bdata)]) (mkPipeline (emit outs (pl_router pl)) (pl_validated pl) true created).
Proof.
  intros [(batches & bs & cr & rest & Ha & Hv & Hids & _) Hl Hp Hu _ Hk] Hf Ho. constructor; cbn; try done.
  - exists batches, bs, cr, (rest ++ [bid]). split; [|split; [done|]].
    + eapply advanced_frame; [exact Ha|done..|]. by apply applied_events_other.
    + split; [|done]. rewrite fmap_app, Hids, <- !app_assoc. done.
  - rewrite length_app. cbn. lia.
  - intros _. by destruct pre.
  - by eapply kept_trans; [exact Hk|].
Qed.

Lemma pipe_rebuffered r0 pre (pl : Pipeline DB) bid bdata :
  pipe_inv r0 pre pl -> pl_failed pl = true ->
  pipe_inv r0 (pre ++ [(bid, bdata)])
    (mkPipeline (rebuffer (pl_router pl) bid bdata) (pl_validated pl) true (pl_created pl)).
Proof.
  intros [(batches & bs & cr & rest & Ha & Hv & Hids & _) Hl Hp _ Hn Hk] Hf.
  destruct (rebuffer_fields (pl_router pl) bid bdata) as (Hm & Hpool & Ho & Hkr & Hsz). constructor; cbn; try done.
  - exists batches, bs, cr, (rest ++ [bid]). split; [|split; [by rewrite Hm|]].
    + by eapply advanced_frame; [exact Ha|..]; [done|done|rewrite Ho].
    + split; [|done]. rewrite fmap_app, Hids, <- !app_assoc. done.
  - rewrite length_app. cbn [length]. specialize (Hn Hf). destruct pre; [done|]. cbn in *. lia.
  - intros _. by destruct pre.
  - by eapply kept_trans.
Qed.

Lemma pipe_validated r0 pre (pl pl' : Pipeline DB) bid bdata block change :
  pipe_inv r0 pre pl -> pl_failed pl = false ->
  validate_next (rt_manager (pl_router pl)) (pl_created pl) bid bdata = Ok (block, change) ->
  process_block pl (bid, bdata) = Ok pl' -> pipe_inv r0 (pre ++ [(bid, bdata)]) pl'.
Proof.
  intros [(batches & bs & cr & rest & Ha & Hv & Hids & Hf) Hl Hp Hu _ Hk] Hnf Hok. unfold process_block.
  destruct (Hf Hnf) as [Hc ->]. rewrite Hnf, Hok. rewrite Hc in *.
  pose proof (V_snoc _ _ _ _ _ _ _ _ Hv Hok) as Hv'.
  set (batch := pl_validated pl ++ _) in *. assert (batch <> []) as Hne by (by unfold batch; destruct (pl_validated pl)).
  assert ((pre ++ [(bid, bdata)]).*1 = (concat batches).*2 ++ batch.*2 ++ []) as Hids'.
  { unfold batch. rewrite !fmap_app, Hids, !app_nil_r, <- app_assoc. done. }
  assert (length (pre ++ [(bid, bdata)]) = S (length pre)) as Hlen by (rewrite length_app; cbn; lia).
  destruct (Nat.leb_spec BATCH_WRITE_SIZE (length batch)) as [Hge|Hlt].
  - destruct (apply_batch batch (pl_router pl)) as [ok r'] eqn:Eb. intros <-%Ok_inj.
    destruct (apply_batch_cases _ _ _ _ Hne Eb) as (_ & Hpb & _).
    assert (length batch <= BATCH_WRITE_SIZE)%nat as Hle.
    { unfold batch in *. rewrite length_app in *. cbn [length] in *. lia. }
    constructor; cbn.
    + eexists _, [], ∅, (if ok then [] else batch.*2).
      split; [by eapply advanced_step|]. split; [constructor|]. split; [|by destruct ok].
      rewrite Hids'. destruct ok; rewrite ?app_nil_r; [|done].
      rewrite concat_app, fmap_app. cbn. by rewrite app_nil_r.
    + unfold BATCH_WRITE_SIZE. lia.
    + rewrite Hpb, Hlen. lia.
    + intros _. by rewrite Hpb, Hu.
    + intros _. by destruct pre.
    + eapply kept_trans; [exact Hk|]. by eapply apply_batch_kept.
  - intros <-%Ok_inj. constructor; cbn; try done.
    + eexists batches, _, _, []. split; [exact Ha|]. split; [exact Hv'|]. done.
    + rewrite Hlen. lia.
    + intros _. by apply Hu.
Qed.

Lemma pipe_step r0 pre (pl pl' : Pipeline DB) b :
  pipe_inv r0 pre pl -> process_block pl b = Ok pl' -> pipe_inv r0 (pre ++ [b]) pl'.
Proof.
  destruct b as [bid bdata]. intros Hinv. destruct (pl_failed pl) eqn:Ef.
  { unfold process_block. rewrite Ef. intros <-%Ok_inj. by apply pipe_rebuffered. }
  destruct (validate_next (rt_manager (pl_router pl)) (pl_created pl) bid bdata) as [[block change]|e] eqn:Ev.
  { by eapply pipe_validated. }
  unfold process_block. rewrite Ef, Ev. destruct e as [msg| |]; [| |done]; intros <-%Ok_inj.
  - by apply pipe_failed.
  - pose proof (pipe_failed r0 pre pl bid bdata [] (pl_created pl) Hinv Ef eq_refl) as Hp.
    destruct (pl_router pl) eqn:Er. unfold emit in Hp. cbn in Hp. by rewrite app_nil_r in Hp.
Qed.

Lemma pipe_run r0 blocks pl :
  rfold process_block (mkPipeline r0 [] false ∅) blocks = Ok pl -> pipe_inv r0 blocks pl.
Proof.
  revert pl. induction blocks as [|b blocks IH] using rev_ind; intros pl.
  - intros <-%Ok_inj. apply pipe_start.
  - rewrite rfold_app. intros (pl1 & Hpl1 & (pl2 & Hpl2 & <-%Ok_inj)%rbind_ok)%rbind_ok.
    by eapply pipe_step; [apply IH|].
Qed.

(** A run: what it applied, from the front of the run, and what it kept. *)
Lemma process_blocks_spec (r r' : router) blocks :
  process_blocks r blocks = Ok r' ->
  (exists batches rest, advanced r r' batches /\ blocks.*1 = (concat batches).*2 ++ rest) /\
  (size (rt_pending_blocks r') <= size (rt_pending_blocks r) + pred (length blocks))%nat /\ kept r r'.
Proof.
  unfold process_blocks. intros (pl & Hpl%pipe_run & Hr')%rbind_ok.
  destruct Hpl as [(batches & bs & cr & rest & Ha & Hv & Hids & Hf) Hl Hp Hu _ Hk].
  destruct (negb _ && _) eqn:Eb; apply Ok_inj in Hr' as <-.
  - apply andb_true_iff in Eb as [Hne Hnf]. apply negb_true_iff in Hne, Hnf. apply bool_decide_eq_false in Hne.
    destruct (Hf Hnf) as [Hc ->]. assert (pl_validated pl <> []) as Hne' by (by destruct (pl_validated pl)).
    destruct (apply_batch _ _) as [ok r'] eqn:Eb.
    destruct (apply_batch_cases _ _ _ _ Hne' Eb) as (_ & Hpb & _).
    cbn [snd]. split; [|split; [rewrite Hpb; exact Hp|]].
    + eexists _, (if ok then [] else (pl_validated pl).*2). split; [eapply advanced_step; [done..| |done]; lia|].
      rewrite Hids. destruct ok; rewrite ?app_nil_r; [|done]. rewrite concat_app, fmap_app. cbn. by rewrite app_nil_r.
    + eapply kept_trans; [exact Hk|]. by eapply apply_batch_kept.
  - split; [|done]. by eexists _, _.
Qed.

(** ** The buffer *)

Lemma drain_size fuel pending next blocks rest :
  drain fuel pending next = (blocks, rest) -> (length blocks + size rest = size pending)%nat.
Proof.
  revert pending next blocks rest. induction fuel as [|fuel IH]; intros pending next blocks rest; cbn [drain].
  { by intros [= <- <-]. }
  destruct (pending !! next) as [b|] eqn:Eb; [|by intros [= <- <-]].
  destruct (drain fuel _ _) as [bs rs] eqn:Ed. intros [= <- <-]. apply IH in Ed.
  rewrite map_size_delete_Some in Ed by done.
  assert (size pending <> 0)%nat by (intros Hz%map_size_empty_inv; by rewrite Hz, lookup_empty in Eb).
  cbn [length]. lia.
Qed.

(** With the size of the buffer as fuel, the run taken out is as long as
    possible: it ends at a height that is not buffered. *)
Lemma drain_maximal fuel pending next blocks rest :
  (size pending <= fuel)%nat -> drain fuel pending next = (blocks, rest) ->
  rest !! u32 (u32 next + Z.of_nat (length blocks)) = None \/ blocks = [] /\ rest !! next = None.
Proof.
  revert pending next blocks rest. induction fuel as [|fuel IH]; intros pending next blocks rest Hs; cbn [drain].
  { intros [= <- <-]. right. split; [done|]. assert (pending = ∅) as -> by (apply map_size_empty_inv; lia).
    apply lookup_empty. }
  destruct (pending !! next) as [b|] eqn:Eb; [|intros [= <- <-]; by right].
  destruct (drain fuel _ _) as [bs rs] eqn:Ed. intros [= <- <-]. left.
  assert (size pending <> 0)%nat by (intros Hz%map_size_empty_inv; by rewrite Hz, lookup_empty in Eb).
  apply IH in Ed; [|rewrite map_size_delete_Some by done; lia].
  assert (forall x y, u32 (u32 x + y) = u32 (x + y)) as Hu by (intros; unfold wrap; apply Zplus_mod_idemp_l).
  rewrite !Hu in *. cbn [length]. destruct Ed as [Hn|[-> Hn]].
  - rewrite <- Hn. f_equal. f_equal. lia.
  - rewrite <- Hn. f_equal.
Qed.

(** ** The pool *)

Lemma remove_confirmed_wf m ids spent :
  wf m -> wf (remove_confirmed nl_elapsed_ms nl_hash_order m ids spent).2.
Proof. intros Hwf. rewrite remove_confirmed_eq. by apply remove_all_spec, remove_all_spec. Qed.

Lemma pool_after_clears pool batches :
  wf pool -> wf (pool_after pool batches) /\ forall id tx,
  transactions (pool_after pool batches) !! id = Some tx <->
  transactions pool !! id = Some tx /\ forall v, v ∈ concat batches ->
    id ∉ tx_id <$> bt_txs (fb_transactions v.1.1) /\
    forall input, input ∈ sc_spent v.1.2 -> input ∉ ptx_inputs tx.
Proof.
  unfold pool_after. revert pool. induction batches as [|batch batches IH]; intros pool Hwf; cbn [fold_left concat].
  { split; [done|]. intros id tx. split; [|naive_solver]. intros Ht. split; [done|]. by intros v ?%not_elem_of_nil. }
  set (p1 := (remove_confirmed _ _ _ _ _).2).
  destruct (IH p1 (remove_confirmed_wf _ _ _ Hwf)) as [Hw Hi]. split; [done|]. intros id tx. rewrite Hi. unfold p1.
  rewrite remove_confirmed_clears by done. unfold confirmed_tx_ids, spent_inputs.
  assert (forall {B} (f : FullBlock Tx * StateChange ErgoBox -> list B) y,
    y ∈ (batch.*1 ≫= f) <-> exists v, v ∈ batch /\ y ∈ f v.1) as Hbind.
  { intros B f y. rewrite list_elem_of_bind. split.
    - intros (x & Hy & (v & -> & Hv)%list_elem_of_fmap). eauto.
    - intros (v & Hv & Hy). exists v.1. split; [done|]. apply list_elem_of_fmap. eauto. }
  setoid_rewrite Hbind. setoid_rewrite elem_of_app. split.
  - intros ((Ht & Hid & Hsp) & Hrest). split; [done|]. intros v [Hv|Hv]; [|by apply Hrest].
    split; [intros Hin; apply Hid; eauto|]. intros input Hin. apply Hsp. eauto.
  - intros [Ht Hall]. split; [|intros; apply Hall; by right]. split; [done|]. split.
    + intros (v & Hv & Hin). by apply (Hall v (or_introl Hv)).
    + intros input (v & Hv & Hin). by apply (Hall v (or_introl Hv)).
Qed.

(** ** Validated blocks extend their stored parents *)

Lemma validate_next_extends (m : manager) created bid bdata block change :
  validate_next m created bid bdata = Ok (block, change) ->
  exists parent, get_header (sm_storage m) (header_id_of bid) = Ok (Some (fb_header block)) /\
    parent_of m (fb_header block) = Ok parent /\
    bvr_valid (validation_of m created block parent) = true /\
    validate_header (fb_header block) parent = Ok tt.
Proof.
  unfold validate_next. destruct (BlockTransactions_parse _ _) as [txs|[]]; try done.
  destruct (get_header _ _) as [[hdr|]|]; try done.
  intros (parent & Hp & Hrest)%rbind_ok. exists parent.
  destruct (bvr_valid _) eqn:Hv; cbn [negb] in Hrest; [|done].
  destruct (bvr_state_change _); [|done]. apply Ok_inj in Hrest. injection Hrest as <- _. cbn [fb_header].
  repeat (split; [done|]). apply validate_block_ok in Hv. by destruct Hv as (_ & _ & ? & _).
Qed.

(** Whether the node validates a block in checkpoint mode. *)
Definition checkpointed (block : FullBlock Tx) : bool :=
  h_height (fb_header block) <=? ck_height Checkpoint_mainnet.

(** The state change of the transactions of a block: all outputs are created,
    and, unless it is checkpointed, all inputs are spent. *)
Definition change_of_block (block : FullBlock Tx) : StateChange ErgoBox :=
  let txs := bt_txs (fb_transactions block) in
  mkStateChange
    ((fun cb => mkBoxEntry (cb_ergo_box cb) (h_height (fb_header block)) (cb_tx_id cb) (cb_output_index cb))
       <$> all_created txs)
    (if checkpointed block then [] else base.filter (fun id => length id = 32%nat) (all_input_ids txs)).

Lemma validate_next_change (m : manager) created bid bdata block change :
  validate_next m created bid bdata = Ok (block, change) ->
  state_change_of (h_height (fb_header block)) change = change_of_block block.
Proof.
  unfold validate_next. destruct (BlockTransactions_parse _ _) as [txs|[]]; try done.
  destruct (get_header _ _) as [[hdr|]|]; try done.
  intros (parent & Hp & Hrest)%rbind_ok. destruct (bvr_valid _) eqn:Hv; cbn [negb] in Hrest; [|done].
  destruct (bvr_state_change _) as [c|] eqn:Hc; [|done]. apply Ok_inj in Hrest. injection Hrest as <- <-.
  destruct (valid_block_change _ _ _ _ _ _ _ _ _ _ _ Hv Hc) as [Hcr Hsp].
  unfold state_change_of, change_of_block, spent_box_ids. rewrite Hcr, Hsp. f_equal.
  unfold checkpointed, is_below_checkpoint. cbn [with_parameters checkpoint]. by destruct (_ <=? _).
Qed.

(** A block of a batch extends its parent in the state it was validated in. *)
Definition extends_parent (m : manager) (v : vblock) : Prop :=
  exists parent, get_header (sm_storage m) (header_id_of v.2) = Ok (Some (fb_header v.1.1)) /\
    parent_of m (fb_header v.1.1) = Ok parent /\
    height_of v = u32 (h_height parent + 1) /\ h_parent_id (fb_header v.1.1) = h_id parent /\
    h_timestamp parent < h_timestamp (fb_header v.1.1).

Lemma validate_header_facts (header parent : Header) :
  validate_header header parent = Ok tt ->
  h_height header = u32 (h_height parent + 1) /\ h_parent_id header = h_id parent /\
  h_timestamp parent < h_timestamp header.
Proof.
  unfold validate_header. destruct (h_height header =? _) eqn:Eh; [|done]. cbn [negb].
  destruct (_ <=? _) eqn:Et; [done|]. destruct (bool_decide _) eqn:Ep; [|done]. intros _. zify_bool.
  apply bool_decide_eq_true in Ep. split; [lia|]. split; [done|lia].
Qed.

Lemma validates_extend (m : manager) bs vs created v :
  validates m bs vs created -> v ∈ vs -> extends_parent m v.
Proof.
  induction 1 as [|bs vs created bid bdata block change _ IH Hok]; [by intros ?%not_elem_of_nil|].
  intros [Hv| ->%list_elem_of_singleton]%elem_of_app; [by apply IH|].
  apply validate_next_extends in Hok as (parent & Hg & Hp & _ & Hh%validate_header_facts). by exists parent.
Qed.

Lemma validates_change (m : manager) bs vs created v :
  validates m bs vs created -> v ∈ vs -> v.1.2 = change_of_block v.1.1.
Proof.
  induction 1 as [|bs vs created bid bdata block change _ IH Hok]; [by intros ?%not_elem_of_nil|].
  intros [Hv| ->%list_elem_of_singleton]%elem_of_app; [by apply IH|]. cbn. by eapply validate_next_change.
Qed.

Lemma applies_change (m m' : manager) batches v :
  applies m batches m' -> v ∈ concat batches -> v.1.2 = change_of_block v.1.1.
Proof.
  induction 1 as [|batches m1 bs batch created sel m2 _ IH Hv _ _ _]; [by intros ?%not_elem_of_nil|].
  rewrite concat_app, elem_of_app. cbn [concat]. rewrite app_nil_r. intros [Hin|Hin]; [by apply IH|].
  by eapply validates_change.
Qed.

Lemma change_spends (block : FullBlock Tx) input :
  input ∈ sc_spent (change_of_block block) <->
  checkpointed block = false /\ input ∈ all_input_ids (bt_txs (fb_transactions block)) /\ length input = 32%nat.
Proof.
  unfold change_of_block. cbn [sc_spent]. destruct (checkpointed block).
  - split; [by intros ?%not_elem_of_nil|by intros [? _]].
  - rewrite list_elem_of_filter. naive_solver.
Qed.

Lemma applies_extend (m m' : manager) batches v :
  applies m batches m' -> v ∈ concat batches ->
  exists pre m1, applies m pre m1 /\ extends_parent m1 v.
Proof.
  induction 1 as [|batches m1 bs batch created sel m2 Ha IH Hv _ _ _]; [by intros ?%not_elem_of_nil|].
  rewrite concat_app, elem_of_app. cbn [concat]. rewrite app_nil_r. intros [Hin|Hin]; [by apply IH|].
  exists batches, m1. split; [done|]. by eapply validates_extend.
Qed.

(** ** The command *)

Lemma request_blocks_fields (r : router) count hh :
  rt_manager (request_blocks count hh r) = rt_manager r /\ rt_mempool (request_blocks count hh r) = rt_mempool r /\
  rt_pending_blocks (request_blocks count hh r) = rt_pending_blocks r /\
  applied_events (rt_out (request_blocks count hh r)) = applied_events (rt_out r) /\
  kept r (request_blocks count hh r).
Proof.
  unfold request_blocks. repeat case_match; try done. repeat (split; [done|]). split; [|done].
  by apply applied_events_other.
Qed.

(** The sync modes: as they were, or both switched off. *)
Definition sync_ended (r r' : router) : Prop :=
  rt_storage_sync_mode r' = false /\ us_sync_mode (sm_utxo (rt_manager r')) = false /\
  rt_manager r' = manager_sync_mode false (rt_manager r).

Lemma after_blocks_fields (r : router) :
  rt_tables (after_blocks r) = rt_tables r /\ rt_mempool (after_blocks r) = rt_mempool r /\
  rt_pending_blocks (after_blocks r) = rt_pending_blocks r /\
  applied_events (rt_out (after_blocks r)) = applied_events (rt_out r) /\
  (rt_manager (after_blocks r) = rt_manager r /\ rt_storage_sync_mode (after_blocks r) = rt_storage_sync_mode r
   \/ sync_ended r (after_blocks r)).
Proof.
  unfold after_blocks. destruct (heights _) as [u hh]. set (r1 := if _ && _ then put_sync_mode false r else r).
  assert (rt_tables r1 = rt_tables r /\ rt_mempool r1 = rt_mempool r /\
    rt_pending_blocks r1 = rt_pending_blocks r /\ rt_out r1 = rt_out r /\
    (rt_manager r1 = rt_manager r /\ rt_storage_sync_mode r1 = rt_storage_sync_mode r \/ sync_ended r r1))
    as (H1' & H2' & H3' & H4' & Hs).
  { unfold r1. case_match; cbn; repeat (split; [done|]); [by right|by left]. }
  destruct (u <? hh).
  - destruct (request_blocks_fields r1 256 hh) as (Hm & Hp & Hb & He & [Ht Hst _]).
    rewrite Ht, Hp, Hb, He, H4'. repeat (split; [done|]). unfold sync_ended in *. by rewrite Hm, Hst.
  - rewrite H4'. done.
Qed.

(** What a command does to the buffer, the tables and the sync modes. *)
Definition command_frame (r r' : router) : Prop :=
  rt_tables r' = rt_tables r /\
  ((size (rt_pending_blocks r) <= MAX_PENDING_BLOCKS)%nat -> (size (rt_pending_blocks r') <= MAX_PENDING_BLOCKS)%nat) /\
  (rt_storage_sync_mode r = us_sync_mode (sm_utxo (rt_manager r)) ->
   rt_storage_sync_mode r' = us_sync_mode (sm_utxo (rt_manager r'))) /\
  exists batches r1, advanced r r1 batches /\
    (rt_manager r' = rt_manager r1 \/ rt_manager r' = manager_sync_mode false (rt_manager r1)) /\
    rt_mempool r' = rt_mempool r1 /\ applied_events (rt_out r') = applied_events (rt_out r1).

Lemma command_frame_idle (r : router) pending :
  ((size (rt_pending_blocks r) <= MAX_PENDING_BLOCKS)%nat -> (size pending <= MAX_PENDING_BLOCKS)%nat) ->
  command_frame r (put_pending_blocks pending r).
Proof.
  intros Hs. split; [done|]. split; [exact Hs|]. split; [done|].
  exists [], r. split; [apply advanced_refl|]. auto.
Qed.

Lemma command_frame_refl (r : router) : command_frame r r.
Proof. destruct r. by apply (command_frame_idle (mkRouter _ _ _ _ _ _)). Qed.

Lemma apply_block_command_frame (r r' : router) block_id block_data :
  apply_block_command block_id block_data r = Ok r' -> command_frame r r'.
Proof.
  unfold apply_block_command.
  assert (Ok r = Ok (E := Panic) r' -> command_frame r r') as Hidle by (intros <-%Ok_inj; apply command_frame_refl).
  destruct (get_header _ _) as [[header|]|]; [|done..].
  destruct (_ =? _).
  - destruct (drain _ _ _) as [blocks pending] eqn:Ed. apply drain_size in Ed.
    intros (r1 & Hr1 & <-%Ok_inj)%rbind_ok.
    destruct (process_blocks_spec _ _ _ Hr1) as ((batches & rest & Ha & _) & Hsz & [Kt Ks Ku]).
    cbn [put_pending_blocks rt_pending_blocks rt_tables rt_storage_sync_mode rt_manager length pred] in *.
    destruct (after_blocks_fields r1) as (Ht & Hp & Hb & He & Hs). split; [congruence|].
    split; [rewrite Hb; lia|]. split.
    + intros Heq. destruct Hs as [[-> ->]|(-> & -> & _)]; [congruence|done].
    + exists batches, r1. split; [by destruct Ha|]. split; [|done].
      destruct Hs as [[-> _]|(_ & _ & ->)]; auto.
  - destruct (_ >? _); [|done].
    destruct (Nat.leb_spec MAX_PENDING_BLOCKS (size (rt_pending_blocks r))) as [|Hlt]; [done|].
    intros <-%Ok_inj. apply command_frame_idle. intros _. rewrite map_size_insert. case_match; cbn; lia.
Qed.

(** C14: the blocks an [ApplyBlock] command brings into the state were
    validated, in batches, each in the state its batch was applied to: every one
    extends its stored parent, and its change creates all outputs of its
    transactions and, above the checkpoint, spends all their inputs; the blocks
    occupy the heights above the UTXO height in order and exactly they are
    reported as applied.  A pooled transaction stays exactly when no applied
    block contains it and, for blocks above the checkpoint, none has a
    transaction with one of its inputs; a block below the checkpoint only clears
    what it contains. *)
Theorem blocks_applied_validated (r r' : router) block_id block_data :
  wf (rt_mempool r) ->
  apply_block_command block_id block_data r = Ok r' ->
  exists batches m', applies (rt_manager r) batches m' /\
    (rt_manager r' = m' \/ rt_manager r' = manager_sync_mode false m') /\
    let vs := concat batches in
    let n := Z.of_nat (length vs) in
    let h := us_height (sm_utxo (rt_manager r)) in
    applied_events (rt_out r') = applied_events (rt_out r) ++ ((fun v => (v.2, height_of v)) <$> vs) /\
    height_of <$> vs = (fun i => u32 (h + 1 + i)) <$> seqZ 0 n /\
    us_height (sm_utxo (rt_manager r')) = (if n =? 0 then h else u32 (h + n)) /\
    (forall v, v ∈ vs -> v.1.2 = change_of_block v.1.1 /\
       exists pre m1, applies (rt_manager r) pre m1 /\ extends_parent m1 v) /\
    forall id tx, transactions (rt_mempool r') !! id = Some tx <->
      transactions (rt_mempool r) !! id = Some tx /\ forall v, v ∈ vs ->
        let txs := bt_txs (fb_transactions v.1.1) in
        id ∉ tx_id <$> txs /\
        (checkpointed v.1.1 = false -> forall input, input ∈ all_input_ids txs -> length input = 32%nat ->
           input ∉ ptx_inputs tx).
Proof.
  intros Hwf Hcmd. destruct (apply_block_command_frame _ _ _ _ Hcmd)
    as (_ & _ & _ & batches & r1 & [Ha He Hp] & Hm & Hpool & Hev).
  exists batches, (rt_manager r1). split; [done|]. split; [done|]. cbn zeta.
  destruct (applies_heights _ _ _ Ha) as [Hh Hu]. split; [by rewrite Hev|]. split; [exact Hh|].
  split; [by destruct Hm as [-> | ->]|].
  split; [intros v Hv; split; [by eapply applies_change|by eapply applies_extend]|].
  rewrite Hpool, Hp. destruct (pool_after_clears (rt_mempool r) batches Hwf) as [_ Hc].
  intros id tx. rewrite Hc. apply and_iff_compat_l.
  split; intros Hall v Hv; destruct (Hall v Hv) as [Hid Hsp]; (split; [exact Hid|]).
  - intros Hck input Hin Hlen. apply Hsp. rewrite (applies_change _ _ _ _ Ha Hv). by apply change_spends.
  - intros input. rewrite (applies_change _ _ _ _ Ha Hv). intros (Hck & Hin & Hlen)%change_spends. by apply Hsp.
Qed.

(** ** A failure in a run *)

Lemma run_failed (r : router) vs created rest :
  rfold process_block (mkPipeline r vs true created) rest =
  Ok (mkPipeline (fold_left (fun r b => rebuffer r b.1 b.2) rest r) vs true created).
Proof. revert r. induction rest as [|[bid bdata] rest IH]; intros r; [done|]. apply IH. Qed.

(** The height at which the header of a block is stored. *)
Definition stored_height (m : manager) (bid : bytes) : option Z :=
  match get_header (sm_storage m) (header_id_of bid) with Ok (Some hdr) => Some (h_height hdr) | _ => None end.

(** The last of some blocks at a height. *)
Definition last_at (m : manager) (blocks : list (bytes * bytes)) (height : Z) : option (bytes * bytes) :=
  last (base.filter (fun b => stored_height m b.1 = Some height) blocks).

Lemma last_at_cons m b blocks height :
  last_at m (b :: blocks) height =
  match last_at m blocks height with
  | Some b' => Some b'
  | None => if decide (stored_height m b.1 = Some height) then Some b else None
  end.
Proof.
  unfold last_at. rewrite filter_cons. case_decide; [|by destruct (last _)].
  rewrite last_cons. by destruct (last _).
Qed.

(** What buffering some blocks again leaves. *)
Lemma rebuffer_all (r : router) rest :
  let r' := fold_left (fun r b => rebuffer r b.1 b.2) rest r in
  rt_manager r' = rt_manager r /\ rt_mempool r' = rt_mempool r /\ rt_out r' = rt_out r /\
  forall height, rt_pending_blocks r' !! height =
    match last_at (rt_manager r) rest height with Some b => Some b | None => rt_pending_blocks r !! height end.
Proof.
  revert r. induction rest as [|[bid bdata] rest IH]; intros r; [done|]. cbn [fold_left fst snd].
  destruct (rebuffer_fields r bid bdata) as (Hm & Hp & Ho & _).
  destruct (IH (rebuffer r bid bdata)) as (-> & -> & -> & Hpend). split_and!; [done..|]. intros height.
  rewrite Hpend, Hm, last_at_cons. destruct (last_at _ rest height); [done|].
  unfold rebuffer, stored_height. cbn [fst]. destruct (get_header _ _) as [[hdr|]|]; try done.
  cbn [rt_pending_blocks put_pending_blocks]. rewrite lookup_insert. by repeat case_decide; simplify_eq.
Qed.

(** C36: when a block of a run fails validation, the run returns; the blocks in
    front of it are the batches that were applied and then fewer than a batch
    of blocks that were validated and are dropped: they are not applied, not
    reported and not kept in the buffer.  Only the failure is reported, and
    each block behind it is in the buffer with its data at the height of its
    stored header (the last of those at one height); the rest of the buffer is
    as it was. *)
Theorem failure_drops_validated (r : router) pre pl bid bdata rest e :
  rfold process_block (mkPipeline r [] false ∅) pre = Ok pl -> pl_failed pl = false ->
  validate_next (rt_manager (pl_router pl)) (pl_created pl) bid bdata = Err e -> e <> BF_Panic ->
  exists r' batches bs dropped created,
    process_blocks r (pre ++ (bid, bdata) :: rest) = Ok r' /\
    pre.*1 = (concat batches).*2 ++ dropped.*2 /\
    applies (rt_manager r) batches (rt_manager r') /\ rt_mempool r' = pool_after (rt_mempool r) batches /\
    validates (rt_manager r') bs dropped created /\ (length dropped < BATCH_WRITE_SIZE)%nat /\
    rt_out r' = rt_out (pl_router pl) ++
      (match e with BF_Reported msg => [RO_Event (SV_BlockFailed bid msg)] | _ => [] end) /\
    applied_events (rt_out r') = applied_events (rt_out r) ++ ((fun v => (v.2, height_of v)) <$> concat batches) /\
    (forall height, rt_pending_blocks r' !! height =
       match last_at (rt_manager r') rest height with Some b => Some b | None => rt_pending_blocks r !! height end).
Proof.
  intros Hpl Hnf He Hnp. destruct (pipe_run _ _ _ Hpl) as [(batches & bs & cr & lost & Ha & Hv & Hids & Hf) Hl _ Hu _ _].
  destruct (Hf Hnf) as [_ ->]. rewrite app_nil_r in Hids.
  set (outs := match e with BF_Reported msg => [RO_Event (SV_BlockFailed bid msg)] | _ => [] end).
  assert (process_blocks r (pre ++ (bid, bdata) :: rest) =
    Ok (fold_left (fun r b => rebuffer r b.1 b.2) rest (emit outs (pl_router pl)))) as Hrun.
  { unfold process_blocks. rewrite rfold_app, Hpl. cbn [rbind rfold]. unfold process_block at 1. rewrite Hnf, He.
    assert (emit [] (pl_router pl) = pl_router pl) as Hnil by (destruct (pl_router pl); unfold emit; cbn; by rewrite app_nil_r).
    subst outs. destruct e as [msg| |]; [| |done]; cbn [rbind]; rewrite run_failed; cbn [rbind pl_validated pl_failed pl_router];
      rewrite andb_false_r; [done|]. by rewrite Hnil. }
  destruct (rebuffer_all (emit outs (pl_router pl)) rest) as (Hm & Hp & Ho & Hpend).
  set (r' := fold_left _ rest _) in *. cbn [emit rt_manager rt_mempool rt_out rt_pending_blocks] in Hm, Hp, Ho, Hpend.
  exists r', batches, bs, (pl_validated pl), cr. destruct Ha as [Ha Hev Hpool]. rewrite Hm, Hp, Ho.
  split_and!; try done.
  - rewrite applied_events_app, Hev. assert (applied_events outs = []) as -> by (by destruct e). by rewrite app_nil_r.
  - intros height. by rewrite Hpend, (Hu Hnf).
Qed.

End Spec.
