(* ===== verification/NodeSpec.v ===== *)
(** * What the event router promises

    The invariant of every run of the node's loop, the schedule of
    reconnections, what is told to other peers, and what admits a transaction. *)

From S2P Require Export Node NodeBlocksSpec.

Local Open Scope Z_scope.

(** ** The peer tables *)

Section Peers.
Context `{HashOrderLaws} `{AddressOrdersLaws}.

Lemma is_connected_spec t addr :
  is_connected t addr = true <-> exists peer, peer_addresses t !! peer = Some addr.
Proof.
  unfold is_connected. rewrite existsb_exists. split.
  - intros ([peer a] & Hin & He%bool_decide_eq_true). cbn in He. subst.
    apply list_elem_of_In, elem_of_map_to_list in Hin. by exists peer.
  - intros (peer & Hp). exists (peer, addr). rewrite <- list_elem_of_In, elem_of_map_to_list.
    split; [done|]. by apply bool_decide_eq_true.
Qed.

Lemma is_connected_false t addr :
  is_connected t addr = false <-> forall peer, peer_addresses t !! peer <> Some addr.
Proof.
  rewrite <- not_true_iff_false, is_connected_spec. naive_solver.
Qed.

(** The invariant of the tables: an entry of the queue is filed under its
    address, there is a handshake for every connected peer and no other, and no
    discovered address is connected. *)
Record tables_ok (t : PeerTables) : Prop := {
  to_queue addr info : reconnect_queue t !! addr = Some info -> ri_addr info = addr;
  to_handshakes : dom (peer_handshakes t) = dom (peer_addresses t);
  to_discovered addr : addr ∈ discovered_peers t -> is_connected t addr = false
}.

Lemma tables_ok_empty : tables_ok PeerTables_empty.
Proof. constructor; cbn; [intros *; by rewrite lookup_empty|set_solver|set_solver]. Qed.

Lemma connected_ok t peer addr hs : tables_ok t -> tables_ok (peer_connected peer addr hs t).
Proof.
  intros [Hq Hh Hd]. constructor; cbn.
  - intros a info. rewrite lookup_delete. case_decide; [done|]. rewrite lookup_alter_ne by done. apply Hq.
  - by rewrite !dom_insert_L, Hh.
  - intros a [Ha Hne]%elem_of_difference. apply is_connected_false. cbn. intros p. rewrite lookup_insert.
    case_decide; [intros [= ->]; set_solver|]. by apply is_connected_false, Hd.
Qed.

Lemma disconnected_ok now t peer : tables_ok t -> tables_ok (peer_disconnected now peer t).
Proof.
  intros [Hq Hh Hd]. constructor; cbn.
  - intros a info. destruct (peer_addresses t !! peer) as [addr|]; [|apply Hq].
    destruct (reconnect_queue t !! addr); [apply Hq|]. rewrite lookup_insert. case_decide; [|apply Hq].
    by intros [= <-].
  - by rewrite !dom_delete_L, Hh.
  - intros a Ha. apply is_connected_false. cbn. intros p. rewrite lookup_delete. case_decide; [done|].
    by apply is_connected_false, Hd.
Qed.

Lemma failed_ok now t addr : tables_ok t -> tables_ok (connection_failed now addr t).
Proof.
  intros [Hq Hh Hd]. constructor; cbn; [|done|exact Hd]. intros a info. rewrite lookup_insert.
  case_decide; [|apply Hq]. intros [= <-]. subst. destruct (reconnect_queue t !! a) eqn:E; [|done]. by apply Hq in E.
Qed.

Lemma discover_fold t (peers : list PeerSpec) (s : gset SocketAddr) addr :
  addr ∈ fold_left (fun (s : gset SocketAddr) spec =>
    match ps_declared_addr spec with
    | Some d => if is_connected t (mkSocketAddr (da_ip d) (da_port d)) then s
                else {[mkSocketAddr (da_ip d) (da_port d)]} ∪ s
    | None => s
    end) peers s -> addr ∈ s \/ is_connected t addr = false.
Proof.
  revert s. induction peers as [|p peers IH]; intros s; cbn [fold_left]; [by left|].
  intros [Hin|]%IH; [|by right]. destruct (ps_declared_addr p) as [d|]; [|by left].
  destruct (is_connected t (mkSocketAddr _ _)) eqn:E; [by left|]. apply elem_of_union in Hin as [->%elem_of_singleton|]; auto.
Qed.

Lemma discover_ok t peers : tables_ok t -> tables_ok (discover t peers).
Proof.
  intros [Hq Hh Hd]. constructor; cbn; [exact Hq|exact Hh|].
  intros addr [Ha|Ha]%discover_fold; [by apply Hd|exact Ha].
Qed.

Lemma delete_each_lookup (q : gmap SocketAddr ReconnectInfo) l addr :
  fold_left (fun q addr => delete addr q) l q !! addr = if decide (addr ∈ l) then None else q !! addr.
Proof.
  revert q. induction l as [|x l IH]; intros q; cbn [fold_left].
  - rewrite decide_False; [done|]. apply not_elem_of_nil.
  - rewrite IH, lookup_delete. repeat case_decide; set_solver.
Qed.

Lemma remove_all_elem (s : gset SocketAddr) l addr :
  addr ∈ fold_left (fun s addr => s ∖ {[addr]}) l s -> addr ∈ s.
Proof. revert s. induction l as [|x l IH]; intros s; [done|]. cbn [fold_left]. intros Hin%IH. set_solver. Qed.

Lemma try_reconnect_ok now t : tables_ok t -> tables_ok (try_reconnect now t).2.
Proof.
  intros [Hq Hh Hd]. unfold try_reconnect. destruct (fold_left _ _ _) as [cmds gone].
  constructor; cbn; [|exact Hh|exact Hd]. intros a info. rewrite delete_each_lookup. case_decide; [done|]. apply Hq.
Qed.

Lemma try_discovered_ok t : tables_ok t -> tables_ok (try_discovered t).2.
Proof.
  intros [Hq Hh Hd]. constructor; cbn; [exact Hq|exact Hh|]. intros a Ha%remove_all_elem. by apply Hd.
Qed.

Lemma reconnect_tick_ok now t : tables_ok t -> tables_ok (reconnect_tick now t).2.
Proof.
  intros Ht. unfold reconnect_tick.
  set (p := if (_ <? min_connections)%nat then _ else _).
  assert (tables_ok p.2) as Hp by (unfold p; case_match; [by apply try_reconnect_ok|done]).
  destruct p as [cmds1 t1]. cbn [snd] in Hp. set (q := if _ && _ then _ else _).
  assert (tables_ok q.2) as Hq by (unfold q; case_match; [by apply try_discovered_ok|done]).
  by destruct q.
Qed.

(** ** Reconnecting *)











(** ** Telling other peers *)

(** a peer that asks for peers gets at most twenty, none of them itself:
    each is another connected peer, with its socket address and the name and
    version of its handshake; when at most twenty others are connected all of
    them are named.  It gets no answer exactly when there is none to name. *)
Theorem peers_reply_sound t peer :
  tables_ok t ->
  (length (known_peers t peer) <= 20)%nat /\
  (forall spec, spec ∈ known_peers t peer -> exists id addr hs,
     id <> peer /\ peer_addresses t !! id = Some addr /\ peer_handshakes t !! id = Some hs /\
     spec = PeerSpec_new (mh_agent_name hs) (mh_version hs) (mh_node_name hs)
              (Some (mkDeclaredAddress (sa_ip addr) (sa_port addr)))) /\
  ((size (delete peer (peer_addresses t)) <= 20)%nat -> forall id addr,
     id <> peer -> peer_addresses t !! id = Some addr ->
     exists hs, peer_handshakes t !! id = Some hs /\
       PeerSpec_new (mh_agent_name hs) (mh_version hs) (mh_node_name hs)
         (Some (mkDeclaredAddress (sa_ip addr) (sa_port addr))) ∈ known_peers t peer) /\
  (peers_reply t peer = [] <-> forall id, id <> peer -> peer_addresses t !! id = None).
Proof.
  intros [_ Hdom _]. set (others := base.filter (fun p : PeerId * SocketAddr => p.1 <> peer) (hash_iter _ (peer_addresses t))).
  assert (forall id addr, (id, addr) ∈ others <-> id <> peer /\ peer_addresses t !! id = Some addr) as Hoth.
  { intros id addr. unfold others. rewrite list_elem_of_filter, hash_iter_elem. done. }
  assert (forall id addr, peer_addresses t !! id = Some addr -> exists hs, peer_handshakes t !! id = Some hs) as Hhs.
  { intros id addr Ha. apply elem_of_dom. rewrite Hdom. apply elem_of_dom. eauto. }
  assert (Permutation others (map_to_list (delete peer (peer_addresses t)))) as Hperm.
  { apply NoDup_Permutation.
    - apply NoDup_filter. apply (NoDup_fmap_1 fst), hash_iter_keys.
    - apply NoDup_map_to_list.
    - intros [id addr]. rewrite Hoth, elem_of_map_to_list, lookup_delete_Some. naive_solver. }
  assert (length (omap (spec_of t) others) = length others) as Hlen.
  { assert (forall p, p ∈ others -> is_Some (spec_of t p)) as Hs.
    { intros [id addr] [_ Ha]%Hoth. destruct (Hhs _ _ Ha) as [hs Hh]. cbn. rewrite Hh. by eexists. }
    clear Hperm Hoth. induction others as [|p l IH]; [done|]. cbn [omap list_omap].
    destruct (Hs p) as [x ->]; [by left|]. cbn [length]. rewrite IH; [done|]. intros. apply Hs. by right. }
  unfold peers_reply, known_peers. fold others. split; [|split; [|split]].
  - rewrite length_take. lia.
  - intros spec (i & Hi & _)%elem_of_take. apply list_elem_of_lookup_2, list_elem_of_omap in Hi as ([id addr] & Hin & Hsp).
    apply Hoth in Hin as [Hne Ha]. cbn in Hsp. destruct (peer_handshakes t !! id) as [hs|] eqn:Eh; [|done].
    injection Hsp as <-. by exists id, addr, hs.
  - intros Hsz id addr Hne Ha. destruct (Hhs _ _ Ha) as [hs Hh]. exists hs. split; [done|].
    rewrite take_ge by (rewrite Hlen, Hperm, length_map_to_list; done).
    apply list_elem_of_omap. exists (id, addr). rewrite Hoth. cbn. by rewrite Hh.
  - assert (take 20 (omap (spec_of t) others) = [] <-> others = []) as Hnil.
    { split; [|by intros ->]. intros Ht%(f_equal length). rewrite length_take, Hlen in Ht. cbn in Ht.
      destruct others; [done|]. cbn in Ht. lia. }
    destruct (bool_decide _) eqn:Eb; cbn [negb].
    + apply bool_decide_eq_true, Hnil in Eb. split; [|done]. intros _ id Hne.
      destruct (peer_addresses t !! id) as [a|] eqn:Ea; [|done]. exfalso.
      assert ((id, a) ∈ others) as Hin by by apply Hoth. rewrite Eb in Hin. by apply not_elem_of_nil in Hin.
    + apply bool_decide_eq_false in Eb. split; [done|]. intros Hall. exfalso. apply Eb, Hnil.
      destruct others as [|[id a] l] eqn:Eo; [done|]. exfalso.
      destruct (proj1 (Hoth id a)) as [Hne Ha]; [by left|]. by rewrite Hall in Ha.
Qed.

End Peers.

(** ** The loop *)

Section Loop.
Context {ErgoBox Ext Tx PreHeader : Type} `{ErgoBoxOps ErgoBox} `{ExtensionOps Ext}
  `{TransactionOps ErgoBox Ext Tx} `{ChainTypes} `{!HeaderCodec} `{Blake2b256} `{BigUintBytes}
  {DB : Type} `{Storage DB} `{HashOrderLaws} `{SectionLib} `{!NodeLib ErgoBox Ext PreHeader}
  `{AddressOrdersLaws} `{!EventChannel}.

Abbreviation router := (Router DB).

(** The invariant of the loop, for a pool configured as [c]. *)
Record router_inv (c : MempoolConfig) (r : router) : Prop := {
  ro_tables : tables_ok (rt_tables r);
  ro_pending : (size (rt_pending_blocks r) <= MAX_PENDING_BLOCKS)%nat;
  ro_sync : rt_storage_sync_mode r = us_sync_mode (sm_utxo (rt_manager r));
  ro_pool : pool_inv c (rt_mempool r)
}.

(** A step that keeps the tables, the buffer, the sync modes and the pool. *)
Lemma router_inv_same c (r r' : router) :
  router_inv c r -> rt_tables r' = rt_tables r -> rt_pending_blocks r' = rt_pending_blocks r ->
  rt_storage_sync_mode r' = rt_storage_sync_mode r ->
  us_sync_mode (sm_utxo (rt_manager r')) = us_sync_mode (sm_utxo (rt_manager r)) ->
  rt_mempool r' = rt_mempool r -> router_inv c r'.
Proof. intros [Ht Hp Hs Hm] E1 E2 E3 E4 E5. constructor; rewrite ?E1, ?E2, ?E3, ?E4, ?E5; done. Qed.

Lemma router_inv_emit c (r : router) outs : router_inv c r -> router_inv c (emit outs r).
Proof. intros Hr. by eapply router_inv_same. Qed.

Lemma router_inv_tables c (r : router) t : router_inv c r -> tables_ok t -> router_inv c (put_tables t r).
Proof. intros [Ht Hp Hs Hm] Hok. by constructor. Qed.

Lemma router_inv_try_send c (r : router) e : router_inv c r -> router_inv c (try_send e r).2.
Proof. intros Hr. unfold try_send. case_match; [by apply router_inv_emit|done]. Qed.

Lemma router_inv_modifiers c peer ty items (r : router) :
  router_inv c r -> router_inv c (forward_modifiers peer ty items r).
Proof.
  revert r. induction items as [|item items IH]; intros r Hr; cbn [forward_modifiers]; [done|].
  pose proof (router_inv_try_send c r (SV_ModifierReceived peer ty (mi_id item) (mi_data item)) Hr) as Hs.
  destruct (try_send _ r) as [[] r1]; [by apply IH|done].
Qed.

Lemma router_inv_event c now e (r : router) : router_inv c r -> router_inv c (handle_network_event now e r).
Proof.
  intros Hr. pose proof (ro_tables _ _ Hr) as Ht. destruct e as [peer addr hs|peer|peer message|addr err]; cbn [handle_network_event].
  - apply router_inv_emit, router_inv_tables; [done|by apply connected_ok].
  - apply router_inv_emit, router_inv_tables; [done|by apply disconnected_ok].
  - destruct message; cbn [handle_message]; try done;
      try (by apply router_inv_emit); try (by apply router_inv_try_send); try (by apply router_inv_modifiers).
    apply router_inv_tables; [done|by apply discover_ok].
  - apply router_inv_tables; [done|by apply failed_ok].
Qed.

Lemma router_inv_sync c (r : router) b : router_inv c r -> router_inv c (put_sync_mode b r).
Proof. intros [Ht Hp Hs Hm]. by constructor. Qed.

Lemma pool_after_inv c pool (batches : list (list (FullBlock Tx * StateChange ErgoBox * bytes))) :
  pool_inv c pool -> pool_inv c (pool_after pool batches).
Proof.
  unfold pool_after. revert pool. induction batches as [|b l IH]; intros pool Hp; cbn [fold_left]; [done|].
  apply IH. rewrite remove_confirmed_eq. by apply remove_all_inv, remove_all_inv.
Qed.

Lemma router_inv_add c now id data (r : router) :
  config_ok c -> router_inv c r -> router_inv c (add_transaction now id data r).
Proof.
  intros Hok [Ht Hp Hs Hm]. unfold add_transaction. destruct (admit_transaction _ _) as [tx|]; [|done].
  pose proof (pool_step_inv _ _ c _ _ Hok Hm (step_add nl_elapsed_ms nl_hash_order (rt_mempool r) (pooled_of now id data tx))) as Ha.
  destruct (add _ _ _ _) as [[[]|e] pool]; by constructor.
Qed.

Lemma router_inv_command c now cmd (r r' : router) :
  config_ok c -> router_inv c r -> handle_command now cmd r = Ok r' -> router_inv c r'.
Proof.
  intros Hok Hr. destruct cmd as [peer msg|msg|hd raw|bid bdata|hid ext|tid tdata from|headers]; cbn [handle_command].
  - intros <-%Ok_inj. by apply router_inv_emit.
  - intros <-%Ok_inj. by apply router_inv_emit.
  - intros <-%Ok_inj. unfold store_header, apply_header_with_bytes, lift_history. apply router_inv_emit.
    by eapply router_inv_same.
  - intros (Ht & Hp & Hs & batches & r1 & Ha & _ & Hpool & _)%apply_block_command_frame. destruct Hr as [Rt Rp Rs Rm].
    constructor; [by rewrite Ht|by apply Hp|by apply Hs|]. rewrite Hpool, (adv_pool _ _ _ Ha). by apply pool_after_inv.
  - unfold store_extension. destruct (Extension_parse ext) as [e|[]]; [|by intros <-%Ok_inj|done].
    intros <-%Ok_inj. by eapply router_inv_same.
  - intros <-%Ok_inj. by apply router_inv_add.
  - intros <-%Ok_inj. unfold store_headers_batch, apply_headers_batched, lift_history.
    destruct headers as [|h l]; [by apply router_inv_emit|]. apply router_inv_emit.
    destruct (append_headers_batched _ _) as [[sel|e] h']; cbn [fst snd].
    + destruct (heights _) as [u hh]. case_match; [apply router_inv_sync|]; by eapply router_inv_same.
    + by eapply router_inv_same.
Qed.

Lemma router_inv_request c (r : router) count hh : router_inv c r -> router_inv c (request_blocks count hh r).
Proof. intros Hr. unfold request_blocks. repeat case_match; try done. by apply router_inv_emit. Qed.

Lemma router_inv_step c (r r' : router) input :
  config_ok c -> router_inv c r -> router_step r input = Ok r' -> router_inv c r'.
Proof.
  intros Hok Hr. destruct input as [now i]. destruct i as [|ph| |e|cmd]; cbn [router_step].
  - intros <-%Ok_inj. by apply router_inv_try_send.
  - intros <-%Ok_inj. unfold block_sync_check. destruct (heights _) as [u hh].
    case_match; [by apply router_inv_request|done].
  - intros <-%Ok_inj. unfold on_reconnect_tick. pose proof (reconnect_tick_ok now _ (ro_tables _ _ Hr)) as Ht.
    destruct (reconnect_tick _ _) as [cmds t]. by apply router_inv_emit, router_inv_tables.
  - intros <-%Ok_inj. by apply router_inv_event.
  - by apply router_inv_command.
Qed.

(** C20: whatever the network, the protocol and the timers bring, in every
    state of the node's loop at most 2048 early blocks are buffered, no address
    is both discovered and connected, the handshakes kept are those of the
    connected peers, the storage and the UTXO state are in the same sync mode,
    and the pool is consistent and within its capacity. *)
Theorem router_invariant (m : StateManager DB) pool inputs (r : router) :
  config_ok (config pool) -> pool_inv (config pool) pool -> us_sync_mode (sm_utxo m) = false ->
  router_run (start_router m pool) inputs = Ok r ->
  (size (rt_pending_blocks r) <= MAX_PENDING_BLOCKS)%nat /\
  (forall addr peer, addr ∈ discovered_peers (rt_tables r) ->
     peer_addresses (rt_tables r) !! peer <> Some addr) /\
  dom (peer_handshakes (rt_tables r)) = dom (peer_addresses (rt_tables r)) /\
  (forall addr info, reconnect_queue (rt_tables r) !! addr = Some info -> ri_addr info = addr) /\
  rt_storage_sync_mode r = us_sync_mode (sm_utxo (rt_manager r)) /\
  pool_inv (config pool) (rt_mempool r).
Proof.
  intros Hok Hpool Hsync Hrun.
  assert (router_inv (config pool) (start_router m pool)) as Hstart.
  { unfold start_router. destruct (heights m) as [u hh].
    assert (router_inv (config pool) (mkRouter PeerTables_empty m pool false ∅ [])) as Hr.
    { constructor; cbn; [apply tables_ok_empty|rewrite map_size_empty; unfold MAX_PENDING_BLOCKS; lia|done|done]. }
    case_match; [by apply router_inv_sync|done]. }
  assert (router_inv (config pool) r) as [[Hq Hh Hd] Hp Hs Hm].
  { eapply (rfold_inv (router_inv (config pool)) router_step inputs); [exact Hstart| |exact Hrun].
    intros r1 i r2 _ H1' H2'. by eapply router_inv_step. }
  split; [exact Hp|]. split; [|done]. intros addr peer Ha. by apply is_connected_false, Hd.
Qed.

(** ** Transactions *)

Lemma input_boxes_spec (m : StateManager DB) (inputs : list (TxInput Ext)) boxes :
  input_boxes_of m inputs = Some boxes <->
  Forall2 (fun i b => stored_box m (ti_box_id i) = Some b) inputs boxes.
Proof.
  revert boxes. induction inputs as [|i l IH]; intros boxes; cbn [input_boxes_of].
  - split; [by intros [= <-]|]. by intros ->%Forall2_nil_inv_l.
  - destruct (stored_box m (ti_box_id i)) as [b|] eqn:Eb.
    + split.
      * intros (bs & Hbs & ->)%fmap_Some. constructor; [done|]. by apply IH.
      * intros (b' & bs & Hb & Hbs & ->)%Forall2_cons_inv_l. simplify_eq. apply IH in Hbs. by rewrite Hbs.
    + split; [done|]. intros (b' & bs & Hb & _)%Forall2_cons_inv_l. congruence.
Qed.

(** What the node checks of a transaction: the boxes of its inputs and data
    inputs are in the UTXO set, and its outputs are worth at most its inputs, in
    coins and in every token but the one its first input may mint, both in sums
    modulo [2^64]. *)
Definition checked (m : StateManager DB) (tx : Tx) (ins : list ErgoBox) : Prop :=
  Forall2 (fun i b => stored_box m (ti_box_id i) = Some b) (tx_inputs tx) ins /\
  Forall (fun id => is_Some (stored_box m id)) (default [] (tx_data_inputs tx)) /\
  u64 (sumZ (box_value <$> tx_outputs tx)) <= u64 (sumZ (box_value <$> ins)) /\
  forall id, ~ mintable ins false id ->
    u64 (token_total id (tokens_of (tx_outputs tx))) <= u64 (token_total id (tokens_of ins)).

Lemma admit_transaction_spec (m : StateManager DB) data tx :
  admit_transaction m data = Some tx <-> tx_parse data = Some tx /\ exists ins, checked m tx ins.
Proof.
  unfold admit_transaction. destruct (tx_parse data) as [t|]; [|naive_solver].
  assert (forall ins, input_boxes_of m (tx_inputs t) = Some ins ->
    (is_ok (validate_data_inputs_exist t (stored_box m)) && is_ok (validate_erg_conservation t ins) &&
     is_ok (validate_token_conservation (hash_iter Z) t ins false) = true <-> checked m t ins)) as Hin.
  { intros ins Hins. rewrite !andb_true_iff, data_inputs_check_spec, token_check_spec by apply hash_iter_perm.
    unfold checked. rewrite <- input_boxes_spec.
    assert (is_ok (validate_erg_conservation t ins) = true <->
      u64 (sumZ (box_value <$> tx_outputs t)) <= u64 (sumZ (box_value <$> ins))) as ->; [|naive_solver].
    split.
    - destruct (validate_erg_conservation t ins) as [fee|] eqn:E; [|done]. intros _. apply erg_check_spec in E. lia.
    - intros Hle. rewrite (proj2 (erg_check_spec t ins (u64 (sumZ (box_value <$> ins)) -
        u64 (sumZ (box_value <$> tx_outputs t))))); [done|lia]. }
  destruct (input_boxes_of m (tx_inputs t)) as [ins|] eqn:Ei.
  - destruct (_ && _) eqn:Ec.
    + split; [|by intros [[= ->] _]]. intros [= <-]. split; [done|]. exists ins. by apply Hin.
    + split; [done|]. intros [[= <-] [ins' Hc]]. pose proof Hc as [Hi%input_boxes_spec _].
      rewrite Ei in Hi. injection Hi as <-. by rewrite (proj2 (Hin ins eq_refl) Hc) in Ec.
  - split; [done|]. intros [[= <-] [ins [Hi%input_boxes_spec _]]]. congruence.
Qed.

(** C27: a transaction from a peer is announced to every peer, under the
    identifier it came with, exactly when it parses, its inputs and data inputs
    are in the UTXO set, it conserves coins and tokens and the pool accepts it;
    otherwise nothing is announced and the pool stays as it is.  Conservation
    is of sums modulo [2^64], exact while the sums stay below, but for the
    token the first input may mint.  Of an announced transaction: when the pool
    has room for it, it is pooled and nothing leaves; when it has not, the pool
    is cut to its bounds, which may drop the transaction itself at once. *)
Theorem transaction_admitted c now id data (r : router) :
  config_ok c -> pool_inv c (rt_mempool r) ->
  let m := rt_manager r in
  let r' := add_transaction now id data r in
  let announced := RO_Command (NC_Broadcast (M_Inv (mkInvData 2 [id]))) in
  ((exists tx ins, tx_parse data = Some tx /\ checked m tx ins /\ add_accepted (rt_mempool r) (pooled_of now id data tx))
   <-> rt_out r' = rt_out r ++ [announced]) /\
  (forall tx ins, rt_out r' = rt_out r ++ [announced] -> tx_parse data = Some tx -> checked m tx ins ->
     let joined := <[id := pooled_of now id data tx]> (transactions (rt_mempool r)) in
     (0 <= sumZ (box_value <$> ins) -> 0 <= sumZ (box_value <$> tx_outputs tx) < 2 ^ 64 ->
      sumZ (box_value <$> tx_outputs tx) <= sumZ (box_value <$> ins)) /\
     (forall token, ~ mintable ins false token -> 0 <= token_total token (tokens_of ins) ->
      0 <= token_total token (tokens_of (tx_outputs tx)) < 2 ^ 64 ->
      token_total token (tokens_of (tx_outputs tx)) <= token_total token (tokens_of ins)) /\
     (Z.of_nat (size joined) <= max_transactions c -> pool_bytes joined <= max_size c ->
      transactions (rt_mempool r') = joined) /\
     transactions (rt_mempool r') ⊆ joined /\ within_capacity (rt_mempool r')) /\
  (rt_out r' = rt_out r ++ [announced] \/ rt_out r' = rt_out r /\ rt_mempool r' = rt_mempool r) /\
  rt_manager r' = rt_manager r.
Proof.
  intros Hc (Hwf & Hcfg & Hcap). cbn zeta. unfold add_transaction.
  assert (forall o : RouterOutput, rt_out r <> rt_out r ++ [o]) as Hne.
  { intros o Ho%(f_equal length). rewrite length_app in Ho. cbn in Ho. lia. }
  destruct (admit_transaction (rt_manager r) data) as [tx|] eqn:Ead.
  - apply admit_transaction_spec in Ead as [Hp [ins Hch]].
    pose proof (add_cases nl_elapsed_ms nl_hash_order (rt_mempool r) (pooled_of now id data tx)) as Hcases.
    pose proof (add_lands nl_elapsed_ms nl_hash_order (rt_mempool r) (pooled_of now id data tx) Hwf
      ltac:(by rewrite Hcfg) Hcap) as Hlands.
    destruct (add _ _ _ (pooled_of now id data tx)) as [[[]|e] pool] eqn:Eadd; cbn [fst snd] in *;
      cbn [put_mempool emit rt_out rt_mempool rt_manager];
      destruct Hcases as [(e' & E & Hr)|[Hacc E]]; try discriminate E; [clear E|injection E as <- ->].
    + split; [split; [done|]; intros _; by exists tx, ins|]. split; [|split; [by left|done]].
      intros tx' ins' _ Hp' (_ & _ & He & Ht). rewrite Hp in Hp'. injection Hp' as <-.
      split; [by intros; apply u64_covers|]. split; [intros token Hm ? ?; apply u64_covers; auto|].
      rewrite <- Hcfg. destruct (Hlands Hacc) as (Hsub & Hw & Hroom). by split_and!.
    + split; [|split; [|split; [by right|done]]].
      * split; [|by intros ?%Hne]. intros (tx' & _ & Hp' & _ & Ha). rewrite Hp in Hp'. injection Hp' as <-.
        by apply (refused_not_accepted _ _ _ Hr) in Ha.
      * by intros ? ? ?%Hne.
  - split; [|split; [by intros ? ? ?%Hne|split; [by right|done]]]. split; [|by intros ?%Hne].
    intros (tx & ins & Hp & Hch & _). assert (admit_transaction (rt_manager r) data = Some tx) as Had
      by (apply admit_transaction_spec; split; [done|by exists ins]). congruence.
Qed.

End Loop.

(** ** A node that applies a block

    The theorems at a concrete router: three stored headers, a valid block, an
    invalid one, and peers that come and go. *)

Module NodeExample.
Import Mem Toy.

#[export] Instance node_lib : NodeLib toy_box (option Z) unit := {
  nl_script_verify _ _ _ _ := Some (true, 500);
  nl_tx_io_max := 100%nat;
  nl_pre_header _ := tt;
  nl_miner_fee_bytes := [7];
  nl_error_text _ := "error"%string;
  nl_elapsed_ms _ := 0;
  nl_hash_order _ := elements
}.

#[export] Instance address_orders : AddressOrders := {
  queue_iter := map_to_list; discovered_iter := elements }.
#[export] Instance address_orders_laws : AddressOrdersLaws.
Proof. by constructor. Qed.

#[export] Instance section_lib : SectionLib := {
  lib_get_u32 bs := match bs with [] => None | b :: _ => Some (b, 1%nat) end;
  lib_merkle_root leaves := blake2b256 (List.concat leaves) }.

#[export] Instance open_channel : EventChannel := fun _ _ => true.

(** A header is its parent, its transactions root and its height, which is also
    its timestamp. *)
#[export] Instance node_codec : HeaderCodec := {
  scorex_serialize_bytes h := Some (h_parent_id h ++ h_transaction_root h ++ [h_height h]);
  scorex_parse_bytes bs :=
    if (length bs =? 65)%nat then
      Some (mkHeader 1 [] (take 32 bs) [] [] (slice 32 64 bs) (nth 64 bs 0) 117440512 (nth 64 bs 0) []
              (mkAutolykosSolution 0 None [] None) [0; 0; 0] [])
    else None
}.

Definition raw_header (parent : bytes) (tx height : Z) : bytes :=
  parent ++ blake2b256 (be_bytes 32 tx) ++ [height].
Definition raw1 : bytes := raw_header (replicate 32 0) 8 1.
Definition raw2 : bytes := raw_header (blake2b256 raw1) 9 2.
Definition raw3 : bytes := raw_header (blake2b256 raw2) 10 3.
Definition id1 : bytes := blake2b256 raw1.
Definition id2 : bytes := blake2b256 raw2.
Definition id3 : bytes := blake2b256 raw3.

(** The bytes of a block with one empty transaction. *)
Definition body (id : bytes) (tx : Z) : bytes := id ++ [1] ++ [tx].

Definition header_of (raw : bytes) : Header :=
  default genesis_parent_header ((fun h => set_header_id h (blake2b256 raw)) <$> scorex_parse_bytes raw).

Abbreviation node := (Router Mem.t).

Definition store (m : StateManager Mem.t) (raw : bytes) : StateManager Mem.t :=
  (apply_header_with_bytes m (header_of raw) raw).2.
Definition m0 : StateManager Mem.t := fold_left store [raw1; raw2; raw3] (manager_new Mem.empty).

Definition r0 : node := start_router m0 (Mempool_new MempoolConfig_default).

Abbreviation apply id bdata r := (apply_block_command (Tx := toy_tx) id bdata (r : node)).

Definition ok_or (d : node) (x : result node Panic) : node := match x with Ok r => r | Err _ => d end.
Definition next (id bdata : bytes) (r : node) : node := ok_or r (apply id bdata r).

Lemma next_ok id bdata r : is_ok (apply id bdata r) = true -> apply id bdata r = Ok (next id bdata r).
Proof. unfold next. by destruct (apply_block_command id bdata r). Qed.

(** The second block arrives first and waits for the first. *)
Definition r1 : node := next id2 (body id2 9) r0.
Definition r2 : node := next id1 (body id1 8) r1.

Example early_block_waits :
  (us_height (sm_utxo (rt_manager r1)), size (rt_pending_blocks r1), length (rt_out r1)) = (0, 1%nat, 0%nat).
Proof. vm_compute. reflexivity. Qed.

Example both_blocks_applied :
  (us_height (sm_utxo (rt_manager r2)), size (rt_pending_blocks r2), applied_events (rt_out r2))
  = (2, 0%nat, [(id1, 1); (id2, 2)]).
Proof. vm_compute. reflexivity. Qed.

Lemma default_pool_ok : pool_inv MempoolConfig_default (Mempool_new MempoolConfig_default).
Proof. apply (reachable_inv nl_elapsed_ms nl_hash_order); [apply MempoolSpec.Example.default_config_ok|apply rtc_refl]. Qed.

Lemma r1_wf : wf (rt_mempool r1).
Proof.
  assert (rt_mempool r1 = Mempool_new MempoolConfig_default) as -> by (vm_compute; reflexivity).
  apply default_pool_ok.
Qed.

Lemma r2_applied : apply id1 (body id1 8) r1 = Ok (next id1 (body id1 8) r1).
Proof. apply next_ok. vm_compute. reflexivity. Qed.

(** A second block whose transaction does not match its header. *)
Definition bad2 : bytes := body id2 99.

(** The run that meets it after one valid block, with a third block behind. *)
Definition before_bad : Pipeline Mem.t :=
  match rfold (process_block (Tx := toy_tx)) (mkPipeline r0 [] false ∅) [(id1, body id1 8)] with
  | Ok pl => pl
  | Err _ => mkPipeline r0 [] true ∅
  end.
Definition bad_run : node := ok_or r0 (process_blocks (Tx := toy_tx) r0 ([(id1, body id1 8)] ++ (id2, bad2) :: [(id3, body id3 10)])).

Lemma before_bad_ok : rfold (process_block (Tx := toy_tx)) (mkPipeline r0 [] false ∅) [(id1, body id1 8)] = Ok before_bad.
Proof.
  assert (is_ok (rfold (process_block (Tx := toy_tx)) (mkPipeline r0 [] false ∅) [(id1, body id1 8)]) = true) as Hok
    by (vm_compute; reflexivity).
  unfold before_bad. by destruct (rfold _ _ _).
Qed.

Lemma bad_refused : pl_failed before_bad = false /\ length (pl_validated before_bad) = 1%nat /\
  exists msg, validate_next (rt_manager (pl_router before_bad)) (pl_created before_bad) id2 bad2 = Err (BF_Reported msg).
Proof. split; [vm_compute; reflexivity|]. split; [vm_compute; reflexivity|]. eexists. vm_compute. reflexivity. Qed.

Lemma bad_run_buffer :
  last_at (rt_manager bad_run) [(id3, body id3 10)] 3 = Some (id3, body id3 10) /\
  last_at (rt_manager bad_run) [(id3, body id3 10)] 1 = None /\ rt_pending_blocks r0 !! 1 = None.
Proof. split_and!; vm_compute; reflexivity. Qed.

Definition peer1 : PeerId := [1].
Definition addr1 : SocketAddr := mkSocketAddr (IP_V4 [10; 0; 0; 1]) 9030.
Definition hs1 : MHandshake := MHandshake_new [1] (5, 0, 0) [2].

Definition inputs : list (Z * RouterInput) :=
  [(0, RI_Network (NE_PeerConnected peer1 addr1 hs1)); (1, RI_Command (SC_ApplyBlock id2 (body id2 9)));
   (2, RI_Command (SC_ApplyBlock id1 (body id1 8))); (3, RI_Network (NE_PeerDisconnected peer1));
   (4, RI_Reconnect); (5, RI_BlockSync 3)].

Abbreviation run ins := (router_run (start_router m0 (Mempool_new MempoolConfig_default)) ins).
Definition run_state (ins : list (Z * RouterInput)) : node := ok_or r0 (run ins).
Definition r3 : node := run_state inputs.

Lemma router_run_ok ins : is_ok (run ins) = true -> run ins = Ok (run_state ins).
Proof. unfold run_state. by destruct (router_run _ ins). Qed.

(** A pool with room for one transaction: the first joins it; the second is
    announced and dropped at once. *)
Definition one_place : MempoolConfig := mkMempoolConfig 1000 1 3600 f64_zero.
Definition pool_node : node := start_router m0 (Mempool_new one_place).
Definition first_pooled : node := add_transaction 0 [1] [5] pool_node.

Lemma one_place_ok : config_ok one_place.
Proof. repeat split; vm_compute; by try discriminate. Qed.

Example second_announced_and_dropped :
  let r := add_transaction 1 [2] [6] first_pooled in
  rt_out r = rt_out first_pooled ++ [RO_Command (NC_Broadcast (M_Inv (mkInvData 2 [[2]])))] /\
  transactions (rt_mempool r) = transactions (rt_mempool first_pooled).
Proof. split; vm_compute; reflexivity. Qed.

Lemma transaction_admitted_witness :
  rt_out first_pooled = rt_out pool_node ++ [RO_Command (NC_Broadcast (M_Inv (mkInvData 2 [[1]])))] /\
  transactions (rt_mempool first_pooled) = {[ [1] := pooled_of 0 [1] [5] (mk_toy_tx 5 [] [] []) ]}.
Proof.
  destruct (transaction_admitted one_place 0 [1] [5] pool_node one_place_ok) as (Hiff & Hpool & _).
  { split; [|split; [reflexivity|]].
    - apply (proj1 (reachable_inv nl_elapsed_ms nl_hash_order _ _ one_place_ok (rtc_refl _ _))).
    - apply (reachable_inv nl_elapsed_ms nl_hash_order _ _ one_place_ok (rtc_refl _ _)). }
  assert (checked (rt_manager pool_node) (mk_toy_tx 5 [] [] []) []) as Hc.
  { split; [constructor|]. split; [constructor|]. split; [vm_compute; discriminate|]. intros id _. vm_compute. discriminate. }
  assert (rt_out first_pooled = rt_out pool_node ++ [RO_Command (NC_Broadcast (M_Inv (mkInvData 2 [[1]])))]) as Ho.
  { apply Hiff. exists (mk_toy_tx 5 [] [] []), []. split; [reflexivity|]. split; [exact Hc|].
    split; [reflexivity|]. split; [vm_compute; discriminate|]. split; [vm_compute; reflexivity|]. intros i Hi. by apply not_elem_of_nil in Hi. }
  split; [exact Ho|]. destruct (Hpool (mk_toy_tx 5 [] [] []) [] Ho eq_refl Hc) as (_ & _ & Hroom & _).
  etransitivity; [apply Hroom|]; vm_compute; [discriminate|discriminate|reflexivity].
Defined.

(** The lost peer is queued and tried again at once, and the third block is
    asked for. *)
Example run_outputs :
  (us_height (sm_utxo (rt_manager r3)), size (reconnect_queue (rt_tables r3))) = (2, 1%nat) /\
  (NC_Connect addr1 ∈ omap (fun o => match o with RO_Command c => Some c | _ => None end) (rt_out r3)).
Proof. split; [vm_compute; reflexivity|]. apply list_elem_of_lookup_2 with 1%nat. vm_compute. reflexivity. Qed.

Lemma r3_run : run inputs = Ok (run_state inputs).
Proof. apply router_run_ok. vm_compute. reflexivity. Qed.

Lemma m0_sync : us_sync_mode (sm_utxo m0) = false.
Proof. vm_compute. reflexivity. Qed.

#[local] Opaque apply_block_command process_blocks validate_next router_run start_router r0 r1 r2 r3 m0 inputs next run_state before_bad.

Lemma blocks_applied_validated_witness :
  exists batches m', applies (rt_manager r1) batches m' /\
    applied_events (rt_out (next id1 (body id1 8) r1)) =
    applied_events (rt_out r1) ++ ((fun v => (v.2, height_of v)) <$> concat batches).
Proof.
  destruct (blocks_applied_validated r1 (next id1 (body id1 8) r1) id1 (body id1 8) r1_wf r2_applied)
    as (batches & m' & Ha & _ & Hev & _).
  exists batches, m'. split; [exact Ha|exact Hev].
Defined.

Lemma failure_drops_validated_witness :
  exists r', process_blocks (Tx := toy_tx) r0 ([(id1, body id1 8)] ++ (id2, bad2) :: [(id3, body id3 10)]) = Ok r' /\
    rt_pending_blocks r' !! 3 = Some (id3, body id3 10) /\ rt_pending_blocks r' !! 1 = None.
Proof.
  destruct bad_refused as (Hf & _ & msg & He).
  destruct (failure_drops_validated r0 [(id1, body id1 8)] before_bad id2 bad2 [(id3, body id3 10)] (BF_Reported msg)
    before_bad_ok Hf He ltac:(discriminate)) as (r' & _ & _ & _ & _ & Hr & _ & _ & _ & _ & _ & _ & _ & Hpend).
  exists r'. split; [exact Hr|]. assert (r' = bad_run) as -> by (unfold bad_run; by rewrite Hr).
  destruct bad_run_buffer as (H3 & H1 & H0). rewrite !Hpend, H3, H1. by split.
Defined.

Lemma router_invariant_witness : (size (rt_pending_blocks (run_state inputs)) <= MAX_PENDING_BLOCKS)%nat.
Proof.
  destruct (router_invariant m0 (Mempool_new MempoolConfig_default) inputs (run_state inputs)) as [Hs _]; [| | | |exact Hs].
  - apply MempoolSpec.Example.default_config_ok.
  - apply default_pool_ok.
  - exact m0_sync.
  - exact r3_run.
Defined.



Lemma peers_reply_sound_witness :
  (length (known_peers (peer_connected peer1 addr1 hs1 PeerTables_empty) [2%Z]) <= 20)%nat.
Proof.
  destruct (peers_reply_sound (peer_connected peer1 addr1 hs1 PeerTables_empty) [2%Z]) as [Hl _]; [|exact Hl].
  apply connected_ok, tables_ok_empty.
Defined.
End NodeExample.
