(* ===== verification/Service.v ===== *)
(** * The network service (crates/ergo-network/src/service.rs)

    The loop that accepts and opens connections and carries out commands, and
    one task per connection, as the steps of one system.  A connection has a
    queue of messages that its task writes; a send waits while the queue is
    full, and the loop waits with it.  Sockets are left out: what arrives on
    them, and when, are the inputs. *)

From S2P Require Export NodePeers Peers.

Local Open Scope Z_scope.

(** [PeerId::from_addr]: the text of an address. *)
Class AddrText := addr_text : SocketAddr -> PeerId.

Definition OUTBOX_CAPACITY : nat := 100.

(** What a connection's task is doing: opening the socket, exchanging
    handshakes, or handling messages with a queue of messages to write; or it
    panicked while it handled messages. *)
Inductive Phase := Dialing | Handshaking | Open (outbox : list Message) | Panicked.

Record Connection := mkConnection {
  cn_addr : SocketAddr;
  cn_outgoing : bool;
  cn_phase : Phase
}.

(** The sender of a handle is the queue of one connection. *)
Record PeerHandle := mkPeerHandle { ph_conn : nat; ph_info : PeerInfo (Addr := SocketAddr) }.

(** The sends the loop still has to make for the command at hand: to a peer, or
    to the queue found for it. *)
Inductive SendItem := ToPeer (peer : PeerId) (message : Message) | ToConn (c : nat) (message : Message).

Record Service := mkService {
  sv_max_connections : nat;
  sv_manager : PeerManager (Addr := SocketAddr);
  sv_peers : gmap PeerId PeerHandle;
  sv_conns : gmap nat Connection;
  sv_next : nat;
  sv_task : list SendItem;
  sv_running : bool;
  sv_events : list NetworkEvent
}.

(** What can happen next. *)
Inductive ServiceInput :=
  | SI_Accept (addr : SocketAddr)
  | SI_Command (c : NetworkCommand)
  | SI_Cleanup
  | SI_Send
  | SI_Dialed (c : nat) (connected : bool)
  | SI_Handshake (c : nat) (result_ : result HandshakeData string)
  | SI_Receive (c : nat) (message : Message)
  | SI_Write (c : nat)
  | SI_Close (c : nat)
  | SI_Panic (c : nat).

Section Service.
Context `{AddrText} `{HashOrder}.

Definition service_new (max_connections : nat) (manager : PeerManager (Addr := SocketAddr)) : Service :=
  mkService max_connections manager ∅ ∅ 0 [] true [].

(** Writes to fields. *)
Definition put_conns (x : gmap nat Connection) (s : Service) : Service :=
  mkService (sv_max_connections s) (sv_manager s) (sv_peers s) x (sv_next s) (sv_task s) (sv_running s) (sv_events s).
Definition put_handles (x : gmap PeerId PeerHandle) (s : Service) : Service :=
  mkService (sv_max_connections s) (sv_manager s) x (sv_conns s) (sv_next s) (sv_task s) (sv_running s) (sv_events s).
Definition put_peer_manager (x : PeerManager) (s : Service) : Service :=
  mkService (sv_max_connections s) x (sv_peers s) (sv_conns s) (sv_next s) (sv_task s) (sv_running s) (sv_events s).
Definition put_task (x : list SendItem) (s : Service) : Service :=
  mkService (sv_max_connections s) (sv_manager s) (sv_peers s) (sv_conns s) (sv_next s) x (sv_running s) (sv_events s).
Definition put_running (x : bool) (s : Service) : Service :=
  mkService (sv_max_connections s) (sv_manager s) (sv_peers s) (sv_conns s) (sv_next s) (sv_task s) x (sv_events s).
Definition send_event (e : NetworkEvent) (s : Service) : Service :=
  mkService (sv_max_connections s) (sv_manager s) (sv_peers s) (sv_conns s) (sv_next s) (sv_task s) (sv_running s)
    (sv_events s ++ [e]).
Definition spawn_task (conn : Connection) (s : Service) : Service :=
  mkService (sv_max_connections s) (sv_manager s) (sv_peers s) (<[sv_next s := conn]> (sv_conns s)) (S (sv_next s))
    (sv_task s) (sv_running s) (sv_events s).

(** ** The loop *)

Definition handle_incoming (addr : SocketAddr) (s : Service) : Service :=
  let peer_count := size (sv_peers s) in
  if (sv_max_connections s <=? peer_count)%nat then s
  else spawn_task (mkConnection addr false Handshaking) s.

Definition connect_to_peer (addr : SocketAddr) (s : Service) : Service :=
  let peer_count := size (sv_peers s) in
  if (sv_max_connections s <=? peer_count)%nat then s
  else spawn_task (mkConnection addr true Dialing) s.

(** The handle is dropped, and with it the sender. *)
Definition disconnect_peer (peer : PeerId) (s : Service) : Service :=
  put_handles (delete peer (sv_peers s)) s.

Definition broadcast (message : Message) (s : Service) : Service :=
  put_task ((fun p => ToPeer p.1 message) <$> hash_iter _ (sv_peers s)) s.

Definition service_command (c : NetworkCommand) (s : Service) : Service :=
  match c with
  | NC_Connect addr => connect_to_peer addr s
  | NC_Disconnect peer => disconnect_peer peer s
  | NC_SendMessage peer message => put_task [ToPeer peer message] s
  | NC_Broadcast message => broadcast message s
  | NC_Shutdown => put_running false s
  end.

(** [send_to_peer]: find the sender, then wait for room; a connection that ended
    takes nothing. [None]: the send has to wait. *)
Definition send_step (s : Service) : option Service :=
  match sv_task s with
  | [] => None
  | ToPeer peer message :: rest =>
      Some (put_task (match sv_peers s !! peer with
                      | Some h => ToConn (ph_conn h) message :: rest
                      | None => rest
                      end) s)
  | ToConn c message :: rest =>
      match sv_conns s !! c with
      | Some (mkConnection addr outgoing (Open outbox)) =>
          if (length outbox <? OUTBOX_CAPACITY)%nat
          then Some (put_task rest
                 (put_conns (<[c := mkConnection addr outgoing (Open (outbox ++ [message]))]> (sv_conns s)) s))
          else None
      | _ => Some (put_task rest s)
      end
  end.

(** The loop takes the next event only when it has nothing left to send. *)
Definition loop_idle (s : Service) : bool := sv_running s && bool_decide (length (sv_task s) = 0%nat).

(** ** The connections *)

(** A connection that fails before its session: only an outgoing one is
    reported. *)
Definition fail_connection (c : nat) (conn : Connection) (error : string) (s : Service) : Service :=
  let s := put_conns (delete c (sv_conns s)) s in
  if cn_outgoing conn then send_event (NE_ConnectionFailed (cn_addr conn) error) s else s.

(** After the handshakes: the handle, the peer manager, the event. *)
Definition open_session (now : Z) (c : nat) (conn : Connection) (their_handshake : HandshakeData) (s : Service)
    : Service :=
  let addr := cn_addr conn in
  let peer_id := addr_text addr in
  let peer_info := PeerInfo_new addr_text now addr (cn_outgoing conn) in
  let s := put_conns (<[c := mkConnection addr (cn_outgoing conn) (Open [])]> (sv_conns s)) s in
  let s := put_handles (<[peer_id := mkPeerHandle c peer_info]> (sv_peers s)) s in
  let s := put_peer_manager (set_state now (add_peer (sv_manager s) peer_info) peer_id PS_Connected) s in
  send_event (NE_PeerConnected peer_id addr
    (MHandshake_new (hs_agent_name their_handshake) (hs_version their_handshake) (hs_peer_name their_handshake))) s.

(** The end of a session. *)
Definition close_session (now : Z) (c : nat) (conn : Connection) (s : Service) : Service :=
  let peer_id := addr_text (cn_addr conn) in
  let s := put_conns (delete c (sv_conns s)) s in
  let s := put_handles (delete peer_id (sv_peers s)) s in
  let s := put_peer_manager (set_state now (sv_manager s) peer_id PS_Disconnected) s in
  send_event (NE_PeerDisconnected peer_id) s.

(** The task of a connection panics, as the parser of handshakes and the decoder
    of frames do on some inputs ([feature_length_panics] and
    [empty_payload_panics]).  The runtime drops the task and what it owns, its
    socket and its queue among them: nothing of [close_session] runs, and no
    failure is reported. *)
Definition panic_connection (c : nat) (conn : Connection) (s : Service) : option Service :=
  match cn_phase conn with
  | Handshaking => Some (put_conns (delete c (sv_conns s)) s)
  | Open _ => Some (put_conns (<[c := mkConnection (cn_addr conn) (cn_outgoing conn) Panicked]> (sv_conns s)) s)
  | Dialing | Panicked => None
  end.

(** ** One step; [None] when it cannot happen in this state *)

Definition service_step (now : Z) (i : ServiceInput) (s : Service) : option Service :=
  match i with
  | SI_Accept addr => if loop_idle s then Some (handle_incoming addr s) else None
  | SI_Command c => if loop_idle s then Some (service_command c s) else None
  | SI_Cleanup => if loop_idle s then Some (put_peer_manager (cleanup_expired_bans now (sv_manager s)) s) else None
  | SI_Send => send_step s
  | SI_Dialed c connected =>
      match sv_conns s !! c with
      | Some (mkConnection addr outgoing Dialing) =>
          if connected : bool then Some (put_conns (<[c := mkConnection addr outgoing Handshaking]> (sv_conns s)) s)
          else Some (fail_connection c (mkConnection addr outgoing Dialing) "connect" s)
      | _ => None
      end
  | SI_Handshake c result_ =>
      match sv_conns s !! c with
      | Some (mkConnection addr outgoing Handshaking) =>
          match result_ with
          | Ok their_handshake => Some (open_session now c (mkConnection addr outgoing Handshaking) their_handshake s)
          | Err e => Some (fail_connection c (mkConnection addr outgoing Handshaking) e s)
          end
      | _ => None
      end
  | SI_Receive c message =>
      match sv_conns s !! c with
      | Some (mkConnection addr _ (Open _)) => Some (send_event (NE_MessageReceived (addr_text addr) message) s)
      | _ => None
      end
  | SI_Write c =>
      match sv_conns s !! c with
      | Some (mkConnection addr outgoing (Open (_ :: outbox))) =>
          Some (put_conns (<[c := mkConnection addr outgoing (Open outbox)]> (sv_conns s)) s)
      | _ => None
      end
  | SI_Close c =>
      match sv_conns s !! c with
      | Some (mkConnection addr outgoing (Open outbox)) =>
          Some (close_session now c (mkConnection addr outgoing (Open outbox)) s)
      | _ => None
      end
  | SI_Panic c => conn ← sv_conns s !! c; panic_connection c conn s
  end.

(** Runs of the system. *)
Fixpoint service_run (inputs : list (Z * ServiceInput)) (s : Service) : option Service :=
  match inputs with
  | [] => Some s
  | (now, i) :: rest => s' ← service_step now i s; service_run rest s'
  end.

End Service.
