(* ===== verification/ServiceSpec.v ===== *)
(** * What the network service promises

    The events of every run are ordered, and the tables agree with the sessions
    open and those whose task panicked.  What the service does not do: clean up
    after a panic, stop a connection it was told to drop, refuse a banned
    address, hold the limit against connections that arrive together, or go on
    while one peer does not read. *)

From S2P Require Export Service.

Local Open Scope Z_scope.

(** ** Counting in a map *)

Section Count.
Context {A : Type} (P : A -> Prop) `{forall x, Decision (P x)}.

Definition count_in (m : gmap nat A) : nat := length (base.filter (fun p => P p.2) (map_to_list m)).
Definition one (x : A) : nat := if decide (P x) then 1 else 0.

Lemma one_false x : ~ P x -> one x = 0%nat.
Proof. intros Hn. unfold one. by rewrite decide_False. Qed.

Lemma count_in_empty : count_in ∅ = 0%nat.
Proof. unfold count_in. by rewrite map_to_list_empty. Qed.

Lemma count_in_insert m c x : m !! c = None -> count_in (<[c := x]> m) = (one x + count_in m)%nat.
Proof.
  intros Hn. unfold count_in, one. rewrite map_to_list_insert by done. rewrite filter_cons. cbn [snd].
  by case_decide.
Qed.

Lemma count_in_delete m c x : m !! c = Some x -> count_in m = (one x + count_in (delete c m))%nat.
Proof.
  intros Hs. rewrite <- (insert_delete_id m c x) at 1 by done. rewrite count_in_insert; [done|]. apply lookup_delete_eq.
Qed.

Lemma count_in_replace m c x y :
  m !! c = Some x -> (one x + count_in (<[c := y]> m) = one y + count_in m)%nat.
Proof.
  intros Hs. rewrite <- insert_delete_eq, count_in_insert by apply lookup_delete_eq.
  rewrite (count_in_delete m c x Hs). lia.
Qed.

Lemma count_in_pos m : (0 < count_in m)%nat <-> exists c x, m !! c = Some x /\ P x.
Proof.
  unfold count_in. split.
  - destruct (base.filter _ _) as [|[c x] l] eqn:E; cbn; [lia|]. intros _. exists c, x.
    assert ((c, x) ∈ base.filter (fun p => P p.2) (map_to_list m)) as [HP Hin]%list_elem_of_filter by (rewrite E; by left).
    by apply elem_of_map_to_list in Hin.
  - intros (c & x & Hm & HP). assert ((c, x) ∈ base.filter (fun p => P p.2) (map_to_list m)) as Hin.
    { apply list_elem_of_filter. split; [done|]. by apply elem_of_map_to_list. }
    destruct (base.filter _ _); [by apply not_elem_of_nil in Hin|cbn; lia].
Qed.

End Count.

Lemma count_in_split {A} (P Q R : A -> Prop) `{forall x, Decision (P x), forall x, Decision (Q x), forall x, Decision (R x)}
    (m : gmap nat A) :
  (forall x, P x <-> Q x \/ R x) -> (forall x, ~ (Q x /\ R x)) ->
  count_in P m = (count_in Q m + count_in R m)%nat.
Proof.
  intros Hor Hand. unfold count_in. induction (map_to_list m) as [|[c x] l IH]; [done|].
  rewrite !filter_cons. cbn [snd]. specialize (Hor x). specialize (Hand x).
  repeat case_decide; cbn [length]; (lia || tauto).
Qed.

Section Spec.
Context `{AddrText} `{HashOrder}.

(** ** The stream of events *)

Definition connects (p : PeerId) (e : NetworkEvent) : Prop :=
  match e with NE_PeerConnected q _ _ => q = p | _ => False end.
Definition disconnects (p : PeerId) (e : NetworkEvent) : Prop :=
  match e with NE_PeerDisconnected q => q = p | _ => False end.

#[export] Instance connects_dec p e : Decision (connects p e).
Proof. destruct e; cbn; apply _. Defined.
#[export] Instance disconnects_dec p e : Decision (disconnects p e).
Proof. destruct e; cbn; apply _. Defined.

Definition connected_times (p : PeerId) (l : list NetworkEvent) : nat := length (base.filter (connects p) l).
Definition disconnected_times (p : PeerId) (l : list NetworkEvent) : nat := length (base.filter (disconnects p) l).

#[global] Arguments connected_times : simpl never.
#[global] Arguments disconnected_times : simpl never.

(** A message, and the end of a session, come from a peer that is connected. *)
Inductive ordered : list NetworkEvent -> Prop :=
  | O_nil : ordered []
  | O_snoc l e : ordered l ->
      match e with
      | NE_MessageReceived p _ | NE_PeerDisconnected p => (disconnected_times p l < connected_times p l)%nat
      | _ => True
      end -> ordered (l ++ [e]).

(** A session of a peer: open, or left behind by a task that panicked. *)
Definition session_of (p : PeerId) (conn : Connection) : Prop :=
  match cn_phase conn with Open _ => addr_text (cn_addr conn) = p | _ => False end.
Definition panicked_of (p : PeerId) (conn : Connection) : Prop :=
  match cn_phase conn with Panicked => addr_text (cn_addr conn) = p | _ => False end.
Definition begun_by (p : PeerId) (conn : Connection) : Prop :=
  match cn_phase conn with Open _ | Panicked => addr_text (cn_addr conn) = p | _ => False end.

#[export] Instance session_of_dec p conn : Decision (session_of p conn).
Proof. unfold session_of. destruct (cn_phase conn); apply _. Defined.
#[export] Instance panicked_of_dec p conn : Decision (panicked_of p conn).
Proof. unfold panicked_of. destruct (cn_phase conn); apply _. Defined.
#[export] Instance begun_by_dec p conn : Decision (begun_by p conn).
Proof. unfold begun_by. destruct (cn_phase conn); apply _. Defined.

Definition sessions (p : PeerId) (s : Service) : nat := count_in (session_of p) (sv_conns s).
Definition panicked (p : PeerId) (s : Service) : nat := count_in (panicked_of p) (sv_conns s).
Definition begun (p : PeerId) (s : Service) : nat := count_in (begun_by p) (sv_conns s).

Lemma begun_cases p conn : begun_by p conn <-> session_of p conn \/ panicked_of p conn.
Proof. unfold begun_by, session_of, panicked_of. destruct (cn_phase conn); tauto. Qed.

Lemma begun_split p s : begun p s = (sessions p s + panicked p s)%nat.
Proof.
  apply count_in_split; [apply begun_cases|]. intros conn. unfold session_of, panicked_of.
  destruct (cn_phase conn); tauto.
Qed.

(** The invariant of the service. *)
Record service_inv (s : Service) : Prop := {
  sn_fresh c : (sv_next s <= c)%nat -> sv_conns s !! c = None;
  sn_ordered : ordered (sv_events s);
  sn_balance p : connected_times p (sv_events s) = (disconnected_times p (sv_events s) + begun p s)%nat;
  sn_handles p h : sv_peers s !! p = Some h ->
    exists conn, sv_conns s !! ph_conn h = Some conn /\ begun_by p conn;
  sn_connected p : p ∈ connected (sv_manager s) -> (0 < begun p s)%nat /\ is_Some (peers (sv_manager s) !! p)
}.

Lemma times_snoc p l e :
  connected_times p (l ++ [e]) = (connected_times p l + if decide (connects p e) then 1 else 0)%nat /\
  disconnected_times p (l ++ [e]) = (disconnected_times p l + if decide (disconnects p e) then 1 else 0)%nat.
Proof.
  unfold connected_times, disconnected_times. rewrite !filter_app, !length_app, !filter_cons, !filter_nil.
  by repeat case_decide.
Qed.

Lemma service_inv_new n manager : connected manager = ∅ -> service_inv (service_new n manager).
Proof.
  intros Hc. constructor; cbn.
  - intros c _. apply lookup_empty.
  - constructor.
  - intros p. unfold begun. cbn. by rewrite count_in_empty.
  - intros p h. by rewrite lookup_empty.
  - intros p. rewrite Hc. by intros ?%not_elem_of_empty.
Qed.

(** Steps that leave connections, handles, events and the peer manager alone. *)
Lemma service_inv_task s t : service_inv s -> service_inv (put_task t s).
Proof. by intros []. Qed.
Lemma service_inv_running s b : service_inv s -> service_inv (put_running b s).
Proof. by intros []. Qed.

Lemma service_inv_spawn s conn :
  service_inv s -> (forall p, ~ begun_by p conn) -> service_inv (spawn_task conn s).
Proof.
  intros [Hf Ho Hb Hh Hc] Hn.
  assert (sv_conns s !! sv_next s = None) as Hnone by (apply Hf; lia).
  assert (forall p, begun p (spawn_task conn s) = begun p s) as Hs.
  { intros p. unfold begun. cbn. rewrite count_in_insert by done. unfold one. by rewrite decide_False. }
  constructor; cbn -[begun spawn_task]; intros *; rewrite ?Hs; auto.
  - cbn. intros Hle. rewrite lookup_insert_ne by lia. apply Hf. lia.
  - cbn. intros (x & Hx & Hsx)%Hh. exists x. split; [|done]. rewrite lookup_insert_ne; [done|]. congruence.
Qed.

(** A manager with the same peers, connected or not. *)
Lemma service_inv_manager s m :
  service_inv s -> connected m = connected (sv_manager s) -> peers m = peers (sv_manager s) ->
  service_inv (put_peer_manager m s).
Proof. intros [Hf Ho Hb Hh Hc] Hm Hp. constructor; cbn; rewrite ?Hm, ?Hp; auto. Qed.

Lemma service_inv_disconnect s p : service_inv s -> service_inv (disconnect_peer p s).
Proof.
  intros [Hf Ho Hb Hh Hc]. constructor; cbn; auto. intros q h. rewrite lookup_delete. case_decide; [done|]. apply Hh.
Qed.

Lemma service_inv_command s c : service_inv s -> service_inv (service_command c s).
Proof.
  intros Hs. destruct c; cbn [service_command].
  - unfold connect_to_peer. case_match; [done|]. apply service_inv_spawn; [done|by intros p []].
  - by apply service_inv_disconnect.
  - by apply service_inv_task.
  - by apply service_inv_task.
  - by apply service_inv_running.
Qed.

(** A connection changes and stays what it was: a session of the same peer, or none. *)
Lemma service_inv_update s c conn conn' :
  service_inv s -> sv_conns s !! c = Some conn -> (forall p, begun_by p conn' <-> begun_by p conn) ->
  service_inv (put_conns (<[c := conn']> (sv_conns s)) s).
Proof.
  intros [Hf Ho Hb Hh Hc] Hconn Hsame.
  assert (forall p, begun p (put_conns (<[c := conn']> (sv_conns s)) s) = begun p s) as Hs.
  { intros p. unfold begun. cbn. pose proof (count_in_replace (begun_by p) _ _ _ conn' Hconn) as Hr.
    unfold one in Hr. rewrite (decide_ext _ _ _ _ (Hsame p)) in Hr. lia. }
  constructor; cbn -[begun put_conns]; intros *; rewrite ?Hs; auto.
  - cbn. intros Hle. rewrite lookup_insert_ne; [by apply Hf|]. intros ->. by rewrite Hf in Hconn.
  - cbn. intros (x & Hx & Hsx)%Hh. destruct (decide (ph_conn h = c)) as [<-|Hne].
    + exists conn'. rewrite lookup_insert_eq. split; [done|]. rewrite Hconn in Hx. injection Hx as <-. by apply Hsame.
    + exists x. by rewrite lookup_insert_ne.
Qed.

Lemma service_inv_forget s c conn :
  service_inv s -> sv_conns s !! c = Some conn -> (forall p, ~ begun_by p conn) ->
  service_inv (put_conns (delete c (sv_conns s)) s).
Proof.
  intros [Hf Ho Hb Hh Hc] Hconn Hn.
  assert (forall p, count_in (begun_by p) (delete c (sv_conns s)) = begun p s) as Hs.
  { intros p. unfold begun. rewrite (count_in_delete _ _ _ _ Hconn). unfold one. by rewrite decide_False. }
  constructor; unfold begun in *; cbn; intros *; rewrite ?Hs; auto.
  - intros Hle. apply lookup_delete_None. right. by apply Hf.
  - intros (x & Hx & Hsx)%Hh. exists x. rewrite lookup_delete_ne; [done|]. intros ->. rewrite Hconn in Hx.
    injection Hx as ->. by eapply Hn.
Qed.

Lemma service_inv_fail s c conn e :
  service_inv s -> sv_conns s !! c = Some conn -> (forall p, ~ begun_by p conn) ->
  service_inv (fail_connection c conn e s).
Proof.
  intros Hs Hconn Hn. pose proof (service_inv_forget s c conn Hs Hconn Hn) as Hd.
  unfold fail_connection. destruct (cn_outgoing conn); [|done]. destruct Hd as [Gf Go Gb Gh Gc].
  constructor; unfold begun in *; cbn in *; auto.
  - by constructor.
  - intros p. destruct (times_snoc p (sv_events s) (NE_ConnectionFailed (cn_addr conn) e)) as [-> ->]. cbn. rewrite Gb. lia.
Qed.

Lemma set_state_peers now (m : PeerManager (Addr := SocketAddr)) id st p : is_Some (peers m !! p) -> is_Some (peers (set_state now m id st) !! p).
Proof.
  intros Hp. unfold set_state. destruct (peers m !! id) as [x|] eqn:E; [|done].
  assert (is_Some (<[id := with_last_seen (with_state x st) now]> (peers m) !! p)).
  { rewrite lookup_insert. by case_decide. }
  by destruct st.
Qed.

Lemma set_state_connected now (m : PeerManager (Addr := SocketAddr)) id st p :
  p ∈ connected (set_state now m id st) ->
  match st with
  | PS_Connected => p = id \/ p ∈ connected m
  | PS_Disconnected | PS_Banned => p ∈ connected m /\ (p <> id \/ peers m !! id = None)
  | _ => p ∈ connected m
  end.
Proof.
  unfold set_state. destruct (peers m !! id); [|destruct st; auto].
  destruct st; cbn; set_solver.
Qed.

Lemma service_inv_open now s c addr outgoing hs :
  service_inv s -> sv_conns s !! c = Some (mkConnection addr outgoing Handshaking) ->
  service_inv (open_session now c (mkConnection addr outgoing Handshaking) hs s).
Proof.
  intros [Hf Ho Hb Hh Hc] Hconn. set (conn' := mkConnection addr outgoing (Open [])).
  assert (forall p, count_in (begun_by p) (<[c := conn']> (sv_conns s)) =
    (begun p s + if decide (addr_text addr = p) then 1 else 0)%nat) as Hs.
  { intros p. pose proof (count_in_replace (begun_by p) _ _ _ conn' Hconn) as Hr. rewrite one_false in Hr by (intros []).
    change (one (begun_by p) conn') with (if decide (addr_text addr = p) then 1 else 0)%nat in Hr.
    unfold begun. lia. }
  constructor; unfold begun in *; cbn -[set_state addr_text]; fold conn'; intros *; rewrite ?Hs.
  - intros Hle. rewrite lookup_insert_ne; [by apply Hf|]. intros ->. by rewrite Hf in Hconn.
  - by constructor.
  - match goal with |- connected_times _ (_ ++ [?e]) = _ => destruct (times_snoc p (sv_events s) e) as [-> ->] end.
    cbn. rewrite Hb. repeat case_decide; try done; lia.
  - rewrite lookup_insert. case_decide as He.
    + intros [= <-]. exists conn'. cbn. by rewrite lookup_insert_eq.
    + intros (x & Hx & Hsx)%Hh. exists x. split; [|done]. rewrite lookup_insert_ne; [done|]. intros ->.
      rewrite Hconn in Hx. by injection Hx as <-.
  - intros Hp. split.
    + apply set_state_connected in Hp as [->|Hp]; [rewrite decide_True by done; lia|].
      apply Hc in Hp as [Hp _]. unfold begun in Hp. lia.
    + apply set_state_peers. cbn. apply set_state_connected in Hp as [->|Hp]; rewrite lookup_insert; [by case_decide|].
      case_decide; [done|]. by apply Hc.
Qed.

Lemma service_inv_close now s c addr outgoing outbox :
  service_inv s -> sv_conns s !! c = Some (mkConnection addr outgoing (Open outbox)) ->
  service_inv (close_session now c (mkConnection addr outgoing (Open outbox)) s).
Proof.
  intros [Hf Ho Hb Hh Hc] Hconn.
  assert (forall p, begun p s =
    ((if decide (addr_text addr = p) then 1 else 0) + count_in (begun_by p) (delete c (sv_conns s)))%nat) as Hs.
  { intros p. unfold begun. by rewrite (count_in_delete _ _ _ _ Hconn). }
  constructor; unfold begun; cbn -[set_state]; intros *.
  - intros Hle. apply lookup_delete_None. right. by apply Hf.
  - constructor; [done|]. rewrite Hb, Hs, decide_True by done. lia.
  - match goal with |- connected_times _ (_ ++ [?e]) = _ => destruct (times_snoc p (sv_events s) e) as [-> ->] end.
    cbn. rewrite Hb, Hs. repeat case_decide; try done; lia.
  - rewrite lookup_delete. case_decide as He; [done|]. intros (x & Hx & Hsx)%Hh. exists x. split; [|done].
    rewrite lookup_delete_ne; [done|]. intros ->. rewrite Hconn in Hx. by injection Hx as <-.
  - intros Hp. split; [|apply set_state_peers; apply set_state_connected in Hp as [Hp _]; by apply Hc].
    apply set_state_connected in Hp as [Hp Hne]. apply Hc in Hp as [Hp Hsome]. rewrite Hs in Hp. case_decide as He; [|lia].
    destruct Hne as [Hne|Hn]; [by destruct Hne|]. subst p. cbn in Hn. rewrite Hn in Hsome. by destruct Hsome.
Qed.

(** A panic ends no session that had begun, and reports nothing. *)
Lemma service_inv_panic s s' c conn :
  service_inv s -> sv_conns s !! c = Some conn -> panic_connection c conn s = Some s' -> service_inv s'.
Proof.
  intros Hs Hconn. unfold panic_connection. destruct conn as [addr outgoing []]; cbn; try done; intros [= <-].
  - apply service_inv_forget with (1 := Hs) (2 := Hconn). by intros p [].
  - by eapply service_inv_update.
Qed.

(** A message of an open session. *)
Lemma service_inv_receive s c addr outgoing outbox msg :
  service_inv s -> sv_conns s !! c = Some (mkConnection addr outgoing (Open outbox)) ->
  service_inv (send_event (NE_MessageReceived (addr_text addr) msg) s).
Proof.
  intros [Hf Ho Hb Hh Hc] Hconn. constructor; cbn; auto.
  - constructor; [done|]. rewrite Hb. enough (0 < begun (addr_text addr) s)%nat by lia.
    apply count_in_pos. by eexists _, _.
  - intros p. match goal with |- connected_times _ (_ ++ [?e]) = _ => destruct (times_snoc p (sv_events s) e) as [-> ->] end.
    cbn. rewrite Hb. unfold begun. cbn. lia.
Qed.

Lemma service_inv_send s s' : service_inv s -> send_step s = Some s' -> service_inv s'.
Proof.
  intros Hs. unfold send_step. destruct (sv_task s) as [|[p m|c m] rest]; [done| |].
  - intros [= <-]. by apply service_inv_task.
  - destruct (sv_conns s !! c) as [[addr outgoing [| |outbox|]]|] eqn:Hc; try (intros [= <-]; by apply service_inv_task).
    case_match; [|done]. intros [= <-]. apply service_inv_task. by eapply service_inv_update.
Qed.

Lemma service_inv_step now i s s' : service_inv s -> service_step now i s = Some s' -> service_inv s'.
Proof.
  intros Hs. destruct i as [addr|cmd| | |c b|c r|c m|c|c|c]; cbn [service_step];
    try (destruct (loop_idle s); [intros [= <-]|done]); try (by apply service_inv_send).
  - unfold handle_incoming. case_match; [done|]. apply service_inv_spawn; [done|by intros p []].
  - by apply service_inv_command.
  - by apply service_inv_manager.
  - destruct (sv_conns s !! c) as [[addr outgoing []]|] eqn:Hc; try done. destruct b; intros [= <-].
    + by eapply service_inv_update.
    + by apply service_inv_fail; [..|intros p []].
  - destruct (sv_conns s !! c) as [[addr outgoing []]|] eqn:Hc; try done. destruct r as [h|e]; intros [= <-].
    + by apply service_inv_open.
    + by apply service_inv_fail; [..|intros p []].
  - destruct (sv_conns s !! c) as [[addr outgoing []]|] eqn:Hc; try done. intros [= <-]. by eapply service_inv_receive.
  - destruct (sv_conns s !! c) as [[addr outgoing [| |[|m l]|]]|] eqn:Hc; try done. intros [= <-].
    by eapply service_inv_update.
  - destruct (sv_conns s !! c) as [[addr outgoing []]|] eqn:Hc; try done. intros [= <-]. by apply service_inv_close.
  - destruct (sv_conns s !! c) as [conn|] eqn:Hc; [|done]. cbn. by apply service_inv_panic.
Qed.

Lemma service_run_app l1 l2 s : service_run (l1 ++ l2) s = s' ← service_run l1 s; service_run l2 s'.
Proof.
  revert s. induction l1 as [|[now i] l1 IH]; intros s; [done|]. cbn. destruct (service_step now i s); cbn; auto.
Qed.

Lemma service_inv_run inputs s s' : service_inv s -> service_run inputs s = Some s' -> service_inv s'.
Proof.
  revert s. induction inputs as [|[now i] rest IH]; intros s Hs; cbn.
  - by intros [= <-].
  - destruct (service_step now i s) as [s1|] eqn:E; cbn; [|done]. by apply IH, (service_inv_step now i s).
Qed.

(** No task panics in a run without the input for it. *)
Definition is_panic (i : ServiceInput) : bool := match i with SI_Panic _ => true | _ => false end.

Definition none_panicked (s : Service) : Prop := forall c conn p, sv_conns s !! c = Some conn -> ~ panicked_of p conn.

Lemma none_panicked_insert s c conn s' :
  none_panicked s -> sv_conns s' = <[c := conn]> (sv_conns s) -> (forall p, ~ panicked_of p conn) -> none_panicked s'.
Proof.
  intros Hn Hs Hc d x p. rewrite Hs, lookup_insert. case_decide; [intros [= <-]; apply Hc|apply Hn].
Qed.
Lemma none_panicked_delete s c s' : none_panicked s -> sv_conns s' = delete c (sv_conns s) -> none_panicked s'.
Proof. intros Hn Hs d x p. rewrite Hs, lookup_delete. case_decide; [done|apply Hn]. Qed.

Lemma none_panicked_step now i s s' :
  is_panic i = false -> none_panicked s -> service_step now i s = Some s' -> none_panicked s'.
Proof.
  intros Hi Hn. destruct i as [addr|cmd| | |c b|c r|c m|c|c|c]; cbn [service_step]; [..|done];
    try (destruct (loop_idle s); [intros [= <-]|done]).
  - unfold handle_incoming. case_match; [done|]. eapply none_panicked_insert; [exact Hn|done|by intros p []].
  - destruct cmd; cbn; try exact Hn. unfold connect_to_peer. case_match; [done|].
    eapply none_panicked_insert; [exact Hn|done|by intros p []].
  - exact Hn.
  - unfold send_step. destruct (sv_task s) as [|[p m|c m] rest]; [done|by intros [= <-]|].
    destruct (sv_conns s !! c) as [[addr outgoing []]|]; try (by intros [= <-]). case_match; [|done]. intros [= <-].
    eapply none_panicked_insert; [exact Hn|done|by intros p []].
  - destruct (sv_conns s !! c) as [[addr outgoing []]|]; try done. destruct b; intros [= <-].
    + eapply none_panicked_insert; [exact Hn|done|by intros p []].
    + unfold fail_connection. destruct (cn_outgoing _); by eapply none_panicked_delete.
  - destruct (sv_conns s !! c) as [[addr outgoing []]|]; try done. destruct r; intros [= <-].
    + eapply none_panicked_insert; [exact Hn|done|by intros p []].
    + unfold fail_connection. destruct (cn_outgoing _); by eapply none_panicked_delete.
  - destruct (sv_conns s !! c) as [[addr outgoing []]|]; try done. by intros [= <-].
  - destruct (sv_conns s !! c) as [[addr outgoing [| |[]|]]|]; try done. intros [= <-].
    eapply none_panicked_insert; [exact Hn|done|by intros p []].
  - destruct (sv_conns s !! c) as [[addr outgoing []]|]; try done. intros [= <-]. by eapply none_panicked_delete.
Qed.

Lemma none_panicked_run inputs s s' :
  Forall (fun i => is_panic i.2 = false) inputs -> none_panicked s -> service_run inputs s = Some s' -> none_panicked s'.
Proof.
  intros Hf. revert s. induction Hf as [|[now i] rest Hi _ IH]; intros s Hn; cbn; [by intros [= <-]|].
  destruct (service_step now i s) as [s1|] eqn:E; cbn; [|done]. apply IH. by eapply none_panicked_step.
Qed.

Lemma none_panicked_zero s p : none_panicked s -> panicked p s = 0%nat.
Proof.
  intros Hn. enough (~ (0 < panicked p s)%nat) by lia. unfold panicked. rewrite count_in_pos.
  intros (c & conn & Hc & Hp). by eapply Hn.
Qed.

(** C26: The events of any run of the service, with whatever accepted, opened,
    handshaken, sent, received, closed and panicked in whatever order, are
    ordered: a message, and the end of a session, are reported only for a peer
    that was reported connected more often than disconnected; the difference is
    the number of its open sessions and of its sessions whose task panicked,
    which is none when no task did; every handle leads to a session of its
    peer, open or panicked; and the peers the peer manager holds connected have
    one. *)
Theorem service_events_ordered n manager inputs s :
  connected manager = ∅ -> service_run inputs (service_new n manager) = Some s ->
  ordered (sv_events s) /\
  (forall p, connected_times p (sv_events s) =
     (disconnected_times p (sv_events s) + sessions p s + panicked p s)%nat) /\
  (Forall (fun i => is_panic i.2 = false) inputs -> forall p, panicked p s = 0%nat) /\
  (forall p h, sv_peers s !! p = Some h ->
     exists conn, sv_conns s !! ph_conn h = Some conn /\ (session_of p conn \/ panicked_of p conn)) /\
  (forall p, p ∈ connected (sv_manager s) -> (0 < sessions p s + panicked p s)%nat).
Proof.
  intros Hm Hrun. destruct (service_inv_run _ _ _ (service_inv_new n manager Hm) Hrun) as [Hf Ho Hb Hh Hc].
  split_and!; [done| | | |].
  - intros p. rewrite Hb, begun_split. lia.
  - intros Hn p. apply none_panicked_zero, (none_panicked_run inputs (service_new n manager) s Hn); [|done].
    intros c conn q. cbn. by rewrite lookup_empty.
  - intros p h (conn & Hconn & Hp%begun_cases)%Hh. by exists conn.
  - intros p [Hp _]%Hc. by rewrite <- begun_split.
Qed.

(** When the task of a session panics, as it does on a frame of an inventory
    without a payload, its handle stays in the table and counts against the
    limit, the peer manager keeps the peer connected, and no end of the session
    is reported; the connection delivers and takes nothing any more. *)
Theorem panicked_session_stays now c addr outgoing outbox s :
  sv_conns s !! c = Some (mkConnection addr outgoing (Open outbox)) ->
  exists s', service_step now (SI_Panic c) s = Some s' /\
    sv_peers s' = sv_peers s /\ sv_manager s' = sv_manager s /\ sv_events s' = sv_events s /\
    sessions (addr_text addr) s = S (sessions (addr_text addr) s') /\
    forall t i, i ∈ [SI_Write c; SI_Close c; SI_Panic c] \/ (exists m, i = SI_Receive c m) -> service_step t i s' = None.
Proof.
  intros Hc. cbn [service_step]. rewrite Hc. cbn. eexists. split; [done|]. do 3 (split; [done|]). split.
  - unfold sessions. cbn. set (dead := mkConnection addr outgoing Panicked).
    pose proof (count_in_replace (session_of (addr_text addr)) _ _ _ dead Hc) as Hr.
    rewrite (one_false _ dead) in Hr by (by intros []). unfold one in Hr. rewrite decide_True in Hr by done. lia.
  - intros t i Hi. assert (i = SI_Write c \/ i = SI_Close c \/ i = SI_Panic c \/ exists m, i = SI_Receive c m) as Hi'.
    { destruct Hi as [Hi|Hi]; [|by do 3 right]. rewrite !elem_of_cons, elem_of_nil in Hi. tauto. }
    destruct Hi' as [->|[->|[->|[m ->]]]]; cbn; by rewrite lookup_insert_eq.
Qed.

(** The loop waits for one connection. *)
Definition waits_for (c : nat) (s : Service) : Prop :=
  exists message rest addr outgoing outbox,
    sv_task s = ToConn c message :: rest /\
    sv_conns s !! c = Some (mkConnection addr outgoing (Open outbox)) /\ (OUTBOX_CAPACITY <= length outbox)%nat.

Definition loop_input (i : ServiceInput) : bool :=
  match i with SI_Accept _ | SI_Command _ | SI_Cleanup => true | _ => false end.

Lemma waits_step now i c s s' :
  waits_for c s -> i <> SI_Write c -> i <> SI_Close c -> i <> SI_Panic c -> service_step now i s = Some s' ->
  loop_input i = false /\ sv_task s' = sv_task s /\ sv_conns s' !! c = sv_conns s !! c.
Proof.
  intros (msg & rest & addr & outgoing & outbox & Ht & Hc & Hl) Hw Hcl Hpa.
  assert (loop_idle s = false) as Hidle by (unfold loop_idle; rewrite Ht; apply andb_false_r).
  destruct i as [a|cmd| | |d b|d r|d m|d|d|d]; cbn [service_step loop_input]; rewrite ?Hidle; try done.
  - unfold send_step. rewrite Ht, Hc. by destruct (Nat.ltb_spec (length outbox) OUTBOX_CAPACITY); [lia|].
  - destruct (decide (d = c)) as [->|Hne]; [by rewrite Hc|].
    destruct (sv_conns s !! d) as [[a o []]|]; try done. destruct b; intros [= <-].
    + cbn. by rewrite lookup_insert_ne.
    + unfold fail_connection. destruct o; cbn; by rewrite lookup_delete_ne.
  - destruct (decide (d = c)) as [->|Hne]; [by rewrite Hc|].
    destruct (sv_conns s !! d) as [[a o []]|]; try done. destruct r; intros [= <-].
    + cbn. by rewrite lookup_insert_ne.
    + unfold fail_connection. destruct o; cbn; by rewrite lookup_delete_ne.
  - destruct (sv_conns s !! d) as [[a o []]|]; try done. by intros [= <-].
  - destruct (decide (d = c)) as [->|Hne]; [done|].
    destruct (sv_conns s !! d) as [[a o [| |[|? ?]|]]|]; try done. intros [= <-]. cbn. by rewrite lookup_insert_ne.
  - destruct (decide (d = c)) as [->|Hne]; [done|].
    destruct (sv_conns s !! d) as [[a o []]|]; try done. intros [= <-]. cbn. by rewrite lookup_delete_ne.
  - destruct (decide (d = c)) as [->|Hne]; [done|]. destruct (sv_conns s !! d) as [[a o []]|]; try done; intros [= <-]; cbn.
    + by rewrite lookup_delete_ne.
    + by rewrite lookup_insert_ne.
Qed.

(** One peer that does not read holds up the service: from the moment the
    loop has a message for a connection whose queue is full, until that
    connection writes a message or ends (its task may panic), the loop does nothing; no connection
    is accepted, no command is carried out and no ban is lifted, whatever the
    other connections do. *)
Theorem slow_peer_stalls c inputs s s' :
  waits_for c s -> Forall (fun i => i.2 <> SI_Write c /\ i.2 <> SI_Close c /\ i.2 <> SI_Panic c) inputs ->
  service_run inputs s = Some s' ->
  Forall (fun i => loop_input i.2 = false) inputs /\ sv_task s' = sv_task s /\ waits_for c s'.
Proof.
  revert s. induction inputs as [|[now i] rest IH]; intros s Hw Hf; cbn [service_run].
  - intros [= <-]. by repeat split.
  - apply Forall_cons in Hf as [(Hn1 & Hn2 & Hn3) Hf]. destruct (service_step now i s) as [s1|] eqn:E; [|done]. cbn.
    destruct (waits_step _ _ _ _ _ Hw Hn1 Hn2 Hn3 E) as (Hl & Ht & Hc). intros Hrun.
    assert (waits_for c s1) as Hw1 by (unfold waits_for; by rewrite Ht, Hc).
    destruct (IH s1 Hw1 Hf Hrun) as (Hfa & Ht' & Hw'). rewrite Ht' . repeat split; [|done|done]. by constructor.
Qed.

(** Disconnecting a peer only forgets its handle: the connection stays open and
    keeps what it had to write, nothing is reported, the peer manager still has
    the peer connected, and messages from it are delivered as before, while none can
    be sent to it. *)
Theorem disconnect_keeps_connection now c addr outgoing outbox message s :
  loop_idle s = true -> sv_conns s !! c = Some (mkConnection addr outgoing (Open outbox)) ->
  exists s', service_run [(now, SI_Command (NC_Disconnect (addr_text addr))); (now, SI_Receive c message)] s = Some s' /\
    sv_conns s' = sv_conns s /\ sv_manager s' = sv_manager s /\
    sv_events s' = sv_events s ++ [NE_MessageReceived (addr_text addr) message] /\
    sv_peers s' !! addr_text addr = None.
Proof.
  intros Hi Hc. eexists. cbn [service_run service_step]. rewrite Hi. cbn -[addr_text]. rewrite Hc. cbn -[addr_text].
  split; [done|]. repeat split. apply lookup_delete_eq.
Qed.

Lemma accepts_run now l s :
  loop_idle s = true -> (size (sv_peers s) < sv_max_connections s)%nat ->
  exists s', service_run ((fun a => (now, SI_Accept a)) <$> l) s = Some s' /\ sv_peers s' = sv_peers s /\
    (forall c, (c < sv_next s)%nat -> sv_conns s' !! c = sv_conns s !! c) /\
    forall k a, l !! k = Some a -> sv_conns s' !! (sv_next s + k)%nat = Some (mkConnection a false Handshaking).
Proof.
  revert s. induction l as [|a l IH]; intros s Hi Hlt; cbn -[size]; [by exists s|].
  rewrite Hi. cbn -[size]. unfold handle_incoming. destruct (Nat.leb_spec (sv_max_connections s) (size (sv_peers s))); [lia|].
  destruct (IH (spawn_task (mkConnection a false Handshaking) s) Hi Hlt) as (s' & Hrun & Hp & Hold & Hnew).
  exists s'. split_and!; [done|done| |].
  - intros c Hc. rewrite Hold by (cbn; lia). cbn. rewrite lookup_insert_ne; [done|lia].
  - intros [|k] b; cbn.
    + intros [= ->]. rewrite Nat.add_0_r, Hold by (cbn; lia). cbn. by rewrite lookup_insert_eq.
    + intros Hk%Hnew. cbn in Hk. by rewrite Nat.add_succ_r.
Qed.

Lemma handshakes_run now hs l s :
  forall k, (forall i a, l !! i = Some a -> sv_conns s !! (k + i)%nat = Some (mkConnection a false Handshaking)) ->
  exists s', service_run (imap (fun i _ => (now, SI_Handshake (k + i) (Ok hs))) l) s = Some s' /\
    dom (sv_peers s') = dom (sv_peers s) ∪ list_to_set (addr_text <$> l) /\
    connected (sv_manager s) ∪ list_to_set (addr_text <$> l) ⊆ connected (sv_manager s').
Proof.
  revert s. induction l as [|a l IH]; intros s k Hl; [exists s; cbn; set_solver|].
  pose proof (Hl 0%nat a eq_refl) as Ha. cbn [imap service_run]. cbn [service_step]. rewrite Ha.
  cbn -[open_session addr_text].
  destruct (IH (open_session now (k + 0) (mkConnection a false Handshaking) hs s) (S k)) as (s' & Hrun & Hd & Hc).
  - intros i b Hi. cbn. rewrite lookup_insert_ne by lia. replace (S (k + i)) with (k + S i)%nat by lia. by apply Hl.
  - exists s'. split_and!.
    + rewrite <- Hrun. f_equal. apply imap_ext. intros i x _. cbn. do 2 f_equal. lia.
    + rewrite Hd. cbn. rewrite dom_insert_L. set_solver.
    + etransitivity; [|exact Hc]. cbn -[addr_text set_state]. unfold set_state. cbn -[addr_text].
      rewrite lookup_insert_eq. cbn -[addr_text]. set_solver.
Qed.

(** The limit on connections is looked at before the handshakes and not after:
    connections that arrive together all become peers, however many, and
    whatever addresses the peer manager has banned. *)
Theorem connection_limit_bypassed now n manager addrs hs :
  (0 < n)%nat -> NoDup (addr_text <$> addrs) ->
  exists s, service_run (((fun a => (now, SI_Accept a)) <$> addrs) ++
                         imap (fun c _ => (now, SI_Handshake c (Ok hs))) addrs) (service_new n manager) = Some s /\
    size (sv_peers s) = length addrs /\ (forall a, a ∈ addrs -> addr_text a ∈ connected (sv_manager s)).
Proof.
  intros Hn Hnd. destruct (accepts_run now addrs (service_new n manager) eq_refl ltac:(by cbn)) as (s1 & Hr1 & Hp1 & _ & Hc1).
  destruct (handshakes_run now hs addrs s1 0 Hc1) as (s2 & Hr2 & Hd & Hcon).
  exists s2. split_and!.
  - rewrite service_run_app, Hr1. exact Hr2.
  - rewrite <- size_dom, Hd, Hp1. cbn. rewrite dom_empty_L, union_empty_l_L.
    rewrite size_list_to_set by done. by rewrite length_fmap.
  - intros a Ha. apply Hcon, elem_of_union_r, elem_of_list_to_set, list_elem_of_fmap. eauto.
Qed.

End Spec.

(** ** Examples *)

Module ServiceExample.
Import ErgoTypes.Toy.

(** An address of this network is its last byte. *)
#[export] Instance port_text : AddrText := fun a => [sa_port a].

Definition peer (n : Z) : SocketAddr := mkSocketAddr (IP_V4 [10; 0; 0; 1]) n.
Definition hello : HandshakeData := mkHandshakeData 0 [] (5, 0, 0) [] None [].
Definition managers : PeerManager (Addr := SocketAddr) := PeerManager_new PeerManagerConfig_default.

(** A peer connects, says something, and goes. *)
Definition session : list (Z * ServiceInput) :=
  [(1, SI_Command (NC_Connect (peer 1))); (2, SI_Dialed 0 true); (3, SI_Handshake 0 (Ok hello));
   (4, SI_Receive 0 M_GetPeers); (5, SI_Close 0)].

Example session_events :
  sv_events <$> service_run session (service_new 1 managers) =
  Some [NE_PeerConnected [1] (peer 1) (MHandshake_new [] (5, 0, 0) []); NE_MessageReceived [1] M_GetPeers;
        NE_PeerDisconnected [1]].
Proof. reflexivity. Qed.

(** It connects again, and its task panics. *)
Definition broken_session : list (Z * ServiceInput) :=
  session ++ [(6, SI_Accept (peer 1)); (7, SI_Handshake 1 (Ok hello)); (8, SI_Panic 1)].

Lemma service_events_ordered_witness :
  match service_run broken_session (service_new 1 managers) with
  | Some s => ordered (sv_events s) /\
      connected_times [1] (sv_events s) = S (disconnected_times [1] (sv_events s)) /\
      sessions [1] s = 0%nat /\ panicked [1] s = 1%nat /\ [1] ∈ connected (sv_manager s)
  | None => False
  end.
Proof.
  destruct (service_run broken_session (service_new 1 managers)) as [s|] eqn:E; [|discriminate E].
  destruct (service_events_ordered 1 managers broken_session s eq_refl E) as (Ho & Hb & _).
  split; [exact Ho|]. rewrite Hb. assert (s = default s (service_run broken_session (service_new 1 managers))) as ->
    by by rewrite E. clear. split; [vm_compute; reflexivity|]. do 2 (split; [vm_compute; reflexivity|]).
  apply (bool_decide_unpack _). vm_compute. exact I.
Defined.

Lemma panicked_session_stays_witness :
  match service_run (take 3 session) (service_new 1 managers) with
  | Some s => exists s', service_step 4 (SI_Panic 0) s = Some s' /\ sv_peers s' = sv_peers s /\ sv_events s' = sv_events s
  | None => False
  end.
Proof.
  set (s := default (service_new 1 managers) (service_run (take 3 session) (service_new 1 managers))).
  change (exists s', service_step 4 (SI_Panic 0) s = Some s' /\ sv_peers s' = sv_peers s /\ sv_events s' = sv_events s).
  destruct (panicked_session_stays 4 0 (peer 1) true [] s eq_refl) as (s' & Hs & Hp & _ & He & _). by exists s'.
Defined.

(** A peer that is connected and reads nothing of a hundred and one messages. *)
Definition flood : list (Z * ServiceInput) :=
  take 3 session ++
  concat (replicate 100 [(5, SI_Command (NC_SendMessage [1] M_GetPeers)); (5, SI_Send); (5, SI_Send)]) ++
  [(5, SI_Accept (peer 2)); (5, SI_Command (NC_Broadcast M_GetPeers)); (5, SI_Send)].
Definition flooded : Service := default (service_new 9 managers) (service_run flood (service_new 9 managers)).

Lemma flooded_waits : waits_for 0 flooded.
Proof.
  exists M_GetPeers, [], (peer 1), true, (replicate 100 M_GetPeers).
  split; [vm_compute; reflexivity|]. split; [vm_compute; reflexivity|vm_compute; lia].
Qed.

(** Meanwhile the second peer connects, and the first talks. *)
Definition meanwhile : list (Z * ServiceInput) :=
  [(6, SI_Handshake 1 (Ok hello)); (7, SI_Receive 0 M_GetPeers); (8, SI_Receive 1 M_GetPeers)].

Lemma slow_peer_stalls_witness :
  match service_run meanwhile flooded with
  | Some s => sv_task s = [ToConn 0 M_GetPeers] /\ waits_for 0 s
  | None => False
  end.
Proof.
  assert (is_Some (service_run meanwhile flooded)) as Hs by (vm_compute; by eexists).
  destruct (service_run meanwhile flooded) as [s|] eqn:E; [|by destruct Hs].
  assert (Forall (fun i => i.2 <> SI_Write 0 /\ i.2 <> SI_Close 0 /\ i.2 <> SI_Panic 0) meanwhile) as Hf
    by (repeat constructor; discriminate).
  destruct (slow_peer_stalls 0 meanwhile flooded s flooded_waits Hf E) as (_ & Ht & Hw).
  split; [rewrite Ht; vm_compute; reflexivity|exact Hw].
Defined.

(** Two peers where one connection is allowed. *)
Example connection_limit_bypassed_witness :
  exists s, service_run (((fun a => (0, SI_Accept a)) <$> [peer 1; peer 2]) ++
                         imap (fun c _ => (0, SI_Handshake c (Ok hello))) [peer 1; peer 2]) (service_new 1 managers) = Some s /\
    size (sv_peers s) = 2%nat /\ (forall a, a ∈ [peer 1; peer 2] -> addr_text a ∈ connected (sv_manager s)).
Proof.
  apply (connection_limit_bypassed 0 1 managers [peer 1; peer 2] hello); [lia|].
  repeat constructor; set_solver.
Defined.

Example disconnect_keeps_connection_witness :
  match service_run (take 3 session) (service_new 1 managers) with
  | Some s => exists s',
      service_run [(4, SI_Command (NC_Disconnect [1])); (5, SI_Receive 0 M_GetPeers)] s = Some s' /\
      sv_conns s' = sv_conns s
  | None => False
  end.
Proof.
  set (s := default (service_new 1 managers) (service_run (take 3 session) (service_new 1 managers))).
  change (exists s', service_run [(4, SI_Command (NC_Disconnect [1])); (5, SI_Receive 0 M_GetPeers)] s = Some s' /\
    sv_conns s' = sv_conns s).
  destruct (disconnect_keeps_connection 4 0 (peer 1) true [] M_GetPeers s eq_refl eq_refl) as (s' & Hr & Hc & _).
  by exists s'.
Defined.

End ServiceExample.
