(* ===== verification/Api.v ===== *)
(** * The HTTP API (crates/ergo-api/src): state, errors, and the handlers of
      transactions, mining, emission, node, info and peers

    A handler is a function of [AppState] and its request; one that changes the
    state returns it.  Strings are their bytes.  The JSON of a response is its
    record, and error messages are abbreviated.  The [hex] crate's decoder, the
    text of a socket address and the clock are arguments. *)

From S2P Require Export Manager Mining NodePeers Peers.
From S2P Require Mempool Wallet Indexer Scan.

Local Open Scope Z_scope.

(** ** Errors (error.rs) *)

Inductive ApiError :=
  | AE_NotFound (msg : string)
  | AE_BadRequest (msg : string)
  | AE_Internal (msg : string)
  | AE_Unauthorized
  | AE_NotImplemented (msg : string)
  | AE_State (e : StateError)
  | AE_Mempool (e : Mempool.MempoolError)
  | AE_Consensus (e : ConsensusError)
  (** Not in the code: the handler panics. *)
  | AE_Panic (msg : string).

Record ErrorResponse := mkErrorResponse { er_error : Z; er_reason : string }.

(** The status code and the body, whose detail is left out; a panic has no
    response. *)
Definition into_response (e : ApiError) : option (Z * ErrorResponse) :=
  match e with
  | AE_NotFound _ => Some (404, mkErrorResponse 404 "Not Found")
  | AE_BadRequest _ => Some (400, mkErrorResponse 400 "Bad Request")
  | AE_Unauthorized => Some (401, mkErrorResponse 401 "Unauthorized")
  | AE_NotImplemented _ => Some (501, mkErrorResponse 501 "Not Implemented")
  | AE_Internal _ => Some (500, mkErrorResponse 500 "Internal Server Error")
  | AE_State _ => Some (500, mkErrorResponse 500 "State Error")
  | AE_Mempool _ => Some (400, mkErrorResponse 400 "Mempool Error")
  | AE_Consensus _ => Some (400, mkErrorResponse 400 "Validation Error")
  | AE_Panic _ => None
  end.

(** [hex::encode], and [hex::decode], which also takes upper case. *)
Abbreviation hex_encode := Wallet.hex_encode.
Class HexDecode := hex_decode : bytes -> option bytes.
Class HexLaws `{HexDecode} : Prop :=
  hex_decode_encode bs : bytes_ok bs -> hex_decode (hex_encode bs) = Some bs.

Module ToyHex.
(** A decoder of hex strings. *)
Definition unhex_digit (d : Z) : option Z :=
  if (48 <=? d) && (d <=? 57) then Some (d - 48)
  else if (97 <=? d) && (d <=? 102) then Some (d - 87)
  else if (65 <=? d) && (d <=? 70) then Some (d - 55)
  else None.
Fixpoint unhex (text : bytes) : option bytes :=
  match text with
  | [] => Some []
  | a :: b :: rest => x ← unhex_digit a; y ← unhex_digit b; cons (16 * x + y) <$> unhex rest
  | _ => None
  end.
#[export] Instance hex_codec : HexDecode := unhex.

Lemma unhex_hex_digit d : 0 <= d < 16 -> unhex_digit (Wallet.hex_digit d) = Some d.
Proof.
  intros Hd. unfold Wallet.hex_digit, unhex_digit. destruct (Z.ltb_spec d 10).
  - destruct (Z.leb_spec 48 (48 + d)), (Z.leb_spec (48 + d) 57); cbn; try lia. f_equal. lia.
  - destruct (Z.leb_spec 48 (87 + d)), (Z.leb_spec (87 + d) 57), (Z.leb_spec 97 (87 + d)), (Z.leb_spec (87 + d) 102); cbn;
      try lia. f_equal. lia.
Qed.

#[export] Instance hex_laws : HexLaws.
Proof.
  intros bs Hbs. unfold hex_decode, hex_codec. induction Hbs as [|b bs Hb _ IH]; [done|].
  change (hex_encode (b :: bs)) with (Wallet.hex_digit (b / 16) :: Wallet.hex_digit (b mod 16) :: hex_encode bs).
  cbn [unhex]. unfold byte_ok in Hb. rewrite !unhex_hex_digit, IH.
  - cbn. f_equal. f_equal. pose proof (Z.div_mod b 16). lia.
  - split; [apply Z.div_pos; lia|apply Z.div_lt_upper_bound; lia].
  - apply Z.mod_pos_bound. lia.
Qed.

End ToyHex.

(** A hex string of 32 bytes. *)
Definition decode32 `{HexDecode} (text : bytes) (bad_hex bad_length : ApiError) : result bytes ApiError :=
  match hex_decode text with
  | None => Err bad_hex
  | Some bs => if negb (length bs =? 32)%nat then Err bad_length else Ok bs
  end.

(** ** State (state.rs) *)

Record AppState {DB : Type} `{Wallet.WalletLib} := mkAppState {
  ap_state : StateManager DB;
  ap_mempool : Mempool.Mempool;
  ap_peers : PeerManager (Addr := SocketAddr);
  ap_generator : CandidateGenerator;
  ap_wallet : option Wallet.Wallet;
  ap_indexer : option (Indexer.ExtraIndexer DB);
  ap_scan_storage : option (Scan.ScanStorage DB);
  ap_node_name : bytes;
  ap_api_key : option bytes;
  ap_mining_enabled : bool;
  (** Whether the shutdown channel has a receiver, and whether it got the signal. *)
  ap_shutdown_signal : option bool;
  ap_shutdown_sent : bool
}.
#[global] Arguments AppState DB {_}.
#[global] Arguments mkAppState {DB _}.

Section State.
Context {DB : Type} `{Wallet.WalletLib}.
Abbreviation app := (AppState DB).

Definition AppState_new (state : StateManager DB) (mempool : Mempool.Mempool) (peers : PeerManager) (node_name : bytes)
    : app :=
  mkAppState state mempool peers CandidateGenerator_new None None None node_name None false None false.

Definition put_pool (m : Mempool.Mempool) (a : app) : app :=
  mkAppState (ap_state a) m (ap_peers a) (ap_generator a) (ap_wallet a) (ap_indexer a) (ap_scan_storage a)
    (ap_node_name a) (ap_api_key a) (ap_mining_enabled a) (ap_shutdown_signal a) (ap_shutdown_sent a).
Definition put_generator (g : CandidateGenerator) (a : app) : app :=
  mkAppState (ap_state a) (ap_mempool a) (ap_peers a) g (ap_wallet a) (ap_indexer a) (ap_scan_storage a)
    (ap_node_name a) (ap_api_key a) (ap_mining_enabled a) (ap_shutdown_signal a) (ap_shutdown_sent a).
Definition put_wallet (w : option Wallet.Wallet) (a : app) : app :=
  mkAppState (ap_state a) (ap_mempool a) (ap_peers a) (ap_generator a) w (ap_indexer a) (ap_scan_storage a)
    (ap_node_name a) (ap_api_key a) (ap_mining_enabled a) (ap_shutdown_signal a) (ap_shutdown_sent a).
Definition with_indexer (ix : Indexer.ExtraIndexer DB) (a : app) : app :=
  mkAppState (ap_state a) (ap_mempool a) (ap_peers a) (ap_generator a) (ap_wallet a) (Some ix) (ap_scan_storage a)
    (ap_node_name a) (ap_api_key a) (ap_mining_enabled a) (ap_shutdown_signal a) (ap_shutdown_sent a).
Definition with_scan_storage (s : Scan.ScanStorage DB) (a : app) : app :=
  mkAppState (ap_state a) (ap_mempool a) (ap_peers a) (ap_generator a) (ap_wallet a) (ap_indexer a) (Some s)
    (ap_node_name a) (ap_api_key a) (ap_mining_enabled a) (ap_shutdown_signal a) (ap_shutdown_sent a).
Definition with_api_key (key : bytes) (a : app) : app :=
  mkAppState (ap_state a) (ap_mempool a) (ap_peers a) (ap_generator a) (ap_wallet a) (ap_indexer a) (ap_scan_storage a)
    (ap_node_name a) (Some key) (ap_mining_enabled a) (ap_shutdown_signal a) (ap_shutdown_sent a).
Definition with_mining (enabled : bool) (reward_address : option bytes) (a : app) : app :=
  mkAppState (ap_state a) (ap_mempool a) (ap_peers a)
    (match reward_address with Some addr => set_reward_address (ap_generator a) addr | None => ap_generator a end)
    (ap_wallet a) (ap_indexer a) (ap_scan_storage a)
    (ap_node_name a) (ap_api_key a) enabled (ap_shutdown_signal a) (ap_shutdown_sent a).
Definition with_wallet (config : Wallet.WalletConfig) (file : option bytes) (a : app) : app :=
  put_wallet (Some (Wallet.Wallet_new config file)) a.
Definition with_shutdown_signal (has_receiver : bool) (a : app) : app :=
  mkAppState (ap_state a) (ap_mempool a) (ap_peers a) (ap_generator a) (ap_wallet a) (ap_indexer a) (ap_scan_storage a)
    (ap_node_name a) (ap_api_key a) (ap_mining_enabled a) (Some has_receiver) (ap_shutdown_sent a).
Definition send_shutdown (a : app) : app :=
  mkAppState (ap_state a) (ap_mempool a) (ap_peers a) (ap_generator a) (ap_wallet a) (ap_indexer a) (ap_scan_storage a)
    (ap_node_name a) (ap_api_key a) (ap_mining_enabled a) (ap_shutdown_signal a) true.

Definition check_api_key (a : app) (provided : option bytes) : bool :=
  match ap_api_key a, provided with
  | None, _ => true
  | Some expected, Some provided => bool_decide (expected = provided)
  | Some _, None => false
  end.

(** The state the node serves (ergo-node node.rs, [start_api]). *)
Definition node_app (state : StateManager DB) (mempool : Mempool.Mempool) (peers : PeerManager) (node_name : bytes)
    (mining_enabled : bool) (reward_address api_key : option bytes) : app :=
  let a := with_mining mining_enabled reward_address (AppState_new state mempool peers node_name) in
  match api_key with Some key => with_api_key key a | None => a end.

(** ** node.rs: the response is the message *)

Definition shutdown (provided_key : option bytes) (a : app) : result unit ApiError * app :=
  match ap_api_key a with
  | None => (Err (AE_BadRequest "Shutdown endpoint requires API key to be configured on the node"), a)
  | Some _ =>
      if negb (check_api_key a provided_key) then (Err AE_Unauthorized, a)
      else
        match ap_shutdown_signal a with
        | Some true => (Ok tt, send_shutdown a)
        | Some false => (Err (AE_Internal "Failed to send shutdown signal"), a)
        | None => (Err (AE_NotImplemented "Shutdown signal not configured for this node"), a)
        end
  end.

End State.

(** ** Transactions (transactions.rs) *)

Definition MIN_FEE_NANO_ERG : Z := 1000000.
Definition BASE_BLOCK_TIME_MS : Z := 120000.
Definition MIN_TX_SIZE : Z := 100.
Definition MAX_TX_SIZE : Z := 1000000.

Record UnconfirmedTx := mkUnconfirmedTx { un_id : bytes; un_fee : Z; un_size : Z }.
Record PaginationParams := mkPaginationParams { pg_offset : nat; pg_limit : nat }.
Record FeeHistogramEntry := mkFeeHistogramEntry { n_txns : Z; hist_size : Z }.
Record CheckTxResponse := mkCheckTxResponse { check_success : bool; check_error : option string }.

Definition unconfirmed_of (tx : Mempool.PooledTransaction) : UnconfirmedTx :=
  mkUnconfirmedTx (hex_encode (Mempool.ptx_id tx)) (Mempool.ptx_fee tx) (Mempool.ptx_size tx).

(** The largest and the smallest fee, zero when there is none. *)
Definition max_of (l : list Z) : Z := foldr Z.max 0 l.
Definition min_of (l : list Z) : Z := match l with [] => 0 | x :: l' => foldr Z.min x l' end.

(** One transaction in the histogram: [histogram[bin]] is out of range when
    there are no bins. *)
Definition add_to_histogram (min_fee bin_size bins : Z) (histogram : list FeeHistogramEntry)
    (tx : Mempool.PooledTransaction) : result (list FeeHistogramEntry) ApiError :=
  if bin_size =? 0 then Err (AE_Panic "attempt to divide by zero")
  else
    let bin := u64 (Mempool.ptx_fee tx - min_fee) / bin_size in
    let bin := Z.min bin (u64 (bins - 1)) in
    match histogram !! Z.to_nat bin with
    | Some e =>
        Ok (<[Z.to_nat bin := mkFeeHistogramEntry (n_txns e + 1) (hist_size e + Mempool.ptx_size tx)]> histogram)
    | None => Err (AE_Panic "index out of bounds")
    end.

Definition recommended_fee (tx_count tx_size : Z) : Z :=
  let congestion_percent := if tx_count >? 100 then 200 else if tx_count >? 50 then 150 else 100 in
  let size_multiplier := Z.max (tx_size / 100) 1 in
  u64 (MIN_FEE_NANO_ERG * congestion_percent / 100 * size_multiplier).

Definition expected_wait_time (tx_count fee : Z) : Z :=
  let fee_factor := if fee >=? MIN_FEE_NANO_ERG * 2 then 1 else if fee >=? MIN_FEE_NANO_ERG then 2 else 5 in
  let congestion_factor := Z.max (tx_count / 10) 1 in
  u64 (BASE_BLOCK_TIME_MS * fee_factor * congestion_factor).

Section Transactions.
Context {ErgoBox Ext Tx : Type} `{ErgoBoxOps ErgoBox} `{TransactionOps ErgoBox Ext Tx} `{Blake2b256} `{HexDecode}.
Context (elapsed_ms : nat -> Z) (hash_order : nat -> gset bytes -> list bytes).
Context {DB : Type} `{Wallet.WalletLib}.
Abbreviation app := (AppState DB).

Definition submit_transaction (now_ms : Z) (request : bytes) (a : app) : result bytes ApiError * app :=
  match hex_decode request with
  | None => (Err (AE_BadRequest "Invalid transaction bytes"), a)
  | Some bs =>
      let id := blake2b256 bs in
      let pooled := Mempool.mkPooledTransaction id bs 0 [] [] (u64 now_ms) None in
      match Mempool.add elapsed_ms hash_order (ap_mempool a) pooled with
      | (Ok _, m) => (Ok (hex_encode id), put_pool m a)
      | (Err e, m) => (Err (AE_Mempool e), put_pool m a)
      end
  end.

Definition api_get_transaction (id : bytes) (_a : app) : result unit ApiError :=
  Err (AE_NotFound "Transaction not found").

Definition get_unconfirmed (a : app) : list UnconfirmedTx :=
  omap (fun id => unconfirmed_of <$> Mempool.get (ap_mempool a) id) (Mempool.get_all_ids hash_order (ap_mempool a)).

Definition get_unconfirmed_by_id (id : bytes) (a : app) : result UnconfirmedTx ApiError :=
  let? id_bytes := ok_or (hex_decode id) (AE_BadRequest "Invalid transaction ID") in
  let? tx := ok_or (Mempool.get (ap_mempool a) id_bytes) (AE_NotFound "Unconfirmed tx not found") in
  Ok (unconfirmed_of tx).

Definition check_transaction (request : bytes) (_a : app) : result CheckTxResponse ApiError :=
  let? bs := ok_or (hex_decode request) (AE_BadRequest "Invalid transaction bytes") in
  if Z.of_nat (length bs) <? MIN_TX_SIZE then Ok (mkCheckTxResponse false (Some "Transaction too small"%string))
  else if Z.of_nat (length bs) >? MAX_TX_SIZE then Ok (mkCheckTxResponse false (Some "Transaction too large"%string))
  else Ok (mkCheckTxResponse true None).

(** [u64] throughout; no bins divide by zero or leave nothing to index. *)
Definition get_fee_histogram (bins : Z) (a : app) : result (list FeeHistogramEntry) ApiError :=
  let txs := omap (Mempool.get (ap_mempool a)) (Mempool.get_all_ids hash_order (ap_mempool a)) in
  match txs with
  | [] => Ok []
  | _ =>
      let max_fee := max_of (Mempool.ptx_fee <$> txs) in
      let min_fee := min_of (Mempool.ptx_fee <$> txs) in
      let? bin_size :=
        if max_fee >? min_fee then
          if bins =? 0 then Err (AE_Panic "attempt to divide by zero") else Ok (u64 ((max_fee - min_fee) / bins + 1))
        else Ok 1 in
      rfold (add_to_histogram min_fee bin_size bins) (replicate (Z.to_nat bins) (mkFeeHistogramEntry 0 0)) txs
  end.

Definition get_recommended_fee (tx_size : Z) (a : app) : Z := recommended_fee (Mempool.pool_len (ap_mempool a)) tx_size.
Definition get_wait_time (fee : Z) (a : app) : Z := expected_wait_time (Mempool.pool_len (ap_mempool a)) fee.

Definition get_unconfirmed_paged (params : PaginationParams) (a : app) : list UnconfirmedTx :=
  omap (fun id => unconfirmed_of <$> Mempool.get (ap_mempool a) id)
    (take (pg_limit params) (drop (pg_offset params) (Mempool.get_all_ids hash_order (ap_mempool a)))).

Definition get_unconfirmed_by_output_id (box_id : bytes) (a : app) : result (option UnconfirmedTx) ApiError :=
  let? id := decode32 box_id (AE_BadRequest "Invalid box ID (hex decode failed)") (AE_BadRequest "Box ID must be 32 bytes") in
  Ok (unconfirmed_of <$> Mempool.get_by_output_id (ap_mempool a) id).

(** [Mempool::get_by_token_id] and [get_by_ergo_tree]: what does not parse has
    no outputs. *)
Definition pool_outputs (tx : Mempool.PooledTransaction) : list ErgoBox :=
  match tx_parse (Tx := Tx) (Mempool.ptx_bytes tx) with Some t => tx_outputs t | None => [] end.
Definition get_by_token_id (m : Mempool.Mempool) (token_id : bytes) : list Mempool.PooledTransaction :=
  base.filter (fun tx => existsb (fun b => existsb (fun t : bytes * Z => bool_decide (t.1 = token_id)) (box_tokens b))
                           (pool_outputs tx) = true)
    (omap (Mempool.get m) (Mempool.get_all_ids hash_order m)).
Definition get_by_ergo_tree (m : Mempool.Mempool) (tree_hash : bytes) : list Mempool.PooledTransaction :=
  base.filter (fun tx => existsb (fun b => match box_tree_bytes b with
                                      | Some tree => bool_decide (blake2b256 tree = tree_hash)
                                      | None => false
                                      end) (pool_outputs tx) = true)
    (omap (Mempool.get m) (Mempool.get_all_ids hash_order m)).

Definition get_unconfirmed_by_token_id (token_id : bytes) (a : app) : result (list UnconfirmedTx) ApiError :=
  let? id := decode32 token_id (AE_BadRequest "Invalid token ID (hex decode failed)") (AE_BadRequest "Token ID must be 32 bytes") in
  Ok (unconfirmed_of <$> get_by_token_id (ap_mempool a) id).

Definition get_unconfirmed_by_ergo_tree (ergo_tree : bytes) (a : app) : result (list UnconfirmedTx) ApiError :=
  let? hash := decode32 ergo_tree (AE_BadRequest "Invalid ErgoTree hash (hex decode failed)")
                 (AE_BadRequest "ErgoTree hash must be 32 bytes") in
  Ok (unconfirmed_of <$> get_by_ergo_tree (ap_mempool a) hash).

End Transactions.

(** ** Mining (mining.rs) *)

Record MiningCandidate := mkMiningCandidate { mc_msg : bytes; mc_b : bytes; mc_pk : bytes; mc_height : option Z }.
Record MiningCandidateExtended := mkMiningCandidateExtended {
  mx_msg : bytes; mx_b : bytes; mx_pk : bytes; mx_height : Z; mx_parent_id : bytes;
  mx_transactions_root : bytes; mx_state_root : bytes; mx_tx_count : nat; mx_reward : Z
}.
Record SolutionSubmission := mkSolutionSubmission { su_pk : bytes; su_w : bytes; su_n : bytes; su_d : bytes }.
Record SolutionResponse := mkSolutionResponse { so_accepted : bool; so_reason : option string }.

(** [target[pos] = byte] for the positions that exist. *)
Definition place_byte (start_pos : nat) (target : bytes) (p : nat * Z) : bytes :=
  let pos := (start_pos + p.1)%nat in if (pos <? 32)%nat then <[pos := p.2]> target else target.

Definition api_nbits_to_target (n_bits : Z) : bytes :=
  let size := Z.to_nat (Z.land (Z.shiftr n_bits 24) 0xff) in
  let coeff := Z.land n_bits 0x00ffffff in
  let target := replicate 32 0 in
  if (size =? 0)%nat || (coeff =? 0) then hex_encode target
  else
    let coeff_bytes := [Z.land (Z.shiftr coeff 16) 0xff; Z.land (Z.shiftr coeff 8) 0xff; Z.land coeff 0xff] in
    if (32 <? size)%nat then replicate 64 102
    else
      let start_pos := (32 - size)%nat in
      hex_encode (foldl (place_byte start_pos) target (zip (seq 0 3) coeff_bytes)).

Section MiningHandlers.
Context {ErgoBox Ext Tx : Type} `{ErgoBoxOps ErgoBox} `{TransactionOps ErgoBox Ext Tx}
  `{ChainTypes} `{!HeaderCodec} `{Blake2b256} `{BigUintBytes} {DB : Type} `{Storage DB}
  `{HexDecode} `{Wallet.WalletLib}.
Abbreviation app := (AppState DB).

Definition api_mining_env (a : app) : MiningEnv DB := mkMiningEnv (ap_state a) (ap_mempool a).

(** The two clocks are those of [get_or_generate]. *)
Definition api_candidate {R} (response : BlockCandidate -> bytes -> R) (now now' : Z) (a : app)
    : result R ApiError * app :=
  if negb (ap_mining_enabled a) then (Err (AE_BadRequest "Mining not enabled"), a)
  else
    let '(found, g) := get_or_generate (api_mining_env a) now now' (ap_generator a) in
    let a := put_generator g a in
    match found with
    | Err _ => (Err (AE_Internal "Failed to generate candidate"), a)
    | Ok candidate => (Ok (response candidate (default [] (cg_reward_address (ap_generator a)))), a)
    end.

Definition api_get_candidate : Z -> Z -> app -> result MiningCandidate ApiError * app :=
  api_candidate (fun c reward_address =>
    mkMiningCandidate (hex_encode (bc_header_bytes c)) (api_nbits_to_target (bc_n_bits c)) reward_address
      (Some (bc_height c))).

Definition get_candidate_extended : Z -> Z -> app -> result MiningCandidateExtended ApiError * app :=
  api_candidate (fun c reward_address =>
    mkMiningCandidateExtended (hex_encode (bc_header_bytes c)) (api_nbits_to_target (bc_n_bits c)) reward_address
      (bc_height c)
      (match bc_parent_id c with Some id => hex_encode id | None => replicate 64 48 end)
      (hex_encode (bc_transactions_root c)) (hex_encode (bc_state_root c)) (length (bc_transaction_ids c))
      (bc_reward c)).

Definition api_submit_solution (solution : SolutionSubmission) (a : app) : result SolutionResponse ApiError * app :=
  if negb (ap_mining_enabled a) then (Err (AE_BadRequest "Mining not enabled"), a)
  else if (length (su_pk solution) =? 0)%nat || (length (su_w solution) =? 0)%nat || (length (su_n solution) =? 0)%nat
  then (Ok (mkSolutionResponse false (Some "Invalid solution format"%string)), a)
  else
    match (let? _ := ok_or (hex_decode (su_pk solution)) (AE_BadRequest "Invalid pk hex") in
           let? _ := ok_or (hex_decode (su_w solution)) (AE_BadRequest "Invalid w hex") in
           let? _ := ok_or (hex_decode (su_n solution)) (AE_BadRequest "Invalid nonce hex") in
           ok_or (hex_decode (su_d solution)) (AE_BadRequest "Invalid d hex")) with
    | Err e => (Err e, a)
    | Ok _ => (Ok (mkSolutionResponse true None), put_generator (invalidate (ap_generator a)) a)
    end.

Definition get_reward_address (a : app) : result bytes ApiError :=
  if negb (ap_mining_enabled a) then Err (AE_BadRequest "Mining not enabled")
  else Ok (default [] (cg_reward_address (ap_generator a))).

Definition set_reward_address_request (reward_address : bytes) (a : app) : result bytes ApiError * app :=
  if negb (ap_mining_enabled a) then (Err (AE_BadRequest "Mining not enabled"), a)
  else if (length reward_address =? 0)%nat then (Err (AE_BadRequest "Reward address cannot be empty"), a)
  else (Ok reward_address, put_generator (set_reward_address (ap_generator a) reward_address) a).

End MiningHandlers.

(** ** Emission (emission.rs) *)

Record EmissionInfo := mkEmissionInfo {
  ei_height : Z; ei_miner_reward : Z; ei_total_coins_issued : Z; ei_total_remain_coins : Z; ei_reemission_amt : Z }.
Record EmissionScripts := mkEmissionScripts { es_emission : bytes; es_reemission : bytes; es_pay_to_reemission : bytes }.

Definition MAINNET_RULES : ReemissionRules := ReemissionRules_new mainnet.
Definition MAINNET_SETTINGS : ReemissionSettings := mainnet.

Definition calculate_emission_info (rules : ReemissionRules) (height : Z) : EmissionInfo :=
  let miner_reward := miner_reward_at_height rules height in
  let total_coins_issued := issued_coins_after_height height in
  let total_remain_coins := sat_sub TOTAL_SUPPLY total_coins_issued in
  let reemission_amt := reemission_for_height rules height in
  mkEmissionInfo height miner_reward total_coins_issued total_remain_coins reemission_amt.

Definition get_emission_at_height (height : Z) : EmissionInfo := calculate_emission_info MAINNET_RULES height.
Definition get_emission_scripts : EmissionScripts :=
  mkEmissionScripts (str_bytes "emission_nft:" ++ hex_encode (emission_nft_id MAINNET_SETTINGS))
    (str_bytes "reemission_nft:" ++ hex_encode (reemission_nft_id MAINNET_SETTINGS))
    (str_bytes "reemission_token:" ++ hex_encode (reemission_token_id MAINNET_SETTINGS)).

(** ** Node information (info.rs) and peers (peers.rs) *)

(** Without the name, the version and the kind of state. *)
Record NodeInfo := mkNodeInfo {
  ni_full_height : Z; ni_headers_height : Z; ni_best_header_id : bytes; ni_best_full_block_id : bytes;
  ni_state_root : bytes; ni_is_mining : bool; ni_peer_count : Z; ni_unconfirmed_count : Z; ni_is_synced : bool }.

Record ApiPeerInfo := mkApiPeerInfo { ap_address : SocketAddr; ap_name : option bytes; ap_outgoing : bool; ap_last_seen : Z }.

Section Info.
Context {ErgoBox Ext Tx : Type} `{ErgoBoxOps ErgoBox} `{TransactionOps ErgoBox Ext Tx}
  `{ChainTypes} `{!HeaderCodec} `{Blake2b256} `{BigUintBytes} {DB : Type} `{Storage DB}
  `{HexDecode} `{Wallet.WalletLib}.
Abbreviation app := (AppState DB).

Definition get_info (a : app) : NodeInfo :=
  let '(utxo_height, header_height) := heights (ap_state a) in
  let best_header_id := default [] (hex_encode <$> best_header_id (sm_history (ap_state a))) in
  let state_root := us_state_root (sm_utxo (ap_state a)) in
  let mempool_stats := Mempool.stats (ap_mempool a) in
  let peer_count := connected_count (ap_peers a) in
  mkNodeInfo utxo_height header_height best_header_id best_header_id (hex_encode state_root)
    (ap_mining_enabled a) peer_count (Mempool.st_tx_count mempool_stats) (Manager.is_synced (ap_state a)).

(** [order]: the connected peers as the set is iterated. *)
Definition get_connected_peers (order : list bytes) (a : app) : list ApiPeerInfo :=
  (fun p => mkApiPeerInfo (pi_addr p) (pi_agent p) (pi_outbound p) 0) <$> get_connected (ap_peers a) order.
Definition get_all_peers (_a : app) : list ApiPeerInfo := [].
Definition get_blacklisted (_a : app) : list bytes := [].
(** The address is sent back, and nothing is done. *)
Definition connect_peer (address : bytes) (a : app) : bytes * app := (address, a).

(** ** Boxes (utxo.rs) *)

Definition MAX_BATCH_SIZE : nat := 100.

Record BoxResponse := mkBoxResponse {
  br_box_id : bytes; br_value : Z; br_creation_height : Z; br_ergo_tree : bytes; br_assets : list (bytes * Z) }.
Record BoxBinaryResponse := mkBoxBinaryResponse { bb_box_id : bytes; bb_bytes : bytes }.

Definition box_entry_to_response (entry : BoxEntry ErgoBox) : BoxResponse :=
  let ergo_box := be_box entry in
  let ergo_tree_bytes := default [] (box_tree_bytes ergo_box) in
  let assets := prod_map hex_encode id <$> box_tokens ergo_box in
  mkBoxResponse (hex_encode (box_id ergo_box)) (box_value ergo_box) (be_creation_height entry)
    (hex_encode ergo_tree_bytes) assets.

Definition api_utxo (a : app) : UtxoState DB := sm_utxo (ap_state a).
Definition box_id_param (text : bytes) : result bytes ApiError :=
  decode32 text (AE_BadRequest "Invalid box ID") (AE_BadRequest "Box ID must be 32 bytes").

Definition state_result {A} (r : result A StateError) : result A ApiError :=
  match r with Ok x => Ok x | Err e => Err (AE_State e) end.

Definition api_entry (text : bytes) (a : app) : result (BoxEntry ErgoBox) ApiError :=
  let? id := box_id_param text in
  let? found := state_result (Utxo.get_box (api_utxo a) id) in
  ok_or found (AE_NotFound "Box not found").

Definition utxo_by_id (text : bytes) (a : app) : result BoxResponse ApiError :=
  let? entry := api_entry text a in Ok (box_entry_to_response entry).

(** What is not hex is taken as it is. *)
Definition utxo_by_address (address : bytes) (a : app) : result (list BoxResponse) ApiError :=
  let ergo_tree_hash := default address (hex_decode address) in
  let? boxes := state_result (get_boxes_by_ergo_tree (api_utxo a) ergo_tree_hash) in
  Ok (box_entry_to_response <$> boxes).

Definition utxo_by_id_binary (text : bytes) (a : app) : result BoxBinaryResponse ApiError :=
  let? entry := api_entry text a in
  let? bs := ok_or (box_serialize (be_box entry)) (AE_Internal "Failed to serialize box") in
  Ok (mkBoxBinaryResponse text (hex_encode bs)).

(** The pool is not looked at. *)
Definition utxo_with_pool (text : bytes) (a : app) : result BoxResponse ApiError := utxo_by_id text a.

Definition utxo_boxes_with_pool (ids : list bytes) (a : app) : result (list BoxResponse) ApiError :=
  if (MAX_BATCH_SIZE <? length ids)%nat then Err (AE_BadRequest "Too many box IDs")
  else
    Ok (omap (fun text =>
          match hex_decode text with
          | Some id =>
              if (length id =? 32)%nat then
                match Utxo.get_box (api_utxo a) id with Ok (Some entry) => Some (box_entry_to_response entry) | _ => None end
              else None
          | None => None
          end) ids).

Definition get_genesis_boxes (_a : app) : list BoxResponse := [].
Definition get_snapshots_info (_a : app) : list Z := [].

Definition get_boxes_binary_proof (ids : list bytes) (_a : app) : result unit ApiError :=
  if (MAX_BATCH_SIZE <? length ids)%nat then Err (AE_BadRequest "Too many box IDs")
  else
    let? _ := rmap (fun text => decode32 text (AE_BadRequest "Invalid box ID") (AE_BadRequest "Box ID must be 32 bytes")) ids in
    Err (AE_NotImplemented "Binary proof generation requires AVL+ tree integration").

(** ** Blocks (blocks.rs) *)

Record BlockSummary := mkBlockSummary { bs_id : bytes; bs_height : Z; bs_timestamp : Z; bs_transactions_count : Z }.
Record BlockHeader := mkBlockHeader {
  bh_id : bytes; bh_parent_id : bytes; bh_height : Z; bh_timestamp : Z; bh_n_bits : Z; bh_difficulty : Z }.

Definition summary_of (h : Header) : BlockSummary := mkBlockSummary (hex_encode (h_id h)) (h_height h) (h_timestamp h) 0.
Definition api_store (a : app) : DB := hi_storage (sm_history (ap_state a)).
Definition parse_block_id (text : bytes) : result bytes ApiError :=
  decode32 text (AE_BadRequest "Invalid block ID") (AE_BadRequest "Block ID must be 32 bytes").

Definition get_blocks (offset limit : Z) (a : app) : result (list BlockSummary) ApiError :=
  let? headers := state_result (get_range (api_store a) offset limit) in
  Ok (summary_of <$> headers).

Definition api_header (id : bytes) (a : app) : result Header ApiError :=
  let? block_id := parse_block_id id in
  let? found := state_result (get_header (api_store a) block_id) in
  ok_or found (AE_NotFound "Block not found").

Definition get_block_by_id (id : bytes) (a : app) : result BlockSummary ApiError :=
  let? header := api_header id a in Ok (summary_of header).

(** The difficulty is [n_bits] in decimal. *)
Definition get_block_header (id : bytes) (a : app) : result BlockHeader ApiError :=
  let? h := api_header id a in
  Ok (mkBlockHeader (hex_encode (h_id h)) (hex_encode (h_parent_id h)) (h_height h) (h_timestamp h) (h_n_bits h) (h_n_bits h)).

Definition get_block_transactions (id : bytes) (a : app) : result (list bytes) ApiError :=
  let? block_id := parse_block_id id in
  let? found := state_result (get_transactions (api_store a) block_id) in
  let? txs := ok_or found (AE_NotFound "Block not found") in
  Ok ((fun tx => hex_encode (tx_id tx)) <$> bt_txs txs).

Definition get_block_at_height (height : Z) (a : app) : result BlockSummary ApiError :=
  let? found := state_result (get_by_height (api_store a) height) in
  let? header := ok_or found (AE_NotFound "Block not found at height") in
  Ok (summary_of header).

End Info.
