(* ===== verification/ApiQueries.v ===== *)
(** * The HTTP API: the extra indexer (blockchain.rs), scans (scan.rs) and the
      wallet (wallet.rs)

    The handlers over the optional parts of the state.  Responses are records;
    identifiers in them are hex strings. *)

From S2P Require Export Api.
From S2P Require WalletTx.

Local Open Scope Z_scope.

(** ** The indexer *)

(** The status code and the message. *)
Definition BlockchainError : Type := Z * string.

Definition MAX_ITEMS : nat := 16384.

Record IndexedHeightResponse := mkIndexedHeightResponse { ih_indexed_height : Z; ih_full_height : Z }.
Record IndexedTransactionResponse := mkIndexedTransactionResponse {
  tr_id : bytes; tr_tx_index : Z; tr_height : Z; tr_size : Z; tr_global_index : Z; tr_inputs : list Z;
  tr_outputs : list Z; tr_data_inputs : list bytes }.
Record IndexedBoxResponse := mkIndexedBoxResponse {
  xb_box_id : bytes; xb_inclusion_height : Z; xb_global_index : Z; xb_value : Z; xb_ergo_tree_hash : bytes;
  xb_spent : bool; xb_spending_tx_id : option bytes; xb_spending_height : option Z; xb_tokens : list (bytes * Z) }.
Record TokenInfoResponse := mkTokenInfoResponse {
  ti_token_id : bytes; ti_creation_box_id : option bytes; ti_amount : option Z; ti_name : option bytes;
  ti_description : option bytes; ti_decimals : option Z; ti_box_count : nat }.
Record AddressBalanceResponse := mkAddressBalanceResponse {
  ab_address_hash : bytes; ab_nano_ergs : Z; ab_tokens : list (bytes * Z); ab_tx_count : nat; ab_box_count : nat;
  ab_unspent_box_count : nat }.
Record PaginatedResponse (T : Type) := mkPaginatedResponse { pr_items : list T; pr_total : Z }.
#[global] Arguments mkPaginatedResponse {T}.
#[global] Arguments pr_items {T}.
#[global] Arguments pr_total {T}.
(** [BoxesByAddressQuery] and [BoxesByTokenQuery]: the identifier they ask for. *)
Record BoxesQuery := mkBoxesQuery { bq_key : bytes; bq_offset : nat; bq_limit : nat; bq_unspent_only : bool }.

Definition to_box_response (ieb : IndexCodec.IndexedErgoBox) : IndexedBoxResponse :=
  mkIndexedBoxResponse (hex_encode (IndexCodec.ieb_box_id ieb)) (IndexCodec.inclusion_height ieb)
    (IndexCodec.ieb_global_index ieb) (IndexCodec.ieb_value ieb) (hex_encode (IndexCodec.ergo_tree_hash ieb))
    (IndexCodec.is_spent ieb) (hex_encode <$> IndexCodec.spending_tx_id ieb) (IndexCodec.spending_height ieb)
    (prod_map hex_encode id <$> IndexCodec.ieb_tokens ieb).

Section Blockchain.
Context {DB : Type} `{Storage DB} `{Blake2b256} `{HashOrder} `{HexDecode} `{Wallet.WalletLib}.
Abbreviation app := (AppState DB).
Abbreviation indexer := (Indexer.ExtraIndexer DB).

(** [check_indexer_enabled], and the indexer it leaves to unwrap. *)
Definition check_indexer_enabled (a : app) : result indexer BlockchainError :=
  match ap_indexer a with
  | Some ix => if Indexer.is_enabled ix then Ok ix else Err (503, "Extra indexing is not enabled"%string)
  | None => Err (503, "Extra indexing is not enabled"%string)
  end.

Definition parse_hex_id (hex_str : bytes) : result bytes BlockchainError :=
  match hex_decode hex_str with
  | None => Err (400, "Invalid hex string"%string)
  | Some bs => if negb (length bs =? 32)%nat then Err (400, "ID must be 32 bytes"%string) else Ok bs
  end.

(** A lookup that panics has no response: status zero. *)
Definition looked_up {A} (r : result A IndexCodec.IndexError) : result A BlockchainError :=
  match r with Ok x => Ok x | Err _ => Err (0, "panic"%string) end.

Definition get_indexed_height (a : app) : result IndexedHeightResponse BlockchainError :=
  let? ix := check_indexer_enabled a in
  Ok (mkIndexedHeightResponse (IndexCodec.indexed_height (Indexer.ix_state ix)) (heights (ap_state a)).1).

Definition get_transaction_by_id (id : bytes) (a : app) : result (option IndexedTransactionResponse) BlockchainError :=
  let? ix := check_indexer_enabled a in
  let? tx_id := parse_hex_id id in
  let? tx := looked_up (Indexer.get_transaction ix tx_id) in
  Ok ((fun itx => mkIndexedTransactionResponse (hex_encode (IndexCodec.itx_tx_id itx)) (IndexCodec.itx_tx_index itx)
         (IndexCodec.itx_height itx) (IndexCodec.itx_size itx) (IndexCodec.itx_global_index itx)
         (IndexCodec.input_indexes itx) (IndexCodec.output_indexes itx)
         (hex_encode <$> IndexCodec.itx_data_inputs itx)) <$> tx).

(** A placeholder in the code: the index is not looked up. *)
Definition get_transaction_by_index (index : Z) (a : app) : result (option IndexedTransactionResponse) BlockchainError :=
  let? _ := check_indexer_enabled a in Ok None.

Definition api_box_by_id (id : bytes) (a : app) : result (option IndexedBoxResponse) BlockchainError :=
  let? ix := check_indexer_enabled a in
  let? box_id := parse_hex_id id in
  let? found := looked_up (Indexer.get_box ix box_id) in
  Ok (to_box_response <$> found).

Definition api_box_by_index (index : Z) (a : app) : result (option IndexedBoxResponse) BlockchainError :=
  let? ix := check_indexer_enabled a in
  let? found := looked_up (Indexer.get_box_by_index ix index) in
  Ok (to_box_response <$> found).

Definition get_token_by_id (id : bytes) (a : app) : result (option TokenInfoResponse) BlockchainError :=
  let? ix := check_indexer_enabled a in
  let? token_id := parse_hex_id id in
  let? found := looked_up (Indexer.get_token ix token_id) in
  Ok ((fun t => mkTokenInfoResponse (hex_encode (IndexCodec.it_token_id t)) (hex_encode <$> IndexCodec.creation_box_id t)
         (IndexCodec.it_amount t) (IndexCodec.it_name t) (IndexCodec.it_description t) (IndexCodec.it_decimals t)
         (IndexCodec.token_box_count t)) <$> found).

(** The tokens in the order of the map. *)
Definition get_balance_by_address (address : bytes) (a : app) : result (option AddressBalanceResponse) BlockchainError :=
  let? ix := check_indexer_enabled a in
  let? tree_hash := parse_hex_id address in
  let? found := looked_up (Indexer.get_address ix tree_hash) in
  Ok ((fun addr => mkAddressBalanceResponse (hex_encode (IndexCodec.tree_hash addr))
         (IndexCodec.nano_ergs (IndexCodec.balance addr))
         (prod_map hex_encode id <$> hash_iter Z (IndexCodec.bal_tokens (IndexCodec.balance addr)))
         (IndexCodec.tx_count addr) (IndexCodec.address_box_count addr) (IndexCodec.address_unspent_count addr)) <$> found).

(** A page: the positions that are not found are left out, and counted. *)
Definition box_page (ix : indexer) (q : BoxesQuery) (box_indexes : list Z)
    : result (PaginatedResponse IndexedBoxResponse) BlockchainError :=
  let total := Z.of_nat (length box_indexes) in
  let? found := rmap (fun idx => looked_up (Indexer.get_box_by_index ix idx))
                  (take (bq_limit q) (drop (bq_offset q) box_indexes)) in
  Ok (mkPaginatedResponse (to_box_response <$> omap id found) total).

Definition no_page {A} : PaginatedResponse A := mkPaginatedResponse [] 0.

Definition get_boxes_by_address (q : BoxesQuery) (a : app) : result (PaginatedResponse IndexedBoxResponse) BlockchainError :=
  let? ix := check_indexer_enabled a in
  if (MAX_ITEMS <? bq_limit q)%nat then Err (400, "No more than 16384 boxes can be requested"%string)
  else
    let? tree_hash := parse_hex_id (bq_key q) in
    let? addr := looked_up (Indexer.get_address ix tree_hash) in
    match addr with
    | Some addr =>
        box_page ix q (if bq_unspent_only q then IndexCodec.unspent_boxes addr else Z.abs <$> IndexCodec.ia_box_indexes addr)
    | None => Ok no_page
    end.

Definition get_boxes_by_token_id (q : BoxesQuery) (a : app) : result (PaginatedResponse IndexedBoxResponse) BlockchainError :=
  let? ix := check_indexer_enabled a in
  if (MAX_ITEMS <? bq_limit q)%nat then Err (400, "No more than 16384 boxes can be requested"%string)
  else
    let? token_id := parse_hex_id (bq_key q) in
    let? token := looked_up (Indexer.get_token ix token_id) in
    match token with
    | Some token =>
        box_page ix q (if bq_unspent_only q then base.filter (fun idx => 0 < idx) (IndexCodec.it_box_indexes token)
                       else Z.abs <$> IndexCodec.it_box_indexes token)
    | None => Ok no_page
    end.

End Blockchain.

(** ** Scans *)

Record ScanIdBoxId := mkScanIdBoxId { si_scan_id : Z; si_box_id : bytes }.
Record BoxWithScanIds := mkBoxWithScanIds { bw_box_bytes : bytes; bw_scan_ids : list Z }.
Record BoxQueryParams := mkBoxQueryParams {
  min_confirmations : Z; max_confirmations : Z; min_inclusion_height : Z; max_inclusion_height : Z;
  bp_limit : nat; bp_offset : nat }.
Definition BoxQueryParams_default : BoxQueryParams := mkBoxQueryParams 0 (2 ^ 31 - 1) 0 (2 ^ 32 - 1) 50 0.

Record ScanBoxResponse := mkScanBoxResponse {
  sx_box_id : bytes; sx_inclusion_height : Z; sx_confirmations_num : Z; sx_spent : bool;
  sx_spending_transaction : option bytes; sx_spending_height : option Z; sx_scan_ids : list Z }.

Definition scan_box_response (b : Scan.ScanBox) : ScanBoxResponse :=
  mkScanBoxResponse (hex_encode (Scan.sb_box_id b)) (Scan.sb_inclusion_height b) (Scan.sb_confirmations_num b)
    (Scan.sb_spent b) (hex_encode <$> Scan.sb_spending_tx_id b) (Scan.sb_spending_height b) (Scan.sb_scan_ids b).

(** [current_height.saturating_sub(b.inclusion_height) as i32]. *)
Definition box_selected (params : BoxQueryParams) (current_height : Z) (b : Scan.ScanBox) : bool :=
  let confirmations := swrap 32 (sat_sub current_height (Scan.sb_inclusion_height b)) in
  (confirmations >=? min_confirmations params) && (confirmations <=? max_confirmations params)
  && (Scan.sb_inclusion_height b >=? min_inclusion_height params)
  && (Scan.sb_inclusion_height b <=? max_inclusion_height params).

Section ScanHandlers.
Context {DB : Type} `{Storage DB} `{Blake2b256} `{HexDecode} `{Wallet.WalletLib} `{Scan.ScanJson}.
Abbreviation app := (AppState DB).

Definition get_scan_storage (a : app) : result (Scan.ScanStorage DB) ApiError :=
  ok_or (ap_scan_storage a) (AE_BadRequest "Scan storage not enabled").

Definition scan_register (request : Scan.ScanRequest) (a : app) : result Z ApiError * app :=
  match get_scan_storage a with
  | Err e => (Err e, a)
  | Ok s =>
      let '(registered, s) := Scan.register s request in
      (match registered with
       | Ok scan => Ok (Scan.scan_id scan)
       | Err _ => Err (AE_BadRequest "scan name")
       end, with_scan_storage s a)
  end.

Definition scan_deregister (id : Z) (a : app) : result Z ApiError * app :=
  match get_scan_storage a with
  | Err e => (Err e, a)
  | Ok s =>
      let '(r, s) := Scan.deregister s id in
      (match r with Ok _ => Ok id | Err _ => Err (AE_BadRequest "scan not found") end, with_scan_storage s a)
  end.

(** A response has the fields of the scan. *)
Definition scan_list_all (a : app) : result (list Scan.Scan) ApiError :=
  let? s := get_scan_storage a in Ok (Scan.list_all s).

Definition scan_page (params : BoxQueryParams) (boxes : list Scan.ScanBox) (a : app) : list ScanBoxResponse :=
  let current_height := us_height (sm_utxo (ap_state a)) in
  scan_box_response <$>
    take (bp_limit params) (drop (bp_offset params)
      (base.filter (fun b => box_selected params current_height b = true) boxes)).

Definition scan_unspent_boxes (id : Z) (params : BoxQueryParams) (a : app) : result (list ScanBoxResponse) ApiError :=
  let? s := get_scan_storage a in Ok (scan_page params (Scan.get_unspent_boxes s id) a).
Definition scan_spent_boxes (id : Z) (params : BoxQueryParams) (a : app) : result (list ScanBoxResponse) ApiError :=
  let? s := get_scan_storage a in Ok (scan_page params (Scan.get_spent_boxes s id) a).

Definition scan_stop_tracking (request : ScanIdBoxId) (a : app) : result ScanIdBoxId ApiError * app :=
  match (let? s := get_scan_storage a in
         let? box_id := ok_or (hex_decode (si_box_id request)) (AE_BadRequest "Invalid box ID") in
         Ok (Scan.stop_tracking s (si_scan_id request) box_id)) with
  | Ok s => (Ok request, with_scan_storage s a)
  | Err e => (Err e, a)
  end.

(** The identifier is the hash of the bytes, whatever they are. *)
Definition scan_add_box (request : BoxWithScanIds) (a : app) : result bytes ApiError * app :=
  match (let? s := get_scan_storage a in
         let? box_bytes := ok_or (hex_decode (bw_box_bytes request)) (AE_BadRequest "Invalid box bytes") in
         Ok (s, box_bytes)) with
  | Ok (s, box_bytes) =>
      let box_id := blake2b256 box_bytes in
      let current_height := us_height (sm_utxo (ap_state a)) in
      (Ok (hex_encode box_id),
       with_scan_storage (Scan.add_box_to_scans s box_id (bw_scan_ids request) current_height 0 box_bytes) a)
  | Err e => (Err e, a)
  end.

(** The rule compares register 1 with the text of the address. *)
Definition p2s_request (address : bytes) : Scan.ScanRequest :=
  Scan.mkScanRequest address (Scan.Equals 1 address) (Some Scan.SWOff) (Some true).
Definition p2s_rule (address : bytes) (a : app) : result Z ApiError * app := scan_register (p2s_request address) a.

End ScanHandlers.

(** ** The wallet *)

Record InitWallet := mkInitWallet { iw_pass : bytes; iw_mnemonic_pass : option bytes; iw_mnemonic : option bytes }.
Record ApiWalletStatus := mkApiWalletStatus {
  aw_is_initialized : bool; aw_is_unlocked : bool; aw_wallet_height : Z; aw_address_count : nat;
  aw_network : NetworkPrefix }.
Record BalanceResponse := mkBalanceResponse { bal_balance : Z; bal_assets : list (bytes * Z) }.
Record SendRequest := mkSendRequest { sq_address : bytes; sq_amount : Z; sq_fee : option Z }.
Record ApiWalletBox := mkApiWalletBox {
  ax_box_id : bytes; ax_value : Z; ax_creation_height : Z; ax_address : bytes; ax_pending_spent : bool }.

Section WalletHandlers.
Context {DB : Type} `{Storage DB} `{HashOrder} `{Wallet.WalletLib} `{Wallet.FileEnv}.
Abbreviation app := (AppState DB).

(** An operation of the wallet, if there is one; its error becomes [error]. *)
Definition on_wallet {A} (op : Wallet.ST Wallet.Wallet A) (error : ApiError) (a : app) : result A ApiError * app :=
  match ap_wallet a with
  | None => (Err (AE_BadRequest "Wallet not enabled"), a)
  | Some w =>
      let '(r, w) := op w in
      (match r with Ok x => Ok x | Err Wallet.WalletPanic => Err (AE_Panic "wallet") | Err _ => Err error end,
       put_wallet (Some w) a)
  end.

Definition wallet_height (a : app) : Z := us_height (sm_utxo (ap_state a)).

(** The random salt, nonce and words are arguments. *)
Definition init_wallet (random : nat -> nat) (salt nonce : bytes) (request : InitWallet) (a : app)
    : result bytes ApiError * app :=
  let mnemonic_pass := default [] (iw_mnemonic_pass request) in
  match iw_mnemonic request with
  | Some existing_mnemonic =>
      on_wallet (Wallet.init salt nonce existing_mnemonic mnemonic_pass (iw_pass request))
        (AE_Internal "Failed to restore wallet") a
  | None =>
      on_wallet (Wallet.init_new random salt nonce (iw_pass request)) (AE_Internal "Failed to initialize wallet") a
  end.

(** A wallet that is not initialized is loaded first. *)
Definition unlock_wallet (pass : bytes) (a : app) : result unit ApiError * app :=
  let unlock := on_wallet (Wallet.unlock pass) (AE_BadRequest "Failed to unlock wallet") in
  match ap_wallet a with
  | None => (Err (AE_BadRequest "Wallet not enabled"), a)
  | Some w =>
      if negb (Wallet.initialized (Wallet.status (wallet_height a) w)) then
        match on_wallet Wallet.load (AE_BadRequest "Wallet not initialized") a with
        | (Err e, a) => (Err e, a)
        | (Ok _, a) => unlock a
        end
      else unlock a
  end.

Definition lock_wallet (a : app) : result unit ApiError * app :=
  on_wallet (fun w => (Ok tt, Wallet.lock w)) (AE_BadRequest "") a.

Definition get_wallet_status (a : app) : result ApiWalletStatus ApiError :=
  let? w := ok_or (ap_wallet a) (AE_BadRequest "Wallet not enabled") in
  let status := Wallet.status (wallet_height a) w in
  Ok (mkApiWalletStatus (Wallet.initialized status) (Wallet.unlocked status) (Wallet.ws_height status)
        (Wallet.address_count status) (Wallet.ws_network status)).

Definition get_balances (a : app) : result BalanceResponse ApiError * app :=
  let '(r, a') := on_wallet (Wallet.wallet_balance (wallet_height a)) (AE_BadRequest "Failed to get balance") a in
  (let? balance := r in
   Ok (mkBalanceResponse (Wallet.total_erg balance)
         (prod_map hex_encode id <$> hash_iter Z (Wallet.wallet_tokens balance))), a').

Definition get_addresses (a : app) : result (list bytes) ApiError * app :=
  on_wallet Wallet.wallet_addresses (AE_BadRequest "Failed to get addresses") a.

Definition api_derive_address (derivation_path : option bytes) (a : app) : result bytes ApiError * app :=
  match derivation_path with
  | Some path => on_wallet (Wallet.derive_address path) (AE_BadRequest "Failed to derive address") a
  | None => on_wallet Wallet.new_address (AE_BadRequest "Failed to generate address") a
  end.

Definition sum_values (l : list Z) : Z := foldl (fun acc v => u64 (acc + v)) 0 l.

(** The checks of [send_transaction] after the wallet was read, and the text it
    answers with; no transaction is made. *)
Definition send_checks (current_height : Z) (request : SendRequest) (first : Wallet.WalletBox)
    (unspent : list Wallet.WalletBox) : result bytes ApiError :=
  let fee := default WalletTx.DEFAULT_FEE (sq_fee request) in
  let total_needed := u64 (sq_amount request + fee) in
  let available := sum_values (Wallet.wb_value <$> unspent) in
  if available <? total_needed then Err (AE_BadRequest "Insufficient funds")
  else
    Ok (str_bytes "pending-" ++ hex_encode (take 8 (Wallet.wb_box_id first)) ++ str_bytes "-" ++
        Wallet.decimal_digits 20 (sq_amount request) ++ str_bytes "-" ++ Wallet.decimal current_height).

(** Characters are those of the text; '9' is 57 and '3' is 51. *)
Definition send_transaction (request : SendRequest) (a : app) : result bytes ApiError :=
  let? w := ok_or (ap_wallet a) (AE_BadRequest "Wallet not enabled") in
  if negb (Wallet.unlocked (Wallet.status (wallet_height a) w)) then Err (AE_BadRequest "Wallet is locked")
  else
    match sq_address request with
    | [] => Err (AE_BadRequest "Recipient address is required")
    | first_char :: _ =>
        if negb (first_char =? 57) && negb (first_char =? 51) then Err (AE_BadRequest "Invalid address format")
        else
          let? unspent := match (Wallet.get_unspent_boxes w).1 with
                          | Ok l => Ok l
                          | Err _ => Err (AE_Internal "Failed to get unspent boxes")
                          end in
          match unspent with
          | [] => Err (AE_BadRequest "No unspent boxes available")
          | first :: _ =>
              let? addresses := match (Wallet.wallet_addresses w).1 with
                                | Ok l => Ok l
                                | Err _ => Err (AE_Internal "Failed to get addresses")
                                end in
              if (length addresses =? 0)%nat then Err (AE_Internal "No addresses available")
              else
                let '(_, current_height) := heights (ap_state a) in
                send_checks current_height request first unspent
          end
    end.

Definition api_unspent_boxes (a : app) : result (list ApiWalletBox) ApiError * app :=
  let '(r, a') := on_wallet Wallet.get_unspent_boxes (AE_BadRequest "Failed to get unspent boxes") a in
  (let? unspent := r in
   Ok ((fun wb => mkApiWalletBox (hex_encode (Wallet.wb_box_id wb)) (Wallet.wb_value wb) (Wallet.wb_creation_height wb)
          (Wallet.wb_address wb) (Wallet.pending_spent wb)) <$> unspent), a').

End WalletHandlers.
