(* ===== verification/ApiSpec.v ===== *)
(** * What the HTTP API shows

    The pages of the memory pool are the pool; a candidate's target is the one
    the verifier uses; the pages of an address are the boxes of the ledger once
    the index is flushed, and empty before.  What is submitted is pooled
    unchecked, and the node starts the API without its optional parts. *)

From S2P Require Export ApiQueries.
From S2P Require MempoolSpec IndexerSpec IndexerFlush WalletSpec.

Local Open Scope Z_scope.

(** ** The pool *)

Section Pool.
Context {ErgoBox Ext Tx : Type} `{ErgoBoxOps ErgoBox} `{TransactionOps ErgoBox Ext Tx} `{Blake2b256} `{HexDecode}.
Context (elapsed_ms : nat -> Z) (hash_order : nat -> gset bytes -> list bytes).
Context {DB : Type} `{Wallet.WalletLib}.
Hypothesis hash_order_perm : forall n s, hash_order n s ≡ₚ elements s.
Abbreviation app := (AppState DB).

Definition pooled (a : app) : list Mempool.PooledTransaction := (map_to_list (Mempool.transactions (ap_mempool a))).*2.

Lemma all_ids_perm m : Mempool.get_all_ids hash_order m ≡ₚ (map_to_list (Mempool.transactions m)).*1.
Proof.
  unfold Mempool.get_all_ids. rewrite hash_order_perm. apply NoDup_Permutation.
  - apply NoDup_elements.
  - apply NoDup_fst_map_to_list.
  - intros id. rewrite elem_of_elements, elem_of_dom, list_elem_of_fmap. split.
    + intros [tx Htx]. exists (id, tx). split; [done|]. by apply elem_of_map_to_list.
    + intros ([id' tx] & -> & Hin). apply elem_of_map_to_list in Hin. by eexists.
Qed.

Lemma omap_keys {A B : Type} (m : gmap bytes A) (f : A -> B) (h : bytes -> option B) :
  (forall k, h k = f <$> m !! k) -> omap h (map_to_list m).*1 = f <$> (map_to_list m).*2.
Proof.
  intros Hh. assert (Forall (fun p => m !! p.1 = Some p.2) (map_to_list m)) as Hl.
  { apply Forall_forall. intros [k x] Hin. by apply elem_of_map_to_list in Hin. }
  induction Hl as [|[k x] l Hk _ IH]; [done|]. cbn in *. rewrite Hh, Hk. cbn. by rewrite IH.
Qed.

Lemma unconfirmed_perm a : get_unconfirmed hash_order a ≡ₚ unconfirmed_of <$> pooled a.
Proof. unfold get_unconfirmed, pooled. by rewrite all_ids_perm, (omap_keys _ unconfirmed_of). Qed.

Lemma pooled_perm a :
  omap (Mempool.get (ap_mempool a)) (Mempool.get_all_ids hash_order (ap_mempool a)) ≡ₚ pooled a.
Proof.
  unfold pooled. rewrite all_ids_perm, (omap_keys _ id), list_fmap_id; [done|].
  intros k. by rewrite option_fmap_id.
Qed.

Lemma pages_concat {A} (limit pages : nat) (l : list A) :
  (length l <= pages * limit)%nat ->
  concat ((fun i => take limit (drop (i * limit) l)) <$> seq 0 pages) = l.
Proof.
  revert l. induction pages as [|pages IH]; intros l Hl; cbn -[take drop].
  - destruct l; [done|cbn in Hl; lia].
  - rewrite drop_0. rewrite <- (take_drop limit l) at 2. f_equal.
    etransitivity; [|apply (IH (drop limit l)); rewrite length_drop; lia].
    f_equal. rewrite <- fmap_S_seq, <- list_fmap_compose. apply list_fmap_ext. intros i x _. cbn -[take drop].
    by rewrite drop_drop.
Qed.

(** ** The histogram *)

Lemma sumZ_insert (l : list Z) i x y : l !! i = Some x -> sumZ (<[i:=y]> l) = sumZ l - x + y.
Proof.
  revert i. induction l as [|z l IH]; intros [|i] Hi; [done|done|injection Hi as ->; cbn; lia|].
  change (<[S i:=y]> (z :: l)) with (z :: <[i:=y]> l). cbn [sumZ]. rewrite (IH i Hi). lia.
Qed.

(** The bins hold what was added: [n] transactions of total size [total]. *)
Definition bins_hold (bins : Z) (h : list FeeHistogramEntry) (n total : Z) : Prop :=
  Z.of_nat (length h) = bins /\ sumZ (n_txns <$> h) = n /\ sumZ (hist_size <$> h) = total.

Lemma histogram_step min_fee bin_size bins h n total tx :
  0 < bins < 2 ^ 64 -> bin_size <> 0 -> bins_hold bins h n total ->
  0 <= Mempool.ptx_fee tx - min_fee < 2 ^ 64 -> 0 <= bin_size ->
  exists h', add_to_histogram min_fee bin_size bins h tx = Ok h' /\
    bins_hold bins h' (n + 1) (total + Mempool.ptx_size tx).
Proof.
  intros Hb Hs (Hl & Hn & Ht) Hfee Hpos. unfold add_to_histogram. destruct (Z.eqb_spec bin_size 0); [done|].
  assert (0 <= u64 (Mempool.ptx_fee tx - min_fee) / bin_size) by (apply Z.div_pos; [apply Z.mod_pos_bound; lia|lia]).
  assert (u64 (bins - 1) = bins - 1) as -> by (apply Z.mod_small; lia).
  set (bin := Z.min _ _). assert (0 <= bin < bins) by lia.
  destruct (lookup_lt_is_Some_2 h (Z.to_nat bin)) as [e He]; [lia|]. rewrite He. eexists. split; [done|].
  split; [|split].
  - by rewrite length_insert.
  - rewrite list_fmap_insert. erewrite sumZ_insert by (by rewrite list_lookup_fmap, He). cbn. lia.
  - rewrite list_fmap_insert. erewrite sumZ_insert by (by rewrite list_lookup_fmap, He). cbn. lia.
Qed.

Lemma histogram_fold min_fee bin_size bins txs :
  0 < bins < 2 ^ 64 -> 0 < bin_size -> Forall (fun tx => 0 <= Mempool.ptx_fee tx - min_fee < 2 ^ 64) txs ->
  forall h n total, bins_hold bins h n total ->
  exists h', rfold (add_to_histogram min_fee bin_size bins) h txs = Ok h' /\
    bins_hold bins h' (n + Z.of_nat (length txs)) (total + sumZ (Mempool.ptx_size <$> txs)).
Proof.
  intros Hb Hs Hall. induction Hall as [|tx txs Htx _ IH]; intros h n total Hh.
  - exists h. cbn. by rewrite !Z.add_0_r.
  - destruct (histogram_step min_fee bin_size bins h n total tx Hb ltac:(lia) Hh Htx ltac:(lia)) as (h1 & Hh1 & Hok).
    destruct (IH h1 _ _ Hok) as (h2 & Hh2 & Hok2). exists h2. cbn [rfold]. rewrite Hh1. split; [done|].
    destruct Hok2 as (Hl2 & Hn2 & Ht2). split; [done|]. cbn [length fmap list_fmap sumZ]. lia.
Qed.

Lemma min_of_le l x : x ∈ l -> min_of l <= x.
Proof.
  destruct l as [|y l]; [by intros ?%not_elem_of_nil|]. cbn.
  assert (forall l, foldr Z.min y l <= y /\ forall z, z ∈ l -> foldr Z.min y l <= z) as Hm.
  { clear. induction l as [|a l [IH1 IH2]]; cbn; [split; [lia|by intros z ?%not_elem_of_nil]|].
    split; [lia|]. intros z [->|Hz]%elem_of_cons; [lia|]. specialize (IH2 z Hz). lia. }
  destruct (Hm l). intros [->|Hx]%elem_of_cons; auto.
Qed.

Lemma max_of_bound l b : 0 <= b -> (forall x, x ∈ l -> x <= b) -> 0 <= max_of l <= b.
Proof.
  intros Hb. induction l as [|a l IH]; intros Hl; cbn; [lia|].
  assert (a <= b) by (apply Hl; by left). assert (0 <= max_of l <= b); [|unfold max_of in *; lia].
  apply IH. intros x Hx. apply Hl. by right.
Qed.

Lemma min_of_nonneg l : (forall x, x ∈ l -> 0 <= x) -> 0 <= min_of l.
Proof.
  destruct l as [|y l]; cbn; [lia|]. intros Hl. assert (0 <= y) by (apply Hl; by left).
  assert (forall x, x ∈ l -> 0 <= x) as Hl' by (intros x Hx; apply Hl; by right). clear Hl.
  induction l as [|a l IH]; cbn; [done|]. assert (0 <= a) by (apply Hl'; by left).
  assert (0 <= foldr Z.min y l); [|lia]. apply IH. intros x Hx. apply Hl'. by right.
Qed.

(** The loop over the transactions, from the width of the bins on. *)
Lemma histogram_of bins txs n total :
  0 <= bins < 2 ^ 64 -> txs <> [] -> Forall (fun tx => 0 <= Mempool.ptx_fee tx < 2 ^ 64 - 1) txs ->
  Z.of_nat (length txs) = n -> sumZ (Mempool.ptx_size <$> txs) = total ->
  let max_fee := max_of (Mempool.ptx_fee <$> txs) in
  let min_fee := min_of (Mempool.ptx_fee <$> txs) in
  match (let? bin_size :=
           if max_fee >? min_fee then
             if bins =? 0 then Err (AE_Panic "attempt to divide by zero") else Ok (u64 ((max_fee - min_fee) / bins + 1))
           else Ok 1 in
         rfold (add_to_histogram min_fee bin_size bins) (replicate (Z.to_nat bins) (mkFeeHistogramEntry 0 0)) txs) with
  | Ok h => 0 < bins /\ bins_hold bins h n total
  | Err e => bins = 0 /\ into_response e = None
  end.
Proof.
  intros Hbins Hne Hf Hn Ht max_fee min_fee. rewrite Forall_forall in Hf.
  assert (forall tx, tx ∈ txs -> min_fee <= Mempool.ptx_fee tx) as Hmin.
  { intros tx Htx. apply min_of_le. by apply list_elem_of_fmap_2. }
  assert (0 <= min_fee) as Hmin0.
  { apply min_of_nonneg. intros x (tx & -> & Htx)%list_elem_of_fmap. by apply Hf. }
  assert (0 <= max_fee <= 2 ^ 64 - 2) as Hmax.
  { apply max_of_bound; [lia|]. intros x (tx & -> & Htx)%list_elem_of_fmap. apply Hf in Htx. lia. }
  destruct (Z.eqb_spec bins 0) as [->|Hb0].
  - destruct txs as [|tx txs]; [done|]. by destruct (max_fee >? min_fee).
  - set (bin_size := if max_fee >? min_fee then u64 ((max_fee - min_fee) / bins + 1) else 1).
    assert (0 < bin_size) as Hs.
    { unfold bin_size. destruct (Z.gtb_spec max_fee min_fee); [|lia].
      assert (0 <= (max_fee - min_fee) / bins <= max_fee - min_fee).
      { split; [apply Z.div_pos; lia|]. apply Z.div_le_upper_bound; nia. }
      unfold u64, wrap. rewrite Z.mod_small; lia. }
    destruct (histogram_fold min_fee bin_size bins txs ltac:(lia) Hs) with (h := replicate (Z.to_nat bins) (mkFeeHistogramEntry 0 0))
      (n := 0) (total := 0) as (h & Hh & Hok).
    + apply Forall_forall. intros tx Htx. specialize (Hmin tx Htx). specialize (Hf tx Htx). lia.
    + split; [rewrite length_replicate; lia|]. split; rewrite fmap_replicate; cbn; generalize (Z.to_nat bins); induction n0; cbn; lia.
    + unfold bin_size in Hh. destruct (max_fee >? min_fee); cbn [rbind]; rewrite Hh; split; try lia;
        rewrite <- Hn, <- Ht; by rewrite !Z.add_0_l in Hok.
Qed.

(** What the API shows of the memory pool.  The pages of
    /transactions/unconfirmed, one after the other, are the list of all
    unconfirmed transactions, each pooled transaction once; and the histogram of
    a pool that is not empty has the requested number of bins, whose counts
    and sizes add up to the pool's, when there is a bin at all; with no bins
    the handler panics. *)
Theorem pool_views_complete a limit pages bins :
  (length (pooled a) <= pages * limit)%nat -> 0 <= bins < 2 ^ 64 -> pooled a <> [] ->
  Forall (fun tx => 0 <= Mempool.ptx_fee tx < 2 ^ 64 - 1) (pooled a) ->
  concat ((fun i => get_unconfirmed_paged hash_order (mkPaginationParams (i * limit) limit) a) <$> seq 0 pages) =
    get_unconfirmed hash_order a /\
  get_unconfirmed hash_order a ≡ₚ unconfirmed_of <$> pooled a /\
  match get_fee_histogram hash_order bins a with
  | Ok h =>
      0 < bins /\ bins_hold bins h (Z.of_nat (length (pooled a))) (sumZ (Mempool.ptx_size <$> pooled a))
  | Err e => bins = 0 /\ into_response e = None
  end.
Proof.
  intros Hpages Hbins Hne Hfees. split_and!.
  - unfold get_unconfirmed. unfold get_unconfirmed_paged. cbn [pg_limit pg_offset].
    set (ids := Mempool.get_all_ids _ _). set (f := fun id => unconfirmed_of <$> _).
    transitivity (omap f (concat ((fun i => take limit (drop (i * limit) ids)) <$> seq 0 pages))).
    + induction (seq 0 pages) as [|i l IH]; [done|]. cbn [fmap list_fmap concat]. rewrite omap_app. f_equal. exact IH.
    + rewrite pages_concat; [done|]. unfold ids, pooled in *. rewrite (Permutation_length (all_ids_perm _)), length_fmap. by rewrite length_fmap in Hpages.
  - apply unconfirmed_perm.
  - unfold get_fee_histogram. pose proof (pooled_perm a) as Hp.
    set (txs := omap _ _) in *. assert (txs <> []) as Htxs by (intros E; rewrite E in Hp; by apply Permutation_nil_l in Hp).
    assert (Forall (fun tx => 0 <= Mempool.ptx_fee tx < 2 ^ 64 - 1) txs) as Hf by by rewrite Hp.
    destruct txs as [|tx0 txs0] eqn:Etxs; [done|]. rewrite <- Etxs in *. clear Etxs.
    apply histogram_of; [done|done|done|by rewrite Hp|]. by apply sumZ_perm, fmap_Permutation.
Qed.

(** What /transactions submits is pooled as bytes: with no minimum fee any bytes
    at all are admitted, without inputs that could conflict and without
    a script that was checked; with one that is above zero, none are. *)
Theorem submitted_bytes_unchecked now text bs (a : app) :
  hex_decode text = Some bs ->
  Mempool.transactions (ap_mempool a) !! blake2b256 bs = None ->
  Z.of_nat (length bs) <= Mempool.max_size (Mempool.config (ap_mempool a)) / 10 ->
  let fee := Mempool.min_fee_per_byte (Mempool.config (ap_mempool a)) in
  (fee = f64_zero -> (submit_transaction elapsed_ms hash_order now text a).1 = Ok (hex_encode (blake2b256 bs))) /\
  (f64_ltb (f64_div f64_zero (f64_of_Z (Z.of_nat (length bs)))) fee = true ->
     exists min, submit_transaction elapsed_ms hash_order now text a = (Err (AE_Mempool (Mempool.FeeTooLow 0 min)), put_pool (ap_mempool a) a)).
Proof.
  intros Hd Hnew Hsize fee. unfold submit_transaction. rewrite Hd. unfold Mempool.add.
  rewrite decide_False by (cbn [Mempool.ptx_id]; rewrite Hnew; by intros []).
  unfold Mempool.ptx_size. cbn [Mempool.ptx_bytes Mempool.ptx_fee Mempool.ptx_inputs List.find].
  destruct (Z.gtb_spec (Z.of_nat (length bs)) (Mempool.max_size (Mempool.config (ap_mempool a)) / 10)); [lia|]. fold fee.
  change (f64_of_Z 0) with f64_zero. split.
  - intros ->. assert (f64_ltb (f64_div f64_zero (f64_of_Z (Z.of_nat (length bs)))) f64_zero = false) as ->; [|done].
    by destruct (f64_of_Z (Z.of_nat (length bs))).
  - intros Hlt. eexists. by rewrite Hlt.
Qed.

End Pool.

(** ** What the node serves *)

Section Served.
Context {DB : Type} `{Storage DB} `{Blake2b256} `{HashOrder} `{HexDecode} `{Wallet.WalletLib} `{Wallet.FileEnv}
  `{Scan.ScanJson}.

(** The API of the running node has no wallet, no scans, no index and no way to
    shut down: whatever the request and the configuration, those handlers
    refuse and change nothing. *)
Theorem node_api_refuses (state : StateManager DB) mempool peers name mining reward key :
  let a := node_app state mempool peers name mining reward key in
  (forall A (op : Wallet.ST Wallet.Wallet A) e, on_wallet op e a = (Err (AE_BadRequest "Wallet not enabled"), a)) /\
  (forall request, send_transaction request a = Err (AE_BadRequest "Wallet not enabled")) /\
  (forall request, scan_register request a = (Err (AE_BadRequest "Scan storage not enabled"), a)) /\
  (forall request, scan_add_box request a = (Err (AE_BadRequest "Scan storage not enabled"), a)) /\
  (forall q, get_boxes_by_address q a = Err (503, "Extra indexing is not enabled"%string)) /\
  (forall provided, (shutdown provided a).2 = a /\ is_ok (shutdown provided a).1 = false).
Proof.
  intros a. assert (ap_wallet a = None /\ ap_scan_storage a = None /\ ap_indexer a = None /\ ap_shutdown_signal a = None)
    as (Hw & Hs & Hi & Hd) by (unfold a, node_app; by destruct key).
  split_and!.
  - intros A op e. unfold on_wallet. by rewrite Hw.
  - intros request. unfold send_transaction. by rewrite Hw.
  - intros request. unfold scan_register, get_scan_storage. by rewrite Hs.
  - intros request. unfold scan_add_box, get_scan_storage. by rewrite Hs.
  - intros q. unfold get_boxes_by_address, check_indexer_enabled. by rewrite Hi.
  - intros provided. unfold shutdown. destruct (ap_api_key a); [|done]. by destruct (check_api_key a provided); cbn; rewrite ?Hd.
Qed.

(** A locked wallet answers no request for what it holds, and stays as it is. *)
Theorem locked_wallet_refuses (a : AppState DB) w :
  ap_wallet a = Some w -> Wallet.is_unlocked (Wallet.wa_keystore w) = false ->
  (get_balances a).1 = Err (AE_BadRequest "Failed to get balance") /\
  get_addresses a = (Err (AE_BadRequest "Failed to get addresses"), a) /\
  (forall path, is_ok (api_derive_address path a).1 = false /\ (api_derive_address path a).2 = a) /\
  (api_unspent_boxes a).1 = Err (AE_BadRequest "Failed to get unspent boxes") /\
  (forall request, send_transaction request a = Err (AE_BadRequest "Wallet is locked")).
Proof.
  intros Hw Hl. assert (put_wallet (Some w) a = a) as Hput by (destruct a; cbn in *; by subst).
  assert (forall B (f : unit -> Wallet.ST Wallet.Wallet B), Wallet.ST_bind _ _ _ f Wallet.require_unlocked w = (Err Wallet.Locked, w)) as Hlock.
  { intros B f. unfold Wallet.require_unlocked, mbind, Wallet.ST_bind, Wallet.get_st, Wallet.fail_with. by rewrite Hl. }
  unfold get_balances, get_addresses, api_derive_address, api_unspent_boxes, send_transaction, on_wallet. rewrite Hw.
  unfold Wallet.wallet_balance, Wallet.wallet_addresses, Wallet.derive_address, Wallet.new_address, Wallet.get_unspent_boxes.
  unfold mbind. split_and!.
  - by rewrite Hlock.
  - by rewrite Hlock, Hput.
  - intros [path|]; by rewrite Hlock, Hput.
  - by rewrite Hlock.
  - intros request. cbn [ok_or rbind Wallet.status Wallet.unlocked]. by rewrite Hl.
Qed.

(** The amount and the fee are added in 64 bits: an amount close to the largest
    passes the check of the funds. *)
Theorem send_amount_wraps height request first unspent :
  sq_amount request + default WalletTx.DEFAULT_FEE (sq_fee request) = 2 ^ 64 ->
  exists answer, send_checks height request first unspent = Ok answer.
Proof.
  intros Hsum. unfold send_checks. rewrite Hsum. change (u64 (2 ^ 64)) with 0.
  assert (0 <= sum_values (Wallet.wb_value <$> unspent)) as Hs.
  { unfold sum_values. assert (forall l acc, 0 <= acc -> 0 <= foldl (fun acc v => u64 (acc + v)) acc l) as Hf; [|by apply Hf].
    intros l. induction l as [|v l IH]; intros acc Ha; [done|]. cbn. apply IH. apply Z.mod_pos_bound. lia. }
  destruct (Z.ltb_spec (sum_values (Wallet.wb_value <$> unspent)) 0); [lia|]. by eexists.
Qed.

End Served.

(** ** The target of a candidate *)

Section Target.
Context `{HexLaws}.

Lemma be_val_app l1 l2 : be_val (l1 ++ l2) = be_val l1 * 256 ^ Z.of_nat (length l2) + be_val l2.
Proof.
  induction l1 as [|b l1 IH]; [done|]. cbn [app be_val]. rewrite IH, length_app, Nat2Z.inj_add, Z.pow_add_r by lia. lia.
Qed.

Lemma be_val_zeros n : be_val (replicate n 0) = 0.
Proof. induction n as [|n IH]; [done|]. cbn [replicate be_val]. rewrite IH. lia. Qed.

(** The three bytes, cut at the end of the target. *)
Lemma placed_bytes (size : nat) b0 b1 b2 :
  (1 <= size <= 32)%nat ->
  foldl (place_byte (32 - size)) (replicate 32 0) (zip (seq 0 3) [b0; b1; b2]) =
  replicate (32 - size) 0 ++ take size [b0; b1; b2] ++ replicate (size - 3) 0.
Proof. intros Hs. do 33 (destruct size as [|size]; [first [lia|reflexivity]|]). lia. Qed.

Lemma placed_value (size : nat) b0 b1 b2 :
  (1 <= size <= 32)%nat ->
  be_val (replicate (32 - size) 0 ++ take size [b0; b1; b2] ++ replicate (size - 3) 0) =
    if decide (size = 1%nat) then b0 else if decide (size = 2%nat) then b0 * 256 + b1
    else (b0 * 65536 + b1 * 256 + b2) * 256 ^ (Z.of_nat size - 3).
Proof.
  intros Hs. rewrite !be_val_app, !be_val_zeros, length_replicate.
  destruct size as [|[|[|size]]]; [lia| | |].
  { rewrite decide_True by done. cbn. change (256 ^ Z.of_nat 0) with 1. lia. }
  { rewrite decide_False, decide_True by done. cbn. change (256 ^ Z.of_nat 0) with 1. change (256 ^ Z.of_nat 1) with 256. lia. }
  rewrite !decide_False by lia. rewrite take_ge by (cbn; lia).
  replace (Z.of_nat (S (S (S size)) - 3)) with (Z.of_nat (S (S (S size))) - 3) by lia. cbn [be_val length]. 
  change (256 ^ Z.of_nat 2) with 65536. change (256 ^ Z.of_nat 1) with 256. change (256 ^ Z.of_nat 0) with 1. lia.
Qed.

Lemma nbits_value size sign word :
  0 <= size < 256 -> 0 <= sign < 2 -> 0 <= word < 2 ^ 23 ->
  let n_bits := size * 2 ^ 24 + sign * 2 ^ 23 + word in
  Z.land (Z.shiftr n_bits 24) 0xff = size /\ Z.land n_bits 0x00ffffff = sign * 2 ^ 23 + word /\
  nbits_to_target n_bits =
    if size =? 0 then 0 else if size <=? 3 then word / 256 ^ (3 - size) else word * 256 ^ (size - 3).
Proof.
  intros Hs Hsg Hw n_bits. change 0xff with (Z.ones 8). change 0x00ffffff with (Z.ones 24).
  rewrite !Z.land_ones, Z.shiftr_div_pow2 by lia.
  assert (n_bits / 2 ^ 24 = size) as Hd.
  { unfold n_bits. symmetry. apply Z.div_unique with (r := sign * 2 ^ 23 + word); lia. }
  assert (n_bits mod 2 ^ 23 = word) as Hm.
  { unfold n_bits. symmetry. apply Z.mod_unique with (q := size * 2 + sign); lia. }
  split_and!.
  - rewrite Hd. apply Z.mod_small. lia.
  - unfold n_bits. symmetry. apply Z.mod_unique with (q := size); lia.
  - unfold nbits_to_target. change 0xff with (Z.ones 8). change 0x007fffff with (Z.ones 23).
    rewrite !Z.land_ones, Z.shiftr_div_pow2, Hd, Hm, (Z.mod_small size) by lia.
    destruct (Z.eqb_spec size 0); [done|]. destruct (Z.leb_spec size 3).
    + rewrite Z.shiftr_div_pow2 by lia. f_equal. change 256 with (2 ^ 8). by rewrite <- Z.pow_mul_r by lia.
    + rewrite Z.shiftl_mul_pow2 by lia. f_equal. change 256 with (2 ^ 8). by rewrite <- Z.pow_mul_r by lia.
Qed.

(** The three bytes of a coefficient. *)
Lemma coefficient_bytes coeff :
  0 <= coeff < 2 ^ 24 ->
  Z.land (Z.shiftr coeff 16) 0xff = coeff / 65536 /\ Z.land (Z.shiftr coeff 8) 0xff = coeff / 256 mod 256 /\
  Z.land coeff 0xff = coeff mod 256 /\ coeff / 65536 < 256.
Proof.
  intros Hc. change 0xff with (Z.ones 8). rewrite !Z.land_ones, !Z.shiftr_div_pow2 by lia.
  change (2 ^ 16) with 65536. change (2 ^ 8) with 256.
  assert (0 <= coeff / 65536 < 256).
  { split; [apply Z.div_pos; lia|]. apply Z.div_lt_upper_bound; lia. }
  rewrite (Z.mod_small (coeff / 65536)) by lia. lia.
Qed.

(** The target in a mining candidate is the one the proof of work is checked
    against: for a compact target of at most 32 bytes whose sign bit is clear,
    the hex string decodes to the 32 bytes of what [nbits_to_target] of the
    verifier gives.  The sign bit, which the verifier ignores, is kept
    in the string and makes it larger. *)
Theorem candidate_target_agrees size word sign :
  0 <= size <= 32 -> 0 <= word < 2 ^ 23 -> 0 <= sign < 2 ->
  let n_bits := size * 2 ^ 24 + sign * 2 ^ 23 + word in
  exists bs, hex_decode (api_nbits_to_target n_bits) = Some bs /\ length bs = 32%nat /\ bytes_ok bs /\
    (sign = 0 -> be_val bs = nbits_to_target n_bits) /\
    (sign = 1 -> 3 <= size -> be_val bs = nbits_to_target n_bits + 2 ^ 23 * 256 ^ (size - 3)).
Proof.
  intros Hs Hw Hsg n_bits. pose proof (nbits_value size sign word ltac:(lia) Hsg Hw) as (Hsize & Hcoeff & Hval).
  fold n_bits in Hsize, Hcoeff, Hval. rewrite Hval. unfold api_nbits_to_target. rewrite Hsize, Hcoeff.
  set (coeff := sign * 2 ^ 23 + word). assert (0 <= coeff < 2 ^ 24) as Hc by (unfold coeff; lia).
  destruct ((Z.to_nat size =? 0)%nat || (coeff =? 0)) eqn:E.
  - exists (replicate 32 0). split; [apply hex_decode_encode; by repeat constructor|]. rewrite be_val_zeros.
    split; [done|]. split; [by repeat constructor|]. split.
    + intros ->. destruct (Z.eqb_spec size 0); [done|]. apply orb_true_iff in E as [E%Nat.eqb_eq|E%Z.eqb_eq]; [lia|].
      assert (word = 0) as -> by (unfold coeff in E; lia). destruct (Z.leb_spec size 3); [by rewrite Z.div_0_l by (apply Z.pow_nonzero; lia)|lia].
    + intros -> Hs3. apply orb_true_iff in E as [E%Nat.eqb_eq|E%Z.eqb_eq]; unfold coeff in *; lia.
  - apply orb_false_iff in E as [E1%Nat.eqb_neq E2%Z.eqb_neq]. destruct (Nat.ltb_spec 32 (Z.to_nat size)); [lia|].
    rewrite placed_bytes by lia. destruct (coefficient_bytes coeff Hc) as (-> & -> & -> & Hb0).
    assert (0 <= coeff / 65536) by (apply Z.div_pos; lia). pose proof (Z.mod_pos_bound (coeff / 256) 256 ltac:(lia)).
    pose proof (Z.mod_pos_bound coeff 256 ltac:(lia)). pose proof (Z.div_mod coeff 256 ltac:(lia)).
    pose proof (Z.div_mod (coeff / 256) 256 ltac:(lia)) as Hd2. rewrite Z.div_div in Hd2 by lia. change (256 * 256) with 65536 in Hd2.
    set (b0 := coeff / 65536) in *. set (b1 := coeff / 256 mod 256) in *. set (b2 := coeff mod 256) in *.
    assert (bytes_ok (replicate (32 - Z.to_nat size) 0 ++ take (Z.to_nat size) [b0; b1; b2] ++ replicate (Z.to_nat size - 3) 0)) as Hok.
    { apply Forall_app; split; [by apply Forall_replicate|]. apply Forall_app; split; [|by apply Forall_replicate].
      apply Forall_take. repeat constructor; done || lia. }
    eexists. split; [by apply hex_decode_encode|]. split; [|split; [done|]].
    { rewrite !length_app, !length_replicate, length_take. cbn [length]. lia. }
    rewrite placed_value by lia. rewrite Z2Nat.id by lia. destruct (Z.eqb_spec size 0) as [->|Hs0]; [done|].
    assert (Hcb : coeff = b0 * 65536 + b1 * 256 + b2) by lia.
    destruct (decide (size = 1)) as [->|Hn1]; [|destruct (decide (size = 2)) as [->|Hn2]].
    + rewrite decide_True by done. split; intros Hsign; [|lia].
      replace word with coeff by (unfold coeff; lia). done.
    + rewrite decide_False, decide_True by done. split; intros Hsign; [|lia].
      replace word with coeff by (unfold coeff; lia). change (b0 * 256 + b1 = coeff / 256). lia.
    + rewrite !decide_False by lia. rewrite <- Hcb.
      assert ((if size <=? 3 then word / 256 ^ (3 - size) else word * 256 ^ (size - 3)) = word * 256 ^ (size - 3)) as ->.
      { destruct (Z.leb_spec size 3); [|done]. replace size with 3 by lia. rewrite Z.div_1_r. lia. }
      unfold coeff. split; intros -> ; lia.
Qed.

End Target.

(** ** The pages of an address *)

Section Pages.
Context {DB : Type} `{StorageLaws DB} `{Blake2b256} `{HashOrderLaws} `{HexDecode} `{Wallet.WalletLib}.
Import IndexerSpec.
Local Open Scope Z_scope.

(** The boxes of an address, with their positions, in the order of the chain;
    and those of them a request shows. *)
Definition boxes_at (k : nat) (th : bytes) (l : list Entry) : list (nat * Entry) :=
  base.filter (fun p => e_hash p.2 = th) (imap (fun i e => ((k + i)%nat, e)) l).
Definition shown_boxes (unspent_only : bool) (th : bytes) (l : list Entry) : list (nat * Entry) :=
  if unspent_only then base.filter (fun p => unspent p.2 = true /\ (0 < p.1)%nat) (boxes_at 0 th l) else boxes_at 0 th l.

Lemma positions_boxes_at th l k :
  positions_from (at_address th) k l = (fun p => signed p.1 p.2) <$> boxes_at k th l.
Proof.
  revert k. induction l as [|e l IH]; intros k; [done|]. cbn [positions_from]. unfold boxes_at. rewrite imap_cons, filter_cons.
  rewrite IH. unfold boxes_at. cbn [snd]. rewrite (imap_ext _ (fun i e => ((k + S i)%nat, e)) l) by (intros i x _; cbn; f_equal; lia).
  rewrite Nat.add_0_r. unfold at_address. by case_decide.
Qed.

Lemma boxes_at_elem th l i e : (i, e) ∈ boxes_at 0 th l -> l !! i = Some e /\ e_hash e = th.
Proof.
  intros [Hh (j & x & Heq & Hx)%elem_of_lookup_imap]%list_elem_of_filter. cbn in Heq. by simplify_eq.
Qed.

Lemma shown_elem b th l p : p ∈ shown_boxes b th l -> p ∈ boxes_at 0 th l.
Proof. unfold shown_boxes. destruct b; [|done]. by intros [_ Hp]%list_elem_of_filter. Qed.

(** The positions a request for the address reads. *)
Lemma shown_positions b th l (addr : IndexCodec.IndexedErgoAddress) :
  Z.of_nat (length l) < 2 ^ 63 -> IndexCodec.ia_box_indexes addr = positions (at_address th) l ->
  (if b : bool then IndexCodec.unspent_boxes addr else Z.abs <$> IndexCodec.ia_box_indexes addr) =
  (fun p : nat * Entry => Z.of_nat p.1) <$> shown_boxes b th l.
Proof.
  intros Hl Ha. unfold IndexCodec.unspent_boxes, shown_boxes. rewrite Ha. unfold positions. rewrite positions_boxes_at.
  assert (Forall (fun p : nat * Entry => (p.1 < length l)%nat) (boxes_at 0 th l)) as Hb.
  { apply Forall_forall. intros [i e] [Hi _]%boxes_at_elem. by apply lookup_lt_Some in Hi. }
  revert Hb. generalize (boxes_at 0 th l) as ps. intros ps Hb. destruct b.
  - induction Hb as [|[i e] ps Hi _ IH]; [done|]. cbn [fmap list_fmap]. rewrite !filter_cons. cbn [fst snd] in *.
    assert (Hs : 0 < signed i e <-> unspent e = true /\ (0 < i)%nat) by (unfold signed; destruct (unspent e); split; [lia|lia|lia|naive_solver]).
    destruct (decide (0 < signed i e)) as [Hp|Hp]; [rewrite decide_True by by apply Hs|rewrite decide_False by by rewrite <- Hs].
    + cbn [fmap list_fmap]. rewrite IH. f_equal. cbn [fst]. apply Hs in Hp as [Hu _]. unfold signed. rewrite Hu.
      apply Z.mod_small. lia.
    + exact IH.
  - rewrite <- list_fmap_compose. apply list_fmap_ext. intros j [i e] _. cbn. unfold signed. destruct (unspent e); lia.
Qed.

Lemma rmap_over {A B C E} (f : B -> result C E) (g : A -> C) (h : A -> B) l :
  (forall x, x ∈ l -> f (h x) = Ok (g x)) -> rmap f (h <$> l) = Ok (g <$> l).
Proof.
  intros Hf. induction l as [|x l IH]; [done|]. cbn. rewrite (Hf x) by (by left). cbn.
  rewrite IH; [done|]. intros y Hy. apply Hf. by right.
Qed.

Lemma page_of (ix : Indexer.ExtraIndexer DB) q ps (g : nat * Entry -> option IndexCodec.IndexedErgoBox) :
  (forall p, p ∈ ps -> Indexer.get_box_by_index ix (Z.of_nat p.1) = Ok (g p)) ->
  box_page ix q ((fun p => Z.of_nat p.1) <$> ps) =
  Ok (mkPaginatedResponse (to_box_response <$> omap g (take (bq_limit q) (drop (bq_offset q) ps))) (Z.of_nat (length ps))).
Proof.
  intros Hg. unfold box_page. rewrite length_fmap. rewrite <- fmap_drop, <- fmap_take.
  rewrite (rmap_over _ g).
  - cbn [rbind]. do 3 f_equal. generalize (take (bq_limit q) (drop (bq_offset q) ps)). intros l.
    induction l as [|x l IH]; [done|]. cbn. rewrite IH. by destruct (g x).
  - intros p [j Hj]%list_elem_of_lookup. cbn. rewrite Hg; [done|]. apply lookup_take_Some in Hj as [Hj _].
    rewrite lookup_drop in Hj. by eapply list_elem_of_lookup_2.
Qed.

(** C29: What /blockchain/box/byAddress shows of the ledger around the first
    flush of an index.  For an index that represents a ledger, which a new one
    does until its first flush, a page for an address after that flush is the
    requested part of the boxes the ledger has for it, in the order of the
    chain, spent or not as the ledger says, with the number of all of them;
    with [unspentOnly] the unspent ones except the very first box of the chain,
    whose position 0 is not positive.  Before the flush the number is the same
    and the page is empty.  A later flush may replace the record of an address
    by one without these boxes (IndexerFlush.flushed_history_unused). *)
Theorem address_pages_show_ledger (ix : Indexer.ExtraIndexer DB) l a q th :
  represents ix l -> IndexerFlush.buffers_ok ix -> Z.of_nat (length l) < 2 ^ 63 -> Indexer.is_enabled ix = true ->
  hex_decode (bq_key q) = Some th -> length th = 32%nat -> th ∈ e_hash <$> l -> (bq_limit q <= MAX_ITEMS)%nat ->
  let shown := shown_boxes (bq_unspent_only q) th l in
  get_boxes_by_address q (with_indexer (Indexer.flush ix) a) =
    Ok (mkPaginatedResponse
          ((fun p => to_box_response (entry_record p.1 p.2)) <$> take (bq_limit q) (drop (bq_offset q) shown))
          (Z.of_nat (length shown))) /\
  ((forall k, st_get (Indexer.ix_storage ix) BoxIndex k = None) ->
     get_boxes_by_address q (with_indexer ix a) = Ok (mkPaginatedResponse [] (Z.of_nat (length shown)))).
Proof.
  intros Hr Hok Hl Hen Hq Hth Hin Hlim shown.
  destruct (Indexer.ix_addresses ix !! th) as [addr|] eqn:Ea; [|by apply (rep_no_address _ _ Hr) in Ea].
  destruct (rep_address _ _ Hr _ _ Ea) as (_ & Hidx & _).
  pose proof (shown_positions (bq_unspent_only q) th l addr Hl Hidx) as Hpos. fold shown in Hpos.
  assert (forall ix', Indexer.is_enabled ix' = true -> Indexer.get_address ix' th = Ok (Some addr) ->
    get_boxes_by_address q (with_indexer ix' a) = box_page ix' q ((fun p => Z.of_nat p.1) <$> shown)) as Hget.
  { intros ix' He Hga. unfold get_boxes_by_address, check_indexer_enabled. cbn [ap_indexer with_indexer]. rewrite He. cbn [rbind].
    destruct (Nat.ltb_spec MAX_ITEMS (bq_limit q)); [lia|]. unfold parse_hex_id. rewrite Hq, Hth. cbn [Nat.eqb negb rbind].
    rewrite Hga. cbn [looked_up rbind]. by rewrite <- Hpos. }
  assert (Indexer.get_address ix th = Ok (Some addr)) as Hga by (unfold Indexer.get_address; by rewrite Ea).
  split.
  - rewrite Hget; [|exact Hen|rewrite IndexerFlush.flush_get_address by (done || (left; by eexists)); exact Hga].
    rewrite (page_of _ q shown (fun p => Some (entry_record p.1 p.2))).
    + do 2 f_equal. rewrite <- list_fmap_compose || idtac.
      generalize (take (bq_limit q) (drop (bq_offset q) shown)). intros ps. induction ps as [|p ps IH]; [done|].
      cbn. by rewrite IH.
    + intros [i e] [Hi _]%shown_elem%boxes_at_elem. cbn [fst snd].
      assert (Indexer.ix_boxes ix !! e_id e = Some (entry_record i e)) as Hb by (apply (rep_boxes _ _ Hr); by exists i, e).
      by apply (IndexerFlush.flush_get_position ix (e_id e) (entry_record i e)).
  - intros Hnone. rewrite Hget by done. rewrite (page_of _ q shown (fun _ => None)).
    + do 2 f_equal. generalize (take (bq_limit q) (drop (bq_offset q) shown)). intros ps. by induction ps.
    + intros p _. unfold Indexer.get_box_by_index. by rewrite Hnone.
Qed.

End Pages.

(** ** Examples *)

Module ApiExample.
Import Mem Toy ToyHex.

#[local] Existing Instances WalletSpec.WalletExample.toy_lib WalletSpec.WalletExample.toy_fs Mem.mem_storage Mem.mem_laws.

Definition app_with (m : Mempool.Mempool) : AppState Mem.t :=
  AppState_new (manager_new Mem.empty) m (PeerManager_new PeerManagerConfig_default) [].

(** Two pooled transactions, a page each. *)
Definition app2 : AppState Mem.t := app_with MempoolSpec.Example.pool2.

Lemma fees2 : Forall (fun tx => 0 <= Mempool.ptx_fee tx < 2 ^ 64 - 1) (pooled app2).
Proof.
  assert (forallb (fun tx => (0 <=? Mempool.ptx_fee tx) && (Mempool.ptx_fee tx <? 2 ^ 64 - 1)) (pooled app2) = true) as Hb
    by (vm_compute; reflexivity).
  rewrite forallb_forall in Hb. apply Forall_forall. intros tx Htx%list_elem_of_In%Hb. lia.
Qed.

Lemma pool_views_complete_witness :
  concat ((fun i => get_unconfirmed_paged MempoolSpec.Example.order (mkPaginationParams (i * 1) 1) app2) <$> seq 0 2) =
    get_unconfirmed MempoolSpec.Example.order app2 /\
  match get_fee_histogram MempoolSpec.Example.order 3 app2 with
  | Ok h => sumZ (n_txns <$> h) = 2 /\ sumZ (hist_size <$> h) = 300
  | Err _ => False
  end.
Proof.
  destruct (pool_views_complete MempoolSpec.Example.order (fun _ s => reflexivity (elements s)) app2 1 2 3) as (Hp & _ & Hh).
  - vm_compute. lia.
  - lia.
  - vm_compute. discriminate.
  - exact fees2.
  - split; [exact Hp|]. destruct (get_fee_histogram MempoolSpec.Example.order 3 app2) as [h|e] eqn:E.
    + destruct Hh as (_ & _ & Hn & Hs). rewrite Hn, Hs. split; vm_compute; reflexivity.
    + revert E. vm_compute. discriminate.
Defined.

Lemma candidate_target_agrees_witness :
  exists bs, hex_decode (api_nbits_to_target (5 * 2 ^ 24 + 0 * 2 ^ 23 + 0x12345)) = Some bs /\
    be_val bs = nbits_to_target (5 * 2 ^ 24 + 0 * 2 ^ 23 + 0x12345).
Proof.
  destruct (candidate_target_agrees 5 0x12345 0) as (bs & Hd & _ & _ & Hv & _); [lia|lia|lia|].
  exists bs. split; [exact Hd|by apply Hv].
Defined.

(** One output, indexed and flushed. *)
Import IndexerFlush.FlushExample IndexerSpec.
Local Open Scope Z_scope.
#[local] Existing Instances Toy.toy_hash Toy.toy_order Toy.toy_order_laws.

Definition ix1 : Indexer.ExtraIndexer Mem.t :=
  snd (Indexer.index_output (Indexer.ExtraIndexer_new Mem.empty (Indexer.mkIndexerConfig true 500 512))
         (IndexExample.ex_id 1) 5 [1; 2; 3] 1000 [9] [(IndexExample.ex_id 7, 30)]).
Definition entry1 : Entry :=
  mkEntry (IndexExample.ex_id 1) 5 [1; 2; 3] 1000 (Indexer.hash_ergo_tree [9]) [(IndexExample.ex_id 7, 30)] None.

Lemma ix1_ok : IndexerFlush.buffers_ok ix1.
Proof. destruct ix_ok. by constructor. Qed.

Lemma ix1_represents : represents ix1 [entry1].
Proof.
  destruct (step_represents _ [] (AOutput (IndexExample.ex_id 1) 5 [1; 2; 3] 1000 [9] [(IndexExample.ex_id 7, 30)]) [entry1]
    (new_represents Mem.empty (Indexer.mkIndexerConfig true 500 512))) as (ix' & Hs & Hr); [reflexivity|cbn; lia|].
  cbn [index_step] in Hs. by injection Hs as <-.
Qed.

Definition query1 : BoxesQuery := mkBoxesQuery (hex_encode (Indexer.hash_ergo_tree [9])) 0 5 false.

Lemma address_pages_show_ledger_witness :
  get_boxes_by_address query1 (with_indexer (Indexer.flush ix1) app2) =
    Ok (mkPaginatedResponse [to_box_response (entry_record 0 entry1)] 1) /\
  get_boxes_by_address query1 (with_indexer ix1 app2) = Ok (mkPaginatedResponse [] 1).
Proof.
  assert (hex_decode (bq_key query1) = Some (Indexer.hash_ergo_tree [9])) as Hk by (vm_compute; reflexivity).
  destruct (address_pages_show_ledger ix1 [entry1] app2 query1 (Indexer.hash_ergo_tree [9]) ix1_represents ix1_ok) as [Ha Hb].
  - cbn. lia.
  - reflexivity.
  - exact Hk.
  - vm_compute. reflexivity.
  - apply list_elem_of_singleton. reflexivity.
  - vm_compute. lia.
  - split; [rewrite Ha; vm_compute; reflexivity|]. rewrite Hb; [vm_compute; reflexivity|]. intros k. reflexivity.
Defined.

(** An amount of almost 2^64 that a wallet with one small box can send. *)
Lemma send_amount_wraps_witness :
  exists answer,
    send_checks 7 (mkSendRequest [57] (2 ^ 64 - 1000000) None)
      (Wallet.mkWalletBox (replicate 32 1) 5 [] 1 [57] false) [] = Ok answer.
Proof. apply send_amount_wraps. reflexivity. Defined.


End ApiExample.
