(* ===== verification/ApiUtils.v ===== *)
(** * The HTTP API: utilities (utils.rs), scripts (script.rs), routes
      (routes.rs, openapi.rs) and the web panel (panel.rs)

    Seeds, hashes, and the conversions between addresses, public keys and
    ErgoTrees.  The encoder of addresses and the serialisation of trees are
    sigma-rust, whose documented round trips are [AddressLaws]; the random
    source is an argument.  Strings are their bytes, error messages are kept
    as far as the code formats them from others.  The routes are a table;
    matching a path against it is axum's [HttpRouter]. *)

From Stdlib Require Import Ascii.
From S2P Require Export Api.

Local Open Scope Z_scope.

Definition DEFAULT_SEED_SIZE : nat := 32.
Definition MAX_SEED_SIZE : nat := 64.

Class AddressLib := {
  Address : Type;
  ErgoTree : Type;
  ProveDlog : Type;
  parse_address_from_str : NetworkPrefix -> bytes -> result Address string;
  address_to_str : NetworkPrefix -> Address -> bytes;
  content_bytes : Address -> bytes;
  P2Pk : ProveDlog -> Address;
  P2S : bytes -> Address;
  P2SH : bytes -> Address;
  dlog_parse_bytes : bytes -> result ProveDlog string;
  tree_parse_bytes : bytes -> result ErgoTree string;
  tree_serialize_bytes : ErgoTree -> result bytes string;
  recreate_from_ergo_tree : ErgoTree -> result Address string;
  address_script : Address -> result ErgoTree string
}.

Class AddressLaws `{AddressLib} : Prop := {
  parse_to_str n a : parse_address_from_str n (address_to_str n a) = Ok a;
  parse_other_network n n' a : n <> n' -> is_ok (parse_address_from_str n' (address_to_str n a)) = false;
  content_p2pk raw d : dlog_parse_bytes raw = Ok d -> content_bytes (P2Pk d) = raw;
  script_p2s bs : address_script (P2S bs) = tree_parse_bytes bs;
  script_recreated t a : recreate_from_ergo_tree t = Ok a -> address_script a = Ok t;
  recreated_script a t : address_script a = Ok t -> exists a', recreate_from_ergo_tree t = Ok a';
  tree_read_back t bs : tree_serialize_bytes t = Ok bs -> tree_parse_bytes bs = Ok t;
  tree_bytes_ok t bs : tree_serialize_bytes t = Ok bs -> bytes_ok bs
}.

Section Utils.
Context `{HexDecode} `{Blake2b256} `{AddressLib}.

Definition bad_request {A} (msg : string) : result A ApiError := Err (AE_BadRequest msg).
Definition or_bad_request {A E} (msg : string) (r : result A E) : result A ApiError :=
  match r with Ok a => Ok a | Err _ => bad_request msg end.

(** ** utils.rs *)

(** [fill_bytes n] is what the random source gives for [n] bytes. *)
Definition get_seed (fill_bytes : nat -> bytes) : bytes := hex_encode (fill_bytes DEFAULT_SEED_SIZE).

Definition get_seed_with_length (fill_bytes : nat -> bytes) (length : nat) : result bytes ApiError :=
  if (length =? 0)%nat then bad_request "Seed length must be positive"
  else if (MAX_SEED_SIZE <? length)%nat then bad_request "Seed length must be at most 64 bytes"
  else Ok (hex_encode (fill_bytes length)).

Definition hash_blake2b (data : bytes) : result bytes ApiError :=
  let? data := ok_or (hex_decode data) (AE_BadRequest "Invalid hex data") in
  Ok (hex_encode (blake2b256 data)).

Record AddressValidation := mkAddressValidation { av_address : bytes; av_is_valid : bool; av_error : option string }.

(** The main network first, then the test network: the error is the second. *)
Definition parse_any_network (address : bytes) : result Address string :=
  match parse_address_from_str Mainnet address with
  | Ok a => Ok a
  | Err _ => parse_address_from_str Testnet address
  end.

Definition validate_ergo_address (address : bytes) : AddressValidation :=
  match parse_any_network address with
  | Ok _ => mkAddressValidation address true None
  | Err e => mkAddressValidation address false (Some e)
  end.

(** The address is in the path of the first, and is the body of the second. *)
Definition validate_address (address : bytes) : AddressValidation := validate_ergo_address address.
Definition validate_address_post (address : bytes) : AddressValidation := validate_ergo_address address.

Definition decode_address_to_raw (address : bytes) : result bytes string :=
  let? addr := parse_any_network address in Ok (content_bytes addr).

Definition address_to_raw (address : bytes) : result bytes ApiError :=
  let? raw_bytes := or_bad_request "Invalid address" (decode_address_to_raw address) in
  Ok (hex_encode raw_bytes).

Definition encode_raw_to_address (raw : bytes) : result bytes string :=
  if negb (length raw =? 33)%nat then Err "Expected 33 bytes for compressed public key"%string
  else
    let? prove_dlog := dlog_parse_bytes raw in
    Ok (address_to_str Mainnet (P2Pk prove_dlog)).

Definition raw_to_address (raw : bytes) : result bytes ApiError :=
  let? raw_bytes := ok_or (hex_decode raw) (AE_BadRequest "Invalid hex") in
  or_bad_request "Invalid raw data" (encode_raw_to_address raw_bytes).

Definition convert_ergo_tree_to_address (ergo_tree_hex : bytes) : result bytes string :=
  let? tree_bytes := ok_or (hex_decode ergo_tree_hex) "Invalid hex"%string in
  let? ergo_tree := tree_parse_bytes tree_bytes in
  let? address := recreate_from_ergo_tree ergo_tree in
  Ok (address_to_str Mainnet address).

Definition ergo_tree_to_address (ergo_tree_hex : bytes) : result bytes ApiError :=
  or_bad_request "Invalid ErgoTree" (convert_ergo_tree_to_address ergo_tree_hex).
Definition ergo_tree_to_address_post (request : bytes) : result bytes ApiError :=
  or_bad_request "Invalid ErgoTree" (convert_ergo_tree_to_address request).

(** ** script.rs *)

(** [char::is_ascii_hexdigit]. *)
Definition is_hexdigit (c : Z) : bool :=
  ((48 <=? c) && (c <=? 57)) || ((65 <=? c) && (c <=? 70)) || ((97 <=? c) && (c <=? 102)).

Definition not_compiled {A} : result A string :=
  Err "ErgoScript compilation not yet implemented. Provide hex-encoded ErgoTree instead."%string.

(** The request also has a tree version, which is not read. *)
Record CompileRequest := mkCompileRequest { cr_source : bytes; cr_tree_version : Z }.

Definition compile_script_to_p2s (source : bytes) : result bytes string :=
  if forallb is_hexdigit source then
    let? tree_bytes := ok_or (hex_decode source) "Invalid hex"%string in
    let? ergo_tree := tree_parse_bytes tree_bytes in
    let? bs := tree_serialize_bytes ergo_tree in
    Ok (address_to_str Mainnet (P2S bs))
  else not_compiled.

(** The hash is of the bytes given, not of the tree parsed from them. *)
Definition compile_script_to_p2sh (source : bytes) : result bytes string :=
  if forallb is_hexdigit source then
    let? tree_bytes := ok_or (hex_decode source) "Invalid hex"%string in
    let? _ := tree_parse_bytes tree_bytes in
    Ok (address_to_str Mainnet (P2SH (take 24 (blake2b256 tree_bytes))))
  else not_compiled.

Definition compile_to_p2s (request : CompileRequest) : result bytes ApiError :=
  or_bad_request "Compilation failed" (compile_script_to_p2s (cr_source request)).
Definition compile_to_p2sh (request : CompileRequest) : result bytes ApiError :=
  or_bad_request "Compilation failed" (compile_script_to_p2sh (cr_source request)).

Definition convert_address_to_tree (address : bytes) : result bytes string :=
  let? addr := parse_any_network address in
  let? tree := address_script addr in
  let? tree_bytes := tree_serialize_bytes tree in
  Ok (hex_encode tree_bytes).

Definition convert_address_to_bytes (address : bytes) : result bytes string :=
  let? addr := parse_any_network address in Ok (hex_encode (content_bytes addr)).

Definition address_to_tree (address : bytes) : result bytes ApiError :=
  or_bad_request "Invalid address" (convert_address_to_tree address).
Definition address_to_bytes (address : bytes) : result bytes ApiError :=
  or_bad_request "Invalid address" (convert_address_to_bytes address).

(** The script, the environment and the context of the request are not read. *)
Definition execute_with_context : result unit ApiError := Err (AE_NotImplemented "Script execution not yet implemented").

End Utils.

(** ** routes.rs and openapi.rs

    A route is a path with the handler (file and function) of each method it
    has.  The router is axum's: [HttpRouter] looks a path up in the table. *)

Inductive Method := M_Get | M_Post.
#[export] Instance method_eq_dec : EqDecision Method. Proof. solve_decision. Defined.

Record Route := mkRoute { rt_path : string; rt_handlers : list (Method * (string * string)) }.
#[export] Instance route_eq_dec : EqDecision Route. Proof. solve_decision. Defined.

Definition route_get (path file handler : string) : Route := mkRoute path [(M_Get, (file, handler))].
Definition route_post (path file handler : string) : Route := mkRoute path [(M_Post, (file, handler))].

Section Tables.
Local Open Scope string_scope.
Local Open Scope list_scope.

Definition panel_routes : list Route := [
  route_get "/panel" "panel" "panel_index";
  route_get "/panel/" "panel" "panel_index";
  route_get "/panel/ws" "panel" "panel_websocket";
  route_get "/panel/*path" "panel" "panel_assets" ].

Definition info_routes : list Route := [
  route_get "/info" "info" "get_info" ].

Definition block_routes : list Route := [
  route_get "/blocks" "blocks" "get_blocks";
  route_get "/blocks/:id" "blocks" "get_block_by_id";
  route_get "/blocks/:id/header" "blocks" "get_block_header";
  route_get "/blocks/:id/transactions" "blocks" "get_block_transactions";
  route_get "/blocks/at/:height" "blocks" "get_block_at_height" ].

Definition transaction_routes : list Route := [
  route_post "/transactions" "transactions" "submit_transaction";
  route_post "/transactions/check" "transactions" "check_transaction";
  route_get "/transactions/poolHistogram" "transactions" "get_fee_histogram";
  route_get "/transactions/getFee" "transactions" "get_recommended_fee";
  route_get "/transactions/waitTime" "transactions" "get_wait_time";
  route_get "/transactions/:id" "transactions" "get_transaction";
  route_get "/transactions/unconfirmed" "transactions" "get_unconfirmed_paged" ].

Definition unconfirmed_routes : list Route := [
  route_get "/transactions/unconfirmed/byOutputId/:boxId" "transactions" "get_unconfirmed_by_output_id";
  route_get "/transactions/unconfirmed/byTokenId/:tokenId" "transactions" "get_unconfirmed_by_token_id";
  route_get "/transactions/unconfirmed/byErgoTree/:tree" "transactions" "get_unconfirmed_by_ergo_tree";
  route_get "/transactions/unconfirmed/:id" "transactions" "get_unconfirmed_by_id" ].

Definition utxo_routes : list Route := [
  route_get "/utxo/byId/:id" "utxo" "get_box_by_id";
  route_get "/utxo/byIdBinary/:id" "utxo" "get_box_binary_by_id";
  route_get "/utxo/byAddress/:address" "utxo" "get_boxes_by_address";
  route_get "/utxo/withPool/byId/:id" "utxo" "get_box_with_pool";
  route_post "/utxo/withPool/byIds" "utxo" "get_boxes_with_pool";
  route_get "/utxo/genesis" "utxo" "get_genesis_boxes";
  route_get "/utxo/getSnapshotsInfo" "utxo" "get_snapshots_info";
  route_post "/utxo/getBoxesBinaryProof" "utxo" "get_boxes_binary_proof" ].

Definition peer_routes : list Route := [
  route_get "/peers/all" "peers" "get_all_peers";
  route_get "/peers/connected" "peers" "get_connected_peers";
  route_get "/peers/blacklisted" "peers" "get_blacklisted";
  route_post "/peers/connect" "peers" "connect_peer" ].

Definition mining_routes : list Route := [
  route_get "/mining/candidate" "mining" "get_candidate";
  route_get "/mining/candidate/extended" "mining" "get_candidate_extended";
  route_post "/mining/solution" "mining" "submit_solution";
  mkRoute "/mining/rewardAddress" [(M_Get, ("mining", "get_reward_address"));
    (M_Post, ("mining", "set_reward_address"))] ].

Definition wallet_routes : list Route := [
  route_post "/wallet/init" "wallet" "init_wallet";
  route_post "/wallet/unlock" "wallet" "unlock_wallet";
  route_get "/wallet/lock" "wallet" "lock_wallet";
  route_get "/wallet/status" "wallet" "get_status";
  route_get "/wallet/balances" "wallet" "get_balances";
  route_get "/wallet/addresses" "wallet" "get_addresses";
  route_post "/wallet/addresses/derive" "wallet" "derive_address";
  route_get "/wallet/boxes/unspent" "wallet" "get_unspent_boxes";
  route_post "/wallet/transaction/send" "wallet" "send_transaction" ].

Definition utils_routes : list Route := [
  route_get "/utils/seed" "utils" "get_seed";
  route_get "/utils/seed/:length" "utils" "get_seed_with_length";
  route_post "/utils/hash/blake2b" "utils" "hash_blake2b";
  route_get "/utils/address/:address" "utils" "validate_address";
  route_post "/utils/address" "utils" "validate_address_post";
  route_get "/utils/addressToRaw/:address" "utils" "address_to_raw";
  route_get "/utils/rawToAddress/:raw" "utils" "raw_to_address";
  route_get "/utils/ergoTreeToAddress/:ergoTree" "utils" "ergo_tree_to_address";
  route_post "/utils/ergoTreeToAddress" "utils" "ergo_tree_to_address_post" ].

Definition emission_routes : list Route := [
  route_get "/emission/at/:height" "emission" "get_emission_at_height";
  route_get "/emission/scripts" "emission" "get_emission_scripts" ].

Definition script_routes : list Route := [
  route_post "/script/p2sAddress" "script" "compile_to_p2s";
  route_post "/script/p2shAddress" "script" "compile_to_p2sh";
  route_post "/script/addressToTree" "script" "address_to_tree";
  route_post "/script/addressToBytes" "script" "address_to_bytes";
  route_post "/script/executeWithContext" "script" "execute_with_context" ].

Definition node_routes : list Route := [
  route_post "/node/shutdown" "node" "shutdown" ].

Definition scan_routes : list Route := [
  route_post "/scan/register" "scan" "register";
  route_post "/scan/deregister" "scan" "deregister";
  route_get "/scan/listAll" "scan" "list_all";
  route_get "/scan/unspentBoxes/:scanId" "scan" "unspent_boxes";
  route_get "/scan/spentBoxes/:scanId" "scan" "spent_boxes";
  route_post "/scan/stopTracking" "scan" "stop_tracking";
  route_post "/scan/addBox" "scan" "add_box";
  route_post "/scan/p2sRule" "scan" "p2s_rule" ].

Definition blockchain_routes : list Route := [
  route_get "/blockchain/indexedHeight" "blockchain" "get_indexed_height";
  route_get "/blockchain/transaction/byId/:id" "blockchain" "get_transaction_by_id";
  route_get "/blockchain/transaction/byIndex/:index" "blockchain" "get_transaction_by_index";
  route_get "/blockchain/box/byId/:id" "blockchain" "get_box_by_id";
  route_get "/blockchain/box/byIndex/:index" "blockchain" "get_box_by_index";
  route_get "/blockchain/token/byId/:id" "blockchain" "get_token_by_id";
  route_get "/blockchain/balance/byAddress" "blockchain" "get_balance_by_address";
  route_get "/blockchain/box/byAddress" "blockchain" "get_boxes_by_address";
  route_get "/blockchain/box/byTokenId" "blockchain" "get_boxes_by_token_id" ].

Definition api_routes : list Route :=
  panel_routes ++ info_routes ++ block_routes ++ transaction_routes ++ unconfirmed_routes ++ utxo_routes ++
  peer_routes ++ mining_routes ++ wallet_routes ++ utils_routes ++ emission_routes ++ script_routes ++
  node_routes ++ scan_routes ++ blockchain_routes.

(** The handlers the OpenAPI text lists. *)
Definition openapi_paths : list (string * string) :=
  (pair "info" <$> ["get_info"]) ++
  (pair "blocks" <$> ["get_blocks"; "get_block_by_id"; "get_block_header"; "get_block_transactions";
    "get_block_at_height"]) ++
  (pair "transactions" <$> ["submit_transaction"; "check_transaction"; "get_fee_histogram"; "get_recommended_fee";
    "get_wait_time"; "get_transaction"; "get_unconfirmed"; "get_unconfirmed_paged"; "get_unconfirmed_by_id";
    "get_unconfirmed_by_output_id"; "get_unconfirmed_by_token_id"; "get_unconfirmed_by_ergo_tree"]) ++
  (pair "utxo" <$> ["get_box_by_id"; "get_box_binary_by_id"; "get_boxes_by_address"; "get_box_with_pool";
    "get_boxes_with_pool"; "get_genesis_boxes"; "get_snapshots_info"; "get_boxes_binary_proof"]) ++
  (pair "peers" <$> ["get_all_peers"; "get_connected_peers"; "get_blacklisted"; "connect_peer"]) ++
  (pair "mining" <$> ["get_candidate"; "get_candidate_extended"; "submit_solution"; "get_reward_address";
    "set_reward_address"]) ++
  (pair "wallet" <$> ["init_wallet"; "unlock_wallet"; "lock_wallet"; "get_status"; "get_balances"; "get_addresses";
    "derive_address"; "get_unspent_boxes"; "send_transaction"]) ++
  (pair "utils" <$> ["get_seed"; "get_seed_with_length"; "hash_blake2b"; "validate_address";
    "validate_address_post"; "address_to_raw"; "raw_to_address"; "ergo_tree_to_address";
    "ergo_tree_to_address_post"]) ++
  (pair "emission" <$> ["get_emission_at_height"; "get_emission_scripts"]) ++
  (pair "script" <$> ["compile_to_p2s"; "compile_to_p2sh"; "address_to_tree"; "address_to_bytes";
    "execute_with_context"]) ++
  (pair "node" <$> ["shutdown"]) ++
  (pair "scan" <$> ["register"; "deregister"; "list_all"; "unspent_boxes"; "spent_boxes"; "stop_tracking";
    "add_box"; "p2s_rule"]) ++
  (pair "blockchain" <$> ["get_indexed_height"; "get_transaction_by_id"; "get_transaction_by_index";
    "get_box_by_id"; "get_box_by_index"; "get_token_by_id"; "get_balance_by_address"; "get_boxes_by_address";
    "get_boxes_by_token_id"]).

End Tables.

(** What is applied to every route. *)
Inductive Layer := TraceLayer | CompressionLayer | CorsPermissive.
Definition api_layers : list Layer := [TraceLayer; CompressionLayer; CorsPermissive].

(** Paths by segment: [:name] takes one that is not empty, [*name] the rest. *)
Fixpoint segments (path : string) : list string :=
  match path with
  | EmptyString => [""%string]
  | String c rest =>
      if bool_decide (c = "/"%char) then ""%string :: segments rest
      else match segments rest with s :: more => String c s :: more | [] => [String c EmptyString] end
  end.

Definition is_param_segment (s : string) : bool := match s with String c _ => bool_decide (c = ":"%char) | _ => false end.
Definition is_catch_all (s : string) : bool := match s with String c _ => bool_decide (c = "*"%char) | _ => false end.

Fixpoint segments_match (pattern path : list string) : bool :=
  match pattern, path with
  | [], [] => true
  | p :: pattern', s :: path' =>
      if is_catch_all p then negb (bool_decide (s :: path' = [""%string]))
      else (if is_param_segment p then negb (bool_decide (s = ""%string)) else bool_decide (p = s)) && segments_match pattern' path'
  | _, _ => false
  end.

Definition route_matches (r : Route) (path : string) : bool := segments_match (segments (rt_path r)) (segments path).
Definition is_fixed (r : Route) : bool := forallb (fun s => negb (is_param_segment s || is_catch_all s)) (segments (rt_path r)).

Class HttpRouter := at_path : list Route -> string -> option Route.

(** What its documentation says: a path is served by a route that matches it,
    if there is one, and a fixed route comes before those with parameters. *)
Class HttpRouterLaws `{HttpRouter} : Prop := {
  at_path_matches t p r : at_path t p = Some r -> r ∈ t /\ route_matches r p = true;
  at_path_found t p r : r ∈ t -> route_matches r p = true -> is_Some (at_path t p);
  at_path_fixed t p r r' : at_path t p = Some r -> r' ∈ t -> rt_path r' = p -> is_fixed r' = true -> rt_path r = p
}.

(** The handler of a request; [None] is a 404 or a 405. *)
Definition handler_of `{HttpRouter} (t : list Route) (m : Method) (path : string) : option (string * string) :=
  r ← at_path t path; snd <$> head (base.filter (fun h => h.1 = m) (rt_handlers r)).

(** ** panel.rs

    The assets compiled into the binary are an argument, and so is the guess
    of a content type.  The socket only repeats [build_status_update]. *)

Record PanelResponse := mkPanelResponse { pn_status : Z; pn_content_type : option string; pn_body : bytes }.
Record PanelTx := mkPanelTx { pt_id : bytes; pt_fee : Z; pt_size : nat; pt_arrival_time : Z }.
Record PanelBlock := mkPanelBlock { pb_id : bytes; pb_height : Z; pb_timestamp : Z; pb_transactions : list bytes }.
Record StatusUpdate := mkStatusUpdate {
  su_full_height : Z; su_headers_height : Z; su_is_synced : bool; su_peer_count : Z;
  su_mempool_count : Z; su_mempool_size : Z; su_transactions : list PanelTx;
  su_is_mining : bool; su_node_name : bytes; su_recent_blocks : list PanelBlock }.

Section Panel.
Context {ErgoBox Ext Tx : Type} `{ErgoBoxOps ErgoBox} `{TransactionOps ErgoBox Ext Tx}
  `{ChainTypes} `{!HeaderCodec} `{Blake2b256} `{BigUintBytes} {DB : Type} `{Storage DB}
  `{HexDecode} `{Wallet.WalletLib}.
Abbreviation app := (AppState DB).

Definition serve_panel_file (assets : string -> option bytes) (mime : string -> string) (path : string) : PanelResponse :=
  match assets path with
  | Some content => mkPanelResponse 200 (Some (mime path)) content
  | None => mkPanelResponse 404 None (str_bytes "Not found")
  end.
Definition panel_index (assets : string -> option bytes) (mime : string -> string) : PanelResponse :=
  serve_panel_file assets mime "index.html".
Definition panel_assets (assets : string -> option bytes) (mime : string -> string) (path : string) : PanelResponse :=
  serve_panel_file assets mime path.

(** [None] where the closure of [filter_map] leaves the block out. *)
Definition recent_block (a : app) (height : Z) : option PanelBlock :=
  if height =? 0 then None
  else
    match get_by_height (api_store a) height with
    | Ok (Some header) =>
        match get_transactions (api_store a) (h_id header) with
        | Ok txs =>
            let tx_ids := default [] ((fun t => (fun tx => hex_encode (tx_id tx)) <$> bt_txs t) <$> txs) in
            Some (mkPanelBlock (hex_encode (h_id header)) height (h_timestamp header) tx_ids)
        | Err _ => None
        end
    | _ => None
    end.

Definition panel_tx (tx : Mempool.PooledTransaction) : PanelTx :=
  mkPanelTx (hex_encode (Mempool.ptx_id tx)) (Mempool.ptx_fee tx) (length (Mempool.ptx_bytes tx))
    (Mempool.ptx_arrival_time tx).

Definition build_status_update (a : app) : StatusUpdate :=
  let '(utxo_height, header_height) := heights (ap_state a) in
  let mempool_stats := Mempool.stats (ap_mempool a) in
  let peer_count := connected_count (ap_peers a) in
  let is_synced := Manager.is_synced (ap_state a) in
  let txs := panel_tx <$> Mempool.get_by_weight (ap_mempool a) 50 in
  let recent_blocks :=
    if is_synced && (0 <? utxo_height) then omap (recent_block a) ((fun offset => sat_sub utxo_height offset) <$> [0; 1])
    else [] in
  mkStatusUpdate utxo_height header_height is_synced peer_count (Mempool.st_tx_count mempool_stats)
    (Mempool.st_total_size mempool_stats) txs (ap_mining_enabled a) (ap_node_name a) recent_blocks.

End Panel.

(** ** What the conversions promise *)

Section Spec.
Context `{HexLaws} `{Blake2b256} `{AddressLaws}.

Lemma or_bad_request_ok {A E} msg (r : result A E) a : or_bad_request msg r = Ok a <-> r = Ok a.
Proof. destruct r; cbn; [|done]. by split; intros [= ->]. Qed.

Lemma parse_mainnet a : parse_any_network (address_to_str Mainnet a) = Ok a.
Proof. unfold parse_any_network. by rewrite parse_to_str. Qed.

Lemma parse_testnet a : parse_any_network (address_to_str Testnet a) = Ok a.
Proof.
  unfold parse_any_network. pose proof (parse_other_network Testnet Mainnet a ltac:(done)) as Ho.
  destruct (parse_address_from_str Mainnet _); [done|]. by rewrite parse_to_str.
Qed.

(** A public key turned into an address is read back from it, and so is
    the tree of an address made from a tree: every address the utilities make
    is one they take back, of the main network. *)
Theorem addresses_read_back text addr :
  (raw_to_address text = Ok addr ->
     exists raw, hex_decode text = Some raw /\ length raw = 33%nat /\ address_to_raw addr = Ok (hex_encode raw)) /\
  (ergo_tree_to_address text = Ok addr ->
     exists bs t, hex_decode text = Some bs /\ tree_parse_bytes bs = Ok t /\
       address_to_tree addr = or_bad_request "Invalid address" (rbind (tree_serialize_bytes t) (fun b => Ok (hex_encode b)))) /\
  (compile_script_to_p2s text = Ok addr ->
     exists bs t canonical, hex_decode text = Some bs /\ tree_parse_bytes bs = Ok t /\
       tree_serialize_bytes t = Ok canonical /\ address_to_tree addr = Ok (hex_encode canonical)) /\
  (raw_to_address text = Ok addr \/ ergo_tree_to_address text = Ok addr \/
   compile_script_to_p2s text = Ok addr \/ compile_script_to_p2sh text = Ok addr ->
     av_is_valid (validate_ergo_address addr) = true /\ is_ok (parse_address_from_str Testnet addr) = false).
Proof.
  assert (raw_to_address text = Ok addr -> exists raw d, hex_decode text = Some raw /\
    length raw = 33%nat /\ dlog_parse_bytes raw = Ok d /\ addr = address_to_str Mainnet (P2Pk d)) as Hraw.
  { unfold raw_to_address. intros (raw & Hx & Hr%or_bad_request_ok)%rbind_ok.
    destruct (hex_decode text) as [raw'|]; [|done]. injection Hx as ->. unfold encode_raw_to_address in Hr.
    destruct (Nat.eqb_spec (length raw) 33); [|done]. cbn [negb] in Hr.
    apply rbind_ok in Hr as (d & Hd & [= <-]). by exists raw, d. }
  assert (ergo_tree_to_address text = Ok addr -> exists bs t a, hex_decode text = Some bs /\ tree_parse_bytes bs = Ok t /\
    recreate_from_ergo_tree t = Ok a /\ addr = address_to_str Mainnet a) as Htree.
  { intros Ht%or_bad_request_ok. unfold convert_ergo_tree_to_address in Ht.
    apply rbind_ok in Ht as (bs & Hb & (t & Hp & (a & Ha & [= <-])%rbind_ok)%rbind_ok).
    destruct (hex_decode text) as [bs'|]; [|done]. injection Hb as ->. by exists bs, t, a. }
  assert (compile_script_to_p2s text = Ok addr -> exists bs t c, hex_decode text = Some bs /\ tree_parse_bytes bs = Ok t /\
    tree_serialize_bytes t = Ok c /\ addr = address_to_str Mainnet (P2S c)) as Hp2s.
  { unfold compile_script_to_p2s. destruct (forallb _ _); [|done].
    intros (bs & Hb & (t & Hp & (c & Hc & [= <-])%rbind_ok)%rbind_ok)%rbind_ok.
    destruct (hex_decode text) as [bs'|]; [|done]. injection Hb as ->. by exists bs, t, c. }
  split; [|split; [|split]].
  - intros (raw & d & Hx & Hl & Hd & ->)%Hraw. exists raw. split; [done|]. split; [done|].
    unfold address_to_raw, decode_address_to_raw. rewrite parse_mainnet. cbn. by rewrite (content_p2pk _ _ Hd).
  - intros (bs & t & a & Hx & Hp & Ha & ->)%Htree. exists bs, t. split; [done|]. split; [done|].
    unfold address_to_tree, convert_address_to_tree. rewrite parse_mainnet. cbn [rbind].
    by rewrite (script_recreated _ _ Ha).
  - intros (bs & t & c & Hx & Hp & Hc & ->)%Hp2s. exists bs, t, c. split; [done|]. split; [done|]. split; [done|].
    unfold address_to_tree, convert_address_to_tree. rewrite parse_mainnet. cbn [rbind].
    rewrite script_p2s, (tree_read_back _ _ Hc). cbn [rbind]. by rewrite Hc.
  - intros Hany. assert (exists a, addr = address_to_str Mainnet a) as [a ->].
    { destruct Hany as [(raw & d & _ & _ & _ & ->)%Hraw|[(bs & t & a & _ & _ & _ & ->)%Htree|
        [(bs & t & c & _ & _ & _ & ->)%Hp2s|Hs]]]; [by eexists..|].
      unfold compile_script_to_p2sh in Hs. destruct (forallb _ _); [|done].
      apply rbind_ok in Hs as (bs & _ & (t & _ & [= <-])%rbind_ok). by eexists. }
    unfold validate_ergo_address. rewrite parse_mainnet. split; [done|]. by apply parse_other_network.
Qed.

(** On a test network: the tree of a test address, turned back into an
    address, is another address, one of the main network. *)
Theorem testnet_address_changes a t bs :
  address_script a = Ok t -> tree_serialize_bytes t = Ok bs ->
  exists tree a', address_to_tree (address_to_str Testnet a) = Ok tree /\
    ergo_tree_to_address tree = Ok (address_to_str Mainnet a') /\
    address_to_str Mainnet a' <> address_to_str Testnet a.
Proof.
  intros Hs Hb. destruct (recreated_script a t Hs) as [a' Ha']. exists (hex_encode bs), a'.
  split; [|split].
  - unfold address_to_tree, convert_address_to_tree. rewrite parse_testnet. cbn [rbind]. rewrite Hs. cbn [rbind].
    by rewrite Hb.
  - unfold ergo_tree_to_address, convert_ergo_tree_to_address.
    rewrite hex_decode_encode by (by eapply tree_bytes_ok). cbn [ok_or rbind].
    rewrite (tree_read_back _ _ Hb). cbn [rbind]. by rewrite Ha'.
  - intros Heq. pose proof (parse_other_network Testnet Mainnet a ltac:(done)) as Ho.
    by rewrite <- Heq, parse_to_str in Ho.
Qed.

(** A seed of the length asked for, or an error. *)
Lemma seed_length (fill : nat -> bytes) n seed :
  (forall k, length (fill k) = k) -> get_seed_with_length fill n = Ok seed ->
  (1 <= n <= 64)%nat /\ seed = hex_encode (fill n).
Proof.
  intros Hf. unfold get_seed_with_length, MAX_SEED_SIZE.
  destruct (Nat.eqb_spec n 0); [done|]. destruct (Nat.ltb_spec 64 n); [done|]. intros [= <-]. by split; [lia|].
Qed.
End Spec.

(** ** What the routes and the panel show *)

Lemma fixed_matches_itself segs :
  forallb (fun s => negb (is_param_segment s || is_catch_all s)) segs = true -> segments_match segs segs = true.
Proof.
  induction segs as [|s segs IH]; [done|]. cbn [forallb segments_match].
  intros [[Hp Hc]%negb_true_iff%orb_false_iff Hs]%andb_true_iff.
  rewrite Hc, Hp, bool_decide_true by done. exact (IH Hs).
Qed.

(** No two routes have the same path. *)
Lemma route_paths_distinct : NoDup (rt_path <$> api_routes).
Proof. apply (bool_decide_unpack _). vm_compute. exact I. Qed.

Section Routing.
Context `{HttpRouterLaws}.

(** A route without parameters is served under its path whatever the order in
    which the routes are added: [/transactions/unconfirmed] too, which comes
    after [/transactions/:id]. *)
Theorem fixed_routes_any_order t r :
  t ≡ₚ api_routes -> r ∈ api_routes -> is_fixed r = true -> at_path t (rt_path r) = Some r.
Proof.
  intros Ht Hr Hf. assert (r ∈ t) as Hin by (by rewrite Ht).
  destruct (at_path_found t (rt_path r) r Hin (fixed_matches_itself _ Hf)) as [r' Hr'].
  rewrite Hr'. f_equal.
  pose proof (at_path_fixed _ _ _ r Hr' Hin eq_refl Hf) as Hp.
  apply at_path_matches in Hr' as [Hin' _]. rewrite Ht in Hin'.
  apply list_elem_of_lookup in Hin' as [i Hi], Hr as [j Hj].
  enough (i = j) by congruence.
  apply (NoDup_lookup _ i j (rt_path r) route_paths_distinct); rewrite list_lookup_fmap.
  - by rewrite Hi; cbn; rewrite Hp.
  - by rewrite Hj.
Qed.

End Routing.

Definition served : list (string * string) := r ← api_routes; snd <$> rt_handlers r.

(** The text documents one handler that no route serves, whose path another
    handler has, and it leaves out the panel. *)
Lemma openapi_differs :
  base.filter (fun h => h ∉ served) openapi_paths = [("transactions", "get_unconfirmed")]%string /\
  base.filter (fun h => h ∉ openapi_paths) served =
    [("panel", "panel_index"); ("panel", "panel_index"); ("panel", "panel_websocket"); ("panel", "panel_assets")]%string.
Proof. split; vm_compute; reflexivity. Qed.

Lemma length_omap_le {A B} (f : A -> option B) l : (length (omap f l) <= length l)%nat.
Proof. induction l as [|x l IH]; [done|]. cbn. destruct (f x); cbn; lia. Qed.

Section PanelSpec.
Context {ErgoBox Ext Tx : Type} `{ErgoBoxOps ErgoBox} `{TransactionOps ErgoBox Ext Tx}
  `{ChainTypes} `{!HeaderCodec} `{Blake2b256} `{BigUintBytes} {DB : Type} `{Storage DB}
  `{HexDecode} `{Wallet.WalletLib}.

(** The panel shows the blocks of the tip and its parent, as they are stored,
    to a synchronised node, and transactions of the pool. *)
Theorem panel_shows_tip (a : AppState DB) :
  (forall b, b ∈ su_recent_blocks (build_status_update a) ->
     Manager.is_synced (ap_state a) = true /\
     us_height (api_utxo a) - 1 <= pb_height b <= us_height (api_utxo a) /\ 0 < pb_height b /\
     exists header, get_by_height (api_store a) (pb_height b) = Ok (Some header) /\
       pb_id b = hex_encode (h_id header) /\ pb_timestamp b = h_timestamp header) /\
  (forall t, t ∈ su_transactions (build_status_update a) ->
     exists id tx, Mempool.get (ap_mempool a) id = Some tx /\ t = panel_tx tx) /\
  (length (su_recent_blocks (build_status_update a)) <= 2)%nat /\
  (length (su_transactions (build_status_update a)) <= 50)%nat.
Proof.
  unfold build_status_update, heights. cbn [su_recent_blocks su_transactions]. split; [|split; [|split]].
  - intros b. case_match eqn:Hs; [|by intros ?%elem_of_nil].
    apply andb_true_iff in Hs as [Hs Hh%Z.ltb_lt]. intros (h & Hin & Hb)%list_elem_of_omap.
    assert (us_height (api_utxo a) - 1 <= h <= us_height (api_utxo a)) as Hr.
    { unfold api_utxo, sat_sub in *. apply list_elem_of_fmap in Hin as (o & -> & Ho). set_unfold in Ho. lia. }
    unfold recent_block in Hb. destruct (Z.eqb_spec h 0); [done|].
    destruct (get_by_height (api_store a) h) as [[header|]|] eqn:Hg; [|done..].
    case_match; [|done]. injection Hb as <-. cbn.
    split; [exact Hs|]. split; [exact Hr|]. split; [unfold api_utxo in *; lia|]. eauto.
  - intros t (tx & -> & Htx)%list_elem_of_fmap. unfold Mempool.get_by_weight in Htx.
    apply list_elem_of_omap in Htx as (w & _ & Hw). eauto.
  - case_match; [|cbn; lia]. etrans; [apply length_omap_le|]. cbn. lia.
  - rewrite length_fmap. etrans; [apply length_omap_le|]. rewrite length_take. lia.
Qed.

End PanelSpec.

Module UtilsExample.
Import ToyHex Toy.

(** Addresses: a public key, a script or a hash, behind a byte for the network
    and one for the kind.  A tree that starts with 8 is a public key. *)
Definition net_byte (n : NetworkPrefix) : Z := match n with Mainnet => 0 | Testnet => 16 end.
Definition in_bytes (bs : bytes) : bool := forallb (fun b => (0 <=? b) && (b <? 256)) bs.

#[export] Instance toy_addresses : AddressLib := {
  Address := Z * bytes;
  ErgoTree := bytes;
  ProveDlog := bytes;
  parse_address_from_str n text :=
    match text with
    | net :: kind :: content => if net =? net_byte n then Ok (kind, content) else Err "network"%string
    | _ => Err "length"%string
    end;
  address_to_str n a := net_byte n :: a.1 :: a.2;
  content_bytes a := a.2;
  P2Pk d := (1, d);
  P2S bs := (3, bs);
  P2SH h := (2, h);
  dlog_parse_bytes bs := Ok bs;
  tree_parse_bytes bs := Ok bs;
  tree_serialize_bytes t := if in_bytes t then Ok t else Err "range"%string;
  recreate_from_ergo_tree t := match t with 8 :: d => Ok (1, d) | 7 :: h => Ok (2, h) | _ => Ok (3, t) end;
  address_script a := Ok (if a.1 =? 1 then 8 :: a.2 else if a.1 =? 2 then 7 :: a.2 else a.2)
}.

#[export] Instance toy_address_laws : AddressLaws.
Proof.
  constructor; cbn.
  - intros n [k c]. by rewrite Z.eqb_refl.
  - by intros [] [] [k c] Hn.
  - by intros raw d [= ->].
  - done.
  - intros t a Hr. repeat (case_match; simplify_eq; try done).
  - intros a t [= <-]. repeat case_match; eauto.
  - by intros t bs; destruct (in_bytes t); intros [= ->].
  - intros t bs. destruct (in_bytes t) eqn:E; [|done]. intros [= <-]. unfold in_bytes in E.
    rewrite forallb_forall in E. apply Forall_forall. intros b Hb%list_elem_of_In%E. unfold byte_ok. lia.
Qed.

Definition key33 : bytes := replicate 33 2.
Definition dlog33 : @ProveDlog toy_addresses := key33.
Definition key_address : bytes := address_to_str Mainnet (P2Pk dlog33).

Lemma addresses_read_back_witness :
  raw_to_address (hex_encode key33) = Ok key_address /\
  address_to_raw key_address = Ok (hex_encode key33) /\
  is_ok (parse_address_from_str Testnet key_address) = false.
Proof.
  assert (raw_to_address (hex_encode key33) = Ok key_address) as Hr by (vm_compute; reflexivity).
  destruct (addresses_read_back (hex_encode key33) key_address) as (H1 & _ & _ & H4).
  split; [exact Hr|]. split; [|exact (proj2 (H4 (or_introl Hr)))].
  destruct (H1 Hr) as (raw & Hx & _ & Ha). rewrite Ha. f_equal. f_equal.
  vm_compute in Hx. injection Hx as <-. reflexivity.
Defined.

Lemma testnet_address_changes_witness :
  exists tree a', address_to_tree (address_to_str Testnet (P2Pk dlog33)) = Ok tree /\
    ergo_tree_to_address tree = Ok (address_to_str Mainnet a') /\
    address_to_str Mainnet a' <> address_to_str Testnet (P2Pk dlog33).
Proof. eapply (testnet_address_changes (P2Pk dlog33)); [reflexivity|vm_compute; reflexivity]. Defined.

(** A router that tries the fixed routes first. *)
#[export] Instance fixed_first : HttpRouter := fun t p =>
  match list_find (fun r => is_fixed r = true /\ rt_path r = p) t with
  | Some (_, r) => Some r
  | None => snd <$> list_find (fun r => route_matches r p = true) t
  end.

#[export] Instance fixed_first_laws : HttpRouterLaws.
Proof.
  split; unfold at_path, fixed_first; intros t p r.
  - case_match eqn:E.
    + destruct p0 as [i r0]. intros [= ->]. apply list_find_Some in E as (Hi & [Hf <-] & _).
      split; [by eapply list_elem_of_lookup_2|]. by apply fixed_matches_itself.
    + intros ([i r0] & Hl & ->)%fmap_Some. apply list_find_Some in Hl as (Hi & Hm & _).
      split; [by eapply list_elem_of_lookup_2|exact Hm].
  - intros Hin Hm. case_match; [destruct p0; by eexists|]. apply fmap_is_Some.
    by eapply list_find_elem_of.
  - intros r' Hr Hin Hp Hf. case_match eqn:E.
    + destruct p0 as [i r0]. injection Hr as <-. apply list_find_Some in E as (_ & [_ ?] & _). done.
    + destruct (list_find_elem_of (fun r => is_fixed r = true /\ rt_path r = p) t r' Hin (conj Hf Hp)) as [? ?].
      congruence.
Qed.

Lemma fixed_routes_any_order_witness :
  at_path api_routes "/transactions/unconfirmed" = Some (route_get "/transactions/unconfirmed" "transactions" "get_unconfirmed_paged").
Proof.
  apply (fixed_routes_any_order api_routes (route_get "/transactions/unconfirmed" "transactions" "get_unconfirmed_paged"));
    [reflexivity| |reflexivity].
  apply (bool_decide_unpack _). vm_compute. exact I.
Defined.

Example parameters_served :
  handler_of api_routes M_Get "/blocks/at/7" = Some ("blocks", "get_block_at_height")%string /\
  handler_of api_routes M_Get "/blocks/7" = Some ("blocks", "get_block_by_id")%string /\
  handler_of api_routes M_Post "/blocks/7" = None /\
  handler_of api_routes M_Post "/mining/rewardAddress" = Some ("mining", "set_reward_address")%string /\
  handler_of api_routes M_Get "/panel/js/app.js" = Some ("panel", "panel_assets")%string /\
  handler_of api_routes M_Get "/blocks/" = None.
Proof. repeat split; vm_compute; reflexivity. Qed.

End UtilsExample.
