(* ===== verification/Startup.v ===== *)
(** * Start-up of the node (crates/ergo-node/src/main.rs, config.rs, node.rs)
      and peer discovery (ergo-network discovery.rs)

    Command line and configuration file, the addresses of peers, the objects a
    node is made of and what its services start with.  The [toml] crate, name
    resolution and the number of processors are arguments; logging, the file
    system and sockets are left out.  Socket addresses are parsed as the
    standard library parses them. *)

From S2P Require Export Codec Api Miner Node.
From S2P Require WalletSpec NodeSpec.

Local Open Scope Z_scope.

(** ** Socket addresses: [SocketAddr::from_str] *)

Definition Parser (A : Type) : Type := bytes -> option (A * bytes).

Definition pchar (c : Z) : Parser unit := fun s =>
  match s with x :: s' => if x =? c then Some (tt, s') else None | [] => None end.

Definition digit_of (radix c : Z) : option Z :=
  let d := if (48 <=? c) && (c <=? 57) then Some (c - 48)
           else if (97 <=? c) && (c <=? 122) then Some (c - 87)
           else if (65 <=? c) && (c <=? 90) then Some (c - 55) else None in
  match d with Some d => if d <? radix then Some d else None | None => None end.

(** The digits of a number below [limit]; more than [max_digits] of them, or a
    number out of range, fail. *)
Fixpoint read_digits (radix limit : Z) (max_digits : option nat) (s : bytes) (count : nat) (acc : Z)
    : option (Z * nat * bytes) :=
  match s with
  | c :: s' =>
      match digit_of radix c with
      | Some d =>
          let acc := acc * radix + d in
          if limit <=? acc then None
          else if match max_digits with Some m => (m <? S count)%nat | None => false end then None
          else read_digits radix limit max_digits s' (S count) acc
      | None => Some (acc, count, s)
      end
  | [] => Some (acc, count, s)
  end.

Definition read_number (radix limit : Z) (max_digits : option nat) (allow_zero_prefix : bool) : Parser Z := fun s =>
  match read_digits radix limit max_digits s 0 0 with
  | Some (v, count, rest) =>
      let has_leading_zero := match s with 48 :: _ => true | _ => false end in
      if (count =? 0)%nat then None
      else if negb allow_zero_prefix && has_leading_zero && (1 <? count)%nat then None
      else Some (v, rest)
  | None => None
  end.

Definition read_separator {A} (sep : Z) (index : nat) (inner : Parser A) : Parser A := fun s =>
  if (index =? 0)%nat then inner s
  else match pchar sep s with Some (_, s') => inner s' | None => None end.

Fixpoint read_octets (index remaining : nat) (s : bytes) : option (bytes * bytes) :=
  match remaining with
  | O => Some ([], s)
  | S remaining' =>
      match read_separator 46 index (read_number 10 256 (Some 3%nat) false) s with
      | Some (o, s') =>
          match read_octets (S index) remaining' s' with Some (os, s'') => Some (o :: os, s'') | None => None end
      | None => None
      end
  end.
Definition read_ipv4_addr : Parser bytes := read_octets 0 4.

Definition group_octets (g : Z) : bytes := [g / 256; g mod 256].

(** Up to [remaining] groups of sixteen bits as octets, their number, and
    whether an IPv4 address ended them. *)
Fixpoint read_groups (fuel : nat) (index limit : nat) (s : bytes) : bytes * nat * bool * bytes :=
  match fuel with
  | O => ([], index, false, s)
  | S fuel' =>
      match (if (S index <? limit)%nat then read_separator 58 index read_ipv4_addr s else None) with
      | Some (v4, s') => (v4, (index + 2)%nat, true, s')
      | None =>
          match read_separator 58 index (read_number 16 65536 (Some 4%nat) true) s with
          | Some (g, s') =>
              let '(os, n, v4, s'') := read_groups fuel' (S index) limit s' in (group_octets g ++ os, n, v4, s'')
          | None => ([], index, false, s)
          end
      end
  end.

Definition read_ipv6_addr : Parser bytes := fun s =>
  let '(head, head_size, head_ipv4, s) := read_groups 8 0 8 s in
  if (head_size =? 8)%nat then Some (head, s)
  else if head_ipv4 then None
  else
    match pchar 58 s with
    | Some (_, s) =>
        match pchar 58 s with
        | Some (_, s) =>
            let limit := (8 - (head_size + 1))%nat in
            let '(tail, tail_size, _, s) := read_groups limit 0 limit s in
            Some (head ++ replicate (2 * (8 - head_size - tail_size)) 0 ++ tail, s)
        | None => None
        end
    | None => None
    end.

Definition read_port : Parser Z := fun s =>
  match pchar 58 s with Some (_, s) => read_number 10 65536 None true s | None => None end.

Definition read_scope_id : Parser Z := fun s =>
  match pchar 37 s with Some (_, s) => read_number 10 (2 ^ 32) None true s | None => None end.

Definition read_socket_addr_v4 : Parser SocketAddr := fun s =>
  match read_ipv4_addr s with
  | Some (ip, s) => match read_port s with Some (port, s) => Some (mkSocketAddr (IP_V4 ip) port, s) | None => None end
  | None => None
  end.

Definition read_socket_addr_v6 : Parser SocketAddr := fun s =>
  match pchar 91 s with
  | Some (_, s) =>
      match read_ipv6_addr s with
      | Some (ip, s) =>
          let s := match read_scope_id s with Some (_, s') => s' | None => s end in
          match pchar 93 s with
          | Some (_, s) =>
              match read_port s with Some (port, s) => Some (mkSocketAddr (IP_V6 ip) port, s) | None => None end
          | None => None
          end
      | None => None
      end
  | None => None
  end.

(** The whole text must be read. *)
Definition parse_socket_addr (text : bytes) : option SocketAddr :=
  match (match read_socket_addr_v4 text with Some r => Some r | None => read_socket_addr_v6 text end) with
  | Some (addr, []) => Some addr
  | _ => None
  end.

Example parse_v6 : parse_socket_addr (str_bytes "[2001:db8::1.2.3.4%7]:09030") =
  Some (mkSocketAddr (IP_V6 [32; 1; 13; 184; 0; 0; 0; 0; 0; 0; 0; 0; 1; 2; 3; 4]) 9030).
Proof. reflexivity. Qed.
Example parse_bad_octet : parse_socket_addr (str_bytes "1.2.3.04:80") = None.
Proof. reflexivity. Qed.

(** ** Peer discovery (discovery.rs) *)

Inductive NetworkType := NT_Mainnet | NT_Testnet.

Definition dns_seeds (n : NetworkType) : list bytes :=
  match n with
  | NT_Mainnet => [str_bytes "seed1.ergoplatform.com:9030"; str_bytes "seed2.ergoplatform.com:9030";
                   str_bytes "seed3.ergoplatform.com:9030"]
  | NT_Testnet => [str_bytes "testnet.ergoplatform.com:9020"]
  end.

Definition known_peer_texts (n : NetworkType) : list bytes :=
  match n with
  | NT_Mainnet => [str_bytes "213.239.193.208:9030"; str_bytes "159.65.11.55:9030"; str_bytes "165.227.26.175:9030";
                   str_bytes "159.89.116.15:9030"; str_bytes "136.244.110.145:9030"; str_bytes "94.130.108.35:9030";
                   str_bytes "51.75.147.1:9030"]
  | NT_Testnet => [str_bytes "213.239.193.208:9020"]
  end.

Definition default_port (n : NetworkType) : Z := match n with NT_Mainnet => 9030 | NT_Testnet => 9020 end.

(** [to_socket_addrs], within the time allowed: [None] is any failure. *)
Class Resolver := resolve_seed : bytes -> option (list SocketAddr).

(** [Ord] of [SocketAddr]: an IPv4 address first, then octets, then ports. *)
Definition addr_cmp (a b : SocketAddr) : comparison :=
  match sa_ip a, sa_ip b with
  | IP_V4 _, IP_V6 _ => Lt
  | IP_V6 _, IP_V4 _ => Gt
  | IP_V4 x, IP_V4 y | IP_V6 x, IP_V6 y =>
      match bytes_cmp x y with Eq => sa_port a ?= sa_port b | c => c end
  end.
Definition addr_le (a b : SocketAddr) : Prop := addr_cmp a b <> Gt.

#[export] Instance addr_le_dec a b : Decision (addr_le a b).
Proof. unfold addr_le. apply _. Defined.

Fixpoint dedup_addrs (l : list SocketAddr) : list SocketAddr :=
  match l with
  | x :: (y :: _) as l' => if decide (x = y) then dedup_addrs l' else x :: dedup_addrs l'
  | _ => l
  end.

Section Discovery.
Context `{Resolver}.

Definition discover_from_dns (n : NetworkType) : list SocketAddr :=
  dns_seeds n ≫= fun seed => from_option id [] (resolve_seed seed).

Definition get_known_peers (n : NetworkType) : list SocketAddr := omap parse_socket_addr (known_peer_texts n).

Definition discover_all (n : NetworkType) : list SocketAddr :=
  let peers := discover_from_dns n in
  let peers := match peers with [] => get_known_peers n | _ => peers end in
  dedup_addrs (merge_sort addr_le peers).

Definition parse_peer_address (addr : bytes) (port : Z) : option SocketAddr :=
  match parse_socket_addr addr with
  | Some a => Some a
  | None =>
      match (if existsb (fun c => c =? 58) addr then None
             else parse_socket_addr (addr ++ str_bytes ":" ++ Wallet.decimal port)) with
      | Some a => Some a
      | None => addrs ← resolve_seed addr; head addrs
      end
  end.

End Discovery.

(** ** Configuration (config.rs, main.rs) *)

Inductive StateType := ST_Utxo | ST_Digest.

Record NetworkSettings := mkNetworkSettings {
  ns_bind_address : bytes; ns_declared_address : option bytes; ns_known_peers : list bytes;
  ns_max_connections : nat; ns_max_outbound : nat }.
Record ApiSettings := mkApiSettings { as_bind_address : bytes; as_api_key : option bytes; as_public : bool }.
Record MiningSettings := mkMiningSettings {
  ms_enabled : bool; ms_internal : bool; ms_external : bool; ms_reward_address : option bytes; ms_threads : Z }.
Record WalletSettings := mkWalletSettings { wls_enabled : bool; wls_data_dir : bytes; wls_secret_file : bytes }.
Record ValidationSettings := mkValidationSettings { vs_max_transaction_cost : Z; vs_max_transaction_size : Z }.

Record NodeConfig := mkNodeConfig {
  nc_node_name : bytes; nc_network : bytes; nc_data_dir : bytes; nc_state_type : StateType;
  nc_blocks_to_keep : Z; nc_network_config : NetworkSettings; nc_api : ApiSettings;
  nc_mining : MiningSettings; nc_wallet : WalletSettings; nc_validation : ValidationSettings }.

Definition default_known_peers : list bytes :=
  [str_bytes "213.239.193.208:9030"; str_bytes "159.65.11.55:9030"; str_bytes "165.227.26.175:9030";
   str_bytes "159.89.116.15:9030"].
Definition testnet_known_peers : list bytes := [str_bytes "213.239.193.208:9020"].

Definition NetworkSettings_default : NetworkSettings :=
  mkNetworkSettings (str_bytes "0.0.0.0:9030") None default_known_peers 30 10.
Definition ApiSettings_default : ApiSettings := mkApiSettings (str_bytes "127.0.0.1:9053") None false.
Definition MiningSettings_default : MiningSettings := mkMiningSettings false false true None 0.
Definition WalletSettings_default : WalletSettings :=
  mkWalletSettings false (str_bytes "wallet") (str_bytes "secret.json").
Definition ValidationSettings_default : ValidationSettings := mkValidationSettings 4900000 98304.

Definition is_testnet (network : bytes) : bool := bool_decide (network = str_bytes "testnet").

Definition default_for_network (network : bytes) : NodeConfig :=
  let '(data_dir, known_peers) :=
    if is_testnet network then (str_bytes ".ergo-testnet", testnet_known_peers)
    else (str_bytes ".ergo", default_known_peers) in
  mkNodeConfig (str_bytes "ergo-rust-node") network data_dir ST_Utxo (-1)
    (mkNetworkSettings (ns_bind_address NetworkSettings_default) (ns_declared_address NetworkSettings_default)
       known_peers (ns_max_connections NetworkSettings_default) (ns_max_outbound NetworkSettings_default))
    ApiSettings_default MiningSettings_default WalletSettings_default ValidationSettings_default.

(** The arguments that reach the configuration.  Those that are not optional
    have a value whether given or not: [Args_default] has the defaults. *)
Record Args := mkArgs {
  ar_data_dir : option bytes; ar_network : bytes; ar_mining : bool; ar_internal_mining : bool;
  ar_mining_threads : Z; ar_mining_address : option bytes; ar_api_bind : bytes; ar_p2p_bind : bytes }.
Definition Args_default : Args :=
  mkArgs None (str_bytes "mainnet") false false 0 None (str_bytes "127.0.0.1:9053") (str_bytes "0.0.0.0:9030").

Class Toml := { toml_parse : bytes -> option NodeConfig; toml_print : NodeConfig -> option bytes }.

(** The configuration file: absent, not readable, or its text. *)
Inductive ConfigFile := CF_Absent | CF_Unreadable | CF_Text (content : bytes).

Inductive StartError := SE_ConfigRead | SE_ConfigParse | SE_Address (text : bytes) | SE_Bind (addr : SocketAddr) | SE_State (e : StateError).

(** The arguments over a configuration. *)
Definition override_config (args : Args) (c : NodeConfig) : NodeConfig :=
  let net := nc_network_config c in
  let mining := nc_mining c in
  mkNodeConfig (nc_node_name c) (ar_network args) (from_option id (nc_data_dir c) (ar_data_dir args)) (nc_state_type c)
    (nc_blocks_to_keep c)
    (mkNetworkSettings (ar_p2p_bind args) (ns_declared_address net) (ns_known_peers net) (ns_max_connections net)
       (ns_max_outbound net))
    (mkApiSettings (ar_api_bind args) (as_api_key (nc_api c)) (as_public (nc_api c)))
    (mkMiningSettings (ar_mining args || ar_internal_mining args) (ms_internal mining || ar_internal_mining args)
       (ms_external mining)
       (match ar_mining_address args with Some addr => Some addr | None => ms_reward_address mining end)
       (if ar_mining_threads args >? 0 then ar_mining_threads args else ms_threads mining))
    (nc_wallet c) (nc_validation c).

Section Config.
Context `{Toml}.

Definition config_load (file : ConfigFile) (args : Args) : result NodeConfig StartError :=
  let? config :=
    match file with
    | CF_Absent => Ok (default_for_network (ar_network args))
    | CF_Unreadable => Err SE_ConfigRead
    | CF_Text content => ok_or (toml_parse content) SE_ConfigParse
    end in
  Ok (override_config args config).

Definition config_save (c : NodeConfig) : option ConfigFile := CF_Text <$> toml_print c.

End Config.

(** ** The node (node.rs: [new], [run], [shutdown]) *)

Section NodeStart.
Context {ErgoBox Ext Tx PreHeader : Type} `{ErgoBoxOps ErgoBox} `{ExtensionOps Ext}
  `{TransactionOps ErgoBox Ext Tx} `{ChainTypes} `{!HeaderCodec} `{Blake2b256} `{BigUintBytes}
  {DB : Type} `{Storage DB} `{HashOrder} `{SectionLib} `{!RewardLib} `{Wallet.WalletLib} `{Wallet.FileEnv}
  (fmt_addr : SocketAddr -> bytes).

Record Node := mkNode {
  nd_config : NodeConfig;
  nd_state : StateManager DB;
  nd_mempool : Mempool.Mempool;
  nd_peers : PeerManager (Addr := SocketAddr);
  nd_miner : option Miner;
  nd_wallet : option Wallet.Wallet;
  nd_shutdown : bool;
  nd_api_running : bool
}.

Definition network_prefix (c : NodeConfig) : NetworkPrefix := if is_testnet (nc_network c) then Testnet else Mainnet.

(** Known peers that parse are added as outbound. *)
Definition initial_peers (now : Z) (c : NodeConfig) : PeerManager (Addr := SocketAddr) :=
  fold_left (fun pm text =>
    match parse_socket_addr text with
    | Some addr => add_peer pm (PeerInfo_new fmt_addr now addr true)
    | None => pm
    end) (ns_known_peers (nc_network_config c)) (PeerManager_new PeerManagerConfig_default).

(** [cpus] is the number of processors, [now] the time of the miner's clock. *)
Definition initial_miner (cpus now : Z) (c : NodeConfig) : option Miner :=
  let m := nc_mining c in
  if ms_enabled m then
    let threads := if ms_threads m =? 0 then Z.max cpus 1 else ms_threads m in
    let config := mkMinerConfig (ms_internal m) (ms_external m) (from_option id [] (ms_reward_address m)) threads
                    (network_prefix c) in
    Some (start (Miner_new config CandidateGenerator_new now))
  else None.

(** [file] is the content of the wallet's file.  The configuration of the
    wallet takes its network from the default, and a failed load is ignored. *)
Definition initial_wallet (file : option bytes) (c : NodeConfig) : option Wallet.Wallet :=
  if wls_enabled (nc_wallet c)
  then Some (Wallet.load (Wallet.Wallet_new Wallet.WalletConfig_default file)).2
  else None.

Definition node_new (cpus now : Z) (wallet_file : option bytes) (storage : DB) (c : NodeConfig) : result Node StartError :=
  match manager_init (Tx := Tx) storage with
  | Err e => Err (SE_State e)
  | Ok state =>
      Ok (mkNode c state (Mempool.Mempool_new Mempool.MempoolConfig_default) (initial_peers now c)
            (initial_miner cpus now c) (initial_wallet wallet_file c) false false)
  end.

(** What the network service is given. *)
Record NetworkConfig := mkNetworkConfig {
  nw_listen_addr : SocketAddr; nw_magic : bytes; nw_agent_name : bytes; nw_node_name : bytes;
  nw_max_connections : nat; nw_connection : ConnectionConfig }.

Definition network_config (c : NodeConfig) (bind_addr : SocketAddr) : NetworkConfig :=
  mkNetworkConfig bind_addr (if is_testnet (nc_network c) then TESTNET_MAGIC else MAINNET_MAGIC)
    (str_bytes "ergo-rust-node") (nc_node_name c) (ns_max_connections (nc_network_config c)) ConnectionConfig_default.

(** The commands sent to the service before the router runs. *)
Definition connect_known (c : NodeConfig) : list NetworkCommand :=
  omap (fun text => NC_Connect <$> parse_socket_addr text) (ns_known_peers (nc_network_config c)).

Definition bind_address (can_bind : SocketAddr -> bool) (text : bytes) : result SocketAddr StartError :=
  let? addr := ok_or (parse_socket_addr text) (SE_Address text) in
  if can_bind addr then Ok addr else Err (SE_Bind addr).

(** What the services of a node start with. *)
Record Services := mkServices {
  svc_api_addr : SocketAddr;
  svc_api : AppState DB;
  svc_network : NetworkConfig;
  svc_router : Router DB;
  svc_commands : list NetworkCommand;
  svc_mining : option (result EcPoint MiningError * Miner)
}.

(** The address of the service is bound by its own task, which ends when that
    fails. *)
Definition start_services (can_bind : SocketAddr -> bool) (n : Node) : result Services StartError :=
  let c := nd_config n in
  let? api_addr := bind_address can_bind (as_bind_address (nc_api c)) in
  let api := node_app (nd_state n) (nd_mempool n) (nd_peers n) (nc_node_name c)
               (ms_enabled (nc_mining c)) (ms_reward_address (nc_mining c)) (as_api_key (nc_api c)) in
  let? bind_addr := ok_or (parse_socket_addr (ns_bind_address (nc_network_config c)))
                      (SE_Address (ns_bind_address (nc_network_config c))) in
  Ok (mkServices api_addr api (network_config c bind_addr) (start_router (nd_state n) (nd_mempool n)) (connect_known c)
        (match nd_miner n with
         | Some m => if internal_mining (mn_config m) then Some (begin_internal_mining m) else None
         | None => None
         end)).

(** [shutdown]: the loops of the node read the flag; the store is flushed. *)
Definition node_shutdown (n : Node) : Node :=
  mkNode (nd_config n) (nd_state n) (nd_mempool n) (nd_peers n) (stop <$> nd_miner n) (nd_wallet n) true false.

End NodeStart.

(** ** What discovery promises *)

Definition addr_lt (a b : SocketAddr) : Prop := addr_cmp a b = Lt.

Lemma addr_cmp_eq a b : addr_cmp a b = Eq <-> a = b.
Proof.
  destruct a as [ia pa], b as [ib pb]. unfold addr_cmp. cbn [sa_ip sa_port]. split.
  - destruct ia as [x|x], ib as [y|y]; try done; destruct (bytes_cmp x y) eqn:E; try done;
      apply bytes_cmp_eq in E as ->; by intros ->%Z.compare_eq.
  - intros [= -> ->]. destruct ib; by rewrite bytes_cmp_refl, Z.compare_refl.
Qed.

Lemma addr_cmp_antisym a b : addr_cmp b a = CompOpp (addr_cmp a b).
Proof.
  destruct a as [ia pa], b as [ib pb]. unfold addr_cmp. cbn [sa_ip sa_port].
  destruct ia as [x|x], ib as [y|y]; try done; rewrite (bytes_cmp_antisym x y);
    destruct (bytes_cmp x y); try done; apply Z.compare_antisym.
Qed.

Lemma addr_lt_trans a b c : addr_lt a b -> addr_lt b c -> addr_lt a c.
Proof.
  destruct a as [ia pa], b as [ib pb], c as [ic pc]. unfold addr_lt, addr_cmp. cbn [sa_ip sa_port].
  destruct ia as [x|x], ib as [y|y], ic as [z|z]; try done;
    destruct (bytes_cmp x y) eqn:E1; try done; destruct (bytes_cmp y z) eqn:E2; try done.
  all: try (apply bytes_cmp_eq in E1 as ->). all: try (apply bytes_cmp_eq in E2 as ->).
  all: rewrite ?bytes_cmp_refl, ?E1, ?E2, ?(bytes_cmp_trans _ _ _ E1 E2); try done.
  all: rewrite !Z.compare_lt_iff; lia.
Qed.

Lemma addr_le_cases a b : addr_le a b <-> a = b \/ addr_lt a b.
Proof.
  unfold addr_le, addr_lt. rewrite <- addr_cmp_eq. destruct (addr_cmp a b); naive_solver.
Qed.

#[export] Instance addr_le_total : Total addr_le.
Proof.
  intros a b. unfold addr_le. rewrite (addr_cmp_antisym a b). destruct (addr_cmp a b); cbn; [by left|by left|by right].
Qed.
#[export] Instance addr_le_transitive : Transitive addr_le.
Proof.
  intros a b c. rewrite !addr_le_cases. intros [->|H1] [->|H2]; [by left|by right|by right|right].
  by eapply addr_lt_trans.
Qed.

Lemma dedup_addrs_elem l a : a ∈ dedup_addrs l <-> a ∈ l.
Proof.
  induction l as [|x [|y l] IH]; cbn [dedup_addrs]; [done|done|].
  case_decide as Hxy; [subst|]; rewrite ?elem_of_cons in *; naive_solver.
Qed.

Lemma dedup_addrs_strict l : StronglySorted addr_le l -> StronglySorted addr_lt (dedup_addrs l).
Proof.
  induction l as [|x [|y l] IH]; cbn [dedup_addrs]; [constructor|by repeat constructor|].
  intros [Hs Hf]%StronglySorted_inv. specialize (IH Hs). case_decide as Hxy; [done|].
  constructor; [done|]. apply Forall_forall. intros a Ha.
  assert (a ∈ y :: l) as Hin by (by apply dedup_addrs_elem). rewrite Forall_forall in Hf.
  pose proof (Hf y ltac:(constructor)) as [->|Hlt]%addr_le_cases; [done|].
  apply StronglySorted_inv in Hs as [_ Hy]. rewrite Forall_forall in Hy.
  apply elem_of_cons in Hin as [->|Hin]; [done|].
  apply Hy, addr_le_cases in Hin as [->|Hl]; [done|]. by eapply addr_lt_trans.
Qed.

(** Every known address of the code is one, on the port of its network. *)
Lemma known_peers_parse n :
  length (get_known_peers n) = length (known_peer_texts n) /\
  Forall (fun a => sa_port a = default_port n) (get_known_peers n).
Proof. destruct n; vm_compute; repeat constructor. Qed.

(** Discovery is never empty-handed: it gives what the seeds resolve to, or
    the known peers when no seed does, in order and without duplicates. *)
Theorem discovery_never_empty `{Resolver} n :
  let found := discover_all n in
  found <> [] /\ StronglySorted addr_lt found /\
  forall a, a ∈ found <->
    a ∈ discover_from_dns n \/
    (forall seed, seed ∈ dns_seeds n -> from_option id [] (resolve_seed seed) = []) /\ a ∈ get_known_peers n.
Proof.
  cbn zeta. unfold discover_all.
  assert (discover_from_dns n = [] <-> forall seed, seed ∈ dns_seeds n -> from_option id [] (resolve_seed seed) = []) as Hdns.
  { unfold discover_from_dns. induction (dns_seeds n) as [|x l IH]; cbn [mbind list_bind].
    - split; [|done]. intros _ s Hs. by apply not_elem_of_nil in Hs.
    - split.
      + intros [Hx Hl]%app_nil s [->|Hs]%elem_of_cons; [done|]. by apply IH.
      + intros Hall. rewrite (Hall x) by constructor. apply IH. intros s Hs. apply Hall. by constructor. }
  set (peers := match discover_from_dns n with [] => get_known_peers n | _ => discover_from_dns n end).
  assert (forall a, a ∈ dedup_addrs (merge_sort addr_le peers) <-> a ∈ peers) as Helem.
  { intros a. by rewrite dedup_addrs_elem, merge_sort_Permutation. }
  assert (peers <> []) as Hne.
  { unfold peers. destruct (discover_from_dns n); [|done]. by destruct n. }
  split; [|split].
  - intros Hn. destruct peers as [|a l]; [done|]. assert (a ∈ @nil SocketAddr) as Ha.
    { rewrite <- Hn. apply Helem. constructor. } by apply not_elem_of_nil in Ha.
  - apply dedup_addrs_strict. apply (StronglySorted_merge_sort addr_le).
  - intros a. rewrite Helem, <- Hdns. unfold peers. destruct (discover_from_dns n) as [|b l].
    + split; [by right|]. by intros [Ha%not_elem_of_nil|[_ Ha]].
    + split; [by left|]. by intros [Ha|[? _]].
Qed.

(** ** What the configuration promises *)

Class TomlLaws `{Toml} : Prop := toml_read_back c text : toml_print c = Some text -> toml_parse text = Some c.

(** The arguments that say what a configuration says. *)
Definition args_of (c : NodeConfig) : Args :=
  mkArgs None (nc_network c) (ms_enabled (nc_mining c)) (ms_internal (nc_mining c)) 0 None
    (as_bind_address (nc_api c)) (ns_bind_address (nc_network_config c)).

(** A saved configuration is loaded back by the arguments that repeat its
    network, its addresses and its mining flags.  Without arguments those come
    from their defaults, whatever the file says: a configuration saved for the
    test network starts a node of the main network, on the ports of the main
    network and without mining. *)
Theorem saved_config_loads `{TomlLaws} c file :
  config_save c = Some file -> (ms_internal (nc_mining c) = true -> ms_enabled (nc_mining c) = true) ->
  config_load file (args_of c) = Ok c /\
  exists c', config_load file Args_default = Ok c' /\
    nc_network c' = str_bytes "mainnet" /\
    ns_bind_address (nc_network_config c') = str_bytes "0.0.0.0:9030" /\
    as_bind_address (nc_api c') = str_bytes "127.0.0.1:9053" /\
    ms_enabled (nc_mining c') = false /\
    ns_known_peers (nc_network_config c') = ns_known_peers (nc_network_config c) /\
    nc_data_dir c' = nc_data_dir c.
Proof.
  unfold config_save. destruct (toml_print c) as [text|] eqn:Ht; [|done]. intros [= <-] Hm.
  unfold config_load. rewrite (toml_read_back c text Ht). cbn [ok_or rbind]. split.
  - f_equal. destruct c as [name net dir ty keep [] [] [en int ext rew th] wal val]. unfold override_config, args_of. cbn in *.
    destruct int; [rewrite (Hm eq_refl)|rewrite orb_false_r]; done.
  - eexists. split; [reflexivity|]. done.
Qed.

(** ** What a started node is *)

Section NodeSpec.
Context {ErgoBox Ext Tx PreHeader : Type} `{ErgoBoxOps ErgoBox} `{ExtensionOps Ext}
  `{TransactionOps ErgoBox Ext Tx} `{ChainTypes} `{!HeaderCodec} `{Blake2b256} `{BigUintBytes}
  {DB : Type} `{Storage DB} `{HashOrder} `{SectionLib} `{!RewardLib} `{Wallet.WalletLib} `{Wallet.FileEnv}
  (fmt_addr : SocketAddr -> bytes).

Abbreviation node := (Node (DB := DB)).

Definition with_config (c : NodeConfig) (n : node) : node :=
  mkNode c (nd_state n) (nd_mempool n) (nd_peers n) (nd_miner n) (nd_wallet n) (nd_shutdown n) (nd_api_running n).

Definition started (can_bind : SocketAddr -> bool) (cpus now : Z) (file : option bytes) (storage : DB) (c : NodeConfig)
    : result (Services (DB := DB)) StartError :=
  let? n := node_new (Tx := Tx) fmt_addr cpus now file storage c in start_services can_bind n.

(** The same configuration but for the type of the state, the number of blocks
    to keep, the limits of validation, the declared address, the limit of
    outbound connections and the openness of the API. *)
Definition other_settings (ty : StateType) (keep : Z) (val : ValidationSettings) (declared : option bytes)
    (outbound : nat) (public : bool) (c : NodeConfig) : NodeConfig :=
  let net := nc_network_config c in
  mkNodeConfig (nc_node_name c) (nc_network c) (nc_data_dir c) ty keep
    (mkNetworkSettings (ns_bind_address net) declared (ns_known_peers net) (ns_max_connections net) outbound)
    (mkApiSettings (as_bind_address (nc_api c)) (as_api_key (nc_api c)) public)
    (nc_mining c) (nc_wallet c) val.

(** Settings no part of the node reads. *)
Theorem settings_without_effect can_bind cpus now file storage ty keep val declared outbound public c :
  started can_bind cpus now file storage (other_settings ty keep val declared outbound public c) =
  started can_bind cpus now file storage c.
Proof.
  unfold started, node_new. destruct (manager_init storage) as [m|e]; [|done]. cbn [rbind]. reflexivity.
Qed.

(** The node joins the network its configuration names, with a wallet of the
    main network; the address of its own service need not be free. *)
Theorem network_of_services can_bind cpus now file storage c n s :
  node_new (Tx := Tx) fmt_addr cpus now file storage c = Ok n -> start_services can_bind n = Ok s ->
  nw_magic (svc_network s) = (if is_testnet (nc_network c) then TESTNET_MAGIC else MAINNET_MAGIC) /\
  (forall m, nd_miner n = Some m -> mc_network (mn_config m) = network_prefix c) /\
  (forall w, nd_wallet n = Some w -> Wallet.wc_network (Wallet.wa_config w) = Mainnet) /\
  svc_commands s = connect_known c /\
  forall bound, (forall a, parse_socket_addr (as_bind_address (nc_api c)) = Some a -> bound a = true) ->
    start_services bound n = Ok s.
Proof.
  unfold node_new. destruct (manager_init storage) as [st|e]; [|done]. intros [= <-]. unfold start_services. cbn [nd_config].
  intros (api & Ha & (addr & Hb & [= <-])%rbind_ok)%rbind_ok. cbn [svc_network svc_commands nd_miner nd_wallet].
  split; [done|]. split; [|split; [|split; [done|]]].
  - intros m. unfold initial_miner. destruct (ms_enabled _); [|done]. by intros [= <-].
  - intros w. unfold initial_wallet. destruct (wls_enabled _); [|done]. intros [= <-].
    unfold Wallet.load, Wallet.on_keystore. by destruct (Wallet.ks_load _) as [r ks].
  - intros bound Hbound. rewrite Hb. unfold bind_address in *.
    destruct (parse_socket_addr (as_bind_address (nc_api c))) as [a|]; [|done]. cbn [ok_or rbind] in *.
    rewrite (Hbound a eq_refl). destruct (can_bind a); [|done]. by injection Ha as ->.
Qed.

(** Internal mining without a reward address ends at once, and counts as
    running. *)
Theorem mining_without_address can_bind cpus now file storage c s :
  ms_enabled (nc_mining c) = true -> ms_internal (nc_mining c) = true -> ms_reward_address (nc_mining c) = None ->
  started can_bind cpus now file storage c = Ok s ->
  exists m, svc_mining s = Some (Err NoRewardAddress, m) /\ mn_internal_running m = true.
Proof.
  intros He Hi Hr. unfold started, node_new. destruct (manager_init storage) as [st|e]; [|done]. cbn [rbind].
  unfold start_services. cbn [nd_config nd_miner]. intros (api & _ & (addr & _ & [= <-])%rbind_ok)%rbind_ok. cbn [svc_mining].
  unfold initial_miner. rewrite He, Hi, Hr. cbn [from_option]. eexists. split; [reflexivity|]. reflexivity.
Qed.

(** The peers a node starts with: the known ones, none of them connected or
    banned. *)
Theorem initial_peers_known now c id p :
  peers (initial_peers fmt_addr now c) !! id = Some p ->
  exists text addr, text ∈ ns_known_peers (nc_network_config c) /\ parse_socket_addr text = Some addr /\
    id = fmt_addr addr /\ p = PeerInfo_new fmt_addr now addr true.
Proof.
  unfold initial_peers. set (l := ns_known_peers _). clearbody l.
  assert (forall pm, (forall i q, peers pm !! i = Some q -> exists text addr, text ∈ l /\ parse_socket_addr text = Some addr /\
      i = fmt_addr addr /\ q = PeerInfo_new fmt_addr now addr true) -> forall sub, (forall x, x ∈ sub -> x ∈ l) ->
    peers (fold_left (fun pm text => match parse_socket_addr text with
      | Some addr => add_peer pm (PeerInfo_new fmt_addr now addr true) | None => pm end) sub pm) !! id = Some p ->
    exists text addr, text ∈ l /\ parse_socket_addr text = Some addr /\ id = fmt_addr addr /\
      p = PeerInfo_new fmt_addr now addr true) as Hgen.
  { intros pm Hpm sub. revert pm Hpm. induction sub as [|x sub IH]; intros pm Hpm Hsub; cbn [fold_left]; [apply Hpm|].
    apply IH; [|intros y Hy; apply Hsub; by constructor]. destruct (parse_socket_addr x) as [addr|] eqn:Hx; [|exact Hpm].
    intros i q. cbn [add_peer peers set_peers]. rewrite lookup_insert. case_decide as Hi; [|apply Hpm].
    intros [= <-]. exists x, addr. split; [apply Hsub; constructor|]. split; [done|]. split; [by subst|done]. }
  apply Hgen; [|done]. intros i q Hq. cbn [peers PeerManager_new] in Hq. by apply lookup_empty_Some in Hq.
Qed.
End NodeSpec.

(** ** Examples *)

#[export] Instance StateType_eq_dec : EqDecision StateType.
Proof. solve_decision. Defined.
#[export] Instance NetworkSettings_eq_dec : EqDecision NetworkSettings.
Proof. solve_decision. Defined.
#[export] Instance ApiSettings_eq_dec : EqDecision ApiSettings.
Proof. solve_decision. Defined.
#[export] Instance MiningSettings_eq_dec : EqDecision MiningSettings.
Proof. solve_decision. Defined.
#[export] Instance WalletSettings_eq_dec : EqDecision WalletSettings.
Proof. solve_decision. Defined.
#[export] Instance ValidationSettings_eq_dec : EqDecision ValidationSettings.
Proof. solve_decision. Defined.
#[export] Instance NodeConfig_eq_dec : EqDecision NodeConfig.
Proof. solve_decision. Defined.

Module StartExample.

Definition testnet_node : NodeConfig := default_for_network (str_bytes "testnet").

(** One configuration has a text. *)
#[export] Instance toy_toml : Toml := {
  toml_parse _ := Some testnet_node;
  toml_print c := if decide (c = testnet_node) then Some [1] else None }.
#[export] Instance toy_toml_laws : TomlLaws.
Proof. intros c text. cbn. case_decide; [|done]. by intros _; subst. Qed.

Lemma saved_config_loads_witness :
  config_load (CF_Text [1]) (args_of testnet_node) = Ok testnet_node /\
  exists c, config_load (CF_Text [1]) Args_default = Ok c /\
    nc_network c = str_bytes "mainnet" /\ ns_known_peers (nc_network_config c) = testnet_known_peers.
Proof.
  destruct (saved_config_loads testnet_node (CF_Text [1])) as (H1 & c & Hc & Hn & _ & _ & _ & Hp & _).
  - reflexivity.
  - discriminate.
  - split; [exact H1|]. exists c. split; [exact Hc|]. split; [exact Hn|exact Hp].
Defined.

Import Toy Mem NodeSpec.NodeExample.
#[local] Existing Instances WalletSpec.WalletExample.toy_lib WalletSpec.WalletExample.toy_fs Mem.mem_storage Mem.mem_laws.
#[local] Instance no_rewards : RewardLib := {
  RwAddress := unit; RwTree := unit; rw_parse_address _ _ := None; rw_script _ := None;
  rw_box_value _ := None; rw_p2pk _ := None }.

Definition fmt (a : SocketAddr) : bytes := match sa_ip a with IP_V4 o | IP_V6 o => o end ++ [sa_port a].
Definition any_bind (a : SocketAddr) : bool := true.
Definition api_only (a : SocketAddr) : bool := sa_port a =? 9053.

(** Internal mining without an address, and a wallet, on the test network. *)
Definition miner_args : Args :=
  mkArgs None (str_bytes "testnet") false true 0 None (str_bytes "127.0.0.1:9053") (str_bytes "0.0.0.0:9020").
Definition config1 : NodeConfig :=
  let c := override_config miner_args testnet_node in
  mkNodeConfig (nc_node_name c) (nc_network c) (nc_data_dir c) (nc_state_type c) (nc_blocks_to_keep c) (nc_network_config c)
    (nc_api c) (nc_mining c) (mkWalletSettings true (str_bytes "wallet") (str_bytes "secret.json")) (nc_validation c).

Abbreviation start1 := (started (Tx := toy_tx) fmt any_bind 4 0 None (Mem.empty : Mem.t) config1).

Lemma start1_ok : is_ok start1 = true.
Proof. vm_compute. reflexivity. Qed.

Lemma mining_without_address_witness :
  exists s m, start1 = Ok s /\ svc_mining s = Some (Err NoRewardAddress, m) /\ mn_internal_running m = true.
Proof.
  pose proof start1_ok as Hok. destruct start1 as [s|] eqn:Hs; [|discriminate Hok].
  destruct (mining_without_address (Tx := toy_tx) fmt any_bind 4 0 None (Mem.empty : Mem.t) config1 s) as (m & H1 & H2).
  - reflexivity.
  - reflexivity.
  - reflexivity.
  - exact Hs.
  - exists s, m. split; [reflexivity|]. split; [exact H1|exact H2].
Defined.

Lemma network_of_services_witness :
  exists (n : Node (DB := Mem.t)) s w, nd_wallet n = Some w /\ Wallet.wc_network (Wallet.wa_config w) = Mainnet /\
    nw_magic (svc_network s) = TESTNET_MAGIC /\ start_services (DB := Mem.t) api_only n = Ok s.
Proof.
  pose proof start1_ok as Hok. unfold started in Hok.
  destruct (node_new (Tx := toy_tx) fmt 4 0 None (Mem.empty : Mem.t) config1) as [n|] eqn:Hn; [|discriminate Hok].
  cbn [rbind] in Hok. destruct (start_services any_bind n) as [s|] eqn:Hs; [|discriminate Hok].
  destruct (network_of_services (Tx := toy_tx) fmt any_bind 4 0 None (Mem.empty : Mem.t) config1 n s Hn Hs)
    as (Hm & _ & Hw & _ & Hb).
  assert (is_Some (nd_wallet n)) as [w Hnw].
  { unfold node_new in Hn. destruct (manager_init _); [|discriminate Hn]. injection Hn as <-. by eexists. }
  exists n, s, w. split; [exact Hnw|]. split; [exact (Hw w Hnw)|]. split; [exact Hm|].
  apply Hb. intros a Ha. assert (parse_socket_addr (as_bind_address (nc_api config1)) = Some (mkSocketAddr (IP_V4 [127; 0; 0; 1]) 9053))
    as Hp by (vm_compute; reflexivity). rewrite Hp in Ha. injection Ha as <-. reflexivity.
Defined.

Lemma initial_peers_known_witness :
  exists text, text ∈ ns_known_peers (nc_network_config config1) /\
    parse_socket_addr text = Some (mkSocketAddr (IP_V4 [213; 239; 193; 208]) 9020).
Proof.
  destruct (initial_peers_known fmt 0 config1 [213; 239; 193; 208; 9020]
    (PeerInfo_new fmt 0 (mkSocketAddr (IP_V4 [213; 239; 193; 208]) 9020) true)) as (text & addr & Hin & Hp & _ & Heq).
  - vm_compute. reflexivity.
  - exists text. split; [exact Hin|]. rewrite Hp. f_equal. by injection Heq.
Defined.

End StartExample.
